(* ===== verification/_CoqProject ===== *)
-Q . S2P
Prelude.v
BufferSequence.v
ReceiveBuffer.v
RingReceiveBuffer.v
ByteQueue.v
HttpMessage.v
HttpRequestParser.v
HttpParserTheory.v
HttpParserSplit.v
HttpParserLimits.v
ProtocolSession.v
HttpRouter.v
HttpResponseEncoder.v
HttpSession.v
HttpSessionTheory.v
HttpSessionSplit.v
Http2Frames.v
Huffman.v
HuffmanTheory.v
Hpack.v
HpackTheory.v
Http2Outbound.v
Http2OutboundTheory.v
Http2Session.v
Http2SessionTheory.v
Http2SessionFeed.v
Http2Request.v
SendQueue.v
TcpConnection.v
TcpConnectionTheory.v
TcpConnectionRuns.v
Executor.v
ManualExecutor.v
SerialExecutor.v
ThreadPoolExecutor.v
IocpExecutor.v
Executors.v
LengthPrefixed.v
PrefaceBootstrap.v
TimerService.v
TcpListener.v
TcpConnector.v
IoContext.v
ConnectionRegistry.v
StringMap.v
SimpleTemplate.v
JsonUtils.v
Logging.v
ConfigUtils.v
HttpConfiguration.v
HttpConfigurationTheory.v
HttpConfigurationLoad.v
EchoConfiguration.v
EchoConfigurationTheory.v
EchoConfigurationLoad.v
Multipart.v
ServerLifecycle.v
ServerConnections.v
WebAppBoard.v
WebAppBoardTheory.v
WebAppDatabase.v
WebApp.v
WebAppTheory.v
WebAppConfiguration.v
SocketOptions.v
PlatformWindows.v
IoContextDestroy.v
Usage.v
EchoClient.v
Programs.v
WebAppServer.v
Conformance.v
