(* ===== verification/Prelude.v ===== *)
(** * Verification of iocp-http-runtime

    iocp-http-runtime is a C++ server runtime for Windows: an I/O completion port with its
    threads, TCP listener, connector and connections on top of it, executors, and the protocols
    HTTP/1.1, HTTP/2 and a sample protocol.  This library models the program in Rocq, one file
    per class or group of classes, and proves what the classes promise to each other and to
    their users.  Names of definitions are the names of the C++ functions and members; where
    several classes have a function of one name, the file tells them apart
    ([ManualExecutor.Post], [SerialExecutor.Post]).

    ** How the parts work together

    The threads of [IoContext] take packets from the completion port and call
    [CompletionOperation::Complete] or run a task of [IocpExecutor].  [TcpListener] and
    [TcpConnector] produce sockets, which become [TcpConnection]s that are kept in the
    [ConnectionRegistry].  A connection owns a [SendQueue], has an idle timer of
    [TimerService] and gives the bytes it receives to a protocol session
    ([IProtocolSession::Feed]).  [PrefaceProtocolBootstrap] looks at the first bytes and chooses
    between [HttpSession] and the HTTP/2 session.  A session keeps its bytes in a
    [RingReceiveBuffer], parses them ([HttpRequestParser], or frames and HPACK), and hands
    requests to a router or dispatcher, which posts them to an executor.  Responses come back
    through [HttpResponseEncoder] or, for HTTP/2, the outbound scheduler, which obeys flow
    control, and end in the send queue of the connection.

    Three applications use the runtime: an HTTP server, an echo server with its client, and a
    web application with a login and a board.  A server reads its options, builds a logger, owns
    the I/O context, the executor, the listener and the registry, gives every accepted connection
    its handler, and takes all of this apart again in [Stop].

    ** Files

    Paths are relative to [src/src/], those of the applications to [src/].

    - [Prelude]: bytes, machine integers, results and exceptions, lists with integer indices,
      weights, tactics and rewriting databases.
    - [BufferSequence], [ReceiveBuffer], [RingReceiveBuffer], [ByteQueue]: [buffer/].
      [ByteQueue] states the abstract queue of bytes as a class with laws and shows that both
      buffers implement it.
    - [HttpMessage], [HttpRequestParser], [HttpParserTheory], [HttpParserSplit],
      [HttpParserLimits]: [protocol/http/http_message], [http_request_parser].
    - [ProtocolSession], [HttpRouter], [HttpResponseEncoder], [HttpSession],
      [HttpSessionTheory], [HttpSessionSplit]: [protocol/protocol_session.h],
      [protocol/http/http_router], [http_response_encoder], [http_session].
    - [Http2Frames], [Huffman], [HuffmanTheory], [Hpack], [HpackTheory], [Http2Outbound],
      [Http2OutboundTheory], [Http2Session], [Http2SessionTheory], [Http2SessionFeed],
      [Http2Request]: [protocol/http2/].
    - [SendQueue], [TcpConnection], [TcpConnectionTheory], [TcpConnectionRuns], [TcpListener],
      [TcpConnector], [ConnectionRegistry]: [transport/].
    - [Executor], [ManualExecutor], [SerialExecutor], [ThreadPoolExecutor], [IocpExecutor],
      [Executors]: [execution/].  [Executor] has the contract of [IExecutor] as a class;
      [Executors] states the theorems that hold for all implementations.
    - [LengthPrefixed], [PrefaceBootstrap]: [protocol/sample/],
      [protocol/preface_protocol_bootstrap].
    - [TimerService]: [core/timer_service].
    - [StringMap], [SimpleTemplate], [JsonUtils]: [protocol/http/simple_template],
      [core/json_utils].
    - [IoContext], [IoContextDestroy]: [runtime/].
    - [PlatformWindows]: [platform/windows/].
    - [SocketOptions]: the options of [transport/tcp_connection].
    - [Logging], [ConfigUtils]: [core/logging], [core/config_utils].
    - [HttpConfiguration], [HttpConfigurationTheory], [HttpConfigurationLoad]:
      [apps/http_server/configuration].
    - [EchoConfiguration], [EchoConfigurationTheory], [EchoConfigurationLoad]:
      [apps/echo_server/configuration], [toml_config_loader].
    - [ServerLifecycle], [ServerConnections]: [apps/http_server/http_server],
      [apps/echo_server/echo_server], and of [apps/webapp/webapp] what concerns connections and
      [Stop].
    - [EchoClient]: [apps/echo_client/main].
    - [Programs], [Usage]: the [main] functions of the servers, and the usage texts.
    - [WebAppServer]: construction and life of [apps/webapp/webapp].
    - [Multipart], [WebAppBoard], [WebAppBoardTheory], [WebAppDatabase], [WebApp],
      [WebAppTheory], [WebAppConfiguration]: [apps/webapp/].
    - [Conformance]: tests of [tests/] that are run on the models.

    ** How code is modelled

    A function without side effects is a function; a method takes and returns the record of
    the members of its class.  A function that can throw returns a [result]: a value, or the
    exception.  Three further exceptions do not exist in C++: [UndefinedBehavior] is the result
    of an access out of range or a cast to a wrong type, [UndefinedShift] of arithmetic on signed
    integers whose result does not fit, and [NonTermination] of a loop that has used up its
    fuel.  A theorem that a function returns a value thus also says that it terminates and stays
    within its memory.  Unsigned integers are integers with their wrap-around written out ([u64]
    and so on).

    Where threads interact, a step is one critical section, since the code holds a mutex
    exactly there, or one call between two critical sections; the steps of all threads form a
    relation, and a theorem about its reachable states holds for every interleaving.  So the
    outbound scheduler of HTTP/2 computes its frames in one step and sends each of them in
    another, and a log sink takes its lock, gives its stream a piece of the line, and returns in
    steps of their own.  Liveness
    is stated without assumptions on the scheduler: the number of steps of the code is bounded,
    and as long as the goal is not reached another step is possible.

    Code that is not part of the repository (Winsock, the completion port, the clock, SQLite, the
    TOML parser, the file system, and allocation where it matters) is a parameter: its answers are
    arguments of the steps or functions of a class, and theorems hold for all of them or under
    hypotheses that state documented behaviour.

    ** Fuel

    Loops that are not structural have fuel.  It is computed from the input by the function
    that starts the loop, never given by the caller of the model: the number of buffered bytes
    plus one for loops that consume a byte or a frame per round ([HttpSession], [LengthPrefixed],
    the frame loop of HTTP/2), the length of the input for the parser and the HPACK decoder, and
    the number of bits for Huffman codes.  [parse_total], [hpack_decode_safe],
    [huffman_decode_safe], [session_orderly], [h2_session_safe] and [outbound_flow_control] show
    that it is enough.

    ** What the theorems show

    - Buffers: both receive buffers refine a bounded queue of bytes and answer alike.
    - HTTP/1.1: the parser terminates on all inputs through its whole life, a request it hands
      out keeps every configured limit, and neither it nor the session depends on how the bytes
      were cut into reads; requests are numbered and dispatched in order; the answers of the
      router; no header or reason of the application can forge a line of a response, if the
      configured server name has no line break.
    - HTTP/2: round trips of frames, integers and Huffman codes, which is also how the limits of
      the frame codec were found; an HPACK session is decoded as it was encoded if and only if it
      has no byte [0xdc]; on any input the decoder stays within its memory and limits, and evaluates
      an undefined shift only for oversized integers; the scheduler computes responses completely
      and within the windows and the frame size of the peer, and what threads that overlap can
      reorder is exactly the sending; the session keeps its invariant for any input up to such a
      shift, delivers requests without a body on streams below [2^16], accounts for windows, and
      only collects bytes after GOAWAY.
    - Transport: a connection counts its operations exactly, sends its bytes in order, and
      closes after them; the send queue admits what fits; listener and connector account for
      their operations, hand over every connection once, and drain; so do the workers of the
      completion port.
    - Executors: every accepted task runs exactly once or is cancelled, with limits, order and
      termination of stopping.
    - Timers run once, on time and never after they were cancelled; due timers do run.
    - The sample protocol delivers what was encoded; the bootstrap is transparent.
    - Templates replace exactly the marked keys; JSON objects are read back if they have no
      quotation marks in their values.
    - Logging writes, loses or still has every record once for each sink that admits it; a stream
      with one sink gets one line per record that no event, message or value can break.
    - Configuration: where each option comes from, and that the options a server starts with are
      accepted by every component (but for sizes that no vector can have) and fit together (but
      for the two bytes at the end of a request line).
    - Servers: after [Stop] nothing is left of a server; no connection escapes [Stop], which
      always gets to its end; responses are on the wire whole and in order, and the echo server
      sends back what it received.  A program that returns from [main] has left nothing of its
      server.  An I/O context can be destroyed by every thread, its own workers included.
    - Sockets are closed exactly once; the echo client closes every socket and shows what was
      echoed.
    - Web application: uploads and forms are read back; the pages behind the login run only when
      the query for the cookie finds a user, which a cookie with SQL in it can achieve too; a
      login opens a session; the text of a post reaches SQLite as one statement with the post as
      its literals if it has no apostrophe and no zero byte; and what users write does not change
      the markup of a page.

    Some theorems show what the code does where its documentation says otherwise; they are
    the ones about identifiers of frames above 16 bits, the Huffman code of the byte [0xdc],
    oversized HPACK integers, early window updates, frames that overtake each other, GOAWAY,
    closing with an empty batch, cancelled timers, two log sinks on one stream, requests that
    fill the buffer, quotation marks in JSON, apostrophes in SQL, and the timeouts of the web
    application.

    ** Not modelled

    [JsonValue::GetNumber], which nothing of the program calls and which leaves the conversion of
    floating point numbers to [std::from_chars]; what is logged, apart from the logger itself,
    and the texts and codes of exceptions; running out of memory, except where the code handles
    it; mutexes that cannot be locked.  The handlers of the web application are modelled as
    functions of the state that are called one after the other, although two threads call them:
    what is not specified there is the order of their calls of SQLite. *)

From stdpp Require Export base tactics list gmap strings.
From Stdlib Require Export ZArith Lia Bool.
From Stdlib Require Import Strings.Byte.
From Stdlib Require Strings.String Strings.Ascii.

#[export] Set Default Goal Selector "!".
Open Scope Z_scope.

(** ** Notation scope of the development *)

Declare Scope cpp_scope.
Delimit Scope cpp_scope with cpp.
Open Scope cpp_scope.

(** ** Bytes

    [std::byte], [unsigned char] and [char] are all [Byte.byte]; [b2z] is the
    conversion to an unsigned integer and [z2b] the narrowing conversion
    (modulo 256) of an integer to a byte. *)

Abbreviation byte := Init.Byte.byte.

Definition b2z (b : byte) : Z := Z.of_N (Byte.to_N b).

Definition z2b (z : Z) : byte :=
  match Byte.of_N (Z.to_N (z mod 256)) with
  | Some b => b
  | None => Byte.x00
  end.

(** The bytes of a string literal. *)
Definition bytes_of (s : String.string) : list byte :=
  String.list_byte_of_string s.
Arguments bytes_of s%_string_scope.

Notation "$ s" := (bytes_of s%string) (at level 1, s at level 0, only parsing) : cpp_scope.

#[export] Instance byte_eq_dec : EqDecision byte := Byte.byte_eq_dec.

Lemma b2z_range b : 0 <= b2z b < 256.
Proof.
  unfold b2z. pose proof (Byte.to_N_bounded b). lia.
Qed.

Lemma z2b_b2z b : z2b (b2z b) = b.
Proof.
  unfold z2b. rewrite Z.mod_small by apply b2z_range.
  unfold b2z. by rewrite N2Z.id, Byte.of_to_N.
Qed.

Lemma b2z_z2b z : b2z (z2b z) = z mod 256.
Proof.
  pose proof (Z.mod_pos_bound z 256 eq_refl).
  unfold z2b. destruct (Byte.of_N _) eqn:E.
  - apply Byte.to_of_N in E. unfold b2z. rewrite E. lia.
  - apply Byte.of_N_None_iff in E. lia.
Qed.

Lemma b2z_z2b_small z : 0 <= z < 256 -> b2z (z2b z) = z.
Proof. intros. rewrite b2z_z2b. by apply Z.mod_small. Qed.

#[export] Instance b2z_inj : Inj (=) (=) b2z.
Proof. intros a b E. by rewrite <- (z2b_b2z a), E, z2b_b2z. Qed.

Lemma z2b_mod z : z2b (z mod 256) = z2b z.
Proof. unfold z2b. by rewrite Zmod_mod. Qed.

(** ** Machine integers

    A [std::size_t] or [std::uint64_t] is a [Z] in [0 .. 2^64), a
    [std::uint32_t] one in [0 .. 2^32), and so on; [u64], [u32], [u16] and
    [u8] are the reductions that unsigned arithmetic performs. *)

Definition u64 (z : Z) : Z := z mod 2 ^ 64.
Definition u32 (z : Z) : Z := z mod 2 ^ 32.
Definition u16 (z : Z) : Z := z mod 2 ^ 16.
Definition u8 (z : Z) : Z := z mod 2 ^ 8.

Lemma u64_small z : 0 <= z < 2 ^ 64 -> u64 z = z.
Proof. apply Z.mod_small. Qed.
Lemma u32_small z : 0 <= z < 2 ^ 32 -> u32 z = z.
Proof. apply Z.mod_small. Qed.
Lemma u64_range z : 0 <= u64 z < 2 ^ 64.
Proof. by apply Z.mod_pos_bound. Qed.
Lemma u32_range z : 0 <= u32 z < 2 ^ 32.
Proof. by apply Z.mod_pos_bound. Qed.

(** Bit fields: an [|] of a shifted field and a field below it is a sum, an [&]
    with [2^k - 1] a remainder, a [>>] a quotient. *)
Lemma lor_shiftl_add a b k : 0 <= k -> 0 <= b < 2 ^ k -> Z.lor (Z.shiftl a k) b = a * 2 ^ k + b.
Proof.
  intros Hk Hb. rewrite <- Z.shiftl_mul_pow2 by done.
  assert (Hd : Z.land (Z.shiftl a k) b = 0).
  { apply Z.bits_inj'. intros i Hi. rewrite Z.land_spec, Z.bits_0, Z.shiftl_spec by done.
    destruct (decide (i < k)).
    - by rewrite Z.testbit_neg_r by lia.
    - rewrite <- (Z.mod_small b (2 ^ k)) by done. rewrite Z.mod_pow2_bits_high by lia.
      apply andb_false_r. }
  by rewrite Z.add_nocarry_lxor, Z.lxor_lor.
Qed.

Lemma land_mask k z : 0 <= k -> Z.land z (2 ^ k - 1) = z mod 2 ^ k.
Proof. intros. rewrite <- Z.land_ones by done. by rewrite Z.ones_equiv, Z.sub_1_r. Qed.

Lemma land_0x7f z : Z.land z 0x7f = z mod 128.
Proof. apply (land_mask 7). lia. Qed.
Lemma land_0xff z : Z.land z 0xff = z mod 256.
Proof. apply (land_mask 8). lia. Qed.
Lemma land_0x7fffffff z : Z.land z 0x7fffffff = z mod 2 ^ 31.
Proof. apply (land_mask 31). lia. Qed.

Lemma lor_range k a b : 0 <= k -> 0 <= a < 2 ^ k -> 0 <= b < 2 ^ k -> 0 <= Z.lor a b < 2 ^ k.
Proof.
  intros Hk Ha Hb. split; [apply Z.lor_nonneg; lia|].
  assert (Z.lor a b = Z.lor a b mod 2 ^ k) as ->.
  { rewrite <- Z.land_ones, Z.land_lor_distr_l, !Z.land_ones, !Z.mod_small by lia. done. }
  apply Z.mod_pos_bound. lia.
Qed.

(** [size_max] is [std::numeric_limits<std::size_t>::max()] and [npos] is
    [std::string::npos], the same number. *)
Abbreviation size_max := (2 ^ 64 - 1).

(** The largest [max_size()] of a [std::vector] of bytes and of one of
    [std::thread], which has 16 bytes; a constructor, [resize] or [reserve]
    that needs more throws [length_error]. *)
Abbreviation max_byte_vector := (2 ^ 63 - 1).
Abbreviation max_thread_vector := (2 ^ 60 - 1).

Ltac usimpl :=
  repeat match goal with
    | |- context [u64 ?z] => rewrite (u64_small z) by lia
    | H : context [u64 ?z] |- _ => rewrite (u64_small z) in H by lia
    | |- context [u32 ?z] => rewrite (u32_small z) by lia
    | H : context [u32 ?z] |- _ => rewrite (u32_small z) in H by lia
    end.

(** ** Exceptions

    The exception classes the code throws, and three outcomes that are not C++
    exceptions: [NonTermination] is what a loop modelled with fuel returns
    when the fuel runs out, [UndefinedBehavior] what an access outside an
    array (an unchecked [operator\[\]], a [memcpy] past the end) returns, and
    [UndefinedShift] a shift or sum of signed integers that is out of their
    range, which touches no memory.  A
    theorem that says a function returns [Ok] therefore also says that its
    loops terminate and that its memory accesses are in range. *)

Inductive exn :=
  | invalid_argument
  | out_of_range
  | runtime_error
  | logic_error
  | length_error
  | system_error
  | bad_alloc
  | NonTermination
  | UndefinedBehavior
  | UndefinedShift.

Inductive result (A : Type) :=
  | Ok (a : A)
  | Throw (e : exn).
Arguments Ok {_} _.
Arguments Throw {_} _.

#[export] Instance exn_eq_dec : EqDecision exn.
Proof. solve_decision. Defined.
#[export] Instance result_eq_dec `{EqDecision A} : EqDecision (result A).
Proof. solve_decision. Defined.

#[export] Instance result_ret : MRet result := fun A a => Ok a.
#[export] Instance result_bind : MBind result := fun A B f m =>
  match m with Ok a => f a | Throw e => Throw e end.
#[export] Instance result_fmap : FMap result := fun A B f m =>
  match m with Ok a => Ok (f a) | Throw e => Throw e end.

(** [throw_if c e k]: the [if (c) throw e;] guard. *)
Definition throw_if {A} (c : bool) (e : exn) (k : result A) : result A :=
  if c then Throw e else k.

Lemma result_bind_Ok {A B} (m : result A) (f : A -> result B) b :
  m ≫= f = Ok b <-> exists a, m = Ok a /\ f a = Ok b.
Proof. destruct m; cbn; naive_solver. Qed.

(** A computation that mutates an object of type [S] and may throw: the
    mutations made before the throw persist, as in C++. *)
Definition SE (S A : Type) : Type := S -> result A * S.

#[export] Instance SE_ret {S} : MRet (SE S) := fun A a s => (Ok a, s).
#[export] Instance SE_bind {S} : MBind (SE S) := fun A B f m s =>
  match m s with
  | (Ok a, s') => f a s'
  | (Throw e, s') => (Throw e, s')
  end.
Definition SE_throw {S A} (e : exn) : SE S A := fun s => (Throw e, s).
Definition SE_lift {S A} (r : result A) : SE S A := fun s => (r, s).
Definition SE_get {S} : SE S S := fun s => (Ok s, s).
Definition SE_put {S} (s : S) : SE S unit := fun _ => (Ok tt, s).

(** ** Sequences indexed by [size_t] *)

Section zlist.
Context {A : Type}.
Implicit Types (l k : list A) (i n : Z).

Definition zlen l : Z := Z.of_nat (length l).
Definition ztake n l : list A := take (Z.to_nat n) l.
Definition zdrop n l : list A := drop (Z.to_nat n) l.
(** [zslice i n l]: the [n] elements from index [i] on. *)
Definition zslice i n l : list A := ztake n (zdrop i l).
Definition znth l i : option A :=
  if i <? 0 then None else l !! Z.to_nat i.
(** [zwrite i k l]: [memcpy] of [k] over [l] from index [i] on. *)
Definition zwrite i k l : list A :=
  ztake i l ++ k ++ zdrop (i + zlen k) l.
End zlist.

Section zlist_lemmas.
Context {A : Type}.
Implicit Types (l k : list A) (i n m : Z).

Lemma zlen_nonneg l : 0 <= zlen l.
Proof. unfold zlen. lia. Qed.
Lemma zlen_nil : zlen (@nil A) = 0.
Proof. done. Qed.
Lemma zlen_cons a l : zlen (a :: l) = 1 + zlen l.
Proof. unfold zlen. cbn [length]. lia. Qed.
Lemma zlen_app l k : zlen (l ++ k) = zlen l + zlen k.
Proof. unfold zlen. rewrite length_app. lia. Qed.
Lemma zlen_replicate (n : nat) (a : A) : zlen (replicate n a) = Z.of_nat n.
Proof. unfold zlen. by rewrite length_replicate. Qed.
Lemma zlen_ztake n l : zlen (ztake n l) = Z.max 0 (Z.min n (zlen l)).
Proof. unfold zlen, ztake. rewrite length_take. lia. Qed.
Lemma zlen_zdrop n l : zlen (zdrop n l) = Z.max 0 (zlen l - Z.max 0 n).
Proof. unfold zlen, zdrop. rewrite length_drop. lia. Qed.
Lemma zlen_zslice i n l :
  zlen (zslice i n l) = Z.max 0 (Z.min n (Z.max 0 (zlen l - Z.max 0 i))).
Proof. unfold zslice. by rewrite zlen_ztake, zlen_zdrop. Qed.
Lemma zlen_0 l : zlen l = 0 -> l = [].
Proof. unfold zlen. destruct l; cbn [length]; [done|lia]. Qed.

Lemma ztake_all n l : zlen l <= n -> ztake n l = l.
Proof. unfold zlen, ztake. intros. apply take_ge. lia. Qed.
Lemma ztake_nil n : ztake n (@nil A) = [].
Proof. unfold ztake. by destruct (Z.to_nat n). Qed.
Lemma ztake_0 n l : n <= 0 -> ztake n l = [].
Proof. unfold ztake. intros. by replace (Z.to_nat n) with 0%nat by lia. Qed.
Lemma zdrop_0 n l : n <= 0 -> zdrop n l = l.
Proof. unfold zdrop. intros. by replace (Z.to_nat n) with 0%nat by lia. Qed.
Lemma zdrop_all n l : zlen l <= n -> zdrop n l = [].
Proof. unfold zlen, zdrop. intros. apply drop_ge. lia. Qed.
Lemma ztake_zdrop n l : ztake n l ++ zdrop n l = l.
Proof. apply take_drop. Qed.
Lemma zdrop_zdrop n m l : 0 <= n -> 0 <= m -> zdrop n (zdrop m l) = zdrop (m + n) l.
Proof. unfold zdrop. intros. rewrite drop_drop. f_equal. lia. Qed.
Lemma ztake_ztake n m l : ztake n (ztake m l) = ztake (Z.min n m) l.
Proof. unfold ztake. rewrite take_take. f_equal. lia. Qed.
Lemma ztake_app_le n l k : n <= zlen l -> ztake n (l ++ k) = ztake n l.
Proof. unfold ztake, zlen. intros. apply take_app_le. lia. Qed.
Lemma ztake_app_ge n l k :
  zlen l <= n -> ztake n (l ++ k) = l ++ ztake (n - zlen l) k.
Proof.
  unfold ztake, zlen. intros. rewrite take_app_ge by lia. do 2 f_equal. lia.
Qed.
Lemma zdrop_app_le n l k : n <= zlen l -> zdrop n (l ++ k) = zdrop n l ++ k.
Proof. unfold zdrop, zlen. intros. apply drop_app_le. lia. Qed.
Lemma zdrop_app_ge n l k :
  zlen l <= n -> zdrop n (l ++ k) = zdrop (n - zlen l) k.
Proof.
  unfold zdrop, zlen. intros. rewrite drop_app_ge by lia. f_equal. lia.
Qed.

Lemma zslice_app_l i n l k :
  0 <= i -> i + n <= zlen l -> zslice i n (l ++ k) = zslice i n l.
Proof.
  intros. unfold zslice. destruct (decide (0 <= n)).
  - rewrite zdrop_app_le by lia. apply ztake_app_le.
    rewrite zlen_zdrop. lia.
  - by rewrite !ztake_0 by lia.
Qed.
Lemma zslice_app_r i n l k :
  zlen l <= i -> zslice i n (l ++ k) = zslice (i - zlen l) n k.
Proof. intros. unfold zslice. by rewrite zdrop_app_ge. Qed.
Lemma zslice_all i n l : i <= 0 -> zlen l <= n -> zslice i n l = l.
Proof. intros. unfold zslice. rewrite zdrop_0 by done. by apply ztake_all. Qed.
Lemma zslice_nil i n l : n <= 0 \/ zlen l <= i -> zslice i n l = [].
Proof.
  intros [?|?]; unfold zslice; [by apply ztake_0|].
  rewrite zdrop_all by done. apply ztake_nil.
Qed.
Lemma zslice_split i n m l :
  0 <= i -> 0 <= n -> 0 <= m ->
  zslice i (n + m) l = zslice i n l ++ zslice (i + n) m l.
Proof.
  intros. unfold zslice. rewrite <- (zdrop_zdrop n i) by done.
  rewrite <- (ztake_zdrop n (zdrop i l)) at 1.
  destruct (decide (n <= zlen (zdrop i l))) as [Hle|Hgt].
  - rewrite ztake_app_ge; rewrite zlen_ztake; [|lia].
    do 2 f_equal. lia.
  - rewrite (zdrop_all n) by lia. rewrite app_nil_r.
    rewrite ztake_nil, app_nil_r, ztake_ztake. f_equal. lia.
Qed.
Lemma zdrop_zslice m i n l :
  0 <= i -> 0 <= m <= n -> zdrop m (zslice i n l) = zslice (i + m) (n - m) l.
Proof.
  intros. replace n with (m + (n - m)) at 1 by lia.
  rewrite zslice_split by lia.
  destruct (decide (m <= zlen l - i)).
  - rewrite zdrop_app_ge; rewrite zlen_zslice; [|lia].
    rewrite zdrop_0 by lia. done.
  - rewrite (zslice_nil (i + m)) by lia. rewrite app_nil_r.
    rewrite zdrop_all; [done|]. rewrite zlen_zslice. lia.
Qed.
Lemma ztake_zslice m i n l : ztake m (zslice i n l) = zslice i (Z.min m n) l.
Proof. unfold zslice. apply ztake_ztake. Qed.

Lemma znth_Some l i a : znth l i = Some a -> 0 <= i < zlen l.
Proof.
  unfold znth, zlen. destruct (Z.ltb_spec i 0); [done|].
  intros ?%lookup_lt_Some. lia.
Qed.
Lemma znth_is_Some l i : 0 <= i < zlen l -> exists a, znth l i = Some a.
Proof.
  unfold znth, zlen. intros. destruct (Z.ltb_spec i 0); [lia|].
  apply lookup_lt_is_Some. lia.
Qed.
Lemma znth_None l i : zlen l <= i -> znth l i = None.
Proof.
  unfold znth, zlen. intros. destruct (Z.ltb_spec i 0); [lia|].
  apply lookup_ge_None. lia.
Qed.
Lemma znth_app_l l k i : i < zlen l -> znth (l ++ k) i = znth l i.
Proof.
  unfold znth, zlen. intros. destruct (Z.ltb_spec i 0); [done|].
  apply lookup_app_l. lia.
Qed.
Lemma znth_app_r l k i : zlen l <= i -> znth (l ++ k) i = znth k (i - zlen l).
Proof.
  unfold znth, zlen. intros.
  destruct (Z.ltb_spec i 0), (Z.ltb_spec (i - Z.of_nat (length l)) 0);
    try lia.
  rewrite lookup_app_r by lia. f_equal. lia.
Qed.
Lemma znth_zdrop l n i : 0 <= n -> 0 <= i -> znth (zdrop n l) i = znth l (n + i).
Proof.
  unfold znth, zdrop. intros.
  destruct (Z.ltb_spec i 0), (Z.ltb_spec (n + i) 0); try lia.
  rewrite lookup_drop. f_equal. lia.
Qed.
Lemma znth_ztake l n i : i < n -> znth (ztake n l) i = znth l i.
Proof.
  unfold znth, ztake. intros. destruct (Z.ltb_spec i 0); [done|].
  apply lookup_take_lt. lia.
Qed.
Lemma zslice_1 l i a : znth l i = Some a -> zslice i 1 l = [a].
Proof.
  unfold znth, zslice, ztake, zdrop. destruct (Z.ltb_spec i 0); [done|].
  intros E. rewrite (drop_S _ _ _ E). done.
Qed.
Lemma zslice_cons l i n a :
  0 <= i -> 0 < n -> znth l i = Some a ->
  zslice i n l = a :: zslice (i + 1) (n - 1) l.
Proof.
  intros. replace n with (1 + (n - 1)) at 1 by lia.
  rewrite zslice_split by lia. by erewrite zslice_1.
Qed.

Lemma zlen_zwrite i k l :
  0 <= i -> i + zlen k <= zlen l -> zlen (zwrite i k l) = zlen l.
Proof.
  intros. pose proof (zlen_nonneg k). unfold zwrite.
  rewrite !zlen_app, zlen_ztake, zlen_zdrop. lia.
Qed.
Lemma zslice_zwrite_same i k l :
  0 <= i <= zlen l -> zslice i (zlen k) (zwrite i k l) = k.
Proof.
  intros. pose proof (zlen_nonneg k).
  unfold zwrite. rewrite zslice_app_r; rewrite zlen_ztake; [|lia].
  rewrite zslice_app_l by lia. apply zslice_all; lia.
Qed.
Lemma zslice_zwrite_before i j n k l :
  0 <= j -> j + n <= i <= zlen l ->
  zslice j n (zwrite i k l) = zslice j n l.
Proof.
  intros. unfold zwrite. rewrite zslice_app_l; [|done|rewrite zlen_ztake; lia].
  rewrite <- (ztake_zdrop i l) at 2.
  rewrite zslice_app_l; [done|done|rewrite zlen_ztake; lia].
Qed.
Lemma zslice_zwrite_after i j n k l :
  0 <= i -> i + zlen k <= j -> i + zlen k <= zlen l ->
  zslice j n (zwrite i k l) = zslice j n l.
Proof.
  intros. pose proof (zlen_nonneg k). unfold zwrite.
  rewrite zslice_app_r; rewrite zlen_ztake; [|lia].
  rewrite zslice_app_r by lia.
  unfold zslice. rewrite zdrop_zdrop by lia. do 2 f_equal. lia.
Qed.
Lemma ztake_zslice_0 n l : ztake n l = zslice 0 n l.
Proof. unfold zslice. by rewrite (zdrop_0 0). Qed.
End zlist_lemmas.

(** ** Weights of lists, which bound how many steps a list of operations can take *)

Section weight.
Context {A : Type} (f : A -> nat).

Definition weight (l : list A) : nat := foldr (fun x n => (f x + n)%nat) 0%nat l.

Lemma weight_cons x l : weight (x :: l) = (f x + weight l)%nat.
Proof. reflexivity. Qed.
Lemma weight_app l k : weight (l ++ k) = (weight l + weight k)%nat.
Proof. unfold weight. induction l as [|x l IH]; [done|]. cbn. rewrite IH. lia. Qed.
Lemma weight_bound n l : (forall x, f x <= n)%nat -> (weight l <= n * length l)%nat.
Proof. intros Hf. unfold weight. induction l as [|x l IH]; cbn; [lia|]. specialize (Hf x). lia. Qed.
End weight.

(** [zlen_simpl] normalises the lengths of list expressions. *)
Create Rewrite HintDb zlen.
#[export] Hint Rewrite @zlen_nil @zlen_cons @zlen_app @zlen_replicate @zlen_ztake
  @zlen_zdrop @zlen_zslice : zlen.

Ltac zlen_simpl := autorewrite with zlen in *.

(** Adds the non-negativity of every length in sight, then calls [lia]. *)
Ltac zlen_pose :=
  repeat match goal with
    | |- context [zlen ?l] =>
        lazymatch goal with
        | _ : 0 <= zlen l |- _ => fail
        | _ => pose proof (zlen_nonneg l)
        end
    | H : context [zlen ?l] |- _ =>
        lazymatch goal with
        | _ : 0 <= zlen l |- _ => fail
        | _ => pose proof (zlen_nonneg l)
        end
    end.

Ltac zlia := zlen_simpl; zlen_pose; lia.

(** Evaluates ground integer arithmetic, which [cbn] leaves alone. *)
Ltac is_ground_Z t :=
  lazymatch t with
  | Z0 => idtac
  | Zpos ?p => is_ground_pos p
  | Zneg ?p => is_ground_pos p
  | ?a + ?b => is_ground_Z a; is_ground_Z b
  | ?a - ?b => is_ground_Z a; is_ground_Z b
  | ?a * ?b => is_ground_Z a; is_ground_Z b
  end
with is_ground_pos p :=
  lazymatch p with
  | xH => idtac
  | xO ?q => is_ground_pos q
  | xI ?q => is_ground_pos q
  end.

Ltac ground_one t :=
  is_ground_Z t; let v := eval vm_compute in t in progress change t with v in *.

Ltac zground :=
  repeat match goal with
    | |- context [?a + ?b] => ground_one (a + b)
    | |- context [?a - ?b] => ground_one (a - b)
    | |- context [?a * ?b] => ground_one (a * b)
    | H : context [?a + ?b] |- _ => ground_one (a + b)
    | H : context [?a - ?b] |- _ => ground_one (a - b)
    end.
