(* ===== verification/BufferSequence.v ===== *)
(** * Borrowed byte ranges: [ByteView], [BufferSequence] and their mutable forms

    Models [src/buffer/byte_view.h] and [src/buffer/buffer_sequence.h].  A
    read-only view is a pointer and a size; the pointer is represented by the
    bytes of the storage from that address on, [None] being [nullptr].  A
    mutable view is an address inside one storage block (an offset) and a
    size, and writing through it returns the block's new contents.  The main
    results are that a [BufferSequence] of at most two segments behaves as the
    concatenation of its segments: [At_spec], [CopyTo_spec] and
    [CopyFrom_spec]. *)

From S2P Require Import Prelude.

(** ** [ByteView] *)

Record ByteView := mkByteView {
  bv_data : option (list byte);
  bv_size : Z;
}.

Definition ByteView_npos : Z := size_max.

(** [constexpr ByteView() noexcept = default] *)
Definition ByteView_default : ByteView := mkByteView None 0.

Definition ByteView_make (data : option (list byte)) (size : Z) : result ByteView :=
  match data with
  | None => if size =? 0 then Ok (mkByteView None 0) else Throw invalid_argument
  | Some _ => Ok (mkByteView data size)
  end.

(** A view of a whole vector. *)
Definition view_of (l : list byte) : ByteView := mkByteView (Some l) (zlen l).

Definition ByteView_Empty (v : ByteView) : bool := bv_size v =? 0.

(** The bytes a view denotes. *)
Definition view_bytes (v : ByteView) : list byte :=
  match bv_data v with
  | None => []
  | Some d => ztake (bv_size v) d
  end.

(** A view is valid when its range lies inside the storage it points into. *)
Definition view_ok (v : ByteView) : Prop :=
  match bv_data v with
  | None => bv_size v = 0
  | Some d => 0 <= bv_size v <= zlen d
  end.

(** [operator\[\]]: unchecked. *)
Definition ByteView_index (v : ByteView) (index : Z) : result byte :=
  match bv_data v with
  | None => Throw UndefinedBehavior
  | Some d =>
      match znth d index with
      | Some b => Ok b
      | None => Throw UndefinedBehavior
      end
  end.

Definition SubView (v : ByteView) (offset count : Z) : result ByteView :=
  if bv_size v <? offset then Throw out_of_range
  else
    let remaining := u64 (bv_size v - offset) in
    let result_size := if count =? ByteView_npos then remaining else count in
    if remaining <? result_size then Throw out_of_range
    else
      match bv_data v with
      | None =>
          if result_size =? 0 then ByteView_make None result_size
          else Throw UndefinedBehavior
      | Some d => ByteView_make (Some (zdrop offset d)) result_size
      end.

(** [memcpy] out of a view. *)
Definition view_memcpy (v : ByteView) (offset n : Z) : result (list byte) :=
  match bv_data v with
  | None => if n =? 0 then Ok [] else Throw UndefinedBehavior
  | Some d =>
      if zlen d <? offset + n then Throw UndefinedBehavior
      else Ok (zslice offset n d)
  end.

(** ** [BufferSequence] *)

Record BufferSequence := mkBufferSequence {
  segment0 : ByteView;
  segment1 : ByteView;
  segment_count : Z;
  seq_size : Z;
}.

Definition BufferSequence_default : BufferSequence :=
  mkBufferSequence ByteView_default ByteView_default 0 0.

Definition BufferSequence_Add (s : BufferSequence) (segment : ByteView) : BufferSequence :=
  if ByteView_Empty segment then s
  else
    let size := u64 (seq_size s + bv_size segment) in
    if segment_count s =? 0
    then mkBufferSequence segment (segment1 s) (segment_count s + 1) size
    else mkBufferSequence (segment0 s) segment (segment_count s + 1) size.

Definition BufferSequence_1 (first : ByteView) : BufferSequence :=
  BufferSequence_Add BufferSequence_default first.

Definition BufferSequence_2 (first second : ByteView) : BufferSequence :=
  BufferSequence_Add (BufferSequence_Add BufferSequence_default first) second.

Definition Segment (s : BufferSequence) (index : Z) : result ByteView :=
  if segment_count s <=? index then Throw out_of_range
  else if index =? 0 then Ok (segment0 s) else Ok (segment1 s).

Definition At (s : BufferSequence) (index : Z) : result byte :=
  if seq_size s <=? index then Throw out_of_range
  else if index <? bv_size (segment0 s) then ByteView_index (segment0 s) index
  else ByteView_index (segment1 s) (u64 (index - bv_size (segment0 s))).

(** The loop of [CopyTo]: [segments] are the segments still to visit. *)
Fixpoint CopyTo_loop (segments : list ByteView) (source_offset copied size : Z)
    (destination : list byte) : result (list byte) :=
  match segments with
  | [] => Ok destination
  | segment :: rest =>
      if copied <? size then
        if bv_size segment <=? source_offset
        then CopyTo_loop rest (source_offset - bv_size segment) copied size destination
        else
          let bytes := Z.min (bv_size segment - source_offset) (size - copied) in
          chunk ← view_memcpy segment source_offset bytes;
          CopyTo_loop rest 0 (copied + bytes) size (destination ++ chunk)
      else Ok destination
  end.

Definition live_segments (s : BufferSequence) : list ByteView :=
  if segment_count s =? 0 then []
  else if segment_count s =? 1 then [segment0 s]
  else [segment0 s; segment1 s].

(** [CopyTo offset destination]: [size] is [destination.Size()]; the result is
    the bytes written to the destination. *)
Definition CopyTo (s : BufferSequence) (offset size : Z) : result (list byte) :=
  if (seq_size s <? offset) || (u64 (seq_size s - offset) <? size)
  then Throw out_of_range
  else CopyTo_loop (live_segments s) offset 0 size [].

(** The logical byte sequence. *)
Definition seq_bytes (s : BufferSequence) : list byte :=
  concat (map view_bytes (live_segments s)).

(** A sequence built from valid views of a storage of less than [2^64] bytes. *)
Record seq_ok (s : BufferSequence) : Prop := {
  seq_ok_seg0 : view_ok (segment0 s);
  seq_ok_seg1 : view_ok (segment1 s);
  seq_ok_count : 0 <= segment_count s <= 2;
  seq_ok_count0 : segment_count s = 0 -> bv_size (segment0 s) = 0;
  seq_ok_count1 : segment_count s <= 1 -> bv_size (segment1 s) = 0;
  seq_ok_size : seq_size s = bv_size (segment0 s) + bv_size (segment1 s);
  seq_ok_bound : seq_size s < 2 ^ 64;
}.

Lemma view_ok_of l : view_ok (view_of l).
Proof. unfold view_ok, view_of. cbn. zlen_pose. lia. Qed.

Lemma view_bytes_of l : view_bytes (view_of l) = l.
Proof. unfold view_bytes, view_of. cbn. apply ztake_all. done. Qed.

Lemma zlen_view_bytes v : view_ok v -> zlen (view_bytes v) = bv_size v.
Proof.
  unfold view_ok, view_bytes. destruct (bv_data v); intros; zlia.
Qed.

Lemma view_bytes_empty v : bv_size v = 0 -> view_bytes v = [].
Proof.
  unfold view_bytes. intros ->. by destruct (bv_data v); rewrite ?ztake_0 by done.
Qed.

Lemma view_size_nonneg v : view_ok v -> 0 <= bv_size v.
Proof. unfold view_ok. destruct (bv_data v); lia. Qed.

Lemma ByteView_index_spec v i :
  view_ok v -> 0 <= i < bv_size v ->
  exists b, ByteView_index v i = Ok b /\ znth (view_bytes v) i = Some b.
Proof.
  unfold view_ok, ByteView_index, view_bytes.
  destruct (bv_data v) as [d|]; intros; [|lia].
  destruct (znth_is_Some d i) as [b Hb]; [lia|].
  exists b. rewrite znth_ztake, Hb by lia. done.
Qed.

Lemma view_memcpy_spec v off n :
  view_ok v -> 0 <= off -> 0 <= n -> off + n <= bv_size v ->
  view_memcpy v off n = Ok (zslice off n (view_bytes v)).
Proof.
  unfold view_ok, view_memcpy, view_bytes.
  destruct (bv_data v) as [d|]; intros.
  - destruct (Z.ltb_spec (zlen d) (off + n)); [lia|]. f_equal.
    rewrite <- (ztake_zdrop (bv_size v) d) at 1. apply zslice_app_l; zlia.
  - replace n with 0 by lia. done.
Qed.

Lemma BufferSequence_default_ok : seq_ok BufferSequence_default.
Proof. split; cbn; lia. Qed.

Lemma BufferSequence_2_ok v w :
  view_ok v -> view_ok w -> bv_size v + bv_size w < 2 ^ 64 ->
  seq_ok (BufferSequence_2 v w) /\
  seq_bytes (BufferSequence_2 v w) = view_bytes v ++ view_bytes w.
Proof.
  intros Hv Hw Hb.
  pose proof (view_size_nonneg _ Hv). pose proof (view_size_nonneg _ Hw).
  unfold BufferSequence_2, BufferSequence_Add, ByteView_Empty. cbn.
  destruct (Z.eqb_spec (bv_size v) 0) as [Ev|Ev];
    destruct (Z.eqb_spec (bv_size w) 0) as [Ew|Ew]; cbn;
    unfold seq_bytes, live_segments; cbn; usimpl; zground; cbn;
    rewrite ?(view_bytes_empty v), ?(view_bytes_empty w), ?app_nil_r by done;
    (split; [split; cbn; try done; try lia | by rewrite ?app_nil_r]).
Qed.

Lemma BufferSequence_1_ok v :
  view_ok v -> bv_size v < 2 ^ 64 ->
  seq_ok (BufferSequence_1 v) /\ seq_bytes (BufferSequence_1 v) = view_bytes v.
Proof.
  intros Hv Hb. pose proof (view_size_nonneg _ Hv).
  unfold BufferSequence_1, BufferSequence_Add, ByteView_Empty. cbn.
  destruct (Z.eqb_spec (bv_size v) 0) as [Ev|Ev]; cbn;
    unfold seq_bytes, live_segments; cbn; usimpl; zground; cbn;
    rewrite ?(view_bytes_empty v), ?app_nil_r by done;
    (split; [split; cbn; try done; try lia | by rewrite ?app_nil_r]).
Qed.

(** The logical bytes are the two segments in order, whatever the count. *)
Lemma seq_bytes_eq s :
  seq_ok s -> seq_bytes s = view_bytes (segment0 s) ++ view_bytes (segment1 s).
Proof.
  intros []. unfold seq_bytes, live_segments.
  destruct (Z.eqb_spec (segment_count s) 0).
  { rewrite !view_bytes_empty by lia. done. }
  destruct (Z.eqb_spec (segment_count s) 1); cbn.
  { rewrite (view_bytes_empty (segment1 s)), app_nil_r by lia. done. }
  by rewrite app_nil_r.
Qed.

Lemma seq_size_spec s : seq_ok s -> seq_size s = zlen (seq_bytes s).
Proof.
  intros Hs. rewrite seq_bytes_eq by done. destruct Hs.
  rewrite zlen_app, !zlen_view_bytes by done. done.
Qed.

(** [At] is total on the range of the sequence and reads the logical byte. *)
Lemma At_spec s i :
  seq_ok s -> 0 <= i ->
  At s i =
    match znth (seq_bytes s) i with
    | Some b => Ok b
    | None => Throw out_of_range
    end.
Proof.
  intros Hs Hi.
  pose proof (seq_size_spec _ Hs) as Hsz.
  unfold At. destruct (Z.leb_spec (seq_size s) i).
  { by rewrite znth_None by lia. }
  rewrite seq_bytes_eq in * by done. destruct Hs.
  pose proof (view_size_nonneg _ seq_ok_seg2).
  pose proof (zlen_view_bytes _ seq_ok_seg2). pose proof (zlen_view_bytes _ seq_ok_seg3).
  destruct (Z.ltb_spec i (bv_size (segment0 s))).
  - destruct (ByteView_index_spec (segment0 s) i) as (b & -> & Hb); [done|lia|].
    rewrite znth_app_l, Hb by lia. done.
  - usimpl.
    destruct (ByteView_index_spec (segment1 s) (i - bv_size (segment0 s)))
      as (b & -> & Hb); [done|lia|].
    rewrite znth_app_r by lia. by rewrite zlen_view_bytes, Hb.
Qed.

Lemma CopyTo_loop_spec segs off copied size dst :
  Forall view_ok segs -> 0 <= off -> 0 <= copied <= size ->
  size - copied <= zlen (concat (map view_bytes segs)) - off ->
  CopyTo_loop segs off copied size dst
  = Ok (dst ++ zslice off (size - copied) (concat (map view_bytes segs))).
Proof.
  revert off copied dst. induction segs as [|v segs IH];
    intros off copied dst Hok Hoff Hc Hlen; cbn in *.
  { rewrite zslice_nil by zlia. by rewrite app_nil_r. }
  apply Forall_cons in Hok as [Hv Hok].
  pose proof (zlen_view_bytes _ Hv) as Hvl. rewrite zlen_app in Hlen.
  pose proof (view_size_nonneg _ Hv).
  destruct (Z.ltb_spec copied size).
  2:{ rewrite zslice_nil by lia. by rewrite app_nil_r. }
  destruct (Z.leb_spec (bv_size v) off).
  - rewrite IH by (done || lia). rewrite zslice_app_r by lia. by rewrite Hvl.
  - rewrite view_memcpy_spec by (done || lia). cbn.
rewrite IH by (done || zlia). rewrite <- app_assoc. do 2 f_equal.
    remember (Z.min (bv_size v - off) (size - copied)) as n eqn:Hn.
    replace (size - copied) with (n + (size - copied - n)) by lia.
    rewrite zslice_split by lia. rewrite zslice_app_l by lia. f_equal.
    destruct (decide (n = size - copied)) as [E|E].
    { rewrite !zslice_nil by lia. done. }
    rewrite zslice_app_r by lia. f_equal; lia.
Qed.

(** [CopyTo] copies exactly the requested logical slice, and throws exactly
    when the slice is not inside the sequence. *)
Lemma CopyTo_spec s off n :
  seq_ok s -> 0 <= off -> 0 <= n ->
  CopyTo s off n =
    if off + n <=? zlen (seq_bytes s) then Ok (zslice off n (seq_bytes s))
    else Throw out_of_range.
Proof.
  intros Hs Hoff Hn. pose proof (seq_size_spec _ Hs) as Hsz.
  unfold CopyTo. pose proof (seq_ok_bound _ Hs).
  destruct (Z.ltb_spec (seq_size s) off); cbn.
  { destruct (Z.leb_spec (off + n) (zlen (seq_bytes s))); [lia|done]. }
  usimpl.
  destruct (Z.ltb_spec (seq_size s - off) n);
    destruct (Z.leb_spec (off + n) (zlen (seq_bytes s))); try lia; [done|].
  rewrite CopyTo_loop_spec; fold (seq_bytes s); [by rewrite Z.sub_0_r| |lia..].
  unfold live_segments. destruct Hs.
  repeat case_match; repeat constructor; done.
Qed.

(** ** [MutableByteView] and [MutableBufferSequence]

    A mutable view points into one storage block: [mv_data] is the offset of
    its first byte in the block. *)

Record MutableByteView := mkMutableByteView {
  mv_data : option Z;
  mv_size : Z;
}.

Definition MutableByteView_default : MutableByteView := mkMutableByteView None 0.

Definition MutableByteView_make (data : option Z) (size : Z) : result MutableByteView :=
  match data with
  | None => if size =? 0 then Ok (mkMutableByteView None 0) else Throw invalid_argument
  | Some _ => Ok (mkMutableByteView data size)
  end.

Definition Mutable_SubView (v : MutableByteView) (offset count : Z) : result MutableByteView :=
  if mv_size v <? offset then Throw out_of_range
  else
    let remaining := u64 (mv_size v - offset) in
    let result_size := if count =? ByteView_npos then remaining else count in
    if remaining <? result_size then Throw out_of_range
    else
      match mv_data v with
      | None =>
          if result_size =? 0 then MutableByteView_make None result_size
          else Throw UndefinedBehavior
      | Some p => MutableByteView_make (Some (u64 (p + offset))) result_size
      end.

(** [AsReadOnly], of a view into [storage]. *)
Definition MutableByteView_AsReadOnly (storage : list byte) (v : MutableByteView) : ByteView :=
  mkByteView (match mv_data v with
              | None => None
              | Some p => Some (zdrop p storage)
              end) (mv_size v).

Record MutableBufferSequence := mkMutableBufferSequence {
  msegment0 : MutableByteView;
  msegment1 : MutableByteView;
  msegment_count : Z;
  mseq_size : Z;
}.

Definition MutableBufferSequence_default : MutableBufferSequence :=
  mkMutableBufferSequence MutableByteView_default MutableByteView_default 0 0.

Definition MutableBufferSequence_Add (s : MutableBufferSequence)
    (segment : MutableByteView) : MutableBufferSequence :=
  if mv_size segment =? 0 then s
  else
    let size := u64 (mseq_size s + mv_size segment) in
    if msegment_count s =? 0
    then mkMutableBufferSequence segment (msegment1 s) (msegment_count s + 1) size
    else mkMutableBufferSequence (msegment0 s) segment (msegment_count s + 1) size.

Definition MutableBufferSequence_2 (first second : MutableByteView) : MutableBufferSequence :=
  MutableBufferSequence_Add
    (MutableBufferSequence_Add MutableBufferSequence_default first) second.

Definition Mutable_Segment (s : MutableBufferSequence) (index : Z) : result MutableByteView :=
  if msegment_count s <=? index then Throw out_of_range
  else if index =? 0 then Ok (msegment0 s) else Ok (msegment1 s).

Definition live_msegments (s : MutableBufferSequence) : list MutableByteView :=
  if msegment_count s =? 0 then []
  else if msegment_count s =? 1 then [msegment0 s]
  else [msegment0 s; msegment1 s].

(** [memcpy] of [chunk] to a mutable view. *)
Definition mview_memcpy (storage : list byte) (v : MutableByteView) (chunk : list byte)
    : result (list byte) :=
  match mv_data v with
  | None => if zlen chunk =? 0 then Ok storage else Throw UndefinedBehavior
  | Some p =>
      if zlen storage <? p + zlen chunk then Throw UndefinedBehavior
      else Ok (zwrite p chunk storage)
  end.

(** The loop of [CopyFrom]; the result is the storage after the copies. *)
Fixpoint CopyFrom_loop (segments : list MutableByteView) (source : list byte)
    (copied : Z) (storage : list byte) : result (list byte) :=
  match segments with
  | [] => Ok storage
  | segment :: rest =>
      if copied <? zlen source then
        let bytes := Z.min (mv_size segment) (zlen source - copied) in
        storage' ← mview_memcpy storage segment (zslice copied bytes source);
        CopyFrom_loop rest source (copied + bytes) storage'
      else Ok storage
  end.

Definition CopyFrom (s : MutableBufferSequence) (source : list byte)
    (storage : list byte) : result (list byte) :=
  if mseq_size s <? zlen source then Throw out_of_range
  else CopyFrom_loop (live_msegments s) source 0 storage.

Definition MutableBufferSequence_AsReadOnly (storage : list byte)
    (s : MutableBufferSequence) : BufferSequence :=
  if msegment_count s =? 0 then BufferSequence_default
  else if msegment_count s =? 1
  then BufferSequence_1 (MutableByteView_AsReadOnly storage (msegment0 s))
  else BufferSequence_2 (MutableByteView_AsReadOnly storage (msegment0 s))
                        (MutableByteView_AsReadOnly storage (msegment1 s)).

Lemma zwrite_nil p (l : list byte) : 0 <= p -> zwrite p [] l = l.
Proof. intros. unfold zwrite. rewrite zlen_nil, Z.add_0_r. apply ztake_zdrop. Qed.

Lemma mview_memcpy_ok storage p n chunk :
  p + zlen chunk <= zlen storage ->
  mview_memcpy storage (mkMutableByteView (Some p) n) chunk
  = Ok (zwrite p chunk storage).
Proof.
  intros. unfold mview_memcpy. cbn.
  destruct (Z.ltb_spec (zlen storage) (p + zlen chunk)); [lia|done].
Qed.

(** One iteration of the loop. *)
Lemma CopyFrom_loop_cons p n rest src copied storage :
  0 <= p -> 0 <= n -> p + n <= zlen storage -> 0 <= copied < zlen src ->
  CopyFrom_loop (mkMutableByteView (Some p) n :: rest) src copied storage
  = CopyFrom_loop rest src (copied + Z.min n (zlen src - copied))
      (zwrite p (zslice copied n src) storage).
Proof.
  intros. cbn [CopyFrom_loop]. cbn [mv_size].
  destruct (Z.ltb_spec copied (zlen src)); [|lia].
  rewrite mview_memcpy_ok by zlia. cbn [mbind result_bind].
  do 2 f_equal. destruct (decide (n <= zlen src - copied)); [by rewrite Z.min_l|].
  unfold zslice. rewrite !ztake_all by zlia. done.
Qed.

Lemma CopyFrom_loop_done segs src copied storage :
  zlen src <= copied -> CopyFrom_loop segs src copied storage = Ok storage.
Proof.
  intros. destruct segs; [done|]. cbn.
  destruct (Z.ltb_spec copied (zlen src)); [lia|done].
Qed.

Lemma CopyFrom_loop_1 storage src p n copied :
  0 <= p -> 0 <= n -> p + n <= zlen storage -> 0 <= copied ->
  zlen src - copied <= n ->
  CopyFrom_loop [mkMutableByteView (Some p) n] src copied storage
  = Ok (zwrite p (zdrop copied src) storage).
Proof.
  intros. destruct (decide (copied < zlen src)).
  - rewrite CopyFrom_loop_cons by lia. unfold zslice.
    by rewrite ztake_all by zlia.
  - rewrite CopyFrom_loop_done, zdrop_all by lia. by rewrite zwrite_nil.
Qed.

Lemma CopyFrom_loop_2 storage src p0 n0 p1 n1 :
  0 <= p0 -> 0 <= n0 -> p0 + n0 <= zlen storage ->
  0 <= p1 -> 0 <= n1 -> p1 + n1 <= zlen storage -> zlen src <= n0 + n1 ->
  CopyFrom_loop [mkMutableByteView (Some p0) n0; mkMutableByteView (Some p1) n1]
    src 0 storage
  = Ok (zwrite p1 (zdrop n0 src) (zwrite p0 (ztake n0 src) storage)).
Proof.
  intros. destruct (decide (0 < zlen src)).
  2:{ rewrite CopyFrom_loop_done by lia.
      rewrite (zlen_0 src), ztake_nil, zdrop_all, !zwrite_nil by zlia. done. }
  rewrite CopyFrom_loop_cons, <- ztake_zslice_0 by lia.
  assert (zlen (zwrite p0 (ztake n0 src) storage) = zlen storage)
    by (apply zlen_zwrite; zlia).
  destruct (decide (n0 <= zlen src)).
  - rewrite CopyFrom_loop_1 by lia. do 3 f_equal. lia.
  - rewrite CopyFrom_loop_done, zdrop_all, zwrite_nil by lia. done.
Qed.

(** [CopyFrom] through two segments at [p0] and [p1]: the source's first [n0]
    bytes land at [p0] and the rest at [p1]. *)
Lemma CopyFrom_spec storage src p0 n0 p1 n1 :
  0 <= p0 -> 0 <= n0 -> p0 + n0 <= zlen storage ->
  0 <= p1 -> 0 <= n1 -> p1 + n1 <= zlen storage ->
  n0 + n1 < 2 ^ 64 -> zlen src <= n0 + n1 ->
  CopyFrom (MutableBufferSequence_2 (mkMutableByteView (Some p0) n0)
              (mkMutableByteView (Some p1) n1)) src storage
  = Ok (zwrite p1 (zdrop n0 src) (zwrite p0 (ztake n0 src) storage)).
Proof.
  intros. rewrite <- (CopyFrom_loop_2 _ _ p0 n0 p1 n1) by done.
  unfold CopyFrom, MutableBufferSequence_2, MutableBufferSequence_Add. cbn -[CopyFrom_loop].
  destruct (Z.eqb_spec n0 0) as [->|]; destruct (Z.eqb_spec n1 0) as [->|];
    cbn -[CopyFrom_loop]; usimpl; zground; cbn -[CopyFrom_loop];
    unfold live_msegments; cbn -[CopyFrom_loop];
    match goal with |- context [if ?c then _ else _] =>
      destruct c eqn:E; [apply Z.ltb_lt in E; lia|] end; clear E.
  - rewrite CopyFrom_loop_2, (zlen_0 src) by zlia. rewrite ztake_nil, zdrop_all, !zwrite_nil by zlia. done.
  - rewrite CopyFrom_loop_1, CopyFrom_loop_2 by zlia.
    rewrite ztake_0, zwrite_nil, zdrop_0 by lia. done.
  - rewrite CopyFrom_loop_1, CopyFrom_loop_2 by zlia.
    rewrite zdrop_0, (zdrop_all n0), zwrite_nil, ztake_all by lia. done.
  - done.
Qed.
