(* ===== verification/ReceiveBuffer.v ===== *)
(** * The bounded compacting linear buffer

    Models [src/buffer/receive_buffer.{h,cpp}] and [src/buffer/buffer_status.h]:
    the object's four fields, every method, and the capacity-doubling loop that
    the ring buffer shares.  [contents] is the abstraction to a byte sequence;
    the lemmas say what each method does to it. *)

From S2P Require Import Prelude BufferSequence.

Inductive BufferStatus := Ready | LimitExceeded.

#[export] Instance BufferStatus_eq_dec : EqDecision BufferStatus.
Proof. solve_decision. Defined.

Record ReceiveBuffer := mkReceiveBuffer {
  storage_ : list byte;
  maximum_capacity_ : Z;
  read_offset_ : Z;
  write_offset_ : Z;
}.

Record ReceiveBufferSnapshot := mkReceiveBufferSnapshot {
  snap_capacity : Z;
  snap_maximum_capacity : Z;
  snap_readable_bytes : Z;
  snap_writable_bytes : Z;
}.

Definition make (initial_capacity maximum_capacity : Z) : result ReceiveBuffer :=
  let b := mkReceiveBuffer (replicate (Z.to_nat initial_capacity) Byte.x00)
             maximum_capacity 0 0 in
  if max_byte_vector <? initial_capacity then Throw length_error
  else if initial_capacity =? 0 then Throw invalid_argument
  else if maximum_capacity <? initial_capacity then Throw invalid_argument
  else Ok b.

Definition ReadableBytes (b : ReceiveBuffer) : Z :=
  u64 (write_offset_ b - read_offset_ b).
Definition WritableBytes (b : ReceiveBuffer) : Z :=
  u64 (zlen (storage_ b) - write_offset_ b).
Definition Capacity (b : ReceiveBuffer) : Z := zlen (storage_ b).
Definition MaximumCapacity (b : ReceiveBuffer) : Z := maximum_capacity_ b.
Definition Empty (b : ReceiveBuffer) : bool := ReadableBytes b =? 0.

Definition ReadableView (b : ReceiveBuffer) : result ByteView :=
  ByteView_make (Some (zdrop (read_offset_ b) (storage_ b))) (ReadableBytes b).

Definition WritableView (b : ReceiveBuffer) : result MutableByteView :=
  MutableByteView_make (Some (write_offset_ b)) (WritableBytes b).

Definition Snapshot (b : ReceiveBuffer) : ReceiveBufferSnapshot :=
  mkReceiveBufferSnapshot (Capacity b) (MaximumCapacity b)
    (ReadableBytes b) (WritableBytes b).

(** [memmove] of the readable bytes to the front. *)
Definition Compact (b : ReceiveBuffer) : ReceiveBuffer :=
  let readable_bytes := ReadableBytes b in
  let storage :=
    if readable_bytes =? 0 then storage_ b
    else zwrite 0 (zslice (read_offset_ b) readable_bytes (storage_ b)) (storage_ b) in
  mkReceiveBuffer storage (maximum_capacity_ b) 0 readable_bytes.

(** The doubling loop of [EnsureWritable]. *)
Fixpoint next_capacity_loop (fuel : nat) (next_capacity required_capacity maximum_capacity : Z)
    : result Z :=
  match fuel with
  | O => Throw NonTermination
  | S fuel =>
      if next_capacity <? required_capacity then
        if maximum_capacity / 2 <? next_capacity then Ok maximum_capacity
        else next_capacity_loop fuel (u64 (next_capacity * 2)) required_capacity maximum_capacity
      else Ok next_capacity
  end.

(** A capacity of at least 1 doubles at most 63 times below [2^64]. *)
Definition capacity_fuel : nat := 65.

(** [std::vector::resize] to a size that is not smaller. *)
Definition resize (n : Z) (l : list byte) : list byte :=
  ztake n l ++ replicate (Z.to_nat (n - zlen l)) Byte.x00.

(** The growing tail of [EnsureWritable]. *)
Definition EnsureWritable_grow (b : ReceiveBuffer) (readable_bytes minimum_bytes : Z)
    : result (BufferStatus * ReceiveBuffer) :=
  let required_capacity := u64 (readable_bytes + minimum_bytes) in
  next_capacity ← next_capacity_loop capacity_fuel (zlen (storage_ b))
                    required_capacity (maximum_capacity_ b);
  if max_byte_vector <? Z.max next_capacity required_capacity then Throw length_error
  else Ok (Ready, mkReceiveBuffer
                    (resize (Z.max next_capacity required_capacity) (storage_ b))
                    (maximum_capacity_ b) (read_offset_ b) (write_offset_ b)).

Definition EnsureWritable (b : ReceiveBuffer) (minimum_bytes : Z)
    : result (BufferStatus * ReceiveBuffer) :=
  if minimum_bytes <=? WritableBytes b then Ok (Ready, b)
  else
    let readable_bytes := ReadableBytes b in
    if u64 (maximum_capacity_ b - readable_bytes) <? minimum_bytes
    then Ok (LimitExceeded, b)
    else if negb (read_offset_ b =? 0) then
      let b := Compact b in
      if minimum_bytes <=? WritableBytes b then Ok (Ready, b)
      else EnsureWritable_grow b readable_bytes minimum_bytes
    else EnsureWritable_grow b readable_bytes minimum_bytes.

Definition Commit (b : ReceiveBuffer) (bytes : Z) : result ReceiveBuffer :=
  if WritableBytes b <? bytes then Throw out_of_range
  else Ok (mkReceiveBuffer (storage_ b) (maximum_capacity_ b) (read_offset_ b)
             (u64 (write_offset_ b + bytes))).

Definition Consume (b : ReceiveBuffer) (bytes : Z) : result ReceiveBuffer :=
  if ReadableBytes b <? bytes then Throw out_of_range
  else
    let read_offset := u64 (read_offset_ b + bytes) in
    if read_offset =? write_offset_ b
    then Ok (mkReceiveBuffer (storage_ b) (maximum_capacity_ b) 0 0)
    else Ok (mkReceiveBuffer (storage_ b) (maximum_capacity_ b) read_offset (write_offset_ b)).

Definition Append (b : ReceiveBuffer) (bytes : list byte)
    : result (BufferStatus * ReceiveBuffer) :=
  '(status, b) ← EnsureWritable b (zlen bytes);
  if decide (status = Ready) then
    if zlen bytes =? 0 then Ok (Ready, b)
    else
      storage ← mview_memcpy (storage_ b)
                  (mkMutableByteView (Some (write_offset_ b)) (zlen bytes)) bytes;
      Ok (Ready, mkReceiveBuffer storage (maximum_capacity_ b) (read_offset_ b)
                   (u64 (write_offset_ b + zlen bytes)))
  else Ok (status, b).

Definition Clear (b : ReceiveBuffer) : ReceiveBuffer :=
  mkReceiveBuffer (storage_ b) (maximum_capacity_ b) 0 0.

(** ** Invariant and abstraction *)

Record inv (b : ReceiveBuffer) : Prop := {
  inv_read : 0 <= read_offset_ b <= write_offset_ b;
  inv_write : write_offset_ b <= zlen (storage_ b);
  inv_cap : 1 <= zlen (storage_ b) <= maximum_capacity_ b;
  inv_max : maximum_capacity_ b < 2 ^ 63;
}.

Definition contents (b : ReceiveBuffer) : list byte :=
  zslice (read_offset_ b) (write_offset_ b - read_offset_ b) (storage_ b).

(** Destructs the invariant and the fields, so that [lia] sees them. *)
Ltac rb_start :=
  repeat match goal with
    | H : inv ?b |- _ => destruct H
    end;
  unfold ReadableBytes, WritableBytes, Capacity in *.

Lemma ReadableBytes_eq b : inv b -> ReadableBytes b = zlen (contents b).
Proof. intros. rb_start. usimpl. unfold contents. zlia. Qed.

Lemma WritableBytes_eq b : inv b -> WritableBytes b = zlen (storage_ b) - write_offset_ b.
Proof. intros. rb_start. by usimpl. Qed.

Lemma contents_bound b : inv b -> zlen (contents b) <= maximum_capacity_ b.
Proof. intros. rb_start. unfold contents. zlia. Qed.

Lemma zlen_resize n l : zlen l <= n -> zlen (resize n l) = n.
Proof. intros. unfold resize. zlia. Qed.

Lemma zslice_resize i n m l :
  0 <= i -> i + n <= zlen l -> zlen l <= m -> zslice i n (resize m l) = zslice i n l.
Proof.
  intros. unfold resize. rewrite ztake_all by lia. apply zslice_app_l; lia.
Qed.

(** The doubling loop returns, and its result is between the required and the
    maximum capacity and never below the current one. *)
Lemma next_capacity_loop_spec fuel next required maximum :
  1 <= next <= maximum -> required <= maximum < 2 ^ 64 ->
  2 ^ 64 <= next * 2 ^ (Z.of_nat fuel - 1) -> (0 < fuel)%nat ->
  exists r, next_capacity_loop fuel next required maximum = Ok r /\
    required <= r <= maximum /\ next <= r.
Proof.
  revert next. induction fuel as [|fuel IH]; intros next Hn Hr Hf Hp; [lia|].
  cbn [next_capacity_loop].
  destruct (Z.ltb_spec next required); [|exists next; split; [done|lia]].
  pose proof (Z.div_mod maximum 2). pose proof (Z.mod_pos_bound maximum 2).
  destruct (Z.ltb_spec (maximum / 2) next); [exists maximum; split; [done|lia]|].
  usimpl. replace (Z.of_nat (S fuel) - 1) with (Z.of_nat fuel) in Hf by lia.
  destruct fuel as [|fuel].
  { change (Z.of_nat 0) with 0 in Hf. lia. }
  destruct (IH (next * 2)) as (r & -> & ? & ?); [lia|done| |lia|].
  - replace (Z.of_nat (S fuel)) with (1 + (Z.of_nat (S fuel) - 1)) in Hf by lia.
    rewrite Z.pow_add_r in Hf by lia. lia.
  - exists r. split; [done|lia].
Qed.

Lemma next_capacity_ok next required maximum :
  1 <= next <= maximum -> required <= maximum < 2 ^ 64 ->
  exists r, next_capacity_loop capacity_fuel next required maximum = Ok r /\
    required <= r <= maximum /\ next <= r.
Proof.
  intros. apply next_capacity_loop_spec; [done|done| |unfold capacity_fuel; lia].
  unfold capacity_fuel. change (Z.of_nat 65 - 1) with 64. nia.
Qed.

Lemma make_spec initial maximum :
  1 <= initial <= maximum -> maximum < 2 ^ 63 ->
  exists b, make initial maximum = Ok b /\ inv b /\ contents b = [] /\
    maximum_capacity_ b = maximum.
Proof.
  intros. unfold make. destruct (Z.ltb_spec max_byte_vector initial); [lia|].
  destruct (Z.eqb_spec initial 0); [lia|]. destruct (Z.ltb_spec maximum initial); [lia|].
  eexists. split; [done|]. split; [split; cbn; zlia|].
  split; [|done]. unfold contents. cbn. by apply zslice_nil; lia.
Qed.

Lemma Compact_spec b :
  inv b ->
  inv (Compact b) /\ contents (Compact b) = contents b /\
  read_offset_ (Compact b) = 0 /\ maximum_capacity_ (Compact b) = maximum_capacity_ b /\
  zlen (storage_ (Compact b)) = zlen (storage_ b).
Proof.
  intros Hb. destruct (Hb). unfold Compact. rewrite ReadableBytes_eq by done.
  assert (Hl : zlen (contents b) = write_offset_ b - read_offset_ b) by (unfold contents; zlia).
  fold (contents b).
  destruct (Z.eqb_spec (zlen (contents b)) 0) as [E|E]; cbn.
  - repeat split; cbn; try lia. unfold contents at 1. cbn. rewrite E.
    symmetry. by apply zlen_0.
  - replace (zslice (read_offset_ b) (zlen (contents b)) (storage_ b)) with (contents b)
      by (unfold contents at 1; by rewrite Hl).
    repeat split; cbn; rewrite ?zlen_zwrite; try lia.
    unfold contents at 1. cbn. rewrite Z.sub_0_r. apply zslice_zwrite_same. lia.
Qed.

Lemma EnsureWritable_grow_spec b n :
  inv b -> WritableBytes b < n -> zlen (contents b) + n <= maximum_capacity_ b ->
  read_offset_ b = 0 ->
  exists b', EnsureWritable_grow b (zlen (contents b)) n = Ok (Ready, b') /\
    inv b' /\ contents b' = contents b /\ maximum_capacity_ b' = maximum_capacity_ b /\
    n <= WritableBytes b'.
Proof.
  intros Hb Hn Hmax Hr. pose proof (WritableBytes_eq _ Hb).
  assert (Hl : zlen (contents b) = write_offset_ b) by (destruct Hb; unfold contents; zlia).
  destruct (Hb). unfold EnsureWritable_grow. usimpl.
  destruct (next_capacity_ok (zlen (storage_ b)) (zlen (contents b) + n)
              (maximum_capacity_ b)) as (r & -> & ? & ?); [lia|lia|].
  cbn [mbind result_bind]. rewrite (proj2 (Z.ltb_ge _ _)) by lia. eexists. split; [done|].
  assert (inv (mkReceiveBuffer (resize (r `max` (zlen (contents b) + n)) (storage_ b))
                 (maximum_capacity_ b) (read_offset_ b) (write_offset_ b))) as Hi.
  { split; cbn; rewrite ?zlen_resize; lia. }
  split_and!; [done| |done|].
  - unfold contents. cbn. apply zslice_resize; lia.
  - rewrite WritableBytes_eq by done. cbn. rewrite zlen_resize; lia.
Qed.

(** [EnsureWritable] succeeds exactly when the request fits the maximum, keeps
    the readable bytes, and leaves the buffer untouched when it does not. *)
Lemma EnsureWritable_spec b n :
  inv b -> 0 <= n ->
  (zlen (contents b) + n <= maximum_capacity_ b ->
   exists b', EnsureWritable b n = Ok (Ready, b') /\ inv b' /\
     contents b' = contents b /\ maximum_capacity_ b' = maximum_capacity_ b /\
     n <= WritableBytes b') /\
  (maximum_capacity_ b < zlen (contents b) + n -> EnsureWritable b n = Ok (LimitExceeded, b)).
Proof.
  intros Hb Hn. pose proof (contents_bound _ Hb). pose proof (WritableBytes_eq _ Hb).
  assert (Hl : zlen (contents b) = write_offset_ b - read_offset_ b)
    by (destruct Hb; unfold contents; zlia).
  unfold EnsureWritable. rewrite ReadableBytes_eq by done.
  pose proof (inv_max _ Hb). pose proof (inv_cap _ Hb). pose proof (inv_read _ Hb).
  rewrite u64_small by zlia.
  split; intros Hfit; destruct (Z.leb_spec n (WritableBytes b)).
  - by exists b.
  - destruct (Z.ltb_spec (maximum_capacity_ b - zlen (contents b)) n); [lia|].
    destruct (Z.eqb_spec (read_offset_ b) 0); cbn [negb].
    + by apply EnsureWritable_grow_spec.
    + destruct (Compact_spec _ Hb) as (Hc & Hcc & Hc0 & Hcm & Hcs).
      destruct (Z.leb_spec n (WritableBytes (Compact b))); [by eexists|].
      rewrite <- Hcc. rewrite <- Hcm. apply EnsureWritable_grow_spec; try done.
      by rewrite Hcc, Hcm.
  - lia.
  - destruct (Z.ltb_spec (maximum_capacity_ b - zlen (contents b)) n); [done|lia].
Qed.

Lemma Commit_spec b n :
  inv b -> 0 <= n ->
  Commit b n =
    if n <=? zlen (storage_ b) - write_offset_ b
    then Ok (mkReceiveBuffer (storage_ b) (maximum_capacity_ b) (read_offset_ b)
               (write_offset_ b + n))
    else Throw out_of_range.
Proof.
  intros Hb Hn. unfold Commit. rewrite WritableBytes_eq by done. destruct Hb.
  destruct (Z.ltb_spec (zlen (storage_ b) - write_offset_ b) n);
    destruct (Z.leb_spec n (zlen (storage_ b) - write_offset_ b)); try lia; [done|].
  by usimpl.
Qed.

(** [Consume n] drops the first [n] readable bytes, or throws and changes
    nothing when there are fewer. *)
Lemma Consume_spec b n :
  inv b -> 0 <= n ->
  (n <= zlen (contents b) ->
   exists b', Consume b n = Ok b' /\ inv b' /\ contents b' = zdrop n (contents b) /\
     maximum_capacity_ b' = maximum_capacity_ b) /\
  (zlen (contents b) < n -> Consume b n = Throw out_of_range).
Proof.
  intros Hb Hn. unfold Consume. rewrite ReadableBytes_eq by done.
  assert (Hl : zlen (contents b) = write_offset_ b - read_offset_ b)
    by (destruct Hb; unfold contents; zlia).
  destruct (Hb). split; intros Hle;
    (destruct (Z.ltb_spec (zlen (contents b)) n); [try lia; try done|]); [|lia].
  usimpl. destruct (Z.eqb_spec (read_offset_ b + n) (write_offset_ b)) as [E|E];
    eexists; (split; [done|]); (split; [split; cbn; lia|]); (split; [|done]).
  - rewrite zdrop_all by lia. unfold contents. cbn. apply zslice_nil. lia.
  - unfold contents. cbn. rewrite zdrop_zslice by lia. f_equal; lia.
Qed.

(** [Append] adds the bytes at the end, or reports the limit and changes
    nothing. *)
Lemma Append_spec b bs :
  inv b ->
  (zlen (contents b) + zlen bs <= maximum_capacity_ b ->
   exists b', Append b bs = Ok (Ready, b') /\ inv b' /\
     contents b' = contents b ++ bs /\ maximum_capacity_ b' = maximum_capacity_ b) /\
  (maximum_capacity_ b < zlen (contents b) + zlen bs ->
   Append b bs = Ok (LimitExceeded, b)).
Proof.
  intros Hb. destruct (EnsureWritable_spec b (zlen bs) Hb (zlen_nonneg bs)) as [Hok Hno].
  unfold Append. split; intros Hfit; [|by rewrite (Hno Hfit)].
  destruct (Hok Hfit) as (b1 & -> & Hb1 & Hc1 & Hm1 & Hw1). cbn -[mview_memcpy].
  destruct (Z.eqb_spec (zlen bs) 0) as [E|E].
  { exists b1. rewrite (zlen_0 bs E), app_nil_r. done. }
  rewrite WritableBytes_eq in Hw1 by done. destruct (Hb1).
  rewrite mview_memcpy_ok by lia. cbn. zlen_pose. usimpl.
  eexists. split; [done|]. split; [split; cbn; rewrite ?zlen_zwrite; lia|].
  split; [|done]. rewrite <- Hc1. unfold contents. cbn.
  replace (write_offset_ b1 + zlen bs - read_offset_ b1)
    with ((write_offset_ b1 - read_offset_ b1) + zlen bs) by lia.
  rewrite zslice_split by lia. rewrite zslice_zwrite_before by lia. f_equal.
  replace (read_offset_ b1 + (write_offset_ b1 - read_offset_ b1))
    with (write_offset_ b1) by lia.
  apply zslice_zwrite_same. lia.
Qed.

Lemma Clear_spec b :
  inv b -> inv (Clear b) /\ contents (Clear b) = [] /\
    maximum_capacity_ (Clear b) = maximum_capacity_ b.
Proof.
  intros []. split; [split; cbn; lia|]. split; [|done].
  unfold contents. cbn. apply zslice_nil. lia.
Qed.

(** The readable view denotes the contents. *)
Lemma ReadableView_spec b :
  inv b -> exists v, ReadableView b = Ok v /\ view_ok v /\ view_bytes v = contents b.
Proof.
  intros Hb. unfold ReadableView. cbn. eexists. split; [done|].
  rewrite ReadableBytes_eq by done. destruct Hb. unfold view_ok, view_bytes. cbn.
  assert (Hl : zlen (contents b) = write_offset_ b - read_offset_ b)
    by (unfold contents; zlia).
  rewrite Hl. split; [|done]. zlia.
Qed.
