(* ===== verification/RingReceiveBuffer.v ===== *)
(** * The bounded ring buffer

    Models [src/buffer/ring_receive_buffer.{h,cpp}], the buffer every protocol
    session owns.  [contents] is the abstraction to a byte sequence: the bytes
    from the read offset to the end of the storage, then the wrapped bytes
    from its front.  Each method is shown to implement the obvious operation
    on that sequence; the sequence view handed to the parsers denotes exactly
    the contents ([ReadableSequence_spec]). *)

From S2P Require Import Prelude BufferSequence ReceiveBuffer.

Record RingReceiveBuffer := mkRing {
  storage_ : list byte;
  maximum_capacity_ : Z;
  read_offset_ : Z;
  readable_bytes_ : Z;
}.

Record RingReceiveBufferSnapshot := mkRingSnapshot {
  ring_capacity : Z;
  ring_maximum_capacity : Z;
  ring_readable_bytes : Z;
  ring_writable_bytes : Z;
  ring_readable_segments : Z;
  ring_writable_segments : Z;
}.

Definition make (initial_capacity maximum_capacity : Z) : result RingReceiveBuffer :=
  let b := mkRing (replicate (Z.to_nat initial_capacity) Byte.x00)
             maximum_capacity 0 0 in
  if max_byte_vector <? initial_capacity then Throw length_error
  else if initial_capacity =? 0 then Throw invalid_argument
  else if maximum_capacity <? initial_capacity then Throw invalid_argument
  else Ok b.

Definition ReadableBytes (b : RingReceiveBuffer) : Z := readable_bytes_ b.
Definition WritableBytes (b : RingReceiveBuffer) : Z :=
  u64 (zlen (storage_ b) - readable_bytes_ b).
Definition Capacity (b : RingReceiveBuffer) : Z := zlen (storage_ b).
Definition MaximumCapacity (b : RingReceiveBuffer) : Z := maximum_capacity_ b.
Definition Empty (b : RingReceiveBuffer) : bool := readable_bytes_ b =? 0.

Definition WriteOffset (b : RingReceiveBuffer) : Z :=
  u64 (read_offset_ b + readable_bytes_ b) mod zlen (storage_ b).

Definition ReadableSequence (b : RingReceiveBuffer) : result BufferSequence :=
  if readable_bytes_ b =? 0 then Ok BufferSequence_default
  else
    let first_bytes := Z.min (readable_bytes_ b) (u64 (zlen (storage_ b) - read_offset_ b)) in
    let second_bytes := u64 (readable_bytes_ b - first_bytes) in
    first ← ByteView_make (Some (zdrop (read_offset_ b) (storage_ b))) first_bytes;
    second ← ByteView_make (Some (storage_ b)) second_bytes;
    Ok (BufferSequence_2 first second).

Definition WritableSequence (b : RingReceiveBuffer) : result MutableBufferSequence :=
  let writable_bytes := WritableBytes b in
  if writable_bytes =? 0 then Ok MutableBufferSequence_default
  else
    let write_offset := WriteOffset b in
    let first_bytes := Z.min writable_bytes (u64 (zlen (storage_ b) - write_offset)) in
    let second_bytes := u64 (writable_bytes - first_bytes) in
    first ← MutableByteView_make (Some write_offset) first_bytes;
    second ← MutableByteView_make (Some 0) second_bytes;
    Ok (MutableBufferSequence_2 first second).

Definition Grow (b : RingReceiveBuffer) (capacity : Z) : result RingReceiveBuffer :=
  let next := replicate (Z.to_nat capacity) Byte.x00 in
  if max_byte_vector <? capacity then Throw length_error else
  readable ← ReadableSequence b;
  copied ← CopyTo readable 0 (readable_bytes_ b);
  Ok (mkRing (zwrite 0 copied next) (maximum_capacity_ b) 0 (readable_bytes_ b)).

Definition EnsureWritable (b : RingReceiveBuffer) (minimum_bytes : Z)
    : result (BufferStatus * RingReceiveBuffer) :=
  if minimum_bytes <=? WritableBytes b then Ok (Ready, b)
  else if u64 (maximum_capacity_ b - readable_bytes_ b) <? minimum_bytes
  then Ok (LimitExceeded, b)
  else
    let required_capacity := u64 (readable_bytes_ b + minimum_bytes) in
    next_capacity ← next_capacity_loop capacity_fuel (zlen (storage_ b))
                      required_capacity (maximum_capacity_ b);
    b ← Grow b (Z.max next_capacity required_capacity);
    Ok (Ready, b).

Definition Commit (b : RingReceiveBuffer) (bytes : Z) : result RingReceiveBuffer :=
  if WritableBytes b <? bytes then Throw out_of_range
  else Ok (mkRing (storage_ b) (maximum_capacity_ b) (read_offset_ b)
             (u64 (readable_bytes_ b + bytes))).

Definition Consume (b : RingReceiveBuffer) (bytes : Z) : result RingReceiveBuffer :=
  if readable_bytes_ b <? bytes then Throw out_of_range
  else if bytes =? readable_bytes_ b
  then Ok (mkRing (storage_ b) (maximum_capacity_ b) 0 0)
  else Ok (mkRing (storage_ b) (maximum_capacity_ b)
             (u64 (read_offset_ b + bytes) mod zlen (storage_ b))
             (u64 (readable_bytes_ b - bytes))).

Definition Append (b : RingReceiveBuffer) (bytes : list byte)
    : result (BufferStatus * RingReceiveBuffer) :=
  '(status, b) ← EnsureWritable b (zlen bytes);
  if decide (status = Ready) then
    writable ← WritableSequence b;
    storage ← CopyFrom writable bytes (storage_ b);
    b ← Commit (mkRing storage (maximum_capacity_ b) (read_offset_ b) (readable_bytes_ b))
          (zlen bytes);
    Ok (Ready, b)
  else Ok (status, b).

Definition Clear (b : RingReceiveBuffer) : RingReceiveBuffer :=
  mkRing (storage_ b) (maximum_capacity_ b) 0 0.

Definition Snapshot (b : RingReceiveBuffer) : result RingReceiveBufferSnapshot :=
  let writable_bytes := WritableBytes b in
  let writable_segments :=
    if writable_bytes =? 0 then 0
    else
      let first_bytes := Z.min writable_bytes (u64 (zlen (storage_ b) - WriteOffset b)) in
      if first_bytes =? writable_bytes then 1 else 2 in
  readable ← ReadableSequence b;
  Ok (mkRingSnapshot (Capacity b) (MaximumCapacity b) (ReadableBytes b) writable_bytes
        (segment_count readable) writable_segments).

(** ** Invariant and abstraction

    [std::vector] cannot hold [2^63] bytes or more, which bounds the maximum
    capacity that can ever be reached. *)

Record inv (b : RingReceiveBuffer) : Prop := {
  inv_read : 0 <= read_offset_ b < zlen (storage_ b);
  inv_readable : 0 <= readable_bytes_ b <= zlen (storage_ b);
  inv_cap : zlen (storage_ b) <= maximum_capacity_ b;
  inv_max : maximum_capacity_ b < 2 ^ 63;
}.

Definition contents (b : RingReceiveBuffer) : list byte :=
  let first_bytes := Z.min (readable_bytes_ b) (zlen (storage_ b) - read_offset_ b) in
  zslice (read_offset_ b) first_bytes (storage_ b) ++
  zslice 0 (readable_bytes_ b - first_bytes) (storage_ b).

Lemma zlen_contents b : inv b -> zlen (contents b) = readable_bytes_ b.
Proof. intros []. unfold contents. zlia. Qed.

Lemma ring_contents_bound b : inv b -> zlen (contents b) <= maximum_capacity_ b.
Proof. intros Hb. rewrite zlen_contents by done. destruct Hb. lia. Qed.

Lemma ring_WritableBytes_eq b : inv b -> WritableBytes b = zlen (storage_ b) - readable_bytes_ b.
Proof. intros []. unfold WritableBytes. by usimpl. Qed.

(** The write offset without the modulus. *)
Lemma WriteOffset_eq b :
  inv b -> WriteOffset b =
    if read_offset_ b + readable_bytes_ b <? zlen (storage_ b)
    then read_offset_ b + readable_bytes_ b
    else read_offset_ b + readable_bytes_ b - zlen (storage_ b).
Proof.
  intros []. unfold WriteOffset. usimpl.
  destruct (Z.ltb_spec (read_offset_ b + readable_bytes_ b) (zlen (storage_ b))).
  - apply Z.mod_small. lia.
  - symmetry. apply Z.mod_unique_pos with 1; lia.
Qed.

Lemma ring_make_spec initial maximum :
  1 <= initial <= maximum -> maximum < 2 ^ 63 ->
  exists b, make initial maximum = Ok b /\ inv b /\ contents b = [] /\
    maximum_capacity_ b = maximum.
Proof.
  intros. unfold make. destruct (Z.ltb_spec max_byte_vector initial); [lia|].
  destruct (Z.eqb_spec initial 0); [lia|]. destruct (Z.ltb_spec maximum initial); [lia|].
  eexists. split; [done|]. split; [split; cbn; zlia|].
  split; [|done]. unfold contents. cbn. rewrite !zslice_nil by lia. done.
Qed.

(** The sequence view denotes the contents. *)
Lemma ReadableSequence_spec b :
  inv b -> exists s, ReadableSequence b = Ok s /\ seq_ok s /\ seq_bytes s = contents b.
Proof.
  intros Hb. destruct (Hb). unfold ReadableSequence.
  destruct (Z.eqb_spec (readable_bytes_ b) 0) as [E|E].
  { eexists. split; [done|]. split; [apply BufferSequence_default_ok|].
    unfold contents. rewrite !zslice_nil by lia. done. }
  usimpl. cbn [ByteView_make mbind result_bind]. eexists. split; [done|].
  set (v := mkByteView _ _). set (w := mkByteView _ _).
  destruct (BufferSequence_2_ok v w) as [Hok ->].
  - unfold view_ok, v. cbn. zlia.
  - unfold view_ok, w. cbn. zlia.
  - unfold v, w. cbn. zlia.
  - split; [done|]. unfold view_bytes, v, w, contents. cbn. done.
Qed.

Lemma Grow_spec b cap :
  inv b -> zlen (storage_ b) <= cap <= maximum_capacity_ b ->
  exists b', Grow b cap = Ok b' /\ inv b' /\ contents b' = contents b /\
    maximum_capacity_ b' = maximum_capacity_ b /\ zlen (storage_ b') = cap /\
    readable_bytes_ b' = readable_bytes_ b.
Proof.
  intros Hb Hc. destruct (ReadableSequence_spec _ Hb) as (s & Es & Hs & Hsb).
  pose proof (zlen_contents _ Hb) as Hl. destruct (Hb). unfold Grow.
  rewrite (proj2 (Z.ltb_ge max_byte_vector cap)) by lia. rewrite Es. cbn.
  rewrite CopyTo_spec by (done || lia). rewrite Hsb, Hl. cbn.
  rewrite Z.add_0_l, (proj2 (Z.leb_le _ _)) by lia. cbn.
  rewrite zslice_all by lia.
  assert (Hw : zlen (zwrite 0 (contents b) (replicate (Z.to_nat cap) Byte.x00)) = cap)
    by (rewrite zlen_zwrite; zlia).
  eexists. split; [done|]. cbn. split; [split; cbn; lia|].
  split_and!; try done. unfold contents at 1. cbn. rewrite Hw.
  rewrite Z.min_l by lia. rewrite (zslice_nil 0 (_ - _)) by lia. rewrite app_nil_r.
  rewrite <- Hl at 1. apply zslice_zwrite_same. zlia.
Qed.

(** [EnsureWritable] succeeds exactly when the request fits the maximum, keeps
    the readable bytes, and leaves the buffer untouched when it does not. *)
Lemma ring_EnsureWritable_spec b n :
  inv b -> 0 <= n ->
  (zlen (contents b) + n <= maximum_capacity_ b ->
   exists b', EnsureWritable b n = Ok (Ready, b') /\ inv b' /\
     contents b' = contents b /\ maximum_capacity_ b' = maximum_capacity_ b /\
     n <= WritableBytes b') /\
  (maximum_capacity_ b < zlen (contents b) + n -> EnsureWritable b n = Ok (LimitExceeded, b)).
Proof.
  intros Hb Hn. rewrite zlen_contents by done.
  pose proof (ring_WritableBytes_eq _ Hb) as Hw. destruct (Hb).
  unfold EnsureWritable. rewrite (u64_small (maximum_capacity_ b - _)) by lia.
  split; intros Hfit; destruct (Z.leb_spec n (WritableBytes b)); [by exists b| |lia|].
  - destruct (Z.ltb_spec (maximum_capacity_ b - readable_bytes_ b) n); [lia|]. usimpl.
    destruct (next_capacity_ok (zlen (storage_ b)) (readable_bytes_ b + n)
                (maximum_capacity_ b)) as (r & -> & ? & ?); [lia|lia|].
    cbn [mbind result_bind].
    destruct (Grow_spec b (r `max` (readable_bytes_ b + n)) Hb) as
      (b' & -> & Hb' & Hc' & Hm' & Hs' & Hr'); [lia|].
    cbn. exists b'. rewrite ring_WritableBytes_eq by done. split_and!; try done. lia.
  - destruct (Z.ltb_spec (maximum_capacity_ b - readable_bytes_ b) n); [done|lia].
Qed.

(** [Consume n] drops the first [n] readable bytes, or throws when there are
    fewer. *)
Lemma ring_Consume_spec b n :
  inv b -> 0 <= n ->
  (n <= zlen (contents b) ->
   exists b', Consume b n = Ok b' /\ inv b' /\ contents b' = zdrop n (contents b) /\
     maximum_capacity_ b' = maximum_capacity_ b) /\
  (zlen (contents b) < n -> Consume b n = Throw out_of_range).
Proof.
  intros Hb Hn. pose proof (zlen_contents _ Hb) as Hl. rewrite Hl. destruct (Hb).
  unfold Consume. split; intros Hle;
    (destruct (Z.ltb_spec (readable_bytes_ b) n); [try lia; try done|]); [|lia].
  destruct (Z.eqb_spec n (readable_bytes_ b)) as [->|E].
  - eexists. split; [done|]. split; [split; cbn; lia|]. split; [|done].
    rewrite zdrop_all by lia. unfold contents. cbn. rewrite !zslice_nil by lia. done.
  - usimpl. eexists. split; [done|].
    assert (zlen (storage_ b) > 0) by lia.
    assert (Hm : (read_offset_ b + n) mod zlen (storage_ b) =
      if read_offset_ b + n <? zlen (storage_ b) then read_offset_ b + n
      else read_offset_ b + n - zlen (storage_ b)).
    { destruct (Z.ltb_spec (read_offset_ b + n) (zlen (storage_ b))).
      - apply Z.mod_small. lia.
      - symmetry. apply Z.mod_unique_pos with 1; lia. }
    rewrite Hm. clear Hm.
    destruct (Z.ltb_spec (read_offset_ b + n) (zlen (storage_ b)));
      (split; [split; cbn; lia|]; split; [|done]); unfold contents; cbn.
    + rewrite zdrop_app_le by zlia. rewrite zdrop_zslice by lia.
      f_equal; f_equal; lia.
    + rewrite zdrop_app_ge by zlia. rewrite zlen_zslice.
      rewrite zdrop_zslice by lia. rewrite (zslice_nil 0 (_ - _ - _)) by lia.
      rewrite app_nil_r. f_equal; lia.
Qed.

(** The storage after the bytes are copied behind the readable ones: the
    readable slices are intact and the new bytes follow them.  First when the
    readable bytes do not wrap, then when they do. *)
Lemma contents_after_copy_flat st mx ro rb bs :
  0 <= ro -> 0 <= rb -> ro + rb < zlen st -> zlen bs <= zlen st - rb ->
  let k := zlen st - (ro + rb) in
  let st' := zwrite 0 (zdrop k bs) (zwrite (ro + rb) (ztake k bs) st) in
  zlen st' = zlen st /\
  contents (mkRing st' mx ro (rb + zlen bs)) = contents (mkRing st mx ro rb) ++ bs.
Proof.
  intros Hro Hrb Hlt Hfit k st'. pose proof (zlen_nonneg bs).
  assert (Hk : k = zlen st - (ro + rb)) by done. clearbody k.
  assert (H1 : zlen (zwrite (ro + rb) (ztake k bs) st) = zlen st)
    by (rewrite zlen_zwrite; zlia).
  assert (H2 : zlen st' = zlen st) by (unfold st'; rewrite zlen_zwrite; rewrite ?H1; zlia).
  split; [done|]. unfold contents. cbn. rewrite H2. unfold st'. clear H2 st'.
  rewrite (Z.min_l rb) by lia. rewrite (zslice_nil 0 (rb - rb)) by lia.
  rewrite app_nil_r. destruct (decide (zlen bs <= k)) as [Hin|Hout].
  - rewrite Z.min_l by lia. rewrite (zslice_nil 0 (_ - _)), app_nil_r by lia.
    rewrite zdrop_all, zwrite_nil, ztake_all by lia.
    rewrite zslice_split by lia. rewrite zslice_zwrite_before by lia.
    f_equal. apply zslice_zwrite_same. lia.
  - rewrite Z.min_r by lia. replace (zlen st - ro) with (rb + k) by lia.
    rewrite zslice_split by lia. rewrite <- app_assoc.
    rewrite (zslice_zwrite_after 0 ro) by zlia.
    rewrite (zslice_zwrite_before _ ro) by lia. f_equal.
    rewrite (zslice_zwrite_after 0) by zlia.
    trans (ztake k bs ++ zdrop k bs); [f_equal|apply ztake_zdrop].
    + replace k with (zlen (ztake k bs)) at 1 by zlia. apply zslice_zwrite_same. lia.
    + replace (rb + zlen bs - (rb + k)) with (zlen (zdrop k bs)) by zlia.
      apply zslice_zwrite_same. lia.
Qed.

Lemma contents_after_copy_wrapped st mx ro rb bs :
  0 <= ro < zlen st -> 0 <= rb -> zlen st <= ro + rb -> zlen bs <= zlen st - rb ->
  let st' := zwrite (ro + rb - zlen st) bs st in
  zlen st' = zlen st /\
  contents (mkRing st' mx ro (rb + zlen bs)) = contents (mkRing st mx ro rb) ++ bs.
Proof.
  intros Hro Hrb Hge Hfit st'. pose proof (zlen_nonneg bs).
  assert (H1 : zlen st' = zlen st) by (unfold st'; rewrite zlen_zwrite; lia).
  split; [done|]. unfold contents. cbn. rewrite H1. unfold st'.
  rewrite !Z.min_r by lia.
  rewrite (zslice_zwrite_after _ ro) by lia. rewrite <- app_assoc. f_equal.
  replace (rb + zlen bs - (zlen st - ro)) with ((ro + rb - zlen st) + zlen bs) by lia.
  rewrite zslice_split by lia. rewrite zslice_zwrite_before by lia.
  f_equal; [f_equal; lia|]. rewrite Z.add_0_l. apply zslice_zwrite_same. lia.
Qed.

Lemma contents_after_copy b bs wo f :
  inv b -> zlen bs <= zlen (storage_ b) - readable_bytes_ b ->
  wo = WriteOffset b ->
  f = Z.min (zlen (storage_ b) - readable_bytes_ b) (zlen (storage_ b) - wo) ->
  let st' := zwrite 0 (zdrop f bs) (zwrite wo (ztake f bs) (storage_ b)) in
  zlen st' = zlen (storage_ b) /\
  contents (mkRing st' (maximum_capacity_ b) (read_offset_ b)
              (readable_bytes_ b + zlen bs)) = contents b ++ bs.
Proof.
  intros Hb Hfit Hwo Hf. rewrite (WriteOffset_eq _ Hb) in Hwo. destruct (Hb).
  destruct b as [st mx ro rb]. cbn [storage_ maximum_capacity_ read_offset_ readable_bytes_] in *.
  destruct (Z.ltb_spec (ro + rb) (zlen st)) as [Hlt|Hge]; cbv zeta; subst wo.
  - assert (f = zlen st - (ro + rb)) as -> by lia.
    apply contents_after_copy_flat; lia.
  - assert (f = zlen st - rb) as -> by lia.
    rewrite (zdrop_all (zlen st - rb)), zwrite_nil, ztake_all by lia.
    apply contents_after_copy_wrapped; lia.
Qed.

Lemma WritableSequence_copy b bs :
  inv b -> zlen bs <= WritableBytes b ->
  exists s st', WritableSequence b = Ok s /\ CopyFrom s bs (storage_ b) = Ok st' /\
    zlen st' = zlen (storage_ b) /\
    contents (mkRing st' (maximum_capacity_ b) (read_offset_ b)
                (readable_bytes_ b + zlen bs)) = contents b ++ bs.
Proof.
  intros Hb Hw. rewrite (ring_WritableBytes_eq _ Hb) in Hw.
  pose proof (WriteOffset_eq _ Hb) as Hwo. pose proof (zlen_nonneg bs).
  unfold WritableSequence. rewrite ring_WritableBytes_eq by done. destruct (Hb).
  destruct (Z.eqb_spec (zlen (storage_ b) - readable_bytes_ b) 0) as [E|E].
  - assert (bs = []) as -> by (apply zlen_0; lia).
    do 2 eexists. split; [done|]. split; [done|]. split; [done|].
    rewrite zlen_nil, Z.add_0_r, app_nil_r. by destruct b.
  - assert (0 <= WriteOffset b < zlen (storage_ b)).
    { rewrite Hwo. destruct (Z.ltb_spec (read_offset_ b + readable_bytes_ b)
        (zlen (storage_ b))); lia. }
    usimpl. cbn [MutableByteView_make mbind result_bind].
    destruct (contents_after_copy b bs (WriteOffset b) _ Hb Hw eq_refl eq_refl) as [Hl Hc].
    do 2 eexists. split; [done|]. split; [|split; [exact Hl|exact Hc]].
    apply CopyFrom_spec; lia.
Qed.

(** [Append] adds the bytes at the end, or reports the limit and changes
    nothing. *)
Lemma ring_Append_spec b bs :
  inv b ->
  (zlen (contents b) + zlen bs <= maximum_capacity_ b ->
   exists b', Append b bs = Ok (Ready, b') /\ inv b' /\
     contents b' = contents b ++ bs /\ maximum_capacity_ b' = maximum_capacity_ b) /\
  (maximum_capacity_ b < zlen (contents b) + zlen bs ->
   Append b bs = Ok (LimitExceeded, b)).
Proof.
  intros Hb. destruct (ring_EnsureWritable_spec b (zlen bs) Hb (zlen_nonneg bs)) as [Hok Hno].
  unfold Append. split; intros Hfit; [|by rewrite (Hno Hfit)].
  destruct (Hok Hfit) as (b1 & -> & Hb1 & Hc1 & Hm1 & Hw1). cbn [mbind result_bind].
  destruct (decide _); [|done].
  destruct (WritableSequence_copy b1 bs Hb1 Hw1) as (s & st & -> & Ec & Hl & Hct).
  cbn [mbind result_bind]. rewrite Ec. cbn [mbind result_bind].
  rewrite (ring_WritableBytes_eq _ Hb1) in Hw1. destruct (Hb1). pose proof (zlen_nonneg bs).
  unfold Commit, WritableBytes. cbn. rewrite Hl. usimpl.
  destruct (Z.ltb_spec (zlen (storage_ b1) - readable_bytes_ b1) (zlen bs)); [lia|]. cbn.
  eexists. split; [done|]. rewrite Hct, Hc1. split; [split; cbn; lia|]. by cbn.
Qed.

Lemma ring_Clear_spec b :
  inv b -> inv (Clear b) /\ contents (Clear b) = [] /\
    maximum_capacity_ (Clear b) = maximum_capacity_ b.
Proof.
  intros []. split; [split; cbn; lia|]. split; [|done].
  unfold contents. cbn. rewrite !zslice_nil by lia. done.
Qed.

Lemma Empty_spec b : inv b -> Empty b = true <-> contents b = [].
Proof.
  intros Hb. unfold Empty. rewrite <- (zlen_contents _ Hb), Z.eqb_eq.
  split; [apply zlen_0|by intros ->].
Qed.
