(* ===== verification/ByteQueue.v ===== *)
(** * The contract of a receive buffer

    What the protocol sessions rely on when they own a receive buffer: a
    bounded first-in first-out byte queue.  [ByteQueue] is the interface (the
    methods of the buffer classes the sessions call), [ByteQueueLaws] its
    contract, and both buffer implementations are instances.  The abstract
    queue [spec_run] is a list and a limit; [run_refines] says that every
    lawful implementation produces the same observations as the abstract
    queue on every sequence of operations, so the two implementations are
    interchangeable. *)

From S2P Require Import Prelude BufferSequence ReceiveBuffer RingReceiveBuffer.

Class ByteQueue (Q : Type) := {
  bq_append : Q -> list byte -> result (BufferStatus * Q);
  bq_consume : Q -> Z -> result Q;
  bq_clear : Q -> Q;
  bq_size : Q -> Z;
  bq_sequence : Q -> result BufferSequence;
}.

Class ByteQueueLaws (Q : Type) `{ByteQueue Q} := {
  bq_inv : Q -> Prop;
  bq_contents : Q -> list byte;
  bq_limit : Q -> Z;
  bq_limit_range q : bq_inv q -> zlen (bq_contents q) <= bq_limit q < 2 ^ 64;
  bq_size_spec q : bq_inv q -> bq_size q = zlen (bq_contents q);
  bq_append_ok q bs :
    bq_inv q -> zlen (bq_contents q) + zlen bs <= bq_limit q ->
    exists q', bq_append q bs = Ok (Ready, q') /\ bq_inv q' /\
      bq_contents q' = bq_contents q ++ bs /\ bq_limit q' = bq_limit q;
  bq_append_full q bs :
    bq_inv q -> bq_limit q < zlen (bq_contents q) + zlen bs ->
    bq_append q bs = Ok (LimitExceeded, q);
  bq_consume_ok q n :
    bq_inv q -> 0 <= n <= zlen (bq_contents q) ->
    exists q', bq_consume q n = Ok q' /\ bq_inv q' /\
      bq_contents q' = zdrop n (bq_contents q) /\ bq_limit q' = bq_limit q;
  bq_consume_throws q n :
    bq_inv q -> zlen (bq_contents q) < n -> bq_consume q n = Throw out_of_range;
  bq_clear_ok q :
    bq_inv q -> bq_inv (bq_clear q) /\ bq_contents (bq_clear q) = [] /\
      bq_limit (bq_clear q) = bq_limit q;
  bq_sequence_ok q :
    bq_inv q -> exists s, bq_sequence q = Ok s /\ seq_ok s /\ seq_bytes s = bq_contents q;
}.

(** ** The two implementations *)

#[export] Instance ReceiveBuffer_queue : ByteQueue ReceiveBuffer := {|
  bq_append := ReceiveBuffer.Append;
  bq_consume := ReceiveBuffer.Consume;
  bq_clear := ReceiveBuffer.Clear;
  bq_size := ReceiveBuffer.ReadableBytes;
  bq_sequence := fun b => v ← ReceiveBuffer.ReadableView b; Ok (BufferSequence_1 v);
|}.

#[export] Instance Ring_queue : ByteQueue RingReceiveBuffer := {|
  bq_append := RingReceiveBuffer.Append;
  bq_consume := RingReceiveBuffer.Consume;
  bq_clear := RingReceiveBuffer.Clear;
  bq_size := RingReceiveBuffer.ReadableBytes;
  bq_sequence := RingReceiveBuffer.ReadableSequence;
|}.

#[export] Program Instance ReceiveBuffer_laws : ByteQueueLaws ReceiveBuffer := {|
  bq_inv := ReceiveBuffer.inv;
  bq_contents := ReceiveBuffer.contents;
  bq_limit := ReceiveBuffer.maximum_capacity_;
|}.
Next Obligation.
  intros q Hq. pose proof (ReceiveBuffer.contents_bound _ Hq). destruct Hq. lia.
Qed.
Next Obligation. intros q. apply ReceiveBuffer.ReadableBytes_eq. Qed.
Next Obligation. intros q bs Hq. apply (ReceiveBuffer.Append_spec q bs Hq). Qed.
Next Obligation. intros q bs Hq. apply (ReceiveBuffer.Append_spec q bs Hq). Qed.
Next Obligation. intros q n Hq Hn. apply (ReceiveBuffer.Consume_spec q n Hq); lia. Qed.
Next Obligation.
  intros q n Hq Hn. pose proof (zlen_nonneg (ReceiveBuffer.contents q)).
  apply (ReceiveBuffer.Consume_spec q n Hq); lia.
Qed.
Next Obligation. intros q. apply ReceiveBuffer.Clear_spec. Qed.
Next Obligation.
  intros q Hq. cbn [bq_sequence ReceiveBuffer_queue].
  destruct (ReceiveBuffer.ReadableView_spec q Hq) as (v & -> & Hv & Hb).
  cbn. eexists. split; [done|]. rewrite <- Hb. apply BufferSequence_1_ok; [done|].
  rewrite <- (zlen_view_bytes _ Hv), Hb.
  pose proof (ReceiveBuffer.contents_bound _ Hq). destruct Hq. lia.
Qed.

#[export] Program Instance Ring_laws : ByteQueueLaws RingReceiveBuffer := {|
  bq_inv := RingReceiveBuffer.inv;
  bq_contents := RingReceiveBuffer.contents;
  bq_limit := RingReceiveBuffer.maximum_capacity_;
|}.
Next Obligation.
  intros q Hq. pose proof (RingReceiveBuffer.ring_contents_bound _ Hq). destruct Hq. lia.
Qed.
Next Obligation. intros q Hq. symmetry. by apply zlen_contents. Qed.
Next Obligation. intros q bs Hq. apply (RingReceiveBuffer.ring_Append_spec q bs Hq). Qed.
Next Obligation. intros q bs Hq. apply (RingReceiveBuffer.ring_Append_spec q bs Hq). Qed.
Next Obligation. intros q n Hq Hn. apply (RingReceiveBuffer.ring_Consume_spec q n Hq); lia. Qed.
Next Obligation.
  intros q n Hq Hn. pose proof (zlen_nonneg (RingReceiveBuffer.contents q)).
  apply (RingReceiveBuffer.ring_Consume_spec q n Hq); lia.
Qed.
Next Obligation. intros q. apply RingReceiveBuffer.ring_Clear_spec. Qed.
Next Obligation. intros q. apply ReadableSequence_spec. Qed.

(** ** The abstract queue and the refinement *)

Inductive op := OpAppend (bs : list byte) | OpConsume (n : Z) | OpClear.

(** What a caller sees of an operation. *)
Inductive obs := Appended (status : BufferStatus) | Consumed | Cleared | Thrown (e : exn).

Definition op_valid (o : op) : Prop :=
  match o with OpConsume n => 0 <= n | _ => True end.

(** The abstract queue: at most [limit] bytes. *)
Definition spec_step (limit : Z) (l : list byte) (o : op) : obs * list byte :=
  match o with
  | OpAppend bs =>
      if zlen l + zlen bs <=? limit then (Appended Ready, l ++ bs)
      else (Appended LimitExceeded, l)
  | OpConsume n =>
      if n <=? zlen l then (Consumed, zdrop n l) else (Thrown out_of_range, l)
  | OpClear => (Cleared, [])
  end.

Fixpoint spec_run (limit : Z) (l : list byte) (os : list op) : list obs * list byte :=
  match os with
  | [] => ([], l)
  | o :: os =>
      let '(b, l') := spec_step limit l o in
      let '(bs, l'') := spec_run limit l' os in (b :: bs, l'')
  end.

Section run.
Context {Q : Type} `{ByteQueue Q}.

(** An operation on an implementation; an exception leaves the object as it
    was, because the methods throw before they mutate. *)
Definition impl_step (q : Q) (o : op) : obs * Q :=
  match o with
  | OpAppend bs =>
      match bq_append q bs with
      | Ok (status, q') => (Appended status, q')
      | Throw e => (Thrown e, q)
      end
  | OpConsume n =>
      match bq_consume q n with
      | Ok q' => (Consumed, q')
      | Throw e => (Thrown e, q)
      end
  | OpClear => (Cleared, bq_clear q)
  end.

Fixpoint impl_run (q : Q) (os : list op) : list obs * Q :=
  match os with
  | [] => ([], q)
  | o :: os =>
      let '(b, q') := impl_step q o in
      let '(bs, q'') := impl_run q' os in (b :: bs, q'')
  end.

Context `{!ByteQueueLaws Q}.

Lemma step_refines q o :
  bq_inv q -> op_valid o ->
  let '(b, q') := impl_step q o in
  bq_inv q' /\ bq_limit q' = bq_limit q /\
  spec_step (bq_limit q) (bq_contents q) o = (b, bq_contents q').
Proof.
  intros Hq Ho. destruct o as [bs|n|]; cbn [impl_step spec_step].
  - destruct (Z.leb_spec (zlen (bq_contents q) + zlen bs) (bq_limit q)).
    + destruct (bq_append_ok q bs) as (q' & -> & ? & -> & ?); done.
    + by rewrite bq_append_full.
  - cbn in Ho. destruct (Z.leb_spec n (zlen (bq_contents q))).
    + destruct (bq_consume_ok q n) as (q' & -> & ? & -> & ?); done.
    + by rewrite bq_consume_throws.
  - destruct (bq_clear_ok q) as (? & -> & ?); done.
Qed.

Lemma run_refines os : forall q,
  bq_inv q -> Forall op_valid os ->
  let '(b, q') := impl_run q os in
  bq_inv q' /\ spec_run (bq_limit q) (bq_contents q) os = (b, bq_contents q').
Proof.
  induction os as [|o os IH]; intros q Hq Hos; cbn [impl_run spec_run]; [done|].
  apply Forall_cons in Hos as [Ho Hos].
  pose proof (step_refines q o Hq Ho) as Hs.
  destruct (impl_step q o) as [b q1]. destruct Hs as (Hq1 & Hl & ->).
  specialize (IH q1 Hq1 Hos). rewrite Hl in IH.
  destruct (impl_run q1 os) as [bs q2]. destruct IH as [? ->]. done.
Qed.
End run.

(** C27. Refinement of the ring buffer: a ring buffer made with a valid initial
    and maximum capacity answers every sequence of appends, consumes and
    clears exactly as a bounded byte queue does (the same statuses, the same
    exceptions), and its readable bytes are the queue's bytes, in order,
    across every wrap-around and every growth; its growing loop terminates and
    its copies stay inside the storage. *)
Theorem ring_refines_queue initial maximum (os : list op) :
  1 <= initial <= maximum -> maximum < 2 ^ 63 -> Forall op_valid os ->
  exists b, RingReceiveBuffer.make initial maximum = Ok b /\
    let '(bs, b') := impl_run b os in
    spec_run maximum [] os = (bs, RingReceiveBuffer.contents b') /\
    RingReceiveBuffer.inv b'.
Proof.
  intros Hi Hm Ho. destruct (RingReceiveBuffer.ring_make_spec _ _ Hi Hm) as (b & E & Hb & Hc & Hl).
  exists b. split; [done|]. pose proof (run_refines os b Hb Ho) as Hr.
  destruct (impl_run b os) as [bs b']. cbn in Hr. rewrite Hc, Hl in Hr. by destruct Hr.
Qed.

(** A run that wraps, grows, hits the limit and throws. *)
Definition demo_ops : list op :=
  [OpAppend $"abc"; OpConsume 2; OpAppend $"def"; OpAppend $"ghij";
   OpAppend $"kl"; OpConsume 9; OpConsume 3; OpAppend $"mno"; OpClear; OpAppend $"p"].

Lemma ring_refines_queue_witness :
  exists b, RingReceiveBuffer.make 4 8 = Ok b /\
    let '(bs, b') := impl_run b demo_ops in
    spec_run 8 [] demo_ops = (bs, RingReceiveBuffer.contents b') /\
    RingReceiveBuffer.inv b'.
Proof.
  apply (ring_refines_queue 4 8 demo_ops); [lia|lia|].
  unfold demo_ops. repeat constructor; cbn; lia.
Defined.

(** The two buffers are observationally equivalent: the compacting linear
    buffer and the ring buffer, made with the same capacities, answer every
    sequence of operations with the same statuses and exceptions and end with
    the same readable bytes. *)
Theorem linear_ring_equivalent initial maximum (os : list op) :
  1 <= initial <= maximum -> maximum < 2 ^ 63 -> Forall op_valid os ->
  exists a b, ReceiveBuffer.make initial maximum = Ok a /\
    RingReceiveBuffer.make initial maximum = Ok b /\
    let '(oa, a') := impl_run a os in
    let '(ob, b') := impl_run b os in
    oa = ob /\ ReceiveBuffer.contents a' = RingReceiveBuffer.contents b'.
Proof.
  intros Hi Hm Ho.
  destruct (RingReceiveBuffer.ring_make_spec _ _ Hi Hm) as (b & Eb & Hb & Hcb & Hlb).
  destruct (ReceiveBuffer.make_spec initial maximum) as (a & Ea & Ha & Hca & Hla); [done|lia|].
  exists a, b. split; [done|]. split; [done|].
  pose proof (run_refines os b Hb Ho) as Hrb. pose proof (run_refines os a Ha Ho) as Hra.
  destruct (impl_run a os) as [oa a']. destruct (impl_run b os) as [ob b'].
  cbn in Hra, Hrb. rewrite Hcb, Hlb in Hrb. rewrite Hca, Hla in Hra.
  destruct Hra as [_ Hra]. destruct Hrb as [_ Hrb]. split; congruence.
Qed.

Lemma linear_ring_equivalent_witness :
  exists a b, ReceiveBuffer.make 4 8 = Ok a /\
    RingReceiveBuffer.make 4 8 = Ok b /\
    let '(oa, a') := impl_run a demo_ops in
    let '(ob, b') := impl_run b demo_ops in
    oa = ob /\ ReceiveBuffer.contents a' = RingReceiveBuffer.contents b'.
Proof.
  apply (linear_ring_equivalent 4 8 demo_ops); [lia|lia|].
  unfold demo_ops. repeat constructor; cbn; lia.
Defined.

(** The demo run, evaluated. *)
Example demo_run :
  fst (spec_run 8 [] demo_ops) =
  [Appended Ready; Consumed; Appended Ready; Appended Ready; Appended LimitExceeded;
   Thrown out_of_range; Consumed; Appended Ready; Cleared; Appended Ready].
Proof. reflexivity. Qed.
