(* ===== verification/HttpMessage.v ===== *)
(** * HTTP messages and the string functions they use

    Models [src/protocol/http/http_message.{h,cpp}] and the parts of
    [std::string] and [<cctype>] (in the "C" locale) the HTTP code calls.
    A [std::string] is a [list byte]; [find] returns [npos], which is
    [size_max], when there is no match. *)

From S2P Require Import Prelude.

#[export] Program Instance byte_countable : Countable byte :=
  inj_countable Byte.to_N Byte.of_N Byte.of_to_N.

(** ** [std::string] *)

Definition npos : Z := size_max.

(** [find_from c l pos]: the index of the first [c] of [l], counted from [pos]. *)
Fixpoint find_from (c : byte) (l : list byte) (pos : Z) : Z :=
  match l with
  | [] => npos
  | b :: l => if decide (b = c) then pos else find_from c l (pos + 1)
  end.

(** [l.find(c, pos)] *)
Definition str_find (c : byte) (l : list byte) (pos : Z) : Z :=
  find_from c (zdrop pos l) pos.

(** [l.substr(pos, count)] *)
Definition substr (l : list byte) (pos count : Z) : result (list byte) :=
  if zlen l <? pos then Throw out_of_range
  else Ok (zslice pos (Z.min count (zlen l - pos)) l).

Definition front (l : list byte) : option byte := head l.

(** ** [<cctype>] *)

Definition is_upper (b : byte) : bool := (65 <=? b2z b) && (b2z b <=? 90).
Definition is_lower (b : byte) : bool := (97 <=? b2z b) && (b2z b <=? 122).
Definition is_digit (b : byte) : bool := (48 <=? b2z b) && (b2z b <=? 57).
Definition isalnum (b : byte) : bool := is_upper b || is_lower b || is_digit b.
Definition tolower (b : byte) : byte := if is_upper b then z2b (b2z b + 32) else b.

(** The [Lowercase] helper of the parser, the encoder and the scheduler. *)
Definition Lowercase (l : list byte) : list byte := map tolower l.

Definition CR : byte := Byte.x0d.
Definition LF : byte := Byte.x0a.
Definition SP : byte := Byte.x20.
Definition HTAB : byte := Byte.x09.
Definition CRLF : list byte := [CR; LF].

(** [std::to_string] of an unsigned integer: decimal digits, at most [fuel]. *)
Fixpoint to_digits (fuel : nat) (n : Z) (acc : list byte) : list byte :=
  match fuel with
  | O => acc
  | S fuel =>
      let acc := z2b (48 + n mod 10) :: acc in
      if n / 10 =? 0 then acc else to_digits fuel (n / 10) acc
  end.

(** Twenty digits are enough for every [uint64_t]. *)
Definition to_string (n : Z) : list byte := to_digits 20 n [].

(** ** Data types *)

Inductive HttpMethod :=
  | Get | Post | Put | Delete_ | Patch | Head | Options | Unsupported.

#[export] Instance HttpMethod_eq_dec : EqDecision HttpMethod.
Proof. solve_decision. Defined.

Record HttpHeader := mkHeader { name : list byte; value : list byte }.

#[export] Instance HttpHeader_eq_dec : EqDecision HttpHeader.
Proof. solve_decision. Defined.

Record HttpRequest := mkRequest {
  method : HttpMethod;
  method_text : list byte;
  target : list byte;
  path : list byte;
  query : list byte;
  headers : list HttpHeader;
  body : list byte;
  keep_alive : bool;
  request_id : Z;
  connection_id : Z;
}.

#[export] Instance HttpRequest_eq_dec : EqDecision HttpRequest.
Proof. solve_decision. Defined.

(** [HttpRequest{}] *)
Definition HttpRequest_default : HttpRequest :=
  mkRequest Unsupported [] [] [] [] [] [] true 0 0.

Record HttpResponse := mkResponse {
  status_code : Z;
  reason_phrase : list byte;
  resp_headers : list HttpHeader;
  resp_body : list byte;
  close_connection : bool;
}.

Definition HttpResponse_default : HttpResponse := mkResponse 200 [] [] [] false.

(** ** Operations *)

Fixpoint EqualsIgnoreCase_loop (left_ right_ : list byte) : bool :=
  match left_, right_ with
  | l :: left_, r :: right_ =>
      if decide (tolower l = tolower r) then EqualsIgnoreCase_loop left_ right_ else false
  | _, _ => true
  end.

Definition EqualsIgnoreCase (left_ right_ : list byte) : bool :=
  if negb (zlen left_ =? zlen right_) then false else EqualsIgnoreCase_loop left_ right_.

(** [HttpRequest::Header]: the value of the first matching header. *)
Definition Header (r : HttpRequest) (key : list byte) : option (list byte) :=
  match List.find (fun h => EqualsIgnoreCase (name h) key) (headers r) with
  | Some h => Some (value h)
  | None => None
  end.

Definition ParseMethod (v : list byte) : HttpMethod :=
  if decide (v = $"GET") then Get
  else if decide (v = $"POST") then Post
  else if decide (v = $"PUT") then Put
  else if decide (v = $"DELETE") then Delete_
  else if decide (v = $"PATCH") then Patch
  else if decide (v = $"HEAD") then Head
  else if decide (v = $"OPTIONS") then Options
  else Unsupported.

Definition MethodName (m : HttpMethod) : list byte :=
  match m with
  | Get => $"GET"
  | Post => $"POST"
  | Put => $"PUT"
  | Delete_ => $"DELETE"
  | Patch => $"PATCH"
  | Head => $"HEAD"
  | Options => $"OPTIONS"
  | Unsupported => $"UNSUPPORTED"
  end.

Definition DefaultReasonPhrase (status_code : Z) : list byte :=
  if status_code =? 200 then $"OK"
  else if status_code =? 400 then $"Bad Request"
  else if status_code =? 404 then $"Not Found"
  else if status_code =? 405 then $"Method Not Allowed"
  else if status_code =? 413 then $"Payload Too Large"
  else if status_code =? 414 then $"URI Too Long"
  else if status_code =? 431 then $"Request Header Fields Too Large"
  else if status_code =? 500 then $"Internal Server Error"
  else if status_code =? 503 then $"Service Unavailable"
  else $"Unknown".

(** [BytesFromString] and [StringFromBytes] copy the bytes. *)
Definition BytesFromString (v : list byte) : list byte := v.
Definition StringFromBytes (v : list byte) : list byte := v.

Definition MakeTextResponse (code : Z) (text content_type : list byte) : HttpResponse :=
  mkResponse code [] [mkHeader $"Content-Type" content_type] (BytesFromString text) false.

Definition text_plain_utf8 : list byte := $"text/plain; charset=utf-8".

(** The loop of [QueryParams]; [params] is the map under construction, in
    which [emplace] keeps the first value of a key. *)
Definition emplace (k v : list byte) (m : gmap (list byte) (list byte))
    : gmap (list byte) (list byte) :=
  match m !! k with Some _ => m | None => <[k := v]> m end.

Fixpoint QueryParams_loop (fuel : nat) (remaining : list byte)
    (params : gmap (list byte) (list byte)) : result (gmap (list byte) (list byte)) :=
  match fuel with
  | O => Throw NonTermination
  | S fuel =>
      if zlen remaining =? 0 then Ok params
      else
        let eq := str_find Byte.x3d remaining 0 in
        let amp := str_find Byte.x26 remaining 0 in
        let segment_end := Z.min amp (zlen remaining) in
        key ← substr remaining 0 eq;
        val ← (if negb (eq =? npos) && (eq <? segment_end)
               then substr remaining (eq + 1) (u64 (segment_end - eq - 1))
               else Ok []);
        let params := emplace key val params in
        if amp =? npos then Ok params
        else
          remaining ← substr remaining (amp + 1) npos;
          QueryParams_loop fuel remaining params
  end.

Definition QueryParams (r : HttpRequest) : result (gmap (list byte) (list byte)) :=
  if zlen (query r) =? 0 then Ok ∅
  else QueryParams_loop (S (length (query r))) (query r) ∅.

(** ** Facts about [find], [substr] and lengths *)

Lemma find_from_spec c l pos :
  (find_from c l pos = npos /\ ~ In c l) \/
  (pos <= find_from c l pos < pos + zlen l /\
   exists l1 l2, l = l1 ++ c :: l2 /\ ~ In c l1 /\ find_from c l pos = pos + zlen l1).
Proof.
  revert pos. induction l as [|b l IH]; intros pos; cbn; [by left; split; [|tauto]|].
  rewrite zlen_cons. pose proof (zlen_nonneg l). destruct (decide (b = c)) as [->|Hne].
  { right. split; [lia|]. exists [], l. split; [done|]. cbn. split; [tauto|]. zlia. }
  destruct (IH (pos + 1)) as [[E Hn]|(Hb & l1 & l2 & -> & Hn & E)].
  - left. split; [done|]. naive_solver.
  - right. rewrite E. rewrite zlen_app, zlen_cons in *. zlen_pose. split; [lia|].
    exists (b :: l1), l2. split; [done|]. cbn. split; [naive_solver|]. zlia.
Qed.

(** [str_find] finds nothing, or the first match at or after [pos]. *)
Lemma str_find_cases c l pos :
  0 <= pos ->
  (str_find c l pos = npos /\ ~ In c (zdrop pos l)) \/
  (pos <= str_find c l pos < zlen l /\ ~ In c (zslice pos (str_find c l pos - pos) l) /\
   znth l (str_find c l pos) = Some c).
Proof.
  intros Hp. unfold str_find.
  destruct (find_from_spec c (zdrop pos l) pos) as [?|(Hb & l1 & l2 & E & Hn & Hf)]; [by left|].
  right. rewrite Hf in *. assert (Hlen := f_equal zlen E).
  rewrite zlen_zdrop, zlen_app, zlen_cons in Hlen. zlen_pose. split; [lia|].
  unfold zslice. rewrite E. rewrite ztake_app_le, ztake_all by lia. split.
  - done.
  - rewrite <- znth_zdrop by lia. rewrite E, znth_app_r by lia. by rewrite Z.sub_diag.
Qed.

Lemma str_find_bound c l pos :
  0 <= pos -> str_find c l pos <> npos -> pos <= str_find c l pos < zlen l.
Proof. intros Hp Hn. destruct (str_find_cases c l pos Hp) as [[? ?]|[? ?]]; tauto. Qed.

(** The first match of a byte that does not occur in the prefix. *)
Lemma find_from_app c l1 l2 pos :
  ~ In c l1 -> find_from c (l1 ++ c :: l2) pos = pos + zlen l1.
Proof.
  revert pos. induction l1 as [|b l1 IH]; intros pos Hn; cbn.
  - rewrite decide_True by done. rewrite zlen_nil. lia.
  - rewrite decide_False by (intros ->; apply Hn; by left).
    rewrite IH by (intros ?; apply Hn; by right). rewrite zlen_cons. lia.
Qed.

Lemma find_from_None c l pos : ~ In c l -> find_from c l pos = npos.
Proof.
  revert pos. induction l as [|b l IH]; intros pos Hn; cbn; [done|].
  rewrite decide_False by (intros ->; apply Hn; by left).
  apply IH. intros ?. apply Hn. by right.
Qed.

Lemma substr_ok l pos count :
  pos <= zlen l -> substr l pos count = Ok (zslice pos (Z.min count (zlen l - pos)) l).
Proof. intros. unfold substr. destruct (Z.ltb_spec (zlen l) pos); [lia|done]. Qed.

Lemma substr_tail l pos :
  0 <= pos <= zlen l -> zlen l < 2 ^ 63 -> substr l pos npos = Ok (zdrop pos l).
Proof.
  intros. rewrite substr_ok by lia. f_equal. unfold zslice.
  apply ztake_all. unfold npos. zlia.
Qed.
