(* ===== verification/HttpRequestParser.v ===== *)
(** * The incremental HTTP/1.1 request parser

    Models [src/protocol/http/http_request_parser.{h,cpp}] completely: the
    parser object with all its members, [ReadLine], [ParseRequestLine],
    [ParseHeaderLine], [FinalizeHeaders], [Complete], [Fail], [Reset] and the
    [Parse] loop over the states request line, headers, body and the four
    chunked states.  [Parse_step] is one iteration of the [for (;;)] loop: it
    either continues ([None]) or returns a result.  The theorems about the
    parser are in [HttpParserTheory]. *)

From S2P Require Import Prelude BufferSequence HttpMessage.

Record HttpParserOptions := mkParserOptions {
  maximum_request_line_bytes : Z;
  maximum_header_bytes : Z;
  maximum_header_count : Z;
  maximum_body_bytes : Z;
}.

Definition HttpParserOptions_default : HttpParserOptions :=
  mkParserOptions (8 * 1024) (32 * 1024) 64 (1024 * 1024).

Inductive HttpParseStatus := Incomplete | Complete_ | HeadersComplete | Error_.

Inductive HttpParseError :=
  | None_
  | InvalidLineEnding
  | RequestLineTooLarge
  | InvalidRequestLine
  | UnsupportedVersion
  | InvalidTarget
  | HeaderTooLarge
  | TooManyHeaders
  | InvalidHeader
  | MissingHost
  | DuplicateHost
  | InvalidContentLength
  | DuplicateContentLength
  | UnsupportedTransferEncoding
  | BodyTooLarge.

#[export] Instance HttpParseStatus_eq_dec : EqDecision HttpParseStatus.
Proof. solve_decision. Defined.
#[export] Instance HttpParseError_eq_dec : EqDecision HttpParseError.
Proof. solve_decision. Defined.

Record HttpParseResult := mkParseResult {
  status : HttpParseStatus;
  error : HttpParseError;
  consumed_bytes : Z;
  request : HttpRequest;
  expect_continue : bool;
}.

(** [HttpParseResult{}], the "need more bytes" answer. *)
Definition HttpParseResult_default : HttpParseResult :=
  mkParseResult Incomplete None_ 0 HttpRequest_default false.

(** [HttpParseResult{HttpParseStatus::Error, e, 0, {}}] *)
Definition error_result (e : HttpParseError) : HttpParseResult :=
  mkParseResult Error_ e 0 HttpRequest_default false.

Inductive State :=
  | RequestLine | Headers | Body | ChunkHead | ChunkBody | ChunkTrailer | ChunkEnd | ErrorState.

#[export] Instance State_eq_dec : EqDecision State.
Proof. solve_decision. Defined.

Inductive LineStatus := LineIncomplete | LineComplete | LineError | LineLimitExceeded.

#[export] Instance LineStatus_eq_dec : EqDecision LineStatus.
Proof. solve_decision. Defined.

Record LineResult := mkLine { line_status : LineStatus; line_value : list byte }.

Record HttpRequestParser := mkParser {
  options_ : HttpParserOptions;
  state_ : State;
  request_ : HttpRequest;
  line_start_ : Z;
  scan_offset_ : Z;
  header_bytes_ : Z;
  content_length_ : Z;
  body_offset_ : Z;
  chunk_size_ : Z;
  chunk_body_offset_ : Z;
  has_chunked_ : bool;
  expect_continue_ : bool;
  expect_continue_sent_ : bool;
  last_error_ : HttpParseError;
}.

(** ** Assignments to members *)

Definition set_state (v : State) (p : HttpRequestParser) : HttpRequestParser :=
  let '(mkParser o s r ls so hb cl bo cs cb hc ec es le) := p in
  mkParser o v r ls so hb cl bo cs cb hc ec es le.
Definition set_request (v : HttpRequest) (p : HttpRequestParser) : HttpRequestParser :=
  let '(mkParser o s r ls so hb cl bo cs cb hc ec es le) := p in
  mkParser o s v ls so hb cl bo cs cb hc ec es le.
Definition set_line_start (v : Z) (p : HttpRequestParser) : HttpRequestParser :=
  let '(mkParser o s r ls so hb cl bo cs cb hc ec es le) := p in
  mkParser o s r v so hb cl bo cs cb hc ec es le.
Definition set_scan (v : Z) (p : HttpRequestParser) : HttpRequestParser :=
  let '(mkParser o s r ls so hb cl bo cs cb hc ec es le) := p in
  mkParser o s r ls v hb cl bo cs cb hc ec es le.
Definition set_header_bytes (v : Z) (p : HttpRequestParser) : HttpRequestParser :=
  let '(mkParser o s r ls so hb cl bo cs cb hc ec es le) := p in
  mkParser o s r ls so v cl bo cs cb hc ec es le.
Definition set_content_length (v : Z) (p : HttpRequestParser) : HttpRequestParser :=
  let '(mkParser o s r ls so hb cl bo cs cb hc ec es le) := p in
  mkParser o s r ls so hb v bo cs cb hc ec es le.
Definition set_body_offset (v : Z) (p : HttpRequestParser) : HttpRequestParser :=
  let '(mkParser o s r ls so hb cl bo cs cb hc ec es le) := p in
  mkParser o s r ls so hb cl v cs cb hc ec es le.
Definition set_chunk_size (v : Z) (p : HttpRequestParser) : HttpRequestParser :=
  let '(mkParser o s r ls so hb cl bo cs cb hc ec es le) := p in
  mkParser o s r ls so hb cl bo v cb hc ec es le.
Definition set_chunk_body_offset (v : Z) (p : HttpRequestParser) : HttpRequestParser :=
  let '(mkParser o s r ls so hb cl bo cs cb hc ec es le) := p in
  mkParser o s r ls so hb cl bo cs v hc ec es le.
Definition set_has_chunked (v : bool) (p : HttpRequestParser) : HttpRequestParser :=
  let '(mkParser o s r ls so hb cl bo cs cb hc ec es le) := p in
  mkParser o s r ls so hb cl bo cs cb v ec es le.
Definition set_expect_continue (v : bool) (p : HttpRequestParser) : HttpRequestParser :=
  let '(mkParser o s r ls so hb cl bo cs cb hc ec es le) := p in
  mkParser o s r ls so hb cl bo cs cb hc v es le.
Definition set_expect_continue_sent (v : bool) (p : HttpRequestParser) : HttpRequestParser :=
  let '(mkParser o s r ls so hb cl bo cs cb hc ec es le) := p in
  mkParser o s r ls so hb cl bo cs cb hc ec v le.
Definition set_last_error (v : HttpParseError) (p : HttpRequestParser) : HttpRequestParser :=
  let '(mkParser o s r ls so hb cl bo cs cb hc ec es le) := p in
  mkParser o s r ls so hb cl bo cs cb hc ec es v.

(** ** The helpers of the anonymous namespace *)

Definition IsTokenCharacter (v : byte) : bool :=
  isalnum v ||
  existsb (fun c => bool_decide (v = c)) $"!#$%&'*+-.^_`|~".

Definition is_ows (b : byte) : bool := bool_decide (b = SP) || bool_decide (b = HTAB).

Fixpoint trim_front (v : list byte) : list byte :=
  match v with
  | b :: v' => if is_ows b then trim_front v' else v
  | [] => []
  end.

Definition trim_back (v : list byte) : list byte := reverse (trim_front (reverse v)).

Definition TrimOptionalWhitespace (v : list byte) : list byte := trim_back (trim_front v).

Fixpoint HeaderContainsToken_loop (fuel : nat) (v expected : list byte) (offset : Z)
    : result bool :=
  match fuel with
  | O => Throw NonTermination
  | S fuel =>
      if offset <=? zlen v then
        let comma := str_find Byte.x2c v offset in
        let end_ := if comma =? npos then zlen v else comma in
        piece ← substr v offset (u64 (end_ - offset));
        if decide (Lowercase (TrimOptionalWhitespace piece) = expected) then Ok true
        else if comma =? npos then Ok false
        else HeaderContainsToken_loop fuel v expected (comma + 1)
      else Ok false
  end.

Definition HeaderContainsToken (v expected : list byte) : result bool :=
  HeaderContainsToken_loop (S (S (length v))) v expected 0.

(** [None] is the [return false] of the parsers of numbers. *)
Fixpoint ParseDecimal_loop (v : list byte) (parsed : Z) : option Z :=
  match v with
  | [] => Some parsed
  | c :: v =>
      if is_digit c then
        let digit := b2z c - 48 in
        if (size_max - digit) / 10 <? parsed then None
        else ParseDecimal_loop v (u64 (parsed * 10 + digit))
      else None
  end.

Definition ParseDecimalSize (v : list byte) : option Z :=
  if zlen v =? 0 then None else ParseDecimal_loop v 0.

Definition hex_digit (b : byte) : option Z :=
  let c := b2z b in
  if (48 <=? c) && (c <=? 57) then Some (c - 48)
  else if (97 <=? c) && (c <=? 102) then Some (c - 97 + 10)
  else if (65 <=? c) && (c <=? 70) then Some (c - 65 + 10)
  else None.

Fixpoint ParseHex_loop (v : list byte) (parsed : Z) : option Z :=
  match v with
  | [] => Some parsed
  | c :: v =>
      if size_max / 16 <? parsed then None
      else
        match hex_digit c with
        | Some d => ParseHex_loop v (u64 (parsed * 16 + d))
        | None => None
        end
  end.

Definition ParseHexSize (v : list byte) : option Z :=
  if zlen v =? 0 then None else ParseHex_loop v 0.

Definition SkipChunkExtension (v : list byte) : result (list byte) :=
  let semi := str_find Byte.x3b v 0 in
  if semi =? npos then Ok v else substr v 0 semi.

(** ** The parser's methods *)

Definition HttpRequestParser_make (o : HttpParserOptions) : result HttpRequestParser :=
  if (maximum_request_line_bytes o =? 0) || (maximum_header_bytes o <? 2) ||
     (maximum_header_count o =? 0)
  then Throw invalid_argument
  else Ok (mkParser o RequestLine HttpRequest_default 0 0 0 0 0 0 0 false false false None_).

Definition Reset (p : HttpRequestParser) : HttpRequestParser :=
  mkParser (options_ p) RequestLine HttpRequest_default 0 0 0 0 0 0 0 false false false None_.

Definition LastError (p : HttpRequestParser) : HttpParseError := last_error_ p.

(** The state after [Fail]; the returned result is [error_result e]. *)
Definition Fail_ (e : HttpParseError) (p : HttpRequestParser) : HttpRequestParser :=
  set_last_error e (set_state ErrorState p).

Fixpoint ReadLine_loop (fuel : nat) (input : BufferSequence) (maximum_bytes : Z)
    (p : HttpRequestParser) (index : Z) : result (LineResult * HttpRequestParser) :=
  match fuel with
  | O => Throw NonTermination
  | S fuel =>
      if index <? seq_size input then
        character ← At input index;
        if decide (character = LF) then Ok (mkLine LineError [], p)
        else if decide (character = CR) then
          if seq_size input <=? index + 1
          then Ok (mkLine LineIncomplete [], set_scan index p)
          else
            next ← At input (index + 1);
            if decide (next = LF) then
              let line_bytes := u64 (index - line_start_ p) in
              if maximum_bytes <? line_bytes then Ok (mkLine LineLimitExceeded [], p)
              else
                line ← (if line_bytes =? 0 then Ok []
                        else CopyTo input (line_start_ p) line_bytes);
                Ok (mkLine LineComplete line,
                    set_line_start (index + 2) (set_scan (index + 2) p))
            else Ok (mkLine LineError [], p)
        else if maximum_bytes <? u64 (index - line_start_ p) + 1
        then Ok (mkLine LineLimitExceeded [], p)
        else ReadLine_loop fuel input maximum_bytes p (index + 1)
      else Ok (mkLine LineIncomplete [], set_scan (seq_size input) p)
  end.

Definition ReadLine (input : BufferSequence) (maximum_bytes : Z) (p : HttpRequestParser)
    : result (LineResult * HttpRequestParser) :=
  ReadLine_loop (S (Z.to_nat (seq_size input - scan_offset_ p))) input maximum_bytes p
    (scan_offset_ p).

(** The boolean results of [ParseRequestLine], [ParseHeaderLine] and
    [FinalizeHeaders] come with the parser after the call. *)
Definition ParseRequestLine (line : list byte) (p : HttpRequestParser)
    : result (bool * HttpRequestParser) :=
  let first_space := str_find SP line 0 in
  let second_space := if first_space =? npos then npos else str_find SP line (first_space + 1) in
  if (first_space =? npos) || (second_space =? npos) || (first_space =? 0) ||
     (second_space =? first_space + 1) || (zlen line <=? second_space + 1) ||
     negb (str_find SP line (second_space + 1) =? npos)
  then Ok (false, Fail_ InvalidRequestLine p)
  else
    let method := zslice 0 first_space line in
    if negb (forallb IsTokenCharacter method) then Ok (false, Fail_ InvalidRequestLine p)
    else
      let target := zslice (first_space + 1) (second_space - first_space - 1) line in
      let version := zslice (second_space + 1) (zlen line - second_space - 1) line in
      if negb (bool_decide (version = $"HTTP/1.1")) then Ok (false, Fail_ UnsupportedVersion p)
      else if (zlen target =? 0) || negb (bool_decide (front target = Some Byte.x2f)) ||
              negb (str_find Byte.x23 target 0 =? npos)
      then Ok (false, Fail_ InvalidTarget p)
      else
        let q := str_find Byte.x3f target 0 in
        path ← substr target 0 q;
        let r := request_ p in
        let r := mkRequest (ParseMethod method) method target path (query r) (headers r)
                   (body r) (keep_alive r) (request_id r) (connection_id r) in
        if zlen path =? 0 then Ok (false, Fail_ InvalidTarget (set_request r p))
        else if negb (q =? npos) then
          query ← substr target (q + 1) npos;
          let r := mkRequest (ParseMethod method) method target path query (headers r)
                     (body r) (keep_alive r) (request_id r) (connection_id r) in
          Ok (true, set_request r p)
        else Ok (true, set_request r p).

(** A control character that a header value may not contain. *)
Definition forbidden_value_byte (b : byte) : bool :=
  ((b2z b <? 32) && negb (bool_decide (b = HTAB))) || (b2z b =? 127).

Definition push_header (h : HttpHeader) (r : HttpRequest) : HttpRequest :=
  mkRequest (method r) (method_text r) (target r) (path r) (query r) (headers r ++ [h])
    (body r) (keep_alive r) (request_id r) (connection_id r).

Definition ParseHeaderLine (line : list byte) (p : HttpRequestParser)
    : result (bool * HttpRequestParser) :=
  let colon := str_find Byte.x3a line 0 in
  if (colon =? npos) || (colon =? 0) then Ok (false, Fail_ InvalidHeader p)
  else
    let name := zslice 0 colon line in
    if negb (forallb IsTokenCharacter name) then Ok (false, Fail_ InvalidHeader p)
    else
      rest ← substr line (colon + 1) npos;
      let value := TrimOptionalWhitespace rest in
      if existsb forbidden_value_byte value then Ok (false, Fail_ InvalidHeader p)
      else Ok (true, set_request (push_header (mkHeader (Lowercase name) value) (request_ p)) p).

(** The loop of [FinalizeHeaders] with its three local variables; [inl] is an
    early [return false]. *)
Fixpoint FinalizeHeaders_loop (hs : list HttpHeader) (p : HttpRequestParser)
    (host_count content_length_count : Z) (connection_close : bool)
    : result (HttpRequestParser + HttpRequestParser * Z * Z * bool) :=
  match hs with
  | [] => Ok (inr (p, host_count, content_length_count, connection_close))
  | h :: hs =>
      if decide (name h = $"host") then
        if zlen (value h) =? 0 then Ok (inl (Fail_ MissingHost p))
        else FinalizeHeaders_loop hs p (host_count + 1) content_length_count connection_close
      else if decide (name h = $"content-length") then
        match ParseDecimalSize (TrimOptionalWhitespace (value h)) with
        | None => Ok (inl (Fail_ InvalidContentLength p))
        | Some n =>
            FinalizeHeaders_loop hs (set_content_length n p) host_count
              (content_length_count + 1) connection_close
        end
      else if decide (name h = $"transfer-encoding") then
        if 0 <? content_length_count then Ok (inl (Fail_ InvalidContentLength p))
        else
          chunked ← HeaderContainsToken (TrimOptionalWhitespace (value h)) $"chunked";
          if negb chunked then Ok (inl (Fail_ UnsupportedTransferEncoding p))
          else FinalizeHeaders_loop hs (set_has_chunked true p) host_count
                 content_length_count connection_close
      else if decide (name h = $"connection") then
        close ← (if connection_close then Ok true else HeaderContainsToken (value h) $"close");
        FinalizeHeaders_loop hs p host_count content_length_count close
      else if decide (name h = $"expect") then
        expect ← HeaderContainsToken (value h) $"100-continue";
        FinalizeHeaders_loop hs (set_expect_continue expect p) host_count
          content_length_count connection_close
      else FinalizeHeaders_loop hs p host_count content_length_count connection_close
  end.

Definition set_keep_alive (v : bool) (r : HttpRequest) : HttpRequest :=
  mkRequest (method r) (method_text r) (target r) (path r) (query r) (headers r)
    (body r) v (request_id r) (connection_id r).

Definition set_body (v : list byte) (r : HttpRequest) : HttpRequest :=
  mkRequest (method r) (method_text r) (target r) (path r) (query r) (headers r)
    v (keep_alive r) (request_id r) (connection_id r).

Definition FinalizeHeaders (p : HttpRequestParser) : result (bool * HttpRequestParser) :=
  r ← FinalizeHeaders_loop (headers (request_ p)) p 0 0 false;
  match r with
  | inl p => Ok (false, p)
  | inr (p, host_count, content_length_count, connection_close) =>
      if host_count =? 0 then Ok (false, Fail_ MissingHost p)
      else if 1 <? host_count then Ok (false, Fail_ DuplicateHost p)
      else if 1 <? content_length_count then Ok (false, Fail_ DuplicateContentLength p)
      else if maximum_body_bytes (options_ p) <? content_length_ p
      then Ok (false, Fail_ BodyTooLarge p)
      else Ok (true, set_request (set_keep_alive (negb connection_close) (request_ p)) p)
  end.

Definition Complete (input : BufferSequence) (p : HttpRequestParser)
    : result (HttpParseResult * HttpRequestParser) :=
  p ← (if negb (content_length_ p =? 0) && negb (has_chunked_ p)
       then
         b ← CopyTo input (body_offset_ p) (content_length_ p);
         Ok (set_request (set_body b (request_ p)) p)
       else Ok p);
  let consumed :=
    if has_chunked_ p then scan_offset_ p else u64 (body_offset_ p + content_length_ p) in
  Ok (mkParseResult Complete_ None_ consumed (request_ p) false, Reset p).

(** *** One iteration of the parse loop, per state *)

(** [step] is what an iteration does: [Go p] continues the loop, [Ret r p]
    returns [r]. *)
Inductive step := Go (p : HttpRequestParser) | Ret (r : HttpParseResult) (p : HttpRequestParser).

(** [return Fail(e);] *)
Definition ret_fail (e : HttpParseError) (p : HttpRequestParser) : step :=
  Ret (error_result e) (Fail_ e p).

(** [return {};] *)
Definition ret_incomplete (p : HttpRequestParser) : step := Ret HttpParseResult_default p.

Definition step_RequestLine (input : BufferSequence) (p : HttpRequestParser) : result step :=
  '(line, p) ← ReadLine input (maximum_request_line_bytes (options_ p)) p;
  match line_status line with
  | LineIncomplete => Ok (ret_incomplete p)
  | LineLimitExceeded => Ok (ret_fail RequestLineTooLarge p)
  | LineError => Ok (ret_fail InvalidLineEnding p)
  | LineComplete =>
      '(ok, p) ← ParseRequestLine (line_value line) p;
      if negb ok then Ok (Ret (error_result (last_error_ p)) p)
      else Ok (Go (set_state Headers p))
  end.

(** The block executed on the empty line that ends the headers. *)
Definition headers_done (input : BufferSequence) (p : HttpRequestParser) : result step :=
  '(ok, p) ← FinalizeHeaders p;
  if negb ok then Ok (Ret (error_result (last_error_ p)) p)
  else
    let p := set_body_offset (scan_offset_ p) p in
    if expect_continue_ p && negb (expect_continue_sent_ p) then
      let p := set_expect_continue_sent true p in
      if negb (has_chunked_ p) && (content_length_ p =? 0) then
        '(r, p) ← Complete input p; Ok (Ret r p)
      else
        let p := set_state (if has_chunked_ p then ChunkHead else Body) p in
        Ok (Ret (mkParseResult HeadersComplete None_ (scan_offset_ p) HttpRequest_default true) p)
    else if has_chunked_ p then Ok (Go (set_state ChunkHead p))
    else if content_length_ p =? 0 then
      '(r, p) ← Complete input p; Ok (Ret r p)
    else Ok (Go (set_state Body p)).

(** What the headers state does with the line it read. *)
Definition headers_line (input : BufferSequence) (line : LineResult) (p : HttpRequestParser)
    : result step :=
  match line_status line with
  | LineIncomplete => Ok (ret_incomplete p)
  | LineLimitExceeded => Ok (ret_fail HeaderTooLarge p)
  | LineError => Ok (ret_fail InvalidLineEnding p)
  | LineComplete =>
      let wire_line_bytes := zlen (line_value line) + 2 in
      if u64 (maximum_header_bytes (options_ p) - header_bytes_ p) <? wire_line_bytes
      then Ok (ret_fail HeaderTooLarge p)
      else
        let p := set_header_bytes (u64 (header_bytes_ p + wire_line_bytes)) p in
        if zlen (line_value line) =? 0 then headers_done input p
        else if maximum_header_count (options_ p) <=? zlen (headers (request_ p))
        then Ok (ret_fail TooManyHeaders p)
        else
          '(ok, p) ← ParseHeaderLine (line_value line) p;
          if negb ok then Ok (Ret (error_result (last_error_ p)) p) else Ok (Go p)
  end.

Definition remaining_header_bytes (p : HttpRequestParser) : Z :=
  let limit := maximum_header_bytes (options_ p) in
  if limit <=? header_bytes_ p then 0 else limit - header_bytes_ p.

Definition step_Headers (input : BufferSequence) (p : HttpRequestParser) : result step :=
  '(line, p) ← ReadLine input (remaining_header_bytes p) p;
  headers_line input line p.

Definition step_Body (input : BufferSequence) (p : HttpRequestParser) : result step :=
  if size_max - content_length_ p <? body_offset_ p then Ok (ret_fail BodyTooLarge p)
  else if seq_size input <? body_offset_ p + content_length_ p then Ok (ret_incomplete p)
  else '(r, p) ← Complete input p; Ok (Ret r p).

Definition step_ChunkHead (input : BufferSequence) (p : HttpRequestParser) : result step :=
  '(line, p) ← ReadLine input 256 p;
  match line_status line with
  | LineIncomplete => Ok (ret_incomplete p)
  | LineError => Ok (ret_fail InvalidLineEnding p)
  | _ =>
      hex_part ← SkipChunkExtension (line_value line);
      match ParseHexSize hex_part with
      | None => Ok (ret_fail InvalidContentLength p)
      | Some n =>
          let p := set_chunk_body_offset (scan_offset_ p) (set_chunk_size n p) in
          if chunk_size_ p =? 0 then Ok (Go (set_state ChunkTrailer p))
          else Ok (Go (set_state ChunkBody p))
      end
  end.

Definition step_ChunkBody (input : BufferSequence) (p : HttpRequestParser) : result step :=
  let chunk_end := u64 (chunk_body_offset_ p + chunk_size_ p + 2) in
  if seq_size input <? chunk_end then Ok (ret_incomplete p)
  else if maximum_body_bytes (options_ p) <? u64 (zlen (body (request_ p)) + chunk_size_ p)
  then Ok (ret_fail BodyTooLarge p)
  else
    (* [resize], then [CopyTo] over the new tail *)
    chunk ← CopyTo input (chunk_body_offset_ p) (chunk_size_ p);
    let p := set_request (set_body (body (request_ p) ++ chunk) (request_ p)) p in
    Ok (Go (set_state ChunkHead (set_line_start chunk_end (set_scan chunk_end p)))).

Definition step_ChunkTrailer (input : BufferSequence) (p : HttpRequestParser) : result step :=
  '(line, p) ← ReadLine input (maximum_header_bytes (options_ p)) p;
  match line_status line with
  | LineIncomplete => Ok (ret_incomplete p)
  | LineError => Ok (ret_fail InvalidLineEnding p)
  | _ =>
      if zlen (line_value line) =? 0 then Ok (Go (set_state ChunkEnd p)) else Ok (Go p)
  end.

Definition Parse_step (input : BufferSequence) (p : HttpRequestParser) : result step :=
  match state_ p with
  | RequestLine => step_RequestLine input p
  | Headers => step_Headers input p
  | Body => step_Body input p
  | ChunkHead => step_ChunkHead input p
  | ChunkBody => step_ChunkBody input p
  | ChunkTrailer => step_ChunkTrailer input p
  | ChunkEnd => '(r, p) ← Complete input p; Ok (Ret r p)
  | ErrorState => Ok (Go p)
  end.

Fixpoint Parse_loop (fuel : nat) (input : BufferSequence) (p : HttpRequestParser)
    : result (HttpParseResult * HttpRequestParser) :=
  match fuel with
  | O => Throw NonTermination
  | S fuel =>
      st ← Parse_step input p;
      match st with
      | Ret r p => Ok (r, p)
      | Go p => Parse_loop fuel input p
      end
  end.

(** Every iteration that continues reads at least two bytes, except the one
    that leaves the trailers of a chunked body and the one that enters the
    body; [HttpParserTheory] proves that this fuel is never exhausted. *)
Definition parse_fuel (input : BufferSequence) (p : HttpRequestParser) : nat :=
  (Z.to_nat (seq_size input) + 4)%nat.

Definition Parse (input : BufferSequence) (p : HttpRequestParser)
    : result (HttpParseResult * HttpRequestParser) :=
  if decide (state_ p = ErrorState) then Ok (error_result (last_error_ p), p)
  else if (seq_size input <? scan_offset_ p) || (seq_size input <? line_start_ p)
  then Ok (error_result InvalidRequestLine, Fail_ InvalidRequestLine p)
  else Parse_loop (parse_fuel input p) input p.
