(* ===== verification/HttpParserTheory.v ===== *)
(** * Theory of the HTTP/1.1 request parser

    The line scanner of the parser is shown equal to [scan], a structural
    recursion over the bytes ([ReadLine_scan]).  From it follow: the parser
    terminates and never reads outside its input, a determined answer does not
    change when more bytes arrive, resuming after "incomplete" gives the
    answer of parsing the whole input at once, and the configured limits bound
    every request that is accepted. *)

From S2P Require Import Prelude BufferSequence HttpMessage HttpRequestParser.

(** ** The reference line scanner *)

Inductive scan_result := SIncomplete (i : Z) | SError | SLimit | SLine (i : Z).

(** [scan max ls l i]: [l] are the bytes from offset [i] on, [ls] is the offset
    of the first byte of the line. *)
Fixpoint scan (max ls : Z) (l : list byte) (i : Z) : scan_result :=
  match l with
  | [] => SIncomplete i
  | c :: l' =>
      if decide (c = LF) then SError
      else if decide (c = CR) then
        match l' with
        | [] => SIncomplete i
        | d :: _ =>
            if decide (d = LF) then if max <? i - ls then SLimit else SLine i
            else SError
        end
      else if max <? i - ls + 1 then SLimit
      else scan max ls l' (i + 1)
  end.

(** What [ReadLine] returns for a scan result. *)
Definition scan_outcome (l : list byte) (p : HttpRequestParser) (r : scan_result)
    : LineResult * HttpRequestParser :=
  match r with
  | SIncomplete i => (mkLine LineIncomplete [], set_scan i p)
  | SError => (mkLine LineError [], p)
  | SLimit => (mkLine LineLimitExceeded [], p)
  | SLine i => (mkLine LineComplete (zslice (line_start_ p) (i - line_start_ p) l),
                set_line_start (i + 2) (set_scan (i + 2) p))
  end.

Lemma zdrop_cons {A} (l : list A) i a :
  0 <= i -> znth l i = Some a -> zdrop i l = a :: zdrop (i + 1) l.
Proof.
  unfold znth, zdrop. intros. destruct (Z.ltb_spec i 0); [lia|].
  rewrite (drop_S l a (Z.to_nat i)) by done. do 2 f_equal. lia.
Qed.

Lemma ReadLine_loop_scan fuel s max p i :
  seq_ok s -> 0 <= line_start_ p <= i -> i <= zlen (seq_bytes s) ->
  (Z.to_nat (zlen (seq_bytes s) - i) < fuel)%nat ->
  ReadLine_loop fuel s max p i =
    Ok (scan_outcome (seq_bytes s) p (scan max (line_start_ p) (zdrop i (seq_bytes s)) i)).
Proof.
  intros Hs. pose proof (seq_size_spec _ Hs) as Hsz. pose proof (seq_ok_bound _ Hs) as Hbd.
  revert i. induction fuel as [|fuel IH]; intros i Hls Hi Hf; [lia|].
  cbn [ReadLine_loop]. rewrite Hsz in *.
  destruct (Z.ltb_spec i (zlen (seq_bytes s))) as [Hlt|Hge].
  2:{ rewrite zdrop_all by lia. cbn. do 3 f_equal. lia. }
  destruct (znth_is_Some (seq_bytes s) i) as [c Hc]; [lia|].
  rewrite (At_spec s i), Hc by (done || lia). rewrite (zdrop_cons _ _ c) by (done || lia).
  cbn [mbind result_bind scan]. usimpl.
  destruct (decide (c = LF)); [done|]. destruct (decide (c = CR)).
  - destruct (Z.leb_spec (zlen (seq_bytes s)) (i + 1)).
    { rewrite zdrop_all by lia. done. }
    destruct (znth_is_Some (seq_bytes s) (i + 1)) as [d Hd]; [lia|].
    rewrite (At_spec s (i + 1)), Hd by (done || lia). rewrite (zdrop_cons _ _ d) by (done || lia).
    cbn [mbind result_bind]. destruct (decide (d = LF)); [|done].
    destruct (Z.ltb_spec max (i - line_start_ p)); [done|].
    destruct (Z.eqb_spec (i - line_start_ p) 0) as [E|E].
    { cbn. rewrite zslice_nil by lia. done. }
    rewrite CopyTo_spec by (done || lia). rewrite (proj2 (Z.leb_le _ _)) by lia. done.
  - destruct (Z.ltb_spec max (i - line_start_ p + 1)); [done|].
    apply IH; lia.
Qed.

(** [ReadLine] is [scan] on the bytes from the scan offset. *)
Lemma ReadLine_scan s max p :
  seq_ok s -> 0 <= line_start_ p <= scan_offset_ p -> scan_offset_ p <= zlen (seq_bytes s) ->
  ReadLine s max p =
    Ok (scan_outcome (seq_bytes s) p
          (scan max (line_start_ p) (zdrop (scan_offset_ p) (seq_bytes s)) (scan_offset_ p))).
Proof.
  intros Hs Hls Hi. apply ReadLine_loop_scan; try done.
  rewrite (seq_size_spec _ Hs). lia.
Qed.

(** A decided scan does not look at later bytes. *)
Lemma scan_app max ls l k i :
  (forall j, scan max ls l i <> SIncomplete j) ->
  scan max ls (l ++ k) i = scan max ls l i.
Proof.
  revert i. induction l as [|c l IH]; intros i H; cbn in *; [by destruct (H i)|].
  destruct (decide (c = LF)); [done|]. destruct (decide (c = CR)).
  - destruct l; [by destruct (H i)|done].
  - destruct (max <? i - ls + 1); [done|]. by apply IH.
Qed.

(** An undecided scan can be resumed where it stopped. *)
Lemma scan_resume max ls l k i j :
  scan max ls l i = SIncomplete j ->
  i <= j <= i + zlen l /\ scan max ls (l ++ k) i = scan max ls (zdrop (j - i) (l ++ k)) j.
Proof.
  revert i. induction l as [|c l IH]; intros i H; cbn in H.
  { injection H as <-. split; [zlia|]. by rewrite zdrop_0 by lia. }
  rewrite zlen_cons. pose proof (zlen_nonneg l).
  cbn [app scan]. destruct (decide (c = LF)) eqn:Elf; [done|].
  destruct (decide (c = CR)) eqn:Ecr.
  - destruct l as [|d l].
    + injection H as <-. rewrite Z.sub_diag, zdrop_0 by lia. cbn.
      rewrite Elf, Ecr. split; [lia|done].
    + repeat case_match; done.
  - destruct (Z.ltb_spec max (i - ls + 1)); [done|].
    destruct (IH _ H) as [Hj ->]. split; [lia|].
    replace (j - i) with (1 + (j - (i + 1))) by lia.
    rewrite <- zdrop_zdrop by lia. done.
Qed.

Lemma scan_line_bounds max ls l i j :
  scan max ls l i = SLine j -> i <= j /\ j + 2 <= i + zlen l /\ j - ls <= max.
Proof.
  revert i. induction l as [|c l IH]; intros i H; cbn in H; [done|].
  rewrite zlen_cons. destruct (decide (c = LF)); [done|]. destruct (decide (c = CR)).
  - destruct l as [|d l]; [done|]. destruct (decide (d = LF)); [|done].
    destruct (Z.ltb_spec max (i - ls)); [done|]. injection H as <-. zlia.
  - destruct (max <? i - ls + 1); [done|]. apply IH in H. lia.
Qed.

Lemma scan_limit_bounds max ls l i :
  scan max ls l i = SLimit -> max < i - ls + zlen l.
Proof.
  revert i. induction l as [|c l IH]; intros i H; cbn in H; [done|].
  rewrite zlen_cons. pose proof (zlen_nonneg l). destruct (decide (c = LF)); [done|].
  destruct (decide (c = CR)).
  - destruct l as [|d l]; [done|]. destruct (decide (d = LF)); [|done].
    destruct (Z.ltb_spec max (i - ls)); [|done]. lia.
  - destruct (Z.ltb_spec max (i - ls + 1)); [lia|]. apply IH in H. lia.
Qed.

Lemma scan_incomplete_bounds max ls l i j :
  scan max ls l i = SIncomplete j -> i <= j <= i + zlen l.
Proof. intros H. by apply (scan_resume _ _ _ [] _ _ H). Qed.

(** ** The helpers are total *)

Lemma zlen_trim_front v : zlen (trim_front v) <= zlen v.
Proof.
  induction v as [|b v IH]; cbn; [done|]. destruct (is_ows b); rewrite ?zlen_cons; lia.
Qed.

Lemma zlen_reverse {A} (v : list A) : zlen (reverse v) = zlen v.
Proof. unfold zlen. by rewrite length_reverse. Qed.

Lemma zlen_Trim v : zlen (TrimOptionalWhitespace v) <= zlen v.
Proof.
  unfold TrimOptionalWhitespace, trim_back. rewrite zlen_reverse.
  etrans; [apply zlen_trim_front|]. rewrite zlen_reverse. apply zlen_trim_front.
Qed.

Lemma HeaderContainsToken_loop_ok fuel v e off :
  zlen v < 2 ^ 63 -> 0 <= off -> (Z.to_nat (zlen v + 1 - off) < fuel)%nat ->
  exists b, HeaderContainsToken_loop fuel v e off = Ok b.
Proof.
  intros Hv. revert off. induction fuel as [|fuel IH]; intros off Ho Hf; [lia|].
  cbn [HeaderContainsToken_loop]. destruct (Z.leb_spec off (zlen v)); [|by eexists].
  rewrite substr_ok by lia. cbn [mbind result_bind].
  case_decide; [by eexists|].
  destruct (Z.eqb_spec (str_find Byte.x2c v off) npos) as [E|E]; [by eexists|].
  apply str_find_bound in E; [|lia]. apply IH; lia.
Qed.

Lemma HeaderContainsToken_ok v e :
  zlen v < 2 ^ 63 -> exists b, HeaderContainsToken v e = Ok b.
Proof.
  intros. apply HeaderContainsToken_loop_ok; [done|lia|]. unfold zlen. lia.
Qed.

Lemma SkipChunkExtension_ok v : exists w, SkipChunkExtension v = Ok w /\ zlen w <= zlen v.
Proof.
  unfold SkipChunkExtension. destruct (Z.eqb_spec (str_find Byte.x3b v 0) npos).
  - by exists v.
  - rewrite substr_ok by zlia. eexists. split; [done|]. zlia.
Qed.

(** ** Frames: what the line parsers change

    A line parser either updates the request, to one that satisfies [P], or
    fails, possibly after an update that leaves headers and body alone. *)

Inductive line_parsed (P : HttpRequest -> Prop) (p : HttpRequestParser)
    : result (bool * HttpRequestParser) -> Prop :=
  | lp_true r : P r -> line_parsed P p (Ok (true, set_request r p))
  | lp_false e : line_parsed P p (Ok (false, Fail_ e p))
  | lp_false_upd e r : line_parsed P p (Ok (false, Fail_ e (set_request r p))).

Lemma ParseRequestLine_frame line p :
  zlen line < 2 ^ 63 ->
  line_parsed (fun r => headers r = headers (request_ p) /\ body r = body (request_ p))
    p (ParseRequestLine line p).
Proof.
  intros Hl. unfold ParseRequestLine.
  set (f := str_find SP line 0). set (g := if f =? npos then npos else _).
  case_match eqn:E1; [constructor|]. case_match eqn:E2; [constructor|].
  case_match eqn:E3; [constructor|]. case_match eqn:E4; [constructor|].
  set (t := zslice (f + 1) _ line). rewrite (substr_ok t 0) by zlia. cbn [mbind result_bind].
  case_match; [constructor|].
  destruct (Z.eqb_spec (str_find Byte.x3f t 0) npos) as [E|E]; cbn [negb]; [by constructor|].
  apply str_find_bound in E; [|lia]. rewrite substr_ok by lia. by constructor.
Qed.

Lemma ParseHeaderLine_frame line p :
  zlen line < 2 ^ 63 ->
  line_parsed (fun r => exists h, headers r = headers (request_ p) ++ [h] /\
      zlen (value h) < 2 ^ 63 /\ body r = body (request_ p))
    p (ParseHeaderLine line p).
Proof.
  intros Hl. unfold ParseHeaderLine.
  destruct (Z.eqb_spec (str_find Byte.x3a line 0) npos) as [E|E]; cbn [orb]; [constructor|].
  case_match; [constructor|]. case_match; [constructor|].
  apply str_find_bound in E; [|lia]. rewrite substr_tail by lia. cbn [mbind result_bind].
  case_match; [constructor|]. constructor. eexists. split; [done|]. split; [|done].
  cbn. set (d := zdrop _ line). pose proof (zlen_Trim d).
  assert (zlen d <= zlen line) by (unfold d; zlia). lia.
Qed.

(** [FinalizeHeaders] fails, or sets the framing members. *)
Inductive finalized (p : HttpRequestParser) : result (bool * HttpRequestParser) -> Prop :=
  | fin_true cl hc ec ka :
      0 <= cl <= maximum_body_bytes (options_ p) ->
      finalized p (Ok (true, set_request (set_keep_alive ka (request_ p))
        (set_expect_continue ec (set_has_chunked hc (set_content_length cl p)))))
  | fin_false e q : options_ q = options_ p -> finalized p (Ok (false, Fail_ e q)).

Lemma ParseDecimal_loop_range v n m :
  0 <= n < 2 ^ 64 -> ParseDecimal_loop v n = Some m -> 0 <= m < 2 ^ 64.
Proof.
  revert n. induction v as [|c v IH]; intros n Hn H; cbn in H; [by simplify_eq|].
  destruct (is_digit c); [|done]. case_match; [done|].
  eapply IH, H. apply u64_range.
Qed.

Lemma ParseHex_loop_range v n m :
  0 <= n < 2 ^ 64 -> ParseHex_loop v n = Some m -> 0 <= m < 2 ^ 64.
Proof.
  revert n. induction v as [|c v IH]; intros n Hn H; cbn in H; [by simplify_eq|].
  case_match; [done|]. destruct (hex_digit c); [|done].
  eapply IH, H. apply u64_range.
Qed.

Lemma ParseDecimalSize_range v m : ParseDecimalSize v = Some m -> 0 <= m < 2 ^ 64.
Proof.
  unfold ParseDecimalSize. case_match; [done|]. by apply ParseDecimal_loop_range.
Qed.

Lemma ParseHexSize_range v m : ParseHexSize v = Some m -> 0 <= m < 2 ^ 64.
Proof.
  unfold ParseHexSize. case_match; [done|]. by apply ParseHex_loop_range.
Qed.

Lemma FinalizeHeaders_loop_frame p hs : forall cl hc ec h c k,
  Forall (fun h => zlen (value h) < 2 ^ 63) hs -> 0 <= cl < 2 ^ 64 ->
  let q := set_expect_continue ec (set_has_chunked hc (set_content_length cl p)) in
  (exists e q', options_ q' = options_ p /\
    FinalizeHeaders_loop hs q h c k = Ok (inl (Fail_ e q'))) \/
  (exists cl' hc' ec' h' c' k', 0 <= cl' < 2 ^ 64 /\
    FinalizeHeaders_loop hs q h c k =
      Ok (inr (set_expect_continue ec' (set_has_chunked hc' (set_content_length cl' p)),
               h', c', k'))).
Proof.
  induction hs as [|hd hs IH]; intros cl hc ec h c k Hv Hcl q.
  { right. by exists cl, hc, ec, h, c, k. }
  apply Forall_cons in Hv as [Hhd Hv]. cbn [FinalizeHeaders_loop].
  assert (Ho : options_ q = options_ p) by (by destruct p).
  assert (Hq : forall cl0, set_content_length cl0 q =
    set_expect_continue ec (set_has_chunked hc (set_content_length cl0 p))) by (by destruct p).
  assert (Hq1 : set_has_chunked true q =
    set_expect_continue ec (set_has_chunked true (set_content_length cl p))) by (by destruct p).
  assert (Hq2 : forall e0, set_expect_continue e0 q =
    set_expect_continue e0 (set_has_chunked hc (set_content_length cl p))) by (by destruct p).
  case_decide. { case_match; [eauto|]. by apply IH. }
  case_decide.
  { destruct (ParseDecimalSize _) as [n|] eqn:En; [|eauto].
    rewrite Hq. apply IH; [done|]. by apply ParseDecimalSize_range in En. }
  case_decide.
  { case_match; [eauto|]. pose proof (zlen_Trim (value hd)).
    destruct (HeaderContainsToken_ok (TrimOptionalWhitespace (value hd)) $"chunked")
      as [b ->]; [lia|]. cbn [mbind result_bind]. case_match; [eauto|].
    rewrite Hq1. by apply IH. }
  case_decide.
  { destruct k; cbn [mbind result_bind]; [by apply IH|].
    destruct (HeaderContainsToken_ok (value hd) $"close") as [b ->]; [lia|].
    cbn [mbind result_bind]. by apply IH. }
  case_decide; [|by apply IH].
  destruct (HeaderContainsToken_ok (value hd) $"100-continue") as [b ->]; [lia|].
  cbn [mbind result_bind]. rewrite Hq2. by apply IH.
Qed.

Lemma FinalizeHeaders_frame p :
  Forall (fun h => zlen (value h) < 2 ^ 63) (headers (request_ p)) ->
  0 <= content_length_ p < 2 ^ 64 ->
  finalized p (FinalizeHeaders p).
Proof.
  intros Hv Hcl. unfold FinalizeHeaders.
  replace p with (set_expect_continue (expect_continue_ p) (set_has_chunked (has_chunked_ p)
    (set_content_length (content_length_ p) p))) at 3 by (by destruct p).
  destruct (FinalizeHeaders_loop_frame p (headers (request_ p)) (content_length_ p)
    (has_chunked_ p) (expect_continue_ p) 0 0 false Hv Hcl) as
    [(e & q & Ho & ->)|(cl & hc & ec & h & c & k & Hr & ->)]; cbn [mbind result_bind].
  { by constructor. }
  do 3 (case_match; [constructor; by destruct p|]).
  replace (options_ _) with (options_ p) by (by destruct p).
  replace (content_length_ _) with cl by (by destruct p).
  destruct (Z.ltb_spec (maximum_body_bytes (options_ p)) cl); [constructor; by destruct p|].
  replace (request_ (set_expect_continue _ _)) with (request_ p) by (by destruct p).
  constructor. lia.
Qed.

(** ** The invariant of a parser that has not failed

    [n] is the number of bytes available to it. *)

Record pinv (n : Z) (p : HttpRequestParser) : Prop := {
  pi_state : state_ p <> ErrorState;
  pi_mh : 2 <= maximum_header_bytes (options_ p) < 2 ^ 64;
  pi_mb : 0 <= maximum_body_bytes (options_ p) < 2 ^ 64;
  pi_ls : 0 <= line_start_ p <= scan_offset_ p;
  pi_scan : scan_offset_ p <= n;
  pi_pos : state_ p <> RequestLine -> 0 < scan_offset_ p;
  pi_hb : 0 <= header_bytes_ p <= maximum_header_bytes (options_ p);
  pi_cl : 0 <= content_length_ p <= maximum_body_bytes (options_ p);
  pi_hdrs : Forall (fun h => zlen (value h) < 2 ^ 63) (headers (request_ p));
  pi_hcount : zlen (headers (request_ p)) <= Z.max 0 (maximum_header_count (options_ p));
  pi_body : zlen (body (request_ p)) <= maximum_body_bytes (options_ p);
  pi_bscan : zlen (body (request_ p)) <= scan_offset_ p;
  pi_Body : state_ p = Body -> has_chunked_ p = false /\ body_offset_ p = scan_offset_ p;
  pi_chunked : In (state_ p) [ChunkHead; ChunkBody; ChunkTrailer; ChunkEnd] ->
    has_chunked_ p = true;
  pi_cb : state_ p = ChunkBody ->
    chunk_body_offset_ p = scan_offset_ p /\ 0 < chunk_size_ p < 2 ^ 64;
}.

(** Decreases at every iteration that continues. *)
Definition pmeasure (n : Z) (p : HttpRequestParser) : nat :=
  (Z.to_nat (n - scan_offset_ p) + if decide (state_ p = ChunkEnd) then 0 else 1)%nat.

(** A request that the parser hands out respects the limits, and some of the
    input was consumed for it. *)
Definition accepted (o : HttpParserOptions) (n : Z) (r : HttpParseResult) : Prop :=
  zlen (body (request r)) <= maximum_body_bytes o /\
  zlen (headers (request r)) <= Z.max 0 (maximum_header_count o) /\
  0 < consumed_bytes r <= n.

(** What an iteration from [p] may do. *)
Definition step_ok (n : Z) (p : HttpRequestParser) (r : result step) : Prop :=
  match r with
  | Throw e => e = out_of_range /\ state_ p = ChunkBody /\
      2 ^ 64 <= chunk_body_offset_ p + chunk_size_ p + 2
  | Ok (Go q) => pinv n q /\ options_ q = options_ p /\ (pmeasure n q < pmeasure n p)%nat
  | Ok (Ret r q) =>
      options_ q = options_ p /\
      match status r with
      | Incomplete => r = HttpParseResult_default /\ pinv n q
      | HeadersComplete => pinv n q
      | Complete_ => accepted (options_ p) n r /\ q = Reset p
      | Error_ => r = error_result (last_error_ q) /\ state_ q = ErrorState
      end
  end.

Ltac pcbn :=
  cbn [set_state set_request set_line_start set_scan set_header_bytes set_content_length
       set_body_offset set_chunk_size set_chunk_body_offset set_has_chunked
       set_expect_continue set_expect_continue_sent set_last_error Fail_ Reset
       options_ state_ request_ line_start_ scan_offset_ header_bytes_ content_length_
       body_offset_ chunk_size_ chunk_body_offset_ has_chunked_ expect_continue_
       expect_continue_sent_ last_error_ push_header set_body set_keep_alive
       method method_text target path query headers body keep_alive request_id connection_id
       status error consumed_bytes request HttpRequestParser.expect_continue
       line_status line_value scan_outcome fst snd negb andb orb
       mbind result_bind] in *.

Ltac pstep :=
  pcbn; cbn [step_ok ret_fail ret_incomplete error_result HttpParseResult_default] in *; pcbn.

Lemma pmeasure_ChunkEnd n p : state_ p = ChunkEnd -> pmeasure n p = Z.to_nat (n - scan_offset_ p).
Proof. intros. unfold pmeasure. rewrite decide_True by done. lia. Qed.
Lemma pmeasure_other n p :
  state_ p <> ChunkEnd -> pmeasure n p = S (Z.to_nat (n - scan_offset_ p)).
Proof. intros. unfold pmeasure. rewrite decide_False by done. lia. Qed.

(** Computes the measures of a goal and closes it. *)
Ltac pm :=
  rewrite ?pmeasure_ChunkEnd by done; rewrite ?pmeasure_other by done; pcbn; lia.

(** Re-establishes the invariant once the members are explicit. *)
Ltac pinv_solve :=
  split; pcbn; try done; try lia;
  try (intros; lia); try (intros; congruence); try (intros; split; (congruence || lia));
  try (intros; match goal with
       | H : In _ _ -> ?x = true |- ?x = true => apply H; cbn; tauto
       | H : _ <> RequestLine -> _ < ?x |- _ < ?x => by apply H
       end);
  try (intros [?|[?|[?|[?|[]]]]]; discriminate).

Lemma ret_fail_ok n p e : step_ok n p (Ok (ret_fail e p)).
Proof. destruct p. pstep. done. Qed.

Lemma pinv_set_scan n p i :
  pinv n p -> scan_offset_ p <= i <= n -> state_ p <> Body -> state_ p <> ChunkBody ->
  pinv n (set_scan i p).
Proof.
  intros [] Hi ? ?. destruct p. pcbn. split; pcbn; try done; try lia; try tauto.
  intros E. specialize (pi_pos0 E). lia.
Qed.

(** The bytes from the scan offset on. *)
Abbreviation rest_of s p := (zdrop (scan_offset_ p) (seq_bytes s)).

Section step.
Context (s : BufferSequence) (Hs : seq_ok s).
Context (n : Z) (Hn : n = zlen (seq_bytes s)) (Hn63 : n < 2 ^ 63).

Lemma zlen_rest p : pinv n p -> zlen (rest_of s p) = n - scan_offset_ p.
Proof. intros []. subst n. zlia. Qed.

(** A complete line inside the input. *)
Lemma SLine_bounds max p i :
  pinv n p -> scan max (line_start_ p) (rest_of s p) (scan_offset_ p) = SLine i ->
  scan_offset_ p <= i /\ i + 2 <= n /\ i - line_start_ p <= max /\
  zlen (zslice (line_start_ p) (i - line_start_ p) (seq_bytes s)) = i - line_start_ p.
Proof.
  intros Hp E. pose proof (zlen_rest _ Hp). apply scan_line_bounds in E as (?&?&?).
  destruct Hp. split_and!; try lia. subst n. zlia.
Qed.

Lemma SIncomplete_pinv max p i :
  pinv n p -> state_ p <> Body -> state_ p <> ChunkBody ->
  scan max (line_start_ p) (rest_of s p) (scan_offset_ p) = SIncomplete i ->
  pinv n (set_scan i p).
Proof.
  intros Hp ? ? E. pose proof (zlen_rest _ Hp). apply scan_incomplete_bounds in E.
  apply pinv_set_scan; [done|lia|done..].
Qed.

Lemma ReadLine_pinv max p :
  pinv n p -> ReadLine s max p = Ok (scan_outcome (seq_bytes s) p
        (scan max (line_start_ p) (rest_of s p) (scan_offset_ p))).
Proof. intros []. apply ReadLine_scan; [done|lia|lia]. Qed.

Lemma step_incomplete_ok max p i :
  pinv n p -> state_ p <> Body -> state_ p <> ChunkBody ->
  scan max (line_start_ p) (rest_of s p) (scan_offset_ p) = SIncomplete i ->
  step_ok n p (Ok (ret_incomplete (set_scan i p))).
Proof.
  intros Hp ? ? E. cbn. split; [by destruct p|]. split; [done|].
  by eapply SIncomplete_pinv.
Qed.

Lemma step_RequestLine_ok p :
  pinv n p -> state_ p = RequestLine -> step_ok n p (step_RequestLine s p).
Proof.
  intros Hp Est. unfold step_RequestLine. rewrite (ReadLine_pinv _ _ Hp).
  cbn [mbind result_bind]. destruct (scan _ _ _ _) as [i| | |i] eqn:E; pcbn.
  - eapply step_incomplete_ok; [done|by rewrite Est..|done].
  - apply ret_fail_ok.
  - apply ret_fail_ok.
  - destruct (SLine_bounds _ _ _ Hp E) as (?&?&?&Hl).
    set (line := zslice _ _ _) in *. set (q := set_line_start _ _).
    assert (zlen line < 2 ^ 63) by (destruct Hp; lia).
    destruct (ParseRequestLine_frame line q) as [r [Hh Hb]|e|e r]; [done|..];
      unfold q in *; clear q; destruct Hp; destruct p; pstep; subst; pstep.
    + split; [|split; [done|]].
      * split; pcbn; rewrite ?Hh, ?Hb; try done; try lia; try (intros; lia);
          by intros [?|[?|[?|[?|[]]]]].
      * pm.
    + done.
    + done.
Qed.
(** [Complete] hands out the request when the framing is satisfied. *)
Lemma Complete_ok p :
  pinv n p -> 0 < scan_offset_ p ->
  (has_chunked_ p = false -> body_offset_ p = scan_offset_ p /\
     body_offset_ p + content_length_ p <= n) ->
  exists r, Complete s p = Ok (r, Reset p) /\ status r = Complete_ /\
    accepted (options_ p) n r.
Proof.
  intros [] Hpos Hb. unfold Complete, accepted. destruct (has_chunked_ p) eqn:Ec.
  { rewrite andb_false_r. cbn [mbind result_bind]. rewrite Ec.
    eexists. split; [done|]. pcbn. split; [done|]. lia. }
  destruct (Hb eq_refl) as [Eb Hbn]. rewrite andb_true_r.
  destruct (Z.eqb_spec (content_length_ p) 0) as [E0|E0]; cbn [negb].
  { cbn [mbind result_bind]. rewrite Ec. eexists. split; [done|]. pcbn.
    split; [done|]. rewrite u64_small; lia. }
  rewrite CopyTo_spec by (done || lia). rewrite <- Hn, (proj2 (Z.leb_le _ _)) by lia.
  cbn [mbind result_bind]. rewrite (u64_small (_ + _)) by (destruct p; pcbn; lia).
  eexists. split; [by destruct p|]. split; [done|]. destruct p; pcbn. subst.
  rewrite zlen_zslice. lia.
Qed.

Lemma step_Complete_ok p :
  pinv n p -> 0 < scan_offset_ p ->
  (has_chunked_ p = false -> body_offset_ p = scan_offset_ p /\
     body_offset_ p + content_length_ p <= n) ->
  step_ok n p ('(r, q) ← Complete s p; Ok (Ret r q)).
Proof.
  intros Hp Hpos Hb. destruct (Complete_ok p Hp Hpos Hb) as (r & -> & Hr & Ha).
  pstep. rewrite Hr. done.
Qed.

Lemma step_Body_ok p :
  pinv n p -> state_ p = Body -> step_ok n p (step_Body s p).
Proof.
  intros Hp Est. destruct (Hp). unfold step_Body.
  destruct (pi_Body0 Est) as [Hc Hb]. rewrite (seq_size_spec _ Hs), <- Hn.
  case_match; [apply ret_fail_ok|].
  destruct (Z.ltb_spec n (body_offset_ p + content_length_ p)).
  - cbn. done.
  - apply step_Complete_ok; [done| |done]. apply pi_pos0. by rewrite Est.
Qed.

Lemma step_ChunkHead_ok p :
  pinv n p -> state_ p = ChunkHead -> step_ok n p (step_ChunkHead s p).
Proof.
  intros Hp Est. unfold step_ChunkHead. rewrite (ReadLine_pinv _ _ Hp).
  cbn [mbind result_bind]. destruct (scan _ _ _ _) as [i| | |i] eqn:E; pcbn.
  - eapply step_incomplete_ok; [done|by rewrite Est..|done].
  - apply ret_fail_ok.
  - cbn. apply ret_fail_ok.
  - destruct (SLine_bounds _ _ _ Hp E) as (?&?&?&Hl).
    set (line := zslice _ _ _) in *.
    destruct (SkipChunkExtension_ok line) as (w & -> & _). cbn [mbind result_bind].
    destruct (ParseHexSize w) as [m|] eqn:Em.
    2:{ destruct p; pstep; done. }
    apply ParseHexSize_range in Em. destruct Hp. destruct p; pcbn. subst.
    destruct (Z.eqb_spec m 0); pstep; (split; [|split; [done|]]);
      try pm; pinv_solve.
Qed.

Lemma step_ChunkTrailer_ok p :
  pinv n p -> state_ p = ChunkTrailer -> step_ok n p (step_ChunkTrailer s p).
Proof.
  intros Hp Est. unfold step_ChunkTrailer. rewrite (ReadLine_pinv _ _ Hp).
  cbn [mbind result_bind]. destruct (scan _ _ _ _) as [i| | |i] eqn:E; pcbn.
  - eapply step_incomplete_ok; [done|by rewrite Est..|done].
  - apply ret_fail_ok.
  - destruct Hp. destruct p; pcbn. subst. change (zlen [] =? 0) with true.
    cbv iota. pstep. split; [|split; [done|pm]].
    pinv_solve.
  - destruct (SLine_bounds _ _ _ Hp E) as (?&?&?&Hl).
    set (line := zslice _ _ _) in *. destruct Hp. destruct p; pcbn. subst.
    case_match; pstep; (split; [|split; [done|pm]]);
      pinv_solve.
Qed.

Lemma step_ChunkBody_ok p :
  pinv n p -> state_ p = ChunkBody -> step_ok n p (step_ChunkBody s p).
Proof.
  intros Hp Est. destruct (Hp). destruct (pi_cb0 Est) as [Hcb Hcs].
  unfold step_ChunkBody. rewrite (seq_size_spec _ Hs), <- Hn.
  case_match eqn:E1; [by cbn|]. apply Z.ltb_ge in E1.
  case_match eqn:E2; [apply ret_fail_ok|]. apply Z.ltb_ge in E2.
  rewrite CopyTo_spec by (done || lia). rewrite <- Hn.
  destruct (Z.leb_spec (chunk_body_offset_ p + chunk_size_ p) n) as [Hle|Hgt].
  - (* in range: nothing wrapped *)
    rewrite u64_small in E1, E2 by (zlen_pose; lia). cbn [mbind result_bind].
    rewrite u64_small by lia. destruct p; pstep. subst.
    split; [|split; [done|]].
    + pinv_solve; rewrite zlen_app, zlen_zslice; lia.
    + pm.
  - cbn. split; [done|]. split; [done|]. unfold u64 in E1.
    destruct (decide (2 ^ 64 <= chunk_body_offset_ p + chunk_size_ p + 2)); [done|].
    rewrite Z.mod_small in E1 by lia. lia.
Qed.
(** Moving to a body state keeps the invariant. *)
Lemma pinv_enter p cl hc ec ka :
  pinv n p -> state_ p = Headers -> 0 <= cl <= maximum_body_bytes (options_ p) ->
  let q := set_body_offset (scan_offset_ p)
    (set_request (set_keep_alive ka (request_ p))
      (set_expect_continue ec (set_has_chunked hc (set_content_length cl p)))) in
  pinv n q /\ forall es, pinv n (set_state (if hc then ChunkHead else Body)
    (set_expect_continue_sent es q)).
Proof.
  intros [] Est Hcl. destruct p; pcbn. subst. split; [pinv_solve|].
  intros es. destruct hc; pinv_solve.
Qed.

Lemma step_ok_weaken p0 p r :
  step_ok n p r -> options_ p = options_ p0 -> state_ p0 <> ChunkBody -> state_ p <> ChunkBody ->
  (pmeasure n p <= pmeasure n p0)%nat -> step_ok n p0 r.
Proof.
  intros H Ho Hb Hb' Hm. destruct r as [[q|r q]|e]; cbn [step_ok] in *.
  - destruct H as (?&?&?). split; [done|]. split; [congruence|lia].
  - destruct H as [Hq H]. split; [congruence|]. unfold Reset in *. rewrite Ho in H. done.
  - tauto.
Qed.

Lemma headers_done_ok p0 p :
  pinv n p -> state_ p = Headers -> state_ p0 = Headers -> options_ p = options_ p0 ->
  scan_offset_ p0 < scan_offset_ p -> step_ok n p0 (headers_done s p).
Proof.
  intros Hp Est Est0 Ho Hlt. pose proof (pi_scan _ _ Hp).
  assert (Hpos : 0 < scan_offset_ p) by (apply (pi_pos _ _ Hp); by rewrite Est).
  unfold headers_done.
  destruct (FinalizeHeaders_frame p) as [cl hc ec ka Hcl|e q Hq];
    [apply Hp|destruct Hp; lia| |].
  2:{ destruct q. pstep. split; [congruence|done]. }
  destruct (pinv_enter p cl hc ec ka Hp Est Hcl) as [Hq Hq2].
  cbn [mbind result_bind negb]. replace (scan_offset_ (set_request _ _)) with (scan_offset_ p)
    by (by destruct p).
  set (q := set_body_offset _ _) in *.
  assert (Hscan : scan_offset_ q = scan_offset_ p) by (by destruct p).
  assert (Hbo : body_offset_ q = scan_offset_ p) by (by destruct p).
  assert (Hstq : state_ q = Headers) by (by destruct p).
  assert (Hoq : options_ q = options_ p0) by (by destruct p).
  assert (Ecl : content_length_ q = cl) by (by destruct p).
  assert (Ehc : has_chunked_ q = hc) by (by destruct p).
  clearbody q. clear Hp Est Ho Hcl.
  destruct q; pcbn. subst cl hc state_ options_ scan_offset_ body_offset_.
  assert (Hgo : forall st es, st <> ChunkEnd ->
    (pmeasure n (mkParser (options_ p0) st request_ line_start_ (scan_offset_ p)
      header_bytes_ content_length_ (scan_offset_ p) chunk_size_ chunk_body_offset_
      has_chunked_ expect_continue_ es last_error_) < pmeasure n p0)%nat).
  { intros st es Hst. rewrite !pmeasure_other by (done || by rewrite Est0). pcbn. lia. }
  assert (Hcomp : forall es, has_chunked_ = false -> content_length_ = 0 -> step_ok n p0
    ('(r, q') ← Complete s (mkParser (options_ p0) Headers request_ line_start_
      (scan_offset_ p) header_bytes_ content_length_ (scan_offset_ p) chunk_size_
      chunk_body_offset_ has_chunked_ expect_continue_ es last_error_); Ok (Ret r q'))).
  { intros es -> ->. eapply step_ok_weaken; [apply step_Complete_ok|..]; pcbn;
      [destruct Hq; pcbn; pinv_solve|lia|lia|done|by rewrite Est0|done|].
    apply Nat.lt_le_incl. by apply Hgo. }
  destruct (expect_continue_ && negb expect_continue_sent_).
  - specialize (Hq2 true). destruct has_chunked_; pcbn; [pstep; done|].
    destruct (Z.eqb_spec content_length_ 0); [by apply Hcomp|]. pstep. done.
  - specialize (Hq2 expect_continue_sent_). destruct has_chunked_; pcbn.
    + pstep. split; [done|]. split; [done|by apply Hgo].
    + destruct (Z.eqb_spec content_length_ 0); [by apply Hcomp|].
      pstep. split; [done|]. split; [done|by apply Hgo].
Qed.

Lemma step_Headers_ok p :
  pinv n p -> state_ p = Headers -> step_ok n p (step_Headers s p).
Proof.
  intros Hp Est. unfold step_Headers. rewrite (ReadLine_pinv _ _ Hp).
  cbn [mbind result_bind]. unfold headers_line.
  destruct (scan _ _ _ _) as [i| | |i] eqn:E; pcbn.
  - eapply step_incomplete_ok; [done|by rewrite Est..|done].
  - apply ret_fail_ok.
  - apply ret_fail_ok.
  - destruct (SLine_bounds _ _ _ Hp E) as (?&?&?&Hl).
    set (line := zslice _ _ _) in *. set (q := set_line_start _ _).
    replace (header_bytes_ q) with (header_bytes_ p) by (by destruct p).
    replace (options_ (set_header_bytes _ q)) with (options_ p) by (by destruct p).
    replace (options_ q) with (options_ p) by (by destruct p).
    replace (request_ (set_header_bytes _ q)) with (request_ p) by (by destruct p).
    pose proof (pi_hb _ _ Hp). pose proof (pi_mh _ _ Hp). pose proof (pi_ls _ _ Hp).
    rewrite (u64_small (maximum_header_bytes _ - _)) by lia.
    destruct (Z.ltb_spec (maximum_header_bytes (options_ p) - header_bytes_ p)
      (zlen line + 2)); [destruct p; pstep; done|].
    rewrite (u64_small (_ + _)) by zlia.
    set (q1 := set_header_bytes _ q).
    assert (Hq1 : pinv n q1).
    { unfold q1, q. clear q1 q. clearbody line. destruct Hp. destruct p; pcbn. subst state_.
      zlen_pose. pinv_solve. }
    assert (Hlt : scan_offset_ p < scan_offset_ q1) by (unfold q1, q; destruct p; pcbn; lia).
    destruct (Z.eqb_spec (zlen line) 0).
    { apply headers_done_ok; [done|by destruct p|done|by destruct p|done]. }
    destruct (Z.leb_spec (maximum_header_count (options_ p)) (zlen (headers (request_ p))));
      [destruct p; pstep; done|].
    destruct (ParseHeaderLine_frame line q1) as [r (h & Hh & Hv & Hb)|e|e r];
      [lia|..]; [|destruct p; pstep; done..].
    assert (Hst : state_ q1 = Headers) by (by destruct p).
    assert (Hop : options_ q1 = options_ p) by (by destruct p).
    assert (Hrq : request_ q1 = request_ p) by (by destruct p).
    clearbody q1. rewrite Hrq in *. destruct Hq1.
    destruct q1; pstep. subst request_ state_ options_.
    split; [|split; [done|]].
    + split; pcbn; rewrite ?Hh, ?Hb; try done; try lia; try (intros; lia);
        try (by intros [?|[?|[?|[?|[]]]]]).
      * apply Forall_app. split; [done|]. by repeat constructor.
      * rewrite zlen_app. change (zlen [h]) with 1. lia.
    + rewrite !pmeasure_other by (done || by rewrite Est). pcbn. lia.
Qed.

(** Every iteration is well behaved. *)
Lemma Parse_step_ok p : pinv n p -> step_ok n p (Parse_step s p).
Proof.
  intros Hp. unfold Parse_step. destruct (state_ p) eqn:Est.
  - by apply step_RequestLine_ok.
  - by apply step_Headers_ok.
  - by apply step_Body_ok.
  - by apply step_ChunkHead_ok.
  - by apply step_ChunkBody_ok.
  - by apply step_ChunkTrailer_ok.
  - apply step_Complete_ok; [done|apply (pi_pos _ _ Hp); by rewrite Est|].
    rewrite (pi_chunked _ _ Hp); [done|]. rewrite Est. cbn; tauto.
  - by destruct (pi_state _ _ Hp).
Qed.
End step.

(** ** The loop *)

(** What [Parse] may return from a parser with options [o]. *)
Definition parse_ok (n : Z) (o : HttpParserOptions)
    (res : result (HttpParseResult * HttpRequestParser)) : Prop :=
  match res with
  | Throw e => e = out_of_range
  | Ok (r, q) =>
      options_ q = o /\
      match status r with
      | Incomplete => r = HttpParseResult_default /\ pinv n q
      | HeadersComplete => pinv n q
      | Complete_ => accepted o n r /\ q = Reset q
      | Error_ => r = error_result (last_error_ q) /\ state_ q = ErrorState
      end
  end.

Lemma Parse_loop_ok s n fuel : seq_ok s -> n = zlen (seq_bytes s) -> n < 2 ^ 63 ->
  forall p, pinv n p -> (pmeasure n p < fuel)%nat ->
  parse_ok n (options_ p) (Parse_loop fuel s p).
Proof.
  intros Hs Hn Hn63. induction fuel as [|fuel IH]; intros p Hp Hf; [lia|].
  cbn [Parse_loop]. pose proof (Parse_step_ok s Hs n Hn Hn63 p Hp) as H.
  destruct (Parse_step s p) as [[q|r q]|e]; cbn [step_ok mbind result_bind] in *.
  - destruct H as (Hq & Ho & Hm). rewrite <- Ho. apply IH; [done|lia].
  - destruct H as [Ho H]. cbn. split; [done|]. destruct (status r); try tauto.
    destruct H as [? ->]. done.
  - by destruct H.
Qed.

Lemma pmeasure_fuel s n p :
  seq_ok s -> n = zlen (seq_bytes s) -> pinv n p -> (pmeasure n p < parse_fuel s p)%nat.
Proof.
  intros Hs -> []. unfold pmeasure, parse_fuel. rewrite (seq_size_spec _ Hs).
  case_decide; lia.
Qed.

Lemma Parse_eq s p :
  seq_ok s -> pinv (zlen (seq_bytes s)) p -> Parse s p = Parse_loop (parse_fuel s p) s p.
Proof.
  intros Hs []. unfold Parse. rewrite decide_False by done. rewrite (seq_size_spec _ Hs).
  destruct (Z.ltb_spec (zlen (seq_bytes s)) (scan_offset_ p)); [lia|].
  destruct (Z.ltb_spec (zlen (seq_bytes s)) (line_start_ p)); [lia|done].
Qed.

Lemma Parse_ok s p :
  seq_ok s -> zlen (seq_bytes s) < 2 ^ 63 -> pinv (zlen (seq_bytes s)) p ->
  parse_ok (zlen (seq_bytes s)) (options_ p) (Parse s p).
Proof.
  intros Hs Hn Hp. rewrite Parse_eq by done.
  apply (Parse_loop_ok s); try done. by apply pmeasure_fuel.
Qed.

(** ** Options that [HttpSession] can construct a parser with *)

Record options_ok (o : HttpParserOptions) : Prop := {
  oo_rl : 0 < maximum_request_line_bytes o < 2 ^ 64;
  oo_mh : 2 <= maximum_header_bytes o < 2 ^ 64;
  oo_hc : 0 < maximum_header_count o < 2 ^ 64;
  oo_mb : 0 <= maximum_body_bytes o < 2 ^ 64;
}.

Lemma make_ok o : options_ok o -> exists p, HttpRequestParser_make o = Ok p /\
  p = mkParser o RequestLine HttpRequest_default 0 0 0 0 0 0 0 false false false None_.
Proof.
  intros []. unfold HttpRequestParser_make.
  rewrite (proj2 (Z.eqb_neq _ _)), (proj2 (Z.ltb_ge _ _)), (proj2 (Z.eqb_neq (maximum_header_count o) _))
    by lia. eauto.
Qed.

(** A fresh parser satisfies the invariant for every input. *)
Lemma pinv_fresh n o : 0 <= n -> options_ok o ->
  pinv n (mkParser o RequestLine HttpRequest_default 0 0 0 0 0 0 0 false false false None_).
Proof.
  intros Hn []. split; cbn; try done; try lia; try (intros [?|[?|[?|[?|[]]]]]; done).
  all: rewrite ?zlen_nil; try lia; by intros [].
Qed.

Lemma pinv_mono n m p : n <= m -> pinv n p -> pinv m p.
Proof. intros Hle []. split; try done. lia. Qed.

(** ** A determined answer does not depend on later bytes *)

Definition step_final (st : step) : Prop :=
  match st with Go _ => True | Ret r _ => status r <> Incomplete end.

Lemma Complete_nocopy s s' p :
  content_length_ p = 0 \/ has_chunked_ p = true -> Complete s p = Complete s' p.
Proof.
  intros H. unfold Complete. destruct H as [->| ->]; [done|]. by rewrite andb_false_r.
Qed.

Lemma headers_done_input s s' p : headers_done s p = headers_done s' p.
Proof.
  unfold headers_done. destruct (FinalizeHeaders p) as [[ok q]|]; [|done]. cbn.
  destruct ok; [|done]. cbn.
  destruct (expect_continue_ _ && _).
  - destruct (has_chunked_ (set_expect_continue_sent _ _)); [done|]. cbn [negb andb].
    case_match eqn:E; [|done]. rewrite (Complete_nocopy s s'); [done|].
    apply Z.eqb_eq in E. by left.
  - case_match; [done|]. case_match eqn:E; [|done].
    rewrite (Complete_nocopy s s'); [done|]. apply Z.eqb_eq in E. by left.
Qed.

Lemma headers_line_input s s' l p : headers_line s l p = headers_line s' l p.
Proof. unfold headers_line. by rewrite (headers_done_input s s'). Qed.

Section extend.
Context (s s' : BufferSequence) (k : list byte).
Context (Hs : seq_ok s) (Hs' : seq_ok s') (Hk : seq_bytes s' = seq_bytes s ++ k).
Context (H63 : zlen (seq_bytes s') < 2 ^ 63).
Let n := zlen (seq_bytes s).

Lemma ReadLine_extend max p :
  pinv n p -> let r := scan max (line_start_ p) (rest_of s p) (scan_offset_ p) in
  ReadLine s max p = Ok (scan_outcome (seq_bytes s) p r) /\
  ((forall j, r <> SIncomplete j) -> ReadLine s' max p = ReadLine s max p) /\
  (forall j, r = SIncomplete j -> ReadLine s' max (set_scan j p) =
     Ok (scan_outcome (seq_bytes s') (set_scan j p)
          (scan max (line_start_ p) (rest_of s' p) (scan_offset_ p))) /\
     ReadLine s' max p =
     Ok (scan_outcome (seq_bytes s') p
          (scan max (line_start_ p) (rest_of s' p) (scan_offset_ p)))).
Proof.
  intros Hp r. pose proof (pi_ls _ _ Hp). pose proof (pi_scan _ _ Hp) as Hsc.
  assert (Hle : zlen (seq_bytes s) <= zlen (seq_bytes s')) by (rewrite Hk; zlia).
  assert (E1 : ReadLine s max p = Ok (scan_outcome (seq_bytes s) p r))
    by (apply ReadLine_scan; [done|lia|done]).
  assert (E2 : ReadLine s' max p = Ok (scan_outcome (seq_bytes s') p
    (scan max (line_start_ p) (rest_of s' p) (scan_offset_ p))))
    by (apply ReadLine_scan; [done|lia|unfold n in *; lia]).
  assert (Er : rest_of s' p = rest_of s p ++ k) by (rewrite Hk; by apply zdrop_app_le).
  split; [done|]. split.
  - intros Hf. rewrite E1, E2, Er, scan_app by done. fold r. f_equal.
    destruct r as [j| | |j] eqn:Ej; cbn; [by destruct (Hf j)|done|done|].
    unfold r in Ej. apply scan_line_bounds in Ej. rewrite Hk, zslice_app_l; [done|lia|].
    unfold n in *. zlia.
  - intros j Ej. split; [|done].
    destruct (scan_resume _ _ _ k _ _ Ej) as [Hj Es]. unfold n in *.
    rewrite zlen_zdrop in Hj.
    rewrite (ReadLine_scan s') by (destruct p; cbn in *; try done; lia).
    rewrite Er, Es.
    replace (line_start_ (set_scan j p)) with (line_start_ p) by (by destruct p).
    replace (scan_offset_ (set_scan j p)) with j by (by destruct p).
    do 3 f_equal. rewrite <- Er. rewrite zdrop_zdrop by lia. f_equal. lia.
Qed.

Lemma Complete_extend p :
  pinv n p -> (has_chunked_ p = false -> body_offset_ p = scan_offset_ p /\
     body_offset_ p + content_length_ p <= n) ->
  Complete s' p = Complete s p.
Proof.
  intros [] Hb. destruct (has_chunked_ p) eqn:Ec; [apply Complete_nocopy; by right|].
  destruct (Hb eq_refl) as [? ?]. unfold Complete. rewrite Ec.
  destruct (negb (content_length_ p =? 0)); [|done]. cbn [andb negb].
  rewrite !CopyTo_spec by (done || lia). unfold n in *.
  assert (zlen (seq_bytes s) <= zlen (seq_bytes s')) by (rewrite Hk; zlia).
  rewrite !(proj2 (Z.leb_le _ _)) by lia. rewrite Hk, zslice_app_l by lia. done.
Qed.

(** The answer of an iteration on more input. *)
Definition extends (r r' : result step) : Prop :=
  match r with
  | Ok st => step_final st -> r' = Ok st
  | Throw e => r' = Throw e
  end.

Lemma extends_refl r : extends r r.
Proof. by destruct r. Qed.

Lemma extends_ret_incomplete q r' : extends (Ok (ret_incomplete q)) r'.
Proof. cbn. done. Qed.

Lemma step_ChunkBody_extend p :
  pinv n p -> state_ p = ChunkBody -> extends (step_ChunkBody s p) (step_ChunkBody s' p).
Proof.
  intros Hp Est. destruct (pi_cb _ _ Hp Est) as [Hcb Hcs]. destruct Hp.
  unfold step_ChunkBody. rewrite !(seq_size_spec) by done. unfold n in *.
  assert (Hle : zlen (seq_bytes s) <= zlen (seq_bytes s')) by (rewrite Hk; zlia).
  case_match eqn:E1; [apply extends_ret_incomplete|]. apply Z.ltb_ge in E1.
  destruct (Z.ltb_spec (zlen (seq_bytes s')) (u64 (chunk_body_offset_ p + chunk_size_ p + 2)));
    [lia|]. case_match; [apply extends_refl|].
  rewrite !CopyTo_spec by (done || lia).
  destruct (Z.leb_spec (chunk_body_offset_ p + chunk_size_ p) (zlen (seq_bytes s))) as [Hi|Hi].
  - rewrite (proj2 (Z.leb_le _ _)) by lia. rewrite Hk, zslice_app_l by lia. apply extends_refl.
  - (* the end wrapped around *)
    assert (2 ^ 64 <= chunk_body_offset_ p + chunk_size_ p + 2).
    { destruct (decide (2 ^ 64 <= chunk_body_offset_ p + chunk_size_ p + 2)); [done|].
      rewrite u64_small in E1 by lia. lia. }
    rewrite (proj2 (Z.leb_gt _ _)) by lia. done.
Qed.

Lemma Parse_step_extend p : pinv n p -> extends (Parse_step s p) (Parse_step s' p).
Proof.
  intros Hp. unfold Parse_step. destruct (state_ p) eqn:Est.
  - unfold step_RequestLine.
    destruct (ReadLine_extend (maximum_request_line_bytes (options_ p)) p Hp) as (E1 & E2 & _).
    destruct (scan _ _ _ _) as [j| | |j]; rewrite ?E2, E1 by done; cbn [mbind result_bind];
      [apply extends_ret_incomplete|apply extends_refl..].
  - unfold step_Headers.
    destruct (ReadLine_extend (remaining_header_bytes p) p Hp) as (E1 & E2 & _).
    destruct (scan _ _ _ _) as [j| | |j]; rewrite ?E2, E1 by done; cbn [mbind result_bind];
      cbn [scan_outcome]; [apply extends_ret_incomplete|..];
      rewrite (headers_line_input s' s); apply extends_refl.
  - unfold step_Body. destruct (pi_Body _ _ Hp Est) as [Hc Hb].
    case_match; [apply extends_refl|]. rewrite !seq_size_spec by done.
    destruct (Z.ltb_spec (zlen (seq_bytes s)) (body_offset_ p + content_length_ p));
      [apply extends_ret_incomplete|].
    assert (zlen (seq_bytes s) <= zlen (seq_bytes s')) by (rewrite Hk; zlia).
    rewrite (proj2 (Z.ltb_ge _ _)) by lia.
    rewrite (Complete_extend p Hp) by done. apply extends_refl.
  - unfold step_ChunkHead.
    destruct (ReadLine_extend 256 p Hp) as (E1 & E2 & _).
    destruct (scan _ _ _ _) as [j| | |j]; rewrite ?E2, E1 by done; cbn [mbind result_bind];
      [apply extends_ret_incomplete|apply extends_refl..].
  - by apply step_ChunkBody_extend.
  - unfold step_ChunkTrailer.
    destruct (ReadLine_extend (maximum_header_bytes (options_ p)) p Hp) as (E1 & E2 & _).
    destruct (scan _ _ _ _) as [j| | |j]; rewrite ?E2, E1 by done; cbn [mbind result_bind];
      [apply extends_ret_incomplete|apply extends_refl..].
  - rewrite (Complete_extend p Hp); [apply extends_refl|].
    rewrite (pi_chunked _ _ Hp); [done|]. rewrite Est. cbn; tauto.
  - apply extends_refl.
Qed.
End extend.

(** More fuel does not change an answer. *)
Lemma Parse_loop_mono s f f' p :
  (f <= f')%nat -> Parse_loop f s p <> Throw NonTermination ->
  Parse_loop f' s p = Parse_loop f s p.
Proof.
  revert f' p. induction f as [|f IH]; intros f' p Hle Hne; [done|].
  destruct f' as [|f']; [lia|]. cbn [Parse_loop] in *.
  destruct (Parse_step s p) as [[q|r q]|e]; cbn [mbind result_bind] in *; [|done..].
  apply IH; [lia|done].
Qed.

(** ** Equality up to the scan offset

    A line that exceeds its limit leaves the scan offset where the scan
    started, which depends on how the input was split.  Afterwards the offset
    is dead in the error state; at the end of a chunked body it is the number
    of consumed bytes. *)

(** The parameter [t] says that no trailer line can exceed its limit, in which
    case nothing but the scan offset of a failed parser is left open. *)
Definition peq (t : Prop) (p q : HttpRequestParser) : Prop :=
  set_scan 0 p = set_scan 0 q /\
  (state_ p <> ErrorState -> t \/ state_ p <> ChunkEnd -> p = q).

(** Results that agree except, for a complete request, on the number of
    consumed bytes. *)
Definition req (t : Prop) (r r' : HttpParseResult) : Prop :=
  status r = status r' /\ error r = error r' /\ request r = request r' /\
  expect_continue r = expect_continue r' /\
  (t \/ status r <> Complete_ -> consumed_bytes r = consumed_bytes r').

Definition step_eq (t : Prop) (st st' : step) : Prop :=
  match st, st' with
  | Go p, Go q => peq t p q
  | Ret r p, Ret r' q => req t r r' /\ peq t p q
  | _, _ => False
  end.

Definition res_rel {A} (R : A -> A -> Prop) (r r' : result A) : Prop :=
  match r, r' with
  | Ok a, Ok b => R a b
  | Throw e, Throw e' => e = e'
  | _, _ => False
  end.

Lemma set_scan_eq_state p q : set_scan 0 p = set_scan 0 q -> state_ p = state_ q.
Proof. intros H%(f_equal state_). by destruct p, q. Qed.

#[export] Instance peq_equiv t : Equivalence (peq t).
Proof.
  split.
  - done.
  - intros p q [H1 H2]. split; [done|]. rewrite <- (set_scan_eq_state _ _ H1).
    intros ? ?. symmetry. by apply H2.
  - intros p q r [H1 H2] [H3 H4]. split; [by rewrite H1|]. intros ? ?.
    rewrite H2 by done. apply H4; by rewrite <- (set_scan_eq_state _ _ H1).
Qed.

#[export] Instance req_equiv t : Equivalence (req t).
Proof.
  split.
  - by intros r.
  - intros r r' (H1&H2&H3&H4&H5). repeat split; try done. intros ?. symmetry. apply H5. by rewrite H1.
  - intros r r' r'' (H1&H2&H3&H4&H5) (G1&G2&G3&G4&G5). repeat split; try congruence.
    intros ?. rewrite H5 by done. apply G5. by rewrite <- H1.
Qed.

#[export] Instance step_eq_refl t : Reflexive (step_eq t).
Proof. intros [p|r p]; cbn; done. Qed.

Lemma res_rel_refl {A} (R : A -> A -> Prop) `{!Reflexive R} r : res_rel R r r.
Proof. destruct r; cbn; done. Qed.

(** Iterations respect the equality. *)
Lemma Parse_step_peq t s p q :
  peq t p q -> res_rel (step_eq t) (Parse_step s p) (Parse_step s q).
Proof.
  intros [H1 H2].
  destruct (decide (state_ p = ErrorState)) as [E|E].
  { unfold Parse_step. rewrite <- (set_scan_eq_state _ _ H1), E. done. }
  destruct (decide (state_ p = ChunkEnd)) as [Ec|Ec].
  2:{ rewrite H2 by auto. apply res_rel_refl. apply _. }
  unfold Parse_step. rewrite <- (set_scan_eq_state _ _ H1), Ec.
  assert (Ht : t -> scan_offset_ p = scan_offset_ q) by (intros; rewrite H2; auto).
  assert (q = set_scan (scan_offset_ q) p) as Hq by (destruct p, q; cbn in *; congruence).
  generalize dependent (scan_offset_ q). intros j Ht ->. clear H1 H2 E Ec.
  unfold Complete. destruct p; pcbn. destruct (_ && _) eqn:Eb.
  all: assert (Hc : t \/ Complete_ <> Complete_ -> scan_offset_ = j)
    by (intros [?|]; [auto|done]).
  - destruct (CopyTo _ _ _); [|done]. cbn. split; [|done]. unfold req. cbn.
    destruct has_chunked_; tauto.
  - cbn. split; [|done]. unfold req. cbn. destruct has_chunked_; tauto.
Qed.

Definition res_eq (t : Prop) : result (HttpParseResult * HttpRequestParser) ->
    result (HttpParseResult * HttpRequestParser) -> Prop :=
  res_rel (fun a b => req t a.1 b.1 /\ peq t a.2 b.2).

Lemma Parse_loop_peq t s f p q :
  peq t p q -> res_eq t (Parse_loop f s p) (Parse_loop f s q).
Proof.
  revert p q. induction f as [|f IH]; intros p q H; [done|]. cbn [Parse_loop].
  pose proof (Parse_step_peq t s p q H) as Hst.
  destruct (Parse_step s p) as [[p'|r p']|e], (Parse_step s q) as [[q'|r' q']|e'];
    cbn in *; try done. by apply IH.
Qed.

Section resume.
Context (s s' : BufferSequence) (k : list byte).
Context (Hs : seq_ok s) (Hs' : seq_ok s') (Hk : seq_bytes s' = seq_bytes s ++ k).
Context (H63 : zlen (seq_bytes s') < 2 ^ 63).
Let n := zlen (seq_bytes s).

Lemma Fail_peq t e j p : peq t (Fail_ e (set_scan j p)) (Fail_ e p).
Proof. split; destruct p; done. Qed.

Lemma ret_fail_eq t e j p : step_eq t (ret_fail e (set_scan j p)) (ret_fail e p).
Proof. cbn. split; [done|]. apply Fail_peq. Qed.

(** An iteration that reads a line: if it asks for more input, it did so
    because the line was incomplete, and reading again from where the scan
    stopped gives the same step up to the scan offset. *)
Lemma line_step_resume t max p q (K : LineResult -> HttpRequestParser -> result step) :
  pinv n p ->
  ('(line, p) ← ReadLine s max p; K line p) = Ok (Ret HttpParseResult_default q) ->
  (forall l p' q', l <> LineIncomplete -> forall v, K (mkLine l v) p' <> Ok (ret_incomplete q')) ->
  (forall p', K (mkLine LineIncomplete []) p' = Ok (ret_incomplete p')) ->
  (forall j, res_rel (step_eq t) (K (mkLine LineError []) (set_scan j p))
               (K (mkLine LineError []) p)) ->
  (scan max (line_start_ p) (rest_of s' p) (scan_offset_ p) = SLimit ->
   forall j, res_rel (step_eq t) (K (mkLine LineLimitExceeded []) (set_scan j p))
               (K (mkLine LineLimitExceeded []) p)) ->
  exists j, q = set_scan j p /\
    res_rel (step_eq t) ('(line, p) ← ReadLine s' max (set_scan j p); K line p)
                    ('(line, p) ← ReadLine s' max p; K line p).
Proof.
  intros Hp E Hinc Hi He Hl.
  destruct (ReadLine_extend s s' k Hs Hs' Hk max p Hp) as (E1 & _ & E3).
  rewrite E1 in E. cbn [mbind result_bind] in E.
  destruct (scan _ _ _ _) as [j| | |j] eqn:Er; cbn [scan_outcome] in E;
    [|by apply Hinc in E..].
  rewrite Hi in E. injection E as <-. exists j. split; [done|].
  destruct (E3 j eq_refl) as [-> ->]. cbn [mbind result_bind].
  destruct (scan _ _ (rest_of s' p) _) as [j'| | |j']; cbn [scan_outcome];
    [|apply He|by apply Hl|]; destruct p; cbn; apply res_rel_refl; apply _.
Qed.

Lemma Complete_not_incomplete t p q :
  ('(r, p) ← Complete t p; Ok (Ret r p)) <> Ok (ret_incomplete q).
Proof. unfold Complete. destruct (_ && _); [destruct (CopyTo _ _ _)|]; done. Qed.

Lemma headers_done_not_incomplete t p q : headers_done t p <> Ok (ret_incomplete q).
Proof.
  unfold headers_done. destruct (FinalizeHeaders p) as [[[] p']|]; cbn [mbind result_bind negb];
    [|done..].
  destruct (_ && _); repeat case_match; try done; apply Complete_not_incomplete.
Qed.

Lemma Parse_step_resume t p q :
  (t -> zlen (seq_bytes s') <= maximum_header_bytes (options_ p)) ->
  pinv n p -> Parse_step s p = Ok (Ret HttpParseResult_default q) ->
  res_rel (step_eq t) (Parse_step s' q) (Parse_step s' p).
Proof.
  intros Htight Hp E. unfold Parse_step in E. destruct (state_ p) eqn:Est.
  - apply (line_step_resume t) in E as (j & -> & H); [|done|..].
    + unfold Parse_step. replace (state_ (set_scan j p)) with (state_ p) by (by destruct p).
      rewrite Est. destruct p. exact H.
    + intros l p' q' Hl v. destruct l; try done. pcbn.
      destruct (ParseRequestLine _ _) as [[[] ?]|]; done.
    + done.
    + intros j. apply ret_fail_eq.
    + intros _ j. apply ret_fail_eq.
  - assert (E' : ('(line, p) ← ReadLine s (remaining_header_bytes p) p; headers_line s' line p)
      = Ok (Ret HttpParseResult_default q)).
    { rewrite <- E. unfold step_Headers. destruct (ReadLine _ _ _) as [[l p']|]; [|done]. cbn.
      apply headers_line_input. }
    apply (line_step_resume t) in E' as (j & -> & H); [|done|..].
    + unfold Parse_step. replace (state_ (set_scan j p)) with (state_ p) by (by destruct p).
      rewrite Est. destruct p. exact H.
    + intros l p' q' Hl v. destruct l; try done. unfold headers_line. pcbn.
      destruct (_ <? _); [done|]. pcbn. destruct (_ =? 0); [apply headers_done_not_incomplete|].
      destruct (_ <=? _); [done|].
      destruct (ParseHeaderLine _ _) as [[[] ?]|]; done.
    + done.
    + intros j. apply ret_fail_eq.
    + intros _ j. apply ret_fail_eq.
  - unfold step_Body in E. assert (q = p) as ->; [|apply res_rel_refl; apply _].
    do 2 (case_match; [by simplify_eq|]). by apply Complete_not_incomplete in E.
  - apply (line_step_resume t) in E as (j & -> & H); [|done|..].
    + unfold Parse_step. replace (state_ (set_scan j p)) with (state_ p) by (by destruct p).
      rewrite Est. destruct p. exact H.
    + intros l p' q' Hl v. destruct l; try done; pcbn;
        (destruct (SkipChunkExtension v); [|done]; pcbn; repeat case_match; done).
    + done.
    + intros j. apply ret_fail_eq.
    + intros _ j. apply ret_fail_eq.
  - unfold step_ChunkBody in E. assert (q = p) as ->; [|apply res_rel_refl; apply _].
    do 2 (case_match; [by simplify_eq|]). destruct (CopyTo _ _ _); done.
  - apply (line_step_resume t) in E as (j & -> & H); [|done|..].
    + unfold Parse_step. replace (state_ (set_scan j p)) with (state_ p) by (by destruct p).
      rewrite Est. destruct p. exact H.
    + intros l p' q' Hl v. destruct l; try done; pcbn; case_match; done.
    + done.
    + intros j. apply ret_fail_eq.
    + intros Hlim j. cbn. split; [by destruct p|]. intros _ [Ht|H]; [|by destruct p].
      apply scan_limit_bounds in Hlim. specialize (Htight Ht). rewrite zlen_zdrop in Hlim.
      assert (n <= zlen (seq_bytes s')) by (unfold n; rewrite Hk; zlia).
      destruct Hp. unfold n in *. lia.
  - by apply Complete_not_incomplete in E.
  - done.
Qed.
End resume.
