(* ===== verification/HttpParserSplit.v ===== *)
(** Incremental parsing: [HttpRequestParser::Parse] is called again with a
    longer input after every read, and its answers do not depend on where the
    reads were cut. *)
From S2P Require Import Prelude BufferSequence HttpMessage HttpRequestParser HttpParserTheory.

(** [input'] is what the receive buffer shows after more bytes arrived. *)
Definition grows (input input' : BufferSequence) : Prop :=
  seq_ok input' /\ zlen (seq_bytes input') < 2 ^ 63 /\
  exists k, seq_bytes input' = seq_bytes input ++ k.

Lemma grows_len s s' : grows s s' -> zlen (seq_bytes s) <= zlen (seq_bytes s').
Proof. intros (_ & _ & k & ->). zlia. Qed.

(** The loop, one iteration at a time. *)
Lemma Parse_unfold s p :
  seq_ok s -> zlen (seq_bytes s) < 2 ^ 63 -> pinv (zlen (seq_bytes s)) p ->
  Parse s p = (st ← Parse_step s p; match st with Ret r q => Ok (r, q) | Go q => Parse s q end).
Proof.
  intros Hs H63 Hp. rewrite Parse_eq by done.
  pose proof (Parse_step_ok s Hs _ eq_refl H63 p Hp) as H.
  destruct (parse_fuel s p) as [|f] eqn:Ef; [unfold parse_fuel in Ef; lia|].
  cbn [Parse_loop]. destruct (Parse_step s p) as [[q|r q]|e]; cbn [mbind result_bind]; [|done..].
  cbn in H. destruct H as (Hq & Ho & Hm). rewrite Parse_eq by done. symmetry.
  pose proof (pmeasure_fuel s _ p Hs eq_refl Hp).
  pose proof (Parse_loop_ok s _ f Hs eq_refl H63 q Hq) as Hok.
  apply Parse_loop_mono; [unfold parse_fuel in *; lia|].
  intros E. rewrite E in Hok. cbn in Hok. by discriminate Hok; lia.
Qed.

(** A rule of induction over the iterations of [Parse] on one input. *)
Lemma Parse_ind s (P : HttpRequestParser -> Prop) :
  seq_ok s -> zlen (seq_bytes s) < 2 ^ 63 ->
  (forall p, pinv (zlen (seq_bytes s)) p ->
     (forall q, pinv (zlen (seq_bytes s)) q -> options_ q = options_ p ->
        Parse_step s p = Ok (Go q) -> P q) -> P p) ->
  forall p, pinv (zlen (seq_bytes s)) p -> P p.
Proof.
  intros Hs H63 IH p. remember (pmeasure (zlen (seq_bytes s)) p) as m eqn:Em. revert p Em.
  induction m as [m IHm] using (well_founded_induction lt_wf). intros p -> Hp.
  apply IH; [done|]. intros q Hq Ho E.
  pose proof (Parse_step_ok s Hs _ eq_refl H63 p Hp) as H. rewrite E in H.
  destruct H as (_ & _ & Hm). by eapply IHm.
Qed.

Lemma Parse_peq t s p q :
  seq_ok s -> pinv (zlen (seq_bytes s)) p -> pinv (zlen (seq_bytes s)) q ->
  peq t p q -> res_eq t (Parse s p) (Parse s q).
Proof. intros Hs Hp Hq H. rewrite !Parse_eq by done. by apply Parse_loop_peq. Qed.

Section split.
Context (s s' : BufferSequence) (Hs : seq_ok s) (Hg : grows s s').
Let n := zlen (seq_bytes s).
Let n' := zlen (seq_bytes s').

Lemma grows_63 : n < 2 ^ 63.
Proof. pose proof (grows_len _ _ Hg). destruct Hg as (_ & ? & _). unfold n. lia. Qed.

(** Anything but a request for more input is unaffected by more input. *)
Lemma Parse_stable p :
  pinv n p ->
  match Parse s p with
  | Ok (r, q) => status r <> Incomplete -> Parse s' p = Ok (r, q)
  | Throw e => Parse s' p = Throw e
  end.
Proof.
  pose proof grows_63. destruct Hg as (Hs' & H63 & k & Hk).
  revert p. apply (Parse_ind s (fun p => match Parse s p with Ok _ => _ | Throw _ => _ end));
    [done..|]. intros p Hp IH.
  rewrite Parse_unfold, (Parse_unfold s') by
    (done || (apply (pinv_mono n); [by apply grows_len|done])).
  pose proof (Parse_step_extend s s' k Hs Hs' Hk H63 p Hp) as He.
  destruct (Parse_step s p) as [[q|r q]|e] eqn:E; cbn [extends step_final] in He;
    cbn [mbind result_bind].
  - rewrite He by done. cbn [mbind result_bind].
    pose proof (Parse_step_ok s Hs _ eq_refl H p Hp) as H'. rewrite E in H'.
    apply IH; [apply H'|apply H'|done].
  - intros Hr. by rewrite He.
  - by rewrite He.
Qed.

(** Going on from where [Parse] asked for more input is like starting over. *)
Lemma Parse_resume t p q r :
  (t -> n' <= maximum_header_bytes (options_ p)) ->
  pinv n p -> Parse s p = Ok (r, q) -> status r = Incomplete ->
  res_eq t (Parse s' q) (Parse s' p).
Proof.
  pose proof grows_63. pose proof (grows_len _ _ Hg). destruct Hg as (Hs' & H63 & k & Hk).
  intros Ht Hp. revert p Hp Ht. apply (Parse_ind s (fun p => _ -> _ -> _ -> _)); [done..|].
  intros p Hp IH Ht E Hr.
  pose proof (Parse_ok s p Hs H Hp) as Hok. rewrite E in Hok. cbn [parse_ok] in Hok.
  rewrite Hr in Hok. destruct Hok as (Ho & -> & Hq).
  assert (Hp' : pinv n' p) by (by apply (pinv_mono n)).
  assert (Hq' : pinv n' q) by (by apply (pinv_mono n)).
  rewrite Parse_unfold in E by done.
  pose proof (Parse_step_ok s Hs _ eq_refl H p Hp) as Hst.
  destruct (Parse_step s p) as [[p1|r1 p1]|e] eqn:E1; cbn [mbind result_bind] in E; [| |done].
  - pose proof (Parse_step_extend s s' k Hs Hs' Hk H63 p Hp) as He. rewrite E1 in He.
    rewrite (Parse_unfold s' p), (He I) by done. cbn [mbind result_bind].
    destruct Hst as (? & Ho1 & _). apply IH; try done. by rewrite Ho1.
  - simplify_eq. pose proof (Parse_step_resume s s' k Hs Hs' Hk t p q Ht Hp E1) as Heq.
    rewrite (Parse_unfold s' p), (Parse_unfold s' q) by done.
    pose proof (Parse_step_ok s' Hs' _ eq_refl H63 p Hp') as Hsp.
    pose proof (Parse_step_ok s' Hs' _ eq_refl H63 q Hq') as Hsq.
    destruct (Parse_step s' q) as [[q1|r1 q1]|e], (Parse_step s' p) as [[p1|r2 p1]|e'];
      cbn in Heq; try done; cbn [mbind result_bind].
    apply Parse_peq; [done|apply Hsq|apply Hsp|done].
Qed.
End split.

(** ** Feeding the parser

    [HttpSession] parses again after every read until the answer is not
    [Incomplete]; [feed] does so for the successive contents of the receive
    buffer. *)
Fixpoint feed (inputs : list BufferSequence) (p : HttpRequestParser)
    : result (HttpParseResult * HttpRequestParser) :=
  match inputs with
  | [] => Ok (HttpParseResult_default, p)
  | s :: inputs =>
      '(r, q) ← Parse s p;
      match status r with
      | Incomplete => feed inputs q
      | _ => Ok (r, q)
      end
  end.

Fixpoint growing (s : BufferSequence) (inputs : list BufferSequence) : Prop :=
  match inputs with
  | [] => True
  | s' :: inputs => grows s s' /\ growing s' inputs
  end.

(** The last of the inputs. *)
Fixpoint final (s : BufferSequence) (inputs : list BufferSequence) : BufferSequence :=
  match inputs with [] => s | s' :: inputs => final s' inputs end.

Lemma grows_refl s : seq_ok s -> zlen (seq_bytes s) < 2 ^ 63 -> grows s s.
Proof. intros ? ?. split; [done|]. split; [done|]. exists []. by rewrite app_nil_r. Qed.

Lemma grows_trans s1 s2 s3 : grows s1 s2 -> grows s2 s3 -> grows s1 s3.
Proof.
  intros (_ & _ & k & H) (? & ? & k' & H'). split; [done|]. split; [done|].
  exists (k ++ k'). by rewrite H', H, app_assoc.
Qed.

Lemma growing_final l s : seq_ok s -> zlen (seq_bytes s) < 2 ^ 63 -> growing s l ->
  grows s (final s l).
Proof.
  revert s. induction l as [|s' l IH]; intros s Hs H63 H; [by apply grows_refl|].
  destruct H as [Hg H]. eapply grows_trans; [done|]. apply IH; [apply Hg|apply Hg|done].
Qed.

Lemma res_eq_trans t a b c : res_eq t a b -> res_eq t b c -> res_eq t a c.
Proof.
  destruct a as [[r p]|e], b as [[r' p']|e'], c as [[r'' p'']|e'']; cbn; try done.
  - intros [-> ->] [-> ->]. done.
  - by intros ->.
Qed.

Lemma res_eq_refl t a : res_eq t a a.
Proof. destruct a as [[r p]|e]; cbn; done. Qed.

Lemma feed_resume t l : forall s p,
  seq_ok s -> zlen (seq_bytes s) < 2 ^ 63 -> growing s l -> pinv (zlen (seq_bytes s)) p ->
  (t -> zlen (seq_bytes (final s l)) <= maximum_header_bytes (options_ p)) ->
  res_eq t (feed (s :: l) p) (Parse (final s l) p).
Proof.
  induction l as [|s' l IH]; intros s p Hs H63 Hg Hp Ht.
  { cbn. pose proof (Parse_ok s p Hs H63 Hp) as Hok.
    destruct (Parse s p) as [[r q]|e]; [|done]. cbn in *.
    destruct (status r) eqn:Er; try done. by destruct Hok as (_ & -> & _). }
  pose proof Hg as [Hg1 Hg2].
  assert (Hgl : grows s (final s' l)) by (by apply (growing_final (s' :: l))).
  pose proof (Parse_stable s _ Hs Hgl p Hp) as Hst.
  cbn [feed final] in *. pose proof (Parse_ok s p Hs H63 Hp) as Hok.
  destruct (Parse s p) as [[r q]|e] eqn:E; cbn [mbind result_bind].
  2:{ rewrite Hst. by cbn. }
  destruct (decide (status r = Incomplete)) as [Er|Er].
  - cbn in Hok. rewrite Er in *. destruct Hok as (Ho & -> & Hq).
    eapply res_eq_trans; [apply (IH s' q)|eapply (Parse_resume s)]; try done.
    + apply Hg1.
    + apply Hg1.
    + apply (pinv_mono (zlen (seq_bytes s))); [by apply grows_len|done].
    + by rewrite Ho.
  - rewrite (Hst Er). destruct (status r); try done; apply res_eq_refl.
Qed.

(** ** The properties *)

(** A receive buffer that shows exactly [l]. *)
Definition input_of (l : list byte) : BufferSequence := BufferSequence_1 (view_of l).

Lemma input_of_ok l : zlen l < 2 ^ 64 -> seq_ok (input_of l) /\ seq_bytes (input_of l) = l.
Proof.
  intros H. destruct (BufferSequence_1_ok (view_of l)) as [Hok Hb].
  - cbn. zlia.
  - done.
  - split; [done|]. etransitivity; [apply Hb|]. cbn. by apply ztake_all.
Qed.

Lemma input_of_grows l k : zlen (l ++ k) < 2 ^ 63 -> grows (input_of l) (input_of (l ++ k)).
Proof.
  intros H. destruct (input_of_ok (l ++ k)) as [Hok Hb]; [lia|].
  destruct (input_of_ok l) as [_ Hb']; [rewrite zlen_app in H; zlia|].
  split; [done|]. rewrite Hb, Hb'. eauto.
Qed.

(** C1. However the bytes of a request arrive, the parser called again after
    every read gives the answer it gives to all the bytes at once: the same
    exception, or the same status, error, request and continue flag.  When the
    bytes received do not exceed the limit on header bytes, the number of
    consumed bytes and the next state of the parser are the same as well. *)
Theorem parse_split_independent s l p :
  seq_ok s -> zlen (seq_bytes s) < 2 ^ 63 -> growing s l -> pinv (zlen (seq_bytes s)) p ->
  match feed (s :: l) p, Parse (final s l) p with
  | Ok (r, q), Ok (r', q') =>
      status r = status r' /\ error r = error r' /\ request r = request r' /\
      expect_continue r = expect_continue r' /\
      (zlen (seq_bytes (final s l)) <= maximum_header_bytes (options_ p) ->
       r = r' /\ (state_ q <> ErrorState -> q = q'))
  | Throw e, Throw e' => e = e'
  | _, _ => False
  end.
Proof.
  intros Hs H63 Hg Hp.
  pose proof (feed_resume _ l s p Hs H63 Hg Hp (fun t => t)) as H.
  destruct (feed _ _) as [[r q]|e], (Parse _ _) as [[r' q']|e']; cbn in H; try done.
  destruct H as [(H1 & H2 & H3 & H4 & H5) [H6 H7]]. repeat (split; [done|]).
  intros Ht. split; [|auto]. destruct r, r'. cbn in *. f_equal; auto.
Qed.

Definition sample_options : HttpParserOptions := mkParserOptions 100 100 10 1000.

Definition sample_parser : HttpRequestParser :=
  mkParser sample_options RequestLine HttpRequest_default 0 0 0 0 0 0 0 false false false None_.

Lemma sample_pinv n : 0 <= n -> pinv n sample_parser.
Proof. intros H. apply pinv_fresh; [done|]. by split. Qed.

Definition sample_request : list byte :=
  $"POST /a HTTP/1.1" ++ CRLF ++ $"Host: x" ++ CRLF ++ $"Content-Length: 5" ++ CRLF ++ CRLF ++ $"hello".

Lemma parse_split_independent_witness :
  let ls := [ztake 10 sample_request; ztake 30 sample_request; sample_request] in
  match feed (map input_of ls) sample_parser, Parse (input_of sample_request) sample_parser with
  | Ok (r, _), Ok (r', _) => status r' = Complete_ /\ body (request r') = $"hello" /\ r = r'
  | _, _ => False
  end.
Proof.
  intros ls.
  assert (Hg : growing (input_of (ztake 10 sample_request))
    [input_of (ztake 30 sample_request); input_of sample_request]).
  { split; [|split; [|done]].
    - apply (input_of_grows (ztake 10 sample_request) (zslice 10 20 sample_request)). done.
    - apply (input_of_grows (ztake 30 sample_request) (zdrop 30 sample_request)). done. }
  pose proof (parse_split_independent (input_of (ztake 10 sample_request))
    [input_of (ztake 30 sample_request); input_of sample_request] sample_parser
    (proj1 (input_of_ok (ztake 10 sample_request) ltac:(vm_compute; reflexivity)))
    ltac:(vm_compute; reflexivity) Hg (sample_pinv _ (zlen_nonneg _))) as H.
  revert H. unfold ls. vm_compute. intros (_ & _ & _ & _ & H). 
  split; [reflexivity|split; [reflexivity|]]. apply H. done.
Defined.

(** An answer other than [Incomplete] is final: bytes that arrive later,
    for instance a pipelined request, do not change it. *)
Theorem parse_prefix_stable s s' p :
  seq_ok s -> grows s s' -> pinv (zlen (seq_bytes s)) p ->
  match Parse s p with
  | Ok (r, q) => status r <> Incomplete -> Parse s' p = Ok (r, q)
  | Throw e => Parse s' p = Throw e
  end.
Proof. intros. by apply Parse_stable. Qed.

Lemma parse_prefix_stable_witness :
  match Parse (input_of sample_request) sample_parser with
  | Ok (r, q) => status r = Complete_ /\
      Parse (input_of (sample_request ++ $"GET / HTT")) sample_parser = Ok (r, q)
  | Throw _ => False
  end.
Proof.
  assert (Hs : seq_ok (input_of sample_request)) by (apply input_of_ok; vm_compute; reflexivity).
  assert (Hg : grows (input_of sample_request) (input_of (sample_request ++ $"GET / HTT")))
    by (apply input_of_grows; vm_compute; reflexivity).
  pose proof (parse_prefix_stable _ _ sample_parser Hs Hg (sample_pinv _ (zlen_nonneg _))) as H.
  destruct (Parse (input_of sample_request) sample_parser) as [[r q]|e] eqn:E;
    [|revert E; vm_compute; discriminate].
  assert (Hr : status r = Complete_) by (revert E; vm_compute; intros E; inversion E; reflexivity).
  split; [exact Hr|]. apply H. rewrite Hr. discriminate.
Defined.

(** ** Where the parser departs from its intent *)

Definition chunked_head : list byte :=
  $"POST / HTTP/1.1" ++ CRLF ++ $"Host: x" ++ CRLF ++ $"Transfer-Encoding: chunked" ++ CRLF ++ CRLF.

(** The status, error, number of consumed bytes and body of an answer. *)
Definition summary (res : result (HttpParseResult * HttpRequestParser))
    : result (HttpParseStatus * HttpParseError * Z * list byte) :=
  '(r, _) ← res; Ok (status r, error r, consumed_bytes r, body (request r)).

(** A chunk size close to [2^64] wraps the end of the chunk and the size of the
    body around, so that the limit is not applied and [CopyTo] throws. *)
Theorem parse_chunk_size_overflow :
  summary (Parse (input_of (chunked_head ++ $"5" ++ CRLF ++ $"hello" ++ CRLF ++
    $"ffffffffffffffff" ++ CRLF ++ $"0" ++ CRLF ++ CRLF)) sample_parser) = Throw out_of_range.
Proof. vm_compute. reflexivity. Qed.

(** The two bytes after the data of a chunk are skipped whatever they are. *)
Theorem parse_chunk_end_unchecked :
  summary (Parse (input_of (chunked_head ++ $"5" ++ CRLF ++ $"helloXX0" ++ CRLF ++ CRLF))
    sample_parser) = Ok (Complete_, None_, 71, $"hello").
Proof. vm_compute. reflexivity. Qed.

(** A trailer line over the limit completes the request, and the number of
    bytes consumed for it depends on how the input was split. *)
Theorem parse_trailer_limit :
  let s := input_of (chunked_head ++ $"0" ++ CRLF ++ replicate 50 Byte.x61) in
  let s' := input_of (chunked_head ++ $"0" ++ CRLF ++ replicate 101 Byte.x61) in
  summary (Parse s' sample_parser) = Ok (Complete_, None_, 59, []) /\
  summary (feed [s; s'] sample_parser) = Ok (Complete_, None_, 109, []).
Proof. vm_compute. done. Qed.

(** Both a content length and a chunked body are accepted in this order, and
    rejected in the other one. *)
Theorem parse_length_and_chunked :
  let request hs := $"POST / HTTP/1.1" ++ CRLF ++ $"Host: x" ++ CRLF ++ hs ++ CRLF in
  let te := $"Transfer-Encoding: chunked" ++ CRLF in
  let cl := $"Content-Length: 9" ++ CRLF in
  let body := $"0" ++ CRLF ++ CRLF in
  summary (Parse (input_of (request (te ++ cl) ++ body)) sample_parser)
    = Ok (Complete_, None_, 80, []) /\
  summary (Parse (input_of (request (cl ++ te) ++ body)) sample_parser)
    = Ok (Error_, InvalidContentLength, 0, []).
Proof. vm_compute. done. Qed.
