(* ===== verification/HttpParserLimits.v ===== *)
(** * The limits of the HTTP/1.1 request parser

    [HttpParserTheory] bounds the body and the number of headers of an accepted
    request.  This file adds what the limits on the request line and on the
    header bytes mean for the request handed out: [plim] is carried through
    every iteration of [Parse] next to [pinv].  It also follows the parser
    through its whole life ([reached]): construction, any sequence of calls of
    [Parse] on any inputs, errors included, and [Reset]. *)

From S2P Require Import Prelude BufferSequence HttpMessage HttpRequestParser HttpParserTheory HttpParserSplit.

(** The bytes of the header lines on the wire without the optional white
    space: name, colon, value and CRLF of each. *)
Fixpoint header_size (hs : list HttpHeader) : Z :=
  match hs with
  | [] => 0
  | h :: hs => zlen (name h) + zlen (value h) + 3 + header_size hs
  end.

Lemma header_size_app hs k : header_size (hs ++ k) = header_size hs + header_size k.
Proof. induction hs as [|h hs IH]; cbn [app header_size]; lia. Qed.

(** The request line [method SP target SP HTTP/1.1] and the header lines of
    [r], which leave [slack] of the [hb] header bytes. *)
Definition head_fits (o : HttpParserOptions) (hb slack : Z) (r : HttpRequest) : Prop :=
  zlen (method_text r) + zlen (target r) + 10 <= maximum_request_line_bytes o /\
  header_size (headers r) + slack <= hb.

(** The limits in each state; the empty line after the headers takes 2 bytes. *)
Definition plim (p : HttpRequestParser) : Prop :=
  match state_ p with
  | RequestLine => headers (request_ p) = []
  | Headers => head_fits (options_ p) (header_bytes_ p) 0 (request_ p)
  | ErrorState => True
  | _ => head_fits (options_ p) (header_bytes_ p) 2 (request_ p)
  end.

(** A request that is handed out keeps all four limits. *)
Definition within_limits (o : HttpParserOptions) (r : HttpRequest) : Prop :=
  head_fits o (maximum_header_bytes o) 2 r /\
  zlen (headers r) <= maximum_header_count o /\ zlen (body r) <= maximum_body_bytes o.

(** What an iteration hands on. *)
Definition step_lim (p : HttpRequestParser) (r : result step) : Prop :=
  match r with
  | Ok (Go q) => plim q
  | Ok (Ret r q) =>
      plim q /\
      (status r = Complete_ ->
       head_fits (options_ p) (maximum_header_bytes (options_ p)) 2 (request r))
  | Throw _ => True
  end.

Definition body_state (p : HttpRequestParser) : Prop :=
  state_ p <> RequestLine /\ state_ p <> Headers /\ state_ p <> ErrorState.

Lemma plim_body p :
  body_state p -> plim p <-> head_fits (options_ p) (header_bytes_ p) 2 (request_ p).
Proof. intros (? & ? & ?). unfold plim. by destruct (state_ p). Qed.

Lemma plim_fail e p : plim (Fail_ e p).
Proof. by destruct p. Qed.

Lemma step_lim_fail p e q : step_lim p (Ok (ret_fail e q)).
Proof. cbn. split; [apply plim_fail|done]. Qed.

Lemma plim_set_scan p i : plim p -> plim (set_scan i p).
Proof. by destruct p. Qed.

Lemma scan_outcome_plim l p r lr q : scan_outcome l p r = (lr, q) -> plim p -> plim q.
Proof. destruct r; cbn; intros [= <- <-] ?; by destruct p. Qed.

(** The line parsers account for every byte they take. *)
Lemma ParseRequestLine_size line p q :
  zlen line < 2 ^ 63 -> ParseRequestLine line p = Ok (true, q) ->
  zlen (method_text (request_ q)) + zlen (target (request_ q)) + 10 = zlen line.
Proof.
  intros Hl. unfold ParseRequestLine.
  set (f := str_find SP line 0). set (g := if f =? npos then npos else _).
  case_match eqn:E1; [done|]. case_match; [done|]. case_match eqn:E3; [done|]. case_match; [done|].
  repeat match goal with H : (_ || _) = false |- _ => apply orb_false_iff in H as [? ?] end.
  apply negb_false_iff, bool_decide_eq_true in E3.
  repeat match goal with H : (_ =? _) = false |- _ => apply Z.eqb_neq in H end.
  match goal with H : (_ <=? _) = false |- _ => apply Z.leb_gt in H end.
  assert (Hf : 0 <= f < zlen line) by (apply str_find_bound; [lia|done]).
  assert (Hg : f + 1 <= g < zlen line).
  { subst g. rewrite (proj2 (Z.eqb_neq f npos)) in * by done. apply str_find_bound; [lia|done]. }
  apply (f_equal zlen) in E3. rewrite zlen_zslice in E3 by lia. change (zlen $"HTTP/1.1") with 8 in E3.
  set (t := zslice (f + 1) _ line) in *. assert (zlen t = g - f - 1) by (unfold t; zlia).
  rewrite (substr_ok t 0) by zlia. cbn [mbind result_bind]. case_match; [done|].
  destruct (Z.eqb_spec (str_find Byte.x3f t 0) npos) as [E|E]; cbn [negb].
  - intros [= <-]. destruct p; cbn. rewrite zlen_zslice; lia.
  - apply str_find_bound in E; [|lia]. rewrite substr_ok by lia. intros [= <-].
    destruct p; cbn. rewrite zlen_zslice; lia.
Qed.

Lemma zlen_Lowercase v : zlen (Lowercase v) = zlen v.
Proof. unfold Lowercase, zlen. by rewrite length_map. Qed.

Lemma ParseHeaderLine_size line p q :
  zlen line < 2 ^ 63 -> ParseHeaderLine line p = Ok (true, q) ->
  exists h, request_ q = push_header h (request_ p) /\
    zlen (name h) + zlen (value h) + 1 <= zlen line.
Proof.
  intros Hl. unfold ParseHeaderLine.
  destruct (Z.eqb_spec (str_find Byte.x3a line 0) npos) as [E|E]; cbn [orb]; [done|].
  case_match; [done|]. case_match; [done|].
  apply str_find_bound in E; [|lia]. rewrite substr_tail by lia. cbn [mbind result_bind].
  case_match; [done|]. intros [= <-]. eexists. split; [by destruct p|]. cbn.
  rewrite zlen_Lowercase. pose proof (zlen_Trim (zdrop (str_find Byte.x3a line 0 + 1) line)).
  rewrite zlen_zdrop in *. rewrite zlen_zslice; lia.
Qed.

(** ** Every iteration keeps the limits *)

Section step.
Context (s : BufferSequence) (Hs : seq_ok s).
Context (n : Z) (Hn : n = zlen (seq_bytes s)) (Hn63 : n < 2 ^ 63).

Lemma Complete_lim p0 p :
  options_ p = options_ p0 -> header_bytes_ p <= maximum_header_bytes (options_ p) ->
  head_fits (options_ p) (header_bytes_ p) 2 (request_ p) ->
  step_lim p0 ('(r, q) ← Complete s p; Ok (Ret r q)).
Proof.
  intros Ho Hb [H1 H2]. rewrite Ho in *. unfold Complete.
  destruct (negb (content_length_ p =? 0) && negb (has_chunked_ p)); cbn [mbind result_bind].
  - destruct (CopyTo s _ _) as [b|e]; cbn [mbind result_bind step_lim]; [|done].
    split; [done|]. intros _. destruct p. cbn in *. split; cbn; [done|lia].
  - cbn. split; [done|]. intros _. split; [done|lia].
Qed.

Lemma step_RequestLine_lim p :
  pinv n p -> state_ p = RequestLine -> plim p -> step_lim p (step_RequestLine s p).
Proof.
  intros Hp Est H. unfold step_RequestLine. rewrite (ReadLine_pinv s Hs n Hn _ _ Hp).
  cbn [mbind result_bind]. destruct (scan _ _ _ _) as [i| | |i] eqn:E; pcbn.
  - cbn. split; [by apply plim_set_scan|done].
  - apply step_lim_fail.
  - apply step_lim_fail.
  - destruct (SLine_bounds s n Hn Hn63 _ _ _ Hp E) as (?&?&Hmax&Hl). pose proof (pi_hb _ _ Hp).
    set (line := zslice _ _ _) in *. set (q := set_line_start _ _).
    assert (zlen line < 2 ^ 63) by (destruct Hp; lia).
    pose proof (ParseRequestLine_frame line q ltac:(done)) as Hf.
    pose proof (ParseRequestLine_size line q) as Hz.
    destruct Hf as [r [Hh Hb]|e|e r]; cbn [mbind result_bind negb step_lim];
      [|split; [apply plim_fail|done]..].
    specialize (Hz _ ltac:(done) eq_refl). unfold plim in H. rewrite Est in H.
    pose proof (pi_ls _ _ Hp). destruct p; cbn in *. unfold head_fits. rewrite Hh, H. cbn. lia.
Qed.

Lemma headers_done_lim p0 p :
  pinv n p -> options_ p = options_ p0 ->
  head_fits (options_ p) (header_bytes_ p) 2 (request_ p) ->
  step_lim p0 (headers_done s p).
Proof.
  intros Hp Ho H. pose proof (pi_hb _ _ Hp). unfold headers_done.
  destruct (FinalizeHeaders_frame p) as [cl hc ec ka Hcl|e q Hq];
    [apply Hp|destruct Hp; lia| |].
  2:{ cbn. split; [apply plim_fail|done]. }
  cbn [mbind result_bind negb]. set (q := set_body_offset _ _).
  assert (Hq : options_ q = options_ p /\ header_bytes_ q = header_bytes_ p /\
    head_fits (options_ q) (header_bytes_ q) 2 (request_ q)) by (by destruct p).
  clearbody q. destruct Hq as (Hoq & Hbq & Hq).
  assert (Hcomp : forall q', options_ q' = options_ q -> header_bytes_ q' = header_bytes_ q ->
    request_ q' = request_ q -> step_lim p0 ('(r, q) ← Complete s q'; Ok (Ret r q))).
  { intros q' E1 E2 E3. apply Complete_lim; [congruence|rewrite E1, E2, Hbq, Hoq; lia|].
    by rewrite E1, E2, E3. }
  assert (Hgo : forall st es, st = ChunkHead \/ st = Body ->
    plim (set_state st (set_expect_continue_sent es q)) /\ plim (set_state st q)).
  { intros st es [-> | ->]; by destruct q. }
  destruct (expect_continue_ q && negb (expect_continue_sent_ q)).
  - destruct (negb _ && _); [by apply Hcomp; destruct q|]. cbn. split; [|done].
    apply Hgo. destruct (has_chunked_ _); tauto.
  - destruct (has_chunked_ q); [apply (Hgo ChunkHead true); tauto|].
    destruct (_ =? _); [by apply Hcomp|]. apply (Hgo Body true). tauto.
Qed.

Lemma step_Headers_lim p :
  pinv n p -> state_ p = Headers -> plim p -> step_lim p (step_Headers s p).
Proof.
  intros Hp Est H. unfold step_Headers. rewrite (ReadLine_pinv s Hs n Hn _ _ Hp).
  cbn [mbind result_bind]. unfold headers_line.
  destruct (scan _ _ _ _) as [i| | |i] eqn:E; pcbn.
  - cbn. split; [by apply plim_set_scan|done].
  - apply step_lim_fail.
  - apply step_lim_fail.
  - unfold plim in H. rewrite Est in H. destruct H as [H1 H2].
    destruct (SLine_bounds s n Hn Hn63 _ _ _ Hp E) as (?&?&?&Hl).
    set (line := zslice _ _ _) in *. set (q := set_line_start _ _).
    replace (header_bytes_ q) with (header_bytes_ p) by (by destruct p).
    replace (options_ (set_header_bytes _ q)) with (options_ p) by (by destruct p).
    replace (options_ q) with (options_ p) by (by destruct p).
    replace (request_ (set_header_bytes _ q)) with (request_ p) by (by destruct p).
    pose proof (pi_hb _ _ Hp). pose proof (pi_mh _ _ Hp). pose proof (pi_ls _ _ Hp).
    rewrite (u64_small (maximum_header_bytes _ - _)) by lia.
    destruct (Z.ltb_spec (maximum_header_bytes (options_ p) - header_bytes_ p)
      (zlen line + 2)); [apply step_lim_fail|].
    rewrite (u64_small (_ + _)) by zlia.
    set (q1 := set_header_bytes _ q).
    destruct (Z.eqb_spec (zlen line) 0).
    { apply headers_done_lim; [|by destruct p|].
      - unfold q1, q. clear q1 q. clearbody line. destruct Hp. destruct p; pcbn. subst state_.
        zlen_pose. pinv_solve.
      - destruct p. cbn in *. split; cbn; lia. }
    destruct (Z.leb_spec (maximum_header_count (options_ p)) (zlen (headers (request_ p))));
      [apply step_lim_fail|].
    assert (Hl63 : zlen line < 2 ^ 63) by (destruct Hp; lia).
    pose proof (ParseHeaderLine_frame line q1 Hl63) as Hf.
    pose proof (ParseHeaderLine_size line q1) as Hz.
    destruct Hf as [r _|e|e r]; cbn [mbind result_bind negb step_lim];
      [|split; [apply plim_fail|done]..].
    destruct (Hz _ Hl63 eq_refl) as (h & E1 & Hsz).
    replace (request_ (set_request r q1)) with r in E1 by (by destruct q1). subst r.
    unfold plim, q1, q. destruct p. cbn in *. rewrite Est. unfold head_fits. cbn.
    rewrite header_size_app. cbn. lia.
Qed.

Lemma step_body_lim p :
  pinv n p -> body_state p -> plim p -> step_lim p (Parse_step s p).
Proof.
  intros Hp Hb H. pose proof (pi_hb _ _ Hp) as Hhb. pose proof H as Hf.
  apply plim_body in Hf; [|done].
  assert (Hcomp : step_lim p ('(r, q) ← Complete s p; Ok (Ret r q))).
  { apply Complete_lim; [done|lia|done]. }
  destruct Hb as (Hb1 & Hb2 & Hb3).
  unfold Parse_step. destruct (state_ p) eqn:Est; try done; clear Hb1 Hb2 Hb3.
  - unfold step_Body. case_match; [apply step_lim_fail|]. case_match; [|done].
    cbn. done.
  - unfold step_ChunkHead. rewrite (ReadLine_pinv s Hs n Hn _ _ Hp).
    cbn [mbind result_bind]. destruct (scan _ _ _ _) as [i| | |i]; pcbn;
      [cbn; split; [by apply plim_set_scan|done]|apply step_lim_fail|apply step_lim_fail|].
    destruct (SkipChunkExtension _) as [w|]; cbn [mbind result_bind]; [|done].
    destruct (ParseHexSize w); [|apply step_lim_fail].
    destruct p. cbn in *. by case_match.
  - unfold step_ChunkBody. case_match; [cbn; done|]. case_match; [apply step_lim_fail|].
    destruct (CopyTo s _ _); cbn [mbind result_bind]; [|done]. by destruct p.
  - unfold step_ChunkTrailer. rewrite (ReadLine_pinv s Hs n Hn _ _ Hp).
    cbn [mbind result_bind]. destruct (scan _ _ _ _) as [i| | |i]; pcbn;
      [cbn; split; [by apply plim_set_scan|done]|apply step_lim_fail|..].
    + destruct p. cbn in *. by subst.
    + destruct p. cbn in *. subst. by case_match.
Qed.

Lemma Parse_step_lim p : pinv n p -> plim p -> step_lim p (Parse_step s p).
Proof.
  intros Hp H. destruct (state_ p) eqn:Est.
  3-7: apply step_body_lim; [done|unfold body_state; by rewrite Est|done].
  - unfold Parse_step. rewrite Est. by apply step_RequestLine_lim.
  - unfold Parse_step. rewrite Est. by apply step_Headers_lim.
  - by destruct (pi_state _ _ Hp).
Qed.
End step.

(** ** The loop *)

Lemma Parse_loop_lim s n fuel : seq_ok s -> n = zlen (seq_bytes s) -> n < 2 ^ 63 ->
  forall p r q, pinv n p -> plim p -> Parse_loop fuel s p = Ok (r, q) ->
  plim q /\
  (status r = Complete_ ->
   head_fits (options_ p) (maximum_header_bytes (options_ p)) 2 (request r)).
Proof.
  intros Hs Hn Hn63. induction fuel as [|fuel IH]; intros p r q Hp Hl; [done|].
  cbn [Parse_loop]. pose proof (Parse_step_ok s Hs n Hn Hn63 p Hp) as H.
  pose proof (Parse_step_lim s Hs n Hn Hn63 p Hp Hl) as Hlim.
  destruct (Parse_step s p) as [[p1|r1 p1]|e]; cbn [step_ok step_lim mbind result_bind] in *;
    [| |done].
  - destruct H as (Hp1 & Ho & _). rewrite <- Ho. by apply IH.
  - by intros [= <- <-].
Qed.

(** An input that is shorter than what was read before is an error. *)
Lemma Parse_shrunk s m p :
  seq_ok s -> pinv m p -> ~ pinv (zlen (seq_bytes s)) p ->
  Parse s p = Ok (error_result InvalidRequestLine, Fail_ InvalidRequestLine p).
Proof.
  intros Hs Hp Hn. unfold Parse. rewrite decide_False by apply Hp. rewrite (seq_size_spec _ Hs).
  destruct (Z.ltb_spec (zlen (seq_bytes s)) (scan_offset_ p)); [done|].
  destruct Hn. destruct Hp. by split.
Qed.

(** ** The life of a parser *)

Inductive reached (o : HttpParserOptions) : HttpRequestParser -> Prop :=
  | reached_make p : HttpRequestParser_make o = Ok p -> reached o p
  | reached_Parse p s r q :
      reached o p -> seq_ok s -> zlen (seq_bytes s) < 2 ^ 63 -> Parse s p = Ok (r, q) ->
      reached o q
  | reached_Reset p : reached o p -> reached o (Reset p).

(** The limits are values of [std::size_t]. *)
Definition size_limits (o : HttpParserOptions) : Prop :=
  0 <= maximum_request_line_bytes o < 2 ^ 64 /\ 0 <= maximum_header_bytes o < 2 ^ 64 /\
  0 <= maximum_header_count o < 2 ^ 64 /\ 0 <= maximum_body_bytes o < 2 ^ 64.

(** The state of a reached parser. *)
Definition parser_state (o : HttpParserOptions) (p : HttpRequestParser) : Prop :=
  options_ p = o /\ options_ok o /\
  (state_ p = ErrorState \/ exists m, pinv m p /\ plim p).

(** What a call of [Parse] on [n] bytes answers. *)
Definition answer_ok (n : Z) (o : HttpParserOptions) (p : HttpRequestParser)
    (res : result (HttpParseResult * HttpRequestParser)) : Prop :=
  match res with
  | Throw e => e = out_of_range /\ state_ p <> ErrorState
  | Ok (r, q) =>
      options_ q = o /\
      match status r with
      | Incomplete => r = HttpParseResult_default /\ pinv n q /\ plim q
      | HeadersComplete => pinv n q /\ plim q
      | Complete_ =>
          within_limits o (request r) /\ 0 < consumed_bytes r <= n /\
          HttpRequestParser_make o = Ok q
      | Error_ =>
          r = error_result (last_error_ q) /\ state_ q = ErrorState /\
          (state_ p = ErrorState -> q = p)
      end
  end.

Lemma Parse_answer s o p :
  seq_ok s -> zlen (seq_bytes s) < 2 ^ 63 -> parser_state o p ->
  answer_ok (zlen (seq_bytes s)) o p (Parse s p).
Proof.
  intros Hs H63 (<- & Ho & [Est|(m & Hp & Hl)]).
  { unfold Parse. rewrite decide_True by done. cbn. done. }
  assert (Hne : state_ p <> ErrorState) by apply Hp.
  assert (Hd : pinv (zlen (seq_bytes s)) p \/ ~ pinv (zlen (seq_bytes s)) p).
  { destruct (decide (scan_offset_ p <= zlen (seq_bytes s))).
    - left. destruct Hp. by split.
    - right. by intros []. }
  destruct Hd as [Hpn|Hpn].
  2:{ rewrite (Parse_shrunk s m) by done. destruct p. cbn. done. }
  pose proof (Parse_ok s p Hs H63 Hpn) as Hok. pose proof (make_ok _ Ho) as (q0 & Emk & ->).
  rewrite Parse_eq in * by done.
  pose proof (Parse_loop_lim s _ (parse_fuel s p) Hs eq_refl H63 p) as Hlim.
  destruct (Parse_loop _ s p) as [[r q]|e]; cbn [parse_ok answer_ok] in *; [|done].
  destruct (Hlim _ _ Hpn Hl eq_refl) as [Hq Hr]. destruct Hok as [Hoq Hok].
  split; [done|]. destruct (status r); [tauto| |tauto|tauto].
  destruct Hok as [(Hb & Hc & Hco) ->]. unfold within_limits. rewrite Z.max_r in Hc by (destruct Ho; lia).
  split; [split; [by apply Hr|done]|]. split; [done|]. by rewrite Emk, <- Hoq.
Qed.

Lemma make_options o p : size_limits o -> HttpRequestParser_make o = Ok p -> options_ok o.
Proof.
  intros (?&?&?&?). unfold HttpRequestParser_make. case_match eqn:E; [done|]. intros _.
  apply orb_false_iff in E as [[?%Z.eqb_neq ?%Z.ltb_ge]%orb_false_iff ?%Z.eqb_neq]. split; lia.
Qed.

Lemma fresh_state o p : options_ok o -> HttpRequestParser_make o = Ok p -> parser_state o p.
Proof.
  intros Ho E. destruct (make_ok _ Ho) as (q & E' & ->).
  rewrite E in E'. injection E' as ->.
  split; [done|]. split; [done|]. right. exists 0. split; [by apply pinv_fresh|done].
Qed.

Lemma reached_state o p : size_limits o -> reached o p -> parser_state o p.
Proof.
  intros Hs. induction 1 as [p E|p s r q H IH Hok H63 E|p H IH].
  - apply fresh_state; [by eapply make_options|done].
  - pose proof (Parse_answer s o p Hok H63 IH) as Ha. rewrite E in Ha. destruct Ha as [Ho Ha].
    destruct IH as (_ & Hoo & _).
    destruct (status r); [| |split; [done|]; split; [done|]; right; eexists; exact Ha|
      split; [done|]; split; [done|]; left; apply Ha].
    + split; [done|]. split; [done|]. right. destruct Ha as (_ & ?). eauto.
    + apply fresh_state; [done|]. apply Ha.
  - destruct IH as (Ho & Hoo & _). apply fresh_state; [done|].
    destruct (make_ok _ Hoo) as (q & E' & ->). unfold Reset. by rewrite Ho.
Qed.


