(* ===== verification/ProtocolSession.v ===== *)
(** * The boundaries of a protocol session

    The types through which a session talks to the transport below it and to
    the executor above it: [ProtocolFeedStatus] and [ProtocolFeedResult] of
    [protocol_session.h], and [SubmitStatus] of [executor.h]. *)

From S2P Require Import Prelude.

Inductive ProtocolFeedStatus :=
  | FeedReady
  | FeedBufferLimitExceeded
  | FeedProtocolError
  | FeedHandlerNotFound
  | FeedExecutorStopped
  | FeedExecutorSaturated
  | FeedCloseRequired
  | FeedStopped.

#[export] Instance ProtocolFeedStatus_eq_dec : EqDecision ProtocolFeedStatus.
Proof. solve_decision. Defined.

Record ProtocolFeedResult := mkFeedResult {
  feed_status : ProtocolFeedStatus;
  messages_dispatched : Z;
  buffered_bytes : Z;
}.

(** The answer of an executor to a task. *)
Inductive SubmitStatus := Accepted | Stopped | Saturated.

#[export] Instance SubmitStatus_eq_dec : EqDecision SubmitStatus.
Proof. solve_decision. Defined.
