(* ===== verification/HttpRouter.v ===== *)
(** * The HTTP router

    [HttpRouter] of [http_router.h] and [http_router.cpp]: registration of
    handlers and the dispatch of a request.  A handler is application code, a
    function that returns a response or throws.  [Dispatch] posts a task to an
    executor; the model gives the status of the post, which the executor
    decides, and the response that the task sends when it runs. *)

From S2P Require Import Prelude HttpMessage ProtocolSession.

Definition HttpHandler : Type := HttpRequest -> result HttpResponse.

Inductive HttpDispatchStatus := DispatchAccepted | ExecutorStopped | ExecutorSaturated.

#[export] Instance HttpDispatchStatus_eq_dec : EqDecision HttpDispatchStatus.
Proof. solve_decision. Defined.

Definition ToDispatchStatus (status : SubmitStatus) : HttpDispatchStatus :=
  match status with
  | Accepted => DispatchAccepted
  | Stopped => ExecutorStopped
  | Saturated => ExecutorSaturated
  end.

(** An empty [std::function] is [None]. *)
Record MethodHandlers := mkHandlers {
  get : option HttpHandler;
  post : option HttpHandler;
  put : option HttpHandler;
  delete_ : option HttpHandler;
}.

Definition MethodHandlers_default : MethodHandlers := mkHandlers None None None None.

(** [routes_]; the mutex makes every call one step. *)
Abbreviation HttpRouter := (gmap (list byte) MethodHandlers).

(** The slot of a method, and an assignment to it; there is none for the
    methods that the router does not serve. *)
Definition slot (method : HttpMethod) (h : MethodHandlers) : option (option HttpHandler) :=
  match method with
  | Get => Some (get h)
  | Post => Some (post h)
  | Put => Some (put h)
  | Delete_ => Some (delete_ h)
  | _ => None
  end.

Definition set_slot (method : HttpMethod) (f : HttpHandler) (h : MethodHandlers) : MethodHandlers :=
  match method with
  | Get => mkHandlers (Some f) (post h) (put h) (delete_ h)
  | Post => mkHandlers (get h) (Some f) (put h) (delete_ h)
  | Put => mkHandlers (get h) (post h) (Some f) (delete_ h)
  | Delete_ => mkHandlers (get h) (post h) (put h) (Some f)
  | _ => h
  end.

Definition Register (method : HttpMethod) (path : list byte) (handler : option HttpHandler)
    (routes_ : HttpRouter) : result (bool * HttpRouter) :=
  if decide (method = Unsupported) then Throw invalid_argument
  else if (zlen path =? 0) || negb (bool_decide (front path = Some Byte.x2f)) then Throw invalid_argument
  else
    match handler with
    | None => Throw invalid_argument
    | Some f =>
        (* [routes_\[path\]] creates the entry *)
        let handlers := default MethodHandlers_default (routes_ !! path) in
        match slot method handlers with
        | Some None => Ok (true, <[path := set_slot method f handlers]> routes_)
        | _ => Ok (false, <[path := handlers]> routes_)
        end
    end.

(** [if (handlers.x) { if (!allow.empty()) allow += ", "; allow += name; }] *)
Definition append_allow (present : bool) (name allow : list byte) : list byte :=
  if present then (if zlen allow =? 0 then allow else allow ++ $", ") ++ name else allow.

Definition allow_value (h : MethodHandlers) : list byte :=
  append_allow (bool_decide (is_Some (delete_ h))) $"DELETE"
    (append_allow (bool_decide (is_Some (put h))) $"PUT"
      (append_allow (bool_decide (is_Some (post h))) $"POST"
        (if bool_decide (is_Some (get h)) then $"GET" else []))).

(** [MakeTextResponse] with its default content type. *)
Definition text_response (code : Z) (text : list byte) : HttpResponse :=
  MakeTextResponse code text text_plain_utf8.

Definition MethodNotAllowed (h : MethodHandlers) : HttpResponse :=
  let r := text_response 405 ($"method not allowed" ++ [LF]) in
  mkResponse (status_code r) (reason_phrase r)
    (resp_headers r ++ [mkHeader $"Allow" (allow_value h)]) (resp_body r) (close_connection r).

(** The handler chosen under the lock, or the fallback response. *)
Definition route_request (routes_ : HttpRouter) (request : HttpRequest)
    : option HttpHandler * HttpResponse :=
  match routes_ !! path request with
  | None => (None, text_response 404 ($"not found" ++ [LF]))
  | Some h =>
      let handler :=
        match method request with
        | Get | Head => get h
        | Post => post h
        | Put => put h
        | Delete_ => delete_ h
        | _ => None
        end in
      (handler, match handler with None => MethodNotAllowed h | Some _ => HttpResponse_default end)
  end.

Definition set_close (b : bool) (r : HttpResponse) : HttpResponse :=
  mkResponse (status_code r) (reason_phrase r) (resp_headers r) (resp_body r) b.

(** The task: what it sends when it runs. *)
Definition dispatch_task (routed : option HttpHandler * HttpResponse) (request : HttpRequest)
    (close : bool) : HttpResponse :=
  let response :=
    match routed.1 with
    | None => routed.2
    | Some handler =>
        match handler request with
        | Ok response => response
        | Throw _ => set_close true (text_response 500 ($"internal server error" ++ [LF]))
        end
    end in
  let response := set_close (close_connection response || close) response in
  if decide (method request = Head)
  then mkResponse (status_code response) (reason_phrase response) (resp_headers response) []
         (close_connection response)
  else response.

(** [has_executor] and [has_sender]: the arguments are not null; [status] is
    the answer of the executor. *)
Definition Dispatch (routes_ : HttpRouter) (request : HttpRequest) (has_executor has_sender : bool)
    (status : SubmitStatus) (close : bool) : result (HttpDispatchStatus * HttpResponse) :=
  if negb has_executor then Throw invalid_argument
  else if negb has_sender then Throw invalid_argument
  else Ok (ToDispatchStatus status, dispatch_task (route_request routes_ request) request close).

(** ** The properties *)

(** The handler registered for a method on a path. *)
Definition registered (routes_ : HttpRouter) (m : HttpMethod) (p : list byte) : option HttpHandler :=
  h ← routes_ !! p; s ← slot m h; s.

(** The method whose handler serves a request. *)
Definition served_by (m : HttpMethod) : HttpMethod :=
  match m with Head => Get | m => m end.

Lemma slot_set_slot m m' f h : slot m h = Some None ->
  slot m' (set_slot m f h) = if decide (m' = m) then Some (Some f) else slot m' h.
Proof. by destruct m, m'. Qed.

(** Registering makes a handler available for exactly its method and path:
    the call succeeds if the method is one of the four that are served and has
    no handler yet, no other registration changes, and a failed call changes
    none. *)
Theorem router_register routes_ m p f :
  m <> Unsupported -> front p = Some Byte.x2f ->
  exists b routes', Register m p (Some f) routes_ = Ok (b, routes') /\
    (b = true <-> In m [Get; Post; Put; Delete_] /\ registered routes_ m p = None) /\
    forall m' p', registered routes' m' p' =
      if decide (b = true /\ m' = m /\ p' = p) then Some f else registered routes_ m' p'.
Proof.
  intros Hm Hp. unfold Register. rewrite decide_False by done.
  assert (Hpath : (zlen p =? 0) || negb (bool_decide (front p = Some Byte.x2f)) = false).
  { rewrite bool_decide_eq_true_2 by done. destruct p; [done|]. rewrite zlen_cons.
    rewrite (proj2 (Z.eqb_neq _ _)) by zlia. done. }
  rewrite Hpath. set (h := default MethodHandlers_default (routes_ !! p)).
  assert (Hreg : forall m', registered routes_ m' p = s ← slot m' h; s).
  { intros m'. unfold registered, h. destruct (routes_ !! p); [done|]. by destruct m'. }
  assert (Hins : forall h' m' p', registered (<[p := h']> routes_) m' p' =
    if decide (p' = p) then s ← slot m' h'; s else registered routes_ m' p').
  { intros h' m' p'. unfold registered. destruct (decide (p' = p)) as [->|]; [by rewrite lookup_insert_eq|].
    by rewrite lookup_insert_ne by done. }
  assert (Hfail : forall b', b' = false -> slot m h <> Some None ->
    (b' = true <-> In m [Get; Post; Put; Delete_] /\ registered routes_ m p = None) /\
    forall m' p', registered (<[p := h]> routes_) m' p' =
      if decide (b' = true /\ m' = m /\ p' = p) then Some f else registered routes_ m' p').
  { intros b' -> Hs. split.
    - split; [done|]. intros [Hin Hn]. rewrite Hreg in Hn.
      repeat destruct Hin as [<-|Hin]; try done; cbn in *; by rewrite Hn in Hs.
    - intros m' p'. rewrite (decide_False (P := _ /\ _)) by (by intros [? _]). rewrite Hins.
      destruct (decide (p' = p)) as [->|]; [by rewrite Hreg|done]. }
  destruct (slot m h) as [[g|]|] eqn:Es.
  - exists false, (<[p := h]> routes_). split; [done|]. by apply Hfail.
  - exists true, (<[p := set_slot m f h]> routes_). split; [done|]. split.
    + split; [|done]. intros _. rewrite Hreg, Es. split; [destruct m; cbn in *; tauto || done|done].
    + intros m' p'. rewrite Hins, (slot_set_slot m m' f h Es).
      destruct (decide (p' = p)) as [->|]; [|by rewrite decide_False by tauto].
      destruct (decide (m' = m)) as [->|]; [by rewrite decide_True by tauto|].
      rewrite decide_False by tauto. by rewrite Hreg.
  - exists false, (<[p := h]> routes_). split; [done|]. by apply Hfail.
Qed.

Lemma router_register_witness :
  exists b routes', Register Get $"/a" (Some (fun _ => Ok HttpResponse_default)) ∅ = Ok (b, routes') /\
    (b = true <-> In Get [Get; Post; Put; Delete_] /\ registered ∅ Get $"/a" = None) /\
    forall m' p', registered routes' m' p' =
      if decide (b = true /\ m' = Get /\ p' = $"/a") then Some (fun _ => Ok HttpResponse_default)
      else registered ∅ m' p'.
Proof.
  apply (router_register ∅ Get $"/a" (fun _ => Ok HttpResponse_default)); [discriminate|reflexivity].
Defined.

(** What is sent for a dispatched request: the response of the handler for
    its path and method (the GET handler for HEAD), 500 with the connection
    closed if the handler throws, 404 for an unknown path and 405 with an Allow
    header for a known path without the method; a HEAD response never has a
    body, and the connection is closed whenever the caller asked for it. *)
Theorem router_dispatch routes_ request status close :
  exists response, Dispatch routes_ request true true status close = Ok (ToDispatchStatus status, response) /\
    (close = true -> close_connection response = true) /\
    (method request = Head -> resp_body response = []) /\
    match registered routes_ (served_by (method request)) (path request) with
    | Some handler =>
        match handler request with
        | Ok r => status_code response = status_code r /\ resp_headers response = resp_headers r /\
            (method request <> Head -> resp_body response = resp_body r) /\
            close_connection response = close_connection r || close
        | Throw _ => status_code response = 500 /\ close_connection response = true
        end
    | None =>
        match routes_ !! path request with
        | None => status_code response = 404
        | Some h => status_code response = 405 /\
            In (mkHeader $"Allow" (allow_value h)) (resp_headers response)
        end
    end.
Proof.
  eexists. split; [done|]. unfold dispatch_task, route_request, registered.
  split; [|split].
  - intros ->. case_decide; cbn; apply orb_true_r.
  - intros E. by rewrite decide_True.
  - destruct (routes_ !! path request) as [h|]; cbn [option_bind mbind fst snd].
    2:{ case_decide; done. }
    destruct (method request) eqn:Em; cbn [served_by slot option_bind mbind];
      [destruct (get h) as [g|]|destruct (post h) as [g|]|destruct (put h) as [g|]
      |destruct (delete_ h) as [g|]| |destruct (get h) as [g|]| |];
      cbn [fst snd]; try (destruct (g request) as [r|e]);
      try rewrite (decide_True (P := Head = Head)) by done; try rewrite decide_False by done;
      cbn; tauto.
Qed.

(** A path that was only registered for a method the router does not serve is
    known from then on: 405 with an empty Allow header instead of 404. *)
Theorem router_empty_route f :
  match Register Patch $"/a" (Some f) ∅ with
  | Ok (b, routes_) => b = false /\
      registered routes_ Get $"/a" = None /\ routes_ !! $"/a" = Some MethodHandlers_default /\
      allow_value MethodHandlers_default = []
  | Throw _ => False
  end.
Proof. done. Qed.
