(* ===== verification/HttpResponseEncoder.v ===== *)
(** * The HTTP/1.1 response encoder

    [HttpResponseEncoder] of [http_response_encoder.h] and
    [http_response_encoder.cpp]: validation of the headers and construction of
    the head of a response.  Application data cannot break out of its line. *)

From S2P Require Import Prelude HttpMessage HttpRequestParser.

Record HttpResponseEncoderOptions := mkEncoderOptions {
  server_name : list byte;
  encoder_maximum_header_bytes : Z;
}.

Definition HttpResponseEncoderOptions_default : HttpResponseEncoderOptions :=
  mkEncoderOptions $"iocp-http-runtime" (32 * 1024).

Record EncodedHttpResponse := mkEncoded {
  head : list byte;
  encoded_body : list byte;
  encoded_close : bool;
}.

(** The encoder has its own copies of [IsTokenCharacter] and [Lowercase], equal
    to those of the parser; a value byte is forbidden by the same condition. *)
Definition ValidateHeader (h : HttpHeader) : result unit :=
  if zlen (name h) =? 0 then Throw invalid_argument
  else if negb (forallb IsTokenCharacter (name h)) then Throw invalid_argument
  else if existsb forbidden_value_byte (value h) then Throw invalid_argument
  else Ok tt.

Definition HttpResponseEncoder_make (o : HttpResponseEncoderOptions)
    : result HttpResponseEncoderOptions :=
  if (zlen (server_name o) =? 0) || (encoder_maximum_header_bytes o =? 0) then Throw invalid_argument
  else Ok o.

(** [name + ": " + value + "\r\n"] *)
Definition header_line (n v : list byte) : list byte := n ++ $": " ++ v ++ CRLF.

(** The first loop: [head] and [has_server]. *)
Fixpoint append_headers (hs : list HttpHeader) (head : list byte) (has_server : bool)
    : result (list byte * bool) :=
  match hs with
  | [] => Ok (head, has_server)
  | h :: hs =>
      _ ← ValidateHeader h;
      let lname := Lowercase (name h) in
      if bool_decide (lname = $"content-length") || bool_decide (lname = $"connection")
      then append_headers hs head has_server
      else append_headers hs (head ++ header_line (name h) (value h))
             (has_server || bool_decide (lname = $"server"))
  end.

Definition Encode (o : HttpResponseEncoderOptions) (response : HttpResponse)
    : result EncodedHttpResponse :=
  if (status_code response <? 100) || (599 <? status_code response) then Throw invalid_argument
  else
    let reason := if zlen (reason_phrase response) =? 0
                  then DefaultReasonPhrase (status_code response) else reason_phrase response in
    if negb (str_find CR reason 0 =? npos) || negb (str_find LF reason 0 =? npos)
    then Throw invalid_argument
    else
      let head := $"HTTP/1.1 " ++ to_string (status_code response) ++ $" " ++ reason ++ CRLF in
      '(head, has_server) ← append_headers (resp_headers response) head false;
      let has_transfer_encoding :=
        existsb (fun h => bool_decide (Lowercase (name h) = $"transfer-encoding")) (resp_headers response) in
      let head := if has_server : bool then head else head ++ header_line $"Server" (server_name o) in
      let head :=
        if has_transfer_encoding then head ++ header_line $"Transfer-Encoding" $"chunked"
        else head ++ header_line $"Content-Length" (to_string (zlen (resp_body response))) in
      let head := head ++ header_line $"Connection"
                    (if close_connection response then $"close" else $"keep-alive") in
      let head := head ++ CRLF in
      if encoder_maximum_header_bytes o <? zlen head then Throw length_error
      else Ok (mkEncoded (BytesFromString head) (resp_body response) (close_connection response)).

(** ** The lines of a head *)

(** Text without a line break. *)
Definition plain (l : list byte) : Prop := (CR ∉ l) /\ (LF ∉ l).

Lemma plain_app l k : plain l -> plain k -> plain (l ++ k).
Proof. intros [? ?] [? ?]. split; apply not_elem_of_app; tauto. Qed.

Definition join_lines (ls : list (list byte)) : list byte := concat (map (fun l => l ++ CRLF) ls).

Lemma join_lines_app ls ks : join_lines (ls ++ ks) = join_lines ls ++ join_lines ks.
Proof. unfold join_lines. by rewrite map_app, concat_app. Qed.

Lemma join_lines_cons l ls : join_lines (l :: ls) = l ++ CRLF ++ join_lines ls.
Proof. unfold join_lines. cbn [map concat]. by rewrite <- app_assoc. Qed.

Lemma plain_bool l : forallb (fun b => negb (bool_decide (b = CR)) && negb (bool_decide (b = LF))) l = true ->
  plain l.
Proof.
  intros H. rewrite forallb_forall in H.
  split; intros Hin%list_elem_of_In; apply H in Hin;
    rewrite andb_true_iff, !negb_true_iff, !bool_decide_eq_false in Hin; tauto.
Qed.

Lemma plain_of (P : byte -> bool) l : P CR = false -> P LF = false -> forallb P l = true -> plain l.
Proof.
  intros H1 H2 H. rewrite forallb_forall in H.
  split; intros Hin%list_elem_of_In; apply H in Hin; congruence.
Qed.

Lemma plain_value l : existsb forbidden_value_byte l = false -> plain l.
Proof.
  intros H. apply (plain_of (fun b => negb (forbidden_value_byte b))); [done..|].
  clear -H. induction l as [|b l IH]; [done|]. cbn in *. apply orb_false_iff in H as [-> H]. by apply IH.
Qed.

Lemma plain_find l : str_find CR l 0 = npos -> str_find LF l 0 = npos -> zlen l < npos -> plain l.
Proof.
  intros H1 H2 Hl. split; intros Hin%list_elem_of_In;
    [destruct (str_find_cases CR l 0) as [[_ H]|[H _]]|destruct (str_find_cases LF l 0) as [[_ H]|[H _]]];
    try lia; by apply H.
Qed.

Lemma ValidateHeader_plain h : ValidateHeader h = Ok tt -> plain (name h) /\ plain (value h) /\ name h <> [].
Proof.
  unfold ValidateHeader. destruct (Z.eqb_spec (zlen (name h)) 0) as [|Hn]; [done|].
  destruct (forallb IsTokenCharacter (name h)) eqn:E1; [|done]. cbn [negb].
  destruct (existsb forbidden_value_byte (value h)) eqn:E2; [done|]. intros _.
  split; [by apply (plain_of IsTokenCharacter)|]. split; [by apply plain_value|].
  intros E. rewrite E in Hn. done.
Qed.

(** The header line of a response, without its line break. *)
Definition line_of (h : HttpHeader) : list byte := name h ++ $": " ++ value h.

Lemma header_line_of h : header_line (name h) (value h) = line_of h ++ CRLF.
Proof. unfold header_line, line_of. by rewrite <- !app_assoc. Qed.

(** Headers of the application that are copied. *)
Definition copied (h : HttpHeader) : bool :=
  negb (bool_decide (Lowercase (name h) = $"content-length") ||
        bool_decide (Lowercase (name h) = $"connection")).

Lemma append_headers_spec hs : forall hd b hd' b', append_headers hs hd b = Ok (hd', b') ->
  hd' = hd ++ join_lines (map line_of (List.filter copied hs)) /\
  Forall (fun h => plain (line_of h)) hs /\
  b' = b || existsb (fun h => copied h && bool_decide (Lowercase (name h) = $"server")) hs.
Proof.
  induction hs as [|h hs IH]; intros hd b hd' b' H; cbn [append_headers] in H.
  { simplify_eq. by rewrite app_nil_r, orb_false_r. }
  destruct (ValidateHeader h) as [[]|] eqn:Ev; [|done]. cbn [mbind result_bind] in H.
  destruct (ValidateHeader_plain h Ev) as (Hn & Hv & _).
  assert (Hp : plain (line_of h)).
  { apply plain_app; [done|]. apply plain_app; [by apply plain_bool|done]. }
  assert (Hc : copied h = negb (bool_decide (Lowercase (name h) = $"content-length") ||
                                bool_decide (Lowercase (name h) = $"connection"))) by reflexivity.
  cbn [List.filter existsb]. destruct (_ || _) in H, Hc; rewrite Hc; cbn [negb andb];
    apply IH in H as (-> & ? & ->).
  - split; [done|]. split; [by constructor|done].
  - split; [|split; [by constructor|by rewrite orb_assoc]].
    cbn [map]. rewrite join_lines_cons.
    rewrite header_line_of. by rewrite <- !app_assoc.
Qed.

(** The digits of a number are plain. *)
Lemma to_digits_plain fuel n acc : plain acc -> plain (to_digits fuel n acc).
Proof.
  revert n acc. induction fuel as [|fuel IH]; intros n acc H; cbn; [done|].
  assert (Hd : plain (z2b (48 + n mod 10) :: acc)).
  { apply (plain_app [z2b (48 + n mod 10)]); [|done].
    pose proof (Z.mod_pos_bound n 10 eq_refl) as Hr.
    split; intros E%list_elem_of_singleton%(f_equal b2z); rewrite b2z_z2b_small in E by lia;
      [change (b2z CR) with 13 in E|change (b2z LF) with 10 in E]; lia. }
  destruct (_ =? 0); [done|by apply IH].
Qed.

Lemma to_string_plain n : plain (to_string n).
Proof. apply to_digits_plain. by apply plain_bool. Qed.

Lemma DefaultReasonPhrase_plain code : plain (DefaultReasonPhrase code).
Proof.
  unfold DefaultReasonPhrase. repeat (destruct (_ =? _); [by apply plain_bool|]). by apply plain_bool.
Qed.

Lemma Ok_inj {A} (x y : A) : Ok x = Ok y -> x = y.
Proof. by injection 1. Qed.

(** The lines of the head of a response. *)
Definition head_lines (o : HttpResponseEncoderOptions) (r : HttpResponse) : list (list byte) :=
  let reason := if zlen (reason_phrase r) =? 0 then DefaultReasonPhrase (status_code r) else reason_phrase r in
  let own n v := line_of (mkHeader n v) in
  ($"HTTP/1.1 " ++ to_string (status_code r) ++ $" " ++ reason) ::
  map line_of (List.filter copied (resp_headers r)) ++
  (if existsb (fun h => bool_decide (Lowercase (name h) = $"server")) (resp_headers r)
   then [] else [own $"Server" (server_name o)]) ++
  [if existsb (fun h => bool_decide (Lowercase (name h) = $"transfer-encoding")) (resp_headers r)
   then own $"Transfer-Encoding" $"chunked"
   else own $"Content-Length" (to_string (zlen (resp_body r)));
   own $"Connection" (if close_connection r then $"close" else $"keep-alive")].

Lemma copied_server h : bool_decide (Lowercase (name h) = $"server") = true -> copied h = true.
Proof. intros H%bool_decide_eq_true. unfold copied. by rewrite H. Qed.

Lemma existsb_copied hs :
  existsb (fun h => copied h && bool_decide (Lowercase (name h) = $"server")) hs =
  existsb (fun h => bool_decide (Lowercase (name h) = $"server")) hs.
Proof.
  induction hs as [|h hs IH]; [done|]. cbn [existsb]. rewrite IH. f_equal.
  destruct (bool_decide (Lowercase (name h) = $"server")) eqn:E; [|apply andb_false_r].
  by rewrite (copied_server h E).
Qed.

(** What a response costs, for any options and any reason *)
Lemma Encode_sizes o r e : Encode o r = Ok e ->
  zlen (head e) <= encoder_maximum_header_bytes o /\ encoded_body e = resp_body r.
Proof.
  unfold Encode. do 2 (destruct (_ || _); [done|]).
  destruct (append_headers _ _ _) as [[hd b]|]; [|done]. cbn [mbind result_bind].
  destruct (_ <? _) eqn:E; [done|]. apply Z.ltb_ge in E. intros [= <-]. done.
Qed.

(** C32. A response that the encoder accepts has a head made of these lines and
    nothing else: the status line, the application's headers in order without
    its own Content-Length and Connection, a Server line if there was none, the
    length of the body, and the connection's fate.  If the configured server
    name contains no CR or LF, which the encoder does not check
    ([encoder_server_name_unchecked]), no line contains one, so no header or
    reason of the application can forge another line; the head stays within
    its limit and the body is sent as it is.  (The reason phrase has fewer than
    [2^64 - 1] bytes, as every string.) *)
Theorem encoder_head_lines o r e :
  Encode o r = Ok e -> plain (server_name o) -> zlen (reason_phrase r) < npos ->
  head e = join_lines (head_lines o r) ++ CRLF /\ Forall plain (head_lines o r) /\
  zlen (head e) <= encoder_maximum_header_bytes o /\ encoded_body e = resp_body r /\
  encoded_close e = close_connection r.
Proof.
  unfold Encode. destruct (_ || _) eqn:E0; [done|]. intros H Hs Hr.
  set (reason := if zlen (reason_phrase r) =? 0 then _ else _) in *.
  destruct (_ || _) eqn:E1 in H; [done|].
  rewrite orb_false_iff, !negb_false_iff, !Z.eqb_eq in E1. destruct E1 as [E1 E2].
  assert (Hreason : plain reason).
  { unfold reason in *. destruct (_ =? 0); [apply DefaultReasonPhrase_plain|by apply plain_find]. }
  destruct (append_headers _ _ _) as [[hd b]|] eqn:Ea; [|done]. cbn [mbind result_bind] in H.
  apply append_headers_spec in Ea as (-> & Hh & ->). rewrite existsb_copied in H. cbn [orb] in H.
  destruct (_ <? _) eqn:E3 in H; [done|]. apply Z.ltb_ge in E3. apply Ok_inj in H. subst e. cbn [head encoded_body encoded_close].
  unfold BytesFromString in *.
  assert (Hlines : forall n v, plain n -> plain v -> plain (line_of (mkHeader n v))).
  { intros n v ? ?. apply plain_app; [done|]. apply plain_app; [by apply plain_bool|done]. }
  split; [|split; [|split; [exact E3|done]]].
  - unfold head_lines. fold reason. cbn zeta.
    rewrite join_lines_cons, !join_lines_app, !join_lines_cons, !app_nil_r.
    unfold header_line, line_of. cbn [name value].
    repeat match goal with |- context [bytes_of ?s] => generalize (bytes_of s); intro end.
    repeat match goal with |- context [if ?b then _ else _] => destruct b end;
      cbn [join_lines map concat]; rewrite <- ?app_assoc; done.
  - apply Forall_cons. split.
    { repeat apply plain_app; try (by apply plain_bool); [apply to_string_plain|done]. }
    apply Forall_app. split.
    { apply Forall_map. apply List.incl_Forall with (l1 := resp_headers r); [|done].
      intros h Hin. by apply List.filter_In in Hin as [? _]. }
    apply Forall_app. split.
    { match goal with |- context [if ?b then _ else _] => destruct b end;
        [apply Forall_nil_2|apply Forall_singleton, Hlines; [by apply plain_bool|done]]. }
    apply Forall_cons. split; [|apply Forall_singleton].
    + match goal with |- context [if ?b then _ else _] => destruct b end;
        apply Hlines; try (by apply plain_bool). apply to_string_plain.
    + destruct (close_connection r); apply Hlines; by apply plain_bool.
Qed.

Definition example_response : HttpResponse :=
  mkResponse 200 [] [mkHeader $"Content-Type" $"text/plain"; mkHeader $"Content-Length" $"99"]
             $"hi" false.

Lemma encoder_head_lines_witness :
  exists e, Encode HttpResponseEncoderOptions_default example_response = Ok e /\
    Forall plain (head_lines HttpResponseEncoderOptions_default example_response) /\
    head e = $"HTTP/1.1 200 OK" ++ CRLF ++ $"Content-Type: text/plain" ++ CRLF ++
             $"Server: iocp-http-runtime" ++ CRLF ++ $"Content-Length: 2" ++ CRLF ++
             $"Connection: keep-alive" ++ CRLF ++ CRLF.
Proof.
  assert (H : exists e, Encode HttpResponseEncoderOptions_default example_response = Ok e)
    by (eexists; vm_compute; reflexivity).
  destruct H as [e H]. exists e. split; [exact H|].
  destruct (encoder_head_lines _ _ _ H) as (Hh & Hp & _).
  - apply plain_bool. vm_compute. reflexivity.
  - vm_compute. reflexivity.
  - split; [exact Hp|]. rewrite Hh. vm_compute. reflexivity.
Defined.

(** A Transfer-Encoding header of the application is copied, then a second one is
    added, and the body still goes out without chunk framing. *)
Lemma encoder_transfer_encoding_twice :
  Encode HttpResponseEncoderOptions_default
    (mkResponse 200 [] [mkHeader $"Transfer-Encoding" $"chunked"; mkHeader $"Server" $"s"] $"hi" true) =
  Ok (mkEncoded ($"HTTP/1.1 200 OK" ++ CRLF ++ $"Transfer-Encoding: chunked" ++ CRLF ++ $"Server: s" ++
                 CRLF ++ $"Transfer-Encoding: chunked" ++ CRLF ++ $"Connection: close" ++ CRLF ++ CRLF)
        $"hi" true).
Proof. vm_compute. reflexivity. Qed.

(** The configured server name is only required to be non-empty: with a line
    break in it, it does break out of its line. *)
Lemma encoder_server_name_unchecked :
  let o := mkEncoderOptions ($"x" ++ CRLF ++ $"Injected: 1") 4096 in
  HttpResponseEncoder_make o = Ok o /\
  (e ← Encode o (mkResponse 200 [] [] [] true); Ok (head e)) =
  Ok ($"HTTP/1.1 200 OK" ++ CRLF ++ $"Server: x" ++ CRLF ++ $"Injected: 1" ++ CRLF ++
      $"Content-Length: 0" ++ CRLF ++ $"Connection: close" ++ CRLF ++ CRLF).
Proof. split; vm_compute; reflexivity. Qed.
