(* ===== verification/HttpSession.v ===== *)
(** * The HTTP/1.1 session of a connection

    [HttpSession] of [http_session.h] and [http_session.cpp]: the loop that appends the bytes of
    a read to the ring buffer, parses requests and dispatches them.

    A session acts on its surroundings by sending a response, posting a task to
    the executor and setting or cancelling a timer; the model records these
    actions in a log.  What the surroundings answer, the status of a post and
    the number of a timer, may depend on everything that happened before: it is
    given by functions of the log. *)

From S2P Require Import Prelude BufferSequence ReceiveBuffer RingReceiveBuffer HttpMessage.
From S2P Require Import HttpRequestParser ProtocolSession HttpRouter.

Record HttpSessionOptions := mkSessionOptions {
  initial_buffer_bytes : Z;
  maximum_buffer_bytes : Z;
  maximum_requests_per_connection : Z;
  parser_timeout : Z;
  parser : HttpParserOptions;
}.

Definition HttpSessionOptions_default : HttpSessionOptions :=
  mkSessionOptions 4096 (2 * 1024 * 1024) 100 0 HttpParserOptions_default.

(** What a session does.  A posted task is given by the response that it sends
    when it runs; a refused post is recorded too. *)
Inductive Event :=
  | Sent (response : HttpResponse)
  | PostedRequest (request : HttpRequest) (close : bool) (status : SubmitStatus)
      (response : HttpResponse)
  | PostedError (status : SubmitStatus) (response : HttpResponse)
  | Rescheduled (old new : Z)
  | Cancelled (id : Z).

(** The executor and the timer service. *)
Class World := {
  post_status : list Event -> SubmitStatus;
  new_timer : list Event -> Z;
}.

Record HttpSession := mkSession {
  router_ : HttpRouter;
  receive_buffer_ : RingReceiveBuffer;
  parser_ : HttpRequestParser;
  maximum_requests_per_connection_ : Z;
  connection_id_ : Z;
  next_request_id_ : Z;
  stopped_ : bool;
  last_parse_error_ : HttpParseError;
  requests_dispatched_ : Z;
  parser_timed_out_ : bool;
  timer_service_ : bool;
  parser_timer_id_ : Z;
  parser_timeout_ : Z;
}.

Definition set_buffer (v : RingReceiveBuffer) (s : HttpSession) : HttpSession :=
  mkSession (router_ s) v (parser_ s) (maximum_requests_per_connection_ s) (connection_id_ s)
    (next_request_id_ s) (stopped_ s) (last_parse_error_ s) (requests_dispatched_ s)
    (parser_timed_out_ s) (timer_service_ s) (parser_timer_id_ s) (parser_timeout_ s).
Definition set_parser (v : HttpRequestParser) (s : HttpSession) : HttpSession :=
  mkSession (router_ s) (receive_buffer_ s) v (maximum_requests_per_connection_ s)
    (connection_id_ s) (next_request_id_ s) (stopped_ s) (last_parse_error_ s) (requests_dispatched_ s)
    (parser_timed_out_ s) (timer_service_ s) (parser_timer_id_ s) (parser_timeout_ s).
Definition set_stopped (s : HttpSession) : HttpSession :=
  mkSession (router_ s) (receive_buffer_ s) (parser_ s) (maximum_requests_per_connection_ s)
    (connection_id_ s) (next_request_id_ s) true (last_parse_error_ s) (requests_dispatched_ s)
    (parser_timed_out_ s) (timer_service_ s) (parser_timer_id_ s) (parser_timeout_ s).
Definition set_parse_error (v : HttpParseError) (s : HttpSession) : HttpSession :=
  mkSession (router_ s) (receive_buffer_ s) (parser_ s) (maximum_requests_per_connection_ s)
    (connection_id_ s) (next_request_id_ s) (stopped_ s) v (requests_dispatched_ s)
    (parser_timed_out_ s) (timer_service_ s) (parser_timer_id_ s) (parser_timeout_ s).
Definition set_timer_id (v : Z) (s : HttpSession) : HttpSession :=
  mkSession (router_ s) (receive_buffer_ s) (parser_ s) (maximum_requests_per_connection_ s)
    (connection_id_ s) (next_request_id_ s) (stopped_ s) (last_parse_error_ s)
    (requests_dispatched_ s) (parser_timed_out_ s) (timer_service_ s) v (parser_timeout_ s).
(** [++requests_dispatched_] and [next_request_id_++] *)
Definition count_request (s : HttpSession) : HttpSession :=
  mkSession (router_ s) (receive_buffer_ s) (parser_ s) (maximum_requests_per_connection_ s)
    (connection_id_ s) (u64 (next_request_id_ s + 1)) (stopped_ s) (last_parse_error_ s)
    (u64 (requests_dispatched_ s + 1)) (parser_timed_out_ s) (timer_service_ s) (parser_timer_id_ s)
    (parser_timeout_ s).

(** The callback of the timer. *)
Definition parser_timer_callback (s : HttpSession) : HttpSession :=
  mkSession (router_ s) (receive_buffer_ s) (parser_ s) (maximum_requests_per_connection_ s)
    (connection_id_ s) (next_request_id_ s) (stopped_ s) (last_parse_error_ s)
    (requests_dispatched_ s) true (timer_service_ s) (parser_timer_id_ s) (parser_timeout_ s).

Definition SetTimerService (timer : bool) (s : HttpSession) : HttpSession :=
  mkSession (router_ s) (receive_buffer_ s) (parser_ s) (maximum_requests_per_connection_ s)
    (connection_id_ s) (next_request_id_ s) (stopped_ s) (last_parse_error_ s)
    (requests_dispatched_ s) (parser_timed_out_ s) timer (parser_timer_id_ s) (parser_timeout_ s).

Definition IsStopped (s : HttpSession) : bool := stopped_ s.
Definition BufferedBytes (s : HttpSession) : Z := RingReceiveBuffer.ReadableBytes (receive_buffer_ s).
Definition LastParseError (s : HttpSession) : HttpParseError := last_parse_error_ s.
Definition RequestsDispatched (s : HttpSession) : Z := requests_dispatched_ s.
Definition ConnectionId (s : HttpSession) : Z := connection_id_ s.
Definition ParseTimedOut (s : HttpSession) : bool := parser_timed_out_ s.

(** The constructor; a null router is [None], and the two flags say whether the
    executor and the response sender are not null. *)
Definition HttpSession_make (router : option HttpRouter) (executor response_sender : bool)
    (id : Z) (o : HttpSessionOptions) : result HttpSession :=
  b ← RingReceiveBuffer.make (initial_buffer_bytes o) (maximum_buffer_bytes o);
  p ← HttpRequestParser_make (parser o);
  match router with
  | None => Throw invalid_argument
  | Some r =>
      if negb executor then Throw invalid_argument
      else if negb response_sender then Throw invalid_argument
      else if maximum_requests_per_connection o =? 0 then Throw invalid_argument
      else Ok (mkSession r b p (maximum_requests_per_connection o) id 1 false None_ 0 false false 0
                 (parser_timeout o))
  end.

Definition ToFeedStatus (status : HttpDispatchStatus) : ProtocolFeedStatus :=
  match status with
  | DispatchAccepted => FeedReady
  | ExecutorStopped => FeedExecutorStopped
  | ExecutorSaturated => FeedExecutorSaturated
  end.

Definition StatusCodeFor (error : HttpParseError) : Z :=
  match error with
  | RequestLineTooLarge | InvalidTarget => 414
  | HeaderTooLarge | TooManyHeaders => 431
  | BodyTooLarge => 413
  | None_ | InvalidLineEnding | InvalidRequestLine | UnsupportedVersion | InvalidHeader | MissingHost
  | DuplicateHost | InvalidContentLength | DuplicateContentLength | UnsupportedTransferEncoding => 400
  end.

(** The request with the numbers that the session gives it. *)
Definition number_request (s : HttpSession) (r : HttpRequest) : HttpRequest :=
  mkRequest (method r) (method_text r) (target r) (path r) (query r) (headers r) (body r)
    (keep_alive r) (next_request_id_ s) (connection_id_ s).

Section session.
Context `{World}.

Definition PostErrorResponse (code : Z) (message : list byte) (log : list Event)
    : ProtocolFeedStatus * list Event :=
  let response := set_close true (text_response code message) in
  let status := post_status log in
  (match status with
   | Accepted => FeedReady
   | Stopped => FeedExecutorStopped
   | Saturated => FeedExecutorSaturated
   end, log ++ [PostedError status response]).

(** [if (timer_service_ && parser_timer_id_ != 0) timer_service_->Cancel(...)] *)
Definition cancel_timer (s : HttpSession) (log : list Event) : list Event :=
  if timer_service_ s && negb (parser_timer_id_ s =? 0) then log ++ [Cancelled (parser_timer_id_ s)]
  else log.

(** The branch for [Incomplete]. *)
Definition arm_timer (s : HttpSession) (log : list Event) : HttpSession * list Event :=
  if timer_service_ s && (0 <? parser_timeout_ s) && negb (parser_timed_out_ s) then
    let id := new_timer log in
    (set_timer_id id s, log ++ [Rescheduled (parser_timer_id_ s) id])
  else (s, log).

Definition feed_result (status : ProtocolFeedStatus) (dispatched_now : Z) (s : HttpSession)
    : ProtocolFeedResult :=
  mkFeedResult status dispatched_now (BufferedBytes s).

Definition or_else (status other : ProtocolFeedStatus) : ProtocolFeedStatus :=
  if decide (status = FeedReady) then other else status.

(** What one iteration of the loop does: go on with the number of requests
    dispatched so far, or return. *)
Inductive feed_step :=
  | Again (dispatched_now : Z) (s : HttpSession) (log : list Event)
  | Done (r : ProtocolFeedResult) (s : HttpSession) (log : list Event).

(** The branch for a complete request. *)
Definition dispatch_request (r : HttpParseResult) (dispatched_now : Z) (s : HttpSession)
    (log : list Event) : result feed_step :=
  b ← RingReceiveBuffer.Consume (receive_buffer_ s) (consumed_bytes r);
  let req := number_request s (request r) in
  let s := count_request (set_buffer b s) in
  let close := negb (keep_alive req) ||
               (maximum_requests_per_connection_ s <=? requests_dispatched_ s) in
  let status := post_status log in
  '(dispatch_status, response) ← Dispatch (router_ s) req true true status close;
  let log := log ++ [PostedRequest req close status response] in
  if negb (bool_decide (dispatch_status = DispatchAccepted)) then
    let s := set_stopped s in
    Ok (Done (feed_result (ToFeedStatus dispatch_status) dispatched_now s) s log)
  else
    let dispatched_now := u64 (dispatched_now + 1) in
    if close then
      let s := set_stopped s in
      Ok (Done (feed_result FeedReady dispatched_now s) s log)
    else Ok (Again dispatched_now s log).

(** The rest of an iteration, after the call of the parser. *)
Definition react (parsed : HttpParseResult) (dispatched_now : Z) (s : HttpSession) (log : list Event)
    : result feed_step :=
  match status parsed with
  | HeadersComplete =>
      Ok (Again dispatched_now s
            (if expect_continue parsed then log ++ [Sent (MakeTextResponse 100 [] $"text/plain")] else log))
  | Incomplete =>
      let '(s, log) := arm_timer s log in
      Ok (Done (feed_result FeedReady dispatched_now s) s log)
  | Error_ =>
      let log := cancel_timer s log in
      let s := set_parse_error (error parsed) (set_stopped s) in
      let '(status, log) :=
        PostErrorResponse (StatusCodeFor (error parsed)) ($"invalid HTTP request" ++ [LF]) log in
      Ok (Done (feed_result (or_else status FeedProtocolError) dispatched_now s) s log)
  | Complete_ => dispatch_request parsed dispatched_now s log
  end.

Definition Feed_step (dispatched_now : Z) (s : HttpSession) (log : list Event) : result feed_step :=
  input ← RingReceiveBuffer.ReadableSequence (receive_buffer_ s);
  '(parsed, p) ← Parse input (parser_ s);
  react parsed dispatched_now (set_parser p s) log.

Fixpoint Feed_loop (fuel : nat) (dispatched_now : Z) (s : HttpSession) (log : list Event)
    : result (ProtocolFeedResult * HttpSession * list Event) :=
  match fuel with
  | O => Throw NonTermination
  | S fuel =>
      st ← Feed_step dispatched_now s log;
      match st with
      | Again dispatched_now s log => Feed_loop fuel dispatched_now s log
      | Done r s log => Ok (r, s, log)
      end
  end.

(** A request takes at least one byte and has at most one interim answer. *)
Definition feed_fuel (s : HttpSession) : nat := (2 * Z.to_nat (BufferedBytes s) + 2)%nat.

Definition Feed (bytes : list byte) (s : HttpSession) (log : list Event)
    : result (ProtocolFeedResult * HttpSession * list Event) :=
  if parser_timed_out_ s then
    let s := set_stopped s in Ok (feed_result FeedStopped 0 s, s, log)
  else if stopped_ s then Ok (feed_result FeedStopped 0 s, s, cancel_timer s log)
  else
    '(status, b) ← RingReceiveBuffer.Append (receive_buffer_ s) bytes;
    let s := set_buffer b s in
    if negb (bool_decide (status = Ready)) then
      let s := set_stopped s in
      let '(status, log) := PostErrorResponse 413 ($"payload too large" ++ [LF]) log in
      Ok (feed_result (or_else status FeedBufferLimitExceeded) 0 s, s, log)
    else Feed_loop (feed_fuel s) 0 s log.

(** What can happen to a session: a read of the connection, or its timer. *)
Inductive session_op := OpFeed (bytes : list byte) | OpTimeout.

Fixpoint session_run (ops : list session_op) (s : HttpSession) (log : list Event)
    : result (HttpSession * list Event) :=
  match ops with
  | [] => Ok (s, log)
  | OpFeed bytes :: ops => '(_, s, log) ← Feed bytes s log; session_run ops s log
  | OpTimeout :: ops => session_run ops (parser_timer_callback s) log
  end.
End session.
