(* ===== verification/HttpSessionTheory.v ===== *)
(** * The session of a connection is orderly

    [HttpSession::Feed] terminates, keeps its invariant, numbers the requests
    of its connection and stops when it should; and what a session does depends
    on the bytes it receives, not on the reads that deliver them. *)

From S2P Require Import Prelude BufferSequence ReceiveBuffer RingReceiveBuffer HttpMessage.
From S2P Require Import HttpRequestParser HttpParserTheory HttpParserSplit ProtocolSession HttpRouter HttpSession.

(** ** The parser depends on the bytes only *)

Lemma Parse_step_bytes s s' p :
  seq_ok s -> seq_ok s' -> seq_bytes s = seq_bytes s' -> zlen (seq_bytes s) < 2 ^ 63 ->
  pinv (zlen (seq_bytes s)) p -> Parse_step s p = Parse_step s' p.
Proof.
  intros Hs Hs' E H63 Hp.
  assert (Hp' : pinv (zlen (seq_bytes s')) p) by (by rewrite <- E).
  assert (H63' : zlen (seq_bytes s') < 2 ^ 63) by (by rewrite <- E).
  assert (Hr : forall max, ReadLine s max p = ReadLine s' max p).
  { intros max. rewrite (ReadLine_pinv s Hs _ eq_refl max p Hp).
    rewrite (ReadLine_pinv s' Hs' _ eq_refl max p Hp'). unfold rest_of. by rewrite E. }
  assert (Hsz : seq_size s = seq_size s').
  { by rewrite (seq_size_spec _ Hs), (seq_size_spec _ Hs'), E. }
  assert (Hc : forall o n, 0 <= o -> 0 <= n -> CopyTo s o n = CopyTo s' o n).
  { intros o n ? ?. by rewrite !CopyTo_spec, E. }
  unfold Parse_step. destruct Hp. destruct (state_ p) eqn:Est.
  - unfold step_RequestLine. by rewrite Hr.
  - unfold step_Headers. rewrite Hr. destruct (ReadLine s' _ p) as [[l q]|]; [|done].
    cbn [mbind result_bind]. unfold headers_line. by rewrite (headers_done_input s s').
  - unfold step_Body, Complete. destruct pi_Body as [_ ->]; [done|].
    rewrite Hsz, Hc by lia. done.
  - unfold step_ChunkHead. by rewrite Hr.
  - unfold step_ChunkBody. destruct pi_cb as [-> ?]; [done|]. rewrite Hsz, Hc by lia. done.
  - unfold step_ChunkTrailer. by rewrite Hr.
  - rewrite (Complete_nocopy s s'); [done|]. right. apply pi_chunked. cbn. tauto.
  - done.
Qed.

Lemma Parse_bytes s s' p :
  seq_ok s -> seq_ok s' -> seq_bytes s = seq_bytes s' -> zlen (seq_bytes s) < 2 ^ 63 ->
  pinv (zlen (seq_bytes s)) p -> Parse s p = Parse s' p.
Proof.
  intros Hs Hs' E H63. revert p. apply (Parse_ind s (fun p => Parse s p = Parse s' p)); [done..|].
  intros p Hp IH. rewrite (Parse_unfold s), (Parse_unfold s') by (done || by rewrite <- E).
  rewrite <- (Parse_step_bytes s s') by done.
  pose proof (Parse_step_ok s Hs _ eq_refl H63 p Hp) as Hok.
  destruct (Parse_step s p) as [[q|r q]|e] eqn:Es; cbn [mbind result_bind]; [|done..].
  destruct Hok as (? & ? & _). by apply IH.
Qed.

(** ** At most one interim answer per request *)

Definition in_head (p : HttpRequestParser) : bool :=
  match state_ p with RequestLine | Headers => true | _ => false end.

Lemma Complete_status s p : match Complete s p with Ok (r, _) => status r = Complete_ | Throw _ => True end.
Proof. unfold Complete. destruct (if _ : bool then _ else _); done. Qed.

Definition head_step (p : HttpRequestParser) (st : result step) : Prop :=
  match st with
  | Ok (Go q) => in_head p = false -> in_head q = false
  | Ok (Ret r q) => status r = HeadersComplete -> in_head p = true /\ in_head q = false
  | Throw _ => True
  end.

Lemma head_step_Complete s p : head_step p ('(r, q) ← Complete s p; Ok (Ret r q)).
Proof.
  pose proof (Complete_status s p) as H. destruct (Complete s p) as [[r q]|]; [|done].
  cbn. by rewrite H.
Qed.

Lemma ReadLine_state s max p l q : ReadLine s max p = Ok (l, q) -> state_ q = state_ p.
Proof.
  unfold ReadLine. generalize (scan_offset_ p) at 2. generalize (S (Z.to_nat (seq_size s - scan_offset_ p))).
  intros fuel. induction fuel as [|fuel IH]; intros i H; [done|]. cbn [ReadLine_loop] in H.
  destruct (_ <? _); [|simplify_eq; by destruct p].
  destruct (At s i); [|done]. cbn [mbind result_bind] in H.
  case_decide; [by simplify_eq|]. case_decide.
  - destruct (_ <=? _); [simplify_eq; by destruct p|].
    destruct (At _ _); [|done]. cbn [mbind result_bind] in H. case_decide; [|by simplify_eq].
    destruct (_ <? _); [by simplify_eq|].
    destruct (if _ : bool then _ else _) in H; [|done]. cbn in H. simplify_eq. by destruct p.
  - destruct (_ <? _); [by simplify_eq|]. by eapply IH.
Qed.

Lemma headers_done_head s p0 p : in_head p0 = true -> head_step p0 (headers_done s p).
Proof.
  intros H0. unfold headers_done. destruct (FinalizeHeaders p) as [[ok q]|]; [|done]. cbn [mbind result_bind].
  destruct ok; cbn [negb]; [|done].
  assert (Hd : forall q st, (st = Complete s q) -> head_step p0 ('(r, q) ← st; Ok (Ret r q))).
  { intros q' ? ->. pose proof (Complete_status s q') as H.
    destruct (Complete s q') as [[r q1]|]; [|done]. cbn. by rewrite H. }
  destruct (_ && _); [destruct (_ && _); [by eapply Hd|]|destruct (has_chunked_ _); [|destruct (_ =? 0)]].
  - intros _. split; [done|]. unfold in_head. destruct q as [? ? ? ? ? ? ? ? ? ? hc ? ? ?]; pcbn. by destruct hc.
  - cbn. congruence.
  - by eapply Hd.
  - cbn. congruence.
Qed.

Lemma Parse_step_head s p : head_step p (Parse_step s p).
Proof.
  unfold Parse_step. destruct (state_ p) eqn:Est.
  - assert (in_head p = true) as H0 by (unfold in_head; by rewrite Est).
    unfold step_RequestLine. destruct (ReadLine _ _ _) as [[l q]|]; [|done]. cbn [mbind result_bind].
    destruct (line_status l); try done.
    destruct (ParseRequestLine _ _) as [[ok q']|]; [|done]. cbn [mbind result_bind].
    destruct ok; cbn; [congruence|done].
  - assert (in_head p = true) as H0 by (unfold in_head; by rewrite Est).
    unfold step_Headers. destruct (ReadLine _ _ _) as [[l q]|]; [|done]. cbn [mbind result_bind].
    unfold headers_line. destruct (line_status l); try done.
    destruct (_ <? _); [done|]. destruct (_ =? _); [by apply headers_done_head|].
    destruct (_ <=? _); [done|].
    destruct (ParseHeaderLine _ _) as [[ok q']|]; [|done]. cbn [mbind result_bind].
    destruct ok; cbn; [congruence|done].
  - unfold step_Body. destruct (_ <? _); [done|]. destruct (_ <? _); [done|]. apply head_step_Complete.
  - unfold step_ChunkHead. destruct (ReadLine _ _ _) as [[l q]|]; [|done]. cbn [mbind result_bind].
    destruct (line_status l); try done;
      (destruct (SkipChunkExtension _); [|done]); cbn [mbind result_bind];
      (destruct (ParseHexSize _); [|done]); destruct (_ =? 0); by destruct q.
  - unfold step_ChunkBody. destruct (_ <? _); [done|]. destruct (_ <? _); [done|].
    destruct (CopyTo _ _ _); [|done]. by destruct p.
  - unfold step_ChunkTrailer. destruct (ReadLine _ _ _) as [[l q]|] eqn:Er; [|done]. cbn [mbind result_bind].
    apply ReadLine_state in Er.
    destruct (line_status l); try done; destruct (_ =? 0); cbn; unfold in_head; destruct q; cbn in *; rewrite ?Er, ?Est; done.
  - apply head_step_Complete.
  - cbn. done.
Qed.

Lemma Parse_head s p :
  seq_ok s -> zlen (seq_bytes s) < 2 ^ 63 -> pinv (zlen (seq_bytes s)) p ->
  match Parse s p with
  | Ok (r, q) => status r = HeadersComplete -> in_head p = true /\ in_head q = false
  | Throw _ => True
  end.
Proof.
  intros Hs H63. revert p.
  apply (Parse_ind s (fun p => match Parse s p with Ok _ => _ | Throw _ => _ end)); [done..|].
  intros p Hp IH. rewrite Parse_unfold by done.
  pose proof (Parse_step_ok s Hs _ eq_refl H63 p Hp) as Hok. pose proof (Parse_step_head s p) as Hh.
  destruct (Parse_step s p) as [[q|r q]|e]; cbn [mbind result_bind head_step] in *; [|done..].
  destruct Hok as (Hq & Ho & _). specialize (IH q Hq Ho eq_refl).
  destruct (Parse s q) as [[r q']|]; [|done]. intros Hr. destruct (IH Hr) as [Hin ?].
  split; [|done]. destruct (in_head p); [done|]. rewrite Hh in Hin; done.
Qed.

Lemma pinv_Reset n m p q : options_ q = options_ p -> 0 <= n -> pinv m p -> pinv n (Reset q).
Proof.
  intros Ho Hn []. split; cbn; rewrite ?Ho; try done; try lia; try (intros [?|[?|[?|[?|[]]]]]; done).
  all: rewrite ?zlen_nil; try lia; by intros [].
Qed.

(** ** The invariant of a session *)

Record sinv (s : HttpSession) : Prop := {
  si_ring : RingReceiveBuffer.inv (receive_buffer_ s);
  si_max : 0 < maximum_requests_per_connection_ s < 2 ^ 64;
  si_count : 0 <= requests_dispatched_ s <= maximum_requests_per_connection_ s;
  si_id : next_request_id_ s = u64 (requests_dispatched_ s + 1);
  si_live : stopped_ s = false ->
    requests_dispatched_ s < maximum_requests_per_connection_ s /\
    pinv (zlen (contents (receive_buffer_ s))) (parser_ s);
}.

(** Decreases at every iteration of the loop that goes on. *)
Definition smeasure (s : HttpSession) : nat :=
  (2 * Z.to_nat (zlen (contents (receive_buffer_ s))) + if in_head (parser_ s) then 1 else 0)%nat.

(** The members of the session that no call to [Feed] changes. *)
Definition fixed (s : HttpSession) : HttpRouter * Z * Z * Z * HttpParserOptions * bool * bool * Z :=
  (router_ s, maximum_requests_per_connection_ s, connection_id_ s,
   RingReceiveBuffer.maximum_capacity_ (receive_buffer_ s), options_ (parser_ s), parser_timed_out_ s,
   timer_service_ s, parser_timeout_ s).

(** The requests that a list of events dispatches. *)
Definition posted (log : list Event) : list (HttpRequest * bool * SubmitStatus * HttpResponse) :=
  omap (fun e => match e with PostedRequest q c st r => Some (q, c, st, r) | _ => None end) log.

Definition accepted_count (log : list Event) : Z :=
  zlen (List.filter (fun x => bool_decide (x.1.2 = Accepted)) (posted log)).

Ltac scbn :=
  cbn [set_buffer set_parser set_stopped set_parse_error set_timer_id count_request
       router_ receive_buffer_ parser_ maximum_requests_per_connection_ connection_id_ next_request_id_
       stopped_ last_parse_error_ requests_dispatched_ parser_timed_out_ timer_service_
       parser_timer_id_ parser_timeout_ feed_result feed_status messages_dispatched buffered_bytes
       BufferedBytes mbind result_bind fst snd fixed] in *.

(** The dispatched requests are numbered, carry the connection and get the
    router's response; only the last one may close the connection or be
    refused, and then the session is stopped. *)
Record log_ok (s : HttpSession) (log : list Event) : Prop := {
  lo_ids : map (fun x => request_id x.1.1.1) (posted log) = seqZ 1 (requests_dispatched_ s);
  lo_resp : Forall (fun x => connection_id x.1.1.1 = connection_id_ s /\
      x.2 = dispatch_task (route_request (router_ s) x.1.1.1) x.1.1.1 x.1.1.2) (posted log);
  lo_last : exists l k, posted log = l ++ k /\ zlen k <= 1 /\ (stopped_ s = false -> k = []) /\
      Forall (fun x => x.1.1.2 = false /\ x.1.2 = Accepted) l;
}.

(** A session that went from one state to another. *)
Record advanced (s : HttpSession) (log : list Event) (d : Z)
    (s' : HttpSession) (log' : list Event) (d' : Z) : Prop := {
  ad_sinv : sinv s';
  ad_log : log_ok s' log';
  ad_fixed : fixed s' = fixed s;
  ad_count : 0 <= d' <= requests_dispatched_ s';
  ad_new : exists new, log' = log ++ new /\ d' = d + accepted_count new;
}.

Lemma posted_app l k : posted (l ++ k) = posted l ++ posted k.
Proof. apply omap_app. Qed.

Lemma accepted_count_app l k : accepted_count (l ++ k) = accepted_count l + accepted_count k.
Proof. unfold accepted_count. by rewrite posted_app, List.filter_app, zlen_app. Qed.

Lemma accepted_count_nil l : posted l = [] -> accepted_count l = 0.
Proof. intros E. unfold accepted_count. by rewrite E. Qed.

Lemma advanced_trans s log d s1 log1 d1 s2 log2 d2 :
  advanced s log d s1 log1 d1 -> advanced s1 log1 d1 s2 log2 d2 -> advanced s log d s2 log2 d2.
Proof.
  intros [? ? ? ? (n1 & -> & ->)] [? ? ? ? (n2 & -> & ->)]. split; try done; [congruence|].
  exists (n1 ++ n2). rewrite accepted_count_app, app_assoc. split; [done|lia].
Qed.

(** Events that dispatch no request keep the log in order. *)
Lemma log_ok_quiet s s' log new :
  posted new = [] -> requests_dispatched_ s' = requests_dispatched_ s ->
  router_ s' = router_ s -> connection_id_ s' = connection_id_ s ->
  (stopped_ s' = false -> stopped_ s = false) -> log_ok s log -> log_ok s' (log ++ new).
Proof.
  intros Hn Hr Hrt Hc Hst [? ? (l & k & ? & ? & ? & ?)].
  split; rewrite posted_app, Hn, app_nil_r, ?Hr, ?Hrt, ?Hc; [done|done|].
  exists l, k. split; [done|]. split; [done|]. split; [|done]. auto.
Qed.

(** A dispatched request is the next one of the log. *)
Lemma log_ok_request s s' log req close st resp :
  log_ok s log -> stopped_ s = false -> 0 <= requests_dispatched_ s ->
  request_id req = requests_dispatched_ s + 1 -> connection_id req = connection_id_ s ->
  resp = dispatch_task (route_request (router_ s) req) req close ->
  requests_dispatched_ s' = requests_dispatched_ s + 1 ->
  router_ s' = router_ s -> connection_id_ s' = connection_id_ s ->
  (stopped_ s' = false -> close = false /\ st = Accepted) ->
  log_ok s' (log ++ [PostedRequest req close st resp]).
Proof.
  intros [Hi Hf (l & k & Hpl & Hk & Hk0 & Hg)] Hst Hpos Hid Hc -> Hr Hrt Hcn Hlast.
  rewrite (Hk0 Hst), app_nil_r in Hpl. subst l.
  split; rewrite posted_app; cbn [posted omap list_omap].
  - rewrite map_app, Hi, Hr. cbn [map fst snd]. rewrite Hid.
    rewrite (seqZ_app 1 (requests_dispatched_ s) 1) by lia. f_equal.
    rewrite (seqZ_cons (1 + _) 1), seqZ_nil by lia. f_equal. lia.
  - rewrite Hrt, Hcn. apply Forall_app. split; [done|]. apply Forall_singleton. done.
  - destruct (stopped_ s') eqn:Es.
    + exists (posted log), [(req, close, st, dispatch_task (route_request (router_ s) req) req close)].
      split; [done|]. by split.
    + exists (posted log ++ [(req, close, st, dispatch_task (route_request (router_ s) req) req close)]), [].
      rewrite app_nil_r. split; [done|]. split; [done|]. split; [done|].
      apply Forall_app. split; [done|]. apply Forall_singleton. by apply Hlast.
Qed.

Section feed.
Context `{World}.

(** What the iteration does that ends with a complete request. *)
Lemma dispatch_request_ok r d s log :
  sinv s -> stopped_ s = false -> log_ok s log -> 0 <= d <= requests_dispatched_ s ->
  0 < consumed_bytes r <= zlen (contents (receive_buffer_ s)) ->
  (forall n, 0 <= n -> pinv n (parser_ s)) -> in_head (parser_ s) = true ->
  match dispatch_request r d s log with
  | Ok (Again d' s' log') => advanced s log d s' log' d' /\ stopped_ s' = false /\
      contents (receive_buffer_ s') = zdrop (consumed_bytes r) (contents (receive_buffer_ s)) /\
      parser_ s' = parser_ s
  | Ok (Done r' s' log') => advanced s log d s' log' (messages_dispatched r') /\ stopped_ s' = true /\
      buffered_bytes r' = zlen (contents (receive_buffer_ s'))
  | Throw _ => False
  end.
Proof.
  intros [] Hst Hl Hd Hc Hp Hh. unfold dispatch_request.
  destruct (ring_Consume_spec (receive_buffer_ s) (consumed_bytes r) si_ring0) as [HC _]; [lia|].
  destruct HC as (b & -> & Hb & Hbc & Hbm); [lia|]. cbn [mbind result_bind].
  set (req := number_request s (request r)). set (s1 := count_request (set_buffer b s)).
  set (close := _ || _). unfold Dispatch. cbn [negb mbind result_bind].
  set (log1 := log ++ _).
  assert (Hid : next_request_id_ s = requests_dispatched_ s + 1).
  { destruct (si_live0 Hst). rewrite si_id0. apply u64_small. lia. }
  destruct (si_live0 Hst) as [Hlt _].
  assert (Hn : requests_dispatched_ s1 = requests_dispatched_ s + 1) by (apply u64_small; lia).
  assert (Hs1 : forall st s2, s2 = (if st : bool then set_stopped s1 else s1) ->
    (st = false -> close = false) -> sinv s2).
  { intros st s2 -> Hcl. unfold s1, close in *. cbn in Hn, Hcl.
    destruct st; split; cbn; rewrite ?Hn, ?Hid; try done; try lia. intros _.
    destruct (orb_false_elim _ _ (Hcl eq_refl)) as [_ Hm%Z.leb_gt]. rewrite Hn in Hm.
    split; [lia|]. apply Hp, zlen_nonneg. }
  assert (Hl1 : forall st s2, s2 = (if st : bool then set_stopped s1 else s1) ->
    (st = false -> close = false /\ post_status log = Accepted) -> log_ok s2 log1).
  { intros st s2 -> Hcl. apply (log_ok_request s); try done; destruct st; try done; lia || auto. }
  assert (Hadv : forall st s2 d', s2 = (if st : bool then set_stopped s1 else s1) ->
    (st = false -> close = false /\ post_status log = Accepted) ->
    d' = d + (if bool_decide (post_status log = Accepted) then 1 else 0) ->
    advanced s log d s2 log1 d').
  { intros st s2 d' E Hst2 ->. split.
    - eapply Hs1; [done|]. intros E2. by apply Hst2.
    - by eapply Hl1.
    - subst s2. unfold fixed. destruct st; cbn; by rewrite Hbm.
    - replace (requests_dispatched_ s2) with (requests_dispatched_ s1) by (subst s2; by destruct st).
      rewrite Hn. destruct (bool_decide _); lia.
    - eexists. split; [done|]. f_equal. unfold accepted_count. cbn. by destruct (bool_decide _). }
  assert (Hbb : zlen (contents b) = RingReceiveBuffer.ReadableBytes b) by (by rewrite zlen_contents).
  destruct (post_status log) eqn:Ep; rewrite ?Ep in Hadv; cbn [ToDispatchStatus].
  2,3: rewrite bool_decide_eq_false_2 by done; cbn [negb];
    split; [eapply (Hadv true); [done|done|rewrite bool_decide_eq_false_2 by done; cbn; lia]|by split].
  rewrite bool_decide_eq_true_2 by done. cbn [negb].
  rewrite (u64_small (d + 1)) by lia. destruct close eqn:Ec.
  - split; [eapply (Hadv true); done|by split].
  - split; [eapply (Hadv false); done|by split].
Qed.
(** Parsing what the buffer shows. *)
Lemma session_parse s :
  sinv s -> stopped_ s = false ->
  exists input, RingReceiveBuffer.ReadableSequence (receive_buffer_ s) = Ok input /\ seq_ok input /\
    seq_bytes input = contents (receive_buffer_ s) /\ zlen (seq_bytes input) < 2 ^ 63 /\
    pinv (zlen (seq_bytes input)) (parser_ s).
Proof.
  intros [] Hst. destruct (ReadableSequence_spec _ si_ring0) as (input & ? & ? & Hb).
  exists input. split; [done|]. split; [done|]. split; [done|]. rewrite Hb. split; [|by apply si_live0].
  pose proof (ring_contents_bound _ si_ring0). destruct si_ring0. lia.
Qed.

(** A change of the session that dispatches nothing. *)
Lemma advanced_quiet s log d s' new :
  sinv s' -> log_ok s log -> fixed s' = fixed s -> 0 <= d <= requests_dispatched_ s ->
  requests_dispatched_ s' = requests_dispatched_ s -> (stopped_ s' = false -> stopped_ s = false) ->
  posted new = [] -> advanced s log d s' (log ++ new) d.
Proof.
  intros Hs Hl Hf Hd Hr Hst Hn. split; [done| |done|by rewrite Hr|].
  - apply (log_ok_quiet s); try done; by injection Hf.
  - exists new. rewrite accepted_count_nil by done. split; [done|lia].
Qed.

Lemma Feed_step_ok d s log :
  sinv s -> stopped_ s = false -> log_ok s log -> 0 <= d <= requests_dispatched_ s ->
  match Feed_step d s log with
  | Ok (Again d' s' log') => advanced s log d s' log' d' /\ stopped_ s' = false /\
      (smeasure s' < smeasure s)%nat
  | Ok (Done r s' log') => advanced s log d s' log' (messages_dispatched r) /\
      buffered_bytes r = zlen (contents (receive_buffer_ s'))
  | Throw e => e = out_of_range
  end.
Proof.
  intros Hs Hst Hl Hd. destruct (session_parse s Hs Hst) as (input & E & Hi & Hib & H63 & Hp).
  unfold Feed_step. rewrite E. cbn [mbind result_bind].
  pose proof (Parse_ok input _ Hi H63 Hp) as Hok. pose proof (Parse_head input _ Hi H63 Hp) as Hh.
  destruct (Parse input (parser_ s)) as [[r q]|e]; [|done]. cbn [parse_ok mbind result_bind] in *.
  destruct Hok as [Ho Hr]. rewrite Hib in *. unfold react.
  pose proof Hs as [? ? ? ? Hlive]. destruct (Hlive Hst) as [Hlt _].
  assert (Hq : pinv (zlen (contents (receive_buffer_ s))) q -> sinv (set_parser q s)).
  { intros Hq. by split. }
  assert (Hf : fixed (set_parser q s) = fixed s) by (unfold fixed; cbn; by rewrite Ho).
  destruct (status r) eqn:Er.
  - unfold arm_timer. destruct Hr as [_ Hq']. destruct (_ && _).
    + split; [|cbn; by rewrite zlen_contents]. by apply advanced_quiet.
    + split; [|cbn; by rewrite zlen_contents]. rewrite <- (app_nil_r log) at 2.
      by apply advanced_quiet.
  - destruct Hr as [(_ & _ & Hc) Hreset].
    assert (Hfresh : forall n, 0 <= n -> pinv n q).
    { intros n Hn. rewrite Hreset. by eapply pinv_Reset. }
    assert (Hadv : advanced s log d (set_parser q s) log d).
    { rewrite <- (app_nil_r log) at 2. apply advanced_quiet; try done. apply Hq, Hfresh, zlen_nonneg. }
    pose proof (dispatch_request_ok r d (set_parser q s) log (ad_sinv _ _ _ _ _ _ Hadv) Hst
      (ad_log _ _ _ _ _ _ Hadv) Hd Hc Hfresh) as H1.
    destruct (dispatch_request _ _ _ _) as [[d' s' log'|r' s' log']|e].
    + destruct H1 as (Ha & ? & Hcs & Hps); [by rewrite Hreset|].
      split; [by eapply advanced_trans|]. split; [done|].
      unfold smeasure. rewrite Hcs, Hps. scbn. rewrite zlen_zdrop, Hreset.
      cbn [Reset in_head state_]. destruct (in_head (parser_ s)); lia.
    + destruct H1 as (Ha & ? & ?); [by rewrite Hreset|]. split; [by eapply advanced_trans|done].
    + destruct H1. by rewrite Hreset.
  - destruct (Hh eq_refl) as [Hin Hout]. split; [|split; [done|]].
    + destruct (expect_continue r); [|rewrite <- (app_nil_r log) at 2]; apply advanced_quiet; try done;
        by apply Hq.
    + unfold smeasure. scbn. rewrite Hin, Hout. lia.
  - destruct Hr as [-> He]. unfold PostErrorResponse. cbn [error error_result].
    split; [|cbn; by rewrite zlen_contents]. unfold cancel_timer.
    destruct (_ && _); [rewrite <- app_assoc|]; apply advanced_quiet; try done; by split.
Qed.
Lemma Feed_loop_ok fuel : forall d s log,
  sinv s -> stopped_ s = false -> log_ok s log -> 0 <= d <= requests_dispatched_ s ->
  (smeasure s < fuel)%nat ->
  match Feed_loop fuel d s log with
  | Ok (r, s', log') => advanced s log d s' log' (messages_dispatched r) /\
      buffered_bytes r = zlen (contents (receive_buffer_ s'))
  | Throw e => e = out_of_range
  end.
Proof.
  induction fuel as [|fuel IH]; intros d s log Hs Hst Hl Hd Hf; [lia|]. cbn [Feed_loop].
  pose proof (Feed_step_ok d s log Hs Hst Hl Hd) as Hok.
  destruct (Feed_step d s log) as [[d' s' log'|r s' log']|e]; cbn [mbind result_bind]; [|done..].
  destruct Hok as (Ha & Hst' & Hm). pose proof Ha as [].
  specialize (IH d' s' log' ad_sinv0 Hst' ad_log0 ad_count0). destruct (Feed_loop _ _ _ _) as [[[r s2] log2]|e].
  - destruct IH as [Ha2 ?]; [lia|]. split; [by eapply advanced_trans|done].
  - apply IH. lia.
Qed.

Lemma smeasure_fuel s : sinv s -> (smeasure s < feed_fuel s)%nat.
Proof.
  intros []. unfold smeasure, feed_fuel. rewrite zlen_contents by done. unfold BufferedBytes, ReadableBytes.
  destruct (in_head _); lia.
Qed.

(** The session after the append of [Feed]. *)
Lemma sinv_append s b bytes :
  sinv s -> RingReceiveBuffer.inv b -> contents b = contents (receive_buffer_ s) ++ bytes ->
  sinv (set_buffer b s).
Proof.
  intros [] Hb Hc. split; try done. intros Hst. destruct (si_live0 Hst) as [? Hp].
  split; [done|]. cbn. rewrite Hc. eapply pinv_mono; [|done]. zlia.
Qed.

Lemma Feed_ok bytes s log :
  sinv s -> log_ok s log ->
  match Feed bytes s log with
  | Ok (r, s', log') =>
      advanced s log 0 s' log' (messages_dispatched r) \/
      parser_timed_out_ s = true /\ s' = set_stopped s /\ log' = log
  | Throw e => e = out_of_range
  end.
Proof.
  intros Hs Hl. pose proof Hs as []. unfold Feed. destruct (parser_timed_out_ s) eqn:Et; [by right|].
  destruct (stopped_ s) eqn:Est.
  { left. cbn. unfold cancel_timer. destruct (_ && _); [|rewrite <- (app_nil_r log) at 2];
      apply advanced_quiet; try done; cbn; lia. }
  destruct (ring_Append_spec _ bytes si_ring0) as [Hfit Hfull].
  destruct (decide (zlen (contents (receive_buffer_ s)) + zlen bytes <=
                    RingReceiveBuffer.maximum_capacity_ (receive_buffer_ s))) as [Hle|Hgt].
  - destruct (Hfit Hle) as (b & -> & Hb & Hc & Hm). cbn [mbind result_bind].
    rewrite bool_decide_eq_true_2 by done. cbn [negb].
    assert (Hs' : sinv (set_buffer b s)) by (by eapply sinv_append).
    assert (Ha : advanced s log 0 (set_buffer b s) log 0).
    { rewrite <- (app_nil_r log) at 2. apply advanced_quiet; try done; [|cbn; lia].
      unfold fixed. cbn. by rewrite Hm. }
    pose proof (Feed_loop_ok (feed_fuel (set_buffer b s)) 0 (set_buffer b s) log Hs' Est
      (ad_log _ _ _ _ _ _ Ha) (ad_count _ _ _ _ _ _ Ha) (smeasure_fuel _ Hs')) as Hok.
    destruct (Feed_loop _ _ _ _) as [[[r s'] log']|e]; [|done].
    destruct Hok as [Hok _]. left. by eapply advanced_trans.
  - rewrite Hfull by lia. cbn [mbind result_bind]. rewrite bool_decide_eq_false_2 by done.
    cbn. left. apply advanced_quiet; try done; cbn; lia.
Qed.
End feed.

(** ** Sessions from their construction on *)

(** The sizes are values of [std::size_t]; a buffer of [2^63] bytes or more
    cannot be allocated. *)
Record session_sizes (o : HttpSessionOptions) : Prop := {
  ss_initial : 0 <= initial_buffer_bytes o;
  ss_maximum : maximum_buffer_bytes o < 2 ^ 63;
  ss_requests : 0 <= maximum_requests_per_connection o < 2 ^ 64;
  ss_line : 0 <= maximum_request_line_bytes (parser o) < 2 ^ 64;
  ss_header : 0 <= maximum_header_bytes (parser o) < 2 ^ 64;
  ss_hcount : 0 <= maximum_header_count (parser o) < 2 ^ 64;
  ss_body : 0 <= maximum_body_bytes (parser o) < 2 ^ 64;
}.

Lemma HttpSession_make_ok router id o s :
  session_sizes o -> HttpSession_make (Some router) true true id o = Ok s ->
  sinv s /\ log_ok s [] /\ stopped_ s = false /\ contents (receive_buffer_ s) = [] /\
  fixed s = (router, maximum_requests_per_connection o, id, maximum_buffer_bytes o, parser o,
             false, false, parser_timeout o).
Proof.
  intros [] H. unfold HttpSession_make in H.
  destruct (RingReceiveBuffer.make _ _) as [b|] eqn:Eb; [|done]. cbn [mbind result_bind] in H.
  destruct (HttpRequestParser_make _) as [p|] eqn:Ep; [|done]. cbn [mbind result_bind negb] in H.
  destruct (Z.eqb_spec (maximum_requests_per_connection o) 0); [done|]. simplify_eq.
  unfold RingReceiveBuffer.make in Eb.
  destruct (Z.ltb_spec max_byte_vector (initial_buffer_bytes o)); [done|].
  destruct (Z.eqb_spec (initial_buffer_bytes o) 0); [done|].
  destruct (Z.ltb_spec (maximum_buffer_bytes o) (initial_buffer_bytes o)); [done|].
  destruct (ring_make_spec (initial_buffer_bytes o) (maximum_buffer_bytes o)) as (b' & Eb' & Hb & Hc & Hm);
    [lia|lia|]. unfold RingReceiveBuffer.make in Eb'.
  rewrite (proj2 (Z.ltb_ge max_byte_vector _)) in Eb' by lia.
  rewrite (proj2 (Z.eqb_neq _ _)), (proj2 (Z.ltb_ge _ _)) in Eb' by lia. rewrite Eb in Eb'. simplify_eq.
  unfold HttpRequestParser_make in Ep. destruct (_ || _) eqn:Eo in Ep; [done|]. simplify_eq.
  rewrite !orb_false_iff, Z.eqb_neq, Z.ltb_ge, Z.eqb_neq in Eo.
  split; [|split; [|split; [done|split; [done|]]]].
  - split; cbn; try done; try lia. intros _. split; [lia|]. rewrite Hc.
    apply pinv_fresh; [done|]. split; lia.
  - split; cbn; [done|constructor|]. by exists [], [].
  - done.
Qed.

Section run.
Context `{World}.

(** What every run keeps. *)
Definition orderly (s0 s : HttpSession) (log : list Event) : Prop :=
  sinv s /\ log_ok s log /\ router_ s = router_ s0 /\ connection_id_ s = connection_id_ s0 /\
  maximum_requests_per_connection_ s = maximum_requests_per_connection_ s0 /\
  RingReceiveBuffer.maximum_capacity_ (receive_buffer_ s) =
  RingReceiveBuffer.maximum_capacity_ (receive_buffer_ s0).

Lemma advanced_orderly s0 s log d s' log' d' :
  orderly s0 s log -> advanced s log d s' log' d' -> orderly s0 s' log'.
Proof.
  intros (? & ? & ? & ? & ? & ?) []. unfold fixed in *. unfold orderly. split_and!; try done; congruence.
Qed.

Lemma session_run_ok ops : forall s0 s log, orderly s0 s log ->
  match session_run ops s log with
  | Ok (s', log') => orderly s0 s' log'
  | Throw e => e = out_of_range
  end.
Proof.
  induction ops as [|[bytes|] ops IH]; intros s0 s log Ho; cbn [session_run]; [done| |].
  - pose proof (Feed_ok bytes s log (proj1 Ho) (proj1 (proj2 Ho))) as Hf.
    destruct (Feed bytes s log) as [[[r s'] log']|e]; [|done]. cbn [mbind result_bind]. apply IH.
    destruct Hf as [Ha|(_ & -> & ->)]; [by eapply advanced_orderly|].
    destruct Ho as (Hs & Hl & ? & ? & ? & ?). split_and!; try done.
    + by destruct Hs.
    + rewrite <- (app_nil_r log). by apply (log_ok_quiet s).
  - apply IH. destruct Ho as (Hs & Hl & ? & ? & ? & ?). split_and!; try done.
    + by destruct Hs.
    + rewrite <- (app_nil_r log). by apply (log_ok_quiet s).
Qed.
End run.

(** C26. From its construction on, whatever is read, whenever its timer fires
    and whatever the executor answers, a session terminates on every read and
    stays orderly: the requests it dispatches are numbered 1, 2, 3, ..., carry
    the number of the connection and get the router's response; there are
    never more than the configured number; only the last one can close the
    connection or be refused by the executor; and never more bytes than the
    configured maximum are buffered.  The only exception that can leave it is
    the parser's [out_of_range]. *)
Theorem session_orderly `{World} router id o s0 ops :
  session_sizes o -> HttpSession_make (Some router) true true id o = Ok s0 ->
  match session_run ops s0 [] with
  | Ok (s, log) =>
      log_ok s log /\ router_ s = router /\ connection_id_ s = id /\
      zlen (posted log) <= maximum_requests_per_connection o /\
      0 <= BufferedBytes s <= maximum_buffer_bytes o
  | Throw e => e = out_of_range
  end.
Proof.
  intros Hsz E. destruct (HttpSession_make_ok _ _ _ _ Hsz E) as (Hs & Hl & Hst & Hc & Hf).
  unfold fixed in Hf. injection Hf as Hf1 Hf2 Hf3 Hf4 Hf5 Hf6 Hf7 Hf8.
  pose proof (session_run_ok ops s0 s0 [] ltac:(by split_and!)) as Hok.
  destruct (session_run ops s0 []) as [[s log]|e]; [|done].
  destruct Hok as (Hs' & Hl' & ? & ? & Hm & Hcap). pose proof (lo_ids _ _ Hl') as Hids.
  split; [done|]. split; [congruence|]. split; [congruence|]. destruct Hs' as [Hr' _ Hcnt _ _].
  split.
  - apply (f_equal length) in Hids. rewrite length_map, length_seqZ in Hids. unfold zlen. lia.
  - destruct Hr'. unfold BufferedBytes, ReadableBytes. lia.
Qed.

(** A read is accounted for: it only adds to the log, its result counts
    the requests that the executor accepted during it and the bytes still
    buffered; a stopped session dispatches nothing and keeps its state; a read
    that does not fit the buffer is not stored, is answered with 413 and stops
    the session. *)
Theorem session_feed_accounts `{World} bytes s log :
  sinv s -> log_ok s log -> parser_timed_out_ s = false ->
  match Feed bytes s log with
  | Throw e => e = out_of_range
  | Ok (r, s', log') => exists new, log' = log ++ new /\
      messages_dispatched r = accepted_count new /\ buffered_bytes r = BufferedBytes s' /\
      (stopped_ s = true ->
       feed_status r = FeedStopped /\ s' = s /\ posted new = []) /\
      (stopped_ s = false ->
       maximum_capacity_ (receive_buffer_ s) < zlen (contents (receive_buffer_ s)) + zlen bytes ->
       stopped_ s' = true /\ receive_buffer_ s' = receive_buffer_ s /\
       new = [PostedError (post_status log) (set_close true (text_response 413 ($"payload too large" ++ [LF])))])
  end.
Proof.
  intros Hs Hl Ht. pose proof (Feed_ok bytes s log Hs Hl) as Hok.
  assert (Hb : match Feed bytes s log with
               | Ok (r, s', log') => buffered_bytes r = BufferedBytes s' | Throw _ => True end).
  { unfold Feed. rewrite Ht. destruct (stopped_ s) eqn:Est; [done|].
    destruct (RingReceiveBuffer.Append _ _) as [[st b]|] eqn:Ea; [|done]. cbn [mbind result_bind].
    destruct (bool_decide _) eqn:Es; [|done]. apply bool_decide_eq_true in Es as ->. cbn [negb].
    destruct (ring_Append_spec _ bytes (si_ring _ Hs)) as [Hfit Hfull].
    destruct (decide (zlen (contents (receive_buffer_ s)) + zlen bytes <=
                      maximum_capacity_ (receive_buffer_ s))) as [Hle|Hgt].
    2:{ rewrite Hfull in Ea by lia. done. }
    destruct (Hfit Hle) as (b' & Ea' & Hb & Hc & Hm). rewrite Ea in Ea'. simplify_eq.
    assert (Hs' : sinv (set_buffer b' s)) by (by eapply sinv_append).
    pose proof (Feed_loop_ok (feed_fuel (set_buffer b' s)) 0 (set_buffer b' s) log Hs' Est) as Hlok.
    assert (Hl' : log_ok (set_buffer b' s) log) by (rewrite <- (app_nil_r log); by apply (log_ok_quiet s)).
    specialize (Hlok Hl' ltac:(pose proof (si_count _ Hs); cbn; lia) (smeasure_fuel _ Hs')).
    destruct (Feed_loop _ _ _ _) as [[[r s'] log']|]; [|done]. destruct Hlok as [Ha ->].
    rewrite zlen_contents; [done|]. apply (si_ring _ (ad_sinv _ _ _ _ _ _ Ha)). }
  destruct (Feed bytes s log) as [[[r s'] log']|e] eqn:Ef; [|done].
  destruct Hok as [Ha|(? & _)]; [|congruence]. destruct (ad_new _ _ _ _ _ _ Ha) as (new & -> & Hm).
  exists new. split; [done|]. split; [lia|]. split; [done|]. unfold Feed in Ef. rewrite Ht in Ef. split.
  - intros Hst. rewrite Hst in Ef. injection Ef as <- <- E. split; [done|]. split; [done|].
    unfold cancel_timer in E. destruct (_ && _).
    + by apply app_inv_head in E as <-.
    + rewrite <- (app_nil_r log) in E at 1. by apply app_inv_head in E as <-.
  - intros Hst Hover. rewrite Hst in Ef.
    rewrite (proj2 (ring_Append_spec _ bytes (si_ring _ Hs)) Hover) in Ef. cbn [mbind result_bind] in Ef.
    rewrite bool_decide_eq_false_2 in Ef by done. cbn in Ef.
    injection Ef as <- <- E. apply app_inv_head in E as <-. done.
Qed.

Definition sample_world : World := {| post_status _ := Accepted; new_timer log := zlen log + 1 |}.
#[export] Existing Instance sample_world.

Definition sample_session_options : HttpSessionOptions := mkSessionOptions 16 200 2 0 sample_options.

Lemma sample_session_sizes : session_sizes sample_session_options.
Proof. split; cbn; lia. Qed.

Definition sample_pipeline : list byte :=
  $"GET /a HTTP/1.1" ++ CRLF ++ $"Host: x" ++ CRLF ++ CRLF ++
  $"GET /b HTTP/1.1" ++ CRLF ++ $"Host: x" ++ CRLF ++ CRLF ++ $"GET /c".

Definition sample_session : HttpSession :=
  mkSession ∅ (mkRing (replicate 16 Byte.x00) 200 0 0) sample_parser 2 7 1 false None_ 0 false false 0 0.

Lemma sample_session_make : HttpSession_make (Some ∅) true true 7 sample_session_options = Ok sample_session.
Proof. vm_compute. reflexivity. Qed.

Lemma session_orderly_witness :
  match session_run [OpFeed sample_pipeline] sample_session [] with
  | Ok (s, log) => map (fun x => request_id x.1.1.1) (posted log) = [1; 2] /\ log_ok s log
  | Throw _ => False
  end.
Proof.
  pose proof (session_orderly ∅ 7 sample_session_options sample_session [OpFeed sample_pipeline]
    sample_session_sizes sample_session_make) as H.
  assert (Hn : match session_run [OpFeed sample_pipeline] sample_session [] with
               | Ok (s, log) => map (fun x => request_id x.1.1.1) (posted log) = [1; 2]
               | Throw _ => False end) by (vm_compute; reflexivity).
  destruct (session_run [OpFeed sample_pipeline] sample_session []) as [[s log]|e]; [|contradiction].
  split; [exact Hn|apply H].
Defined.

Lemma session_feed_accounts_witness :
  match Feed (replicate 300 Byte.x61) sample_session [] with
  | Ok (r, s', log') => stopped_ s' = true /\ feed_status r = FeedBufferLimitExceeded /\
      zlen log' = 1
  | Throw _ => False
  end.
Proof.
  destruct (HttpSession_make_ok _ _ _ _ sample_session_sizes sample_session_make) as (Hs & Hl & _).
  pose proof (session_feed_accounts (replicate 300 Byte.x61) sample_session [] Hs Hl eq_refl) as H.
  assert (Hr : match Feed (replicate 300 Byte.x61) sample_session [] with
    | Ok (r, _, _) => feed_status r = FeedBufferLimitExceeded | Throw _ => False end)
    by (vm_compute; reflexivity).
  destruct (Feed _ _ _) as [[[r s'] log']|e]; [|contradiction].
  destruct H as (new & Hlog & _ & _ & _ & Hover).
  destruct (Hover eq_refl ltac:(vm_compute; reflexivity)) as (Hst & _ & Hnew).
  split; [exact Hst|]. split; [exact Hr|]. rewrite Hlog, Hnew. reflexivity.
Defined.
