(* ===== verification/HttpSessionSplit.v ===== *)
(** * A session does not see how its bytes were cut into reads *)

From S2P Require Import Prelude BufferSequence ReceiveBuffer RingReceiveBuffer HttpMessage.
From S2P Require Import HttpRequestParser HttpParserTheory HttpParserSplit ProtocolSession HttpRouter HttpSession.
From S2P Require Import HttpSessionTheory.

(** Everything but the receive buffer. *)
Definition others (s : HttpSession) : HttpSession := set_buffer (mkRing [] 0 0 0) s.

(** [s'] is [s] with [k] more bytes in its buffer, which may be laid out
    differently. *)
Definition extra (k : list byte) (s s' : HttpSession) : Prop :=
  others s = others s' /\
  contents (receive_buffer_ s') = contents (receive_buffer_ s) ++ k /\
  RingReceiveBuffer.maximum_capacity_ (receive_buffer_ s) =
  RingReceiveBuffer.maximum_capacity_ (receive_buffer_ s').

(** Sessions that are the same except, once they are stopped, for the bytes that
    they did not look at. *)
Definition same (s s' : HttpSession) : Prop :=
  stopped_ s = stopped_ s' /\ requests_dispatched_ s = requests_dispatched_ s' /\
  last_parse_error_ s = last_parse_error_ s' /\ timer_service_ s = timer_service_ s' /\
  parser_timed_out_ s = parser_timed_out_ s' /\ (stopped_ s = false -> extra [] s s').

Definition same_outcome (a b : result (ProtocolFeedResult * HttpSession * list Event)) : Prop :=
  match a, b with
  | Ok (_, s, log), Ok (_, s', log') => log = log' /\ same s s'
  | Throw e, Throw e' => e = e'
  | _, _ => False
  end.

Lemma extra_set k s s' : extra k s s' ->
  exists b, s' = set_buffer b s /\ contents b = contents (receive_buffer_ s) ++ k /\
    RingReceiveBuffer.maximum_capacity_ (receive_buffer_ s) = RingReceiveBuffer.maximum_capacity_ b.
Proof.
  intros (Ho & Hc & Hm). exists (receive_buffer_ s'). split; [|done].
  destruct s, s'. unfold others in Ho. cbn in *. by injection Ho as ->; subst.
Qed.

Lemma extra_nil_sym s s' : extra [] s s' -> extra [] s' s.
Proof. intros (? & Hc & ?). split_and!; try done. by rewrite Hc, !app_nil_r. Qed.

Lemma extra_nil_trans s1 s2 s3 : extra [] s1 s2 -> extra [] s2 s3 -> extra [] s1 s3.
Proof.
  intros (? & H1 & ?) (? & H2 & ?). split; [congruence|]. split; [|congruence].
  by rewrite H2, H1, !app_nil_r.
Qed.

#[export] Instance same_equivalence : Equivalence same.
Proof.
  split.
  - intros s. split_and!; try done. intros _. split_and!; try done. by rewrite app_nil_r.
  - intros s s' (? & ? & ? & ? & ? & He). split_and!; try done. intros Hf. apply extra_nil_sym, He. congruence.
  - intros s1 s2 s3 (? & ? & ? & ? & ? & He1) (? & ? & ? & ? & ? & He2). split_and!; try congruence.
    intros Hf. eapply extra_nil_trans; [by apply He1|]. apply He2. congruence.
Qed.

#[export] Instance same_outcome_equivalence : Equivalence same_outcome.
Proof.
  split.
  - intros [[[r s] log]|e]; cbn; [split; reflexivity|done].
  - intros [[[r s] log]|e] [[[r' s'] log']|e']; cbn; try done. intros [-> H]. by split; [|symmetry].
  - intros [[[r s] log]|e] [[[r' s'] log']|e'] [[[r2 s2] log2]|e2]; cbn; try done.
    + intros [-> H1] [-> H2]. split; [done|]. by etransitivity.
    + congruence.
Qed.

Section split.
Context `{World}.

Definition ready (s : HttpSession) (log : list Event) (d : Z) : Prop :=
  sinv s /\ stopped_ s = false /\ log_ok s log /\ 0 <= d <= requests_dispatched_ s.

(** The loop with the fuel it needs. *)
Definition loop (d : Z) (s : HttpSession) (log : list Event) := Feed_loop (feed_fuel s) d s log.

Lemma Feed_loop_mono f : forall f' d s log, (f <= f')%nat ->
  Feed_loop f d s log <> Throw NonTermination -> Feed_loop f' d s log = Feed_loop f d s log.
Proof.
  induction f as [|f IH]; intros [|f'] d s log Hle Hn; try done; [lia|]. cbn [Feed_loop] in *.
  destruct (Feed_step d s log) as [[d' s' log'|r s' log']|e]; cbn [mbind result_bind] in *; [|done..].
  apply IH; [lia|done].
Qed.

Lemma Feed_loop_enough f d s log :
  ready s log d -> (smeasure s < f)%nat -> Feed_loop f d s log = loop d s log.
Proof.
  intros (Hs & Hst & Hl & Hd) Hf. unfold loop. pose proof (smeasure_fuel s Hs).
  pose proof (Feed_loop_ok (S (smeasure s)) d s log Hs Hst Hl Hd) as Hok.
  assert (Hn : Feed_loop (S (smeasure s)) d s log <> Throw NonTermination).
  { intros E. rewrite E in Hok. by specialize (Hok ltac:(lia)). }
  rewrite (Feed_loop_mono (S (smeasure s)) f) by (done || lia).
  by rewrite (Feed_loop_mono (S (smeasure s)) (feed_fuel s)) by (done || lia).
Qed.

(** One iteration, on the bytes of the buffer. *)
Definition iteration (d : Z) (s : HttpSession) (log : list Event) : result feed_step :=
  '(r, q) ← Parse (input_of (contents (receive_buffer_ s))) (parser_ s);
  react r d (set_parser q s) log.

Lemma Feed_step_iteration d s log :
  sinv s -> stopped_ s = false -> Feed_step d s log = iteration d s log.
Proof.
  intros Hs Hst. destruct (session_parse s Hs Hst) as (input & E & Hi & Hib & H63 & Hp).
  unfold Feed_step, iteration. rewrite E. cbn [mbind result_bind].
  destruct (input_of_ok (contents (receive_buffer_ s))) as [Hok Hb]; [rewrite <- Hib; lia|].
  by rewrite (Parse_bytes input (input_of (contents (receive_buffer_ s)))) by (done || by rewrite Hb).
Qed.

Lemma loop_unfold d s log :
  ready s log d ->
  loop d s log = (st ← iteration d s log;
                  match st with
                  | Again d' s' log' => loop d' s' log'
                  | Done r s' log' => Ok (r, s', log')
                  end).
Proof.
  intros Hr. pose proof Hr as (Hs & Hst & Hl & Hd).
  rewrite <- (Feed_loop_enough (S (smeasure s))) by (done || lia). cbn [Feed_loop].
  rewrite <- Feed_step_iteration by done. pose proof (Feed_step_ok d s log Hs Hst Hl Hd) as Hok.
  destruct (Feed_step d s log) as [[d' s' log'|r s' log']|e]; cbn [mbind result_bind]; [|done..].
  destruct Hok as ([] & Hst' & Hm). apply Feed_loop_enough; [done|lia].
Qed.

(** What an iteration does to a session it also does to one with more bytes. *)
Lemma react_extra k r d d' s s' log :
  RingReceiveBuffer.inv (receive_buffer_ s) -> RingReceiveBuffer.inv (receive_buffer_ s') -> extra k s s' ->
  (status r = Complete_ -> 0 < consumed_bytes r <= zlen (contents (receive_buffer_ s))) ->
  match react r d s log, react r d' s' log with
  | Ok (Again _ s1 log1), Ok (Again _ s2 log2) => log1 = log2 /\ extra k s1 s2
  | Ok (Done r1 s1 log1), Ok (Done r2 s2 log2) => log1 = log2 /\ extra k s1 s2 /\
      (status r <> Incomplete -> stopped_ s1 = true)
  | _, _ => False
  end.
Proof.
  intros Hb Hb' He Hr. destruct (extra_set _ _ _ He) as (b' & -> & Hc & Hm). clear He.
  unfold react. destruct (status r) eqn:Er.
  - unfold arm_timer. cbn [set_buffer timer_service_ parser_timeout_ parser_timed_out_ parser_timer_id_].
    by destruct (_ && _).
  - unfold dispatch_request. specialize (Hr eq_refl).
    cbn [set_buffer receive_buffer_] in *.
    destruct (proj1 (ring_Consume_spec _ (consumed_bytes r) Hb ltac:(lia)) ltac:(lia))
      as (b1 & -> & _ & Hc1 & Hm1).
    destruct (proj1 (ring_Consume_spec _ (consumed_bytes r) Hb' ltac:(lia)))
      as (b2 & -> & _ & Hc2 & Hm2); [rewrite Hc, zlen_app; zlia|].
    cbn [mbind result_bind]. unfold Dispatch. cbn [negb mbind result_bind].
    assert (Hc12 : contents b2 = contents b1 ++ k) by (rewrite Hc2, Hc, Hc1; apply zdrop_app_le; lia).
    assert (Hm12 : RingReceiveBuffer.maximum_capacity_ b1 = RingReceiveBuffer.maximum_capacity_ b2) by congruence.
    destruct (bool_decide _); cbn [negb]; [|done].
    unfold number_request. cbn [set_buffer count_request maximum_requests_per_connection_
      requests_dispatched_ keep_alive next_request_id_ connection_id_ router_].
    by destruct (_ || _).
  - by destruct (expect_continue r).
  - unfold cancel_timer, PostErrorResponse. cbn [set_buffer timer_service_ parser_timer_id_].
    by destruct (_ && _).
Qed.

Lemma iteration_ok d s log :
  ready s log d ->
  match iteration d s log with
  | Ok (Again d' s' log') => ready s' log' d' /\ (smeasure s' < smeasure s)%nat /\ fixed s' = fixed s
  | Ok (Done r s' log') => sinv s' /\ log_ok s' log' /\ fixed s' = fixed s
  | Throw _ => True
  end.
Proof.
  intros (Hs & Hst & Hl & Hd). rewrite <- Feed_step_iteration by done.
  pose proof (Feed_step_ok d s log Hs Hst Hl Hd) as Hok.
  destruct (Feed_step d s log) as [[d' s' log'|r s' log']|e]; [| |done].
  - destruct Hok as ([] & ? & ?). by split_and!.
  - destruct Hok as ([] & ?). by split_and!.
Qed.

(** The input of an iteration. *)
Lemma ready_input s log d :
  ready s log d ->
  let c := contents (receive_buffer_ s) in
  seq_ok (input_of c) /\ seq_bytes (input_of c) = c /\ zlen c < 2 ^ 63 /\ pinv (zlen c) (parser_ s) /\
  RingReceiveBuffer.inv (receive_buffer_ s).
Proof.
  intros (Hs & Hst & _ & _). destruct (session_parse s Hs Hst) as (input & _ & _ & Hib & H63 & Hp).
  rewrite Hib in *. destruct (input_of_ok (contents (receive_buffer_ s))) as [? ?]; [lia|].
  split_and!; try done. apply Hs.
Qed.

(** A parser's answer on the bytes of a session. *)
Lemma ready_parse s log d :
  ready s log d ->
  parse_ok (zlen (contents (receive_buffer_ s))) (options_ (parser_ s))
    (Parse (input_of (contents (receive_buffer_ s))) (parser_ s)).
Proof.
  intros Hr. destruct (ready_input _ _ _ Hr) as (Hi & Hib & H63 & Hp & _).
  pose proof (Parse_ok (input_of (contents (receive_buffer_ s))) (parser_ s) Hi) as Hok.
  rewrite Hib in Hok. by apply Hok.
Qed.

Lemma extra_same k s s' : extra k s s' -> stopped_ s = true -> same s s'.
Proof.
  intros He Hst. destruct (extra_set _ _ _ He) as (b & -> & _). split_and!; try done.
  intros Hf. congruence.
Qed.

Lemma extra_same_sym k s s' : extra k s s' -> stopped_ s = true -> same s' s.
Proof.
  intros He Hst. destruct (extra_set _ _ _ He) as (b & -> & _). split_and!; try done.
  cbn. intros Hf. congruence.
Qed.

Lemma extra_nil_same s s' : extra [] s s' -> same s s'.
Proof. intros He. pose proof He as He'. apply extra_set in He' as (b & -> & _). done. Qed.

Lemma extra_parser k q s s' : extra k s s' -> extra k (set_parser q s) (set_parser q s').
Proof. intros He. pose proof He as He'. apply extra_set in He' as (b & -> & ? & ?). done. Qed.

(** Two iterations with the same answer of the parser. *)
Lemma react_same k r q d d' s s' log :
  ready s log d -> ready s' log d' -> extra k s s' ->
  parse_ok (zlen (contents (receive_buffer_ s))) (options_ (parser_ s)) (Ok (r, q)) ->
  match react r d (set_parser q s) log, react r d' (set_parser q s') log with
  | Ok (Again _ s1 log1), Ok (Again _ s2 log2) => log1 = log2 /\ extra k s1 s2
  | Ok (Done r1 s1 log1), Ok (Done r2 s2 log2) => log1 = log2 /\ extra k s1 s2 /\
      (status r <> Incomplete -> stopped_ s1 = true)
  | _, _ => False
  end.
Proof.
  intros Hr Hr' He [_ Hok]. apply react_extra.
  - apply Hr.
  - apply Hr'.
  - by apply extra_parser.
  - intros E. rewrite E in Hok. destruct Hok as [(_ & _ & ?) _]. done.
Qed.

Lemma loop_eq : forall n d d' s s' log,
  (smeasure s < n)%nat -> ready s log d -> ready s' log d' -> extra [] s s' ->
  same_outcome (loop d s log) (loop d' s' log).
Proof.
  induction n as [|n IH]; intros d d' s s' log Hn Hr Hr' He; [lia|].
  rewrite !loop_unfold by done.
  pose proof (iteration_ok _ _ _ Hr) as Hi. pose proof (iteration_ok _ _ _ Hr') as Hi'.
  pose proof (ready_parse _ _ _ Hr) as Hp. unfold iteration in *.
  pose proof (extra_set _ _ _ He) as (b & E & Hc & _). rewrite app_nil_r in Hc.
  assert (Ec : contents (receive_buffer_ s') = contents (receive_buffer_ s)) by (by rewrite E).
  assert (Ep : parser_ s' = parser_ s) by (by rewrite E). rewrite Ec, Ep in *.
  destruct (Parse _ _) as [[r q]|e]; [|done]. cbn [mbind result_bind] in *.
  pose proof (react_same [] r q d d' s s' log Hr Hr' He Hp) as Hs.
  destruct (react r d _ log) as [[d1 s1 log1|r1 s1 log1]|e], (react r d' _ log) as [[d2 s2 log2|r2 s2 log2]|e'];
    try done; cbn [mbind result_bind].
  - destruct Hs as [<- He1], Hi as (Hr1 & Hm1 & _), Hi' as (Hr2 & _). apply IH; [lia|done..].
  - destruct Hs as (<- & He1 & _). split; [done|]. by apply extra_nil_same.
Qed.

(** Going on from a parser that asked for more bytes is like parsing them all. *)
Lemma loop_resume d d' d2 k q s s' s2 log :
  ready s log d -> ready s' log d' -> ready s2 log d2 -> extra k s s' -> extra k (set_parser q s) s2 ->
  zlen (contents (receive_buffer_ s')) <= maximum_header_bytes (options_ (parser_ s)) ->
  Parse (input_of (contents (receive_buffer_ s))) (parser_ s) = Ok (HttpParseResult_default, q) ->
  same_outcome (loop d' s' log) (loop d2 s2 log).
Proof.
  intros Hr Hr' Hr2 He He2 Hle E.
  pose proof (extra_set _ _ _ He) as (b & E1 & Hc1 & _). pose proof (extra_set _ _ _ He2) as (b2 & E2 & Hc2 & _).
  assert (Ep : parser_ s' = parser_ s) by (by rewrite E1). assert (Ep2 : parser_ s2 = q) by (by rewrite E2).
  assert (Ec : contents (receive_buffer_ s') = contents (receive_buffer_ s) ++ k) by (by rewrite E1).
  assert (Ec2 : contents (receive_buffer_ s2) = contents (receive_buffer_ s) ++ k) by (by rewrite E2).
  destruct (ready_input _ _ _ Hr) as (Hi & Hib & _ & Hp & _).
  destruct (ready_input _ _ _ Hr') as (_ & _ & H63 & _ & _).
  assert (Hg : grows (input_of (contents (receive_buffer_ s))) (input_of (contents (receive_buffer_ s')))).
  { rewrite Ec. apply input_of_grows. by rewrite <- Ec. }
  pose proof (Parse_resume _ _ Hi Hg True (parser_ s) q HttpParseResult_default) as Hres.
  assert (Hib' : seq_bytes (input_of (contents (receive_buffer_ s'))) = contents (receive_buffer_ s')).
  { apply input_of_ok. lia. }
  rewrite Hib, Hib' in Hres. specialize (Hres ltac:(done) Hp E eq_refl). clear E.
  pose proof (iteration_ok _ _ _ Hr') as Hi1. pose proof (iteration_ok _ _ _ Hr2) as Hi2.
  pose proof (ready_parse _ _ _ Hr') as Hok. pose proof (ready_parse _ _ _ Hr2) as Hok2.
  rewrite !loop_unfold by done. unfold iteration in *. rewrite Ep, Ep2, Ec2, <- Ec in *.
  destruct (Parse _ (parser_ s)) as [[r1 q1]|e1], (Parse _ q) as [[r2 q2]|e2]; cbn in Hres; try done.
  cbn [mbind result_bind] in *. destruct Hres as [Hreq Hpeq].
  destruct Hreq as (Hq1 & Hq2 & Hq3 & Hq4 & Hq5).
  assert (r2 = r1) as -> by (destruct r1, r2; cbn in *; f_equal; auto). clear Hq1 Hq2 Hq3 Hq4 Hq5.
  destruct Hok as [Ho Hok], Hok2 as [Ho2 Hok2]. destruct (decide (status r1 = Error_)) as [Ee|Ee].
  - rewrite Ee in Hok, Hok2. unfold react in *. rewrite Ee in *. cbn [mbind result_bind].
    unfold cancel_timer, PostErrorResponse. subst s' s2. cbn [set_buffer set_parser timer_service_ parser_timer_id_].
    by destruct (_ && _).
  - assert (q2 = q1) as ->.
    { apply Hpeq; [|by left]. destruct (status r1); try done; [apply Hok2|destruct Hok2 as [_ ->]; done|apply Hok2]. }
    assert (He12 : extra [] (set_parser q1 s') (set_parser q1 s2)).
    { destruct He as (_ & _ & Hm1), He2 as (_ & _ & Hm2). split; [by rewrite E1, E2|].
      split; [by rewrite app_nil_r|cbn in *; congruence]. }
    pose proof (react_extra [] r1 d' d2 (set_parser q1 s') (set_parser q1 s2) log
      (si_ring _ (proj1 Hr')) (si_ring _ (proj1 Hr2)) He12) as Hs.
    assert (Hcb : status r1 = Complete_ -> 0 < consumed_bytes r1 <= zlen (contents (receive_buffer_ s'))).
    { intros Es. rewrite Es in Hok. by destruct Hok as [(_ & _ & ?) _]. }
    specialize (Hs Hcb).
    destruct (react r1 d' (set_parser q1 s') log) as [[d1 s1 log1|x1 s1 log1]|e],
      (react r1 d2 (set_parser q1 s2) log) as [[d3 s3 log2|x2 s3 log2]|e']; try done; cbn [mbind result_bind].
    + destruct Hs as [<- Hs], Hi1 as (? & _), Hi2 as (? & _). by apply (loop_eq (S (smeasure s1))); [lia|..].
    + destruct Hs as (<- & Hs & _). split; [done|]. by apply extra_nil_same.
Qed.
(** The loop on some of the bytes, then on all of them. *)
Lemma loop_split k : forall n d d' s s' log,
  (smeasure s < n)%nat -> ready s log d -> ready s' log d' -> extra k s s' -> timer_service_ s = false ->
  zlen (contents (receive_buffer_ s')) <= maximum_header_bytes (options_ (parser_ s)) ->
  match loop d s log with
  | Ok (r, s1, log1) =>
      if stopped_ s1 then same_outcome (loop d' s' log) (Ok (r, s1, log1))
      else forall d2 s2, ready s2 log1 d2 -> extra k s1 s2 -> same_outcome (loop d' s' log) (loop d2 s2 log1)
  | Throw e => loop d' s' log = Throw e
  end.
Proof.
  induction n as [|n IH]; intros d d' s s' log Hn Hr Hr' He Ht Hle; [lia|].
  rewrite (loop_unfold d s) by done.
  pose proof (iteration_ok _ _ _ Hr) as Hi. pose proof (iteration_ok _ _ _ Hr') as Hi'.
  pose proof (ready_parse _ _ _ Hr) as Hp.
  pose proof (extra_set _ _ _ He) as (b & E & Hc & _).
  assert (Ep : parser_ s' = parser_ s) by (by rewrite E).
  assert (Ec : contents (receive_buffer_ s') = contents (receive_buffer_ s) ++ k) by (by rewrite E).
  destruct (ready_input _ _ _ Hr) as (Hin & Hib & _ & Hpi & _).
  destruct (ready_input _ _ _ Hr') as (_ & _ & H63 & _ & _).
  assert (Hg : grows (input_of (contents (receive_buffer_ s))) (input_of (contents (receive_buffer_ s')))).
  { rewrite Ec. apply input_of_grows. by rewrite <- Ec. }
  pose proof (Parse_stable _ _ Hin Hg (parser_ s)) as Hstab. rewrite Hib in Hstab. specialize (Hstab Hpi).
  unfold iteration in *. rewrite Ep in *.
  destruct (Parse (input_of (contents (receive_buffer_ s))) _) as [[r q]|e] eqn:EP; cbn [mbind result_bind] in *.
  2:{ rewrite loop_unfold by done. unfold iteration. by rewrite Ep, Hstab. }
  destruct (decide (status r = Incomplete)) as [Er|Er].
  - destruct Hp as [_ Hp]. rewrite Er in Hp. destruct Hp as [-> _].
    unfold react, arm_timer in *. cbn [status HttpParseResult_default set_parser timer_service_] in *.
    rewrite Ht in *. cbn [andb mbind result_bind] in *.
    rewrite (proj1 (proj2 Hr) : stopped_ (set_parser q s) = false).
    intros d2 s2 Hr2 He2. by eapply (loop_resume d d' d2 k q s s' s2).
  - specialize (Hstab Er). rewrite Hstab in Hi'. cbn [mbind result_bind] in Hi'.
    assert (Hu : loop d' s' log = (st ← react r d' (set_parser q s') log;
      match st with Again d1 s1 log1 => loop d1 s1 log1 | Done r s' log' => Ok (r, s', log') end)).
    { rewrite loop_unfold by done. unfold iteration. by rewrite Ep, Hstab. }
    rewrite Hu. clear Hu.
    pose proof (react_same k r q d d' s s' log Hr Hr' He Hp) as Hs.
    destruct (react r d (set_parser q s) log) as [[d1 s1 log1|x1 s1 log1]|e],
      (react r d' (set_parser q s') log) as [[d2 s2 log2|x2 s2 log2]|e']; try done; cbn [mbind result_bind].
    + destruct Hs as [<- Hs], Hi as (Hr1 & Hm1 & Hf1), Hi' as (Hr2 & Hm2 & Hf2).
      unfold fixed in Hf1. injection Hf1 as Hf1 Hf3 Hf4 Hf5 Hf6 Hf7 Hf8 Hf9.
      apply IH; try done; [lia|congruence|]. rewrite Hf6. unfold smeasure in Hm2.
      assert (zlen (contents (receive_buffer_ s2)) <= zlen (contents (receive_buffer_ s')));
        [destruct (in_head (parser_ s2)), (in_head (parser_ s')); zlia|lia].
    + destruct Hs as (<- & Hs & Hst). rewrite (Hst Er). split; [done|]. apply (extra_same_sym k); [done|]. by apply Hst.
Qed.

(** ** Reads *)

Lemma react_len r d s log :
  RingReceiveBuffer.inv (receive_buffer_ s) ->
  (status r = Complete_ -> 0 < consumed_bytes r <= zlen (contents (receive_buffer_ s))) ->
  match react r d s log with
  | Ok (Again _ s' _) | Ok (Done _ s' _) =>
      zlen (contents (receive_buffer_ s')) <= zlen (contents (receive_buffer_ s))
  | Throw _ => True
  end.
Proof.
  intros Hb Hr. unfold react, arm_timer. destruct (status r); [destruct (_ && _); cbn; lia| |cbn; lia|cbn; lia].
  unfold dispatch_request. specialize (Hr eq_refl).
  destruct (proj1 (ring_Consume_spec _ (consumed_bytes r) Hb ltac:(lia)) ltac:(lia))
    as (b1 & -> & _ & Hc1 & _). cbn [mbind result_bind]. unfold Dispatch. cbn [negb mbind result_bind].
  assert (zlen (contents b1) <= zlen (contents (receive_buffer_ s))) by (rewrite Hc1; zlia).
  destruct (negb _); [done|]. by destruct (_ || _).
Qed.

Lemma loop_len n : forall d s log, (smeasure s < n)%nat -> ready s log d ->
  match loop d s log with
  | Ok (_, s', _) => zlen (contents (receive_buffer_ s')) <= zlen (contents (receive_buffer_ s))
  | Throw _ => True
  end.
Proof.
  induction n as [|n IH]; intros d s log Hn Hr; [lia|]. rewrite loop_unfold by done.
  pose proof (iteration_ok _ _ _ Hr) as Hi. pose proof (ready_parse _ _ _ Hr) as Hp. unfold iteration in *.
  destruct (Parse _ _) as [[r q]|e]; [|done]. cbn [mbind result_bind] in *. destruct Hp as [_ Hp].
  pose proof (react_len r d (set_parser q s) log (si_ring _ (proj1 Hr))) as Hl.
  assert (Hcb : status r = Complete_ -> 0 < consumed_bytes r <= zlen (contents (receive_buffer_ s))).
  { intros Es. rewrite Es in Hp. by destruct Hp as [(_ & _ & ?) _]. }
  specialize (Hl Hcb). destruct (react _ _ _ _) as [[d1 s1 log1|x1 s1 log1]|e]; [|done..].
  destruct Hi as (Hr1 & Hm1 & _). specialize (IH d1 s1 log1 ltac:(lia) Hr1). cbn [mbind result_bind].
  destruct (loop d1 s1 log1) as [[[? s2] ?]|]; [|done]. cbn in *. lia.
Qed.

(** A session without a timer, with room for [n] more bytes. *)
Record calm (n : Z) (s : HttpSession) (log : list Event) : Prop := {
  ca_sinv : sinv s;
  ca_log : log_ok s log;
  ca_timer : timer_service_ s = false;
  ca_timeout : parser_timed_out_ s = false;
  ca_room : stopped_ s = false ->
    zlen (contents (receive_buffer_ s)) + n <= RingReceiveBuffer.maximum_capacity_ (receive_buffer_ s) /\
    zlen (contents (receive_buffer_ s)) + n <= maximum_header_bytes (options_ (parser_ s));
}.

Lemma Feed_stopped bytes n s log : calm n s log -> stopped_ s = true ->
  Feed bytes s log = Ok (feed_result FeedStopped 0 s, s, log).
Proof.
  intros [] Hst. unfold Feed, cancel_timer. by rewrite ca_timeout0, Hst, ca_timer0.
Qed.

(** A read that fits. *)
Lemma Feed_loop_of bytes n s log : calm n s log -> stopped_ s = false -> zlen bytes <= n ->
  exists s1, Feed bytes s log = loop 0 s1 log /\ extra bytes s s1 /\ ready s1 log 0.
Proof.
  intros [Hs Hl Ht Hto Hroom] Hst Hn. destruct (Hroom Hst) as [Hcap _].
  destruct (proj1 (ring_Append_spec _ bytes (si_ring _ Hs))) as (b & E & Hb & Hc & Hm); [lia|].
  exists (set_buffer b s). unfold Feed. rewrite Hto, Hst, E. cbn [mbind result_bind].
  rewrite bool_decide_eq_true_2 by done. split; [done|]. split; [done|].
  split; [by eapply sinv_append|]. split; [done|]. split; [|pose proof (si_count _ Hs); cbn; lia].
  rewrite <- (app_nil_r log). by apply (log_ok_quiet s).
Qed.

Lemma Feed_calm bytes n s log : calm (zlen bytes + n) s log -> 0 <= n ->
  match Feed bytes s log with Ok (_, s1, log1) => calm n s1 log1 | Throw _ => True end.
Proof.
  intros Hcalm Hn. pose proof Hcalm as [Hs Hl Ht Hto Hroom]. pose proof (Feed_ok bytes s log Hs Hl) as Hok.
  destruct (stopped_ s) eqn:Hst.
  { rewrite (Feed_stopped _ _ _ _ Hcalm Hst). split; try done. cbn. congruence. }
  destruct (Feed_loop_of bytes _ s log Hcalm Hst) as (s0 & E & He & Hr); [lia|]. rewrite E in *.
  pose proof (loop_len (S (smeasure s0)) 0 s0 log ltac:(lia) Hr) as Hlen.
  destruct (loop 0 s0 log) as [[[r s1] log1]|e]; [|done].
  destruct Hok as [[? ? Hf ? ?]|(? & ? & ?)]; [|congruence].
  unfold fixed in Hf. injection Hf as Hf1 Hf2 Hf3 Hf4 Hf5 Hf6 Hf7 Hf8.
  split; try done; [congruence|congruence|]. intros Hst1. rewrite Hf4, Hf5.
  destruct (Hroom eq_refl). destruct He as (_ & Hc & _). rewrite Hc, zlen_app in Hlen. lia.
Qed.

(** Two reads, or one with the bytes of both. *)
Lemma Feed_two a k s log : calm (zlen (a ++ k)) s log ->
  same_outcome ('(_, s1, log1) ← Feed a s log; Feed k s1 log1) (Feed (a ++ k) s log).
Proof.
  intros Hcalm. rewrite zlen_app in Hcalm.
  pose proof (zlen_nonneg a). pose proof (zlen_nonneg k).
  destruct (stopped_ s) eqn:Hst.
  { rewrite !(Feed_stopped _ _ _ _ Hcalm Hst). cbn [mbind result_bind].
    rewrite (Feed_stopped _ _ _ _ Hcalm Hst). reflexivity. }
  pose proof (Feed_calm a (zlen k) s log Hcalm ltac:(lia)) as Hcalm1.
  destruct (Feed_loop_of a _ s log Hcalm Hst) as (sa & Ea & Hea & Hra); [lia|].
  destruct (Feed_loop_of (a ++ k) _ s log Hcalm Hst) as (s' & E' & He' & Hr'); [rewrite zlen_app; lia|].
  rewrite Ea, E' in *.
  assert (He : extra k sa s').
  { destruct Hea as (Ho1 & Hc1 & Hm1), He' as (Ho2 & Hc2 & Hm2). split; [congruence|].
    split; [by rewrite Hc2, Hc1, app_assoc|congruence]. }
  assert (Hsa : exists b, sa = set_buffer b s) by (destruct (extra_set _ _ _ Hea) as (b & -> & _); eauto).
  destruct Hsa as [b Hsa].
  pose proof (loop_split k (S (smeasure sa)) 0 0 sa s' log ltac:(lia) Hra Hr' He) as Hsp.
  assert (Hroom : timer_service_ sa = false /\
    zlen (contents (receive_buffer_ s')) <= maximum_header_bytes (options_ (parser_ sa))).
  { rewrite Hsa. destruct Hcalm. destruct (ca_room0 Hst). destruct He' as (_ & -> & _).
    rewrite !zlen_app. split; [done|]. cbn. lia. }
  specialize (Hsp (proj1 Hroom) (proj2 Hroom)).
  destruct (loop 0 sa log) as [[[r s1] log1]|e]; cbn [mbind result_bind]; [|by rewrite Hsp].
  destruct (stopped_ s1) eqn:Hst1.
  - rewrite (Feed_stopped _ _ _ _ Hcalm1 Hst1). symmetry. done.
  - destruct (Feed_loop_of k _ s1 log1 Hcalm1 Hst1) as (s2 & -> & He2 & Hr2); [lia|].
    symmetry. by apply Hsp.
Qed.

(** The outcome of all the reads of a connection. *)
Fixpoint feed_all (reads : list (list byte)) (r : ProtocolFeedResult) (s : HttpSession) (log : list Event)
    : result (ProtocolFeedResult * HttpSession * list Event) :=
  match reads with
  | [] => Ok (r, s, log)
  | bytes :: reads => '(r, s, log) ← Feed bytes s log; feed_all reads r s log
  end.

Lemma feed_all_run reads : forall r s log,
  session_run (map OpFeed reads) s log = ('(_, s, log) ← feed_all reads r s log; Ok (s, log)).
Proof.
  induction reads as [|bytes reads IH]; intros r s log; [done|]. cbn [session_run map feed_all].
  destruct (Feed bytes s log) as [[[r1 s1] log1]|e]; [|done]. cbn [mbind result_bind]. apply IH.
Qed.

Lemma feed_all_concat reads : forall a r s log, calm (zlen (concat (a :: reads))) s log ->
  same_outcome (feed_all (a :: reads) r s log) (Feed (concat (a :: reads)) s log).
Proof.
  induction reads as [|b reads IH]; intros a r s log Hcalm.
  { cbn [feed_all concat]. rewrite app_nil_r. destruct (Feed a s log) as [[[? ?] ?]|]; cbn; [|done].
    split; reflexivity. }
  change (concat (a :: b :: reads)) with (a ++ concat (b :: reads)) in *.
  etransitivity; [|by apply Feed_two]. rewrite zlen_app in Hcalm.
  pose proof (Feed_calm a (zlen (concat (b :: reads))) s log Hcalm ltac:(zlia)) as Hc.
  change (feed_all (a :: b :: reads) r s log) with
    ('(r, s, log) ← Feed a s log; feed_all (b :: reads) r s log).
  destruct (Feed a s log) as [[[r1 s1] log1]|e]; cbn [mbind result_bind]; [|done]. by apply IH.
Qed.
End split.

(** ** The properties *)

(** C25. A session does not see how the bytes of its connection were cut into
    reads: as long as they fit the receive buffer and the limit on header
    bytes, it dispatches the same requests with the same numbers, sends the
    same responses in the same order, stops at the same point with the same
    error, and has the same bytes left, as when they all arrive at once. *)
Theorem session_split_independent `{World} router id o a reads s0 :
  session_sizes o -> HttpSession_make (Some router) true true id o = Ok s0 ->
  zlen (concat (a :: reads)) <= maximum_buffer_bytes o ->
  zlen (concat (a :: reads)) <= maximum_header_bytes (parser o) ->
  match session_run (map OpFeed (a :: reads)) s0 [], session_run [OpFeed (concat (a :: reads))] s0 [] with
  | Ok (s, log), Ok (s', log') =>
      log = log' /\ stopped_ s = stopped_ s' /\ requests_dispatched_ s = requests_dispatched_ s' /\
      last_parse_error_ s = last_parse_error_ s' /\
      (stopped_ s = false -> contents (receive_buffer_ s) = contents (receive_buffer_ s') /\
                             parser_ s = parser_ s')
  | Throw e, Throw e' => e = e'
  | _, _ => False
  end.
Proof.
  intros Hsz E Hb Hh. destruct (HttpSession_make_ok _ _ _ _ Hsz E) as (Hs & Hl & Hst & Hc & Hf).
  unfold fixed in Hf. injection Hf as Hf1 Hf2 Hf3 Hf4 Hf5 Hf6 Hf7 Hf8.
  pose proof (feed_all_concat reads a (mkFeedResult FeedReady 0 0) s0 []) as Hsame.
  rewrite (feed_all_run (a :: reads) (mkFeedResult FeedReady 0 0)). cbn [session_run].
  assert (Hcalm : calm (zlen (concat (a :: reads))) s0 []).
  { split; try done. intros _. by rewrite Hc, Hf4, Hf5. }
  specialize (Hsame Hcalm).
  destruct (feed_all _ _ _ _) as [[[r s] log]|e], (Feed _ _ _) as [[[r' s'] log']|e']; cbn in *; try done.
  destruct Hsame as (-> & ? & ? & ? & _ & _ & He). split_and!; try done. intros Hst1.
  destruct (extra_set _ _ _ (He Hst1)) as (b & -> & Hcb & _). cbn. rewrite app_nil_r in Hcb. done.
Qed.

Definition sample_get (path : list byte) : list byte :=
  $"GET " ++ path ++ $" HTTP/1.1" ++ CRLF ++ $"Host: x" ++ CRLF ++ CRLF.

Lemma session_split_independent_witness :
  let reads := [ztake 10 (sample_get $"/a"); zdrop 10 (sample_get $"/a") ++ ztake 5 (sample_get $"/b");
                zdrop 5 (sample_get $"/b")] in
  match session_run (map OpFeed reads) sample_session [],
        session_run [OpFeed (concat reads)] sample_session [] with
  | Ok (s, log), Ok (s', log') => log = log' /\ requests_dispatched_ s' = 2
  | _, _ => False
  end.
Proof.
  intros reads.
  pose proof (session_split_independent ∅ 7 sample_session_options (ztake 10 (sample_get $"/a"))
    [zdrop 10 (sample_get $"/a") ++ ztake 5 (sample_get $"/b"); zdrop 5 (sample_get $"/b")] sample_session
    sample_session_sizes sample_session_make
    ltac:(vm_compute; discriminate) ltac:(vm_compute; discriminate)) as H.
  fold reads in H.
  assert (Hn : match session_run [OpFeed (concat reads)] sample_session [] with
               | Ok (s', _) => requests_dispatched_ s' = 2 | Throw _ => False end)
    by (vm_compute; reflexivity).
  destruct (session_run (map OpFeed reads) sample_session []) as [[s log]|],
    (session_run [_] sample_session []) as [[s' log']|]; [|contradiction..]. split; [apply H|exact Hn].
Defined.
