(* ===== verification/Http2Frames.v ===== *)
(** * HTTP/2 frames

    Frame types, flags and error codes of [http2_frames.h], the frame header
    codec and the payload encoders of [http2_frames.cpp].  The header written
    by [EncodeHeader] is read back by [DecodeHeader] exactly when the stream
    identifier fits in sixteen bits. *)

From S2P Require Import Prelude BufferSequence.

(** ** Enumerations

    The three enumerations have a fixed underlying type and are produced by
    casts from the wire, so that a value need not be one of the enumerators:
    they are numbers. *)

Definition FrameType_Data : Z := 0x00.
Definition FrameType_Headers : Z := 0x01.
Definition FrameType_Priority : Z := 0x02.
Definition FrameType_RstStream : Z := 0x03.
Definition FrameType_Settings : Z := 0x04.
Definition FrameType_PushPromise : Z := 0x05.
Definition FrameType_Ping : Z := 0x06.
Definition FrameType_Goaway : Z := 0x07.
Definition FrameType_WindowUpdate : Z := 0x08.
Definition FrameType_Continuation : Z := 0x09.

Definition FrameFlags_None : Z := 0x00.
Definition FrameFlags_EndStream : Z := 0x01.
Definition FrameFlags_Ack : Z := 0x01.
Definition FrameFlags_EndHeaders : Z := 0x04.
Definition FrameFlags_Padded : Z := 0x08.
Definition FrameFlags_Priority : Z := 0x20.

Definition ErrorCode_NoError : Z := 0x00.
Definition ErrorCode_ProtocolError : Z := 0x01.
Definition ErrorCode_InternalError : Z := 0x02.
Definition ErrorCode_FlowControlError : Z := 0x03.
Definition ErrorCode_SettingsTimeout : Z := 0x04.
Definition ErrorCode_StreamClosed : Z := 0x05.
Definition ErrorCode_FrameSizeError : Z := 0x06.
Definition ErrorCode_RefusedStream : Z := 0x07.
Definition ErrorCode_Cancel : Z := 0x08.
Definition ErrorCode_CompressionError : Z := 0x09.
Definition ErrorCode_ConnectError : Z := 0x0a.
Definition ErrorCode_EnhanceYourCalm : Z := 0x0b.
Definition ErrorCode_InadequateSecurity : Z := 0x0c.
Definition ErrorCode_Http11Required : Z := 0x0d.

Record FrameHeader := mkFrameHeader {
  fh_length : Z;
  fh_type : Z;
  fh_flags : Z;
  fh_stream_id : Z;
}.

#[export] Instance FrameHeader_eq_dec : EqDecision FrameHeader.
Proof. solve_decision. Defined.

Definition kHeaderSize : Z := 9.
Definition kMaxFrameSize : Z := 16384.
Definition kPreface : list byte :=
  $"PRI * HTTP/2.0" ++ [Byte.x0d; Byte.x0a; Byte.x0d; Byte.x0a] ++ $"SM" ++
  [Byte.x0d; Byte.x0a; Byte.x0d; Byte.x0a].

(** ** Frame headers *)

Definition MakeUint32 (b0 b1 b2 b3 : byte) : Z :=
  Z.lor (Z.lor (Z.lor (Z.shiftl (b2z b0) 24) (Z.shiftl (b2z b1) 16)) (Z.shiftl (b2z b2) 8))
    (b2z b3).

(** [DecodeHeader] leaves its output alone when it returns [false] ([None]). *)
Definition DecodeHeader (input : BufferSequence) : result (option FrameHeader) :=
  if seq_size input <? kHeaderSize then Ok None
  else
    a0 ← At input 0; a1 ← At input 1; a2 ← At input 2;
    let length := MakeUint32 Byte.x00 a0 a1 a2 in
    a3 ← At input 3; a4 ← At input 4;
    a5 ← At input 5; a6 ← At input 6; a7 ← At input 7; a8 ← At input 8;
    let stream_id :=
      Z.lor
        (Z.lor (MakeUint32 Byte.x00 Byte.x00 (z2b (Z.land (b2z a5) 0x7f)) a6)
           (Z.shiftl (b2z a7) 8))
        (Z.shiftl (b2z a8) 0) in
    Ok (Some (mkFrameHeader length (b2z a3) (b2z a4) (Z.land stream_id 0x7fffffff))).

(** [FromUint8(static_cast<std::uint8_t>((v >> sh) & mask))] *)
Definition field (v sh mask : Z) : byte := z2b (Z.land (Z.shiftr v sh) mask).

(** The four pushes of a 32-bit value, most significant byte first. *)
Definition be32 (v : Z) : list byte :=
  [field v 24 0xff; field v 16 0xff; field v 8 0xff; field v 0 0xff].

(** The same with the most significant bit cleared. *)
Definition be31 (v : Z) : list byte :=
  [field v 24 0x7f; field v 16 0xff; field v 8 0xff; field v 0 0xff].

Definition EncodeHeader (h : FrameHeader) : list byte :=
  [field (fh_length h) 16 0xff; field (fh_length h) 8 0xff; field (fh_length h) 0 0xff;
   z2b (fh_type h); z2b (fh_flags h)] ++ be31 (fh_stream_id h).

(** ** Payloads *)

Definition encode_setting (s : Z * Z) : list byte :=
  [field s.1 8 0xff; field s.1 0 0xff] ++ be32 s.2.

(** The header of a frame whose payload is [payload], then the payload. *)
Definition frame_of (type flags stream_id : Z) (payload : list byte) : list byte :=
  EncodeHeader (mkFrameHeader (u32 (zlen payload)) type flags stream_id) ++ payload.

Definition EncodeSettings (settings : list (Z * Z)) : list byte :=
  let payload := concat (map encode_setting settings) in
  frame_of FrameType_Settings 0 0 payload.

Definition EncodeGoaway (last_stream_id error_code : Z) (debug_data : list byte) : list byte :=
  let payload := be31 last_stream_id ++ be32 error_code ++ debug_data in
  frame_of FrameType_Goaway 0 0 payload.

Definition EncodeRstStream (error_code : Z) : list byte := be32 error_code.

Definition EncodePing (opaque_data : Z) (ack : bool) : list byte :=
  let payload := be32 (Z.shiftr opaque_data 32) ++ be32 opaque_data in
  frame_of FrameType_Ping (if ack then FrameFlags_Ack else 0) 0 payload.

Definition EncodeWindowUpdate (window_size_increment : Z) : list byte :=
  be31 (Z.land window_size_increment 0x7fffffff).

Definition Flatten (frames : list (list byte)) : list byte := concat frames.

Definition FrameTypeName (type : Z) : list byte :=
  if type =? FrameType_Data then $"DATA"
  else if type =? FrameType_Headers then $"HEADERS"
  else if type =? FrameType_Priority then $"PRIORITY"
  else if type =? FrameType_RstStream then $"RST_STREAM"
  else if type =? FrameType_Settings then $"SETTINGS"
  else if type =? FrameType_PushPromise then $"PUSH_PROMISE"
  else if type =? FrameType_Ping then $"PING"
  else if type =? FrameType_Goaway then $"GOAWAY"
  else if type =? FrameType_WindowUpdate then $"WINDOW_UPDATE"
  else if type =? FrameType_Continuation then $"CONTINUATION"
  else $"UNKNOWN".

Definition ErrorCodeName (code : Z) : list byte :=
  if code =? ErrorCode_NoError then $"NO_ERROR"
  else if code =? ErrorCode_ProtocolError then $"PROTOCOL_ERROR"
  else if code =? ErrorCode_InternalError then $"INTERNAL_ERROR"
  else if code =? ErrorCode_FlowControlError then $"FLOW_CONTROL_ERROR"
  else if code =? ErrorCode_SettingsTimeout then $"SETTINGS_TIMEOUT"
  else if code =? ErrorCode_StreamClosed then $"STREAM_CLOSED"
  else if code =? ErrorCode_FrameSizeError then $"FRAME_SIZE_ERROR"
  else if code =? ErrorCode_RefusedStream then $"REFUSED_STREAM"
  else if code =? ErrorCode_Cancel then $"CANCEL"
  else if code =? ErrorCode_CompressionError then $"COMPRESSION_ERROR"
  else if code =? ErrorCode_ConnectError then $"CONNECT_ERROR"
  else if code =? ErrorCode_EnhanceYourCalm then $"ENHANCE_YOUR_CALM"
  else if code =? ErrorCode_InadequateSecurity then $"INADEQUATE_SECURITY"
  else if code =? ErrorCode_Http11Required then $"HTTP_1_1_REQUIRED"
  else $"UNKNOWN".

(** ** Bytes of an integer *)

Lemma MakeUint32_spec b0 b1 b2 b3 :
  MakeUint32 b0 b1 b2 b3 = ((b2z b0 * 256 + b2z b1) * 256 + b2z b2) * 256 + b2z b3.
Proof.
  unfold MakeUint32.
  pose proof (b2z_range b0). pose proof (b2z_range b1).
  pose proof (b2z_range b2). pose proof (b2z_range b3).
  rewrite (lor_shiftl_add (b2z b0)) by (rewrite ?Z.shiftl_mul_pow2; lia).
  rewrite Z.shiftl_mul_pow2 by lia.
  replace (b2z b0 * 2 ^ 24 + b2z b1 * 2 ^ 16) with (Z.shiftl (b2z b0 * 256 + b2z b1) 16)
    by (rewrite Z.shiftl_mul_pow2; lia).
  rewrite (lor_shiftl_add (_ + _)) by (rewrite ?Z.shiftl_mul_pow2; lia).
  rewrite Z.shiftl_mul_pow2 by lia.
  replace ((b2z b0 * 256 + b2z b1) * 2 ^ 16 + b2z b2 * 2 ^ 8)
    with (Z.shiftl ((b2z b0 * 256 + b2z b1) * 256 + b2z b2) 8)
    by (rewrite Z.shiftl_mul_pow2; lia).
  rewrite lor_shiftl_add; lia.
Qed.

Lemma b2z_field_ff v sh : 0 <= sh -> b2z (field v sh 0xff) = v / 2 ^ sh mod 256.
Proof.
  intros. unfold field. rewrite b2z_z2b, land_0xff, Z.shiftr_div_pow2 by done.
  by rewrite Zmod_mod.
Qed.

Lemma b2z_field_7f v sh : 0 <= sh -> b2z (field v sh 0x7f) = v / 2 ^ sh mod 128.
Proof.
  intros. unfold field. rewrite b2z_z2b, land_0x7f, Z.shiftr_div_pow2 by done.
  apply Z.mod_small. pose proof (Z.mod_pos_bound (v / 2 ^ sh) 128). lia.
Qed.

Create Rewrite HintDb bytes.
#[export] Hint Rewrite b2z_field_ff b2z_field_7f using lia : bytes.

Lemma be32_value v : 0 <= v < 2 ^ 32 ->
  MakeUint32 (field v 24 0xff) (field v 16 0xff) (field v 8 0xff) (field v 0 0xff) = v.
Proof. intros. rewrite MakeUint32_spec. autorewrite with bytes. Z.div_mod_to_equations. lia. Qed.

Lemma be31_value v : 0 <= v < 2 ^ 31 ->
  MakeUint32 (field v 24 0x7f) (field v 16 0xff) (field v 8 0xff) (field v 0 0xff) = v.
Proof. intros. rewrite MakeUint32_spec. autorewrite with bytes. Z.div_mod_to_equations. lia. Qed.

(** ** Reading a header back *)

(** What reads nine bytes in [DecodeHeader]. *)
Lemma DecodeHeader_spec s a0 a1 a2 a3 a4 a5 a6 a7 a8 rest :
  seq_ok s -> zlen (seq_bytes s) < 2 ^ 64 ->
  seq_bytes s = [a0; a1; a2; a3; a4; a5; a6; a7; a8] ++ rest ->
  DecodeHeader s = Ok (Some (mkFrameHeader (MakeUint32 Byte.x00 a0 a1 a2) (b2z a3) (b2z a4)
    (Z.land (Z.lor (Z.lor (MakeUint32 Byte.x00 Byte.x00 (z2b (Z.land (b2z a5) 0x7f)) a6)
       (Z.shiftl (b2z a7) 8)) (Z.shiftl (b2z a8) 0)) 0x7fffffff))).
Proof.
  intros Hs H64 E. unfold DecodeHeader. rewrite (seq_size_spec _ Hs).
  assert (9 <= zlen (seq_bytes s)) by (rewrite E; zlia).
  rewrite (proj2 (Z.ltb_ge _ _)) by done. rewrite !(At_spec s) by (done || lia).
  by rewrite E.
Qed.

Lemma DecodeHeader_short s :
  seq_ok s -> zlen (seq_bytes s) < kHeaderSize -> DecodeHeader s = Ok None.
Proof.
  intros Hs H. unfold DecodeHeader. rewrite (seq_size_spec _ Hs).
  by rewrite (proj2 (Z.ltb_lt _ _)).
Qed.

Record frame_header_ok (h : FrameHeader) : Prop := {
  ho_length : 0 <= fh_length h < 2 ^ 24;
  ho_type : 0 <= fh_type h < 256;
  ho_flags : 0 <= fh_flags h < 256;
  ho_stream : 0 <= fh_stream_id h < 2 ^ 31;
}.

(** The identifier that is decoded: the two halves of the real one, superposed. *)
Definition folded_id (id : Z) : Z := Z.lor (id / 2 ^ 16) (id mod 2 ^ 16).

Lemma folded_id_bound id : 0 <= id < 2 ^ 31 -> 0 <= folded_id id < 2 ^ 16.
Proof.
  intros. apply (lor_range 16); [lia|Z.div_mod_to_equations; lia..].
Qed.

Lemma folded_id_fix id : 0 <= id < 2 ^ 31 -> folded_id id = id <-> id < 2 ^ 16.
Proof.
  intros H. pose proof (folded_id_bound id H). split; [lia|]. intros Hs.
  unfold folded_id. rewrite Z.div_small, Z.mod_small by lia. done.
Qed.

Lemma stream_id_decoded id a5 a6 a7 a8 : 0 <= id < 2 ^ 31 ->
  be31 id = [a5; a6; a7; a8] ->
  Z.land (Z.lor (Z.lor (MakeUint32 Byte.x00 Byte.x00 (z2b (Z.land (b2z a5) 0x7f)) a6)
    (Z.shiftl (b2z a7) 8)) (Z.shiftl (b2z a8) 0)) 0x7fffffff = folded_id id.
Proof.
  intros Hid [= <- <- <- <-]. rewrite land_0x7f, MakeUint32_spec, Z.shiftl_0_r, <- Z.lor_assoc.
  rewrite (lor_shiftl_add _ _ 8) by (autorewrite with bytes; pose proof (Z.mod_pos_bound (id / 2^0) 256); lia).
  rewrite b2z_z2b. autorewrite with bytes. change (b2z Byte.x00) with 0.
  rewrite land_0x7fffffff.
  replace (((0 * 256 + 0) * 256 + (id / 2 ^ 24 mod 128) mod 128 mod 256) * 256 + id / 2 ^ 16 mod 256)
    with (id / 2 ^ 16) by (Z.div_mod_to_equations; lia).
  replace (id / 2 ^ 8 mod 256 * 2 ^ 8 + id / 2 ^ 0 mod 256) with (id mod 2 ^ 16)
    by (Z.div_mod_to_equations; lia).
  apply Z.mod_small. pose proof (folded_id_bound id Hid). unfold folded_id in *. lia.
Qed.

Lemma DecodeHeader_EncodeHeader s h rest :
  seq_ok s -> zlen (seq_bytes s) < 2 ^ 64 -> frame_header_ok h ->
  seq_bytes s = EncodeHeader h ++ rest ->
  DecodeHeader s = Ok (Some (mkFrameHeader (fh_length h) (fh_type h) (fh_flags h)
    (folded_id (fh_stream_id h)))).
Proof.
  intros Hs H64 [Hl Ht Hf Hi] E. destruct h as [len ty fl id]; cbn in *.
  erewrite DecodeHeader_spec; [|done|done|exact E].
  rewrite (stream_id_decoded id) by done. do 3 f_equal.
  - rewrite MakeUint32_spec. autorewrite with bytes. change (b2z Byte.x00) with 0.
    Z.div_mod_to_equations. lia.
  - by apply b2z_z2b_small.
  - by apply b2z_z2b_small.
Qed.

(** ** The properties *)

(** For a header whose fields are in range, followed by anything and however
    the receive buffer is split in segments, [DecodeHeader] recovers what
    [EncodeHeader] wrote if and only if the stream identifier is below
    [2^16]: the upper half of a larger identifier is merged into the lower. *)
Theorem header_roundtrip_iff s h rest :
  seq_ok s -> zlen (seq_bytes s) < 2 ^ 64 -> frame_header_ok h ->
  seq_bytes s = EncodeHeader h ++ rest ->
  DecodeHeader s = Ok (Some h) <-> fh_stream_id h < 2 ^ 16.
Proof.
  intros Hs H64 Hh E. rewrite (DecodeHeader_EncodeHeader s h rest) by done.
  rewrite <- folded_id_fix by apply Hh. destruct h; cbn. split; [congruence|by intros ->].
Qed.

Lemma header_roundtrip_iff_witness :
  let h := mkFrameHeader 12 FrameType_Headers FrameFlags_EndHeaders 5 in
  let s := BufferSequence_2 (view_of (ztake 4 (EncodeHeader h))) (view_of (zdrop 4 (EncodeHeader h))) in
  DecodeHeader s = Ok (Some h).
Proof.
  intros h s. apply (header_roundtrip_iff s h []).
  - split; vm_compute; try done; intuition discriminate.
  - vm_compute. reflexivity.
  - split; vm_compute; intuition discriminate.
  - vm_compute. reflexivity.
  - vm_compute. reflexivity.
Defined.

(** The header of stream 65537 is read as one of stream 1. *)
Theorem header_stream_id_lost :
  DecodeHeader (BufferSequence_1 (view_of (EncodeHeader
    (mkFrameHeader 0 FrameType_Headers FrameFlags_EndHeaders 65537)))) =
  Ok (Some (mkFrameHeader 0 FrameType_Headers FrameFlags_EndHeaders 1)).
Proof. vm_compute. reflexivity. Qed.
