(* ===== verification/Huffman.v ===== *)
(** * The Huffman codec of HPACK

    [HuffmanEncoder] and [HuffmanDecoder] of [http2_hpack.cpp]: the two code
    tables, the bit packing loop, the construction of the code tree in the
    vector [nodes_], and the bit-by-bit walk over it.  Every string without the
    byte [0xdc] is decoded to itself after encoding; the code of [0xdc] in the
    tables is not the one of RFC 7541 and starts with the code of ['1']. *)

From S2P Require Import Prelude.

(** [kCodes\[257\]\[2\]] of [HuffmanEncoder::Encode]: code and length in bits. *)
Definition HuffmanEncoder_kCodes : list (Z * Z) :=
  [(0x1ff8, 13); (0x7fffd8, 23); (0xfffffe2, 28); (0xfffffe3, 28); (0xfffffe4, 28);
   (0xfffffe5, 28); (0xfffffe6, 28); (0xfffffe7, 28); (0xfffffe8, 28); (0xffffea, 24);
   (0x3ffffffc, 30); (0xfffffe9, 28); (0xfffffea, 28); (0x3ffffffd, 30); (0xfffffeb, 28);
   (0xfffffec, 28); (0xfffffed, 28); (0xfffffee, 28); (0xfffffef, 28); (0xffffff0, 28);
   (0xffffff1, 28); (0xffffff2, 28); (0x3ffffffe, 30); (0xffffff3, 28); (0xffffff4, 28);
   (0xffffff5, 28); (0xffffff6, 28); (0xffffff7, 28); (0xffffff8, 28); (0xffffff9, 28);
   (0xffffffa, 28); (0xffffffb, 28); (0x14, 6); (0x3f8, 10); (0x3f9, 10); (0xffa, 12);
   (0x1ff9, 13); (0x15, 6); (0xf8, 8); (0x7fa, 11); (0x3fa, 10); (0x3fb, 10); (0xf9, 8);
   (0x7fb, 11); (0xfa, 8); (0x16, 6); (0x17, 6); (0x18, 6); (0x00, 5); (0x01, 5);
   (0x02, 5); (0x19, 6); (0x1a, 6); (0x1b, 6); (0x1c, 6); (0x1d, 6); (0x1e, 6); (0x1f, 6);
   (0x5c, 7); (0xfb, 8); (0x7ffc, 15); (0x20, 6); (0xffb, 12); (0x3fc, 10); (0x1ffa, 13);
   (0x21, 6); (0x5d, 7); (0x5e, 7); (0x5f, 7); (0x60, 7); (0x61, 7); (0x62, 7); (0x63, 7);
   (0x64, 7); (0x65, 7); (0x66, 7); (0x67, 7); (0x68, 7); (0x69, 7); (0x6a, 7); (0x6b, 7);
   (0x6c, 7); (0x6d, 7); (0x6e, 7); (0x6f, 7); (0x70, 7); (0x71, 7); (0x72, 7); (0xfc, 8);
   (0x73, 7); (0xfd, 8); (0x1ffb, 13); (0x7fff0, 19); (0x1ffc, 13); (0x3ffc, 14);
   (0x22, 6); (0x7ffd, 15); (0x03, 5); (0x23, 6); (0x04, 5); (0x24, 6); (0x05, 5);
   (0x25, 6); (0x26, 6); (0x27, 6); (0x06, 5); (0x74, 7); (0x75, 7); (0x28, 6); (0x29, 6);
   (0x2a, 6); (0x07, 5); (0x2b, 6); (0x76, 7); (0x2c, 6); (0x08, 5); (0x09, 5); (0x2d, 6);
   (0x77, 7); (0x78, 7); (0x79, 7); (0x7a, 7); (0x7b, 7); (0x7ffe, 15); (0x7fc, 11);
   (0x3ffd, 14); (0x1ffd, 13); (0xffffffc, 28); (0xfffe6, 20); (0x3fffd2, 22);
   (0xfffe7, 20); (0xfffe8, 20); (0x3fffd3, 22); (0x3fffd4, 22); (0x3fffd5, 22);
   (0x7fffd9, 23); (0x3fffd6, 22); (0x7fffda, 23); (0x7fffdb, 23); (0x7fffdc, 23);
   (0x7fffdd, 23); (0x7fffde, 23); (0xffffeb, 24); (0x7fffdf, 23); (0xffffec, 24);
   (0xffffed, 24); (0x3fffd7, 22); (0x7fffe0, 23); (0xffffee, 24); (0x7fffe1, 23);
   (0x7fffe2, 23); (0x7fffe3, 23); (0x7fffe4, 23); (0x1fffdc, 21); (0x3fffd8, 22);
   (0x7fffe5, 23); (0x3fffd9, 22); (0x7fffe6, 23); (0x7fffe7, 23); (0xffffef, 24);
   (0x3fffda, 22); (0x1fffdd, 21); (0xfffe9, 20); (0x3fffdb, 22); (0x3fffdc, 22);
   (0x7fffe8, 23); (0x7fffe9, 23); (0x1fffde, 21); (0x7fffea, 23); (0x3fffdd, 22);
   (0x3fffde, 22); (0xfffff0, 24); (0x1fffdf, 21); (0x3fffdf, 22); (0x7fffeb, 23);
   (0x7fffec, 23); (0x1fffe0, 21); (0x1fffe1, 21); (0x3fffe0, 22); (0x1fffe2, 21);
   (0x7fffed, 23); (0x3fffe1, 22); (0x7fffee, 23); (0x7fffef, 23); (0xfffea, 20);
   (0x3fffe2, 22); (0x3fffe3, 22); (0x3fffe4, 22); (0x7ffff0, 23); (0x3fffe5, 22);
   (0x3fffe6, 22); (0x7ffff1, 23); (0x3ffffe0, 26); (0x3ffffe1, 26); (0xfffeb, 20);
   (0x7fff1, 19); (0x3fffe7, 22); (0x7ffff2, 23); (0x3fffe8, 22); (0x1ffffec, 25);
   (0x3ffffe2, 26); (0x3ffffe3, 26); (0x3ffffe4, 26); (0x7ffffde, 27); (0x7ffffdf, 27);
   (0x3ffffe5, 26); (0xfffff1, 24); (0x1ffffed, 25); (0x7fff2, 19); (0x1fffe3, 21);
   (0x3ffffe6, 26); (0x7ffffe0, 27); (0x7ffffe1, 27); (0x3ffffe7, 26); (0x7ffffe2, 27);
   (0xfffff2, 24); (0x1fffe4, 21); (0x1fffe5, 21); (0x3ffffe8, 26); (0x3ffffe9, 26);
   (0xfffffd, 28); (0x7ffffe3, 27); (0x7ffffe4, 27); (0x7ffffe5, 27); (0xfffec, 20);
   (0xfffff3, 24); (0xfffed, 20); (0x1fffe6, 21); (0x3fffe9, 22); (0x1fffe7, 21);
   (0x1fffe8, 21); (0x7ffff3, 23); (0x3fffea, 22); (0x3fffeb, 22); (0x1ffffee, 25);
   (0x1ffffef, 25); (0xfffff4, 24); (0xfffff5, 24); (0x3ffffea, 26); (0x7ffff4, 23);
   (0x3ffffeb, 26); (0x7ffffe6, 27); (0x3ffffec, 26); (0x3ffffed, 26); (0x7ffffe7, 27);
   (0x7ffffe8, 27); (0x7ffffe9, 27); (0x7ffffea, 27); (0x7ffffeb, 27); (0xffffffe, 28);
   (0x7ffffec, 27); (0x7ffffed, 27); (0x7ffffee, 27); (0x7ffffef, 27); (0x7fffff0, 27);
   (0x3ffffee, 26); (0x3fffffff, 30)].

(** [kCodes\[257\]\[2\]] of [HuffmanDecoder::BuildTree]. *)
Definition HuffmanDecoder_kCodes : list (Z * Z) :=
  [(0x1ff8, 13); (0x7fffd8, 23); (0xfffffe2, 28); (0xfffffe3, 28); (0xfffffe4, 28);
   (0xfffffe5, 28); (0xfffffe6, 28); (0xfffffe7, 28); (0xfffffe8, 28); (0xffffea, 24);
   (0x3ffffffc, 30); (0xfffffe9, 28); (0xfffffea, 28); (0x3ffffffd, 30); (0xfffffeb, 28);
   (0xfffffec, 28); (0xfffffed, 28); (0xfffffee, 28); (0xfffffef, 28); (0xffffff0, 28);
   (0xffffff1, 28); (0xffffff2, 28); (0x3ffffffe, 30); (0xffffff3, 28); (0xffffff4, 28);
   (0xffffff5, 28); (0xffffff6, 28); (0xffffff7, 28); (0xffffff8, 28); (0xffffff9, 28);
   (0xffffffa, 28); (0xffffffb, 28); (0x14, 6); (0x3f8, 10); (0x3f9, 10); (0xffa, 12);
   (0x1ff9, 13); (0x15, 6); (0xf8, 8); (0x7fa, 11); (0x3fa, 10); (0x3fb, 10); (0xf9, 8);
   (0x7fb, 11); (0xfa, 8); (0x16, 6); (0x17, 6); (0x18, 6); (0x00, 5); (0x01, 5);
   (0x02, 5); (0x19, 6); (0x1a, 6); (0x1b, 6); (0x1c, 6); (0x1d, 6); (0x1e, 6); (0x1f, 6);
   (0x5c, 7); (0xfb, 8); (0x7ffc, 15); (0x20, 6); (0xffb, 12); (0x3fc, 10); (0x1ffa, 13);
   (0x21, 6); (0x5d, 7); (0x5e, 7); (0x5f, 7); (0x60, 7); (0x61, 7); (0x62, 7); (0x63, 7);
   (0x64, 7); (0x65, 7); (0x66, 7); (0x67, 7); (0x68, 7); (0x69, 7); (0x6a, 7); (0x6b, 7);
   (0x6c, 7); (0x6d, 7); (0x6e, 7); (0x6f, 7); (0x70, 7); (0x71, 7); (0x72, 7); (0xfc, 8);
   (0x73, 7); (0xfd, 8); (0x1ffb, 13); (0x7fff0, 19); (0x1ffc, 13); (0x3ffc, 14);
   (0x22, 6); (0x7ffd, 15); (0x03, 5); (0x23, 6); (0x04, 5); (0x24, 6); (0x05, 5);
   (0x25, 6); (0x26, 6); (0x27, 6); (0x06, 5); (0x74, 7); (0x75, 7); (0x28, 6); (0x29, 6);
   (0x2a, 6); (0x07, 5); (0x2b, 6); (0x76, 7); (0x2c, 6); (0x08, 5); (0x09, 5); (0x2d, 6);
   (0x77, 7); (0x78, 7); (0x79, 7); (0x7a, 7); (0x7b, 7); (0x7ffe, 15); (0x7fc, 11);
   (0x3ffd, 14); (0x1ffd, 13); (0xffffffc, 28); (0xfffe6, 20); (0x3fffd2, 22);
   (0xfffe7, 20); (0xfffe8, 20); (0x3fffd3, 22); (0x3fffd4, 22); (0x3fffd5, 22);
   (0x7fffd9, 23); (0x3fffd6, 22); (0x7fffda, 23); (0x7fffdb, 23); (0x7fffdc, 23);
   (0x7fffdd, 23); (0x7fffde, 23); (0xffffeb, 24); (0x7fffdf, 23); (0xffffec, 24);
   (0xffffed, 24); (0x3fffd7, 22); (0x7fffe0, 23); (0xffffee, 24); (0x7fffe1, 23);
   (0x7fffe2, 23); (0x7fffe3, 23); (0x7fffe4, 23); (0x1fffdc, 21); (0x3fffd8, 22);
   (0x7fffe5, 23); (0x3fffd9, 22); (0x7fffe6, 23); (0x7fffe7, 23); (0xffffef, 24);
   (0x3fffda, 22); (0x1fffdd, 21); (0xfffe9, 20); (0x3fffdb, 22); (0x3fffdc, 22);
   (0x7fffe8, 23); (0x7fffe9, 23); (0x1fffde, 21); (0x7fffea, 23); (0x3fffdd, 22);
   (0x3fffde, 22); (0xfffff0, 24); (0x1fffdf, 21); (0x3fffdf, 22); (0x7fffeb, 23);
   (0x7fffec, 23); (0x1fffe0, 21); (0x1fffe1, 21); (0x3fffe0, 22); (0x1fffe2, 21);
   (0x7fffed, 23); (0x3fffe1, 22); (0x7fffee, 23); (0x7fffef, 23); (0xfffea, 20);
   (0x3fffe2, 22); (0x3fffe3, 22); (0x3fffe4, 22); (0x7ffff0, 23); (0x3fffe5, 22);
   (0x3fffe6, 22); (0x7ffff1, 23); (0x3ffffe0, 26); (0x3ffffe1, 26); (0xfffeb, 20);
   (0x7fff1, 19); (0x3fffe7, 22); (0x7ffff2, 23); (0x3fffe8, 22); (0x1ffffec, 25);
   (0x3ffffe2, 26); (0x3ffffe3, 26); (0x3ffffe4, 26); (0x7ffffde, 27); (0x7ffffdf, 27);
   (0x3ffffe5, 26); (0xfffff1, 24); (0x1ffffed, 25); (0x7fff2, 19); (0x1fffe3, 21);
   (0x3ffffe6, 26); (0x7ffffe0, 27); (0x7ffffe1, 27); (0x3ffffe7, 26); (0x7ffffe2, 27);
   (0xfffff2, 24); (0x1fffe4, 21); (0x1fffe5, 21); (0x3ffffe8, 26); (0x3ffffe9, 26);
   (0xfffffd, 28); (0x7ffffe3, 27); (0x7ffffe4, 27); (0x7ffffe5, 27); (0xfffec, 20);
   (0xfffff3, 24); (0xfffed, 20); (0x1fffe6, 21); (0x3fffe9, 22); (0x1fffe7, 21);
   (0x1fffe8, 21); (0x7ffff3, 23); (0x3fffea, 22); (0x3fffeb, 22); (0x1ffffee, 25);
   (0x1ffffef, 25); (0xfffff4, 24); (0xfffff5, 24); (0x3ffffea, 26); (0x7ffff4, 23);
   (0x3ffffeb, 26); (0x7ffffe6, 27); (0x3ffffec, 26); (0x3ffffed, 26); (0x7ffffe7, 27);
   (0x7ffffe8, 27); (0x7ffffe9, 27); (0x7ffffea, 27); (0x7ffffeb, 27); (0xffffffe, 28);
   (0x7ffffec, 27); (0x7ffffed, 27); (0x7ffffee, 27); (0x7ffffef, 27); (0x7fffff0, 27);
   (0x3ffffee, 26); (0x3fffffff, 30)].

(** An access to an array or a vector without a bounds check. *)
Definition index_unchecked {A} (l : list A) (i : Z) : result A :=
  match znth l i with
  | Some a => Ok a
  | None => Throw UndefinedBehavior
  end.

(** ** [HuffmanEncoder::Encode] *)

(** The loop that emits the complete bytes of [current]. *)
Fixpoint emit_bytes (fuel : nat) (current bits_filled : Z) (out : list byte)
    : result (Z * list byte) :=
  match fuel with
  | O => Throw NonTermination
  | S fuel =>
      if 8 <=? bits_filled then
        let bits_filled := bits_filled - 8 in
        emit_bytes fuel current bits_filled
          (out ++ [z2b (Z.land (Z.shiftr current bits_filled) 0xff)])
      else Ok (bits_filled, out)
  end.

Fixpoint HuffmanEncoder_loop (value : list byte) (current bits_filled : Z) (out : list byte)
    : result (Z * Z * list byte) :=
  match value with
  | [] => Ok (current, bits_filled, out)
  | character :: value =>
      '(code, bits) ← index_unchecked HuffmanEncoder_kCodes (b2z character);
      if bits =? 0 then HuffmanEncoder_loop value current bits_filled out
      else
        let current := Z.lor (u64 (Z.shiftl current bits)) code in
        let bits_filled := bits_filled + bits in
        '(bits_filled, out) ← emit_bytes (S (Z.to_nat bits_filled)) current bits_filled out;
        HuffmanEncoder_loop value current bits_filled out
  end.

Definition HuffmanEncoder_Encode (value : list byte) : result (list byte) :=
  '(current, bits_filled, out) ← HuffmanEncoder_loop value 0 0 [];
  if 0 <? bits_filled then
    Ok (out ++ [z2b (Z.lor (u64 (Z.shiftl current (8 - bits_filled)))
                       (Z.shiftl 1 (8 - bits_filled) - 1))])
  else Ok out.

(** ** [HuffmanDecoder::BuildTree] *)

Record Node := mkNode { node_value : Z; node_left : Z; node_right : Z }.

Definition Node_default : Node := mkNode (-1) (-1) (-1).

Definition child (n : Node) (bit : Z) : Z := if bit =? 0 then node_left n else node_right n.

Definition set_child (n : Node) (bit next : Z) : Node :=
  if bit =? 0 then mkNode (node_value n) next (node_right n)
  else mkNode (node_value n) (node_left n) next.

Definition node_at (nodes_ : list Node) (i : Z) : result Node := index_unchecked nodes_ i.

(** An assignment to the element at a checked index. *)
Definition node_set (nodes_ : list Node) (i : Z) (n : Node) : list Node :=
  <[Z.to_nat i := n]> nodes_.

(** The inner loop of [BuildTree]; [b] counts down to zero. *)
Fixpoint insert_code (b : nat) (code current : Z) (nodes_ : list Node)
    : result (Z * list Node) :=
  match b with
  | O => Ok (current, nodes_)
  | S b =>
      let bit := Z.land (Z.shiftr code (Z.of_nat b)) 1 in
      n ← node_at nodes_ current;
      let next := child n bit in
      if next <? 0 then
        let next := zlen nodes_ in
        insert_code b code next (node_set (nodes_ ++ [Node_default]) current (set_child n bit next))
      else insert_code b code next nodes_
  end.

Fixpoint BuildTree_loop (codes : list (Z * Z)) (symbol : Z) (nodes_ : list Node)
    : result (list Node) :=
  match codes with
  | [] => Ok nodes_
  | (code, bits) :: codes =>
      if bits =? 0 then BuildTree_loop codes (symbol + 1) nodes_
      else
        '(current, nodes_) ← insert_code (Z.to_nat bits) code 0 nodes_;
        n ← node_at nodes_ current;
        BuildTree_loop codes (symbol + 1)
          (node_set nodes_ current (mkNode symbol (node_left n) (node_right n)))
  end.

Definition BuildTree : result (list Node) :=
  BuildTree_loop HuffmanDecoder_kCodes 0 [Node_default].

(** ** [HuffmanDecoder::Decode] *)

(** Where the loops of [Decode] are after a number of bits: still running,
    with the node and the characters decoded so far, or returned. *)
Inductive walk :=
  | Running (node : Z) (out : list byte)
  | Returned (ok : bool).

(** One iteration of the inner loop, on the bit [bit] of byte [i]. *)
Definition walk_bit (nodes_ : list Node) (last : bool) (bit : Z) (node : Z) (out : list byte)
    : result walk :=
  n ← node_at nodes_ node;
  let next := child n bit in
  if next <? 0 then Ok (Returned false)
  else
    m ← node_at nodes_ next;
    if 0 <=? node_value m then
      if node_value m =? 256 then Ok (Returned last)
      else Ok (Running 0 (out ++ [z2b (node_value m)]))
    else Ok (Running next out).

(** The inner loop: the [bits_remaining] low bits of [buffer]. *)
Fixpoint walk_byte (nodes_ : list Node) (last : bool) (buffer : Z) (bits_remaining : nat)
    (node : Z) (out : list byte) : result walk :=
  match bits_remaining with
  | O => Ok (Running node out)
  | S b =>
      w ← walk_bit nodes_ last (Z.land (Z.shiftr buffer (Z.of_nat b)) 1) node out;
      match w with
      | Running node out => walk_byte nodes_ last buffer b node out
      | Returned ok => Ok (Returned ok)
      end
  end.

Fixpoint walk_bytes (nodes_ : list Node) (data : list byte) (node : Z) (out : list byte)
    : result walk :=
  match data with
  | [] => Ok (Running node out)
  | d :: data =>
      w ← walk_byte nodes_ (zlen data =? 0) (b2z d) 8 node out;
      match w with
      | Running node out => walk_bytes nodes_ data node out
      | Returned ok => Ok (Returned ok)
      end
  end.

(** [output] is what the string holds before the call; it is only assigned at
    the end of the data. *)
Definition HuffmanDecoder_Decode (nodes_ : list Node) (data output : list byte)
    : result (bool * list byte) :=
  w ← walk_bytes nodes_ data 0 [];
  match w with
  | Running _ out => Ok (true, out)
  | Returned ok => Ok (ok, output)
  end.
