(* ===== verification/HuffmanTheory.v ===== *)
(** * Correctness of the Huffman codec

    Both directions are related to lists of bits: the encoder writes the codes
    of the characters one after another and pads with ones, the decoder walks
    the tree along the bits. *)

From S2P Require Import Prelude Huffman.

(** ** Bits of an integer, most significant first *)

Fixpoint code_bits (x : Z) (n : nat) : list bool :=
  match n with
  | O => []
  | S n => Z.testbit x (Z.of_nat n) :: code_bits x n
  end.

Definition byte_bits (b : byte) : list bool := code_bits (b2z b) 8.

Lemma code_bits_ext x y n :
  (forall i, 0 <= i < Z.of_nat n -> Z.testbit x i = Z.testbit y i) -> code_bits x n = code_bits y n.
Proof.
  induction n as [|n IH]; intros H; [done|]. cbn. f_equal; [apply H; lia|].
  apply IH. intros. apply H. lia.
Qed.

Lemma code_bits_split x n m :
  code_bits x (n + m) = code_bits (Z.shiftr x (Z.of_nat m)) n ++ code_bits x m.
Proof.
  induction n as [|n IH]; [done|]. cbn. rewrite IH. f_equal.
  rewrite Z.shiftr_spec by lia. f_equal. lia.
Qed.

(** Appending the [m] bits of [c] below those of [x]. *)
Lemma code_bits_push x c n m :
  (n + m <= 64)%nat -> 0 <= c < 2 ^ Z.of_nat m ->
  code_bits (Z.lor (u64 (Z.shiftl x (Z.of_nat m))) c) (n + m) = code_bits x n ++ code_bits c m.
Proof.
  intros Hn Hc. rewrite code_bits_split. f_equal; apply code_bits_ext; intros i Hi.
  - rewrite Z.shiftr_spec, Z.lor_spec by lia. unfold u64.
    rewrite Z.mod_pow2_bits_low, Z.shiftl_spec by lia.
    rewrite <- (Z.mod_small c (2 ^ Z.of_nat m)) by done.
    rewrite Z.mod_pow2_bits_high, orb_false_r by lia. f_equal. lia.
  - rewrite Z.lor_spec. unfold u64. rewrite Z.mod_pow2_bits_low, Z.shiftl_spec by lia.
    by rewrite Z.testbit_neg_r by lia.
Qed.

(** The byte [static_cast<std::byte>((x >> m) & 0xff)]. *)
Lemma byte_bits_z2b x : byte_bits (z2b x) = code_bits x 8.
Proof.
  unfold byte_bits. rewrite b2z_z2b. apply code_bits_ext. intros i Hi.
  apply (Z.mod_pow2_bits_low x 8). lia.
Qed.

Lemma byte_bits_land x m :
  byte_bits (z2b (Z.land (Z.shiftr x m) 0xff)) = code_bits (Z.shiftr x m) 8.
Proof.
  rewrite byte_bits_z2b, land_0xff. apply code_bits_ext. intros i Hi.
  apply (Z.mod_pow2_bits_low _ 8). lia.
Qed.

Lemma code_bits_ones k : code_bits (Z.ones (Z.of_nat k)) k = replicate k true.
Proof.
  assert (H : forall j, (j <= k)%nat -> code_bits (Z.ones (Z.of_nat k)) j = replicate j true).
  { induction j as [|j IH]; intros; [done|]. cbn. rewrite IH by lia.
    rewrite Z.ones_spec_low by lia. done. }
  by apply H.
Qed.

Lemma land_1_bit x i : 0 <= i -> Z.land (Z.shiftr x i) 1 = Z.b2z (Z.testbit x i).
Proof.
  intros. rewrite (land_mask 1) by lia. rewrite Z.shiftr_div_pow2 by done.
  by rewrite <- Z.testbit_spec'.
Qed.

(** ** The encoder *)

Definition bits_of_bytes (l : list byte) : list bool := concat (map byte_bits l).

Lemma bits_of_bytes_app l k : bits_of_bytes (l ++ k) = bits_of_bytes l ++ bits_of_bytes k.
Proof. unfold bits_of_bytes. by rewrite map_app, concat_app. Qed.

Lemma emit_bytes_spec fuel current filled out :
  0 <= filled <= 64 -> (Z.to_nat filled < fuel)%nat ->
  exists filled' out', emit_bytes fuel current filled out = Ok (filled', out') /\
    0 <= filled' < 8 /\
    bits_of_bytes out' ++ code_bits current (Z.to_nat filled') =
    bits_of_bytes out ++ code_bits current (Z.to_nat filled).
Proof.
  revert filled out. induction fuel as [|fuel IH]; intros filled out Hf Hfuel; [lia|].
  cbn [emit_bytes]. destruct (Z.leb_spec 8 filled); [|eauto with lia].
  destruct (IH (filled - 8) (out ++ [z2b (Z.land (Z.shiftr current (filled - 8)) 0xff)]))
    as (f' & out' & -> & Hf' & E); [lia..|].
  exists f', out'. split; [done|]. split; [done|]. rewrite E, bits_of_bytes_app, <- app_assoc.
  f_equal. unfold bits_of_bytes at 1. cbn [map concat]. rewrite app_nil_r, byte_bits_land.
  replace (Z.to_nat filled) with (8 + Z.to_nat (filled - 8))%nat by lia.
  rewrite code_bits_split. by rewrite Z2Nat.id by lia.
Qed.

(** Codes and lengths are consistent, in both tables. *)
Lemma kCodes_same : HuffmanDecoder_kCodes = HuffmanEncoder_kCodes.
Proof. reflexivity. Qed.

Definition entry_ok (e : Z * Z) : bool :=
  (0 <? e.2) && (e.2 <=? 30) && (0 <=? e.1) && (e.1 <? 2 ^ e.2).

Lemma kCodes_ok : forallb entry_ok HuffmanEncoder_kCodes = true.
Proof. vm_compute. reflexivity. Qed.

Lemma kCodes_length : zlen HuffmanEncoder_kCodes = 257.
Proof. vm_compute. reflexivity. Qed.

(** The bits of the code of a character. *)
Definition char_bits (c : byte) : list bool :=
  match znth HuffmanEncoder_kCodes (b2z c) with
  | Some (code, bits) => code_bits code (Z.to_nat bits)
  | None => []
  end.

Lemma kCodes_entry c : exists code bits,
  znth HuffmanEncoder_kCodes (b2z c) = Some (code, bits) /\
  0 < bits <= 30 /\ 0 <= code < 2 ^ bits.
Proof.
  pose proof (b2z_range c).
  destruct (znth_is_Some HuffmanEncoder_kCodes (b2z c)) as [[code bits] E];
    [rewrite kCodes_length; lia|].
  exists code, bits. split; [done|].
  assert (Hin : In (code, bits) HuffmanEncoder_kCodes).
  { unfold znth in E. destruct (b2z c <? 0); [done|].
    apply list_elem_of_In. by eapply list_elem_of_lookup_2. }
  pose proof (proj1 (forallb_forall entry_ok _) kCodes_ok _ Hin) as Hok.
  unfold entry_ok in Hok. cbn [fst snd] in Hok.
  rewrite !andb_true_iff, Z.ltb_lt, Z.leb_le, Z.leb_le, Z.ltb_lt in Hok. tauto.
Qed.

Lemma HuffmanEncoder_loop_spec value : forall current filled out,
  0 <= filled < 8 ->
  exists current' filled' out',
    HuffmanEncoder_loop value current filled out = Ok (current', filled', out') /\
    0 <= filled' < 8 /\
    bits_of_bytes out' ++ code_bits current' (Z.to_nat filled') =
    bits_of_bytes out ++ code_bits current (Z.to_nat filled) ++ concat (map char_bits value).
Proof.
  induction value as [|c value IH]; intros current filled out Hf.
  { exists current, filled, out. cbn. by rewrite app_nil_r. }
  destruct (kCodes_entry c) as (code & bits & E & Hb & Hc).
  cbn [HuffmanEncoder_loop]. unfold index_unchecked. rewrite E. cbn [mbind result_bind].
  rewrite (proj2 (Z.eqb_neq bits 0)) by lia.
  destruct (emit_bytes_spec (S (Z.to_nat (filled + bits)))
    (Z.lor (u64 (Z.shiftl current bits)) code) (filled + bits) out)
    as (f1 & out1 & -> & Hf1 & E1); [lia..|]. cbn [mbind result_bind].
  destruct (IH (Z.lor (u64 (Z.shiftl current bits)) code) f1 out1 Hf1)
    as (c2 & f2 & out2 & -> & Hf2 & E2).
  exists c2, f2, out2. split; [done|]. split; [done|].
  rewrite E2, app_assoc, E1, <- app_assoc. f_equal.
  replace (Z.to_nat (filled + bits)) with (Z.to_nat filled + Z.to_nat bits)%nat by lia.
  rewrite <- (Z2Nat.id bits) at 1 by lia.
  rewrite code_bits_push by (rewrite ?Z2Nat.id; lia).
  rewrite <- app_assoc. f_equal. cbn [map concat]. f_equal. unfold char_bits. by rewrite E.
Qed.

(** The encoder is total; it writes the codes and up to seven ones. *)
Lemma HuffmanEncoder_Encode_spec value : exists out k,
  HuffmanEncoder_Encode value = Ok out /\ (k < 8)%nat /\
  bits_of_bytes out = concat (map char_bits value) ++ replicate k true.
Proof.
  unfold HuffmanEncoder_Encode.
  destruct (HuffmanEncoder_loop_spec value 0 0 []) as (cur & f & out & -> & Hf & E); [lia|].
  change (bits_of_bytes out ++ code_bits cur (Z.to_nat f) = concat (map char_bits value)) in E. cbn [mbind result_bind]. destruct (Z.ltb_spec 0 f).
  - set (k := Z.to_nat (8 - f)). exists (out ++ [z2b (Z.lor (u64 (Z.shiftl cur (8 - f)))
      (Z.shiftl 1 (8 - f) - 1))]), k.
    split; [done|]. split; [lia|].
    rewrite bits_of_bytes_app, <- E, <- app_assoc. f_equal.
    unfold bits_of_bytes. cbn [map concat]. rewrite app_nil_r, byte_bits_z2b.
    assert (Hones : Z.shiftl 1 (8 - f) - 1 = Z.ones (Z.of_nat k)).
    { rewrite Z.ones_equiv, Z.shiftl_1_l. unfold k. rewrite Z2Nat.id by lia. lia. }
    rewrite Hones. replace (8 - f) with (Z.of_nat k) by lia.
    replace 8%nat with (Z.to_nat f + k)%nat by lia.
    rewrite code_bits_push; [by rewrite code_bits_ones|lia|].
    rewrite Z.ones_equiv. pose proof (Z.pow_pos_nonneg 2 (Z.of_nat k)). lia.
  - exists out, 0%nat. split; [done|]. split; [lia|].
    rewrite <- E. replace (Z.to_nat f) with 0%nat by lia. cbn. by rewrite !app_nil_r.
Qed.

(** ** The decoder *)

Fixpoint walk_bits (nodes_ : list Node) (bits : list bool) (node : Z) (out : list byte)
    : result walk :=
  match bits with
  | [] => Ok (Running node out)
  | b :: bits =>
      w ← walk_bit nodes_ false (Z.b2z b) node out;
      match w with
      | Running node out => walk_bits nodes_ bits node out
      | Returned ok => Ok (Returned ok)
      end
  end.

Section walk.
Context (nodes_ : list Node).

Lemma walk_bit_running last b node out n o :
  walk_bit nodes_ false b node out = Ok (Running n o) ->
  walk_bit nodes_ last b node out = Ok (Running n o).
Proof.
  unfold walk_bit. destruct (node_at nodes_ node) as [m|]; [|done]. cbn.
  destruct (_ <? 0); [done|]. destruct (node_at nodes_ (child m b)) as [m'|]; [|done]. cbn.
  destruct (_ <=? _); [|done]. by destruct (_ =? 256).
Qed.

Lemma walk_bit_out b node p out n o :
  walk_bit nodes_ false b node out = Ok (Running n o) ->
  walk_bit nodes_ false b node (p ++ out) = Ok (Running n (p ++ o)).
Proof.
  unfold walk_bit. destruct (node_at nodes_ node) as [m|]; [|done]. cbn.
  destruct (_ <? 0); [done|]. destruct (node_at nodes_ (child m b)) as [m'|]; [|done]. cbn.
  destruct (_ <=? _); [|by intros [= -> ->]]. destruct (_ =? 256); [done|].
  intros [= <- <-]. by rewrite app_assoc.
Qed.

Lemma walk_bits_out bits : forall node p out n o,
  walk_bits nodes_ bits node out = Ok (Running n o) ->
  walk_bits nodes_ bits node (p ++ out) = Ok (Running n (p ++ o)).
Proof.
  induction bits as [|b bits IH]; cbn; intros node p out n o; [by intros [= -> ->]|].
  destruct (walk_bit nodes_ false (Z.b2z b) node out) as [[n1 o1|]|] eqn:E; cbn; try done.
  rewrite (walk_bit_out _ _ p _ _ _ E). cbn. apply IH.
Qed.

Lemma walk_bits_app bits bits' node out n o :
  walk_bits nodes_ bits node out = Ok (Running n o) ->
  walk_bits nodes_ (bits ++ bits') node out = walk_bits nodes_ bits' n o.
Proof.
  revert node out. induction bits as [|b bits IH]; cbn; intros node out; [by intros [= -> ->]|].
  destruct (walk_bit nodes_ false (Z.b2z b) node out) as [[n1 o1|]|]; cbn; try done. apply IH.
Qed.

Lemma walk_bits_inv bits bits' node out n o :
  walk_bits nodes_ (bits ++ bits') node out = Ok (Running n o) ->
  exists n1 o1, walk_bits nodes_ bits node out = Ok (Running n1 o1) /\
    walk_bits nodes_ bits' n1 o1 = Ok (Running n o).
Proof.
  revert node out. induction bits as [|b bits IH]; cbn; intros node out; [eauto|].
  destruct (walk_bit nodes_ false (Z.b2z b) node out) as [[n1 o1|]|]; cbn; try done. apply IH.
Qed.

(** The loops over the bits of a byte and over the bytes are one loop over
    bits, as long as it does not return. *)
Lemma walk_byte_bits last buffer k : forall node out n o,
  walk_bits nodes_ (code_bits buffer k) node out = Ok (Running n o) ->
  walk_byte nodes_ last buffer k node out = Ok (Running n o).
Proof.
  induction k as [|k IH]; cbn; intros node out n o; [done|].
  rewrite land_1_bit by lia.
  destruct (walk_bit nodes_ false _ node out) as [[n1 o1|]|] eqn:E; cbn; try done.
  rewrite (walk_bit_running last _ _ _ _ _ E). cbn. apply IH.
Qed.

Lemma walk_bytes_bits data : forall node out n o,
  walk_bits nodes_ (bits_of_bytes data) node out = Ok (Running n o) ->
  walk_bytes nodes_ data node out = Ok (Running n o).
Proof.
  induction data as [|d data IH]; intros node out n o; [done|].
  change (bits_of_bytes (d :: data)) with (byte_bits d ++ bits_of_bytes data).
  intros (n1 & o1 & H1 & H2)%walk_bits_inv. cbn [walk_bytes].
  rewrite (walk_byte_bits _ _ _ _ _ _ _ H1). cbn [mbind result_bind]. by apply IH.
Qed.
End walk.

(** ** The tree *)

(** The tree that [BuildTree] builds, as a value. *)
Definition huffman_nodes : list Node :=
  Eval vm_compute in match BuildTree with Ok nodes_ => nodes_ | Throw _ => [] end.

Lemma BuildTree_spec : BuildTree = Ok huffman_nodes.
Proof. vm_compute. reflexivity. Qed.

(** The walk along the code of [c] ends at the root with [c] decoded. *)
Definition decodes_to (c : byte) : bool :=
  match walk_bits huffman_nodes (char_bits c) 0 [] with
  | Ok (Running n [d]) => (n =? 0) && bool_decide (d = c)
  | _ => false
  end.

Definition all_bytes : list byte := map (fun n => z2b (Z.of_nat n)) (seq 0 256).

Lemma all_bytes_spec b : In b all_bytes.
Proof.
  apply in_map_iff. exists (Z.to_nat (b2z b)). pose proof (b2z_range b).
  rewrite Z2Nat.id by lia. split; [apply z2b_b2z|]. apply in_seq. lia.
Qed.

Lemma codes_decode :
  forallb (fun c => decodes_to c || bool_decide (c = Byte.xdc)) all_bytes = true.
Proof. vm_compute. reflexivity. Qed.

Lemma char_decodes c out : c <> Byte.xdc ->
  walk_bits huffman_nodes (char_bits c) 0 out = Ok (Running 0 (out ++ [c])).
Proof.
  intros Hc. pose proof (proj1 (forallb_forall _ _) codes_decode c (all_bytes_spec c)) as H.
  cbn beta in H. rewrite bool_decide_eq_false_2, orb_false_r in H by done.
  unfold decodes_to in H.
  destruct (walk_bits _ _ _ _) as [[n [|d [|]]|]|] eqn:E; try done.
  apply andb_true_iff in H as [->%Z.eqb_eq ->%bool_decide_eq_true].
  rewrite <- (app_nil_r out) at 1. by apply walk_bits_out.
Qed.

Lemma string_decodes value : Byte.xdc ∉ value -> forall out,
  walk_bits huffman_nodes (concat (map char_bits value)) 0 out = Ok (Running 0 (out ++ value)).
Proof.
  induction value as [|c value IH]; intros Hv out; [by rewrite app_nil_r|].
  apply not_elem_of_cons in Hv as [Hc Hv]. cbn [map concat].
  erewrite walk_bits_app by (by apply char_decodes). rewrite IH by done.
  by rewrite <- app_assoc.
Qed.

(** Fewer than eight ones do not reach a symbol. *)
Lemma padding_decodes k out : (k < 8)%nat -> exists n,
  walk_bits huffman_nodes (replicate k true) 0 out = Ok (Running n out).
Proof.
  intros Hk.
  assert (H : exists n, walk_bits huffman_nodes (replicate k true) 0 [] = Ok (Running n []))
    by (do 8 (destruct k as [|k]; [eexists; vm_compute; reflexivity|]); lia).
  destruct H as [n H]. exists n. apply (walk_bits_out _ _ _ out) in H. by rewrite !app_nil_r in H.
Qed.

Lemma Huffman_roundtrip value output : Byte.xdc ∉ value -> exists data,
  HuffmanEncoder_Encode value = Ok data /\
  HuffmanDecoder_Decode huffman_nodes data output = Ok (true, value).
Proof.
  intros Hv. destruct (HuffmanEncoder_Encode_spec value) as (data & k & -> & Hk & E).
  exists data. split; [done|]. unfold HuffmanDecoder_Decode.
  destruct (padding_decodes k value Hk) as [n Hn].
  rewrite (walk_bytes_bits _ _ _ _ n value); [done|].
  rewrite E. erewrite walk_bits_app by (by apply string_decodes). done.
Qed.

(** ** Safety on arbitrary data *)

Definition node_ok (n : Node) : bool :=
  (node_left n <? zlen huffman_nodes) && (node_right n <? zlen huffman_nodes) &&
  (node_value n <? 257).

Lemma nodes_ok : forallb node_ok huffman_nodes = true.
Proof. vm_compute. reflexivity. Qed.

Lemma node_at_ok i : 0 <= i < zlen huffman_nodes -> exists n,
  node_at huffman_nodes i = Ok n /\ node_ok n = true.
Proof.
  intros Hi. destruct (znth_is_Some _ _ Hi) as [n E]. exists n.
  unfold node_at, index_unchecked. rewrite E. split; [done|].
  apply (proj1 (forallb_forall _ _) nodes_ok). unfold znth in E.
  destruct (i <? 0); [done|]. apply list_elem_of_In. by eapply list_elem_of_lookup_2.
Qed.

Definition walk_ok (r : result walk) : Prop :=
  match r with
  | Ok (Running n _) => 0 <= n < zlen huffman_nodes
  | Ok (Returned _) => True
  | Throw _ => False
  end.

Lemma walk_bit_ok last b node out :
  0 <= node < zlen huffman_nodes -> walk_ok (walk_bit huffman_nodes last b node out).
Proof.
  intros H. unfold walk_bit. destruct (node_at_ok _ H) as (n & -> & Hn). cbn [mbind result_bind].
  destruct (Z.ltb_spec (child n b) 0); [done|].
  assert (Hc : 0 <= child n b < zlen huffman_nodes).
  { unfold node_ok in Hn. rewrite !andb_true_iff, !Z.ltb_lt in Hn.
    split; [done|]. unfold child in *. destruct (b =? 0); lia. }
  destruct (node_at_ok _ Hc) as (m & -> & _). cbn [mbind result_bind].
  destruct (_ <=? _); [|done]. destruct (_ =? 256); [done|]. by cbn.
Qed.

Lemma walk_byte_ok last buffer k : forall node out,
  0 <= node < zlen huffman_nodes -> walk_ok (walk_byte huffman_nodes last buffer k node out).
Proof.
  induction k as [|k IH]; intros node out H; [done|]. cbn [walk_byte].
  pose proof (walk_bit_ok last (Z.land (Z.shiftr buffer (Z.of_nat k)) 1) node out H) as Hw.
  destruct (walk_bit _ _ _ _ _) as [[n o|]|]; cbn in *; try done. by apply IH.
Qed.

Lemma walk_bytes_ok data : forall node out,
  0 <= node < zlen huffman_nodes -> walk_ok (walk_bytes huffman_nodes data node out).
Proof.
  induction data as [|d data IH]; intros node out H; [done|]. cbn [walk_bytes].
  pose proof (walk_byte_ok (zlen data =? 0) (b2z d) 8 node out H) as Hw.
  destruct (walk_byte _ _ _ _ _ _) as [[n o|]|]; cbn in *; try done. by apply IH.
Qed.

Lemma HuffmanDecoder_total data output : exists ok out,
  HuffmanDecoder_Decode huffman_nodes data output = Ok (ok, out).
Proof.
  unfold HuffmanDecoder_Decode.
  assert (H : walk_ok (walk_bytes huffman_nodes data 0 []))
    by (apply walk_bytes_ok; vm_compute; intuition discriminate).
  destruct (walk_bytes _ _ _ _) as [[n o|ok]|]; cbn; [eauto..|done].
Qed.

(** ** The byte [0xdc]

    Its leaf, 481, hangs below the leaf of the byte [0x31], through the nodes
    from 459 on, so no walk gets there. *)

(** The nodes at which a walk goes on *)
Definition inner (i : Z) : bool :=
  match znth huffman_nodes i with
  | Some n => (node_value n <? 0) && negb ((459 <=? i) && (i <=? 480))
  | None => false
  end.

Definition child_ok (i : Z) : bool :=
  match znth huffman_nodes i with
  | Some m => if 0 <=? node_value m then negb (node_value m =? 0xdc) && (node_value m <=? 256) else inner i
  | None => true
  end.

Definition children_ok (i : Z) : bool :=
  match znth huffman_nodes i with
  | Some n => negb (inner i) || child_ok (node_left n) && child_ok (node_right n)
  | None => true
  end.

Lemma inner_children : forallb (fun k => children_ok (Z.of_nat k)) (seq 0 (length huffman_nodes)) = true.
Proof. vm_compute. reflexivity. Qed.

Lemma inner_child i n b : znth huffman_nodes i = Some n -> inner i = true -> child_ok (child n b) = true.
Proof.
  intros En Hi. pose proof (znth_Some _ _ _ En) as Hr.
  pose proof (proj1 (forallb_forall _ _) inner_children (Z.to_nat i)) as H. cbn beta in H.
  unfold children_ok in H. rewrite Z2Nat.id, En, Hi in H by lia. cbn [negb orb] in H. rewrite andb_true_iff in H.
  destruct H as [Hl Hr']; [apply in_seq; unfold zlen in Hr; lia|]. unfold child. by destruct (b =? 0).
Qed.

Definition no_dc (r : result walk) : Prop :=
  match r with Ok (Running n out) => inner n = true /\ Byte.xdc ∉ out | _ => True end.

Lemma walk_bit_no_dc last b node out : inner node = true -> Byte.xdc ∉ out ->
  no_dc (walk_bit huffman_nodes last b node out).
Proof.
  intros Hi Ho. unfold walk_bit, node_at, index_unchecked.
  destruct (znth huffman_nodes node) as [n|] eqn:En; [|done]. cbn [mbind result_bind]. destruct (_ <? 0); [done|].
  pose proof (inner_child node n b En Hi) as Hc. unfold child_ok in Hc.
  destruct (znth huffman_nodes (child n b)) as [m|] eqn:Em; [|done]. cbn [mbind result_bind].
  destruct (Z.leb_spec 0 (node_value m)); [|by split].
  rewrite andb_true_iff, negb_true_iff, Z.eqb_neq, Z.leb_le in Hc.
  destruct (Z.eqb_spec (node_value m) 256); [done|]. split; [vm_compute; reflexivity|].
  rewrite not_elem_of_app, list_elem_of_singleton. split; [done|]. intros E.
  assert (E' : b2z (z2b (node_value m)) = 0xdc) by (by rewrite <- E). rewrite b2z_z2b_small in E' by lia. lia.
Qed.

Lemma walk_byte_no_dc last buffer k : forall node out, inner node = true -> Byte.xdc ∉ out ->
  no_dc (walk_byte huffman_nodes last buffer k node out).
Proof.
  induction k as [|k IH]; intros node out Hn Ho; cbn [walk_byte]; [done|].
  pose proof (walk_bit_no_dc last (Z.land (Z.shiftr buffer (Z.of_nat k)) 1) node out Hn Ho) as H.
  destruct (walk_bit _ _ _ _ _) as [[n1 o1|]|]; cbn in *; [|done..]. destruct H. by apply IH.
Qed.

Lemma walk_bytes_no_dc data : forall node out, inner node = true -> Byte.xdc ∉ out ->
  no_dc (walk_bytes huffman_nodes data node out).
Proof.
  induction data as [|d data IH]; intros node out Hn Ho; cbn [walk_bytes]; [done|].
  pose proof (walk_byte_no_dc (zlen data =? 0) (b2z d) 8 node out Hn Ho) as H.
  destruct (walk_byte _ _ _ _ _ _) as [[n1 o1|]|]; cbn in *; [|done..]. destruct H. by apply IH.
Qed.

Lemma HuffmanDecoder_no_dc data ok out :
  HuffmanDecoder_Decode huffman_nodes data [] = Ok (ok, out) -> Byte.xdc ∉ out.
Proof.
  unfold HuffmanDecoder_Decode.
  pose proof (walk_bytes_no_dc data 0 [] ltac:(vm_compute; reflexivity) (not_elem_of_nil _)) as H.
  destruct (walk_bytes _ _ _ _) as [[n o|b]|]; cbn in *; [|intros [= _ <-]; apply not_elem_of_nil|done].
  intros [= _ <-]. apply H.
Qed.

(** ** Size of the encoding *)

Lemma length_bits_of_bytes l : zlen (bits_of_bytes l) = 8 * zlen l.
Proof.
  induction l as [|b l IH]; [done|]. change (bits_of_bytes (b :: l)) with (byte_bits b ++ bits_of_bytes l).
  rewrite zlen_app, IH, zlen_cons. change (zlen (byte_bits b)) with 8. lia.
Qed.

Lemma length_code_bits x n : length (code_bits x n) = n.
Proof. induction n; cbn; congruence. Qed.

Lemma length_char_bits value : zlen (concat (map char_bits value)) <= 30 * zlen value.
Proof.
  induction value as [|c value IH]; [done|]. cbn [map concat]. rewrite zlen_app, zlen_cons.
  assert (zlen (char_bits c) <= 30); [|lia].
  destruct (kCodes_entry c) as (code & bits & E & Hb & _). unfold char_bits. rewrite E.
  unfold zlen. rewrite length_code_bits. lia.
Qed.

(** An encoding is at most four times as long as the string. *)
Lemma HuffmanEncoder_Encode_length value data :
  HuffmanEncoder_Encode value = Ok data -> zlen data <= 4 * zlen value.
Proof.
  intros E. destruct (HuffmanEncoder_Encode_spec value) as (out & k & E' & Hk & Hb).
  rewrite E in E'. injection E' as <-. pose proof (length_char_bits value).
  apply (f_equal zlen) in Hb. rewrite length_bits_of_bytes, zlen_app in Hb.
  assert (Hr : zlen (replicate k true) = Z.of_nat k) by (unfold zlen; by rewrite length_replicate).
  rewrite Hr in Hb.
  destruct (decide (zlen value = 0)) as [Hz|]; [|pose proof (zlen_nonneg value); lia].
  destruct value; [cbn in E; by simplify_eq|rewrite zlen_cons in Hz; zlia].
Qed.

(** ** The properties *)

(** The tree is built, and every string that does not contain the byte
    [0xdc] is encoded and then decoded to itself. *)
Theorem huffman_roundtrip value output : Byte.xdc ∉ value ->
  exists nodes_ data, BuildTree = Ok nodes_ /\ HuffmanEncoder_Encode value = Ok data /\
    zlen data <= 4 * zlen value /\
    HuffmanDecoder_Decode nodes_ data output = Ok (true, value).
Proof.
  intros Hv. destruct (Huffman_roundtrip value output Hv) as (data & E & Hd).
  exists huffman_nodes, data. split; [apply BuildTree_spec|]. split; [done|].
  split; [by apply HuffmanEncoder_Encode_length|done].
Qed.

Lemma huffman_roundtrip_witness : exists nodes_ data, BuildTree = Ok nodes_ /\
  HuffmanEncoder_Encode $"www.example.com" = Ok data /\ zlen data <= 4 * 15 /\
  HuffmanDecoder_Decode nodes_ data [] = Ok (true, $"www.example.com").
Proof.
  apply (huffman_roundtrip $"www.example.com" []).
  rewrite <- (bool_decide_spec (Byte.xdc ∉ $"www.example.com")). vm_compute. exact I.
Defined.

(** On data from the network the decoder returns: it never leaves the tree
    or the data, whatever they contain. *)
Theorem huffman_decode_safe data output : exists nodes_ ok out,
  BuildTree = Ok nodes_ /\ HuffmanDecoder_Decode nodes_ data output = Ok (ok, out).
Proof.
  destruct (HuffmanDecoder_total data output) as (ok & out & E).
  exists huffman_nodes, ok, out. split; [apply BuildTree_spec|done].
Qed.

(** The byte [0xdc] is decoded as two other bytes. *)
Theorem huffman_byte_dc :
  (data ← HuffmanEncoder_Encode [Byte.xdc]; HuffmanDecoder_Decode huffman_nodes data []) =
  Ok (true, [Byte.x31; Byte.xcc]).
Proof. vm_compute. reflexivity. Qed.

(** The code that RFC 7541 assigns to [0xdc], [0xffffffd] in 28 bits, padded. *)
Theorem huffman_rfc_dc_rejected :
  HuffmanDecoder_Decode huffman_nodes [Byte.xff; Byte.xff; Byte.xff; Byte.xdf] [] = Ok (false, []).
Proof. vm_compute. reflexivity. Qed.

(** The end-of-string symbol in the last bytes makes the decoder succeed with
    the string it was given, dropping what it decoded (here ["0"]). *)
Theorem huffman_eos_drops :
  HuffmanDecoder_Decode huffman_nodes [Byte.x07; Byte.xff; Byte.xff; Byte.xff; Byte.xff] [] =
  Ok (true, []).
Proof. vm_compute. reflexivity. Qed.
