(* ===== verification/Hpack.v ===== *)
(** * HPACK header compression

    [HpackCodec] of [http2_hpack.h] and [http2_hpack.cpp]: the static and the
    dynamic table, the integer and string representations, [Decode], [Encode]
    and [SetDynamicTableSize].  One codec object has a single table; a session
    uses two of them, one per direction. *)

From S2P Require Import Prelude HttpMessage Huffman.

Record HpackOptions := mkHpackOptions {
  maximum_dynamic_table_size : Z;
  maximum_header_list_size : Z;
}.

Definition HpackOptions_default : HpackOptions := mkHpackOptions 4096 16384.

(** [TableEntry] has the fields of [HttpHeader]. *)
Abbreviation TableEntry := HttpHeader.

Definition BuildStaticTable : list TableEntry :=
  let e n v := mkHeader (bytes_of n) (bytes_of v) in
  [e "" "";
   e ":authority" "";
   e ":method" "GET";
   e ":method" "POST";
   e ":path" "/";
   e ":path" "/index.html";
   e ":scheme" "http";
   e ":scheme" "https";
   e ":status" "200";
   e ":status" "204";
   e ":status" "206";
   e ":status" "304";
   e ":status" "400";
   e ":status" "404";
   e ":status" "500";
   e "accept-charset" "";
   e "accept-encoding" "gzip, deflate";
   e "accept-language" "";
   e "accept-ranges" "";
   e "accept" "";
   e "access-control-allow-origin" "";
   e "age" "";
   e "allow" "";
   e "authorization" "";
   e "cache-control" "";
   e "content-disposition" "";
   e "content-encoding" "";
   e "content-language" "";
   e "content-length" "";
   e "content-location" "";
   e "content-range" "";
   e "content-type" "";
   e "cookie" "";
   e "date" "";
   e "etag" "";
   e "expect" "";
   e "expires" "";
   e "from" "";
   e "host" "";
   e "if-match" "";
   e "if-modified-since" "";
   e "if-none-match" "";
   e "if-range" "";
   e "if-unmodified-since" "";
   e "last-modified" "";
   e "link" "";
   e "location" "";
   e "max-forwards" "";
   e "proxy-authenticate" "";
   e "proxy-authorization" "";
   e "range" "";
   e "referer" "";
   e "refresh" "";
   e "retry-after" "";
   e "server" "";
   e "set-cookie" "";
   e "strict-transport-security" "";
   e "transfer-encoding" "";
   e "user-agent" "";
   e "vary" "";
   e "via" "";
   e "www-authenticate" ""]%string.

(** The object.  [static_table_] is never assigned after construction. *)
Record HpackCodec := mkHpackCodec {
  static_table_ : list TableEntry;
  dynamic_table_ : list TableEntry;
  dynamic_table_size_ : Z;
  current_dynamic_table_limit_ : Z;
  pending_table_size_update_ : option Z;
  hpack_options_ : HpackOptions;
}.

Definition HpackCodec_make (options : HpackOptions) : HpackCodec :=
  mkHpackCodec BuildStaticTable [] 0 (maximum_dynamic_table_size options) None options.

Definition set_table (t : list TableEntry) (n : Z) (c : HpackCodec) : HpackCodec :=
  mkHpackCodec (static_table_ c) t n (current_dynamic_table_limit_ c)
    (pending_table_size_update_ c) (hpack_options_ c).

Definition set_limit (limit : Z) (pending : option Z) (c : HpackCodec) : HpackCodec :=
  mkHpackCodec (static_table_ c) (dynamic_table_ c) (dynamic_table_size_ c) limit pending
    (hpack_options_ c).

(** The size of an entry, as the code and RFC 7541 count it. *)
Definition entry_size (h : TableEntry) : Z := zlen (name h) + zlen (value h) + 32.

Definition Lookup (index : Z) (c : HpackCodec) : result TableEntry :=
  if index =? 0 then Throw runtime_error
  else if index <? zlen (static_table_ c) then index_unchecked (static_table_ c) index
  else
    let dynamic_index := index - zlen (static_table_ c) in
    if zlen (dynamic_table_ c) <=? dynamic_index then Throw runtime_error
    else index_unchecked (dynamic_table_ c) dynamic_index.

(** The loop of [EvictDynamicTable] takes entries from the back; here the
    table is reversed.  It ends when the table is empty. *)
Fixpoint evict_back (limit : Z) (reversed : list TableEntry) (size : Z)
    : list TableEntry * Z :=
  match reversed with
  | [] => ([], size)
  | entry :: rest =>
      if limit <? size then evict_back limit rest (u64 (size - u64 (entry_size entry)))
      else (reversed, size)
  end.

Definition EvictDynamicTable (c : HpackCodec) : HpackCodec :=
  let '(t, n) := evict_back (current_dynamic_table_limit_ c) (rev (dynamic_table_ c))
                   (dynamic_table_size_ c) in
  set_table (rev t) n c.

Definition AddDynamicEntry (name value : list byte) (c : HpackCodec) : HpackCodec :=
  let entry := mkHeader name value in
  if current_dynamic_table_limit_ c <? u64 (entry_size entry) then set_table [] 0 c
  else
    EvictDynamicTable
      (set_table (entry :: dynamic_table_ c) (u64 (dynamic_table_size_ c + u64 (entry_size entry))) c).

Definition SetDynamicTableSize (new_size : Z) (c : HpackCodec) : result unit * HpackCodec :=
  if maximum_dynamic_table_size (hpack_options_ c) <? new_size then (Throw runtime_error, c)
  else (Ok tt, EvictDynamicTable (set_limit new_size (Some new_size) c)).

(** ** Integers *)

Definition prefix_mask (prefix_bits : Z) : Z := u8 (Z.shiftl 1 prefix_bits - 1).

(** The continuation bytes.  A shifted value that does not fit in 32 bits is
    undefined in C++17, the [int] being shifted out of range. *)
Fixpoint read_continuation (fuel : nat) (data : list byte) (offset value m : Z)
    : result (Z * Z) :=
  match fuel with
  | O => Throw NonTermination
  | S fuel =>
      if zlen data <=? offset then Throw runtime_error
      else
        d ← index_unchecked data offset;
        let byte := b2z d in
        let offset := offset + 1 in
        let shifted := Z.shiftl (Z.land byte 0x7f) m in
        if 2 ^ 32 <=? shifted then Throw UndefinedShift
        else
          let value := u32 (value + shifted) in
          let m := m + 7 in
          if Z.land byte 0x80 =? 0 then Ok (value, offset)
          else if 28 <? m then Throw runtime_error
          else read_continuation fuel data offset value m
  end.

(** Five continuation bytes at most are read before the overflow check, and
    five are enough to write 32 bits. *)
Definition continuation_fuel : nat := 5.

(** [ReadDecodedInteger(data, offset, size, prefix_bits)] with [size] the
    length of [data]; the result is the value and the new [offset]. *)
Definition ReadDecodedInteger (data : list byte) (offset prefix_bits : Z) : result (Z * Z) :=
  if zlen data <=? offset then Throw runtime_error
  else
    let mask := prefix_mask prefix_bits in
    d ← index_unchecked data offset;
    let value := Z.land (b2z d) mask in
    let offset := offset + 1 in
    if value <? mask then Ok (value, offset)
    else read_continuation continuation_fuel data offset value 0.

Definition DecodeInteger := ReadDecodedInteger.

(** [output.back() |= v] *)
Definition or_back (output : list byte) (v : Z) : result (list byte) :=
  match last output with
  | None => Throw UndefinedBehavior
  | Some b => Ok (removelast output ++ [z2b (Z.lor (b2z b) v)])
  end.

Fixpoint push_continuation (fuel : nat) (remaining : Z) (output : list byte) : result (list byte) :=
  match fuel with
  | O => Throw NonTermination
  | S fuel =>
      if 128 <=? remaining then
        push_continuation fuel (Z.shiftr remaining 7)
          (output ++ [z2b (Z.lor (Z.land remaining 0x7f) 0x80)])
      else Ok (output ++ [z2b (Z.land remaining 0x7f)])
  end.

Definition EncodeInteger (output : list byte) (value prefix_bits : Z) : result (list byte) :=
  let mask := prefix_mask prefix_bits in
  if value <? mask then or_back output value
  else
    output ← or_back output mask;
    push_continuation continuation_fuel (u32 (value - mask)) output.

(** ** Strings *)

(** [HuffmanDecoder::Instance()] *)
Definition HuffmanDecoder_Instance : result (list Node) := BuildTree.

Definition DecodeString (data : list byte) (offset : Z) : result (list byte * Z) :=
  if zlen data <=? offset then Throw runtime_error
  else
    d ← index_unchecked data offset;
    let huffman := negb (Z.land (b2z d) 0x80 =? 0) in
    '(length, offset) ← ReadDecodedInteger data offset 7;
    if zlen data <? u64 (offset + length) then Throw runtime_error
    else if huffman then
      nodes_ ← HuffmanDecoder_Instance;
      '(ok, result) ← HuffmanDecoder_Decode nodes_ (zslice offset length data) [];
      if negb ok then Throw runtime_error else Ok (result, u64 (offset + length))
    else Ok (zslice offset length data, u64 (offset + length)).

Definition EncodeString (output value : list byte) (use_huffman : bool) : result (list byte) :=
  if use_huffman then
    encoded ← HuffmanEncoder_Encode value;
    output ← EncodeInteger (output ++ [Byte.x80]) (u32 (zlen encoded)) 7;
    Ok (output ++ encoded)
  else
    output ← EncodeInteger (output ++ [Byte.x00]) (u32 (zlen value)) 7;
    Ok (output ++ value).

(** ** [HpackCodec::Decode] *)

(** The name and value of a literal field; [name_index] 0 means a literal name. *)
Definition decode_literal (data : list byte) (offset prefix_bits : Z) (c : HpackCodec)
    : result (HttpHeader * Z) :=
  '(name_index, offset) ← ReadDecodedInteger data offset prefix_bits;
  '(n, offset) ←
    (if 0 <? name_index then entry ← Lookup name_index c; Ok (name entry, offset)
     else DecodeString data offset);
  '(v, offset) ← DecodeString data offset;
  Ok (mkHeader n v, offset).

(** What one iteration of the loop adds: a header or nothing, the new offset,
    and the codec. *)
Definition Decode_step (data : list byte) (offset : Z) (c : HpackCodec)
    : result (option HttpHeader * Z) * HpackCodec :=
  match index_unchecked data offset with
  | Throw e => (Throw e, c)
  | Ok d =>
      let first_byte := b2z d in
      if negb (Z.land first_byte 0x80 =? 0) then
        ('(index, offset) ← ReadDecodedInteger data offset 7;
         if index =? 0 then Throw runtime_error
         else entry ← Lookup index c; Ok (Some entry, offset), c)
      else if Z.land first_byte 0xc0 =? 0x40 then
        match decode_literal data offset 6 c with
        | Throw e => (Throw e, c)
        | Ok (header, offset) =>
            (Ok (Some header, offset), AddDynamicEntry (name header) (value header) c)
        end
      else if Z.land first_byte 0xf0 =? 0x00 then
        ('(header, offset) ← decode_literal data offset 4 c; Ok (Some header, offset), c)
      else if Z.land first_byte 0xe0 =? 0x20 then
        match ReadDecodedInteger data offset 5 with
        | Throw e => (Throw e, c)
        | Ok (new_size, offset) =>
            let '(r, c) := SetDynamicTableSize new_size c in
            (r ≫= fun _ => Ok (None, offset), c)
        end
      else (Throw runtime_error, c)
  end.

Fixpoint Decode_loop (fuel : nat) (data : list byte) (offset header_list_size : Z)
    (headers : list HttpHeader) (c : HpackCodec) : result (list HttpHeader) * HpackCodec :=
  match fuel with
  | O => (Throw NonTermination, c)
  | S fuel =>
      if offset <? zlen data then
        match Decode_step data offset c with
        | (Throw e, c) => (Throw e, c)
        | (Ok (field, offset), c) =>
            let headers := match field with Some h => headers ++ [h] | None => headers end in
            let header_list_size :=
              match field with
              | Some h => u64 (header_list_size + u64 (entry_size h))
              | None => header_list_size
              end in
            if maximum_header_list_size (hpack_options_ c) <? header_list_size
            then (Throw runtime_error, c)
            else Decode_loop fuel data offset header_list_size headers c
        end
      else (Ok headers, c)
  end.

(** Every iteration reads at least one byte. *)
Definition Decode (data : list byte) (c : HpackCodec) : result (list HttpHeader) * HpackCodec :=
  Decode_loop (S (length data)) data 0 0 [] c.

(** ** [HpackCodec::Encode] *)

(** The index of the first element that satisfies [P], counted from [i]. *)
Fixpoint find_index (P : TableEntry -> bool) (l : list TableEntry) (i : Z) : option Z :=
  match l with
  | [] => None
  | e :: l => if P e then Some i else find_index P l (i + 1)
  end.

Definition same_field (h e : TableEntry) : bool :=
  bool_decide (name e = name h) && bool_decide (value e = value h).

Definition same_name (h e : TableEntry) : bool := bool_decide (name e = name h).

(** The two searches of [Encode], first over the static table from index 1,
    then, if nothing was found, over the dynamic table: the index to send, or
    [None]. *)
Definition find_entry (P : TableEntry -> bool) (c : HpackCodec) : option Z :=
  match find_index P (tl (static_table_ c)) 1 with
  | Some i => Some i
  | None =>
      match find_index P (dynamic_table_ c) 0 with
      | Some i => Some (u32 (zlen (static_table_ c) + i))
      | None => None
      end
  end.

Definition Encode_header (header : HttpHeader) (out : list byte) (c : HpackCodec)
    : result (list byte * HpackCodec) :=
  match find_entry (same_field header) c with
  | Some index =>
      out ← EncodeInteger (out ++ [Byte.x80]) index 7; Ok (out, c)
  | None =>
      out ←
        match find_entry (same_name header) c with
        | Some index => EncodeInteger (out ++ [Byte.x40]) index 6
        | None =>
            out ← EncodeInteger (out ++ [Byte.x40]) 0 6;
            EncodeString out (name header) true
        end;
      out ← EncodeString out (value header) true;
      Ok (out, AddDynamicEntry (name header) (value header) c)
  end.

Fixpoint Encode_loop (headers : list HttpHeader) (out : list byte) (c : HpackCodec)
    : result (list byte * HpackCodec) :=
  match headers with
  | [] => Ok (out, c)
  | header :: headers =>
      '(out, c) ← Encode_header header out c;
      Encode_loop headers out c
  end.

Definition Encode (headers : list HttpHeader) (c : HpackCodec)
    : result (list byte * HpackCodec) :=
  '(out, c) ←
    match pending_table_size_update_ c with
    | Some n =>
        out ← EncodeInteger [Byte.x20] (u32 n) 5;
        Ok (out, set_limit (current_dynamic_table_limit_ c) None c)
    | None => Ok ([], c)
    end;
  Encode_loop headers out c.
