(* ===== verification/HpackTheory.v ===== *)
(** * Theory of HPACK

    Integers and strings are read back as they were written, the dynamic table
    is the longest prefix that fits the limit, and a decoder that received
    every block of an encoder decodes the next block to the headers encoded. *)

From S2P Require Import Prelude HttpMessage Huffman HuffmanTheory Hpack.

(** ** Reading at a position *)

Lemma index_app {A} (pre : list A) a rest :
  index_unchecked (pre ++ a :: rest) (zlen pre) = Ok a.
Proof.
  unfold index_unchecked. rewrite znth_app_r by lia.
  replace (zlen pre - zlen pre) with 0 by lia. done.
Qed.

Lemma index_app_offset {A} (pre : list A) a rest i : i = zlen pre ->
  index_unchecked (pre ++ a :: rest) i = Ok a.
Proof. intros ->. apply index_app. Qed.

(** A property of all numbers below [n], checked by evaluation. *)
Lemma forall_below (P : Z -> bool) n :
  forallb (fun i => P (Z.of_nat i)) (seq 0 n) = true ->
  forall i, 0 <= i < Z.of_nat n -> P i = true.
Proof.
  intros H i Hi. rewrite forallb_forall in H.
  rewrite <- (Z2Nat.id i) by lia. apply H, in_seq. lia.
Qed.

(** ** Integers *)

(** The bytes that [push_continuation] appends. *)
Fixpoint cont_bytes (fuel : nat) (r : Z) : list byte :=
  match fuel with
  | O => []
  | S fuel =>
      if 128 <=? r then z2b (Z.lor (Z.land r 0x7f) 0x80) :: cont_bytes fuel (Z.shiftr r 7)
      else [z2b (Z.land r 0x7f)]
  end.

(** The representation of [v] with a prefix of [p] bits in a first byte [b]. *)
Definition int_bytes (b v p : Z) : list byte :=
  if v <? prefix_mask p then [z2b (Z.lor b v)]
  else z2b (Z.lor b (prefix_mask p)) :: cont_bytes continuation_fuel (v - prefix_mask p).

Lemma push_continuation_spec fuel : forall r out,
  0 <= r < 2 ^ (7 * Z.of_nat fuel) -> (0 < fuel)%nat ->
  push_continuation fuel r out = Ok (out ++ cont_bytes fuel r).
Proof.
  induction fuel as [|fuel IH]; intros r out Hr Hf; [lia|]. cbn [push_continuation cont_bytes].
  destruct (Z.leb_spec 128 r); [|done].
  replace (7 * Z.of_nat (S fuel)) with (7 + 7 * Z.of_nat fuel) in Hr by lia.
  rewrite Z.pow_add_r in Hr by lia. change (2 ^ 7) with 128 in Hr.
  rewrite IH.
  - by rewrite <- app_assoc.
  - rewrite Z.shiftr_div_pow2 by lia. change (2 ^ 7) with 128. split.
    + apply Z.div_pos; lia.
    + apply Z.div_lt_upper_bound; lia.
  - destruct fuel; [|lia]. change (2 ^ (7 * Z.of_nat 0)) with 1 in Hr. lia.
Qed.

Lemma or_back_spec out b v : or_back (out ++ [b]) v = Ok (out ++ [z2b (Z.lor (b2z b) v)]).
Proof. unfold or_back. by rewrite last_snoc, removelast_last. Qed.

Definition prefix_ok (p : Z) : Prop := In p [4; 5; 6; 7].

Lemma prefix_mask_eq p : prefix_ok p -> prefix_mask p = 2 ^ p - 1 /\ 15 <= prefix_mask p <= 127.
Proof. intros [<-|[<-|[<-|[<-|[]]]]]; vm_compute; intuition discriminate. Qed.

Lemma EncodeInteger_spec out b v p : prefix_ok p -> 0 <= v < 2 ^ 32 ->
  EncodeInteger (out ++ [b]) v p = Ok (out ++ int_bytes (b2z b) v p).
Proof.
  intros Hp Hv. destruct (prefix_mask_eq p Hp) as [_ Hm]. unfold EncodeInteger, int_bytes.
  destruct (Z.ltb_spec v (prefix_mask p)); rewrite or_back_spec; [done|].
  cbn [mbind result_bind]. rewrite (u32_small (v - _)) by lia.
  rewrite push_continuation_spec.
  - by rewrite <- app_assoc.
  - change (7 * Z.of_nat continuation_fuel) with 35. lia.
  - unfold continuation_fuel. lia.
Qed.

Lemma length_cont_bytes fuel r : zlen (cont_bytes fuel r) <= Z.of_nat fuel.
Proof.
  revert r. induction fuel as [|fuel IH]; intros r; cbn [cont_bytes]; [done|].
  destruct (_ <=? _); [rewrite zlen_cons; specialize (IH (Z.shiftr r 7)); lia|].
  change (zlen [z2b (Z.land r 127)]) with 1. lia.
Qed.

Lemma length_int_bytes b v p : 1 <= zlen (int_bytes b v p) <= 6.
Proof.
  unfold int_bytes. destruct (_ <? _); [done|]. rewrite zlen_cons.
  pose proof (length_cont_bytes continuation_fuel (v - prefix_mask p)).
  pose proof (zlen_nonneg (cont_bytes continuation_fuel (v - prefix_mask p))).
  change (Z.of_nat continuation_fuel) with 5 in *. lia.
Qed.

(** A digit with and without the continuation bit. *)
Lemma digit_more r : 0 <= r -> let d := b2z (z2b (Z.lor (Z.land r 0x7f) 0x80)) in
  Z.land d 0x7f = r mod 128 /\ (Z.land d 0x80 =? 0) = false.
Proof.
  intros Hr. rewrite land_0x7f. pose proof (Z.mod_pos_bound r 128).
  pose proof (forall_below (fun i => let d := b2z (z2b (Z.lor i 0x80)) in
    (Z.land d 0x7f =? i) && negb (Z.land d 0x80 =? 0)) 128 ltac:(vm_compute; reflexivity)
    (r mod 128)) as Hd. cbn zeta in Hd.
  rewrite andb_true_iff, Z.eqb_eq, negb_true_iff in Hd. apply Hd. lia.
Qed.

Lemma digit_last r : 0 <= r < 128 -> let d := b2z (z2b (Z.land r 0x7f)) in
  Z.land d 0x7f = r /\ (Z.land d 0x80 =? 0) = true.
Proof.
  intros Hr.
  pose proof (forall_below (fun i => let d := b2z (z2b (Z.land i 0x7f)) in
    (Z.land d 0x7f =? i) && (Z.land d 0x80 =? 0)) 128 ltac:(vm_compute; reflexivity) r) as Hd.
  cbn zeta in Hd. rewrite andb_true_iff, Z.eqb_eq in Hd. apply Hd. lia.
Qed.

Lemma read_continuation_spec fuel : forall pre r rest value m,
  m = 7 * (5 - Z.of_nat fuel) -> 0 <= r -> r * 2 ^ m < 2 ^ 32 -> (0 < fuel <= 5)%nat ->
  0 <= value -> value + r * 2 ^ m < 2 ^ 32 ->
  read_continuation fuel (pre ++ cont_bytes fuel r ++ rest) (zlen pre) value m =
    Ok (value + r * 2 ^ m, zlen pre + zlen (cont_bytes fuel r)).
Proof.
  induction fuel as [|fuel IH]; intros pre r rest value m Hm Hr Hrm Hf Hv Hs; [lia|].
  assert (Hm0 : 0 <= m <= 28) by lia.
  assert (Hpow : 0 < 2 ^ m) by (apply Z.pow_pos_nonneg; lia).
  cbn [read_continuation cont_bytes].
  rewrite (proj2 (Z.leb_gt (zlen _) _)) by (destruct (_ <=? _); zlia).
  destruct (Z.leb_spec 128 r).
  - cbn [app]. rewrite index_app. cbn [mbind result_bind].
    destruct (digit_more r Hr) as [-> ->]. rewrite Z.shiftl_mul_pow2 by lia.
    pose proof (Z.mod_pos_bound r 128). pose proof (Z.mod_le r 128).
    assert (r mod 128 * 2 ^ m <= r * 2 ^ m) by (apply Z.mul_le_mono_nonneg_r; lia).
    rewrite (proj2 (Z.leb_gt _ _)) by lia.
    rewrite u32_small by lia.
    assert (m <= 21).
    { destruct (decide (m = 28)) as [->|]; lia. }
    rewrite (proj2 (Z.ltb_ge 28 (m + 7))) by lia.
    assert (Hq : Z.shiftr r 7 = r / 128) by (rewrite Z.shiftr_div_pow2; done).
    assert (Hdm : r / 128 * 2 ^ (m + 7) + r mod 128 * 2 ^ m = r * 2 ^ m).
    { rewrite Z.pow_add_r by lia. change (2 ^ 7) with 128.
      rewrite (Z.div_mod r 128) at 3 by lia. ring. }
    assert (0 <= r / 128) by (apply Z.div_pos; lia).
    assert (0 <= r mod 128 * 2 ^ m) by (apply Z.mul_nonneg_nonneg; lia).
    rewrite Hq. set (d := z2b _) in *.
    replace (pre ++ d :: cont_bytes fuel (r / 128) ++ rest)
      with ((pre ++ [d]) ++ cont_bytes fuel (r / 128) ++ rest) by (by rewrite <- app_assoc).
    replace (zlen pre + 1) with (zlen (pre ++ [d])) by zlia.
    rewrite IH by lia. f_equal. rewrite zlen_cons. f_equal; [lia|zlia].
  - cbn [app]. rewrite index_app. cbn [mbind result_bind].
    destruct (digit_last r) as [-> ->]; [lia|]. rewrite Z.shiftl_mul_pow2 by lia.
    rewrite (proj2 (Z.leb_gt _ _)) by lia. by rewrite u32_small by lia.
Qed.

(** The flag bits of a first byte and its prefix do not overlap. *)
Definition flags_ok (b p : Z) : Prop := In (b, p) [(0x80, 7); (0x40, 6); (0x20, 5); (0x00, 4); (0x00, 7)].

Lemma flags_prefix b p : flags_ok b p -> prefix_ok p.
Proof. intros H. repeat destruct H as [[= <- <-]|H]; try done; cbn; tauto. Qed.

Lemma flags_first b p : flags_ok b p -> forall w, 0 <= w <= prefix_mask p ->
  b2z (z2b (Z.lor b w)) = b + w /\ Z.land (b2z (z2b (Z.lor b w))) (prefix_mask p) = w.
Proof.
  intros H w Hw.
  set (P := fun w => (b2z (z2b (Z.lor b w)) =? b + w) &&
    (Z.land (b2z (z2b (Z.lor b w))) (prefix_mask p) =? w)).
  assert (Hc : forallb (fun i => P (Z.of_nat i)) (seq 0 (S (Z.to_nat (prefix_mask p)))) = true)
    by (repeat destruct H as [[= <- <-]|H]; try done; vm_compute; reflexivity).
  pose proof (forall_below P _ Hc w ltac:(lia)) as Hd.
  unfold P in Hd. by rewrite andb_true_iff, !Z.eqb_eq in Hd.
Qed.

Lemma ReadDecodedInteger_spec pre b v p rest : flags_ok b p -> 0 <= v < 2 ^ 32 ->
  ReadDecodedInteger (pre ++ int_bytes b v p ++ rest) (zlen pre) p =
    Ok (v, zlen pre + zlen (int_bytes b v p)).
Proof.
  intros Hb Hv. destruct (prefix_mask_eq p (flags_prefix _ _ Hb)) as [_ Hm].
  unfold ReadDecodedInteger.
  rewrite (proj2 (Z.leb_gt (zlen _) _)) by (pose proof (length_int_bytes b v p); zlia).
  unfold int_bytes. destruct (Z.ltb_spec v (prefix_mask p)); cbn [app].
  - rewrite index_app. cbn [mbind result_bind].
    destruct (flags_first b p Hb v) as [_ ->]; [lia|]. by rewrite (proj2 (Z.ltb_lt _ _)).
  - rewrite index_app. cbn [mbind result_bind].
    destruct (flags_first b p Hb (prefix_mask p)) as [_ ->]; [lia|].
    rewrite (proj2 (Z.ltb_ge _ _)) by lia.
    set (d := z2b _).
    replace (pre ++ d :: cont_bytes continuation_fuel (v - prefix_mask p) ++ rest)
      with ((pre ++ [d]) ++ cont_bytes continuation_fuel (v - prefix_mask p) ++ rest)
      by (by rewrite <- app_assoc).
    replace (zlen pre + 1) with (zlen (pre ++ [d])) by zlia.
    rewrite read_continuation_spec; [|unfold continuation_fuel; lia..].
    rewrite zlen_cons. f_equal. f_equal; [lia|zlia].
Qed.

(** ** Strings *)

(** A string that the Huffman codec restores and whose length fits. *)
Definition string_ok (s : list byte) : Prop := Byte.xdc ∉ s /\ zlen s < 2 ^ 30.

(** A string whose length fits. *)
Definition string_fits (s : list byte) : Prop := zlen s < 2 ^ 30.

Lemma first_byte_80 v : 0 <= v -> exists d rest, int_bytes 0x80 v 7 = d :: rest /\
  negb (Z.land (b2z d) 0x80 =? 0) = true.
Proof.
  intros Hv. unfold int_bytes. set (w := if v <? prefix_mask 7 then v else prefix_mask 7).
  exists (z2b (Z.lor 0x80 w)), (if v <? prefix_mask 7 then [] else cont_bytes continuation_fuel (v - prefix_mask 7)).
  assert (Hw : 0 <= w < 128).
  { unfold w. change (prefix_mask 7) with 127. destruct (Z.ltb_spec v 127); lia. }
  split; [unfold w; by destruct (_ <? _)|].
  apply (forall_below (fun w => negb (Z.land (b2z (z2b (Z.lor 0x80 w))) 0x80 =? 0)) 128);
    [vm_compute; reflexivity|lia].
Qed.

(** The representation of a string. *)
Definition string_bytes (s : list byte) : list byte :=
  match HuffmanEncoder_Encode s with
  | Ok e => int_bytes 0x80 (zlen e) 7 ++ e
  | Throw _ => []
  end.

Lemma EncodeString_spec out s : string_fits s ->
  EncodeString out s true = Ok (out ++ string_bytes s) /\
  zlen (string_bytes s) <= 6 + 4 * zlen s.
Proof.
  intros Hl. unfold string_fits in Hl. destruct (HuffmanEncoder_Encode_spec s) as (e & k & E & _).
  pose proof (HuffmanEncoder_Encode_length s e E). pose proof (zlen_nonneg e).
  unfold EncodeString, string_bytes. rewrite E. cbn [mbind result_bind].
  rewrite u32_small by lia. rewrite EncodeInteger_spec; [|cbn; tauto|lia].
  change (b2z Byte.x80) with 0x80. cbn [mbind result_bind].
  split; [by rewrite app_assoc|].
  pose proof (length_int_bytes 0x80 (zlen e) 7). zlia.
Qed.

(** The reader finds the encoded string and gives it to the Huffman decoder. *)
Lemma DecodeString_form pre s rest : string_fits s ->
  zlen (pre ++ string_bytes s ++ rest) < 2 ^ 63 ->
  exists e, HuffmanEncoder_Encode s = Ok e /\
    DecodeString (pre ++ string_bytes s ++ rest) (zlen pre) =
      ('(ok, result) ← HuffmanDecoder_Decode huffman_nodes e [];
       if negb ok then Throw runtime_error else Ok (result, zlen pre + zlen (string_bytes s))).
Proof.
  intros Hl H63. unfold string_fits in Hl. destruct (HuffmanEncoder_Encode_spec s) as (e & k & E & _).
  pose proof (HuffmanEncoder_Encode_length s e E). pose proof (zlen_nonneg e).
  exists e. split; [done|].
  unfold string_bytes in *. rewrite E in *. rewrite <- app_assoc in *.
  unfold DecodeString.
  destruct (first_byte_80 (zlen e)) as (d & tail & Ed & Hh); [done|].
  pose proof (length_int_bytes 0x80 (zlen e) 7).
  rewrite (proj2 (Z.leb_gt (zlen _) _)) by zlia.
  assert (Hi : index_unchecked (pre ++ int_bytes 0x80 (zlen e) 7 ++ e ++ rest) (zlen pre) = Ok d)
    by (rewrite Ed; cbn [app]; apply index_app).
  rewrite Hi. cbn [mbind result_bind]. rewrite Hh.
  rewrite ReadDecodedInteger_spec by (cbn; first [tauto|lia]). cbn [mbind result_bind].
  rewrite u64_small by zlia.
  rewrite (proj2 (Z.ltb_ge _ _)) by zlia.
  unfold HuffmanDecoder_Instance. rewrite BuildTree_spec. cbn [mbind result_bind].
  replace (zslice _ _ _) with e; [by rewrite zlen_app, Z.add_assoc|].
  rewrite app_assoc. rewrite zslice_app_r by zlia.
  rewrite zslice_app_l by zlia. symmetry. apply zslice_all; zlia.
Qed.

Lemma DecodeString_spec pre s rest : string_ok s ->
  zlen (pre ++ string_bytes s ++ rest) < 2 ^ 63 ->
  DecodeString (pre ++ string_bytes s ++ rest) (zlen pre) =
    Ok (s, zlen pre + zlen (string_bytes s)).
Proof.
  intros [Hs Hl] H63. destruct (DecodeString_form pre s rest Hl H63) as (e & E & ->).
  destruct (Huffman_roundtrip s [] Hs) as (e' & E' & Hd). rewrite E in E'. injection E' as <-. by rewrite Hd.
Qed.

(** The byte [0xdc] is never heard. *)
Lemma DecodeString_no_dc pre s rest s' o : string_fits s ->
  zlen (pre ++ string_bytes s ++ rest) < 2 ^ 63 ->
  DecodeString (pre ++ string_bytes s ++ rest) (zlen pre) = Ok (s', o) ->
  Byte.xdc ∉ s' /\ o = zlen pre + zlen (string_bytes s).
Proof.
  intros Hl H63. destruct (DecodeString_form pre s rest Hl H63) as (e & _ & ->).
  destruct (HuffmanDecoder_Decode huffman_nodes e []) as [[ok out]|] eqn:E; [|done]. cbn [mbind result_bind].
  destruct ok; [|done]. intros [= <- <-]. split; [by eapply HuffmanDecoder_no_dc|done].
Qed.

(** ** The dynamic table *)

Definition table_bytes (t : list TableEntry) : Z := foldr (fun e n => entry_size e + n) 0 t.

(** The longest prefix of [t] that fits in [limit]. *)
Fixpoint fit (limit : Z) (t : list TableEntry) : list TableEntry :=
  match t with
  | [] => []
  | e :: t => if entry_size e <=? limit then e :: fit (limit - entry_size e) t else []
  end.

Lemma entry_size_pos e : 32 <= entry_size e.
Proof. unfold entry_size. zlia. Qed.

Lemma table_bytes_cons e t : table_bytes (e :: t) = entry_size e + table_bytes t.
Proof. done. Qed.

Lemma table_bytes_app t t' : table_bytes (t ++ t') = table_bytes t + table_bytes t'.
Proof. induction t as [|e t IH]; [done|]. cbn [app]. rewrite !table_bytes_cons. lia. Qed.

Lemma table_bytes_len t : 32 * zlen t <= table_bytes t.
Proof.
  induction t as [|e t IH]; [done|]. rewrite table_bytes_cons, zlen_cons.
  pose proof (entry_size_pos e). lia.
Qed.

Lemma fit_all limit t : table_bytes t <= limit -> fit limit t = t.
Proof.
  revert limit. induction t as [|e t IH]; intros limit H; [done|].
  rewrite table_bytes_cons in H. cbn [fit].
  pose proof (table_bytes_len t). pose proof (zlen_nonneg t).
  rewrite (proj2 (Z.leb_le _ _)) by lia. by rewrite IH by lia.
Qed.

Lemma fit_app_over limit t t' : limit < table_bytes (t ++ t') ->
  t' <> [] -> zlen t' = 1 -> fit limit (t ++ t') = fit limit t.
Proof.
  intros Hl Hne H1. destruct t' as [|x [|y t']]; [done| |rewrite !zlen_cons in H1; zlia].
  revert limit Hl. induction t as [|e t IH]; intros limit Hl; cbn [app fit] in *;
    rewrite table_bytes_cons in Hl.
  - change (table_bytes []) with 0 in Hl. by rewrite (proj2 (Z.leb_gt _ _)) by lia.
  - destruct (_ <=? _); [|done]. f_equal. apply IH. lia.
Qed.

Lemma fit_bytes limit t : 0 <= limit -> table_bytes (fit limit t) <= limit.
Proof.
  revert limit. induction t as [|e t IH]; intros limit H; [done|]. cbn [fit].
  destruct (Z.leb_spec (entry_size e) limit); [|done]. rewrite table_bytes_cons.
  specialize (IH (limit - entry_size e) ltac:(lia)). lia.
Qed.

Lemma fit_prefix limit t : fit limit t `prefix_of` t.
Proof.
  revert limit. induction t as [|e t IH]; intros limit; [done|]. cbn.
  destruct (_ <=? _); [by apply prefix_cons|apply prefix_nil].
Qed.

Lemma fit_mono limit t t' : t `prefix_of` t' -> fit limit t `prefix_of` fit limit t'.
Proof.
  revert limit t'. induction t as [|e t IH]; intros limit t' H; [apply prefix_nil|].
  destruct t' as [|e' t']; [by apply prefix_nil_inv in H|].
  assert (e = e') as <- by (by eapply prefix_cons_inv_1). cbn.
  destruct (_ <=? _); [|done]. apply prefix_cons, IH. by eapply prefix_cons_inv_2.
Qed.

(** The invariant of a codec: the size of the table is the one recorded, and
    within the limit. *)
Record codec_ok (c : HpackCodec) : Prop := {
  ck_static : static_table_ c = BuildStaticTable;
  ck_size : dynamic_table_size_ c = table_bytes (dynamic_table_ c);
  ck_bound : table_bytes (dynamic_table_ c) <= current_dynamic_table_limit_ c;
  ck_limit : 0 <= current_dynamic_table_limit_ c <= maximum_dynamic_table_size (hpack_options_ c);
  ck_max : maximum_dynamic_table_size (hpack_options_ c) < 2 ^ 31;
}.

Lemma evict_back_spec limit t : table_bytes t < 2 ^ 64 ->
  evict_back limit (rev t) (table_bytes t) = (rev (fit limit t), table_bytes (fit limit t)).
Proof.
  induction t as [|e t IH] using rev_ind; intros H; [done|].
  pose proof (entry_size_pos e). pose proof (table_bytes_len t). pose proof (zlen_nonneg t).
  rewrite table_bytes_app in *. change (table_bytes [e]) with (entry_size e + 0) in *.
  rewrite rev_app_distr. cbn [rev app evict_back].
  destruct (Z.ltb_spec limit (table_bytes t + (entry_size e + 0))).
  - rewrite (u64_small (entry_size e)), u64_small by lia.
    replace (table_bytes t + (entry_size e + 0) - entry_size e) with (table_bytes t) by lia.
    rewrite IH by lia. rewrite fit_app_over; [done|..|done|done].
    rewrite table_bytes_app. done.
  - rewrite fit_all; rewrite ?rev_app_distr, ?table_bytes_app; done.
Qed.

Lemma EvictDynamicTable_spec c :
  dynamic_table_size_ c = table_bytes (dynamic_table_ c) -> table_bytes (dynamic_table_ c) < 2 ^ 64 ->
  EvictDynamicTable c =
    let t := fit (current_dynamic_table_limit_ c) (dynamic_table_ c) in set_table t (table_bytes t) c.
Proof.
  intros Hs Hb. unfold EvictDynamicTable. rewrite Hs, evict_back_spec by done.
  by rewrite rev_involutive.
Qed.

(** Adding keeps the longest prefix that fits, also when the entry does not. *)
Lemma AddDynamicEntry_spec n v c : codec_ok c -> entry_size (mkHeader n v) < 2 ^ 63 ->
  AddDynamicEntry n v c =
    let t := fit (current_dynamic_table_limit_ c) (mkHeader n v :: dynamic_table_ c) in
    set_table t (table_bytes t) c.
Proof.
  intros [? Hs Hb Hl Hm] He. pose proof (entry_size_pos (mkHeader n v)).
  pose proof (table_bytes_len (dynamic_table_ c)). pose proof (zlen_nonneg (dynamic_table_ c)).
  unfold AddDynamicEntry. rewrite (u64_small (entry_size _)) by lia.
  destruct (Z.ltb_spec (current_dynamic_table_limit_ c) (entry_size (mkHeader n v))).
  - cbn zeta. cbn [fit]. by rewrite (proj2 (Z.leb_gt _ _)).
  - rewrite u64_small by lia. rewrite EvictDynamicTable_spec; [done|..]; cbn -[table_bytes];
      rewrite table_bytes_cons; lia.
Qed.

Lemma AddDynamicEntry_ok n v c : codec_ok c -> entry_size (mkHeader n v) < 2 ^ 63 ->
  codec_ok (AddDynamicEntry n v c).
Proof.
  intros Hc He. rewrite AddDynamicEntry_spec by done. destruct Hc.
  split; cbn -[fit table_bytes]; try done. apply fit_bytes. lia.
Qed.

Lemma SetDynamicTableSize_spec n c : codec_ok c -> 0 <= n ->
  SetDynamicTableSize n c =
    if maximum_dynamic_table_size (hpack_options_ c) <? n then (Throw runtime_error, c)
    else (Ok tt, let t := fit n (dynamic_table_ c) in
                 set_table t (table_bytes t) (set_limit n (Some n) c)).
Proof.
  intros [] Hn. unfold SetDynamicTableSize. destruct (_ <? _); [done|].
  rewrite EvictDynamicTable_spec; [done|done|cbn -[table_bytes]; lia].
Qed.

Lemma SetDynamicTableSize_ok n c : codec_ok c -> 0 <= n ->
  codec_ok (SetDynamicTableSize n c).2.
Proof.
  intros Hc Hn. rewrite SetDynamicTableSize_spec by done.
  destruct (Z.ltb_spec (maximum_dynamic_table_size (hpack_options_ c)) n); [done|].
  destruct Hc. split; cbn -[fit table_bytes]; try done; try lia. by apply fit_bytes.
Qed.

(** ** Encoder and decoder in step *)

(** The tables after the decoder saw everything the encoder sent: the
    encoder's table is a prefix of the decoder's.  (It can be shorter: of
    several size changes before a block only the last is announced.) *)
Record in_step (ce cd : HpackCodec) : Prop := {
  is_enc : codec_ok ce;
  is_dec : codec_ok cd;
  is_limit : current_dynamic_table_limit_ ce = current_dynamic_table_limit_ cd;
  is_prefix : dynamic_table_ ce `prefix_of` dynamic_table_ cd;
}.

Lemma find_index_spec P l i j : find_index P l i = Some j ->
  i <= j < i + zlen l /\ exists e, znth l (j - i) = Some e /\ P e = true.
Proof.
  revert i. induction l as [|a l IH]; intros i H; [done|]. cbn in H. rewrite zlen_cons.
  pose proof (zlen_nonneg l). destruct (P a) eqn:E.
  - simplify_eq. split; [lia|]. exists a. by rewrite Z.sub_diag.
  - destruct (IH _ H) as [Hj (e & He & HP)]. split; [lia|]. exists e. split; [|done].
    change (a :: l) with ([a] ++ l). rewrite znth_app_r; change (zlen [a]) with 1; [|lia].
    rewrite <- He. f_equal. lia.
Qed.

Lemma znth_prefix {A} (l k : list A) i a : l `prefix_of` k -> znth l i = Some a -> znth k i = Some a.
Proof. intros [m ->] H. rewrite znth_app_l; [done|]. apply znth_Some in H. lia. Qed.

(** An index sent by the encoder designates a suitable entry at the decoder. *)
Lemma find_entry_Lookup P ce cd index : in_step ce cd -> find_entry P ce = Some index ->
  0 < index < 2 ^ 32 /\ exists e, Lookup index cd = Ok e /\ P e = true.
Proof.
  intros [He Hd Hl Hp]. unfold find_entry, Lookup.
  rewrite (ck_static _ He), (ck_static _ Hd).
  assert (Hlen : zlen BuildStaticTable = 62) by reflexivity. rewrite Hlen.
  destruct (find_index P (tl BuildStaticTable) 1) as [j|] eqn:E.
  - intros [= <-]. apply find_index_spec in E as [Hj (e & Hn & HP)].
    change (zlen (tl BuildStaticTable)) with 61 in Hj. split; [lia|]. exists e.
    rewrite (proj2 (Z.eqb_neq j 0)), (proj2 (Z.ltb_lt j 62)) by lia. split; [|done].
    unfold index_unchecked. change BuildStaticTable with ([mkHeader [] []] ++ tl BuildStaticTable).
    rewrite znth_app_r; change (zlen [mkHeader [] []]) with 1; [|lia]. by rewrite Hn.
  - destruct (find_index P (dynamic_table_ ce) 0) as [j|] eqn:Ed; [|done]. intros [= <-].
    apply find_index_spec in Ed as [Hj (e & Hn & HP)]. rewrite Z.sub_0_r in Hn.
    pose proof (table_bytes_len (dynamic_table_ ce)). destruct He.
    rewrite u32_small by lia. split; [lia|]. exists e.
    rewrite (proj2 (Z.eqb_neq _ 0)), (proj2 (Z.ltb_ge _ 62)) by lia.
    pose proof (znth_prefix _ _ _ _ Hp Hn) as Hn'. pose proof (znth_Some _ _ _ Hn').
    replace (62 + j - 62) with j by lia. rewrite (proj2 (Z.leb_gt _ _)) by lia.
    unfold index_unchecked. by rewrite Hn'.
Qed.

Definition header_ok (h : HttpHeader) : Prop := string_ok (name h) /\ string_ok (value h).

Definition header_fits (h : HttpHeader) : Prop := string_fits (name h) /\ string_fits (value h).

(** No byte [0xdc] in the name or the value *)
Definition header_clean (h : HttpHeader) : Prop := Byte.xdc ∉ name h /\ Byte.xdc ∉ value h.

Lemma header_ok_split h : header_ok h <-> header_clean h /\ header_fits h.
Proof. unfold header_ok, header_clean, header_fits, string_ok, string_fits. tauto. Qed.

#[export] Instance header_clean_dec h : Decision (header_clean h).
Proof. unfold header_clean. apply _. Defined.

Lemma static_clean : forallb (fun h => bool_decide (header_clean h)) BuildStaticTable = true.
Proof. vm_compute. reflexivity. Qed.

Lemma header_ok_fits h : header_ok h -> header_fits h.
Proof. intros []%header_ok_split. done. Qed.

Lemma header_fits_size h : header_fits h -> entry_size h < 2 ^ 63.
Proof. unfold header_fits, string_fits, entry_size. lia. Qed.

Lemma in_step_add h ce cd : header_fits h -> in_step ce cd ->
  in_step (AddDynamicEntry (name h) (value h) ce) (AddDynamicEntry (name h) (value h) cd).
Proof.
  intros Hh%header_fits_size [He Hd Hl Hp]. destruct h as [n v]; cbn [name value].
  split; [by apply AddDynamicEntry_ok..| |];
    rewrite !AddDynamicEntry_spec by done; cbn -[fit table_bytes]; [done|].
  rewrite Hl. apply fit_mono. by apply prefix_cons.
Qed.

(** The first byte of a literal with incremental indexing. *)
Lemma first_byte_40 v : 0 <= v -> exists d rest, int_bytes 0x40 v 6 = d :: rest /\
  (Z.land (b2z d) 0x80 =? 0) = true /\ (Z.land (b2z d) 0xc0 =? 0x40) = true.
Proof.
  intros Hv. unfold int_bytes. set (w := if v <? prefix_mask 6 then v else prefix_mask 6).
  exists (z2b (Z.lor 0x40 w)), (if v <? prefix_mask 6 then [] else cont_bytes continuation_fuel (v - prefix_mask 6)).
  assert (Hw : 0 <= w < 64).
  { unfold w. change (prefix_mask 6) with 63. destruct (Z.ltb_spec v 63); lia. }
  split; [unfold w; by destruct (_ <? _)|].
  apply andb_true_iff. apply (forall_below (fun w => (Z.land (b2z (z2b (Z.lor 0x40 w))) 0x80 =? 0) &&
    (Z.land (b2z (z2b (Z.lor 0x40 w))) 0xc0 =? 0x40)) 64); [vm_compute; reflexivity|lia].
Qed.

(** The bytes [e] that [Encode_header] appends for [h], read by [Decode_step]
    wherever they stand. *)
Definition field_decodes (h : HttpHeader) (e : list byte) (cd cd' : HpackCodec) : Prop :=
  forall pre rest, zlen (pre ++ e ++ rest) < 2 ^ 63 ->
    Decode_step (pre ++ e ++ rest) (zlen pre) cd = (Ok (Some h, zlen pre + zlen e), cd').

Lemma indexed_decodes h index cd : 0 < index < 2 ^ 32 -> Lookup index cd = Ok h ->
  field_decodes h (int_bytes 0x80 index 7) cd cd.
Proof.
  intros Hi Hl pre rest _. destruct (first_byte_80 index) as (d & tail & Ed & Hd); [lia|].
  unfold Decode_step.
  assert (Hx : index_unchecked (pre ++ int_bytes 0x80 index 7 ++ rest) (zlen pre) = Ok d)
    by (rewrite Ed; apply index_app).
  rewrite Hx, Hd. rewrite ReadDecodedInteger_spec by (cbn; first [tauto|lia]).
  cbn [mbind result_bind]. rewrite (proj2 (Z.eqb_neq _ _)) by lia. by rewrite Hl.
Qed.

(** A literal: the name, by index or spelled out, then the value. *)
Lemma literal_decodes h index e cd : header_ok h ->
  0 <= index < 2 ^ 32 ->
  (0 < index -> e = [] /\ exists h', Lookup index cd = Ok h' /\ name h' = name h) ->
  (index = 0 -> e = string_bytes (name h)) ->
  field_decodes h (int_bytes 0x40 index 6 ++ e ++ string_bytes (value h)) cd
    (AddDynamicEntry (name h) (value h) cd).
Proof.
  intros [Hn Hv] Hi Hpos Hzero pre rest H63.
  destruct (first_byte_40 index) as (d & tail & Ed & H80 & Hc0); [lia|].
  rewrite <- !app_assoc in *. unfold Decode_step.
  assert (Hx : index_unchecked (pre ++ int_bytes 0x40 index 6 ++ e ++ string_bytes (value h) ++ rest)
    (zlen pre) = Ok d) by (rewrite Ed; apply index_app).
  rewrite Hx, H80, Hc0. cbn [negb]. unfold decode_literal.
  rewrite ReadDecodedInteger_spec by (cbn; first [tauto|lia]). cbn [mbind result_bind].
  set (pre1 := pre ++ int_bytes 0x40 index 6).
  replace (zlen pre + zlen (int_bytes 0x40 index 6)) with (zlen pre1) by (unfold pre1; zlia).
  assert (Eq : pre ++ int_bytes 0x40 index 6 ++ e ++ string_bytes (value h) ++ rest =
    (pre1 ++ e) ++ string_bytes (value h) ++ rest) by (unfold pre1; by rewrite <- !app_assoc).
  rewrite Eq in *.
  assert (Hname : (if 0 <? index then entry ← Lookup index cd; Ok (name entry, zlen pre1)
     else DecodeString ((pre1 ++ e) ++ string_bytes (value h) ++ rest) (zlen pre1)) =
     Ok (name h, zlen (pre1 ++ e))).
  { destruct (Z.ltb_spec 0 index).
    - destruct Hpos as (-> & h' & -> & <-); [done|]. cbn. by rewrite app_nil_r.
    - rewrite Hzero in * by lia. rewrite <- app_assoc, DecodeString_spec; [|done|].
      + f_equal. f_equal. zlia.
      + rewrite app_assoc. done. }
  rewrite Hname. cbn [mbind result_bind]. rewrite DecodeString_spec by done.
  cbn [mbind result_bind name value]. destruct h as [n v]; cbn [name value]. f_equal. f_equal. f_equal.
  unfold pre1. zlia.
Qed.

(** An entry that the encoder finds is one of its tables. *)
Lemma find_entry_in P c index : codec_ok c -> find_entry P c = Some index ->
  exists e, e ∈ BuildStaticTable ++ dynamic_table_ c /\ P e = true.
Proof.
  intros Hc. unfold find_entry. rewrite (ck_static _ Hc).
  assert (Hin : forall l i j, find_index P l i = Some j -> exists e, e ∈ l /\ P e = true).
  { intros l i j (_ & e & E & He)%find_index_spec. exists e. split; [|done].
    unfold znth in E. destruct (_ <? 0); [done|]. by eapply list_elem_of_lookup_2. }
  destruct (find_index P (tl BuildStaticTable) 1) as [j|] eqn:E.
  - intros _. destruct (Hin _ _ _ E) as (e & He & HP). exists e. split; [|done].
    apply elem_of_app. left. change BuildStaticTable with (mkHeader [] [] :: tl BuildStaticTable). apply elem_of_cons. by right.
  - destruct (find_index P (dynamic_table_ c) 0) as [j|] eqn:Ed; [|done]. intros _.
    destruct (Hin _ _ _ Ed) as (e & He & HP). exists e. split; [|done]. apply elem_of_app. by right.
Qed.

(** The representation of a literal: its name by index or spelled out, then
    its value. *)
Record literal_of (h : HttpHeader) (ce cd : HpackCodec) (index : Z) (e : list byte) : Prop := {
  li_index : 0 <= index < 2 ^ 32;
  li_named : 0 < index -> e = [] /\
    (exists h', Lookup index cd = Ok h' /\ name h' = name h) /\
    (exists h', h' ∈ BuildStaticTable ++ dynamic_table_ ce /\ name h' = name h);
  li_spelled : index = 0 -> e = string_bytes (name h);
}.

(** What the encoder writes for a header: an index of an equal entry, or a
    literal, which both sides add to their tables. *)
Lemma Encode_header_form h out ce cd : header_fits h -> in_step ce cd ->
  (exists index, 0 < index < 2 ^ 32 /\ Lookup index cd = Ok h /\ h ∈ BuildStaticTable ++ dynamic_table_ ce /\
    Encode_header h out ce = Ok (out ++ int_bytes 0x80 index 7, ce)) \/
  (exists index e, literal_of h ce cd index e /\
    Encode_header h out ce = Ok (out ++ int_bytes 0x40 index 6 ++ e ++ string_bytes (value h),
      AddDynamicEntry (name h) (value h) ce)).
Proof.
  intros Hh Hs. unfold Encode_header.
  destruct (find_entry (same_field h) ce) as [index|] eqn:Ef.
  - left. exists index. destruct (find_entry_Lookup _ _ _ _ Hs Ef) as (Hi & h' & Hl & Hsame).
    destruct (find_entry_in _ _ _ (is_enc _ _ Hs) Ef) as (h2 & Hin & Hsame2).
    assert (Heq : forall k, same_field h k = true -> k = h).
    { intros k [H1%bool_decide_eq_true H2%bool_decide_eq_true]%andb_true_iff. destruct h, k. by cbn in *; subst. }
    apply Heq in Hsame, Hsame2. subst h' h2. split; [done|]. split; [done|]. split; [done|].
    rewrite EncodeInteger_spec; [done|cbn; tauto|lia].
  - right. assert (He : forall index e, literal_of h ce cd index e -> exists index e, literal_of h ce cd index e /\
      (out ← Ok ((out ++ int_bytes 0x40 index 6) ++ e);
       out ← EncodeString out (value h) true;
       Ok (out, AddDynamicEntry (name h) (value h) ce)) =
      Ok (out ++ int_bytes 0x40 index 6 ++ e ++ string_bytes (value h), AddDynamicEntry (name h) (value h) ce)).
    { intros index e Hl. exists index, e. split; [done|]. cbn [mbind result_bind].
      destruct (EncodeString_spec ((out ++ int_bytes 0x40 index 6) ++ e) (value h)) as [-> _]; [apply Hh|].
      by rewrite <- !app_assoc. }
    destruct (find_entry (same_name h) ce) as [index|] eqn:En.
    + destruct (find_entry_Lookup _ _ _ _ Hs En) as (Hi & h' & Hl & Hsame).
      destruct (find_entry_in _ _ _ (is_enc _ _ Hs) En) as (h2 & Hin & Hsame2).
      apply bool_decide_eq_true in Hsame, Hsame2.
      rewrite EncodeInteger_spec; [|cbn; tauto|lia]. change (b2z Byte.x40) with 0x40.
      exists index, []. assert (Hli : literal_of h ce cd index []) by (split; [lia|intros _; split_and!; [done|by exists h'|by exists h2]|lia]). split; [done|].
      destruct (EncodeString_spec (out ++ int_bytes 0x40 index 6) (value h)) as [E _]; [apply Hh|].
      cbn [mbind result_bind]. rewrite E. cbn [mbind result_bind app]. by rewrite <- app_assoc.
    + rewrite EncodeInteger_spec; [|cbn; tauto|lia]. change (b2z Byte.x40) with 0x40.
      cbn [mbind result_bind].
      destruct (EncodeString_spec (out ++ int_bytes 0x40 0 6) (name h)) as [-> _]; [apply Hh|].
      exists 0, (string_bytes (name h)). split; [by split; [lia|lia|]|]. cbn [mbind result_bind].
      destruct (EncodeString_spec ((out ++ int_bytes 0x40 0 6) ++ string_bytes (name h)) (value h)) as [-> _]; [apply Hh|].
      by rewrite <- !app_assoc.
Qed.

Lemma literal_size h ce cd index e : header_fits h -> literal_of h ce cd index e ->
  1 <= zlen (int_bytes 0x40 index 6 ++ e ++ string_bytes (value h)) <= 4 * entry_size h.
Proof.
  intros [Hn Hv] [Hi Hpos Hzero]. destruct (EncodeString_spec [] (value h) Hv) as [_ Hlv].
  assert (zlen e <= 6 + 4 * zlen (name h)).
  { destruct (decide (0 < index)); [destruct Hpos as [-> _]; [done|zlia]|].
    rewrite Hzero by lia. by apply (EncodeString_spec []). }
  pose proof (length_int_bytes 0x40 index 6). unfold entry_size. zlia.
Qed.

Lemma Encode_header_spec h out ce cd : header_ok h -> in_step ce cd ->
  exists e ce' cd', Encode_header h out ce = Ok (out ++ e, ce') /\
    1 <= zlen e <= 4 * entry_size h /\
    field_decodes h e cd cd' /\ in_step ce' cd' /\
    pending_table_size_update_ ce' = pending_table_size_update_ ce /\
    hpack_options_ cd' = hpack_options_ cd.
Proof.
  intros Hh Hs. pose proof (header_ok_fits h Hh) as Hf. pose proof (entry_size_pos h).
  destruct (Encode_header_form h out ce cd Hf Hs) as [(index & Hi & Hl & _ & E)|(index & e & Hl & E)]; rewrite E.
  - eexists _, ce, cd. split; [done|]. pose proof (length_int_bytes 0x80 index 7).
    split; [lia|]. split; [|done]. by apply indexed_decodes.
  - eexists _, _, (AddDynamicEntry (name h) (value h) cd). split; [done|].
    split; [by eapply literal_size|].
    split; [destruct Hl as [? Hpos ?]; apply literal_decodes; try done; intros Hp; by destruct (Hpos Hp) as (? & ? & _)|].
    split; [by apply in_step_add|]. destruct Hs as [Hce Hcd _ _]. pose proof (header_fits_size h Hf).
    destruct h as [n v]. cbn [name value] in *. by rewrite !AddDynamicEntry_spec by done.
Qed.

Lemma Decode_loop_field fuel h e cd cd' pre rest hls acc :
  field_decodes h e cd cd' -> 1 <= zlen e -> zlen (pre ++ e ++ rest) < 2 ^ 63 ->
  hpack_options_ cd' = hpack_options_ cd ->
  0 <= hls -> hls + entry_size h <= maximum_header_list_size (hpack_options_ cd) < 2 ^ 63 ->
  Decode_loop (S fuel) (pre ++ e ++ rest) (zlen pre) hls acc cd =
  Decode_loop fuel ((pre ++ e) ++ rest) (zlen (pre ++ e)) (hls + entry_size h) (acc ++ [h]) cd'.
Proof.
  intros Hf He H63 Ho Hh Hm. cbn [Decode_loop]. pose proof (entry_size_pos h).
  rewrite (proj2 (Z.ltb_lt _ _)) by zlia. rewrite Hf by done.
  rewrite (u64_small (entry_size h)), u64_small by lia.
  rewrite Ho, (proj2 (Z.ltb_ge _ _)) by lia. rewrite zlen_app, <- app_assoc. done.
Qed.

Lemma Encode_loop_spec hs : forall out ce cd, Forall header_ok hs -> in_step ce cd ->
  exists body ce' cd', Encode_loop hs out ce = Ok (out ++ body, ce') /\
    in_step ce' cd' /\ zlen hs <= zlen body <= 4 * table_bytes hs /\
    pending_table_size_update_ ce' = pending_table_size_update_ ce /\
    hpack_options_ cd' = hpack_options_ cd /\
    forall fuel pre hls acc, (length hs < fuel)%nat -> zlen (pre ++ body) < 2 ^ 63 ->
      0 <= hls -> hls + table_bytes hs <= maximum_header_list_size (hpack_options_ cd) < 2 ^ 63 ->
      Decode_loop fuel (pre ++ body) (zlen pre) hls acc cd = (Ok (acc ++ hs), cd').
Proof.
  induction hs as [|h hs IH]; intros out ce cd Hok Hs.
  - exists [], ce, cd. cbn. rewrite app_nil_r. repeat (split; [done|]).
    intros [|fuel] pre hls acc Hf H63 Hh Hm; [lia|]. rewrite !app_nil_r. cbn [Decode_loop].
    by rewrite Z.ltb_irrefl.
  - apply Forall_cons in Hok as [Hh Hok].
    destruct (Encode_header_spec h out ce cd Hh Hs)
      as (e & ce1 & cd1 & E1 & Hlen & Hf & Hs1 & Hp1 & Ho1).
    destruct (IH (out ++ e) ce1 cd1 Hok Hs1) as (body & ce2 & cd2 & E2 & Hs2 & Hlb & Hp2 & Ho2 & HD).
    exists (e ++ body), ce2, cd2. cbn [Encode_loop]. rewrite E1. cbn [mbind result_bind].
    rewrite E2, app_assoc. split; [done|]. split; [done|].
    rewrite zlen_app, zlen_cons, table_bytes_cons. split; [lia|].
    split; [congruence|]. split; [congruence|].
    intros [|fuel] pre hls acc Hfuel H63 Hh0 Hm; [cbn in Hfuel; lia|].
    pose proof (table_bytes_len hs). pose proof (zlen_nonneg hs). pose proof (entry_size_pos h).
    rewrite (Decode_loop_field fuel h e cd cd1) by (done || lia).
    rewrite HD; [by rewrite <- app_assoc|cbn in Hfuel; lia|by rewrite <- app_assoc|lia|].
    rewrite Ho1. lia.
Qed.

(** The relation kept between the codec of a sender and the codec of its peer:
    a size change that the sender has not announced is applied by the peer
    when it reads the next block. *)
Definition connected (ce cd : HpackCodec) : Prop :=
  match pending_table_size_update_ ce with
  | None => in_step ce cd
  | Some n => codec_ok ce /\ codec_ok cd /\ current_dynamic_table_limit_ ce = n /\
      n <= maximum_dynamic_table_size (hpack_options_ cd) /\
      dynamic_table_ ce `prefix_of` fit n (dynamic_table_ cd)
  end.

Lemma connected_make oe od :
  maximum_dynamic_table_size oe = maximum_dynamic_table_size od ->
  0 <= maximum_dynamic_table_size oe < 2 ^ 31 ->
  connected (HpackCodec_make oe) (HpackCodec_make od).
Proof.
  intros E H. split; cbn; try done; [split; cbn; try done; lia..].
Qed.

(** The representation of a table size change. *)
Lemma first_byte_20 v : 0 <= v -> exists d rest, int_bytes 0x20 v 5 = d :: rest /\
  (Z.land (b2z d) 0x80 =? 0) = true /\ (Z.land (b2z d) 0xc0 =? 0x40) = false /\
  (Z.land (b2z d) 0xf0 =? 0x00) = false /\ (Z.land (b2z d) 0xe0 =? 0x20) = true.
Proof.
  intros Hv. unfold int_bytes. set (w := if v <? prefix_mask 5 then v else prefix_mask 5).
  exists (z2b (Z.lor 0x20 w)), (if v <? prefix_mask 5 then [] else cont_bytes continuation_fuel (v - prefix_mask 5)).
  assert (Hw : 0 <= w < 32).
  { unfold w. change (prefix_mask 5) with 31. destruct (Z.ltb_spec v 31); lia. }
  split; [unfold w; by destruct (_ <? _)|].
  pose proof (forall_below (fun w => let d := b2z (z2b (Z.lor 0x20 w)) in
    (Z.land d 0x80 =? 0) && negb (Z.land d 0xc0 =? 0x40) && negb (Z.land d 0xf0 =? 0x00) &&
    (Z.land d 0xe0 =? 0x20)) 32%nat ltac:(vm_compute; reflexivity) w ltac:(lia)) as H.
  cbn zeta in H. rewrite !andb_true_iff, !negb_true_iff in H. tauto.
Qed.

Lemma resize_decodes pre n rest cd : codec_ok cd ->
  0 <= n <= maximum_dynamic_table_size (hpack_options_ cd) ->
  Decode_step (pre ++ int_bytes 0x20 n 5 ++ rest) (zlen pre) cd =
    (Ok (None, zlen pre + zlen (int_bytes 0x20 n 5)), (SetDynamicTableSize n cd).2).
Proof.
  intros Hc Hn. destruct (first_byte_20 n) as (d & tail & Ed & H1 & H2 & H3 & H4); [lia|].
  unfold Decode_step.
  assert (Hx : index_unchecked (pre ++ int_bytes 0x20 n 5 ++ rest) (zlen pre) = Ok d)
    by (rewrite Ed; apply index_app).
  rewrite Hx, H1, H2, H3, H4. cbn [negb]. pose proof (ck_max _ Hc).
  rewrite ReadDecodedInteger_spec by (cbn; first [tauto|lia]).
  rewrite SetDynamicTableSize_spec by (done || lia).
  by rewrite (proj2 (Z.ltb_ge _ _)) by lia.
Qed.

Lemma connected_resize ce cd n : connected ce cd -> pending_table_size_update_ ce = Some n ->
  0 <= n /\ in_step (set_limit (current_dynamic_table_limit_ ce) None ce) (SetDynamicTableSize n cd).2.
Proof.
  intros Hc Hp. unfold connected in Hc. rewrite Hp in Hc. destruct Hc as (He & Hd & Hl & Hm & Hpre).
  assert (0 <= n) by (destruct He; lia). split; [done|].
  split; [by destruct He; split|by apply SetDynamicTableSize_ok|..];
    rewrite SetDynamicTableSize_spec by done; rewrite (proj2 (Z.ltb_ge _ _)) by done; done.
Qed.

(** Encoding on one side, then decoding on the other. *)
Lemma Encode_Decode hs ce cd : connected ce cd -> Forall header_ok hs ->
  table_bytes hs <= maximum_header_list_size (hpack_options_ cd) < 2 ^ 60 ->
  exists block ce' cd', Encode hs ce = Ok (block, ce') /\
    Decode block cd = (Ok hs, cd') /\ connected ce' cd' /\ hpack_options_ cd' = hpack_options_ cd.
Proof.
  intros Hc Hok Hm. unfold Encode, Decode.
  destruct (pending_table_size_update_ ce) as [n|] eqn:Ep.
  - destruct (connected_resize _ _ _ Hc Ep) as [Hn Hs].
    unfold connected in Hc. rewrite Ep in Hc. destruct Hc as (He & Hd & Hl & Hmax & _).
    pose proof (ck_max _ Hd). rewrite u32_small by lia.
    change [Byte.x20] with ([] ++ [Byte.x20]).
    rewrite EncodeInteger_spec by (cbn; first [tauto|lia]). cbn [mbind result_bind app].
    change (b2z Byte.x20) with 0x20.
    assert (Ho : hpack_options_ (SetDynamicTableSize n cd).2 = hpack_options_ cd)
      by (rewrite SetDynamicTableSize_spec by done; by destruct (_ <? _)).
    destruct (Encode_loop_spec hs (int_bytes 0x20 n 5) _ _ Hok Hs)
      as (body & ce' & cd' & E & Hs' & Hlen & Hp' & Ho' & HD).
    exists (int_bytes 0x20 n 5 ++ body), ce', cd'. split; [done|]. split.
    + cbn [Decode_loop]. pose proof (length_int_bytes 0x20 n 5).
      rewrite (proj2 (Z.ltb_lt _ _)) by zlia.
      rewrite (resize_decodes [] n body) by done. cbn [app].
      rewrite Ho, (proj2 (Z.ltb_ge _ _)) by (pose proof (table_bytes_len hs); zlia).
      change (zlen [] + zlen (int_bytes 0x20 n 5)) with (zlen (int_bytes 0x20 n 5)).
      apply HD; [|zlia|done|rewrite Ho; lia].
      rewrite length_app. unfold zlen in *. lia.
    + unfold connected. rewrite Hp'. split; [done|]. by rewrite Ho'.
  - unfold connected in Hc. rewrite Ep in Hc. cbn [mbind result_bind].
    destruct (Encode_loop_spec hs [] _ _ Hok Hc) as (body & ce' & cd' & E & Hs' & Hlen & Hp' & Ho' & HD).
    exists body, ce', cd'. split; [done|]. split.
    + apply (HD _ []); [|cbn; lia|done|lia]. unfold zlen in *. lia.
    + unfold connected. by rewrite Hp', Ep.
Qed.

(** *** Headers that the peer does not receive

    The encoder never fails and keeps its invariant whatever the bytes of the
    headers are; some peer that saw everything is always in step with it. *)

Lemma Encode_loop_any hs : forall out ce cd, Forall header_fits hs -> in_step ce cd ->
  exists body ce' cd', Encode_loop hs out ce = Ok (out ++ body, ce') /\ in_step ce' cd' /\
    pending_table_size_update_ ce' = pending_table_size_update_ ce /\ hpack_options_ cd' = hpack_options_ cd /\
    zlen body <= 4 * table_bytes hs.
Proof.
  induction hs as [|h hs IH]; intros out ce cd Hok Hs; [exists [], ce, cd; by rewrite app_nil_r|].
  rewrite table_bytes_cons. pose proof (entry_size_pos h).
  apply Forall_cons in Hok as [Hh Hok]. cbn [Encode_loop].
  destruct (Encode_header_form h out ce cd Hh Hs) as [(index & _ & _ & _ & ->)|(index & e & Hl & ->)]; cbn [mbind result_bind].
  - destruct (IH (out ++ int_bytes 0x80 index 7) ce cd Hok Hs) as (body & ce' & cd' & -> & ? & ? & ? & Hlen).
    eexists _, ce', cd'. rewrite <- app_assoc. split_and!; try done. pose proof (length_int_bytes 0x80 index 7). zlia.
  - pose proof (in_step_add h ce cd Hh Hs) as Hs'. pose proof (header_fits_size h Hh).
    destruct (IH (out ++ int_bytes 0x40 index 6 ++ e ++ string_bytes (value h)) _ _ Hok Hs') as (body & ce' & cd' & -> & ? & Hp & Ho & Hlen).
    pose proof (literal_size h ce cd index e Hh Hl).
    eexists _, ce', cd'. rewrite <- app_assoc, Hp, Ho. split; [done|]. split; [done|].
    rewrite !AddDynamicEntry_spec by (destruct Hs; destruct h; done). split_and!; [done..|]. zlia.
Qed.

(** The encoder sends the announcement of a size change and then the headers. *)
Lemma Encode_start hs ce cd : connected ce cd -> exists out ce1 cd1,
  in_step ce1 cd1 /\ pending_table_size_update_ ce1 = None /\ hpack_options_ cd1 = hpack_options_ cd /\
  dynamic_table_ ce1 = dynamic_table_ ce /\ zlen out <= 6 /\ Encode hs ce = Encode_loop hs out ce1 /\
  forall body, 0 <= maximum_header_list_size (hpack_options_ cd) ->
    exists fuel, Decode (out ++ body) cd = Decode_loop fuel (out ++ body) (zlen out) 0 [] cd1.
Proof.
  intros Hc. unfold Encode. destruct (pending_table_size_update_ ce) as [n|] eqn:Ep.
  - destruct (connected_resize _ _ _ Hc Ep) as [Hn Hs].
    unfold connected in Hc. rewrite Ep in Hc. destruct Hc as (He & Hd & Hl & Hmax & _).
    pose proof (ck_max _ Hd). rewrite u32_small by lia.
    change [Byte.x20] with ([] ++ [Byte.x20]).
    rewrite EncodeInteger_spec by (cbn; first [tauto|lia]). cbn [mbind result_bind app].
    change (b2z Byte.x20) with 0x20.
    assert (Ho : hpack_options_ (SetDynamicTableSize n cd).2 = hpack_options_ cd)
      by (rewrite SetDynamicTableSize_spec by done; by destruct (_ <? _)).
    eexists (int_bytes 0x20 n 5), _, _. split; [exact Hs|]. split; [done|]. split; [done|]. split; [done|]. split; [apply length_int_bytes|]. split; [done|].
    intros body Hm. exists (length (int_bytes 0x20 n 5 ++ body)). unfold Decode.
    cbn [Decode_loop]. pose proof (length_int_bytes 0x20 n 5).
    rewrite (proj2 (Z.ltb_lt _ _)) by zlia.
    rewrite (resize_decodes [] n body) by done. cbn [app].
    rewrite Ho, (proj2 (Z.ltb_ge _ _)) by done. done.
  - unfold connected in Hc. rewrite Ep in Hc. cbn [mbind result_bind]. exists [], ce, cd.
    split_and!; try done. intros body Hm. by eexists.
Qed.

Lemma Encode_any hs ce cd : connected ce cd -> Forall header_fits hs ->
  exists block ce' cd', Encode hs ce = Ok (block, ce') /\ connected ce' cd' /\ hpack_options_ cd' = hpack_options_ cd.
Proof.
  intros Hc Hok. destruct (Encode_start hs ce cd Hc) as (out & ce1 & cd1 & Hs & Hp & Ho & _ & _ & -> & _).
  destruct (Encode_loop_any hs out ce1 cd1 Hok Hs) as (body & ce' & cd' & E & Hs' & Hp' & Ho' & _).
  exists (out ++ body), ce', cd'. split; [done|]. unfold connected. rewrite Hp', Hp. split; [done|congruence].
Qed.

(** The peer receives the headers if they are clean and within its limit; it
    stays in step in any case, or another peer would. *)
Lemma Encode_peer hs ce cd : connected ce cd -> Forall header_fits hs ->
  maximum_header_list_size (hpack_options_ cd) < 2 ^ 60 ->
  exists block ce' cd', Encode hs ce = Ok (block, ce') /\ connected ce' cd' /\ hpack_options_ cd' = hpack_options_ cd /\
    (Forall header_clean hs -> table_bytes hs <= maximum_header_list_size (hpack_options_ cd) ->
     Decode block cd = (Ok hs, cd')).
Proof.
  intros Hc Hok Hm.
  destruct (decide (Forall header_clean hs /\ table_bytes hs <= maximum_header_list_size (hpack_options_ cd))) as [[Hcl Hl]|Hn].
  - destruct (Encode_Decode hs ce cd Hc) as (block & ce' & cd' & E & Ed & Hc' & Ho); [|done|by exists block, ce', cd'].
    rewrite !Forall_forall in *. intros h Hin. apply header_ok_split. auto.
  - destruct (Encode_any hs ce cd Hc Hok) as (block & ce' & cd' & E & Hc' & Ho). exists block, ce', cd'. split_and!; try done.
    intros Hcl Hl. by destruct Hn.
Qed.

Lemma Decode_loop_extends fuel data : forall offset hls acc c l c',
  Decode_loop fuel data offset hls acc c = (Ok l, c') -> acc `prefix_of` l.
Proof.
  induction fuel as [|fuel IH]; intros offset hls acc c l c' H; cbn [Decode_loop] in H; [done|].
  destruct (_ <? _); [|by simplify_eq].
  destruct (Decode_step data offset c) as [[[f o]|e] c1]; [|done].
  destruct (_ <? _); [done|]. apply IH in H. destruct f; [|done]. etransitivity; [by eexists|done].
Qed.

(** A literal with the byte is not read as the header that was sent. *)
Lemma garbled_literal h ce cd index e pre rest : header_fits h -> ~ header_clean h ->
  Forall header_clean (dynamic_table_ ce) -> literal_of h ce cd index e ->
  let data := pre ++ (int_bytes 0x40 index 6 ++ e ++ string_bytes (value h)) ++ rest in
  zlen data < 2 ^ 63 ->
  match (Decode_step data (zlen pre) cd).1 with
  | Ok (Some h', _) => h' <> h
  | Ok (None, _) => False
  | Throw _ => True
  end.
Proof.
  intros [Hfn Hfv] Hbad Htab [Hi Hpos Hzero] data H63. unfold data in *. clear data.
  destruct (first_byte_40 index) as (d & tail & Ed & H80 & Hc0); [lia|].
  rewrite <- !app_assoc in *. unfold Decode_step.
  assert (Hx : index_unchecked (pre ++ int_bytes 0x40 index 6 ++ e ++ string_bytes (value h) ++ rest)
    (zlen pre) = Ok d) by (rewrite Ed; apply index_app).
  rewrite Hx, H80, Hc0. cbn [negb]. unfold decode_literal.
  rewrite ReadDecodedInteger_spec by (cbn; first [tauto|lia]). cbn [mbind result_bind].
  set (pre1 := pre ++ int_bytes 0x40 index 6).
  replace (zlen pre + zlen (int_bytes 0x40 index 6)) with (zlen pre1) by (unfold pre1; zlia).
  assert (Eq : pre ++ int_bytes 0x40 index 6 ++ e ++ string_bytes (value h) ++ rest =
    (pre1 ++ e) ++ string_bytes (value h) ++ rest) by (unfold pre1; by rewrite <- !app_assoc).
  rewrite Eq in *. set (data := (pre1 ++ e) ++ _) in *.
  assert (Hname : forall n o, (if 0 <? index then entry ← Lookup index cd; Ok (name entry, zlen pre1)
     else DecodeString data (zlen pre1)) = Ok (n, o) -> Byte.xdc ∉ n /\ o = zlen (pre1 ++ e)).
  { intros n o. destruct (Z.ltb_spec 0 index).
    - destruct Hpos as (-> & (h' & -> & Eh') & (h2 & Hin & Eh2)); [done|]. cbn. intros [= <- <-].
      rewrite app_nil_r. split; [|done]. rewrite Eh', <- Eh2.
      apply elem_of_app in Hin as [Hin|Hin]; [|by apply (proj1 (Forall_forall _ _) Htab h2 Hin)].
      pose proof (proj1 (forallb_forall _ _) static_clean h2 (proj1 (list_elem_of_In _ _) Hin)) as Hc.
      by apply bool_decide_eq_true in Hc as [? _].
    - assert (Ee : e = string_bytes (name h)) by (apply Hzero; lia). unfold data in *. clear data. subst e.
      rewrite <- app_assoc. intros Hd.
      apply DecodeString_no_dc in Hd as [? ->]; [|done|by rewrite app_assoc].
      split; [done|]. zlia. }
  destruct (if 0 <? index then _ else _) as [[n o]|]; [|done]. destruct (Hname n o eq_refl) as [Hn ->].
  cbn [mbind result_bind]. destruct (DecodeString data (zlen (pre1 ++ e))) as [[v o2]|] eqn:Ev; [|done].
  apply DecodeString_no_dc in Ev as [Hv _]; [|done|done]. cbn. intros <-. by apply Hbad.
Qed.

Abbreviation clean_table c := (Forall header_clean (dynamic_table_ c)).

Lemma clean_prefix t k : t `prefix_of` k -> Forall header_clean k -> Forall header_clean t.
Proof. intros [m ->]. by intros [? _]%Forall_app. Qed.

Lemma Encode_header_clean h out ce cd o ce' : header_fits h -> header_clean h -> in_step ce cd -> clean_table ce ->
  Encode_header h out ce = Ok (o, ce') -> clean_table ce'.
Proof.
  intros Hh Hcl Hs Htab.
  destruct (Encode_header_form h out ce cd Hh Hs) as [(i & _ & _ & _ & ->)|(i & e & _ & ->)]; intros [= _ <-]; [done|].
  pose proof (header_fits_size h Hh). destruct Hs, h as [n v]. cbn [name value]. rewrite AddDynamicEntry_spec by done.
  cbn -[fit]. eapply clean_prefix; [apply fit_prefix|]. by apply Forall_cons.
Qed.

Lemma Encode_loop_clean hs : forall out ce cd o ce', Forall header_fits hs -> Forall header_clean hs -> in_step ce cd ->
  clean_table ce -> Encode_loop hs out ce = Ok (o, ce') -> clean_table ce'.
Proof.
  induction hs as [|h hs IH]; intros out ce cd o ce' Hok Hcl Hs Htab; cbn [Encode_loop]; [by intros [= _ <-]|].
  apply Forall_cons in Hok as [Hh Hok], Hcl as [Hc Hcl].
  destruct (Encode_header_spec h out ce cd) as (e & ce1 & cd1 & E1 & _ & _ & Hs1 & _); [by apply header_ok_split|done|].
  rewrite E1. cbn [mbind result_bind]. apply (IH (out ++ e) ce1 cd1 o ce' Hok Hcl Hs1).
  exact (Encode_header_clean h out ce cd _ _ Hh Hc Hs Htab E1).
Qed.

Lemma Encode_loop_garbled hs : forall out ce cd, Forall header_fits hs -> in_step ce cd ->
  Forall header_clean (dynamic_table_ ce) -> ~ Forall header_clean hs ->
  exists body ce', Encode_loop hs out ce = Ok (out ++ body, ce') /\
    forall fuel pre hls acc l cd', zlen (pre ++ body) < 2 ^ 63 ->
      0 <= hls -> hls + table_bytes hs <= maximum_header_list_size (hpack_options_ cd) < 2 ^ 63 ->
      Decode_loop fuel (pre ++ body) (zlen pre) hls acc cd = (Ok l, cd') -> l <> acc ++ hs.
Proof.
  induction hs as [|h hs IH]; intros out ce cd Hok Hs Htab Hbad; [by destruct Hbad|].
  apply Forall_cons in Hok as [Hh Hok].
  pose proof (table_bytes_len hs) as Htl. pose proof (zlen_nonneg hs). pose proof (entry_size_pos h).
  destruct (decide (header_clean h)) as [Hcl|Hcl].
  - assert (Hbad' : ~ Forall header_clean hs) by (intros H'; by apply Hbad, Forall_cons).
    destruct (Encode_header_spec h out ce cd) as (e & ce1 & cd1 & E1 & Hlen & Hf & Hs1 & Hp1 & Ho1); [by apply header_ok_split|done|].
    assert (Htab1 : clean_table ce1) by (by eapply (Encode_header_clean h out ce cd)).
    destruct (IH (out ++ e) ce1 cd1 Hok Hs1 Htab1 Hbad') as (body & ce2 & E2 & HD).
    exists (e ++ body), ce2. cbn [Encode_loop]. rewrite E1. cbn [mbind result_bind]. rewrite E2, app_assoc. split; [done|].
    intros [|fuel] pre hls acc l cd' H63 Hh0 Hm Hdec; [done|]. rewrite table_bytes_cons in Hm.
    rewrite (Decode_loop_field fuel h e cd cd1) in Hdec by (done || lia).
    apply HD in Hdec; [by rewrite <- app_assoc in Hdec|by rewrite <- app_assoc|lia|rewrite Ho1; lia].
  - destruct (Encode_header_form h out ce cd Hh Hs) as [(i & _ & _ & Hin & E)|(i & e & Hl & E)].
    { exfalso. apply Hcl. apply elem_of_app in Hin as [Hin|Hin]; [|by apply (proj1 (Forall_forall _ _) Htab h Hin)].
      pose proof (proj1 (forallb_forall _ _) static_clean h (proj1 (list_elem_of_In _ _) Hin)) as Hc.
      by apply bool_decide_eq_true in Hc. }
    destruct (Encode_loop_any hs (out ++ int_bytes 0x40 i 6 ++ e ++ string_bytes (value h)) _ _ Hok (in_step_add h ce cd Hh Hs))
      as (body & ce' & _ & E2 & _).
    exists ((int_bytes 0x40 i 6 ++ e ++ string_bytes (value h)) ++ body), ce'.
    cbn [Encode_loop]. rewrite E. cbn [mbind result_bind]. rewrite E2, <- app_assoc. split; [done|].
    intros [|fuel] pre hls acc l cd' H63 Hh0 Hm Hdec ->; [done|]. cbn [Decode_loop] in Hdec.
    pose proof (literal_size h ce cd i e Hh Hl). rewrite (proj2 (Z.ltb_lt _ _)) in Hdec by zlia.
    pose proof (garbled_literal h ce cd i e pre body Hh Hcl Htab Hl H63) as Hg.
    destruct (Decode_step _ _ _) as [[[[h'|] o]|] c1]; cbn in Hg; [|done..].
    destruct (_ <? _); [done|]. apply Decode_loop_extends in Hdec as [k Hk].
    rewrite <- app_assoc in Hk. apply app_inv_head in Hk. by injection Hk as ->.
Qed.

Lemma connected_ok ce cd : connected ce cd -> codec_ok ce /\ codec_ok cd.
Proof. unfold connected. destruct (pending_table_size_update_ ce); [tauto|]. by intros []. Qed.

(** A size change on the sending side. *)
Lemma connected_SetDynamicTableSize n ce cd : connected ce cd -> 0 <= n ->
  n <= maximum_dynamic_table_size (hpack_options_ cd) ->
  connected (SetDynamicTableSize n ce).2 cd.
Proof.
  intros Hc Hn Hm.
  assert (H : codec_ok ce /\ codec_ok cd /\
    (dynamic_table_ ce `prefix_of` dynamic_table_ cd)).
  { unfold connected in Hc. destruct (pending_table_size_update_ ce).
    - destruct Hc as (?&?&?&?&?). repeat (split; [done|]). etransitivity; [done|apply fit_prefix].
    - by destruct Hc. }
  destruct H as (He & Hd & Hp).
  pose proof (SetDynamicTableSize_ok n ce He Hn) as Hok.
  rewrite SetDynamicTableSize_spec in * by done. destruct (_ <? n); [done|].
  unfold connected. cbn [pending_table_size_update_ set_table set_limit snd].
  split; [done|]. split; [done|]. split; [done|]. split; [done|]. by apply fit_mono.
Qed.

(** ** Arbitrary blocks *)

(** Four continuation bytes of an integer, then one whose digit does not fit
    into 32 bits any more *)
Definition oversized (data : list byte) : Prop :=
  exists i, (forall j, 0 <= j < 4 -> exists d, znth data (i + j) = Some d /\ 0x80 <= b2z d) /\
    exists d, znth data (i + 4) = Some d /\ 0x10 <= Z.land (b2z d) 0x7f.

(** How reading may fail *)
Definition decode_error (data : list byte) (e : exn) : Prop :=
  e = runtime_error \/ (e = UndefinedShift /\ oversized data).

(** What the reader functions may do with data from the network: return a
    position further on, or fail. *)
Definition reads {A} (P : A -> Prop) (data : list byte) (offset : Z) (r : result (A * Z)) : Prop :=
  match r with
  | Ok (a, offset') => P a /\ offset < offset' <= zlen data
  | Throw e => decode_error data e
  end.

Lemma index_in_range {A} (l : list A) i : 0 <= i < zlen l -> exists a, index_unchecked l i = Ok a.
Proof. intros H. destruct (znth_is_Some _ _ H) as [a E]. exists a. unfold index_unchecked. by rewrite E. Qed.

Lemma continues d : (Z.land (b2z d) 0x80 =? 0) = false -> 0x80 <= b2z d.
Proof.
  intros H. destruct (decide (0x80 <= b2z d)) as [|Hd]; [done|]. pose proof (b2z_range d).
  pose proof (forall_below (fun x => Z.land x 0x80 =? 0) 128 ltac:(vm_compute; reflexivity) (b2z d) ltac:(lia)) as H'.
  cbn beta in H'. congruence.
Qed.

(** [n] continuation bytes have been read. *)
Lemma read_continuation_reads fuel data : forall offset value n,
  n = 5 - Z.of_nat fuel -> (0 < fuel)%nat -> 0 <= n -> 0 <= offset - n ->
  (forall j, 0 <= j < n -> exists d, znth data (offset - n + j) = Some d /\ 0x80 <= b2z d) ->
  reads (fun v => 0 <= v < 2 ^ 32) data offset (read_continuation fuel data offset value (7 * n)).
Proof.
  induction fuel as [|fuel IH]; intros offset value n Hn Hf Hn0 Ho Hread; [lia|].
  cbn [read_continuation]. destruct (Z.leb_spec (zlen data) offset); [by left|].
  destruct (znth_is_Some data offset) as [d Ed]; [lia|].
  unfold index_unchecked. rewrite Ed. cbn [mbind result_bind].
  assert (Hd : 0 <= Z.land (b2z d) 0x7f < 128).
  { split; [apply Z.land_nonneg; lia|]. change 0x7f with (Z.ones 7). rewrite Z.land_ones by lia. apply Z.mod_pos_bound. lia. }
  destruct (Z.leb_spec (2 ^ 32) (Z.shiftl (Z.land (b2z d) 0x7f) (7 * n))) as [Hs|Hs].
  { right. split; [done|]. rewrite Z.shiftl_mul_pow2 in Hs by lia.
    destruct (decide (n = 4)) as [->|Hn4].
    - exists (offset - 4). split; [done|]. exists d. split; [by rewrite Z.sub_add|]. change (7 * 4) with 28 in Hs. lia.
    - assert (2 ^ (7 * n) <= 2 ^ 21) by (apply Z.pow_le_mono_r; lia). nia. }
  destruct (_ =? 0) eqn:E0.
  { cbn. pose proof (u32_range (value + Z.shiftl (Z.land (b2z d) 127) (7 * n))). lia. }
  destruct (Z.ltb_spec 28 (7 * n + 7)); [by left|].
  assert (Hr : reads (fun v => 0 <= v < 2 ^ 32) data (offset + 1)
    (read_continuation fuel data (offset + 1) (u32 (value + Z.shiftl (Z.land (b2z d) 127) (7 * n))) (7 * (n + 1)))).
  { apply IH; try lia. intros j Hj. replace (offset + 1 - (n + 1) + j) with (offset - n + j) by lia.
    destruct (decide (j = n)) as [->|Hne]; [|apply Hread; lia]. exists d. rewrite Z.sub_add. split; [done|]. by apply continues. }
  replace (7 * (n + 1)) with (7 * n + 7) in Hr by lia.
  destruct (read_continuation _ _ _ _ _) as [[v o]|e]; cbn in *; [lia|done].
Qed.

Lemma ReadDecodedInteger_reads data offset p : prefix_ok p -> 0 <= offset ->
  reads (fun v => 0 <= v < 2 ^ 32) data offset (ReadDecodedInteger data offset p).
Proof.
  intros Hp Ho. unfold ReadDecodedInteger. destruct (prefix_mask_eq p Hp) as [_ Hm].
  destruct (Z.leb_spec (zlen data) offset); [by left|].
  destruct (index_in_range data offset) as [d ->]; [lia|]. cbn [mbind result_bind].
  pose proof (b2z_range d).
  destruct (Z.ltb_spec (Z.land (b2z d) (prefix_mask p)) (prefix_mask p)).
  - cbn. assert (0 <= Z.land (b2z d) (prefix_mask p)) by (apply Z.land_nonneg; lia). lia.
  - assert (Hr : reads (fun v => 0 <= v < 2 ^ 32) data (offset + 1)
      (read_continuation continuation_fuel data (offset + 1) (Z.land (b2z d) (prefix_mask p)) (7 * 0)))
      by (apply read_continuation_reads; unfold continuation_fuel; intros; lia).
    change (7 * 0) with 0 in Hr.
    destruct (read_continuation _ _ _ _ _) as [[v o]|e]; cbn in *; [lia|done].
Qed.

(** A decoded string has at most a character per bit. *)
Lemma walk_byte_length nodes_ last buffer k : forall node out n o,
  walk_byte nodes_ last buffer k node out = Ok (Running n o) -> zlen o <= zlen out + Z.of_nat k.
Proof.
  induction k as [|k IH]; intros node out n o H; cbn [walk_byte] in H; [by simplify_eq; lia|].
  destruct (walk_bit _ _ _ _ _) as [[n1 o1|]|] eqn:E; cbn in H; try done.
  apply IH in H. assert (zlen o1 <= zlen out + 1); [|lia].
  unfold walk_bit in E. destruct (node_at nodes_ node) as [m|]; [|done]. cbn in E.
  destruct (_ <? 0); [done|]. destruct (node_at nodes_ (child m _)) as [m'|]; [|done]. cbn in E.
  destruct (_ <=? _); [destruct (_ =? 256); [done|]|]; simplify_eq; zlia.
Qed.

Lemma walk_bytes_length nodes_ data : forall node out n o,
  walk_bytes nodes_ data node out = Ok (Running n o) -> zlen o <= zlen out + 8 * zlen data.
Proof.
  induction data as [|d data IH]; intros node out n o H; cbn [walk_bytes] in H;
    [simplify_eq; zlia|].
  destruct (walk_byte _ _ _ _ _ _) as [[n1 o1|]|] eqn:E; cbn in H; try done.
  apply IH in H. apply walk_byte_length in E. rewrite zlen_cons. lia.
Qed.

Lemma DecodeString_reads data offset : 0 <= offset -> zlen data < 2 ^ 56 ->
  reads (fun s => zlen s <= 8 * zlen data) data offset (DecodeString data offset).
Proof.
  intros Ho Hd. unfold DecodeString.
  destruct (Z.leb_spec (zlen data) offset); [by left|].
  destruct (index_in_range data offset) as [d ->]; [lia|]. cbn [mbind result_bind].
  pose proof (ReadDecodedInteger_reads data offset 7 ltac:(cbn; tauto) Ho) as Hr.
  destruct (ReadDecodedInteger data offset 7) as [[n o]|e]; cbn in Hr; [|done].
  cbn [mbind result_bind]. rewrite u64_small by lia.
  destruct (Z.ltb_spec (zlen data) (o + n)); [by left|].
  assert (Hz : zlen (zslice o n data) <= zlen data) by (rewrite zlen_zslice; lia).
  destruct (negb _); [|cbn; lia].
  unfold HuffmanDecoder_Instance. rewrite BuildTree_spec. cbn [mbind result_bind].
  destruct (HuffmanDecoder_total (zslice o n data) []) as (ok & out & Eh). rewrite Eh.
  cbn [mbind result_bind]. destruct ok; cbn [negb]; [|by left]. cbn. split; [|lia].
  unfold HuffmanDecoder_Decode in Eh.
  destruct (walk_bytes _ _ _ _) as [[n1 o1|ok]|] eqn:Ew; cbn in Eh; [|simplify_eq; zlia|done].
  simplify_eq. apply walk_bytes_length in Ew. zlia.
Qed.

Lemma codec_entry_bound c e : codec_ok c -> e ∈ dynamic_table_ c -> entry_size e < 2 ^ 31.
Proof.
  intros [? _ Hb Hl Hm] (t1 & t2 & E)%list_elem_of_split. rewrite E, table_bytes_app in Hb.
  rewrite table_bytes_cons in Hb. pose proof (table_bytes_len t1). pose proof (table_bytes_len t2).
  pose proof (zlen_nonneg t1). pose proof (zlen_nonneg t2). lia.
Qed.

Lemma static_entry_bound : forallb (fun e => entry_size e <? 100) BuildStaticTable = true.
Proof. vm_compute. reflexivity. Qed.

Lemma Lookup_safe index c : codec_ok c -> 0 <= index -> match Lookup index c with
  | Ok e => entry_size e < 2 ^ 31
  | Throw e => e = runtime_error
  end.
Proof.
  intros Hc Hi. unfold Lookup. destruct (Z.eqb_spec index 0); [done|].
  assert (Hin : forall (l : list TableEntry) i e, 0 <= i -> index_unchecked l i = Ok e -> e ∈ l).
  { intros l i e Hi' E. unfold index_unchecked, znth in E.
    destruct (i <? 0); [done|]. destruct (l !! Z.to_nat i) eqn:El; simplify_eq.
    by eapply list_elem_of_lookup_2. }
  destruct (Z.ltb_spec index (zlen (static_table_ c))).
  - destruct (index_in_range (static_table_ c) index) as [e E]; [lia|]. rewrite E.
    apply Hin in E; [|done]. rewrite (ck_static _ Hc) in E. apply list_elem_of_In in E.
    pose proof (proj1 (forallb_forall _ _) static_entry_bound e E) as Hb. cbn beta in Hb.
    apply Z.ltb_lt in Hb. lia.
  - destruct (Z.leb_spec (zlen (dynamic_table_ c)) (index - zlen (static_table_ c))); [done|].
    destruct (index_in_range (dynamic_table_ c) (index - zlen (static_table_ c))) as [e E]; [lia|].
    rewrite E. eapply codec_entry_bound; [done|]. apply Hin in E; [done|lia].
Qed.

Lemma decode_literal_reads data offset p c : codec_ok c -> prefix_ok p -> 0 <= offset ->
  zlen data < 2 ^ 56 ->
  reads (fun h => entry_size h < 2 ^ 62) data offset (decode_literal data offset p c).
Proof.
  intros Hc Hp Ho Hd. unfold decode_literal.
  pose proof (ReadDecodedInteger_reads data offset p Hp Ho) as Hr.
  destruct (ReadDecodedInteger data offset p) as [[i o]|e]; cbn in Hr; [|done]. cbn [mbind result_bind].
  assert (Hn : match (if 0 <? i then entry ← Lookup i c; Ok (name entry, o) else DecodeString data o) with
    | Ok (n, o') => zlen n < 2 ^ 60 /\ offset < o' <= zlen data
    | Throw e => decode_error data e end).
  { destruct (Z.ltb_spec 0 i).
    - pose proof (Lookup_safe i c Hc ltac:(lia)). destruct (Lookup i c) as [e|]; cbn; [|by left].
      unfold entry_size in *. pose proof (zlen_nonneg (value e)). lia.
    - pose proof (DecodeString_reads data o ltac:(lia) Hd) as Hs.
      destruct (DecodeString data o) as [[n o']|]; cbn in *; [lia|done]. }
  destruct (if 0 <? i then _ else _) as [[n o']|e]; [|done]. cbn [mbind result_bind].
  pose proof (DecodeString_reads data o' ltac:(lia) Hd) as Hs.
  destruct (DecodeString data o') as [[v o2]|]; cbn in *; [|done]. unfold entry_size. cbn. lia.
Qed.

Lemma Decode_step_safe data offset c : codec_ok c -> 0 <= offset < zlen data -> zlen data < 2 ^ 56 ->
  let '(r, c') := Decode_step data offset c in
  codec_ok c' /\ hpack_options_ c' = hpack_options_ c /\
  reads (fun f => match f with Some h => entry_size h < 2 ^ 62 | None => True end) data offset r.
Proof.
  intros Hc Ho Hd. unfold Decode_step.
  destruct (index_in_range data offset Ho) as [d ->].
  destruct (negb _).
  { split; [done|]. split; [done|].
    pose proof (ReadDecodedInteger_reads data offset 7 ltac:(cbn; tauto) ltac:(lia)) as Hr.
    destruct (ReadDecodedInteger data offset 7) as [[i o]|e]; cbn in Hr; [|done]. cbn [mbind result_bind].
    destruct (i =? 0); [by left|]. pose proof (Lookup_safe i c Hc ltac:(lia)).
    destruct (Lookup i c) as [e|]; cbn; [lia|by left]. }
  destruct (_ =? 0x40).
  { pose proof (decode_literal_reads data offset 6 c Hc ltac:(cbn; tauto) ltac:(lia) Hd) as Hr.
    destruct (decode_literal data offset 6 c) as [[[n v] o]|e]; cbn in Hr; [|done].
    split; [apply AddDynamicEntry_ok; [done|cbn; lia]|]. split; [|done].
    cbn [name value]. rewrite AddDynamicEntry_spec; [done|done|lia]. }
  destruct (_ =? 0x00).
  { split; [done|]. split; [done|].
    pose proof (decode_literal_reads data offset 4 c Hc ltac:(cbn; tauto) ltac:(lia) Hd) as Hr.
    by destruct (decode_literal data offset 4 c) as [[h o]|e]. }
  destruct (_ =? 0x20); [|split; [done|split; [done|by left]]].
  pose proof (ReadDecodedInteger_reads data offset 5 ltac:(cbn; tauto) ltac:(lia)) as Hr.
  destruct (ReadDecodedInteger data offset 5) as [[n o]|e]; cbn in Hr; [|done].
  pose proof (SetDynamicTableSize_ok n c Hc ltac:(lia)) as Hok.
  rewrite SetDynamicTableSize_spec in * by (done || lia).
  destruct (_ <? n); (split; [done|split; [done|]]); [by left|]. cbn. lia.
Qed.

Lemma Decode_loop_safe fuel data : zlen data < 2 ^ 56 -> forall offset hls hs c, codec_ok c ->
  0 <= offset -> (Z.to_nat (zlen data - offset) < fuel)%nat ->
  hls = table_bytes hs -> table_bytes hs <= maximum_header_list_size (hpack_options_ c) < 2 ^ 62 ->
  let '(r, c') := Decode_loop fuel data offset hls hs c in
  codec_ok c' /\ match r with
    | Ok hs' => table_bytes hs' <= maximum_header_list_size (hpack_options_ c)
    | Throw e => decode_error data e
    end.
Proof.
  intros Hd. induction fuel as [|fuel IH]; intros offset hls hs c Hc Ho Hf -> Hm; [lia|].
  cbn [Decode_loop]. destruct (Z.ltb_spec offset (zlen data)); [|split; [done|lia]].
  pose proof (Decode_step_safe data offset c Hc ltac:(lia) Hd) as Hs.
  destruct (Decode_step data offset c) as [[[f o]|e] c1]; destruct Hs as (Hc1 & Ho1 & Hr);
    cbn in Hr; [|done].
  pose proof (table_bytes_len hs). pose proof (zlen_nonneg hs).
  set (hs' := match f with Some h => hs ++ [h] | None => hs end).
  assert (E : match f with
    | Some h => u64 (table_bytes hs + u64 (entry_size h)) | None => table_bytes hs end = table_bytes hs').
  { unfold hs'. destruct f as [h|]; [|done]. pose proof (entry_size_pos h).
    rewrite (u64_small (entry_size h)), u64_small by lia.
    rewrite table_bytes_app, table_bytes_cons. change (table_bytes []) with 0. lia. }
  rewrite E, Ho1. destruct (Z.ltb_spec (maximum_header_list_size (hpack_options_ c)) (table_bytes hs')).
  - split; [done|by left].
  - specialize (IH o (table_bytes hs') hs' c1 Hc1). rewrite Ho1 in IH. apply IH; lia || done.
Qed.

(** ** The properties *)

(** What a sender does with its codec. *)
Inductive hpack_op :=
  | Resize (new_size : Z)
  | Send (headers : list HttpHeader).

(** The sender performs the operations and the peer decodes every block; the
    result is what the peer decoded. *)
Fixpoint exchange (ops : list hpack_op) (ce cd : HpackCodec) : result (list (list HttpHeader)) :=
  match ops with
  | [] => Ok []
  | Resize n :: ops => exchange ops (SetDynamicTableSize n ce).2 cd
  | Send hs :: ops =>
      '(block, ce) ← Encode hs ce;
      let '(r, cd) := Decode block cd in
      hs' ← r;
      rest ← exchange ops ce cd;
      Ok (hs' :: rest)
  end.

Fixpoint sent (ops : list hpack_op) : list (list HttpHeader) :=
  match ops with
  | [] => []
  | Resize _ :: ops => sent ops
  | Send hs :: ops => hs :: sent ops
  end.

(** Sizes and header lists that the peer allows, names and values shorter
    than a gigabyte *)
Definition op_ok (peer : HpackOptions) (op : hpack_op) : Prop :=
  match op with
  | Resize n => 0 <= n <= maximum_dynamic_table_size peer
  | Send hs => Forall header_fits hs /\ table_bytes hs <= maximum_header_list_size peer
  end.

(** A block without the byte [0xdc] is received, one with it is not. *)
Lemma Encode_Decode_iff hs ce cd : connected ce cd -> clean_table ce -> Forall header_fits hs ->
  table_bytes hs <= maximum_header_list_size (hpack_options_ cd) < 2 ^ 60 ->
  exists block ce' cd' r, Encode hs ce = Ok (block, ce') /\ Decode block cd = (r, cd') /\
    (Forall header_clean hs -> r = Ok hs /\ connected ce' cd' /\ hpack_options_ cd' = hpack_options_ cd /\ clean_table ce') /\
    (~ Forall header_clean hs -> r <> Ok hs).
Proof.
  intros Hc Htab Hok Hm. destruct (decide (Forall header_clean hs)) as [Hcl|Hcl].
  - assert (Hall : Forall header_ok hs).
    { rewrite !Forall_forall in *. intros h Hin. apply header_ok_split. auto. }
    destruct (Encode_Decode hs ce cd Hc Hall Hm) as (block & ce' & cd' & E & Ed & Hc' & Ho).
    exists block, ce', cd', (Ok hs). split; [done|]. split; [done|]. split; [intros _|done].
    destruct (Encode_start hs ce cd Hc) as (out & ce1 & cd1 & Hs & _ & _ & Ht & _ & E' & _).
    rewrite E' in E. split_and!; try done. eapply (Encode_loop_clean hs out ce1 cd1); try done. by rewrite Ht.
  - destruct (Encode_start hs ce cd Hc) as (out & ce1 & cd1 & Hs & _ & Ho & Ht & Hlo & E' & Hstart).
    destruct (Encode_loop_garbled hs out ce1 cd1) as (body & ce' & E & HD); try done; [by rewrite Ht|].
    exists (out ++ body), ce', (Decode (out ++ body) cd).2, (Decode (out ++ body) cd).1. split; [by rewrite E'|].
    split; [by destruct (Decode _ _)|]. split; [done|]. intros _.
    assert (H62 : zlen (out ++ body) < 2 ^ 63).
    { destruct (Encode_loop_any hs out ce1 cd1 Hok Hs) as (body' & ? & ? & E3 & _ & _ & _ & Hlen).
      rewrite E in E3. injection E3 as Eb%app_inv_head _. subst body'. zlia. }
    pose proof (table_bytes_len hs). pose proof (zlen_nonneg hs).
    destruct (Hstart body) as (fuel & ->); [lia|].
    destruct (Decode_loop _ _ _ _ _ _) as [r cd'] eqn:El. cbn. intros ->.
    eapply HD in El; [done|lia|lia|]. rewrite Ho. lia.
Qed.

Lemma exchange_iff ops : forall ce cd, connected ce cd -> clean_table ce ->
  maximum_header_list_size (hpack_options_ cd) < 2 ^ 60 ->
  Forall (op_ok (hpack_options_ cd)) ops ->
  (exchange ops ce cd = Ok (sent ops) <-> Forall (Forall header_clean) (sent ops)).
Proof.
  induction ops as [|[n|hs] ops IH]; intros ce cd Hc Htab Hm Hok; [done|..];
    apply Forall_cons in Hok as [Hop Hok]; cbn [exchange sent].
  - apply IH; [|..|done|done]; [apply connected_SetDynamicTableSize; [done|apply Hop..]|].
    pose proof (proj1 (connected_ok _ _ Hc)) as Hce. cbn in Hop. rewrite SetDynamicTableSize_spec by (done || lia).
    destruct (_ <? n); [done|]. cbn -[fit]. by eapply clean_prefix, Htab; apply fit_prefix.
  - destruct Hop as [Hh Hl].
    destruct (Encode_Decode_iff hs ce cd) as (block & ce' & cd' & r & E & Ed & Hgood & Hbad); [done..|lia|].
    rewrite E. cbn [mbind result_bind]. rewrite Ed, Forall_cons.
    destruct (decide (Forall header_clean hs)) as [Hcl|Hcl].
    + destruct (Hgood Hcl) as (-> & Hc' & Ho' & Htab'). cbn [mbind result_bind].
      rewrite <- (IH ce' cd' Hc' Htab') by (by rewrite Ho'). split.
      * destruct (exchange ops ce' cd') as [l|e]; [|done]. intros [= ->]. done.
      * by intros [_ ->].
    + split; [|tauto]. intros H. exfalso. apply (Hbad Hcl).
      destruct r as [l|e]; [|done]. cbn [mbind result_bind] in H. destruct (exchange _ _ _); [|done]. by injection H as ->.
Qed.

(** C2. For any sequence of header lists and table size changes, with names and
    values below a gigabyte and lists within the limit of a fresh peer that has
    the same table size: the peer decodes every block to the list that was
    encoded, in order, if and only if no name and no value contains the byte
    [0xdc].  (Its Huffman code is wrong in the table of the source.)  In
    particular the two dynamic tables never diverge on other headers, whatever
    was indexed, evicted or resized before. *)
Theorem hpack_session_roundtrip oe od ops :
  maximum_dynamic_table_size oe = maximum_dynamic_table_size od ->
  0 <= maximum_dynamic_table_size oe < 2 ^ 31 -> maximum_header_list_size od < 2 ^ 60 ->
  Forall (op_ok od) ops ->
  (exchange ops (HpackCodec_make oe) (HpackCodec_make od) = Ok (sent ops) <->
   Forall (Forall (fun h => Byte.xdc ∉ name h /\ Byte.xdc ∉ value h)) (sent ops)).
Proof.
  intros Ho Hr Hm Hok. apply exchange_iff; [by apply connected_make|constructor|done..].
Qed.

Definition sample_headers : list HttpHeader :=
  [mkHeader $":status" $"200"; mkHeader $"x-request-id" $"17"; mkHeader $"x-request-id" $"17"].

Lemma hpack_session_roundtrip_witness :
  exchange [Send sample_headers; Resize 40; Resize 100; Send sample_headers]
    (HpackCodec_make HpackOptions_default) (HpackCodec_make HpackOptions_default) =
  Ok [sample_headers; sample_headers].
Proof.
  assert (Hs : op_ok HpackOptions_default (Send sample_headers))
    by (split; [repeat constructor; vm_compute; reflexivity|vm_compute; discriminate]).
  apply (hpack_session_roundtrip HpackOptions_default HpackOptions_default
    [Send sample_headers; Resize 40; Resize 100; Send sample_headers]).
  - reflexivity.
  - split; vm_compute; [discriminate|reflexivity].
  - vm_compute. reflexivity.
  - repeat (apply List.Forall_cons); [exact Hs| | |exact Hs|apply List.Forall_nil];
      split; vm_compute; discriminate.
  - apply (bool_decide_unpack _). vm_compute. exact I.
Defined.



(** An integer of 32 bits is read back wherever it stands, with any of the
    prefixes in use, and the reader stops exactly behind it. *)
Theorem hpack_integer_roundtrip out b p v rest : flags_ok (b2z b) p -> 0 <= v < 2 ^ 32 ->
  exists e, EncodeInteger (out ++ [b]) v p = Ok (out ++ e) /\
    ReadDecodedInteger (out ++ e ++ rest) (zlen out) p = Ok (v, zlen out + zlen e).
Proof.
  intros Hb Hv. exists (int_bytes (b2z b) v p). split.
  - apply EncodeInteger_spec; [by eapply flags_prefix|done].
  - by apply ReadDecodedInteger_spec.
Qed.

Lemma hpack_integer_roundtrip_witness :
  exists e, EncodeInteger [Byte.x40] (2 ^ 32 - 1) 6 = Ok e /\
    ReadDecodedInteger (e ++ [Byte.x61]) 0 6 = Ok (2 ^ 32 - 1, zlen e).
Proof.
  apply (hpack_integer_roundtrip [] Byte.x40 6 (2 ^ 32 - 1) [Byte.x61]).
  - right. left. reflexivity.
  - split; vm_compute; [discriminate|reflexivity].
Defined.

(** Five continuation bytes can shift a value out of the range of [int]. *)
Theorem hpack_integer_overflow :
  (Decode [Byte.xff; Byte.xff; Byte.xff; Byte.xff; Byte.xff; Byte.x7f]
    (HpackCodec_make HpackOptions_default)).1 = Throw UndefinedShift.
Proof. vm_compute. reflexivity. Qed.

(** A literal that must never be indexed (RFC 7541, 6.2.3) is refused. *)
Theorem hpack_never_indexed_refused :
  (Decode [Byte.x10; Byte.x01; Byte.x61; Byte.x01; Byte.x62]
    (HpackCodec_make HpackOptions_default)).1 = Throw runtime_error.
Proof. vm_compute. reflexivity. Qed.
