(* ===== verification/Http2Outbound.v ===== *)
(** * Outbound scheduling of HTTP/2 responses

    [H2OutboundScheduler] of [http2_outbound.h] and [http2_outbound.cpp]: the
    streams that wait for their response or for flow-control credit, the two
    kinds of window, and the frames that every call hands to the frame sender.

    The frames of a call are part of its result; the calls of [frame_sender_]
    with them, outside of the mutex, are steps of their own.  [std::unordered_map] visits
    its elements in an order that the standard leaves open; a call that visits
    all streams takes this order as the argument [order]. *)

From S2P Require Import Prelude HttpMessage Huffman Hpack Http2Frames.

Definition kMaximumWindow : Z := 0x7fffffff.

Definition IsConnectionSpecific (name : list byte) : bool :=
  bool_decide (name = $"connection") || bool_decide (name = $"keep-alive") ||
  bool_decide (name = $"proxy-connection") || bool_decide (name = $"transfer-encoding") ||
  bool_decide (name = $"upgrade").

Record StreamOutput := mkStreamOutput {
  so_window : Z;
  so_body : list byte;
  so_offset : Z;
  response_submitted : bool;
}.

(** [mutex_] makes the computation of every call below one step; the frames of
    the results are sent later, which is modelled at the end. *)
Record H2OutboundScheduler := mkScheduler {
  closed_ : bool;
  connection_window_ : Z;
  initial_window_size_ : Z;
  maximum_frame_size_ : Z;
  maximum_encoder_table_size_ : Z;
  encoder_ : HpackCodec;
  streams_ : gmap Z StreamOutput;
}.

Definition set_streams (m : gmap Z StreamOutput) (s : H2OutboundScheduler) : H2OutboundScheduler :=
  mkScheduler (closed_ s) (connection_window_ s) (initial_window_size_ s) (maximum_frame_size_ s)
    (maximum_encoder_table_size_ s) (encoder_ s) m.

Definition set_connection_window (w : Z) (s : H2OutboundScheduler) : H2OutboundScheduler :=
  mkScheduler (closed_ s) w (initial_window_size_ s) (maximum_frame_size_ s)
    (maximum_encoder_table_size_ s) (encoder_ s) (streams_ s).

Definition set_encoder (e : HpackCodec) (s : H2OutboundScheduler) : H2OutboundScheduler :=
  mkScheduler (closed_ s) (connection_window_ s) (initial_window_size_ s) (maximum_frame_size_ s)
    (maximum_encoder_table_size_ s) e (streams_ s).

(** The constructor; [has_sender] is [static_cast<bool>(frame_sender_)]. *)
Definition H2OutboundScheduler_make (has_sender : bool)
    (initial_window_size maximum_frame_size : Z) (hpack_options : HpackOptions)
    : result H2OutboundScheduler :=
  if negb has_sender || (kMaximumWindow <? initial_window_size) ||
     (maximum_frame_size <? 16384) || (16777215 <? maximum_frame_size)
  then Throw invalid_argument
  else Ok (mkScheduler false 65535 initial_window_size maximum_frame_size
             (maximum_dynamic_table_size hpack_options) (HpackCodec_make hpack_options) ∅).

Definition OpenStream (stream_id : Z) (s : H2OutboundScheduler) : H2OutboundScheduler :=
  if closed_ s then s
  else
    match streams_ s !! stream_id with
    | Some _ => s
    | None =>
        set_streams (<[stream_id := mkStreamOutput (initial_window_size_ s) [] 0 false]> (streams_ s)) s
    end.

Definition CloseStream (stream_id : Z) (s : H2OutboundScheduler) : H2OutboundScheduler :=
  set_streams (delete stream_id (streams_ s)) s.

Definition Close (s : H2OutboundScheduler) : H2OutboundScheduler :=
  mkScheduler true (connection_window_ s) (initial_window_size_ s) (maximum_frame_size_ s)
    (maximum_encoder_table_size_ s) (encoder_ s) ∅.

(** ** Header blocks *)

(** The headers sent for a response: the status first, then those that may
    appear in HTTP/2, their names in lower case. *)
Definition response_fields (r : HttpResponse) : list HttpHeader :=
  mkHeader $":status" (to_string (status_code r)) ::
  List.filter (fun h => negb (zlen (name h) =? 0) && negb (bool_decide (front (name h) = Some Byte.x3a)) &&
                        negb (IsConnectionSpecific (name h)))
    (map (fun h => mkHeader (Lowercase (name h)) (value h)) (resp_headers r)).

(** The [do ... while] loop that cuts [block] into frames. *)
Fixpoint split_block (fuel : nat) (stream_id maximum : Z) (end_stream : bool) (block : list byte)
    (offset : Z) (first : bool) : result (list (list byte)) :=
  match fuel with
  | O => Throw NonTermination
  | S fuel =>
      let bytes := Z.min maximum (zlen block - offset) in
      let last := offset + bytes =? zlen block in
      let type := if first then FrameType_Headers else FrameType_Continuation in
      let flags :=
        if last then
          if end_stream then Z.lor FrameFlags_EndHeaders FrameFlags_EndStream
          else FrameFlags_EndHeaders
        else 0 in
      let frame := EncodeHeader (mkFrameHeader (u32 bytes) type flags stream_id) ++
                   zslice offset bytes block in
      if offset + bytes <? zlen block then
        frames ← split_block fuel stream_id maximum end_stream block (offset + bytes) false;
        Ok (frame :: frames)
      else Ok [frame]
  end.

Definition EncodeHeaderBlockLocked (stream_id : Z) (response : HttpResponse) (end_stream : bool)
    (s : H2OutboundScheduler) : result (list (list byte) * H2OutboundScheduler) :=
  '(block, encoder) ← Encode (response_fields response) (encoder_ s);
  frames ← split_block (S (length block)) stream_id (maximum_frame_size_ s) end_stream block 0 true;
  Ok (frames, set_encoder encoder s).

(** ** Data frames *)

(** The loop of [FlushStreamLocked]: the stream, the connection window and the
    frames produced. *)
Fixpoint flush_loop (fuel : nat) (stream_id maximum : Z) (st : StreamOutput) (window : Z)
    : result (StreamOutput * Z * list (list byte)) :=
  match fuel with
  | O => Throw NonTermination
  | S fuel =>
      if (so_offset st <? zlen (so_body st)) && (0 <? so_window st) && (0 <? window) then
        let remaining := zlen (so_body st) - so_offset st in
        let bytes := Z.min (Z.min (Z.min remaining (so_window st)) window) maximum in
        let flags := if so_offset st + bytes =? zlen (so_body st) then FrameFlags_EndStream else 0 in
        let frame := EncodeHeader (mkFrameHeader (u32 bytes) FrameType_Data flags stream_id) ++
                     zslice (so_offset st) bytes (so_body st) in
        let st := mkStreamOutput (so_window st - bytes) (so_body st) (so_offset st + bytes)
                    (response_submitted st) in
        '(st, window, frames) ← flush_loop fuel stream_id maximum st (window - bytes);
        Ok (st, window, frame :: frames)
      else Ok (st, window, [])
  end.

(** The boolean is the result of the method; every iteration sends a byte. *)
Definition FlushStreamLocked (stream_id : Z) (st : StreamOutput) (s : H2OutboundScheduler)
    : result (bool * StreamOutput * list (list byte) * H2OutboundScheduler) :=
  '(st, window, frames) ←
    flush_loop (S (Z.to_nat (zlen (so_body st) - so_offset st))) stream_id (maximum_frame_size_ s)
      st (connection_window_ s);
  Ok (so_offset st =? zlen (so_body st), st, frames, set_connection_window window s).

(** Flush a stream of the map; erase it when it is finished. *)
Definition flush_or_erase (stream_id : Z) (st : StreamOutput) (s : H2OutboundScheduler)
    : result (list (list byte) * H2OutboundScheduler) :=
  '(finished, st, frames, s) ← FlushStreamLocked stream_id st s;
  Ok (frames,
      set_streams (if finished : bool then delete stream_id (streams_ s)
                   else <[stream_id := st]> (streams_ s)) s).

Fixpoint FlushAllLocked (order : list Z) (s : H2OutboundScheduler)
    : result (list (list byte) * H2OutboundScheduler) :=
  match order with
  | [] => Ok ([], s)
  | stream_id :: order =>
      match streams_ s !! stream_id with
      | Some st =>
          if response_submitted st then
            '(frames, s) ← flush_or_erase stream_id st s;
            '(frames', s) ← FlushAllLocked order s;
            Ok (frames ++ frames', s)
          else FlushAllLocked order s
      | None => FlushAllLocked order s
      end
  end.

(** ** Calls *)

Definition SubmitResponse (stream_id : Z) (response : HttpResponse) (s : H2OutboundScheduler)
    : result (bool * list (list byte) * H2OutboundScheduler) :=
  match streams_ s !! stream_id with
  | None => Ok (false, [], s)
  | Some st =>
      if closed_ s || response_submitted st then Ok (false, [], s)
      else
        let body_empty := zlen (resp_body response) =? 0 in
        let st := mkStreamOutput (so_window st) (resp_body response) (so_offset st) true in
        let s := set_streams (<[stream_id := st]> (streams_ s)) s in
        '(frames, s) ← EncodeHeaderBlockLocked stream_id response body_empty s;
        if zlen (so_body st) =? 0 then
          Ok (true, frames, set_streams (delete stream_id (streams_ s)) s)
        else
          '(frames', s) ← flush_or_erase stream_id st s;
          Ok (true, frames ++ frames', s)
  end.

Definition ApplyPeerSettings (initial_window_size maximum_frame_size header_table_size : Z)
    (order : list Z) (s : H2OutboundScheduler)
    : result (bool * list (list byte) * H2OutboundScheduler) :=
  if (kMaximumWindow <? initial_window_size) || (maximum_frame_size <? 16384) ||
     (16777215 <? maximum_frame_size)
  then Ok (false, [], s)
  else if closed_ s then Ok (false, [], s)
  else
    let delta := initial_window_size - initial_window_size_ s in
    if existsb (fun e => kMaximumWindow <? so_window e.2 + delta) (map_to_list (streams_ s))
    then Ok (false, [], s)
    else
      let streams := (fun st => mkStreamOutput (so_window st + delta) (so_body st) (so_offset st)
                                  (response_submitted st)) <$> streams_ s in
      let '(r, encoder) :=
        SetDynamicTableSize (Z.min header_table_size (maximum_encoder_table_size_ s)) (encoder_ s) in
      _ ← r;
      let s := mkScheduler (closed_ s) (connection_window_ s) initial_window_size maximum_frame_size
                 (maximum_encoder_table_size_ s) encoder streams in
      '(frames, s) ← FlushAllLocked order s;
      Ok (true, frames, s).

Definition UpdateConnectionWindow (increment : Z) (order : list Z) (s : H2OutboundScheduler)
    : result (bool * list (list byte) * H2OutboundScheduler) :=
  if closed_ s || (increment =? 0) || (kMaximumWindow <? connection_window_ s + increment)
  then Ok (false, [], s)
  else
    '(frames, s) ← FlushAllLocked order (set_connection_window (connection_window_ s + increment) s);
    Ok (true, frames, s).

Definition UpdateStreamWindow (stream_id increment : Z) (s : H2OutboundScheduler)
    : result (bool * list (list byte) * H2OutboundScheduler) :=
  match streams_ s !! stream_id with
  | None => Ok (false, [], s)
  | Some st =>
      if closed_ s || (increment =? 0) || (kMaximumWindow <? so_window st + increment)
      then Ok (false, [], s)
      else
        let st := mkStreamOutput (so_window st + increment) (so_body st) (so_offset st)
                    (response_submitted st) in
        '(frames, s) ← flush_or_erase stream_id st s;
        Ok (true, frames, s)
  end.

(** ** Calls as steps *)

Inductive outbound_call :=
  | COpenStream (stream_id : Z)
  | CCloseStream (stream_id : Z)
  | CClose
  | CSubmitResponse (stream_id : Z) (response : HttpResponse)
  | CApplyPeerSettings (initial_window_size maximum_frame_size header_table_size : Z) (order : list Z)
  | CUpdateConnectionWindow (increment : Z) (order : list Z)
  | CUpdateStreamWindow (stream_id increment : Z).

(** The result of a call: the boolean (true for the methods that return none),
    the frames sent and the new state. *)
Definition call (c : outbound_call) (s : H2OutboundScheduler)
    : result (bool * list (list byte) * H2OutboundScheduler) :=
  match c with
  | COpenStream id => Ok (true, [], OpenStream id s)
  | CCloseStream id => Ok (true, [], CloseStream id s)
  | CClose => Ok (true, [], Close s)
  | CSubmitResponse id r => SubmitResponse id r s
  | CApplyPeerSettings iw mf ht order => ApplyPeerSettings iw mf ht order s
  | CUpdateConnectionWindow inc order => UpdateConnectionWindow inc order s
  | CUpdateStreamWindow id inc => UpdateStreamWindow id inc s
  end.

(** A sequence of calls; the frames of each of them are kept apart. *)
Fixpoint calls (cs : list outbound_call) (s : H2OutboundScheduler)
    : result (list bool * list (list (list byte)) * H2OutboundScheduler) :=
  match cs with
  | [] => Ok ([], [], s)
  | c :: cs =>
      '(b, frames, s) ← call c s;
      '(bs, batches, s) ← calls cs s;
      Ok (b :: bs, frames :: batches, s)
  end.

(** ** Threads

    A call holds [mutex_] while it computes its frames and releases it before
    [SendFrames] hands them to [frame_sender_], one after the other.  Between
    two frames any other thread may compute or send.  [th_left] has, for every
    call so far, in the order in which they held the mutex, the frames that it
    still has to send; [th_wire] has the frames sent, each with the number of
    its call. *)

Record threads := mkThreads {
  th_scheduler : H2OutboundScheduler;
  th_left : list (list (list byte));
  th_wire : list (nat * list byte);
}.

(** The critical section of a call *)
Definition locked (c : outbound_call) (t : threads) : result threads :=
  '(_, frames, s) ← call c (th_scheduler t);
  Ok (mkThreads s (th_left t ++ [frames]) (th_wire t)).

(** One round of the loop of [SendFrames] in the call [i] *)
Definition SendFrames_next (i : nat) (t : threads) : option threads :=
  match th_left t !! i with
  | Some (f :: frames) => Some (mkThreads (th_scheduler t) (<[i := frames]> (th_left t)) (th_wire t ++ [(i, f)]))
  | _ => None
  end.

(** The runs of the threads, with the calls in the order of the mutex; in a
    [serial] run a call waits until the calls before it have sent their frames. *)
Inductive outbound_run (serial : bool) (s : H2OutboundScheduler) : list outbound_call -> threads -> Prop :=
  | run_start : outbound_run serial s [] (mkThreads s [] [])
  | run_locked cs t c t' : outbound_run serial s cs t -> (serial = true -> concat (th_left t) = []) ->
      locked c t = Ok t' -> outbound_run serial s (cs ++ [c]) t'
  | run_send cs t i t' : outbound_run serial s cs t -> SendFrames_next i t = Some t' ->
      outbound_run serial s cs t'.
