(* ===== verification/Http2OutboundTheory.v ===== *)
(** * Theory of the outbound scheduler

    Frames are described by [Frame]; [wire] gives their bytes.  Every call
    preserves [sched_ok] and sends frames that respect the peer's maximum frame
    size and both windows; the DATA frames of a stream are consecutive pieces
    of its body, the last one and only it carrying END_STREAM. *)

From S2P Require Import Prelude HttpMessage Huffman HuffmanTheory Hpack HpackTheory Http2Frames Http2Outbound.

Record Frame := mkFrame {
  fr_type : Z;
  fr_flags : Z;
  fr_stream : Z;
  fr_payload : list byte;
}.

Definition wire (f : Frame) : list byte :=
  frame_of (fr_type f) (fr_flags f) (fr_stream f) (fr_payload f).

Lemma wire_frame ty fl id n p : zlen p = n ->
  wire (mkFrame ty fl id p) = EncodeHeader (mkFrameHeader (u32 n) ty fl id) ++ p.
Proof. by intros <-. Qed.

(** The frames of a stream, in order. *)
Definition on (id : Z) (fs : list Frame) : list Frame := List.filter (fun f => fr_stream f =? id) fs.

Definition is_data (f : Frame) : bool := fr_type f =? FrameType_Data.

(** Number of bytes of DATA payload. *)
Definition data_total (fs : list Frame) : Z :=
  foldr (fun f n => (if is_data f then zlen (fr_payload f) else 0) + n) 0 fs.

Lemma data_total_app fs fs' : data_total (fs ++ fs') = data_total fs + data_total fs'.
Proof.
  induction fs as [|f fs IH]; [done|].
  change (data_total ((f :: fs) ++ fs')) with
    ((if is_data f then zlen (fr_payload f) else 0) + data_total (fs ++ fs')).
  change (data_total (f :: fs)) with
    ((if is_data f then zlen (fr_payload f) else 0) + data_total fs). lia.
Qed.

Lemma on_app id fs fs' : on id (fs ++ fs') = on id fs ++ on id fs'.
Proof. apply List.filter_app. Qed.

(** [data_run id max body lo hi fs]: the frames [fs] carry [body] from [lo] to
    [hi] on stream [id] in frames of at most [max] bytes, END_STREAM being set
    on the frame that reaches the end of the body and on no other. *)
Inductive data_run (id max : Z) (body : list byte) : Z -> Z -> list Frame -> Prop :=
  | data_run_nil lo : data_run id max body lo lo []
  | data_run_cons lo n hi fs :
      0 < n <= max -> lo + n <= zlen body -> data_run id max body (lo + n) hi fs ->
      data_run id max body lo hi
        (mkFrame FrameType_Data (if lo + n =? zlen body then FrameFlags_EndStream else 0) id
           (zslice lo n body) :: fs).

Section data_run_lemmas.
Context (id max : Z) (body : list byte).

Lemma data_run_le lo hi fs : data_run id max body lo hi fs -> lo <= hi.
Proof. induction 1; lia. Qed.

Lemma data_run_app lo mid hi fs fs' :
  data_run id max body lo mid fs -> data_run id max body mid hi fs' ->
  data_run id max body lo hi (fs ++ fs').
Proof. induction 1; intros; [done|]. cbn. constructor; auto. Qed.

(** The payloads are the bytes of the body. *)
Lemma data_run_payload lo hi fs : 0 <= lo -> data_run id max body lo hi fs ->
  concat (map fr_payload fs) = zslice lo (hi - lo) body.
Proof.
  intros Hlo H. induction H as [lo|lo n hi fs Hn Hb H IH]; cbn.
  - rewrite Z.sub_diag, zslice_nil; [done|lia].
  - rewrite IH by lia. pose proof (data_run_le _ _ _ H).
    replace (hi - lo) with (n + (hi - (lo + n))) by lia. by rewrite zslice_split by lia.
Qed.

Lemma data_run_total lo hi fs : 0 <= lo -> data_run id max body lo hi fs -> data_total fs = hi - lo.
Proof.
  intros Hlo H. induction H as [lo|lo n hi fs Hn Hb H IH]; [cbn; lia|].
  change (zlen (zslice lo n body) + data_total fs = hi - lo).
  rewrite IH, zlen_zslice by lia. lia.
Qed.

Lemma data_run_on id' lo hi fs : data_run id max body lo hi fs ->
  on id' fs = if id' =? id then fs else [].
Proof.
  induction 1 as [|lo n hi fs Hn Hb H IH]; [by destruct (_ =? _)|].
  unfold on in *. cbn. rewrite (Z.eqb_sym id id'), IH. by destruct (id' =? id).
Qed.

Lemma data_run_size lo hi fs : 0 <= lo -> data_run id max body lo hi fs ->
  Forall (fun f => zlen (fr_payload f) <= max) fs.
Proof.
  intros Hlo H. induction H; constructor; [cbn; rewrite zlen_zslice; lia|apply IHdata_run; lia].
Qed.
End data_run_lemmas.

Lemma data_run_max id m m' body lo hi fs : m <= m' ->
  data_run id m body lo hi fs -> data_run id m' body lo hi fs.
Proof. intros Hm. induction 1; constructor; try done; lia. Qed.

(** ** [FlushStreamLocked] *)

Record stream_ok (initial : Z) (st : StreamOutput) : Prop := {
  st_offset : 0 <= so_offset st <= zlen (so_body st);
  st_window : initial - kMaximumWindow <= so_window st <= kMaximumWindow;
  st_body : zlen (so_body st) < 2 ^ 62;
  st_idle : response_submitted st = false -> so_body st = [];
  st_busy : response_submitted st = true -> so_offset st < zlen (so_body st);
}.

(** The stream after [n] more bytes. *)
Definition advance (n : Z) (st : StreamOutput) : StreamOutput :=
  mkStreamOutput (so_window st - n) (so_body st) (so_offset st + n) (response_submitted st).

Lemma flush_loop_spec fuel id max : 0 < max <= 16777215 -> forall st w,
  0 <= so_offset st <= zlen (so_body st) -> 0 <= w ->
  (Z.to_nat (zlen (so_body st) - so_offset st) < fuel)%nat ->
  exists n fs, flush_loop fuel id max st w = Ok (advance n st, w - n, map wire fs) /\
    0 <= n <= w /\ n <= Z.max 0 (so_window st) /\
    data_run id max (so_body st) (so_offset st) (so_offset st + n) fs /\
    so_offset st + n <= zlen (so_body st) /\
    (so_offset st + n = zlen (so_body st) \/ so_window st - n <= 0 \/ w - n = 0).
Proof.
  intros Hmax. induction fuel as [|fuel IH]; intros st w Ho Hw Hf; [lia|]. cbn [flush_loop].
  destruct (_ && _) eqn:E.
  - rewrite !andb_true_iff, !Z.ltb_lt in E. destruct E as [[Hlt Hsw] Hcw].
    set (b := Z.min _ max). assert (Hb : 0 < b <= max /\ b <= w /\ b <= so_window st /\
      so_offset st + b <= zlen (so_body st)) by lia.
    destruct (IH (advance b st) (w - b)) as (n & fs & E & Hn & Hnw & Hrun & Hle & Hstop);
      cbn [advance so_offset so_body so_window] in *; try lia.
    fold (advance b st). rewrite E. cbn [mbind result_bind].
    exists (b + n), (mkFrame FrameType_Data
      (if so_offset st + b =? zlen (so_body st) then FrameFlags_EndStream else 0) id
      (zslice (so_offset st) b (so_body st)) :: fs).
    split.
    { replace (advance (b + n) st) with (advance n (advance b st))
        by (unfold advance; cbn; f_equal; lia).
      replace (w - (b + n)) with (w - b - n) by lia. do 2 f_equal. cbn [map]. f_equal.
      by rewrite (wire_frame _ _ _ b) by (rewrite zlen_zslice; lia). }
    split; [lia|]. split; [lia|]. split.
    { constructor; [lia|lia|]. replace (so_offset st + (b + n)) with (so_offset st + b + n) by lia. done. }
    split; [lia|]. lia.
  - exists 0, []. unfold advance. rewrite !Z.sub_0_r, !Z.add_0_r. split; [by destruct st|].
    split; [lia|]. split; [lia|]. split; [constructor|]. split; [lia|].
    rewrite !andb_false_iff, !Z.ltb_ge in E. lia.
Qed.

(** What [flush_or_erase] does to the map: the stream advances by the bytes
    sent, and goes when its body is sent. *)
Lemma flush_or_erase_spec id st s :
  0 < maximum_frame_size_ s <= 16777215 -> 0 <= connection_window_ s ->
  0 <= so_offset st <= zlen (so_body st) ->
  exists n fs, flush_or_erase id st s = Ok (map wire fs,
      set_streams (if so_offset st + n =? zlen (so_body st) then delete id (streams_ s)
                   else <[id := advance n st]> (streams_ s))
        (set_connection_window (connection_window_ s - n) s)) /\
    0 <= n <= connection_window_ s /\ n <= Z.max 0 (so_window st) /\
    data_run id (maximum_frame_size_ s) (so_body st) (so_offset st) (so_offset st + n) fs /\
    so_offset st + n <= zlen (so_body st) /\
    (so_offset st + n = zlen (so_body st) \/ so_window st - n <= 0 \/ connection_window_ s - n = 0).
Proof.
  intros Hm Hw Ho. unfold flush_or_erase, FlushStreamLocked.
  destruct (flush_loop_spec (S (Z.to_nat (zlen (so_body st) - so_offset st))) id
    (maximum_frame_size_ s) Hm st (connection_window_ s) Ho Hw) as (n & fs & E & H); [lia|].
  rewrite E. cbn [mbind result_bind]. exists n, fs. split; [done|]. tauto.
Qed.

(** ** Flushing *)

(** What flushing does to one stream: [o] and [o'] are its entries before and
    after, [fs] the frames sent for it. *)
Definition stream_flushed (id max : Z) (o o' : option StreamOutput) (fs : list Frame) : Prop :=
  match o with
  | None => o' = None /\ fs = []
  | Some st => exists n, 0 <= n <= Z.max 0 (so_window st) /\
      data_run id max (so_body st) (so_offset st) (so_offset st + n) fs /\
      so_offset st + n <= zlen (so_body st) /\
      (o' = Some (advance n st) /\ (n = 0 \/ so_offset st + n < zlen (so_body st)) \/
       o' = None /\ so_offset st + n = zlen (so_body st))
  end.

Record flushes (s : H2OutboundScheduler) (fs : list Frame) (s' : H2OutboundScheduler) : Prop := {
  fl_static : s' = set_streams (streams_ s') (set_connection_window (connection_window_ s') s);
  fl_window : connection_window_ s' = connection_window_ s - data_total fs;
  fl_nonneg : 0 <= connection_window_ s';
  fl_size : Forall (fun f => zlen (fr_payload f) <= maximum_frame_size_ s) fs;
  fl_stream : forall id,
    stream_flushed id (maximum_frame_size_ s) (streams_ s !! id) (streams_ s' !! id) (on id fs);
}.

Lemma advance_0 st : advance 0 st = st.
Proof. unfold advance. rewrite Z.sub_0_r, Z.add_0_r. by destruct st. Qed.

Lemma advance_advance n m st : advance m (advance n st) = advance (n + m) st.
Proof. unfold advance. cbn. f_equal; lia. Qed.

Lemma stream_flushed_refl id max o :
  (forall st, o = Some st -> 0 <= so_offset st <= zlen (so_body st)) -> stream_flushed id max o o [].
Proof.
  intros H. destruct o as [st|]; [|done]. exists 0. specialize (H st eq_refl).
  rewrite advance_0, Z.add_0_r. split; [lia|]. split; [constructor|]. split; [lia|]. left. tauto.
Qed.

Lemma stream_flushed_trans id max o o1 o2 fs1 fs2 :
  stream_flushed id max o o1 fs1 -> stream_flushed id max o1 o2 fs2 ->
  stream_flushed id max o o2 (fs1 ++ fs2).
Proof.
  destruct o as [st|]; [|by intros [-> ->]].
  intros (n & Hn & Hr & Hle & [[-> Hlt]|[-> He]]).
  - intros (m & Hm & Hr2 & Hle2 & H2). cbn [advance so_window so_body so_offset] in *.
    exists (n + m). rewrite Z.add_assoc. split; [lia|]. split; [by eapply data_run_app|].
    split; [lia|]. rewrite advance_advance in H2. destruct H2 as [[-> H2]|[-> H2]]; [left|right].
    + split; [done|]. destruct H2 as [->|?]; [|lia]. rewrite Z.add_0_r. destruct Hlt; lia.
    + done.
  - intros [-> ->]. rewrite app_nil_r. exists n. split; [lia|]. split; [done|]. split; [lia|]. by right.
Qed.

Lemma flushes_mfs s fs s' : flushes s fs s' -> maximum_frame_size_ s' = maximum_frame_size_ s.
Proof. intros []. by rewrite fl_static0. Qed.

Lemma flushes_refl s : 0 <= connection_window_ s ->
  (forall id st, streams_ s !! id = Some st -> 0 <= so_offset st <= zlen (so_body st)) ->
  flushes s [] s.
Proof.
  intros Hw H. split; [by destruct s|cbn; lia|done|constructor|].
  intros id. apply stream_flushed_refl. eauto.
Qed.

Lemma flushes_trans s s1 s2 fs1 fs2 :
  flushes s fs1 s1 -> flushes s1 fs2 s2 -> flushes s (fs1 ++ fs2) s2.
Proof.
  intros H1 H2. pose proof (flushes_mfs _ _ _ H1) as Hm. destruct H1, H2. split.
  - rewrite fl_static1 at 1. rewrite fl_static0. done.
  - rewrite data_total_app. lia.
  - done.
  - apply Forall_app. by rewrite Hm in fl_size1.
  - intros id. rewrite on_app. eapply stream_flushed_trans; [done|]. by rewrite <- Hm.
Qed.

Lemma flush_or_erase_flushes id st s :
  0 < maximum_frame_size_ s <= 16777215 -> 0 <= connection_window_ s ->
  (forall id st, streams_ s !! id = Some st -> 0 <= so_offset st <= zlen (so_body st)) ->
  streams_ s !! id = Some st ->
  exists fs s', flush_or_erase id st s = Ok (map wire fs, s') /\ flushes s fs s' /\
    on id fs = fs /\ forall st', streams_ s' !! id = Some st' -> so_window st' <= 0 \/ connection_window_ s' = 0.
Proof.
  intros Hm Hw Hok Hst. pose proof (Hok _ _ Hst) as Ho.
  destruct (flush_or_erase_spec id st s Hm Hw Ho) as (n & fs & E & Hn & Hnw & Hrun & Hle & Hstop).
  eexists fs, _. split; [done|]. split; [split|split].
  - by destruct s.
  - cbn. rewrite (data_run_total _ _ _ _ _ _ (proj1 Ho) Hrun). lia.
  - cbn. lia.
  - eapply data_run_size; [|done]. lia.
  - intros id'. rewrite (data_run_on _ _ _ id' _ _ _ Hrun). cbn [streams_ set_streams set_connection_window].
    destruct (Z.eqb_spec id' id) as [->|Hne].
    + rewrite Hst. exists n. split; [lia|]. split; [done|]. split; [lia|].
      destruct (Z.eqb_spec (so_offset st + n) (zlen (so_body st))).
      * right. by rewrite lookup_delete_eq.
      * left. rewrite lookup_insert_eq. split; [done|]. lia.
    + replace ((if _ =? _ then _ else _) !! id') with (streams_ s !! id').
      * apply stream_flushed_refl. eauto.
      * destruct (_ =? _); by rewrite ?lookup_delete_ne, ?lookup_insert_ne.
  - by rewrite (data_run_on _ _ _ id _ _ _ Hrun), Z.eqb_refl.
  - cbn. intros st'. destruct (Z.eqb_spec (so_offset st + n) (zlen (so_body st))).
    + by rewrite lookup_delete_eq.
    + rewrite lookup_insert_eq. intros [= <-]. cbn. lia.
Qed.

(** A stream with data and credit left after a flush was not visited. *)
Lemma FlushAllLocked_flushes order : forall s,
  0 < maximum_frame_size_ s <= 16777215 -> 0 <= connection_window_ s ->
  (forall id st, streams_ s !! id = Some st -> 0 <= so_offset st <= zlen (so_body st)) ->
  exists fs s', FlushAllLocked order s = Ok (map wire fs, s') /\ flushes s fs s' /\
    forall id st', id ∈ order -> streams_ s' !! id = Some st' -> response_submitted st' = true ->
      so_window st' <= 0 \/ connection_window_ s' = 0.
Proof.
  induction order as [|id order IH]; intros s Hm Hw Hok; cbn [FlushAllLocked].
  { exists [], s. split; [done|]. split; [by apply flushes_refl|]. by intros ? ? ?%not_elem_of_nil. }
  assert (Hskip : forall P : Prop, (forall st, streams_ s !! id = Some st -> response_submitted st = false) ->
    (forall fs s', FlushAllLocked order s = Ok (map wire fs, s') -> flushes s fs s' ->
      (forall id' st', id' ∈ id :: order -> streams_ s' !! id' = Some st' ->
         response_submitted st' = true -> so_window st' <= 0 \/ connection_window_ s' = 0) -> P) -> P).
  { intros P Hid HP. destruct (IH s Hm Hw Hok) as (fs & s' & E & Hf & Hp).
    eapply HP; [done..|]. intros id' st' Hin Hst' Hsub.
    apply elem_of_cons in Hin as [->|Hin]; [|by eapply Hp].
    pose proof (fl_stream _ _ _ Hf id) as Hs. destruct (streams_ s !! id) as [st|].
    - destruct Hs as (n & _ & _ & _ & [[Hs _]|[Hs _]]); rewrite Hst' in Hs; [|done]. injection Hs as ->.
      cbn in Hsub. rewrite (Hid st eq_refl) in Hsub. done.
    - destruct Hs as [Hs _]. by rewrite Hst' in Hs. }
  destruct (streams_ s !! id) as [st|] eqn:Hst.
  2:{ apply Hskip; [done|]. intros. eauto. }
  destruct (response_submitted st) eqn:Hsub.
  2:{ apply Hskip; [by intros ? [= <-]|]. intros. eauto. }
  destruct (flush_or_erase_flushes id st s Hm Hw Hok Hst) as (fs1 & s1 & E1 & Hf1 & _ & Hp1).
  rewrite E1. cbn [mbind result_bind].
  destruct (IH s1) as (fs2 & s2 & E2 & Hf2 & Hp2).
  { by rewrite (flushes_mfs _ _ _ Hf1). }
  { by destruct Hf1. }
  { intros id' st' Hst'. pose proof (fl_stream _ _ _ Hf1 id') as Hs.
    destruct (streams_ s !! id') as [st0|] eqn:E0; [|by destruct Hs as [Hs _]; rewrite Hst' in Hs].
    destruct Hs as (n & Hn & _ & Hle & [[Hs _]|[Hs _]]); rewrite Hst' in Hs; [|done].
    injection Hs as ->. cbn. specialize (Hok _ _ E0). lia. }
  rewrite E2. cbn [mbind result_bind]. exists (fs1 ++ fs2), s2. rewrite map_app. split; [done|].
  split; [by eapply flushes_trans|]. intros id' st' Hin Hst' Hs'.
  apply elem_of_cons in Hin as [->|Hin]; [|by eapply Hp2].
  pose proof (fl_stream _ _ _ Hf2 id) as Hs. pose proof (fl_nonneg _ _ _ Hf2).
  assert (data_total fs2 >= 0).
  { clear. induction fs2 as [|f fs2 IH]; [done|]. change (data_total (f :: fs2)) with
    ((if is_data f then zlen (fr_payload f) else 0) + data_total fs2).
    destruct (is_data f); pose proof (zlen_nonneg (fr_payload f)); lia. }
  pose proof (fl_window _ _ _ Hf2).
  destruct (streams_ s1 !! id) as [st1|] eqn:Hst1; [|by destruct Hs as [Hs _]; rewrite Hst' in Hs].
  destruct Hs as (n & Hn & _ & Hle & [[Hs _]|[Hs _]]); rewrite Hst' in Hs; [|done].
  injection Hs as ->. cbn. destruct (Hp1 _ eq_refl); lia.
Qed.

(** ** Header blocks *)

Section blocks.
Context (id max : Z) (end_stream : bool) (block : list byte).

Definition block_type (first : bool) : Z :=
  if first then FrameType_Headers else FrameType_Continuation.

Definition last_flags : Z :=
  if end_stream then Z.lor FrameFlags_EndHeaders FrameFlags_EndStream else FrameFlags_EndHeaders.

(** The frames of a header block from offset [lo] on: full frames without
    flags, then the rest with END_HEADERS (and END_STREAM). *)
Inductive block_run : bool -> Z -> list Frame -> Prop :=
  | block_run_last first lo :
      0 <= zlen block - lo <= max ->
      block_run first lo [mkFrame (block_type first) last_flags id (zdrop lo block)]
  | block_run_more first lo fs :
      max < zlen block - lo -> block_run false (lo + max) fs ->
      block_run first lo (mkFrame (block_type first) 0 id (zslice lo max block) :: fs).

Lemma split_block_spec fuel : 0 < max -> forall lo first,
  0 <= lo <= zlen block -> (Z.to_nat (zlen block - lo) < fuel)%nat ->
  exists fs, split_block fuel id max end_stream block lo first = Ok (map wire fs) /\
    block_run first lo fs.
Proof.
  intros Hm. induction fuel as [|fuel IH]; intros lo first Hlo Hf; [lia|]. cbn [split_block].
  destruct (Z.ltb_spec (lo + Z.min max (zlen block - lo)) (zlen block)).
  - replace (Z.min max (zlen block - lo)) with max by lia.
    rewrite (proj2 (Z.eqb_neq _ _)) by lia.
    destruct (IH (lo + max) false) as (fs & -> & Hr); [lia..|]. cbn [mbind result_bind].
    exists (mkFrame (block_type first) 0 id (zslice lo max block) :: fs). split; [|constructor; [lia|done]].
    cbn [map]. rewrite (wire_frame _ _ _ max) by (rewrite zlen_zslice; lia). done.
  - replace (Z.min max (zlen block - lo)) with (zlen block - lo) by lia.
    rewrite (proj2 (Z.eqb_eq _ _)) by lia.
    exists [mkFrame (block_type first) last_flags id (zdrop lo block)]. split; [|constructor; lia].
    cbn [map]. rewrite (wire_frame _ _ _ (zlen block - lo)) by (rewrite zlen_zdrop; lia).
    unfold zslice. by rewrite ztake_all by zlia.
Qed.

(** Together the frames carry the block. *)
Lemma block_run_payload first lo fs : 0 < max -> 0 <= lo -> block_run first lo fs ->
  concat (map fr_payload fs) = zdrop lo block.
Proof.
  intros Hm Hlo H. induction H as [first lo Hl|first lo fs Hl H IH]; cbn; [apply app_nil_r|].
  rewrite IH by lia. unfold zslice. rewrite <- (ztake_zdrop max (zdrop lo block)) at 2.
  by rewrite zdrop_zdrop by lia.
Qed.

Lemma block_run_size first lo fs : 0 < max -> 0 <= lo -> block_run first lo fs ->
  Forall (fun f => zlen (fr_payload f) <= max) fs.
Proof.
  intros Hm Hlo H. induction H; constructor; cbn.
  - rewrite zlen_zdrop. lia.
  - constructor.
  - rewrite zlen_zslice. lia.
  - apply IHblock_run. lia.
Qed.

Lemma block_run_total first lo fs : block_run first lo fs -> data_total fs = 0.
Proof.
  induction 1 as [first lo Hl|first lo fs Hl H IH]; [by destruct first|].
  change (data_total (?f :: fs)) with ((if is_data f then zlen (fr_payload f) else 0) + data_total fs).
  rewrite IH. by destruct first.
Qed.

Lemma block_run_on id' first lo fs : block_run first lo fs -> on id' fs = if id' =? id then fs else [].
Proof.
  unfold on. induction 1 as [first lo Hl|first lo fs Hl H IH]; cbn; rewrite (Z.eqb_sym id id').
  - by destruct (_ =? _).
  - rewrite IH. by destruct (_ =? _).
Qed.
End blocks.

Lemma AddDynamicEntry_options n v c : hpack_options_ (AddDynamicEntry n v c) = hpack_options_ c.
Proof.
  unfold AddDynamicEntry, EvictDynamicTable. destruct (_ <? _); [done|]. by destruct (evict_back _ _ _).
Qed.

Lemma Encode_options hs c b c' : Encode hs c = Ok (b, c') -> hpack_options_ c' = hpack_options_ c.
Proof.
  unfold Encode.
  assert (Hloop : forall out c b c', Encode_loop hs out c = Ok (b, c') -> hpack_options_ c' = hpack_options_ c).
  { induction hs as [|h hs IH]; intros out d b' d' H; cbn in H; [by simplify_eq|].
    apply result_bind_Ok in H as ([o d1] & H1 & H2). apply IH in H2. rewrite H2. clear - H1.
    unfold Encode_header in H1. destruct (find_entry (same_field h) d).
    - apply result_bind_Ok in H1 as (? & _ & ?). by simplify_eq.
    - apply result_bind_Ok in H1 as (? & _ & H1). apply result_bind_Ok in H1 as (? & _ & ?).
      simplify_eq. apply AddDynamicEntry_options. }
  intros ([o d] & H1 & H2)%result_bind_Ok. apply Hloop in H2. rewrite H2.
  destruct (pending_table_size_update_ c); [|by simplify_eq].
  apply result_bind_Ok in H1 as (? & _ & ?). by simplify_eq.
Qed.

(** ** The invariant *)

(** [cd] is the peer's HPACK decoder. *)
Record sched_ok (cd : HpackCodec) (s : H2OutboundScheduler) : Prop := {
  sk_window : 0 <= connection_window_ s <= kMaximumWindow;
  sk_initial : 0 <= initial_window_size_ s <= kMaximumWindow;
  sk_frame : 16384 <= maximum_frame_size_ s <= 16777215;
  sk_codec : connected (encoder_ s) cd;
  sk_table : 0 <= maximum_encoder_table_size_ s <= maximum_dynamic_table_size (hpack_options_ (encoder_ s)) /\
    maximum_encoder_table_size_ s <= maximum_dynamic_table_size (hpack_options_ cd);
  sk_list : maximum_header_list_size (hpack_options_ cd) < 2 ^ 60;
  sk_streams : forall id st, streams_ s !! id = Some st -> stream_ok (initial_window_size_ s) st;
  sk_work : forall id st, streams_ s !! id = Some st -> response_submitted st = true ->
    so_window st <= 0 \/ connection_window_ s = 0;
}.

(** Arguments within their types, names and values below a gigabyte, and an
    order that visits every stream. *)
Definition call_ok (c : outbound_call) (s : H2OutboundScheduler) : Prop :=
  match c with
  | CSubmitResponse _ r => Forall header_fits (response_fields r) /\ zlen (resp_body r) < 2 ^ 62
  | CApplyPeerSettings iw _ ht order => 0 <= iw /\ 0 <= ht /\ order ≡ₚ (map_to_list (streams_ s)).*1
  | CUpdateConnectionWindow inc order => 0 <= inc /\ order ≡ₚ (map_to_list (streams_ s)).*1
  | CUpdateStreamWindow _ inc => 0 <= inc
  | _ => True
  end.

Lemma order_covers order (m : gmap Z StreamOutput) id st :
  order ≡ₚ (map_to_list m).*1 -> m !! id = Some st -> id ∈ order.
Proof.
  intros -> H. apply list_elem_of_fmap. exists (id, st). split; [done|]. by apply elem_of_map_to_list.
Qed.

Lemma data_total_nonneg fs : 0 <= data_total fs.
Proof.
  induction fs as [|f fs IH]; [done|].
  change (data_total (f :: fs)) with ((if is_data f then zlen (fr_payload f) else 0) + data_total fs).
  destruct (is_data f); pose proof (zlen_nonneg (fr_payload f)); lia.
Qed.

(** Flushing preserves the invariant; [visited] says that streams which were
    not known to be blocked before are blocked after. *)
Lemma sched_ok_flushes cd s fs s' :
  0 <= connection_window_ s <= kMaximumWindow ->
  0 <= initial_window_size_ s <= kMaximumWindow ->
  16384 <= maximum_frame_size_ s <= 16777215 -> connected (encoder_ s) cd ->
  (0 <= maximum_encoder_table_size_ s <= maximum_dynamic_table_size (hpack_options_ (encoder_ s)) /\
    maximum_encoder_table_size_ s <= maximum_dynamic_table_size (hpack_options_ cd)) ->
  maximum_header_list_size (hpack_options_ cd) < 2 ^ 60 ->
  (forall id st, streams_ s !! id = Some st -> stream_ok (initial_window_size_ s) st) ->
  (forall id st, streams_ s' !! id = Some st -> response_submitted st = true ->
     (so_window st <= 0 \/ connection_window_ s' = 0) \/
     exists st0, streams_ s !! id = Some st0 /\ (so_window st0 <= 0 \/ connection_window_ s = 0)) ->
  flushes s fs s' -> sched_ok cd s'.
Proof.
  intros Hw Hi Hf Hc Ht Hl Hs Hwork Hfl. pose proof (data_total_nonneg fs).
  pose proof (fl_window _ _ _ Hfl). pose proof (fl_nonneg _ _ _ Hfl).
  assert (Hst : forall id st', streams_ s' !! id = Some st' -> exists n st, streams_ s !! id = Some st /\
    st' = advance n st /\ 0 <= n <= Z.max 0 (so_window st) /\
    (n = 0 \/ so_offset st + n < zlen (so_body st)) /\ so_offset st + n <= zlen (so_body st)).
  { intros id st' E. pose proof (fl_stream _ _ _ Hfl id) as H'. rewrite E in H'.
    destruct (streams_ s !! id) as [st|]; [|by destruct H'].
    destruct H' as (n & ? & _ & ? & [[[= ->] ?]|[? _]]); [|done]. by exists n, st. }
  assert (Hst' : forall P : H2OutboundScheduler -> Prop,
    P (set_streams (streams_ s') (set_connection_window (connection_window_ s') s)) -> P s')
    by (intros P; by rewrite <- (fl_static _ _ _ Hfl)).
  split.
  - lia.
  - by apply (Hst' (fun x => 0 <= initial_window_size_ x <= kMaximumWindow)).
  - by apply (Hst' (fun x => 16384 <= maximum_frame_size_ x <= 16777215)).
  - by apply (Hst' (fun x => connected (encoder_ x) cd)).
  - by apply (Hst' (fun x => 0 <= maximum_encoder_table_size_ x <=
      maximum_dynamic_table_size (hpack_options_ (encoder_ x)) /\
      maximum_encoder_table_size_ x <= maximum_dynamic_table_size (hpack_options_ cd))).
  - done.
  - intros id st' E. destruct (Hst _ _ E) as (n & st & E0 & -> & Hn & Hlt & Hle).
    apply (Hst' (fun x => stream_ok (initial_window_size_ x) (advance n st))). cbn.
    destruct (Hs _ _ E0) as [Ho Hwin Hb Hidle Hbusy]. split; cbn; try done; try lia.
    intros Hsub. specialize (Hbusy Hsub). lia.
  - intros id st' E Hsub. destruct (Hwork _ _ E Hsub) as [?|(st0 & E0 & Hb)]; [done|].
    destruct (Hst _ _ E) as (n & st & E1 & -> & Hn & _). rewrite E0 in E1. injection E1 as <-. cbn.
    lia.
Qed.

Lemma sched_streams_range cd s : sched_ok cd s ->
  forall id st, streams_ s !! id = Some st -> 0 <= so_offset st <= zlen (so_body st).
Proof. intros [] id st H. by destruct (sk_streams0 _ _ H). Qed.

(** ** Every call *)

(** What a call that neither opens, closes nor answers a stream does to it. *)
Definition delivers (id : Z) (o o' : option StreamOutput) (fs : list Frame) : Prop :=
  match o with
  | None => o' = None /\ fs = []
  | Some st => exists hi, data_run id 16777215 (so_body st) (so_offset st) hi fs /\
      ((exists st', o' = Some st' /\ so_body st' = so_body st /\ so_offset st' = hi /\
          response_submitted st' = response_submitted st) \/
       (o' = None /\ hi = zlen (so_body st)))
  end.

Lemma delivers_flushed id max o o' fs : max <= 16777215 ->
  stream_flushed id max o o' fs -> delivers id o o' fs.
Proof.
  intros Hm. destruct o as [st|]; [|done]. intros (n & _ & Hr & _ & H).
  exists (so_offset st + n). split; [by eapply data_run_max|].
  destruct H as [[-> _]|[-> H]]; [left; by exists (advance n st)|by right].
Qed.

Lemma delivers_refl id o : delivers id o o [].
Proof. destruct o as [st|]; [|done]. exists (so_offset st). split; [constructor|]. left. by exists st. Qed.

(** A change of windows before the flush does not matter. *)
Lemma delivers_rewindow id w st o' fs :
  delivers id (Some (mkStreamOutput w (so_body st) (so_offset st) (response_submitted st))) o' fs ->
  delivers id (Some st) o' fs.
Proof. done. Qed.

Definition touches (id : Z) (c : outbound_call) : Prop :=
  match c with
  | COpenStream i | CCloseStream i | CSubmitResponse i _ => i = id
  | CClose => True
  | _ => False
  end.

(** The credit a call adds to the connection window. *)
Definition credit (c : outbound_call) (accepted : bool) : Z :=
  match c with
  | CUpdateConnectionWindow inc _ => if accepted then inc else 0
  | _ => 0
  end.

(** The maximum frame size of the peer after a call *)
Definition limit_after (maximum : Z) (c : outbound_call) (accepted : bool) : Z :=
  match c with
  | CApplyPeerSettings _ maximum' _ _ => if accepted then maximum' else maximum
  | _ => maximum
  end.

(** The outcome of a call. *)
Record call_done (cd : HpackCodec) (c : outbound_call) (s : H2OutboundScheduler) (b : bool)
    (fs : list Frame) (s' : H2OutboundScheduler) (cd' : HpackCodec) : Prop := {
  cl_call : call c s = Ok (b, map wire fs, s');
  cl_ok : sched_ok cd' s';
  cl_peer : hpack_options_ cd' = hpack_options_ cd;
  cl_window : connection_window_ s' = connection_window_ s + credit c b - data_total fs;
  cl_size : Forall (fun f => zlen (fr_payload f) <= maximum_frame_size_ s') fs;
  cl_limit : maximum_frame_size_ s' = limit_after (maximum_frame_size_ s) c b;
  cl_stream : forall id, ~ touches id c -> delivers id (streams_ s !! id) (streams_ s' !! id) (on id fs);
}.

(** A refused call. *)
Lemma call_refused cd c s : sched_ok cd s -> call c s = Ok (false, [], s) ->
  exists b fs s' cd', call_done cd c s b fs s' cd'.
Proof.
  intros Hs E. exists false, [], s, cd. split; try done.
  - assert (Hc : credit c false = 0) by (by destruct c). rewrite Hc. cbn. lia.
  - by destruct c.
  - intros id _. apply delivers_refl.
Qed.

Lemma OpenStream_ok cd id s : sched_ok cd s ->
  sched_ok cd (OpenStream id s) /\ connection_window_ (OpenStream id s) = connection_window_ s /\
    forall id', id <> id' -> streams_ (OpenStream id s) !! id' = streams_ s !! id'.
Proof.
  intros Hs. unfold OpenStream. destruct (closed_ s); [done|].
  destruct (streams_ s !! id) eqn:E; [done|]. split; [|split; [done|]].
  - destruct Hs. split; cbn; try done.
    + intros id' st. destruct (decide (id = id')) as [<-|];
        [rewrite lookup_insert_eq; intros [= <-]|rewrite lookup_insert_ne by done; apply sk_streams0].
      split; cbn; try done; unfold kMaximumWindow in *; lia.
    + intros id' st. destruct (decide (id = id')) as [<-|];
        [rewrite lookup_insert_eq; by intros [= <-]|rewrite lookup_insert_ne by done; apply sk_work0].
  - intros id' Hne. cbn. by rewrite lookup_insert_ne.
Qed.

Lemma open_done cd id s : sched_ok cd s ->
  exists b fs s' cd', call_done cd (COpenStream id) s b fs s' cd'.
Proof.
  intros Hs. exists true, [], (OpenStream id s), cd.
  destruct (OpenStream_ok cd id s Hs) as (H1 & H2 & H3). split; try done; [cbn; lia|..].
  { unfold OpenStream. destruct (closed_ s); [done|]. by destruct (streams_ s !! id). }
  intros id' Hne. rewrite H3 by done. apply delivers_refl.
Qed.

Lemma close_stream_done cd id s : sched_ok cd s ->
  exists b fs s' cd', call_done cd (CCloseStream id) s b fs s' cd'.
Proof.
  intros Hs. exists true, [], (CloseStream id s), cd. split; try done.
  - destruct Hs. split; cbn; try done; intros id' st;
      (destruct (decide (id = id')) as [<-|]; [by rewrite lookup_delete_eq|]);
      rewrite lookup_delete_ne by done; [apply sk_streams0|apply sk_work0].
  - cbn. lia.
  - intros id' Hne. cbn. rewrite lookup_delete_ne by done. apply delivers_refl.
Qed.

Lemma close_done cd s : sched_ok cd s -> exists b fs s' cd', call_done cd CClose s b fs s' cd'.
Proof.
  intros Hs. exists true, [], (Close s), cd. split.
  - done.
  - destruct Hs. split; cbn; try done; intros id st; by rewrite lookup_empty.
  - done.
  - cbn. lia.
  - constructor.
  - done.
  - intros id H. by destruct H.
Qed.

Lemma update_connection_done cd inc order s : sched_ok cd s -> 0 <= inc ->
  order ≡ₚ (map_to_list (streams_ s)).*1 ->
  exists b fs s' cd', call_done cd (CUpdateConnectionWindow inc order) s b fs s' cd'.
Proof.
  intros Hs Hinc Hord.
  destruct (closed_ s || (inc =? 0) || (kMaximumWindow <? connection_window_ s + inc)) eqn:E.
  { apply call_refused; [done|]. cbn. unfold UpdateConnectionWindow. by rewrite E. }
  pose proof E as E'. rewrite !orb_false_iff, Z.ltb_ge in E'. destruct E' as [_ Hmax].
  set (s1 := set_connection_window (connection_window_ s + inc) s).
  destruct (FlushAllLocked_flushes order s1) as (fs & s' & Ef & Hf & Hp);
    [cbn; destruct Hs; lia|cbn; destruct Hs; lia|exact (sched_streams_range cd s Hs)|].
  exists true, fs, s', cd. split.
  - cbn. unfold UpdateConnectionWindow. rewrite E. fold s1. by rewrite Ef.
  - destruct Hs. apply (sched_ok_flushes cd s1 fs s'); try done; [cbn; lia|].
    intros id st Hst Hsub. left. apply (Hp id); [|done|done].
    pose proof (fl_stream _ _ _ Hf id) as Hid. rewrite Hst in Hid.
    change (streams_ s1) with (streams_ s) in Hid.
    destruct (streams_ s !! id) eqn:E0; [by eapply order_covers|by destruct Hid].
  - done.
  - pose proof (fl_window _ _ _ Hf). cbn in *. lia.
  - rewrite (flushes_mfs _ _ _ Hf). apply Hf.
  - by rewrite (flushes_mfs _ _ _ Hf).
  - intros id _. apply (delivers_flushed _ (maximum_frame_size_ s1)); [cbn; destruct Hs; lia|].
    apply (fl_stream _ _ _ Hf id).
Qed.

(** Flushing a stream whose entry was just replaced. *)
Lemma flush_or_erase_insert id st st0 s :
  flush_or_erase id st (set_streams (<[id := st0]> (streams_ s)) s) = flush_or_erase id st s.
Proof.
  unfold flush_or_erase, FlushStreamLocked.
  cbn [maximum_frame_size_ connection_window_ set_streams].
  destruct (flush_loop _ _ _ _ _) as [[[st' w] fs]|]; [|done]. cbn.
  unfold set_streams, set_connection_window. cbn.
  destruct (_ =? _); by rewrite ?delete_insert_eq, ?insert_insert_eq.
Qed.

Lemma update_stream_done cd id inc s : sched_ok cd s -> 0 <= inc ->
  exists b fs s' cd', call_done cd (CUpdateStreamWindow id inc) s b fs s' cd'.
Proof.
  intros Hs Hinc. destruct (streams_ s !! id) as [st|] eqn:Est.
  2:{ apply call_refused; [done|]. cbn. unfold UpdateStreamWindow. by rewrite Est. }
  destruct (closed_ s || (inc =? 0) || (kMaximumWindow <? so_window st + inc)) eqn:E.
  { apply call_refused; [done|]. cbn. unfold UpdateStreamWindow. by rewrite Est, E. }
  pose proof E as E'. rewrite !orb_false_iff, Z.ltb_ge in E'. destruct E' as [_ Hmax].
  set (st1 := mkStreamOutput (so_window st + inc) (so_body st) (so_offset st) (response_submitted st)).
  set (s1 := set_streams (<[id := st1]> (streams_ s)) s).
  assert (Hst1 : stream_ok (initial_window_size_ s) st1).
  { destruct (sk_streams _ _ Hs _ _ Est). split; cbn; try done. lia. }
  assert (Hs1 : forall id' st', streams_ s1 !! id' = Some st' -> stream_ok (initial_window_size_ s) st').
  { intros id' st'. cbn. destruct (decide (id = id')) as [<-|];
      [rewrite lookup_insert_eq; by intros [= <-]|rewrite lookup_insert_ne by done; apply Hs]. }
  destruct (flush_or_erase_flushes id st1 s1) as (fs & s' & Ef & Hf & _ & Hp).
  { cbn. destruct Hs. lia. }
  { cbn. destruct Hs. lia. }
  { intros id' st' Hst'. by destruct (Hs1 _ _ Hst'). }
  { cbn. by rewrite lookup_insert_eq. }
  exists true, fs, s', cd. split.
  - cbn. unfold UpdateStreamWindow. rewrite Est, E. fold st1.
    rewrite <- (flush_or_erase_insert id st1 st1 s). fold s1. by rewrite Ef.
  - destruct Hs. apply (sched_ok_flushes cd s1 fs s'); try done.
    intros id' st' Hst' Hsub. destruct (decide (id = id')) as [<-|Hne]; [left; by apply Hp|right].
    pose proof (fl_stream _ _ _ Hf id') as Hid. rewrite Hst' in Hid. cbn in Hid.
    rewrite lookup_insert_ne in Hid by done.
    destruct (streams_ s !! id') as [st2|] eqn:E2; [|by destruct Hid].
    exists st2. cbn. rewrite lookup_insert_ne by done. split; [done|]. apply (sk_work0 id'); [done|].
    destruct Hid as (n & _ & _ & _ & [[[= ->] _]|[? _]]); [done|done].
  - done.
  - pose proof (fl_window _ _ _ Hf). cbn in *. lia.
  - rewrite (flushes_mfs _ _ _ Hf). apply Hf.
  - by rewrite (flushes_mfs _ _ _ Hf).
  - intros id' _. pose proof (fl_stream _ _ _ Hf id') as Hid. cbn in Hid.
    assert (Hm : maximum_frame_size_ s <= 16777215) by (destruct Hs; lia).
    apply (delivers_flushed _ _ _ _ _ Hm) in Hid.
    destruct (decide (id = id')) as [<-|].
    + rewrite lookup_insert_eq in Hid. by rewrite Est.
    + by rewrite lookup_insert_ne in Hid.
Qed.

(** A table size that the encoder accepts. *)
Lemma resize_accepted n ce cd : connected ce cd -> 0 <= n ->
  n <= maximum_dynamic_table_size (hpack_options_ ce) ->
  n <= maximum_dynamic_table_size (hpack_options_ cd) ->
  exists ce', SetDynamicTableSize n ce = (Ok tt, ce') /\ connected ce' cd /\
    hpack_options_ ce' = hpack_options_ ce.
Proof.
  intros Hc Hn He Hd. destruct (connected_ok _ _ Hc) as [Hce _].
  pose proof (connected_SetDynamicTableSize n ce cd Hc Hn Hd) as H.
  rewrite SetDynamicTableSize_spec in * by done. rewrite (proj2 (Z.ltb_ge _ _)) in * by lia.
  eexists. split; [done|]. split; [exact H|done].
Qed.

Lemma existsb_windows delta (m : gmap Z StreamOutput) :
  existsb (fun e => kMaximumWindow <? so_window e.2 + delta) (map_to_list m) = false ->
  forall id st, m !! id = Some st -> so_window st + delta <= kMaximumWindow.
Proof.
  intros H id st Hst. apply Z.nlt_ge. intros Hlt.
  apply not_true_iff_false in H. apply H, existsb_exists. exists (id, st).
  split; [|by apply Z.ltb_lt]. by apply list_elem_of_In, elem_of_map_to_list.
Qed.

Lemma settings_done cd iw mf ht order s : sched_ok cd s -> 0 <= iw -> 0 <= ht ->
  order ≡ₚ (map_to_list (streams_ s)).*1 ->
  exists b fs s' cd', call_done cd (CApplyPeerSettings iw mf ht order) s b fs s' cd'.
Proof.
  intros Hs Hiw Hht Hord.
  destruct ((kMaximumWindow <? iw) || (mf <? 16384) || (16777215 <? mf)) eqn:E1.
  { apply call_refused; [done|]. cbn. unfold ApplyPeerSettings. by rewrite E1. }
  destruct (closed_ s) eqn:Ec.
  { apply call_refused; [done|]. cbn. unfold ApplyPeerSettings. by rewrite E1, Ec. }
  set (delta := iw - initial_window_size_ s).
  destruct (existsb (fun e => kMaximumWindow <? so_window e.2 + delta) (map_to_list (streams_ s))) eqn:E2.
  { apply call_refused; [done|]. cbn. unfold ApplyPeerSettings. fold delta. by rewrite E1, Ec, E2. }
  pose proof E1 as E1'. rewrite !orb_false_iff, !Z.ltb_ge in E1'. destruct E1' as [[Hiw' Hmf] Hmf'].
  pose proof (existsb_windows _ _ E2) as Hwin.
  destruct (sk_table _ _ Hs) as [Ht1 Ht2].
  destruct (resize_accepted (Z.min ht (maximum_encoder_table_size_ s)) (encoder_ s) cd)
    as (ce' & Er & Hc' & Ho'); [apply Hs|lia|lia|lia|].
  set (shift := fun st => mkStreamOutput (so_window st + delta) (so_body st) (so_offset st)
                            (response_submitted st)).
  set (s1 := mkScheduler (closed_ s) (connection_window_ s) iw mf (maximum_encoder_table_size_ s) ce'
    (shift <$> streams_ s)).
  assert (Hs1 : forall id st', streams_ s1 !! id = Some st' -> exists st, streams_ s !! id = Some st /\
    st' = shift st /\ stream_ok iw st').
  { intros id st' H. cbn in H. rewrite lookup_fmap in H.
    destruct (streams_ s !! id) as [st|] eqn:E; [|done]. cbn in H. injection H as <-.
    exists st. split; [done|]. split; [done|]. specialize (Hwin _ _ E).
    destruct (sk_streams _ _ Hs _ _ E). split; cbn; try done. lia. }
  destruct (FlushAllLocked_flushes order s1) as (fs & s' & Ef & Hf & Hp).
  { cbn. lia. }
  { cbn. destruct Hs. lia. }
  { intros id st' H. destruct (Hs1 _ _ H) as (st & _ & _ & []). done. }
  exists true, fs, s', cd. split.
  - cbn. unfold ApplyPeerSettings. fold delta shift. rewrite E1, Ec, E2, Er.
    cbn [mbind result_bind]. rewrite <- Ec. fold s1. by rewrite Ef.
  - destruct Hs. apply (sched_ok_flushes cd s1 fs s'); try done.
    + cbn. by rewrite Ho'.
    + intros id st' H. by destruct (Hs1 _ _ H) as (? & _ & _ & ?).
    + intros id st Hst Hsub. left. apply (Hp id); [|done|done].
      pose proof (fl_stream _ _ _ Hf id) as Hid. rewrite Hst in Hid. cbn in Hid.
      rewrite lookup_fmap in Hid.
      destruct (streams_ s !! id) eqn:E0; [by eapply order_covers|by destruct Hid].
  - done.
  - pose proof (fl_window _ _ _ Hf). cbn in *. lia.
  - rewrite (flushes_mfs _ _ _ Hf). apply Hf.
  - by rewrite (flushes_mfs _ _ _ Hf).
  - intros id _. pose proof (fl_stream _ _ _ Hf id) as Hid. cbn in Hid.
    apply (delivers_flushed _ _ _ _ _ Hmf') in Hid. rewrite lookup_fmap in Hid.
    by destruct (streams_ s !! id).
Qed.

(** An accepted response: the header block, then as much of the body as the
    windows allow. *)
Record submitted (cd : HpackCodec) (id : Z) (r : HttpResponse) (s : H2OutboundScheduler)
    (hfs dfs : list Frame) (s' : H2OutboundScheduler) (cd' : HpackCodec) : Prop := {
  su_block : exists block,
    block_run id (maximum_frame_size_ s) (zlen (resp_body r) =? 0) block true 0 hfs /\
    (Forall header_clean (response_fields r) ->
     table_bytes (response_fields r) <= maximum_header_list_size (hpack_options_ cd) ->
     Decode block cd = (Ok (response_fields r), cd'));
  su_data : exists hi, data_run id (maximum_frame_size_ s) (resp_body r) 0 hi dfs /\
    hi <= zlen (resp_body r) /\
    ((exists st', streams_ s' !! id = Some st' /\ so_body st' = resp_body r /\ so_offset st' = hi /\
        response_submitted st' = true) \/
     (streams_ s' !! id = None /\ hi = zlen (resp_body r)));
}.

Lemma submit_accepted cd id r st s : sched_ok cd s ->
  call_ok (CSubmitResponse id r) s ->
  streams_ s !! id = Some st -> closed_ s = false -> response_submitted st = false ->
  exists hfs dfs s' cd', call_done cd (CSubmitResponse id r) s true (hfs ++ dfs) s' cd' /\
    submitted cd id r s hfs dfs s' cd'.
Proof.
  intros Hs [Hh Hb] Est Ecl Esub.
  pose proof (sk_frame _ _ Hs) as Hmf. pose proof (sk_streams _ _ Hs _ _ Est) as Hst.
  assert (Eoff : so_offset st = 0).
  { pose proof (st_offset _ _ Hst) as Ho. rewrite (st_idle _ _ Hst Esub) in Ho. zlia. }
  destruct (Encode_peer (response_fields r) (encoder_ s) cd)
    as (block & ce' & cd' & Een & Hc' & Ho' & Ede); [apply Hs|done|apply Hs|].
  destruct (split_block_spec id (maximum_frame_size_ s) (zlen (resp_body r) =? 0) block (S (length block)))
    with (lo := 0) (first := true) as (hfs & Esp & Hrun); [lia|zlia|unfold zlen; lia|].
  set (st1 := mkStreamOutput (so_window st) (resp_body r) 0 true).
  set (s1 := set_encoder ce' (set_streams (<[id := st1]> (streams_ s)) s)).
  assert (Hopt : hpack_options_ ce' = hpack_options_ (encoder_ s)) by (by eapply Encode_options).
  assert (Esub' : forall k, (SubmitResponse id r s = k) <->
    (if zlen (resp_body r) =? 0 then Ok (true, map wire hfs, set_streams (delete id (streams_ s1)) s1)
     else '(frames', s2) ← flush_or_erase id st1 s1; Ok (true, map wire hfs ++ frames', s2)) = k).
  { intros k. unfold SubmitResponse. rewrite Est, Ecl, Esub, Eoff. cbn [orb]. fold st1.
    unfold EncodeHeaderBlockLocked. cbn [encoder_ maximum_frame_size_ set_streams]. rewrite Een.
    cbn [mbind result_bind]. rewrite Esp. cbn [mbind result_bind]. fold s1. done. }
  assert (Hs1 : forall id' st', streams_ s1 !! id' = Some st' -> id <> id' -> streams_ s !! id' = Some st').
  { intros id' st' H Hne. cbn in H. by rewrite lookup_insert_ne in H. }
  assert (Htab : 0 <= maximum_encoder_table_size_ s <= maximum_dynamic_table_size (hpack_options_ ce') /\
    maximum_encoder_table_size_ s <= maximum_dynamic_table_size (hpack_options_ cd'))
    by (rewrite Hopt, Ho'; apply Hs).
  assert (Hlist : maximum_header_list_size (hpack_options_ cd') < 2 ^ 60) by (rewrite Ho'; apply Hs).
  destruct (Z.eqb_spec (zlen (resp_body r)) 0) as [Hz|Hz].
  - set (s2 := set_streams (delete id (streams_ s1)) s1).
    assert (Hlook : forall id', id <> id' -> streams_ s2 !! id' = streams_ s !! id').
    { intros id' Hne. cbn. by rewrite lookup_delete_ne, lookup_insert_ne. }
    assert (Hdel : streams_ s2 !! id = None) by (cbn; by rewrite lookup_delete_eq).
    assert (Hin : forall id' st', streams_ s2 !! id' = Some st' -> streams_ s !! id' = Some st').
    { intros id' st' H. destruct (decide (id = id')) as [<-|Hne]; [by rewrite Hdel in H|].
      by rewrite <- Hlook. }
    exists hfs, [], s2, cd'. rewrite app_nil_r. split; [split|split].
    + cbn [call]. by apply Esub'.
    + destruct Hs. split; try done; [intros id' st' H; by eapply sk_streams0, Hin|].
      intros id' st' H. apply (sk_work0 id' st'). by apply Hin.
    + done.
    + rewrite (block_run_total _ _ _ _ _ _ _ Hrun). cbn. lia.
    + apply (block_run_size id (maximum_frame_size_ s) true block true 0 hfs); [lia|lia|exact Hrun].
    + done.
    + intros id' Hne. cbn in Hne. rewrite (block_run_on _ _ _ _ id' _ _ _ Hrun), Hlook by done.
      rewrite (proj2 (Z.eqb_neq id' id)) by done. apply delivers_refl.
    + exists block. rewrite Hz. done.
    + exists 0. split; [constructor|]. split; [lia|]. right. done.
  - assert (Hst1 : stream_ok (initial_window_size_ s) st1).
    { destruct Hst. split; cbn; try done; zlia. }
    assert (Hok1 : forall id' st', streams_ s1 !! id' = Some st' -> stream_ok (initial_window_size_ s) st').
    { intros id' st' H. destruct (decide (id = id')) as [<-|Hne].
      - cbn in H. rewrite lookup_insert_eq in H. by injection H as <-.
      - by eapply (sk_streams _ _ Hs id'), Hs1. }
    destruct (flush_or_erase_flushes id st1 s1) as (dfs & s2 & Ef & Hf & Hon & Hp).
    { cbn. lia. }
    { cbn. destruct Hs. lia. }
    { intros id' st' H. by destruct (Hok1 _ _ H). }
    { cbn. by rewrite lookup_insert_eq. }
    exists hfs, dfs, s2, cd'. split; [split|split].
    + cbn [call]. apply Esub'. rewrite Ef. cbn [mbind result_bind]. by rewrite map_app.
    + apply (sched_ok_flushes cd' s1 dfs s2); try done; try apply Hs.
      intros id' st' H Hsub. destruct (decide (id = id')) as [<-|Hne]; [left; by apply Hp|right].
      pose proof (fl_stream _ _ _ Hf id') as Hid. rewrite H in Hid. cbn in Hid.
      rewrite lookup_insert_ne in Hid by done.
      destruct (streams_ s !! id') as [st2|] eqn:E2; [|by destruct Hid].
      exists st2. cbn. rewrite lookup_insert_ne by done. split; [done|].
      apply (sk_work _ _ Hs id'); [done|].
      destruct Hid as (n & _ & _ & _ & [[[= ->] _]|[? _]]); done.
    + done.
    + rewrite data_total_app, (block_run_total _ _ _ _ _ _ _ Hrun).
      pose proof (fl_window _ _ _ Hf). cbn in *. lia.
    + rewrite (flushes_mfs _ _ _ Hf). apply Forall_app. split; [|apply Hf].
      apply (block_run_size id (maximum_frame_size_ s) false block true 0 hfs); [lia|lia|exact Hrun].
    + by rewrite (flushes_mfs _ _ _ Hf).
    + intros id' Hne. cbn in Hne. rewrite on_app, (block_run_on _ _ _ _ id' _ _ _ Hrun).
      rewrite (proj2 (Z.eqb_neq id' id)) by done.
      apply (delivers_flushed _ (maximum_frame_size_ s1)); [cbn; lia|].
      pose proof (fl_stream _ _ _ Hf id') as Hid. cbn in Hid. by rewrite lookup_insert_ne in Hid.
    + exists block. by rewrite (proj2 (Z.eqb_neq _ _)).
    + pose proof (fl_stream _ _ _ Hf id) as Hid. cbn in Hid. rewrite lookup_insert_eq, Hon in Hid.
      destruct Hid as (n & Hn & Hr & Hle & H). cbn [st1 so_body so_offset] in *.
      exists n. rewrite Z.add_0_l in *. split; [done|]. split; [done|].
      destruct H as [[-> _]|[-> H]]; [left|by right]. by exists (advance n st1).
Qed.

Lemma call_total cd c s : sched_ok cd s -> call_ok c s ->
  exists b fs s' cd', call_done cd c s b fs s' cd'.
Proof.
  intros Hs Hc. destruct c as [id|id| |id r|iw mf ht order|inc order|id inc].
  - by apply open_done.
  - by apply close_stream_done.
  - by apply close_done.
  - destruct (streams_ s !! id) as [st|] eqn:Est.
    + destruct (closed_ s || response_submitted st) eqn:E.
      * apply call_refused; [done|]. cbn. unfold SubmitResponse. by rewrite Est, E.
      * apply orb_false_iff in E as [E1 E2].
        destruct (submit_accepted cd id r st s Hs Hc Est E1 E2) as (hfs & dfs & s' & cd' & H & _). eauto.
    + apply call_refused; [done|]. cbn. unfold SubmitResponse. by rewrite Est.
  - destruct Hc as (? & ? & ?). by apply settings_done.
  - destruct Hc as [? ?]. by apply update_connection_done.
  - by apply update_stream_done.
Qed.

(** ** Sequences of calls *)

Fixpoint calls_ok (cs : list outbound_call) (s : H2OutboundScheduler) : Prop :=
  match cs with
  | [] => True
  | c :: cs => call_ok c s /\
      forall b frames s', call c s = Ok (b, frames, s') -> calls_ok cs s'
  end.

Fixpoint credits (cs : list outbound_call) (bs : list bool) : Z :=
  match cs, bs with
  | c :: cs, b :: bs => credit c b + credits cs bs
  | _, _ => 0
  end.

(** The maximum frame size of the peer, as of each call *)
Fixpoint frame_limits (maximum : Z) (cs : list outbound_call) (bs : list bool) : list Z :=
  match cs, bs with
  | c :: cs, b :: bs => let maximum := limit_after maximum c b in maximum :: frame_limits maximum cs bs
  | _, _ => []
  end.

Definition within (maximum : Z) (fs : list Frame) : Prop := Forall (fun f => zlen (fr_payload f) <= maximum) fs.

Lemma delivers_trans id o o1 o2 fs1 fs2 :
  delivers id o o1 fs1 -> delivers id o1 o2 fs2 -> delivers id o o2 (fs1 ++ fs2).
Proof.
  destruct o as [st|]; [|by intros [-> ->]].
  intros (hi & Hr & [(st1 & -> & Hb & Ho & Hs)|[-> Hhi]]).
  - intros (hi2 & Hr2 & H2). exists hi2. rewrite Hb, Ho in *. split; [by eapply data_run_app|].
    destruct H2 as [(st2 & -> & ? & ? & ?)|[-> ?]]; [left|by right].
    exists st2. split; [done|]. split; [done|]. split; [done|]. congruence.
  - intros [-> ->]. rewrite app_nil_r. exists hi. split; [done|]. by right.
Qed.

Lemma calls_done cs : forall cd s, sched_ok cd s -> calls_ok cs s ->
  exists bs batches s' cd', calls cs s = Ok (bs, map (map wire) batches, s') /\ sched_ok cd' s' /\
    connection_window_ s' = connection_window_ s + credits cs bs - data_total (concat batches) /\
    Forall2 within (frame_limits (maximum_frame_size_ s) cs bs) batches /\
    forall id, Forall (fun c => ~ touches id c) cs ->
      delivers id (streams_ s !! id) (streams_ s' !! id) (on id (concat batches)).
Proof.
  induction cs as [|c cs IH]; intros cd s Hs Hok.
  { exists [], [], s, cd. split; [done|]. split; [done|]. split; [cbn; lia|]. split; [constructor|].
    intros id _. apply delivers_refl. }
  destruct Hok as [Hc Hok].
  destruct (call_total cd c s Hs Hc) as (b & fs1 & s1 & cd1 & [E1 Hs1 _ Hw1 Hz1 Hm1 Hd1]).
  destruct (IH cd1 s1 Hs1) as (bs & batches & s2 & cd2 & E2 & Hs2 & Hw2 & Hz2 & Hd2); [by eapply Hok|].
  exists (b :: bs), (fs1 :: batches), s2, cd2. cbn [calls]. rewrite E1. cbn [mbind result_bind].
  rewrite E2. cbn [mbind result_bind]. split; [done|]. split; [done|]. cbn [concat].
  rewrite data_total_app. cbn [credits]. split; [lia|]. split.
  - cbn [frame_limits]. rewrite <- Hm1. by constructor.
  - intros id Hq. apply Forall_cons in Hq as [Hq1 Hq2]. rewrite on_app.
    eapply delivers_trans; [by apply Hd1|by apply Hd2].
Qed.

Lemma fresh_ok iw mf o s od : H2OutboundScheduler_make true iw mf o = Ok s -> 0 <= iw ->
  maximum_dynamic_table_size o = maximum_dynamic_table_size od ->
  0 <= maximum_dynamic_table_size o < 2 ^ 31 -> maximum_header_list_size od < 2 ^ 60 ->
  sched_ok (HpackCodec_make od) s.
Proof.
  unfold H2OutboundScheduler_make. cbn [negb orb]. destruct (_ || _ || _) eqn:E; [done|].
  rewrite !orb_false_iff, !Z.ltb_ge in E. intros [= <-] Hiw Ho Hr Hl.
  split; cbn; try done; try lia.
  - by apply connected_make.
Qed.

(** ** Threads *)

(** What the call [i] has sent *)
Definition sent_by (i : nat) (w : list (nat * list byte)) : list (list byte) :=
  map snd (List.filter (fun p => Nat.eqb p.1 i) w).

Lemma sent_by_app i w w' : sent_by i (w ++ w') = sent_by i w ++ sent_by i w'.
Proof. unfold sent_by. by rewrite List.filter_app, map_app. Qed.

Lemma calls_snoc cs c s bs batches s1 b frames s2 : calls cs s = Ok (bs, batches, s1) ->
  call c s1 = Ok (b, frames, s2) -> calls (cs ++ [c]) s = Ok (bs ++ [b], batches ++ [frames], s2).
Proof.
  revert s bs batches. induction cs as [|c' cs IH]; intros s bs batches E Ec.
  - injection E as <- <- <-. cbn. by rewrite Ec.
  - cbn [calls app] in *. apply result_bind_Ok in E as ([[b' f'] s'] & E1 & E2).
    apply result_bind_Ok in E2 as ([[bs' fs'] s''] & E2 & E3). injection E3 as <- <- <-.
    rewrite E1. cbn [mbind result_bind]. by rewrite (IH _ _ _ E2 Ec).
Qed.

(** Every frame of every call is sent or still to be sent, once and in the
    order of the call; in a serial run this is the order on the wire. *)
Record run_inv (serial : bool) (s : H2OutboundScheduler) (cs : list outbound_call) (t : threads)
    (batches : list (list (list byte))) : Prop := {
  ri_calls : exists bs, calls cs s = Ok (bs, batches, th_scheduler t);
  ri_length : length (th_left t) = length batches;
  ri_left : forall i frames left, batches !! i = Some frames -> th_left t !! i = Some left ->
    sent_by i (th_wire t) ++ left = frames;
  ri_tags : Forall (fun p => (p.1 < length batches)%nat) (th_wire t);
  ri_quiet : serial = true -> th_left t = [] \/ exists before left, th_left t = before ++ [left] /\ concat before = [];
  ri_serial : serial = true -> map snd (th_wire t) ++ concat (th_left t) = concat batches;
}.

Lemma sent_by_later i w : Forall (fun p => (p.1 < i)%nat) w -> sent_by i w = [].
Proof.
  unfold sent_by. induction 1 as [|p w Hp _ IH]; [done|]. cbn [List.filter].
  by rewrite (proj2 (Nat.eqb_neq _ _)) by lia.
Qed.

Lemma run_inv_locked serial s cs t c t' batches : run_inv serial s cs t batches ->
  (serial = true -> concat (th_left t) = []) -> locked c t = Ok t' ->
  exists frames, run_inv serial s (cs ++ [c]) t' (batches ++ [frames]).
Proof.
  intros [[bs Hc] Hlen Hl Ht Hq Hs] Hwait E. unfold locked in E.
  apply result_bind_Ok in E as ([[b frames] s'] & Ec & E). injection E as <-. exists frames. split; cbn [th_scheduler th_left th_wire].
  - eexists. by eapply calls_snoc.
  - rewrite !length_app. cbn. lia.
  - intros i fs left Hi Hj. destruct (decide (i < length batches)%nat) as [Hlt|Hge].
    + rewrite lookup_app_l in Hi, Hj by lia. by apply Hl.
    + apply lookup_app_Some in Hi as [Hi|[_ Hi]]; [apply lookup_lt_Some in Hi; lia|].
      apply lookup_app_Some in Hj as [Hj|[_ Hj]]; [apply lookup_lt_Some in Hj; lia|].
      apply list_lookup_singleton_Some in Hi as [? <-], Hj as [? <-].
      rewrite sent_by_later; [done|]. eapply Forall_impl; [exact Ht|]. cbn. lia.
  - eapply Forall_impl; [exact Ht|]. cbn. intros p Hp. rewrite length_app. lia.
  - intros Ha. right. exists (th_left t), frames. split; [done|]. by apply Hwait.
  - intros Ha. rewrite !concat_app, app_assoc, Hs by done. done.
Qed.

Lemma run_inv_send serial s cs t i t' batches : run_inv serial s cs t batches -> SendFrames_next i t = Some t' ->
  run_inv serial s cs t' batches.
Proof.
  intros [Hc Hlen Hl Ht Hq Hs] E. unfold SendFrames_next in E.
  destruct (th_left t !! i) as [[|f rest]|] eqn:Ei; [done| |done]. injection E as <-.
  pose proof (lookup_lt_Some _ _ _ Ei) as Hlt.
  split; cbn [th_scheduler th_left th_wire]; [done|by rewrite length_insert|..].
  - intros j fs left Hj Hk. rewrite sent_by_app. destruct (decide (i = j)) as [<-|Hne].
    + rewrite list_lookup_insert_eq in Hk by done. injection Hk as <-.
      rewrite <- (Hl i fs _ Hj Ei). unfold sent_by at 2. cbn [List.filter fst]. rewrite Nat.eqb_refl. cbn. by rewrite <- app_assoc.
    + rewrite list_lookup_insert_ne in Hk by done. unfold sent_by at 2. cbn [List.filter fst].
      rewrite (proj2 (Nat.eqb_neq _ _)) by done. cbn. rewrite app_nil_r. by apply Hl.
  - apply Forall_app. split; [done|]. constructor; [cbn; lia|constructor].
  - intros Ha. right. destruct (Hq Ha) as [Hn|(before & left & Hn & Hb)]; [by rewrite Hn in Ei|].
    rewrite Hn in Ei |- *. apply lookup_app_Some in Ei as [Ei|[Hge Ei]].
    + exfalso. assert (Hin : In f (concat before)); [|by rewrite Hb in Hin].
      apply in_concat. exists (f :: rest). split; [by eapply list_elem_of_In, list_elem_of_lookup_2|by left].
    + apply list_lookup_singleton_Some in Ei as [Hz ->]. exists before, rest. split; [|done].
      rewrite insert_app_r_alt by lia. by replace (i - length before)%nat with 0%nat by lia.
  - intros Ha. rewrite <- (Hs Ha). destruct (Hq Ha) as [Hn|(before & left & Hn & Hb)]; [by rewrite Hn in Ei|].
    rewrite Hn in Ei |- *. apply lookup_app_Some in Ei as [Ei|[Hge Ei]].
    + exfalso. assert (Hin : In f (concat before)); [|by rewrite Hb in Hin].
      apply in_concat. exists (f :: rest). split; [by eapply list_elem_of_In, list_elem_of_lookup_2|by left].
    + apply list_lookup_singleton_Some in Ei as [Hz ->].
      rewrite insert_app_r_alt by lia. replace (i - length before)%nat with 0%nat by lia.
      rewrite map_app, !concat_app, Hb, <- app_assoc. cbn. by rewrite !app_nil_r.
Qed.

Lemma outbound_run_inv serial s cs t : outbound_run serial s cs t -> exists batches, run_inv serial s cs t batches.
Proof.
  induction 1 as [|cs t c t' _ (batches & IH) Hwait E|cs t i t' _ (batches & IH) E].
  - exists []. split; cbn; eauto. intros ? ? ?. by rewrite lookup_nil.
  - destruct (run_inv_locked _ _ _ _ _ _ _ IH Hwait E) as [frames H]. eauto.
  - eexists. by eapply run_inv_send.
Qed.

(** ** The properties *)

(** C4. The scheduler never sends more than the peer allows.  From a fresh
    scheduler, for any sequence of calls in the order in which they hold the
    mutex, and any responses with names and values below a gigabyte: every call
    returns; the bytes of all DATA frames computed and the remaining connection
    window add up to the initial 65535 and the window updates accepted, and the
    window is never negative; no frame that a call computes is longer than the
    maximum frame size of the last SETTINGS accepted up to this call; and in the
    end no response that still has data has credit left on both windows. *)
Theorem outbound_flow_control iw mf o s cs :
  H2OutboundScheduler_make true iw mf o = Ok s -> 0 <= iw ->
  0 <= maximum_dynamic_table_size o < 2 ^ 31 -> calls_ok cs s ->
  exists bs batches s', calls cs s = Ok (bs, map (map wire) batches, s') /\
    data_total (concat batches) + connection_window_ s' = 65535 + credits cs bs /\
    0 <= connection_window_ s' <= kMaximumWindow /\
    Forall2 (fun maximum fs => Forall (fun f => zlen (fr_payload f) <= maximum) fs) (frame_limits mf cs bs) batches /\
    (forall id st, streams_ s' !! id = Some st -> response_submitted st = true ->
       so_offset st < zlen (so_body st) /\ (so_window st <= 0 \/ connection_window_ s' = 0)).
Proof.
  intros Hmake Hiw Hr Hok. set (od := mkHpackOptions (maximum_dynamic_table_size o) 0).
  pose proof (fresh_ok _ _ _ _ od Hmake Hiw eq_refl Hr ltac:(done)) as Hs.
  destruct (calls_done cs (HpackCodec_make od) s Hs Hok) as (bs & batches & s' & cd' & E & Hs' & Hw & Hz & _).
  exists bs, batches, s'. split; [done|].
  assert (Hf : connection_window_ s = 65535 /\ maximum_frame_size_ s = mf).
  { unfold H2OutboundScheduler_make in Hmake. destruct (_ || _); [done|]. by injection Hmake as <-. }
  destruct Hf as [Hcw <-]. split; [lia|]. split; [apply Hs'|]. split; [done|]. intros id st Hst Hsub.
  split; [|by eapply (sk_work _ _ Hs')]. eapply st_busy; [by eapply (sk_streams _ _ Hs')|done].
Qed.

Definition sample_response : HttpResponse :=
  mkResponse 200 [] [mkHeader $"Server" $"x"; mkHeader $"Connection" $"close"] $"hello world" false.

Definition sample_scheduler : H2OutboundScheduler :=
  mkScheduler false 65535 4 16384 4096 (HpackCodec_make HpackOptions_default) ∅.

Lemma sample_response_ok s : call_ok (CSubmitResponse 1 sample_response) s.
Proof.
  split; [|vm_compute; reflexivity].
  assert (E : response_fields sample_response =
    [mkHeader $":status" $"200"; mkHeader $"server" $"x"]) by (vm_compute; reflexivity).
  rewrite E. repeat constructor; vm_compute; reflexivity.
Qed.

Lemma outbound_flow_control_witness :
  let cs := [COpenStream 1; CSubmitResponse 1 sample_response; CUpdateStreamWindow 1 5] in
  exists bs batches s', calls cs sample_scheduler = Ok (bs, map (map wire) batches, s') /\
    data_total (concat batches) + connection_window_ s' = 65535 + credits cs bs /\
    0 <= connection_window_ s' <= kMaximumWindow /\
    Forall2 (fun maximum fs => Forall (fun f => zlen (fr_payload f) <= maximum) fs) (frame_limits 16384 cs bs) batches /\
    (forall id st, streams_ s' !! id = Some st -> response_submitted st = true ->
       so_offset st < zlen (so_body st) /\ (so_window st <= 0 \/ connection_window_ s' = 0)).
Proof.
  apply (outbound_flow_control 4 16384 HpackOptions_default sample_scheduler
    [COpenStream 1; CSubmitResponse 1 sample_response; CUpdateStreamWindow 1 5]).
  - vm_compute. reflexivity.
  - vm_compute. discriminate.
  - split; vm_compute; [discriminate|reflexivity].
  - split; [exact I|]. intros b1 f1 s1 _. split; [apply sample_response_ok|].
    intros b2 f2 s2 _. split; [vm_compute; discriminate|]. intros b3 f3 s3 _. exact I.
Defined.

(** C3. Delivery of a response.  Threads compute frames under the mutex and send
    them after they have released it, in any interleaving ([outbound_run]).
    Take a run in which the response is the first call, on an open stream, and
    no further call closes the stream.  In the order in which the calls held the
    mutex, the frames computed for the stream are: the header block, cut in one
    HEADERS and further CONTINUATION frames, all of the first call; then DATA
    frames with consecutive pieces of the body from its start, none empty,
    END_STREAM on exactly the piece that ends the body; the stream is forgotten
    exactly when the body has been computed.  A peer whose HPACK decoder is in
    step decodes the block to the status and the permitted headers, if these
    are within its limit and contain no byte [0xdc].  Every call has sent a
    first part of its frames, in order, and has the rest still to send; frames
    of different calls can overtake each other on the wire, but in a run in
    which a call starts only when the calls before it have sent their frames,
    the wire has the frames in the order of the calls. *)
Theorem outbound_delivery cd id r st s cs serial t :
  sched_ok cd s -> streams_ s !! id = Some st -> closed_ s = false ->
  response_submitted st = false ->
  calls_ok (CSubmitResponse id r :: cs) s -> Forall (fun c => ~ touches id c) cs ->
  outbound_run serial s (CSubmitResponse id r :: cs) t ->
  exists bs first later hfs dfs block hi cd',
    let batches := first :: later in
    calls (CSubmitResponse id r :: cs) s = Ok (true :: bs, map (map wire) batches, th_scheduler t) /\
    on id (concat batches) = hfs ++ dfs /\ hfs `prefix_of` first /\
    block_run id (maximum_frame_size_ s) (zlen (resp_body r) =? 0) block true 0 hfs /\
    (Forall (fun h => Byte.xdc ∉ name h /\ Byte.xdc ∉ value h) (response_fields r) ->
     table_bytes (response_fields r) <= maximum_header_list_size (hpack_options_ cd) ->
     Decode block cd = (Ok (response_fields r), cd')) /\
    data_run id 16777215 (resp_body r) 0 hi dfs /\ concat (map fr_payload dfs) = ztake hi (resp_body r) /\
    (hi = zlen (resp_body r) <-> streams_ (th_scheduler t) !! id = None) /\
    length (th_left t) = length batches /\
    (forall i fs left, batches !! i = Some fs -> th_left t !! i = Some left ->
       sent_by i (th_wire t) ++ left = map wire fs) /\
    (serial = true -> map snd (th_wire t) ++ concat (th_left t) = map wire (concat batches)).
Proof.
  intros Hs Est Ecl Esub [Hc Hok] Hq Hrun'.
  destruct (outbound_run_inv _ _ _ _ Hrun') as (all & [[bs0 Hcalls] Hlen Hleft _ _ Hserial]).
  destruct (submit_accepted cd id r st s Hs Hc Est Ecl Esub)
    as (hfs & dfs & s1 & cd1 & [E1 Hs1 _ _ _ _ _] & [(block & Hb & Hd) (h1 & Hr1 & Hle1 & Hend)]).
  destruct (calls_done cs cd1 s1 Hs1) as (bs & later & s2 & cd2 & E2 & Hs2 & _ & _ & Hd2); [by eapply Hok|].
  specialize (Hd2 id Hq). pose proof (sk_frame _ _ Hs) as Hm.
  assert (H : exists hi, data_run id 16777215 (resp_body r) 0 hi (dfs ++ on id (concat later)) /\
    (hi = zlen (resp_body r) <-> streams_ s2 !! id = None)).
  { assert (Hr1' : data_run id 16777215 (resp_body r) 0 h1 dfs)
      by (eapply data_run_max; [|exact Hr1]; lia).
    destruct Hend as [(st' & E' & Hb' & Ho' & Hs')|[E' ->]]; rewrite E' in Hd2.
    - destruct Hd2 as (hi & Hr2 & H2). rewrite Hb', Ho' in *. exists hi.
      split; [by eapply data_run_app|].
      destruct H2 as [(st2 & Hst2 & Hb2 & Ho2 & Hs3)|[-> ->]]; [|done].
      rewrite Hst2. split; [|done]. intros ->. rewrite Hs' in Hs3.
      pose proof (st_busy _ _ (sk_streams _ _ Hs2 _ _ Hst2) Hs3) as Hlt. rewrite Hb2, Ho2 in Hlt. lia.
    - destruct Hd2 as [-> ->]. rewrite app_nil_r. by exists (zlen (resp_body r)). }
  destruct H as (hi & Hrun & Hiff).
  assert (Ecs : calls (CSubmitResponse id r :: cs) s = Ok (true :: bs, map (map wire) ((hfs ++ dfs) :: later), s2))
    by (cbn [calls]; rewrite E1; cbn [mbind result_bind]; by rewrite E2).
  rewrite Ecs in Hcalls. injection Hcalls as <- <- Ht.
  exists bs, (hfs ++ dfs), later, hfs, (dfs ++ on id (concat later)), block, hi, cd1. cbn zeta. rewrite <- Ht.
  split; [done|]. split.
  { cbn [concat]. rewrite !on_app, (block_run_on _ _ _ _ id _ _ _ Hb), Z.eqb_refl, <- app_assoc.
    by rewrite (data_run_on _ _ _ id _ _ _ Hr1), Z.eqb_refl. }
  split; [by eexists|]. split; [done|]. split; [done|]. split; [done|]. split.
  { rewrite (data_run_payload _ _ _ _ _ _ (Z.le_refl 0) Hrun), Z.sub_0_r, ztake_zslice_0. done. }
  split; [done|]. split; [rewrite Hlen; cbn; by rewrite ?length_map|]. split.
  - intros i fs left Hi Hj. apply Hleft; [|done]. pose proof (list_lookup_fmap (map wire) ((hfs ++ dfs) :: later) i) as Hf.
    rewrite Hi in Hf. exact Hf.
  - intros Ha. rewrite (Hserial Ha). symmetry. exact (concat_map wire ((hfs ++ dfs) :: later)).
Qed.

Definition sample_run : list outbound_call := [CUpdateStreamWindow 1 5; CUpdateStreamWindow 1 5].

(** A given interleaving of critical sections and frames sent *)
Fixpoint execute (es : list (outbound_call + nat)) (t : threads) : result threads :=
  match es with
  | [] => Ok t
  | inl c :: es => t ← locked c t; execute es t
  | inr i :: es => match SendFrames_next i t with Some t => execute es t | None => Throw UndefinedBehavior end
  end.

Definition calls_of (es : list (outbound_call + nat)) : list outbound_call :=
  omap (fun e => match e with inl c => Some c | inr _ => None end) es.

Lemma execute_run s es : forall cs t t', outbound_run false s cs t -> execute es t = Ok t' ->
  outbound_run false s (cs ++ calls_of es) t'.
Proof.
  induction es as [|[c|i] es IH]; intros cs t t' H E; cbn [execute] in E.
  - injection E as <-. by rewrite app_nil_r.
  - apply result_bind_Ok in E as (t1 & E1 & E). change (calls_of (inl c :: es)) with ([c] ++ calls_of es). rewrite app_assoc.
    eapply IH; [|done]. by eapply run_locked.
  - destruct (SendFrames_next i t) as [t1|] eqn:E1; [|done]. eapply IH; [|done]. by eapply run_send.
Qed.

(** The response and the updates are computed; the first update sends first. *)
Definition sample_events : list (outbound_call + nat) :=
  [inl (CSubmitResponse 1 sample_response); inl (CUpdateStreamWindow 1 5); inr 1%nat; inl (CUpdateStreamWindow 1 5)].

Definition sample_threads : result threads :=
  execute sample_events (mkThreads (OpenStream 1 sample_scheduler) [] []).

Lemma outbound_delivery_witness : exists t,
  outbound_run false (OpenStream 1 sample_scheduler) (CSubmitResponse 1 sample_response :: sample_run) t /\
  map snd (th_wire t) = [wire (mkFrame FrameType_Data 0 1 $"o wor")] /\
  exists bs first later hfs dfs, let batches := first :: later in
    calls (CSubmitResponse 1 sample_response :: sample_run) (OpenStream 1 sample_scheduler) =
      Ok (true :: bs, map (map wire) batches, th_scheduler t) /\
    on 1 (concat batches) = hfs ++ dfs /\ concat (map fr_payload dfs) = $"hello world".
Proof.
  destruct sample_threads as [t|] eqn:E; [|vm_compute in E; discriminate].
  assert (Hrun : outbound_run false (OpenStream 1 sample_scheduler) (CSubmitResponse 1 sample_response :: sample_run) t)
    by exact (execute_run _ sample_events [] _ _ (run_start _ _) E).
  exists t. split; [exact Hrun|]. split; [vm_compute in E; injection E as <-; reflexivity|].
  destruct (outbound_delivery (HpackCodec_make HpackOptions_default) 1 sample_response
    (mkStreamOutput 4 [] 0 false) (OpenStream 1 sample_scheduler) sample_run false t)
    as (bs & first & later & hfs & dfs & block & hi & cd' & Hcalls & Hon & _ & _ & _ & _ & Hp & Hend & _).
  - apply OpenStream_ok.
    apply (fresh_ok 4 16384 HpackOptions_default sample_scheduler HpackOptions_default);
      try reflexivity; try (vm_compute; discriminate).
    split; vm_compute; [discriminate|reflexivity].
  - vm_compute. reflexivity.
  - reflexivity.
  - reflexivity.
  - split; [apply sample_response_ok|]. intros b1 f1 s1 _. split; [vm_compute; discriminate|].
    intros b2 f2 s2 _. split; [vm_compute; discriminate|]. intros b3 f3 s3 _. exact I.
  - repeat (apply List.Forall_cons); [intros []|intros []|apply List.Forall_nil].
  - exact Hrun.
  - exists bs, first, later, hfs, dfs. split; [exact Hcalls|]. split; [exact Hon|]. rewrite Hp.
    assert (Hnone : streams_ (th_scheduler t) !! 1 = None) by (vm_compute in E; injection E as <-; vm_compute; reflexivity).
    apply Hend in Hnone as ->. reflexivity.
Defined.

(** A WINDOW_UPDATE for a stream whose response is still being computed
    makes the scheduler forget the stream: whatever response is submitted
    afterwards is refused and nothing is ever sent for the stream. *)
Theorem outbound_early_update_drops cd s id st inc r :
  sched_ok cd s -> streams_ s !! id = Some st -> response_submitted st = false ->
  closed_ s = false -> 0 < inc -> so_window st + inc <= kMaximumWindow ->
  exists s', UpdateStreamWindow id inc s = Ok (true, [], s') /\
    streams_ s' = delete id (streams_ s) /\ SubmitResponse id r s' = Ok (false, [], s').
Proof.
  intros Hs Est Hsub Hcl Hinc Hmax. pose proof (st_idle _ _ (sk_streams _ _ Hs _ _ Est) Hsub) as Hb.
  pose proof (st_offset _ _ (sk_streams _ _ Hs _ _ Est)) as Ho. rewrite Hb in Ho.
  change (zlen []) with 0 in Ho. assert (Ho0 : so_offset st = 0) by lia.
  unfold UpdateStreamWindow. rewrite Est, Hcl. cbn [orb].
  rewrite (proj2 (Z.eqb_neq inc 0)), (proj2 (Z.ltb_ge _ _)) by lia.
  unfold flush_or_erase, FlushStreamLocked. cbn [so_body so_offset so_window]. rewrite Hb, Ho0.
  eexists. split; [reflexivity|].
  match goal with |- streams_ ?s' = _ /\ _ => assert (E : streams_ s' = delete id (streams_ s)) by done end.
  split; [exact E|]. unfold SubmitResponse. by rewrite E, lookup_delete_eq.
Qed.

Lemma outbound_early_update_drops_witness :
  exists s', UpdateStreamWindow 1 5 (OpenStream 1 sample_scheduler) = Ok (true, [], s') /\
    streams_ s' = delete 1 (streams_ (OpenStream 1 sample_scheduler)) /\
    SubmitResponse 1 sample_response s' = Ok (false, [], s').
Proof.
  apply (outbound_early_update_drops (HpackCodec_make HpackOptions_default)
    (OpenStream 1 sample_scheduler) 1 (mkStreamOutput 4 [] 0 false) 5 sample_response).
  - apply OpenStream_ok.
    apply (fresh_ok 4 16384 HpackOptions_default sample_scheduler HpackOptions_default);
      try reflexivity; try (vm_compute; discriminate).
    split; vm_compute; [discriminate|reflexivity].
  - vm_compute. reflexivity.
  - reflexivity.
  - reflexivity.
  - vm_compute. reflexivity.
  - vm_compute. discriminate.
Defined.

(** A response without a body whose header block needs several frames: the
    HEADERS frame does not carry END_STREAM. *)
Theorem outbound_end_stream_misplaced id max block f fs :
  max < zlen block -> block_run id max true block true 0 (f :: fs) ->
  fr_type f = FrameType_Headers /\ fr_flags f = 0.
Proof. intros Hm H. inversion H; subst; [lia|done]. Qed.

(** ** Frames that overtake

    A WINDOW_UPDATE processed while another thread submits the response: the
    sixth to tenth byte of the body are on the wire before the HEADERS frame. *)
Theorem outbound_send_race : exists t,
  outbound_run false (OpenStream 1 sample_scheduler) [CSubmitResponse 1 sample_response; CUpdateStreamWindow 1 5] t /\
  map snd (th_wire t) = [wire (mkFrame FrameType_Data 0 1 $"o wor")].
Proof.
  set (es := [inl (CSubmitResponse 1 sample_response); inl (CUpdateStreamWindow 1 5); inr 1%nat]).
  destruct (execute es (mkThreads (OpenStream 1 sample_scheduler) [] [])) as [t|] eqn:E; [|vm_compute in E; discriminate].
  exists t. split; [exact (execute_run _ es [] _ _ (run_start _ _) E)|]. vm_compute in E. by injection E as <-.
Qed.
