(* ===== verification/Http2Session.v ===== *)
(** * The HTTP/2 session of a connection

    [H2Stream] and [H2Session] of [http2_stream.h] and [http2_stream.cpp]: the
    connection preface, the reading of frames from the ring buffer, one handler
    per frame type, and the dispatch of the requests that are assembled.

    The methods of the session run in a small monad over the state of the
    session and its surroundings: the events so far (frames handed to the frame
    sender and tasks posted to the executor), and the tasks that the executor
    has accepted and not run.  [World] gives what is not decided by this code:
    the answer of the executor, whether it runs a task at once (as
    [InlineExecutor] does) or later, and the order in which
    [std::unordered_map] visits the streams. *)

From S2P Require Import Prelude BufferSequence ReceiveBuffer RingReceiveBuffer HttpMessage.
From S2P Require Import ProtocolSession HttpRouter Huffman Hpack Http2Frames Http2Outbound.

(** ** Streams *)

Inductive StreamState :=
  | Idle | ReservedLocal | ReservedRemote | Open | HalfClosedLocal | HalfClosedRemote | StreamClosed.

#[export] Instance StreamState_eq_dec : EqDecision StreamState.
Proof. solve_decision. Defined.

Record H2Stream := mkH2Stream {
  stream_id_ : Z;
  stream_state_ : StreamState;
  recv_window_ : Z;
  send_window_ : Z;
  header_block_ : list byte;
  body_ : list byte;
  end_stream_ : bool;
  headers_complete_ : bool;
  dispatched_ : bool;
  request_ : option HttpRequest;
}.

Record StreamSnapshot := mkStreamSnapshot {
  snapshot_stream_id : Z;
  snapshot_state : StreamState;
  snapshot_recv_window : Z;
  snapshot_send_window : Z;
  header_bytes_received : Z;
  body_bytes_received : Z;
}.

Definition H2Stream_make (stream_id initial_window_size : Z) : H2Stream :=
  mkH2Stream stream_id Idle initial_window_size initial_window_size [] [] false false false None.

Definition SetState (v : StreamState) (t : H2Stream) : H2Stream :=
  mkH2Stream (stream_id_ t) v (recv_window_ t) (send_window_ t) (header_block_ t) (body_ t)
    (end_stream_ t) (headers_complete_ t) (dispatched_ t) (request_ t).

Definition AppendHeaderFragment (data : list byte) (t : H2Stream) : H2Stream :=
  if zlen data =? 0 then t
  else mkH2Stream (stream_id_ t) (stream_state_ t) (recv_window_ t) (send_window_ t)
         (header_block_ t ++ data) (body_ t) (end_stream_ t) (headers_complete_ t) (dispatched_ t) (request_ t).

Definition AppendData (data : list byte) (t : H2Stream) : H2Stream :=
  if zlen data =? 0 then t
  else mkH2Stream (stream_id_ t) (stream_state_ t) (recv_window_ t) (send_window_ t)
         (header_block_ t) (body_ t ++ data) (end_stream_ t) (headers_complete_ t) (dispatched_ t) (request_ t).

Definition set_stream_recv_window (v : Z) (t : H2Stream) : H2Stream :=
  mkH2Stream (stream_id_ t) (stream_state_ t) v (send_window_ t) (header_block_ t) (body_ t)
    (end_stream_ t) (headers_complete_ t) (dispatched_ t) (request_ t).

Definition set_stream_send_window (v : Z) (t : H2Stream) : H2Stream :=
  mkH2Stream (stream_id_ t) (stream_state_ t) (recv_window_ t) v (header_block_ t) (body_ t)
    (end_stream_ t) (headers_complete_ t) (dispatched_ t) (request_ t).

Definition ConsumeRecvWindow (bytes : Z) (t : H2Stream) : H2Stream :=
  if bytes <=? recv_window_ t then set_stream_recv_window (recv_window_ t - bytes) t else t.

Definition AddRecvWindow (bytes : Z) (t : H2Stream) : H2Stream :=
  set_stream_recv_window (u32 (recv_window_ t + bytes)) t.

Definition ConsumeSendWindow (bytes : Z) (t : H2Stream) : H2Stream :=
  if bytes <=? send_window_ t then set_stream_send_window (send_window_ t - bytes) t else t.

Definition AddSendWindow (bytes : Z) (t : H2Stream) : H2Stream :=
  set_stream_send_window (u32 (send_window_ t + bytes)) t.

Definition SetEndStream (t : H2Stream) : H2Stream :=
  mkH2Stream (stream_id_ t) (stream_state_ t) (recv_window_ t) (send_window_ t) (header_block_ t) (body_ t)
    true (headers_complete_ t) (dispatched_ t) (request_ t).

Definition SetHeadersComplete (t : H2Stream) : H2Stream :=
  mkH2Stream (stream_id_ t) (stream_state_ t) (recv_window_ t) (send_window_ t) (header_block_ t) (body_ t)
    (end_stream_ t) true (dispatched_ t) (request_ t).

Definition SetDispatched (t : H2Stream) : H2Stream :=
  mkH2Stream (stream_id_ t) (stream_state_ t) (recv_window_ t) (send_window_ t) (header_block_ t) (body_ t)
    (end_stream_ t) (headers_complete_ t) true (request_ t).

Definition set_stream_request (r : option HttpRequest) (t : H2Stream) : H2Stream :=
  mkH2Stream (stream_id_ t) (stream_state_ t) (recv_window_ t) (send_window_ t) (header_block_ t) (body_ t)
    (end_stream_ t) (headers_complete_ t) (dispatched_ t) r.

Definition SetRequest (r : HttpRequest) (t : H2Stream) : H2Stream := set_stream_request (Some r) t.

Definition HasRequest (t : H2Stream) : bool := bool_decide (is_Some (request_ t)).

Definition TakeRequest (t : H2Stream) : result (HttpRequest * H2Stream) :=
  match request_ t with
  | None => Throw logic_error
  | Some r => Ok (r, set_stream_request None t)
  end.

Definition Snapshot (t : H2Stream) : StreamSnapshot :=
  mkStreamSnapshot (stream_id_ t) (stream_state_ t) (recv_window_ t) (send_window_ t)
    (zlen (header_block_ t)) (zlen (body_ t)).

(** ** The session *)

Record H2ConnectionConfig := mkH2Config {
  initial_receive_buffer_size : Z;
  maximum_receive_buffer_size : Z;
  maximum_request_body_size : Z;
  maximum_concurrent_streams : Z;
  initial_window_size : Z;
  maximum_frame_size : Z;
  config_maximum_header_list_size : Z;
  header_table_size : Z;
  enable_push : bool;
}.

Definition H2ConnectionConfig_default : H2ConnectionConfig :=
  mkH2Config 4096 (1024 * 1024) (1024 * 1024) 100 65535 16384 16384 4096 false.

Inductive H2ConnectionState := ExpectPreface | Connected | Closing | Closed.

#[export] Instance H2ConnectionState_eq_dec : EqDecision H2ConnectionState.
Proof. solve_decision. Defined.

Record H2Session := mkH2Session {
  router_ : HttpRouter;
  outbound_ : H2OutboundScheduler;
  connection_id_ : Z;
  config_ : H2ConnectionConfig;
  receive_buffer_ : RingReceiveBuffer;
  hpack_decoder_ : HpackCodec;
  state_ : H2ConnectionState;
  last_stream_id_ : Z;
  remote_settings_header_table_size_ : Z;
  remote_settings_max_concurrent_streams_ : Z;
  remote_settings_initial_window_size_ : Z;
  remote_settings_maximum_frame_size_ : Z;
  connection_recv_window_ : Z;
  received_initial_settings_ : bool;
  continuation_stream_id_ : option Z;
  streams_ : gmap Z H2Stream;
}.

Definition set_outbound (v : H2OutboundScheduler) (s : H2Session) : H2Session :=
  mkH2Session (router_ s) v (connection_id_ s) (config_ s) (receive_buffer_ s) (hpack_decoder_ s)
    (state_ s) (last_stream_id_ s) (remote_settings_header_table_size_ s)
    (remote_settings_max_concurrent_streams_ s) (remote_settings_initial_window_size_ s)
    (remote_settings_maximum_frame_size_ s) (connection_recv_window_ s)
    (received_initial_settings_ s) (continuation_stream_id_ s) (streams_ s).
Definition set_config (v : H2ConnectionConfig) (s : H2Session) : H2Session :=
  mkH2Session (router_ s) (outbound_ s) (connection_id_ s) v (receive_buffer_ s)
    (hpack_decoder_ s) (state_ s) (last_stream_id_ s) (remote_settings_header_table_size_ s)
    (remote_settings_max_concurrent_streams_ s) (remote_settings_initial_window_size_ s)
    (remote_settings_maximum_frame_size_ s) (connection_recv_window_ s)
    (received_initial_settings_ s) (continuation_stream_id_ s) (streams_ s).
Definition set_buffer (v : RingReceiveBuffer) (s : H2Session) : H2Session :=
  mkH2Session (router_ s) (outbound_ s) (connection_id_ s) (config_ s) v (hpack_decoder_ s)
    (state_ s) (last_stream_id_ s) (remote_settings_header_table_size_ s)
    (remote_settings_max_concurrent_streams_ s) (remote_settings_initial_window_size_ s)
    (remote_settings_maximum_frame_size_ s) (connection_recv_window_ s)
    (received_initial_settings_ s) (continuation_stream_id_ s) (streams_ s).
Definition set_decoder (v : HpackCodec) (s : H2Session) : H2Session :=
  mkH2Session (router_ s) (outbound_ s) (connection_id_ s) (config_ s) (receive_buffer_ s) v
    (state_ s) (last_stream_id_ s) (remote_settings_header_table_size_ s)
    (remote_settings_max_concurrent_streams_ s) (remote_settings_initial_window_size_ s)
    (remote_settings_maximum_frame_size_ s) (connection_recv_window_ s)
    (received_initial_settings_ s) (continuation_stream_id_ s) (streams_ s).
Definition set_state (v : H2ConnectionState) (s : H2Session) : H2Session :=
  mkH2Session (router_ s) (outbound_ s) (connection_id_ s) (config_ s) (receive_buffer_ s)
    (hpack_decoder_ s) v (last_stream_id_ s) (remote_settings_header_table_size_ s)
    (remote_settings_max_concurrent_streams_ s) (remote_settings_initial_window_size_ s)
    (remote_settings_maximum_frame_size_ s) (connection_recv_window_ s)
    (received_initial_settings_ s) (continuation_stream_id_ s) (streams_ s).
Definition set_last_stream_id (v : Z) (s : H2Session) : H2Session :=
  mkH2Session (router_ s) (outbound_ s) (connection_id_ s) (config_ s) (receive_buffer_ s)
    (hpack_decoder_ s) (state_ s) v (remote_settings_header_table_size_ s)
    (remote_settings_max_concurrent_streams_ s) (remote_settings_initial_window_size_ s)
    (remote_settings_maximum_frame_size_ s) (connection_recv_window_ s)
    (received_initial_settings_ s) (continuation_stream_id_ s) (streams_ s).
Definition set_header_table_size (v : Z) (s : H2Session) : H2Session :=
  mkH2Session (router_ s) (outbound_ s) (connection_id_ s) (config_ s) (receive_buffer_ s)
    (hpack_decoder_ s) (state_ s) (last_stream_id_ s) v
    (remote_settings_max_concurrent_streams_ s) (remote_settings_initial_window_size_ s)
    (remote_settings_maximum_frame_size_ s) (connection_recv_window_ s)
    (received_initial_settings_ s) (continuation_stream_id_ s) (streams_ s).
Definition set_max_concurrent_streams (v : Z) (s : H2Session) : H2Session :=
  mkH2Session (router_ s) (outbound_ s) (connection_id_ s) (config_ s) (receive_buffer_ s)
    (hpack_decoder_ s) (state_ s) (last_stream_id_ s) (remote_settings_header_table_size_ s) v
    (remote_settings_initial_window_size_ s) (remote_settings_maximum_frame_size_ s)
    (connection_recv_window_ s) (received_initial_settings_ s) (continuation_stream_id_ s)
    (streams_ s).
Definition set_initial_window_size (v : Z) (s : H2Session) : H2Session :=
  mkH2Session (router_ s) (outbound_ s) (connection_id_ s) (config_ s) (receive_buffer_ s)
    (hpack_decoder_ s) (state_ s) (last_stream_id_ s) (remote_settings_header_table_size_ s)
    (remote_settings_max_concurrent_streams_ s) v (remote_settings_maximum_frame_size_ s)
    (connection_recv_window_ s) (received_initial_settings_ s) (continuation_stream_id_ s)
    (streams_ s).
Definition set_maximum_frame_size (v : Z) (s : H2Session) : H2Session :=
  mkH2Session (router_ s) (outbound_ s) (connection_id_ s) (config_ s) (receive_buffer_ s)
    (hpack_decoder_ s) (state_ s) (last_stream_id_ s) (remote_settings_header_table_size_ s)
    (remote_settings_max_concurrent_streams_ s) (remote_settings_initial_window_size_ s) v
    (connection_recv_window_ s) (received_initial_settings_ s) (continuation_stream_id_ s)
    (streams_ s).
Definition set_recv_window (v : Z) (s : H2Session) : H2Session :=
  mkH2Session (router_ s) (outbound_ s) (connection_id_ s) (config_ s) (receive_buffer_ s)
    (hpack_decoder_ s) (state_ s) (last_stream_id_ s) (remote_settings_header_table_size_ s)
    (remote_settings_max_concurrent_streams_ s) (remote_settings_initial_window_size_ s)
    (remote_settings_maximum_frame_size_ s) v (received_initial_settings_ s)
    (continuation_stream_id_ s) (streams_ s).
Definition set_received_settings (v : bool) (s : H2Session) : H2Session :=
  mkH2Session (router_ s) (outbound_ s) (connection_id_ s) (config_ s) (receive_buffer_ s)
    (hpack_decoder_ s) (state_ s) (last_stream_id_ s) (remote_settings_header_table_size_ s)
    (remote_settings_max_concurrent_streams_ s) (remote_settings_initial_window_size_ s)
    (remote_settings_maximum_frame_size_ s) (connection_recv_window_ s) v
    (continuation_stream_id_ s) (streams_ s).
Definition set_continuation (v : option Z) (s : H2Session) : H2Session :=
  mkH2Session (router_ s) (outbound_ s) (connection_id_ s) (config_ s) (receive_buffer_ s)
    (hpack_decoder_ s) (state_ s) (last_stream_id_ s) (remote_settings_header_table_size_ s)
    (remote_settings_max_concurrent_streams_ s) (remote_settings_initial_window_size_ s)
    (remote_settings_maximum_frame_size_ s) (connection_recv_window_ s)
    (received_initial_settings_ s) v (streams_ s).
Definition set_streams (v : gmap Z H2Stream) (s : H2Session) : H2Session :=
  mkH2Session (router_ s) (outbound_ s) (connection_id_ s) (config_ s) (receive_buffer_ s)
    (hpack_decoder_ s) (state_ s) (last_stream_id_ s) (remote_settings_header_table_size_ s)
    (remote_settings_max_concurrent_streams_ s) (remote_settings_initial_window_size_ s)
    (remote_settings_maximum_frame_size_ s) (connection_recv_window_ s)
    (received_initial_settings_ s) (continuation_stream_id_ s) v.

(** [config_.maximum_header_list_size = v] *)
Definition set_maximum_header_list_size (v : Z) (c : H2ConnectionConfig) : H2ConnectionConfig :=
  mkH2Config (initial_receive_buffer_size c) (maximum_receive_buffer_size c) (maximum_request_body_size c)
    (maximum_concurrent_streams c) (initial_window_size c) (maximum_frame_size c) v
    (header_table_size c) (enable_push c).

(** The constructor; a null router is [None], and the flags say whether the
    executor and the frame sender are not null. *)
Definition H2Session_make (router : option HttpRouter) (executor frame_sender : bool) (id : Z)
    (c : H2ConnectionConfig) : result H2Session :=
  let options := mkHpackOptions (header_table_size c) (config_maximum_header_list_size c) in
  outbound ← H2OutboundScheduler_make frame_sender (initial_window_size c) (maximum_frame_size c) options;
  buffer ← RingReceiveBuffer.make (initial_receive_buffer_size c) (maximum_receive_buffer_size c);
  match router with
  | None => Throw invalid_argument
  | Some r =>
      if negb executor then Throw invalid_argument
      else if negb frame_sender then Throw invalid_argument
      else if (initial_receive_buffer_size c =? 0) ||
              (maximum_receive_buffer_size c <? initial_receive_buffer_size c) ||
              (maximum_request_body_size c =? 0)
      then Throw invalid_argument
      else Ok (mkH2Session r outbound id c buffer (HpackCodec_make options) ExpectPreface 0 4096 100
                 65535 16384 (initial_window_size c) false None ∅)
  end.

(** ** The surroundings of a session *)

Inductive Event :=
  | SentFrame (frame : list byte)
  | PostedRequest (stream_id : Z) (request : HttpRequest) (status : SubmitStatus) (response : HttpResponse).

Class World := {
  post_status : list Event -> SubmitStatus;
  runs_at_once : list Event -> bool;
  visit_order : gmap Z StreamOutput -> list Z;
}.

(** [std::unordered_map] visits every element once. *)
Class WorldLaws `{World} :=
  visit_order_spec m : visit_order m ≡ₚ (map_to_list m).*1.

(** The session, the events so far, the accepted tasks that have not run (the
    response that each submits), and the counter [dispatching] of [Feed]. *)
Record context := mkContext {
  session : H2Session;
  log : list Event;
  tasks : list (Z * HttpResponse);
  dispatching : Z;
}.

Definition M (A : Type) : Type := context -> result (A * context).

#[export] Instance M_ret : MRet M := fun A a c => Ok (a, c).
#[export] Instance M_bind : MBind M := fun A B f m c => '(a, c) ← m c; f a c.

Definition get {A} (f : H2Session -> A) : M A := fun c => Ok (f (session c), c).
Definition modify (f : H2Session -> H2Session) : M unit :=
  fun c => Ok (tt, mkContext (f (session c)) (log c) (tasks c) (dispatching c)).
(** The context itself, read and replaced. *)
Definition ask : M context := fun c => Ok (c, c).
Definition put (f : context -> context) : M unit := fun c => Ok (tt, f c).
Definition lift {A} (r : result A) : M A := fun c => a ← r; Ok (a, c).

(** [frame_sender_(frame)] *)
Definition send (frame : list byte) : M unit :=
  put (fun c => mkContext (session c) (log c ++ [SentFrame frame]) (tasks c) (dispatching c)).

(** A call of the outbound scheduler, which sends frames. *)
Definition outbound {A} (f : H2OutboundScheduler -> result (A * list (list byte) * H2OutboundScheduler)) : M A :=
  fun c =>
    '(a, frames, o) ← f (outbound_ (session c));
    Ok (a, mkContext (set_outbound o (session c)) (log c ++ map SentFrame frames) (tasks c) (dispatching c)).

(** An assignment through a [H2Stream*] into [streams_]. *)
Definition on_stream (id : Z) (f : H2Stream -> H2Stream) : M unit :=
  modify (fun s => set_streams (alter f id (streams_ s)) s).

Definition SendFrame (header : FrameHeader) (payload : list byte) : M unit :=
  send (EncodeHeader header ++ payload).

(** [(header.flags & flag) != 0] *)
Definition has_flag (h : FrameHeader) (flag : Z) : bool := negb (Z.land (fh_flags h) flag =? 0).

(** The header of a control frame with this payload. *)
Definition control_header (type stream_id : Z) (payload : list byte) : FrameHeader :=
  mkFrameHeader (u32 (zlen payload)) type 0 stream_id.

Section session.
Context `{World}.

(** ** Streams of a session *)

(** Null is [None]; the pointer is the key of the stream. *)
Definition GetOrCreateStream (stream_id : Z) (remote_initiated : bool) : M (option Z) :=
  s ← get id;
  match streams_ s !! stream_id with
  | Some _ => mret (Some stream_id)
  | None =>
      if negb remote_initiated then mret None
      else if maximum_concurrent_streams (config_ s) <=? Z.of_nat (size (streams_ s)) then mret None
      else
        let stream := H2Stream_make stream_id (initial_window_size (config_ s)) in
        let stream := if remote_initiated then SetState Open stream else stream in
        modify (fun s => set_streams (<[stream_id := stream]> (streams_ s)) s);;
        modify (fun s => set_outbound (OpenStream stream_id (outbound_ s)) s);;
        mret (Some stream_id)
  end.

(** The state of the stream is assigned just before it is destroyed. *)
Definition CloseStream (stream_id : Z) : M unit :=
  modify (fun s => set_streams (delete stream_id (streams_ s)) s);;
  modify (fun s => set_outbound (Http2Outbound.CloseStream stream_id (outbound_ s)) s).

(** The task of a dispatched request, when it runs. *)
Definition run_task (stream_id : Z) (response : HttpResponse) : M unit :=
  _ ← outbound (SubmitResponse stream_id response); mret tt.

(** [router_->Dispatch(request, executor_, ..., false)] *)
Definition dispatch (stream_id : Z) (request : HttpRequest) : M HttpDispatchStatus :=
  s ← get id;
  c ← ask;
  let events := log c in
  '(status, response) ← lift (Dispatch (router_ s) request true true (post_status events) false);
  put (fun c => mkContext (session c)
    (log c ++ [PostedRequest stream_id request (post_status events) response]) (tasks c) (dispatching c));;
  if bool_decide (status = DispatchAccepted) then
    (if runs_at_once events then run_task stream_id response
     else put (fun c => mkContext (session c) (log c) (tasks c ++ [(stream_id, response)]) (dispatching c)));;
    mret status
  else mret status.

Definition set_body (v : list byte) (r : HttpRequest) : HttpRequest :=
  mkRequest (method r) (method_text r) (target r) (path r) (query r) (headers r)
    v (keep_alive r) (request_id r) (connection_id r).

Definition DispatchRequest (stream_id : Z) : M ProtocolFeedStatus :=
  s ← get id;
  match streams_ s !! stream_id with
  | None => mret FeedProtocolError
  | Some stream =>
      if negb (headers_complete_ stream) || negb (end_stream_ stream) || negb (HasRequest stream) ||
         dispatched_ stream
      then mret FeedProtocolError
      else
        '(request, stream) ← lift (TakeRequest stream);
        let request := set_body (body_ stream) request in
        on_stream stream_id (fun _ => SetDispatched stream);;
        status ← dispatch stream_id request;
        if bool_decide (status = DispatchAccepted) then
          put (fun c => mkContext (session c) (log c) (tasks c) (u64 (dispatching c + 1)));;
          modify (fun s => set_streams (delete stream_id (streams_ s)) s);;
          mret FeedReady
        else
          CloseStream stream_id;;
          mret (if bool_decide (status = ExecutorSaturated) then FeedExecutorSaturated
                else FeedExecutorStopped)
  end.

(** ** Frame handlers *)

(** The loop over the entries of a SETTINGS frame; [false] is the early return
    of a protocol error. *)
Fixpoint settings_loop (payload : list byte) : M bool :=
  match payload with
  | b0 :: b1 :: b2 :: b3 :: b4 :: b5 :: payload =>
      let id := Z.lor (Z.shiftl (b2z b0) 8) (b2z b1) in
      let value := MakeUint32 b2 b3 b4 b5 in
      if id =? 1 then modify (set_header_table_size value);; settings_loop payload
      else if id =? 3 then modify (set_max_concurrent_streams value);; settings_loop payload
      else if id =? 4 then
        if 0x7fffffff <? value then mret false
        else modify (set_initial_window_size value);; settings_loop payload
      else if id =? 5 then
        if (value <? 16384) || (16777215 <? value) then mret false
        else modify (set_maximum_frame_size value);; settings_loop payload
      else if id =? 6 then
        modify (fun s => set_config (set_maximum_header_list_size value (config_ s)) s);;
        settings_loop payload
      else settings_loop payload
  | _ => mret true
  end.

Definition HandleSettings (header : FrameHeader) (payload : list byte) : M ProtocolFeedStatus :=
  if negb (fh_stream_id header =? 0) then mret FeedProtocolError
  else if has_flag header FrameFlags_Ack then
    if negb (fh_length header =? 0) then mret FeedProtocolError else mret FeedReady
  else if negb (fh_length header mod 6 =? 0) then mret FeedProtocolError
  else
    modify (set_received_settings true);;
    ok ← settings_loop payload;
    if negb ok then mret FeedProtocolError
    else
      s ← get id;
      applied ← outbound (fun o => ApplyPeerSettings (remote_settings_initial_window_size_ s)
                                     (remote_settings_maximum_frame_size_ s)
                                     (remote_settings_header_table_size_ s)
                                     (visit_order (Http2Outbound.streams_ o)) o);
      if negb applied then mret FeedProtocolError
      else
        send (EncodeHeader (mkFrameHeader 0 FrameType_Settings FrameFlags_Ack 0));;
        mret FeedReady.

(** What the loop over the decoded headers builds. *)
Record assembly := mkAssembly {
  as_request : HttpRequest;
  has_method : bool;
  has_path : bool;
  saw_regular_header : bool;
}.

Definition set_request_method (v : list byte) (r : HttpRequest) : HttpRequest :=
  mkRequest (ParseMethod v) v (target r) (path r) (query r) (headers r) (body r) (keep_alive r)
    (request_id r) (connection_id r).

(** The target with its path and, behind a question mark, its query. *)
Definition set_request_target (v : list byte) (r : HttpRequest) : result HttpRequest :=
  let q := str_find Byte.x3f v 0 in
  if negb (q =? npos) then
    p ← substr v 0 q;
    query ← substr v (q + 1) npos;
    Ok (mkRequest (method r) (method_text r) v p query (headers r) (body r) (keep_alive r)
          (request_id r) (connection_id r))
  else Ok (mkRequest (method r) (method_text r) v v (query r) (headers r) (body r) (keep_alive r)
             (request_id r) (connection_id r)).

Definition push_request_header (h : HttpHeader) (r : HttpRequest) : HttpRequest :=
  mkRequest (method r) (method_text r) (target r) (path r) (query r) (headers r ++ [h]) (body r)
    (keep_alive r) (request_id r) (connection_id r).

(** One header; [None] is the early return of a protocol error. *)
Definition assemble_header (h : HttpHeader) (a : assembly) : result (option assembly) :=
  if zlen (name h) =? 0 then Ok None
  else
    let pseudo := bool_decide (front (name h) = Some Byte.x3a) in
    if pseudo && saw_regular_header a then Ok None
    else
      let regular := saw_regular_header a || negb pseudo in
      if decide (name h = $":method") then
        if has_method a then Ok None
        else Ok (Some (mkAssembly (set_request_method (value h) (as_request a)) true (has_path a) regular))
      else if decide (name h = $":path") then
        if has_path a then Ok None
        else
          r ← set_request_target (value h) (as_request a);
          Ok (Some (mkAssembly r (has_method a) true regular))
      else if decide (name h = $":authority") then
        Ok (Some (mkAssembly (push_request_header (mkHeader $"host" (value h)) (as_request a))
                    (has_method a) (has_path a) regular))
      else if decide (name h = $":scheme") then
        Ok (Some (mkAssembly (as_request a) (has_method a) (has_path a) regular))
      else if pseudo then Ok None
      else if existsb is_upper (name h) then Ok None
      else Ok (Some (mkAssembly (push_request_header h (as_request a)) (has_method a) (has_path a) regular)).

Fixpoint assemble_headers (hs : list HttpHeader) (a : assembly) : result (option assembly) :=
  match hs with
  | [] => Ok (Some a)
  | h :: hs =>
      r ← assemble_header h a;
      match r with
      | None => Ok None
      | Some a => assemble_headers hs a
      end
  end.

(** [request.connection_id] and [request.request_id] of a new request. *)
Definition new_request (id stream_id : Z) : HttpRequest :=
  mkRequest Unsupported [] [] [] [] [] [] true stream_id id.

(** The frame that resets a stream. *)
Definition reset_frame (stream_id error_code : Z) : list byte :=
  let rst := EncodeRstStream error_code in
  EncodeHeader (control_header FrameType_RstStream stream_id rst) ++ rst.

(** The handler of [std::exception] in [HandleHeaders]. *)
Definition compression_error (stream_id : Z) (e : exn) : M ProtocolFeedStatus :=
  match e with
  | NonTermination | UndefinedBehavior | UndefinedShift => lift (Throw e)
  | _ =>
      send (reset_frame stream_id ErrorCode_CompressionError);;
      CloseStream stream_id;;
      mret FeedReady
  end.

(** The [try] block of [HandleHeaders]: a complete header block. *)
Definition decode_headers (stream_id : Z) : M ProtocolFeedStatus :=
  s ← get id;
  match streams_ s !! stream_id with
  | None => lift (Throw UndefinedBehavior)
  | Some stream =>
      let '(decoded, decoder) := Decode (header_block_ stream) (hpack_decoder_ s) in
      modify (set_decoder decoder);;
      match (hs ← decoded;
             assemble_headers hs (mkAssembly (new_request (connection_id_ s) stream_id) false false false)) with
      | Throw e => compression_error stream_id e
      | Ok None => mret FeedProtocolError
      | Ok (Some a) =>
          if negb (has_method a) || negb (has_path a) ||
             bool_decide (method (as_request a) = Unsupported)
          then CloseStream stream_id;; mret FeedProtocolError
          else
            on_stream stream_id (SetRequest (as_request a));;
            on_stream stream_id SetHeadersComplete;;
            on_stream stream_id (SetState (if end_stream_ stream then HalfClosedRemote else Open));;
            if end_stream_ stream then DispatchRequest stream_id else mret FeedReady
      end
  end.

(** The stream of a HEADERS or CONTINUATION frame; [None] is a protocol error. *)
Definition headers_stream (header : FrameHeader) (continuation : bool) : M (option Z) :=
  s ← get id;
  if continuation then
    if bool_decide (continuation_stream_id_ s = Some (fh_stream_id header)) &&
       bool_decide (is_Some (streams_ s !! fh_stream_id header))
    then mret (Some (fh_stream_id header))
    else mret None
  else if negb (fh_stream_id header mod 2 =? 1) || (fh_stream_id header <=? last_stream_id_ s) ||
          bool_decide (is_Some (streams_ s !! fh_stream_id header))
  then mret None
  else
    stream ← GetOrCreateStream (fh_stream_id header) true;
    match stream with
    | None => mret None
    | Some id => modify (set_last_stream_id (fh_stream_id header));; mret (Some id)
    end.

(** The offset of the header block in the payload, and the length of the
    padding; [None] is a protocol error. *)
Definition headers_padding (header : FrameHeader) (continuation : bool) (payload : list byte)
    : result (option (Z * Z)) :=
  r ← (if negb continuation && has_flag header FrameFlags_Padded then
         if fh_length header =? 0 then Ok None
         else b ← index_unchecked payload 0; Ok (Some (1, b2z b))
       else Ok (Some (0, 0)));
  match r with
  | None => Ok None
  | Some (offset, pad_length) =>
      let offset := if negb continuation && has_flag header FrameFlags_Priority then offset + 5 else offset in
      if (fh_length header <? offset) || (fh_length header - offset <? pad_length) then Ok None
      else Ok (Some (offset, pad_length))
  end.

Definition HandleHeaders (header : FrameHeader) (payload : list byte) : M ProtocolFeedStatus :=
  if fh_stream_id header =? 0 then mret FeedProtocolError
  else
    let end_stream := has_flag header FrameFlags_EndStream in
    let end_headers := has_flag header FrameFlags_EndHeaders in
    let continuation := fh_type header =? FrameType_Continuation in
    found ← headers_stream header continuation;
    match found with
    | None => mret FeedProtocolError
    | Some stream_id =>
        s ← get id;
        if bool_decide (stream_state_ <$> streams_ s !! stream_id = Some StreamClosed) then
          send (reset_frame (fh_stream_id header) ErrorCode_StreamClosed);; mret FeedReady
        else
          padding ← lift (headers_padding header continuation payload);
          match padding with
          | None => mret FeedProtocolError
          | Some (payload_offset, pad_length) =>
              let header_size := fh_length header - payload_offset - pad_length in
              (if negb (header_size =? 0)
               then on_stream stream_id (AppendHeaderFragment (zslice payload_offset header_size payload))
               else mret tt);;
              (if negb continuation && end_stream then on_stream stream_id SetEndStream else mret tt);;
              if negb end_headers then
                modify (set_continuation (Some (fh_stream_id header)));; mret FeedReady
              else
                modify (set_continuation None);;
                s ← get id;
                if bool_decide (headers_complete_ <$> streams_ s !! stream_id = Some true)
                then mret FeedProtocolError
                else decode_headers stream_id
          end
    end.

(** The frame that gives back a part of a window. *)
Definition window_update_frame (stream_id increment : Z) : list byte :=
  let bytes := EncodeWindowUpdate increment in
  EncodeHeader (control_header FrameType_WindowUpdate stream_id bytes) ++ bytes.

(** Give the connection its window back when less than half is left. *)
Definition update_connection_window : M unit :=
  s ← get id;
  if connection_recv_window_ s <? initial_window_size (config_ s) / 2 then
    let increment := u32 (initial_window_size (config_ s) - connection_recv_window_ s) in
    modify (set_recv_window (initial_window_size (config_ s)));;
    send (window_update_frame 0 increment)
  else mret tt.

(** The same for a stream. *)
Definition update_stream_window (stream_id : Z) : M unit :=
  s ← get id;
  match streams_ s !! stream_id with
  | None => lift (Throw UndefinedBehavior)
  | Some stream =>
      if recv_window_ stream <? initial_window_size (config_ s) / 2 then
        let increment := u32 (initial_window_size (config_ s) - recv_window_ stream) in
        on_stream stream_id (AddRecvWindow increment);;
        send (window_update_frame stream_id increment)
      else mret tt
  end.

(** The data of a frame that passed the checks. *)
Definition accept_data (stream_id flow_size : Z) (data : list byte) (end_stream : bool) : M unit :=
  on_stream stream_id (ConsumeRecvWindow flow_size);;
  modify (fun s => set_recv_window (u32 (connection_recv_window_ s - flow_size)) s);;
  (if negb (zlen data =? 0) then on_stream stream_id (AppendData data) else mret tt);;
  (if end_stream then on_stream stream_id (fun t => SetState HalfClosedRemote (SetEndStream t)) else mret tt);;
  update_connection_window;;
  update_stream_window stream_id.

(** The padding of a DATA frame. *)
Definition data_padding (header : FrameHeader) (payload : list byte) : result (option (Z * Z)) :=
  r ← (if has_flag header FrameFlags_Padded then
         if fh_length header =? 0 then Ok None
         else b ← index_unchecked payload 0; Ok (Some (1, b2z b))
       else Ok (Some (0, 0)));
  match r with
  | None => Ok None
  | Some (offset, pad_length) =>
      if fh_length header - offset <? pad_length then Ok None else Ok (Some (offset, pad_length))
  end.

Definition HandleData (header : FrameHeader) (payload : list byte) : M ProtocolFeedStatus :=
  if fh_stream_id header =? 0 then mret FeedProtocolError
  else
    found ← GetOrCreateStream (fh_stream_id header) false;
    s ← get id;
    match found ≫= fun id => streams_ s !! id with
    | None => mret FeedProtocolError
    | Some stream =>
        if negb (headers_complete_ stream) || end_stream_ stream ||
           bool_decide (stream_state_ stream = StreamClosed)
        then mret FeedProtocolError
        else
          padding ← lift (data_padding header payload);
          match padding with
          | None => mret FeedProtocolError
          | Some (payload_offset, pad_length) =>
              let stream_id := fh_stream_id header in
              let data_size := fh_length header - payload_offset - pad_length in
              let flow_size := fh_length header in
              if (recv_window_ stream <? flow_size) || (connection_recv_window_ s <? flow_size)
              then CloseStream stream_id;; mret FeedProtocolError
              else if (maximum_request_body_size (config_ s) <? data_size) ||
                      (maximum_request_body_size (config_ s) - data_size <? zlen (body_ stream))
              then CloseStream stream_id;; mret FeedBufferLimitExceeded
              else
                let end_stream := has_flag header FrameFlags_EndStream in
                accept_data stream_id flow_size (zslice payload_offset data_size payload) end_stream;;
                if end_stream then DispatchRequest stream_id else mret FeedReady
          end
    end.

(** The error code of the payload is not used. *)
Definition HandleRstStream (header : FrameHeader) (payload : list byte) : M ProtocolFeedStatus :=
  if (fh_stream_id header =? 0) || negb (fh_length header =? 4) then mret FeedProtocolError
  else CloseStream (fh_stream_id header);; mret FeedReady.

(** The increment of a WINDOW_UPDATE payload. *)
Definition window_increment (payload : list byte) : result Z :=
  b0 ← index_unchecked payload 0; b1 ← index_unchecked payload 1;
  b2 ← index_unchecked payload 2; b3 ← index_unchecked payload 3;
  Ok (MakeUint32 (z2b (Z.land (b2z b0) 0x7f)) b1 b2 b3).

Definition HandleWindowUpdate (header : FrameHeader) (payload : list byte) : M ProtocolFeedStatus :=
  if negb (fh_length header =? 4) then mret FeedProtocolError
  else
    increment ← lift (window_increment payload);
    if increment =? 0 then mret FeedProtocolError
    else if fh_stream_id header =? 0 then
      ok ← outbound (fun o => UpdateConnectionWindow increment (visit_order (Http2Outbound.streams_ o)) o);
      mret (if negb ok then FeedProtocolError else FeedReady)
    else
      ok ← outbound (UpdateStreamWindow (fh_stream_id header) increment);
      s ← get id;
      mret (if negb ok && (last_stream_id_ s <? fh_stream_id header)
            then FeedProtocolError else FeedReady).

(** [opaque = (opaque << 8) | byte] over eight bytes. *)
Definition ping_opaque (payload : list byte) : Z :=
  fold_left (fun opaque b => Z.lor (u64 (Z.shiftl opaque 8)) (b2z b)) (ztake 8 payload) 0.

Definition HandlePing (header : FrameHeader) (payload : list byte) : M ProtocolFeedStatus :=
  if negb (fh_stream_id header =? 0) || negb (fh_length header =? 8) then mret FeedProtocolError
  else if has_flag header FrameFlags_Ack then mret FeedReady
  else send (EncodePing (ping_opaque payload) true);; mret FeedReady.

Definition HandleGoaway (header : FrameHeader) (payload : list byte) : M ProtocolFeedStatus :=
  if negb (fh_stream_id header =? 0) || (fh_length header <? 8) then mret FeedProtocolError
  else modify (set_state Closing);; mret FeedReady.

(** ** The connection *)

Definition SendSettings : M unit :=
  c ← get config_;
  send (EncodeSettings [(2, 0); (3, u32 (maximum_concurrent_streams c)); (4, initial_window_size c);
                        (5, maximum_frame_size c); (6, config_maximum_header_list_size c)]).

Definition IsStopped (s : H2Session) : bool := bool_decide (state_ s = Closed).
Definition LastStreamId (s : H2Session) : Z := last_stream_id_ s.

Definition SendGoaway (error_code : Z) : M unit :=
  s ← get id;
  if negb (bool_decide (state_ s = Connected)) then mret tt
  else modify (set_state Closing);; send (EncodeGoaway (last_stream_id_ s) error_code []).

Definition Close : M unit :=
  modify (set_state Closed);;
  modify (set_streams ∅);;
  modify (fun s => set_outbound (Http2Outbound.Close (outbound_ s)) s).

Definition FailConnection (error_code : Z) : M ProtocolFeedResult :=
  s ← get id;
  (if bool_decide (state_ s = Connected) || bool_decide (state_ s = Closing)
   then send (EncodeGoaway (last_stream_id_ s) error_code [])
   else mret tt);;
  modify (set_state Closed);;
  modify (fun s => set_buffer (RingReceiveBuffer.Clear (receive_buffer_ s)) s);;
  modify (set_streams ∅);;
  modify (set_continuation None);;
  modify (fun s => set_outbound (Http2Outbound.Close (outbound_ s)) s);;
  c ← ask;
  mret (mkFeedResult FeedCloseRequired (dispatching c) 0).

(** The comparison loop; [false] is a mismatch. *)
Fixpoint match_preface (preface : list byte) (readable : BufferSequence) (index compared : Z) : result bool :=
  match preface with
  | p :: preface =>
      if index <? compared then
        b ← At readable index;
        if decide (b = p) then match_preface preface readable (index + 1) compared else Ok false
      else Ok true
  | [] => Ok true
  end.

(** The status, and the flag [consumed]. *)
Definition ConsumePreface : M (ProtocolFeedStatus * bool) :=
  s ← get id;
  readable ← lift (RingReceiveBuffer.ReadableSequence (receive_buffer_ s));
  let available := seq_size readable in
  ok ← lift (match_preface kPreface readable 0 (Z.min available (zlen kPreface)));
  if negb ok then modify (set_state Closing);; mret (FeedProtocolError, false)
  else if available <? zlen kPreface then mret (FeedReady, false)
  else
    b ← lift (RingReceiveBuffer.Consume (receive_buffer_ s) (zlen kPreface));
    modify (set_buffer b);;
    modify (set_state Connected);;
    SendSettings;;
    mret (FeedReady, true).

(** The [switch] over the frame types; a frame of any other type is ignored. *)
Definition handle_frame (header : FrameHeader) (payload : list byte) : M ProtocolFeedStatus :=
  let type := fh_type header in
  if type =? FrameType_Settings then HandleSettings header payload
  else if (type =? FrameType_Headers) || (type =? FrameType_Continuation)
  then HandleHeaders header payload
  else if type =? FrameType_Data then HandleData header payload
  else if type =? FrameType_RstStream then HandleRstStream header payload
  else if type =? FrameType_WindowUpdate then HandleWindowUpdate header payload
  else if type =? FrameType_Ping then HandlePing header payload
  else if type =? FrameType_Goaway then HandleGoaway header payload
  else if type =? FrameType_Priority then
    if (fh_stream_id header =? 0) || negb (fh_length header =? 5)
    then mret FeedProtocolError else mret FeedReady
  else if type =? FrameType_PushPromise then mret FeedProtocolError
  else mret FeedReady.

(** A frame that was taken out of the buffer. *)
Definition accept_frame (header : FrameHeader) (payload : list byte) : M ProtocolFeedStatus :=
  s ← get id;
  if negb (received_initial_settings_ s) &&
     (negb (fh_type header =? FrameType_Settings) || has_flag header FrameFlags_Ack)
  then modify (set_state Closing);; mret FeedProtocolError
  else
    match continuation_stream_id_ s with
    | Some id =>
        if negb (fh_type header =? FrameType_Continuation) || negb (fh_stream_id header =? id)
        then modify (set_state Closing);; mret FeedProtocolError
        else handle_frame header payload
    | None => handle_frame header payload
    end.

Definition ConsumeFrame : M (ProtocolFeedStatus * bool) :=
  s ← get id;
  readable ← lift (RingReceiveBuffer.ReadableSequence (receive_buffer_ s));
  let remaining := seq_size readable in
  if remaining <? kHeaderSize then mret (FeedReady, false)
  else
    decoded ← lift (DecodeHeader readable);
    match decoded with
    | None => modify (set_state Closing);; mret (FeedProtocolError, false)
    | Some header =>
        let frame_total := kHeaderSize + fh_length header in
        if maximum_frame_size (config_ s) <? fh_length header
        then modify (set_state Closing);; mret (FeedProtocolError, false)
        else if remaining <? frame_total then mret (FeedReady, false)
        else
          payload ← lift (if fh_length header =? 0 then Ok []
                          else CopyTo readable kHeaderSize (fh_length header));
          b ← lift (RingReceiveBuffer.Consume (receive_buffer_ s) frame_total);
          modify (set_buffer b);;
          status ← accept_frame header payload;
          mret (status, true)
    end.

(** The result of [Feed] with this status. *)
Definition feed_result (status : ProtocolFeedStatus) : M ProtocolFeedResult :=
  c ← ask;
  mret (mkFeedResult status (dispatching c) (RingReceiveBuffer.ReadableBytes (receive_buffer_ (session c)))).

(** [if (status == ProtocolError) return FailConnection(...); return {status, ...};] *)
Definition fail_or_return (status : ProtocolFeedStatus) : M ProtocolFeedResult :=
  if decide (status = FeedProtocolError) then FailConnection ErrorCode_ProtocolError
  else feed_result status.

(** How an iteration of the loop ends. *)
Inductive iteration := Again | Break | Return (r : ProtocolFeedResult).

Definition frame_iteration : M iteration :=
  s ← get id;
  if bool_decide (state_ s = Connected) then
    '(status, consumed) ← ConsumeFrame;
    if negb (bool_decide (status = FeedReady)) then r ← fail_or_return status; mret (Return r)
    else if negb consumed then mret Break
    else
      s ← get id;
      mret (if bool_decide (state_ s = Closing) || bool_decide (state_ s = Closed) then Break else Again)
  else
    mret (if bool_decide (state_ s = Closing) || bool_decide (state_ s = Closed) then Break else Again).

Definition Feed_iteration : M iteration :=
  s ← get id;
  if bool_decide (state_ s = ExpectPreface) then
    '(status, consumed) ← ConsumePreface;
    if negb (bool_decide (status = FeedReady)) then r ← fail_or_return status; mret (Return r)
    else if negb consumed then r ← feed_result FeedReady; mret (Return r)
    else frame_iteration
  else frame_iteration.

Fixpoint Feed_loop (fuel : nat) : M ProtocolFeedResult :=
  match fuel with
  | O => lift (Throw NonTermination)
  | S fuel =>
      s ← get id;
      if RingReceiveBuffer.Empty (receive_buffer_ s) then feed_result FeedReady
      else
        i ← Feed_iteration;
        match i with
        | Again => Feed_loop fuel
        | Break => feed_result FeedReady
        | Return r => mret r
        end
  end.

(** Every iteration that goes on takes at least one byte. *)
Definition feed_fuel (s : H2Session) : nat :=
  S (Z.to_nat (RingReceiveBuffer.ReadableBytes (receive_buffer_ s))).

Definition Feed (bytes : list byte) : M ProtocolFeedResult :=
  put (fun c => mkContext (session c) (log c) (tasks c) 0);;
  s ← get id;
  if bool_decide (state_ s = Closed) then mret (mkFeedResult FeedStopped 0 0)
  else
    '(status, b) ← lift (RingReceiveBuffer.Append (receive_buffer_ s) bytes);
    modify (set_buffer b);;
    if negb (bool_decide (status = Ready)) then FailConnection ErrorCode_EnhanceYourCalm
    else s ← get id; Feed_loop (feed_fuel s).

(** ** Histories

    What can happen to a session: a read, a posted task that runs, and the two
    calls of its owner. *)
Inductive session_op :=
  | OpFeed (bytes : list byte)
  | OpTask (i : nat)
  | OpGoaway (error_code : Z)
  | OpClose.

Definition session_step (o : session_op) : M unit :=
  match o with
  | OpFeed bytes => _ ← Feed bytes; mret tt
  | OpTask i =>
      c ← ask;
      match tasks c !! i with
      | None => mret tt
      | Some (stream_id, response) =>
          put (fun c => mkContext (session c) (log c) (delete i (tasks c)) (dispatching c));;
          run_task stream_id response
      end
  | OpGoaway e => SendGoaway e
  | OpClose => Close
  end.

Fixpoint session_run (ops : list session_op) : M unit :=
  match ops with
  | [] => mret tt
  | o :: ops => session_step o;; session_run ops
  end.
End session.
