(* ===== verification/Http2SessionTheory.v ===== *)
(** * The HTTP/2 session keeps its invariant

    Whatever a peer sends, the session terminates on every read and stays
    consistent: its windows, its streams, the state of its two HPACK contexts
    and of the outbound scheduler, and the numbers of the requests it
    dispatches. *)

From S2P Require Import Prelude BufferSequence ReceiveBuffer RingReceiveBuffer HttpMessage.
From S2P Require Import ProtocolSession HttpRouter Huffman Hpack HpackTheory Http2Frames Http2Outbound.
From S2P Require Import Http2OutboundTheory Http2Session.

(** ** Decoding keeps the options of the codec *)

Lemma AddDynamicEntry_keeps n v c : hpack_options_ (AddDynamicEntry n v c) = hpack_options_ c.
Proof.
  unfold AddDynamicEntry, EvictDynamicTable. destruct (_ <? _); [done|].
  by destruct (evict_back _ _ _).
Qed.

Lemma SetDynamicTableSize_keeps n c : hpack_options_ (SetDynamicTableSize n c).2 = hpack_options_ c.
Proof.
  unfold SetDynamicTableSize, EvictDynamicTable. destruct (_ <? _); [done|]. cbn.
  by destruct (evict_back _ _ _).
Qed.

Lemma Decode_step_keeps data offset c : hpack_options_ (Decode_step data offset c).2 = hpack_options_ c.
Proof.
  unfold Decode_step. destruct (index_unchecked data offset); [|done].
  destruct (negb _); [done|]. destruct (_ =? 0x40).
  { destruct (decode_literal _ _ _ _) as [[h o]|]; [|done]. apply AddDynamicEntry_keeps. }
  destruct (_ =? 0x00); [done|]. destruct (_ =? 0x20); [|done].
  destruct (ReadDecodedInteger _ _ _) as [[n o]|]; [|done].
  pose proof (SetDynamicTableSize_keeps n c) as Hk. by destruct (SetDynamicTableSize n c).
Qed.

Lemma Decode_loop_keeps fuel data : forall offset hls hs c,
  hpack_options_ (Decode_loop fuel data offset hls hs c).2 = hpack_options_ c.
Proof.
  induction fuel as [|fuel IH]; intros offset hls hs c; [done|]. cbn [Decode_loop].
  destruct (_ <? _); [|done]. pose proof (Decode_step_keeps data offset c) as Hk.
  destruct (Decode_step data offset c) as [[[f o]|e] c1]; [|done]. cbn in Hk.
  rewrite Hk. destruct (_ <? _); [done|]. by rewrite IH.
Qed.

Lemma Decode_safe data c : codec_ok c -> zlen data < 2 ^ 56 ->
  0 <= maximum_header_list_size (hpack_options_ c) < 2 ^ 62 ->
  let '(r, c') := Decode data c in
  codec_ok c' /\ hpack_options_ c' = hpack_options_ c /\
  match r with Ok _ => True | Throw e => e = runtime_error \/ e = UndefinedShift end.
Proof.
  intros Hc Hd Hm. pose proof (Decode_loop_keeps (S (length data)) data 0 0 [] c) as Hk.
  pose proof (Decode_loop_safe (S (length data)) data Hd 0 0 [] c Hc) as Hs. unfold Decode.
  destruct (Decode_loop _ _ _ _ _ _) as [r c']. destruct Hs as [? Hr]; [lia|unfold zlen; lia|done|done|].
  split; [done|]. split; [done|]. destruct r; [done|]. destruct Hr as [|[]]; auto.
Qed.

(** ** The invariant *)

(** The configuration is within the types of its members, and the two
    restrictions that the constructors enforce hold. *)
Record config_ok (c : H2ConnectionConfig) : Prop := {
  cf_window : 0 <= initial_window_size c <= kMaximumWindow;
  cf_frame : 16384 <= maximum_frame_size c <= 16777215;
  cf_body : 0 < maximum_request_body_size c < 2 ^ 60;
  cf_streams : 0 <= maximum_concurrent_streams c < 2 ^ 64;
  cf_buffer : maximum_receive_buffer_size c < 2 ^ 63;
  cf_table : 0 <= header_table_size c < 2 ^ 31;
}.

(** A response of a size that the session can encode: names and values below a
    gigabyte. *)
Definition deliverable (r : HttpResponse) : Prop :=
  Forall header_fits (response_fields r) /\ zlen (resp_body r) < 2 ^ 62.

(** A stream with this number on a connection: its header block has at most
    [room] bytes, the last stream opened is [last], the initial window [iw],
    the limit on a body [limit] and the number of the connection [conn]. *)
Record stream_inv (room last iw limit conn id : Z) (t : H2Stream) : Prop := {
  sv_id : stream_id_ t = id;
  sv_odd : id mod 2 = 1;
  sv_range : 0 < id <= last;
  sv_window : iw / 2 <= recv_window_ t <= iw;
  sv_body : zlen (body_ t) <= limit;
  sv_block : zlen (header_block_ t) <= room;
  sv_fresh : dispatched_ t = false;
  sv_state : stream_state_ t <> StreamClosed;
  sv_request : match request_ t with
    | Some r => headers_complete_ t = true /\ request_id r = id /\ connection_id r = conn
    | None => headers_complete_ t = false
    end;
}.

(** The streams whose requests were posted. *)
Definition posted_ids (l : list Event) : list Z :=
  omap (fun e => match e with PostedRequest id _ _ _ => Some id | SentFrame _ => None end) l.

(** A posted request names its stream and connection, its body is within the
    limit, and it gets the router's response; its stream is not in [m]. *)
Definition posted_ok (router : HttpRouter) (last limit conn : Z) (m : gmap Z H2Stream) (e : Event) : Prop :=
  match e with
  | PostedRequest id r _ resp =>
      0 < id <= last /\ id mod 2 = 1 /\ m !! id = None /\ request_id r = id /\ connection_id r = conn /\
      zlen (body r) <= limit /\ resp = dispatch_task (route_request router r) r false
  | SentFrame _ => True
  end.

(** What does not change while a session lives: the arguments of its
    constructor. *)
Record Site := mkSite {
  site_router : HttpRouter;
  site_connection : Z;
  site_config : H2ConnectionConfig;
}.

(** The invariant of a session that received at most [n] bytes.  [busy] is a
    stream whose request is complete and about to be dispatched. *)
Record hinv (site : Site) (busy : option Z) (n : Z) (c : context) : Prop := {
  hi_site : router_ (session c) = site_router site /\ connection_id_ (session c) = site_connection site /\
    set_maximum_header_list_size 0 (config_ (session c)) = set_maximum_header_list_size 0 (site_config site);
  hi_router : forall r, deliverable (dispatch_task (route_request (router_ (session c)) r) r false);
  hi_ring : RingReceiveBuffer.inv (receive_buffer_ (session c));
  hi_bytes : zlen (contents (receive_buffer_ (session c))) <= n;
  hi_config : config_ok (config_ (session c));
  hi_decoder : codec_ok (hpack_decoder_ (session c));
  hi_limit : 0 <= maximum_header_list_size (hpack_options_ (hpack_decoder_ (session c))) < 2 ^ 62;
  hi_last : 0 <= last_stream_id_ (session c);
  hi_window : initial_window_size (config_ (session c)) / 2 <= connection_recv_window_ (session c)
    <= initial_window_size (config_ (session c));
  hi_streams : forall id t, streams_ (session c) !! id = Some t ->
    stream_inv (n - zlen (contents (receive_buffer_ (session c)))) (last_stream_id_ (session c))
      (initial_window_size (config_ (session c))) (maximum_request_body_size (config_ (session c)))
      (connection_id_ (session c)) id t;
  hi_size : Z.of_nat (size (streams_ (session c))) <= maximum_concurrent_streams (config_ (session c));
  hi_cont : forall id t, continuation_stream_id_ (session c) = Some id ->
    streams_ (session c) !! id = Some t -> headers_complete_ t = false;
  hi_live : forall id t, streams_ (session c) !! id = Some t -> headers_complete_ t = true ->
    end_stream_ t = true -> busy = Some id;
  hi_remote : 0 <= remote_settings_header_table_size_ (session c) /\
    0 <= remote_settings_initial_window_size_ (session c) <= kMaximumWindow /\
    16384 <= remote_settings_maximum_frame_size_ (session c) <= 16777215;
  hi_out : exists cd, sched_ok cd (outbound_ (session c));
  hi_posted : NoDup (posted_ids (log c)) /\ 
    Forall (posted_ok (router_ (session c)) (last_stream_id_ (session c))
      (maximum_request_body_size (config_ (session c))) (connection_id_ (session c))
      (streams_ (session c))) (log c);
  hi_tasks : Forall (fun t => deliverable t.2) (tasks c);
}.

Definition upd (f : H2Session -> H2Session) (c : context) : context :=
  mkContext (f (session c)) (log c) (tasks c) (dispatching c).

Definition logged (es : list Event) (c : context) : context :=
  mkContext (session c) (log c ++ es) (tasks c) (dispatching c).

Section invariant.
Context (site : Site) (x : option Z).

(** *** Assignments that keep the invariant *)

Lemma hinv_state n c v : hinv site x n c -> hinv site x n (upd (set_state v) c).
Proof. by intros []. Qed.

Lemma hinv_received n c v : hinv site x n c -> hinv site x n (upd (set_received_settings v) c).
Proof. by intros []. Qed.

Lemma hinv_concurrent n c v : hinv site x n c -> hinv site x n (upd (set_max_concurrent_streams v) c).
Proof. by intros []. Qed.

Lemma hinv_header_table n c v : 0 <= v -> hinv site x n c -> hinv site x n (upd (set_header_table_size v) c).
Proof. intros Hv []. split; try done. cbn. tauto. Qed.

Lemma hinv_initial_window n c v : 0 <= v <= kMaximumWindow -> hinv site x n c ->
  hinv site x n (upd (set_initial_window_size v) c).
Proof. intros Hv []. split; try done. cbn. tauto. Qed.

Lemma hinv_maximum_frame n c v : 16384 <= v <= 16777215 -> hinv site x n c ->
  hinv site x n (upd (set_maximum_frame_size v) c).
Proof. intros Hv []. split; try done. cbn. tauto. Qed.

Lemma hinv_header_list n c v : hinv site x n c ->
  hinv site x n (upd (fun s => set_config (set_maximum_header_list_size v (config_ s)) s) c).
Proof.
  intros []. split; try done. by destruct hi_config0.
Qed.

Lemma hinv_decoder n c d : codec_ok d -> hpack_options_ d = hpack_options_ (hpack_decoder_ (session c)) ->
  hinv site x n c -> hinv site x n (upd (set_decoder d) c).
Proof. intros Hd Ho []. split; try done. cbn. by rewrite Ho. Qed.

Lemma hinv_no_continuation n c : hinv site x n c -> hinv site x n (upd (set_continuation None) c).
Proof. by intros []. Qed.

Lemma hinv_recv_window n c v :
  initial_window_size (config_ (session c)) / 2 <= v <= initial_window_size (config_ (session c)) ->
  hinv site x n c -> hinv site x n (upd (set_recv_window v) c).
Proof. intros Hv []. by split. Qed.

Lemma hinv_outbound n c cd o : sched_ok cd o ->
  hinv site x n c -> hinv site x n (upd (set_outbound o) c).
Proof. intros Ho []. split; try done. by exists cd. Qed.

Lemma posted_ids_app l k : posted_ids (l ++ k) = posted_ids l ++ posted_ids k.
Proof. apply omap_app. Qed.

Lemma posted_ids_frames fs : posted_ids (map SentFrame fs) = [].
Proof. by induction fs. Qed.

Lemma hinv_frames n c fs : hinv site x n c -> hinv site x n (logged (map SentFrame fs) c).
Proof.
  intros []. split; try done. cbn. rewrite posted_ids_app, posted_ids_frames, app_nil_r.
  split; [tauto|]. apply Forall_app. split; [tauto|]. clear. by induction fs; constructor.
Qed.

Lemma hinv_tasks n c l : Forall (fun t => deliverable t.2) l ->
  hinv site x n c -> hinv site x n (mkContext (session c) (log c) l (dispatching c)).
Proof. intros Hl []. by split. Qed.

Lemma hinv_dispatching n c d : hinv site x n c -> hinv site x n (mkContext (session c) (log c) (tasks c) d).
Proof. by intros []. Qed.

Lemma posted_ok_mono router last last' limit conn m m' e :
  posted_ok router last limit conn m e -> last <= last' ->
  (forall id, 0 < id <= last -> m !! id = None -> m' !! id = None) ->
  posted_ok router last' limit conn m' e.
Proof.
  destruct e as [|id r st resp]; [done|]. cbn. intros (? & ? & ? & ? & ? & ? & ?) Hl Hs.
  split_and!; try done; try lia. apply Hs; [lia|done].
Qed.

(** Dropping streams. *)
Lemma hinv_drop n c m : m ⊆ streams_ (session c) ->
  hinv site x n c -> hinv site x n (upd (set_streams m) c).
Proof.
  intros Hm []. split; try done; cbn.
  - intros id t Ht. apply hi_streams0. by eapply lookup_weaken.
  - pose proof (map_subseteq_size _ _ Hm). lia.
  - intros id t E Ht. apply (hi_cont0 id t E). by eapply lookup_weaken.
  - intros id t Ht. apply (hi_live0 id). by eapply lookup_weaken.
  - split; [tauto|]. eapply Forall_impl; [apply hi_posted0|]. intros e He.
    eapply posted_ok_mono; [done|lia|]. intros id _ Hid. cbn.
    destruct (m !! id) eqn:E; [|done]. eapply lookup_weaken in E; [|done]. congruence.
Qed.

Lemma hinv_delete n c id : hinv site x n c -> hinv site x n (upd (fun s => set_streams (delete id (streams_ s)) s) c).
Proof.
  apply (hinv_drop n c (delete id (streams_ (session c)))). apply delete_subseteq.
Qed.

Lemma hinv_buffer n m c b : RingReceiveBuffer.inv b ->
  zlen (contents b) - zlen (contents (receive_buffer_ (session c))) <= m - n ->
  hinv site x n c -> hinv site x m (upd (set_buffer b) c).
Proof.
  intros Hb Hc []. split; try done; cbn; [lia|]. intros id t Ht. destruct (hi_streams0 id t Ht).
  split; try done. lia.
Qed.
End invariant.

Lemma hinv_not_busy site n c id :
  hinv site (Some id) n c ->
  hinv site None n (upd (fun s => set_streams (delete id (streams_ s)) s) c).
Proof.
  intros Hh. destruct (hinv_delete site (Some id) n c id Hh). split; try done.
  intros id' t Ht H1 H2. cbn in Ht. apply lookup_delete_Some in Ht as [Hne Ht].
  pose proof (hi_live _ _ _ _ Hh id' t Ht H1 H2). congruence.
Qed.

(** ** Running the methods *)

(** A run ends in a state that satisfies [Q]; the only exception is the
    undefined shift of the HPACK decoder. *)
Definition runs {A} (r : result (A * context)) (Q : A -> context -> Prop) : Prop :=
  match r with Ok (a, c) => Q a c | Throw e => e = UndefinedShift end.

Lemma runs_bind {A B} (m : M A) (f : A -> M B) c (R : A -> context -> Prop) Q :
  runs (m c) R -> (forall a c', R a c' -> runs (f a c') Q) -> runs ((m ≫= f) c) Q.
Proof.
  intros Hm Hf. unfold mbind, M_bind. destruct (m c) as [[a c']|e]; cbn in *; [by apply Hf|done].
Qed.

Lemma runs_mono {A} (r : result (A * context)) (R Q : A -> context -> Prop) :
  runs r R -> (forall a c, R a c -> Q a c) -> runs r Q.
Proof. destruct r as [[a c]|e]; cbn; auto. Qed.

Lemma runs_get {A B} (g : H2Session -> A) (f : A -> M B) c Q :
  runs (f (g (session c)) c) Q -> runs ((get g ≫= f) c) Q.
Proof. done. Qed.

Lemma runs_modify {B} (g : H2Session -> H2Session) (f : unit -> M B) c Q :
  runs (f tt (upd g c)) Q -> runs ((modify g ≫= f) c) Q.
Proof. done. Qed.

Lemma runs_lift {A B} (r : result A) (f : A -> M B) c Q :
  match r with Ok a => runs (f a c) Q | Throw e => e = UndefinedShift end -> runs ((lift r ≫= f) c) Q.
Proof. by destruct r. Qed.

Lemma bind_step {A B} (m : M A) (f : A -> M B) c a c' r :
  m c = Ok (a, c') -> f a c' = r -> (m ≫= f) c = r.
Proof. intros E <-. unfold mbind, M_bind. by rewrite E. Qed.

(** Executes the monad. *)
Ltac mrun :=
  cbv beta iota zeta delta [on_stream get modify lift put ask send mret M_ret mbind M_bind result_bind Datatypes.id];
  cbn [session log tasks dispatching].

Section run.
Context `{World} `{!WorldLaws} (site : Site).

(** A call of the scheduler that its arguments allow, in any context with the
    same scheduler. *)
Lemma outbound_runs x cl n c :
  hinv site x n c -> call_ok cl (outbound_ (session c)) ->
  exists b fs o,
    (forall c', outbound_ (session c') = outbound_ (session c) ->
       outbound (call cl) c' = Ok (b, logged (map SentFrame fs) (upd (set_outbound o) c'))) /\
    forall y c', hinv site y n c' -> hinv site y n (logged (map SentFrame fs) (upd (set_outbound o) c')).
Proof.
  intros Hh Hc. destruct (hi_out _ _ _ _ Hh) as (cd & Hs).
  destruct (call_total cd cl _ Hs Hc) as (b & fs & o & cd' & [E Hs' _ _ _ _ _]).
  exists b, (map wire fs), o. split.
  - intros c' Ho. unfold outbound. by rewrite Ho, E.
  - intros y c' Hh'. apply hinv_frames. by eapply hinv_outbound.
Qed.

Lemma run_task_runs x n c id r : hinv site x n c -> deliverable r ->
  exists fs o,
    (forall c', outbound_ (session c') = outbound_ (session c) ->
       run_task id r c' = Ok (tt, logged (map SentFrame fs) (upd (set_outbound o) c'))) /\
    forall y c', hinv site y n c' -> hinv site y n (logged (map SentFrame fs) (upd (set_outbound o) c')).
Proof.
  intros Hh Hr. destruct (outbound_runs x (CSubmitResponse id r) n c Hh Hr) as (b & fs & o & E & Ho).
  exists fs, o. split; [|done]. intros c' Hc'. unfold run_task, mbind, M_bind.
  change (outbound (SubmitResponse id r) c') with (outbound (call (CSubmitResponse id r)) c').
  by rewrite E.
Qed.

Lemma hinv_close_output x n c id : hinv site x n c ->
  hinv site x n (upd (fun s => set_outbound (Http2Outbound.CloseStream id (outbound_ s)) s) c).
Proof.
  intros Hh. destruct (hi_out _ _ _ _ Hh) as (cd & Hs).
  destruct (close_stream_done cd id _ Hs) as (b & fs & o & cd' & [E Hs' _ _ _ _ _]).
  cbn in E. injection E as _ _ E.
  eapply (hinv_outbound site x n _ cd' o) in Hh; [|done]. rewrite <- E in Hh. exact Hh.
Qed.

Lemma CloseStream_runs x n c id : hinv site x n c ->
  runs (CloseStream id c) (fun _ c' => hinv site x n c').
Proof.
  intros Hh. pose proof (hinv_delete site x n c id Hh) as Hd.
  exact (hinv_close_output x n _ id Hd).
Qed.

(** The request is posted once: its stream is still open. *)
Lemma hinv_post n c id req st resp t :
  hinv site (Some id) n c -> streams_ (session c) !! id = Some t ->
  request_id req = id -> connection_id req = connection_id_ (session c) ->
  zlen (body req) <= maximum_request_body_size (config_ (session c)) ->
  resp = dispatch_task (route_request (router_ (session c)) req) req false ->
  hinv site None n (logged [PostedRequest id req st resp]
    (upd (fun s => set_streams (delete id (streams_ s)) s) c)).
Proof.
  intros Hh Ht Hr Hcn Hb ->. pose proof (hi_streams _ _ _ _ Hh id t Ht) as [].
  pose proof (hi_posted _ _ _ _ Hh) as [Hnd Hf].
  destruct (hinv_not_busy site n c id Hh). split; try done. cbn. split.
  - rewrite posted_ids_app. apply NoDup_app. split; [done|]. split.
    + intros i Hi [->|[]%not_elem_of_nil]%elem_of_cons.
      apply list_elem_of_omap in Hi as (e & He & Ee). rewrite Forall_forall in Hf. specialize (Hf e He).
      destruct e as [|id' r' st' resp']; [done|]. injection Ee as ->.
      destruct Hf as (_ & _ & Hn & _). congruence.
    + apply NoDup_singleton.
  - apply Forall_app. split; [apply hi_posted0|]. apply Forall_singleton. cbn.
    split_and!; try done; try lia. apply lookup_delete_eq.
Qed.

Lemma DispatchRequest_runs n c id t :
  hinv site (Some id) n c -> streams_ (session c) !! id = Some t ->
  headers_complete_ t = true -> end_stream_ t = true ->
  runs (DispatchRequest id c) (fun _ c' => hinv site None n c').
Proof.
  intros Hh Ht H1 H2. pose proof (hi_streams _ _ _ _ Hh id t Ht) as [].
  unfold DispatchRequest. mrun. rewrite Ht, H1, H2.
  destruct (request_ t) as [r|] eqn:Er; [|congruence].
  unfold HasRequest, TakeRequest. rewrite Er, sv_fresh0. cbn [negb orb is_Some].
  rewrite bool_decide_eq_true_2 by eauto. cbn [negb orb].
  destruct sv_request0 as (_ & Hrid & Hrc).
  set (req := set_body (body_ (set_stream_request None t)) r).
  set (resp := dispatch_task (route_request (router_ (session c)) req) req false).
  set (c1 := mkContext _ (log c) (tasks c) (dispatching c)).
  assert (Hp : forall st, hinv site None n (logged [PostedRequest id req st resp]
    (upd (fun s => set_streams (delete id (streams_ s)) s) c))) by (intros st; by eapply hinv_post).
  assert (Hdel : forall f, delete id (alter f id (streams_ (session c))) = delete id (streams_ (session c))).
  { intros f. apply delete_alter_eq. }
  unfold dispatch. mrun. unfold Dispatch. cbn [negb].
  destruct (post_status (log c1)) eqn:Est; cbn [ToDispatchStatus].
  2,3: rewrite !bool_decide_eq_false_2 by done; mrun; unfold CloseStream; mrun; cbn [runs];
    specialize (Hp (post_status (log c1))); apply (hinv_close_output _ _ _ id) in Hp;
    unfold upd, logged, set_streams, set_outbound in *; cbn in *; rewrite Hdel; rewrite Est in Hp; exact Hp.
  rewrite bool_decide_eq_true_2 by done. specialize (Hp Accepted).
  destruct (runs_at_once (log c1)).
  - destruct (run_task_runs None n _ id resp Hp) as (fs & o & E & Ho); [apply Hh|].
    mrun. rewrite E by done. mrun. rewrite bool_decide_eq_true_2 by done. mrun. cbn [runs].
    apply Ho, (hinv_dispatching _ _ _ _ (u64 (dispatching c + 1))) in Hp.
    unfold upd, logged, set_streams, set_outbound in *. cbn in *. rewrite Hdel. exact Hp.
  - mrun. rewrite bool_decide_eq_true_2 by done. mrun. cbn [runs].
    apply (hinv_dispatching _ _ _ _ (u64 (dispatching c + 1))),
      (hinv_tasks site None n _ (tasks c ++ [(id, resp)])) in Hp.
    + unfold upd, logged, set_streams in *. cbn in *. rewrite Hdel. exact Hp.
    + apply Forall_app. split; [apply Hh|]. apply Forall_singleton. apply Hh.
Qed.

(** ** Frame handlers *)

Lemma MakeUint32_range b0 b1 b2 b3 : 0 <= MakeUint32 b0 b1 b2 b3 < 2 ^ 32.
Proof.
  rewrite MakeUint32_spec. pose proof (b2z_range b0). pose proof (b2z_range b1).
  pose proof (b2z_range b2). pose proof (b2z_range b3). lia.
Qed.

Lemma settings_loop_runs x n : forall k payload c, (length payload < k)%nat -> hinv site x n c ->
  runs (settings_loop payload c) (fun _ c' => hinv site x n c').
Proof.
  induction k as [|k IH]; intros payload c Hk Hh; [lia|].
  do 6 (destruct payload as [|? payload]; [done|]). cbn [length] in Hk. cbn [settings_loop].
  match goal with |- context [MakeUint32 ?a ?b ?c ?d] => pose proof (MakeUint32_range a b c d) as Hv;
    set (v := MakeUint32 a b c d) in * end.
  assert (IH' : forall c, hinv site x n c -> runs (settings_loop payload c) (fun _ c' => hinv site x n c'))
    by (intros; apply IH; [lia|done]).
  destruct (_ =? 1); [apply IH', hinv_header_table; [lia|done]|].
  destruct (_ =? 3); [by apply IH', hinv_concurrent|].
  destruct (_ =? 4).
  { destruct (Z.ltb_spec 0x7fffffff v); [done|]. apply IH', hinv_initial_window; [unfold kMaximumWindow; lia|done]. }
  destruct (_ =? 5).
  { destruct (_ || _) eqn:E; [done|]. rewrite orb_false_iff, !Z.ltb_ge in E.
    apply IH', hinv_maximum_frame; [lia|done]. }
  destruct (_ =? 6); [by apply IH', hinv_header_list|]. by apply IH'.
Qed.

Lemma HandleSettings_runs x n c header payload : hinv site x n c ->
  runs (HandleSettings header payload c) (fun _ c' => hinv site x n c').
Proof.
  intros Hh. unfold HandleSettings. destruct (negb _); [done|].
  destruct (has_flag _ _); [by destruct (negb _)|]. destruct (negb _); [done|].
  apply (runs_bind _ _ _ (fun _ c' => hinv site x n c')); [exact (hinv_received site x n c true Hh)|].
  intros [] c1 Hh1. 
  eapply runs_bind; [apply (settings_loop_runs x n (S (length payload))); [lia|done]|]. intros ok c2 Hh2. destruct ok; cbn [negb]; [|done].
  destruct (hi_remote _ _ _ _ Hh2) as (? & ? & ?).
  destruct (outbound_runs x (CApplyPeerSettings (remote_settings_initial_window_size_ (session c2))
    (remote_settings_maximum_frame_size_ (session c2)) (remote_settings_header_table_size_ (session c2))
    (visit_order (Http2Outbound.streams_ (outbound_ (session c2))))) n c2 Hh2) as (b & fs & o & E & Ho).
  { split; [lia|]. split; [lia|]. apply visit_order_spec. }
  specialize (E c2 eq_refl). specialize (Ho x c2 Hh2). mrun.
  change (outbound _ c2) with (outbound (call (CApplyPeerSettings (remote_settings_initial_window_size_ (session c2))
    (remote_settings_maximum_frame_size_ (session c2)) (remote_settings_header_table_size_ (session c2))
    (visit_order (Http2Outbound.streams_ (outbound_ (session c2)))))) c2).
  rewrite E. destruct b; cbn [negb]; [|done].
  exact (hinv_frames site x n _ [_] Ho).
Qed.

Lemma hinv_more x n m c : n <= m -> hinv site x n c -> hinv site x m c.
Proof.
  intros Hm []. split; try done; [lia|]. intros id t Ht. destruct (hi_streams0 id t Ht). split; try done. lia.
Qed.

(** An assignment to a stream. *)
Lemma hinv_alter x y n m c id f : n <= m -> hinv site x n c ->
  (forall t, streams_ (session c) !! id = Some t ->
     stream_inv (n - zlen (contents (receive_buffer_ (session c)))) (last_stream_id_ (session c))
       (initial_window_size (config_ (session c))) (maximum_request_body_size (config_ (session c)))
       (connection_id_ (session c)) id t ->
     stream_inv (m - zlen (contents (receive_buffer_ (session c)))) (last_stream_id_ (session c))
       (initial_window_size (config_ (session c))) (maximum_request_body_size (config_ (session c)))
       (connection_id_ (session c)) id (f t) /\
     (continuation_stream_id_ (session c) = Some id -> headers_complete_ (f t) = headers_complete_ t) /\
     (headers_complete_ (f t) = true -> end_stream_ (f t) = true -> y = Some id)) ->
  (x = y \/ x = Some id \/ x = None) ->
  hinv site y m (upd (fun s => set_streams (alter f id (streams_ s)) s) c).
Proof.
  intros Hm Hh Hf Hx. pose proof (hinv_more x n m c Hm Hh) as []. destruct Hh. split; try done; cbn.
  - intros id' t Ht. destruct (decide (id' = id)) as [->|Hne].
    + rewrite lookup_alter_eq in Ht. apply fmap_Some in Ht as (t0 & Ht0 & ->). by apply Hf, hi_streams1.
    + rewrite lookup_alter_ne in Ht by done. by apply hi_streams0.
  - by rewrite <- size_dom, dom_alter_L, size_dom.
  - intros id' t E Ht. destruct (decide (id' = id)) as [->|Hne].
    + rewrite lookup_alter_eq in Ht. apply fmap_Some in Ht as (t0 & Ht0 & ->).
      destruct (Hf t0 Ht0 (hi_streams1 id t0 Ht0)) as (_ & Hk & _). rewrite (Hk E). by apply (hi_cont0 id).
    + rewrite lookup_alter_ne in Ht by done. by apply (hi_cont0 id').
  - intros id' t Ht H1 H2. destruct (decide (id' = id)) as [->|Hne].
    + rewrite lookup_alter_eq in Ht. apply fmap_Some in Ht as (t0 & Ht0 & ->).
      by apply (Hf t0 Ht0 (hi_streams1 id t0 Ht0)).
    + rewrite lookup_alter_ne in Ht by done. pose proof (hi_live0 id' t Ht H1 H2) as E.
      destruct Hx as [<-|[Hx|Hx]]; congruence.
  - split; [tauto|]. eapply Forall_impl; [apply hi_posted0|]. intros e He.
    eapply posted_ok_mono; [done|lia|]. intros id' _ Hid. destruct (decide (id' = id)) as [->|Hne].
    + by rewrite lookup_alter_eq, Hid.
    + by rewrite lookup_alter_ne.
Qed.

(** Building a request from decoded headers. *)
Lemma set_request_target_ok v r : exists r', set_request_target v r = Ok r' /\
  request_id r' = request_id r /\ connection_id r' = connection_id r.
Proof.
  unfold set_request_target. destruct (Z.eqb_spec (str_find Byte.x3f v 0) npos); cbn [negb]; [eauto|].
  destruct (str_find_cases Byte.x3f v 0) as [[? _]|[Hr _]]; [lia|done|].
  unfold substr. rewrite (proj2 (Z.ltb_ge _ 0)), (proj2 (Z.ltb_ge _ (_ + 1))) by lia. cbn. eauto.
Qed.

Lemma assemble_headers_ok hs : forall a, exists o, assemble_headers hs a = Ok o /\
  forall a', o = Some a' -> request_id (as_request a') = request_id (as_request a) /\
    connection_id (as_request a') = connection_id (as_request a).
Proof.
  induction hs as [|h hs IH]; intros a; cbn [assemble_headers]; [by exists (Some a); split; [|intros ? [= <-]]|].
  assert (Hs : exists o, assemble_header h a = Ok o /\ forall a', o = Some a' ->
    request_id (as_request a') = request_id (as_request a) /\
    connection_id (as_request a') = connection_id (as_request a)).
  { unfold assemble_header. destruct (_ =? 0); [by eexists|]. destruct (_ && _); [by eexists|].
    case_decide; [destruct (has_method a); [by eexists|]|].
    { eexists. split; [done|]. by intros ? [= <-]. }
    case_decide; [destruct (has_path a); [by eexists|]|].
    { destruct (set_request_target_ok (value h) (as_request a)) as (r' & -> & ? & ?).
      eexists. split; [done|]. by intros ? [= <-]. }
    case_decide; [eexists; split; [done|]; by intros ? [= <-]|].
    case_decide; [eexists; split; [done|]; by intros ? [= <-]|].
    destruct (bool_decide _); [by eexists|]. destruct (existsb _ _); [by eexists|].
    eexists. split; [done|]. by intros ? [= <-]. }
  destruct Hs as (o & -> & Ho). cbn [mbind result_bind]. destruct o as [a1|]; [|by exists None].
  destruct (IH a1) as (o & E & Ho'). exists o. split; [done|]. intros a' Ha'.
  destruct (Ho' a' Ha'), (Ho a1 eq_refl). split; congruence.
Qed.

Lemma hinv_send x n c f : hinv site x n c -> hinv site x n (logged [SentFrame f] c).
Proof. apply (hinv_frames site x n c [f]). Qed.

Lemma compression_error_runs x n c id e : hinv site x n c -> e = runtime_error \/ e = UndefinedShift ->
  runs (compression_error id e c) (fun _ c' => hinv site x n c').
Proof.
  intros Hh He.
  assert (Hr : runs ((send (reset_frame id ErrorCode_CompressionError);;
                      CloseStream id;; mret FeedReady) c) (fun _ c' => hinv site x n c')).
  { apply (runs_bind _ _ _ (fun _ c' => hinv site x n c')); [exact (hinv_send x n c _ Hh)|].
    intros [] c1 Hh1. eapply runs_bind; [by apply CloseStream_runs|]. by intros [] c2. }
  by destruct He as [->| ->].
Qed.

Lemma decode_headers_runs n c id t : n < 2 ^ 56 ->
  hinv site None n c -> streams_ (session c) !! id = Some t -> headers_complete_ t = false ->
  continuation_stream_id_ (session c) = None ->
  runs (decode_headers id c) (fun _ c' => hinv site None n c').
Proof.
  intros Hn Hh Ht Hi Hc. pose proof (hi_streams _ _ _ _ Hh id t Ht) as Hst.
  unfold decode_headers. mrun. rewrite Ht.
  pose proof (Decode_safe (header_block_ t) (hpack_decoder_ (session c)) (hi_decoder _ _ _ _ Hh)) as Hd.
  assert (Hb : zlen (header_block_ t) < 2 ^ 56).
  { destruct Hst. pose proof (zlen_nonneg (contents (receive_buffer_ (session c)))). lia. }
  specialize (Hd Hb (hi_limit _ _ _ _ Hh)). destruct (Decode _ _) as [r d]. destruct Hd as (Hd & Ho & Hr).
  pose proof (hinv_decoder site None n c d Hd Ho Hh) as Hh1.
  change (mkContext (set_decoder d (session c)) (log c) (tasks c) (dispatching c)) with (upd (set_decoder d) c).
  destruct r as [hs|e].
  2:{ by apply compression_error_runs. }
  destruct (assemble_headers_ok hs (mkAssembly (new_request (connection_id_ (session c)) id) false false false))
    as (o & -> & Ha). destruct o as [a|]; [|done]. destruct (Ha a eq_refl) as [Hid Hcn]. cbn in Hid, Hcn.
  destruct (_ || _).
  { eapply runs_bind; [by apply CloseStream_runs|]. by intros [] c1. }
  set (f := fun u => SetState (if end_stream_ t then HalfClosedRemote else Open)
                       (SetHeadersComplete (SetRequest (as_request a) u))).
  set (c1 := upd (fun s => set_streams (alter f id (streams_ s)) s) (upd (set_decoder d) c)).
  assert (Hh2 : forall y, (end_stream_ t = true -> y = Some id) -> hinv site y n c1).
  { intros y Hy. apply (hinv_alter None y n n); [lia|done| |by right; right].
    intros t' Ht' _. cbn in Ht'. rewrite Ht in Ht'. injection Ht' as <-. destruct Hst. split; [|split; [cbn; congruence|done]].
    split; try done. cbn. by destruct (end_stream_ t). }
  assert (Ht1 : streams_ (session c1) !! id = Some (f t)) by (cbn; by rewrite lookup_alter_eq, Ht).
  match goal with |- runs (_ ?ctx) _ => assert (E : ctx = c1) end.
  { unfold c1, upd. cbn. by rewrite !alter_alter_eq. }
  rewrite E. clear E. destruct (end_stream_ t) eqn:Ee.
  - apply (DispatchRequest_runs n c1 id (f t)); try done. by apply Hh2.
  - cbn [runs]. by apply Hh2.
Qed.

Definition new_stream (id : Z) (s : H2Session) : H2Stream :=
  SetState Open (H2Stream_make id (initial_window_size (config_ s))).

Lemma hinv_new_stream n c id :
  hinv site None n c -> id mod 2 = 1 -> last_stream_id_ (session c) < id ->
  Z.of_nat (size (streams_ (session c))) < maximum_concurrent_streams (config_ (session c)) ->
  hinv site None n (upd (fun s => set_last_stream_id id (set_outbound (OpenStream id (outbound_ s))
    (set_streams (<[id := new_stream id s]> (streams_ s)) s))) c).
Proof.
  intros [] Ho Hl Hs. destruct hi_out0 as (cd & Hsc).
  destruct (open_done cd id _ Hsc) as (b & fs & o & cd' & [E Hs' _ _ _ _ _]). cbn in E. injection E as _ _ E.
  assert (Hnone : streams_ (session c) !! id = None).
  { destruct (streams_ (session c) !! id) as [t|] eqn:Et; [|done]. destruct (hi_streams0 id t Et). lia. }
  split; try done; cbn; [lia| | | | | |].
  - intros id' t Ht. destruct (decide (id' = id)) as [->|Hne].
    + rewrite lookup_insert_eq in Ht. injection Ht as <-. destruct hi_config0. split; cbn; rewrite ?zlen_nil; try done; try lia.
    + rewrite lookup_insert_ne in Ht by done. destruct (hi_streams0 id' t Ht). split; try done. lia.
  - rewrite map_size_insert_None by done. lia.
  - intros id' t E' Ht. destruct (decide (id' = id)) as [->|Hne].
    + rewrite lookup_insert_eq in Ht. by injection Ht as <-.
    + rewrite lookup_insert_ne in Ht by done. by eapply hi_cont0.
  - intros id' t Ht H1 H2. destruct (decide (id' = id)) as [->|Hne].
    + rewrite lookup_insert_eq in Ht. by injection Ht as <-.
    + rewrite lookup_insert_ne in Ht by done. by eapply hi_live0.
  - exists cd'. by rewrite E.
  - split; [tauto|]. eapply Forall_impl; [apply hi_posted0|]. intros e He.
    eapply posted_ok_mono; [done|lia|]. intros id' Hid' Hn'. rewrite lookup_insert_ne; [done|]. lia.
Qed.

(** The stream that a HEADERS or CONTINUATION frame belongs to. *)
Lemma headers_stream_runs n c header continuation :
  hinv site None n c -> 
  runs (headers_stream header continuation c) (fun r c' => hinv site None n c' /\
    match r with
    | None => True
    | Some id => id = fh_stream_id header /\
        exists t, streams_ (session c') !! id = Some t /\ headers_complete_ t = false
    end).
Proof.
  intros Hh. unfold headers_stream. mrun. destruct continuation.
  - destruct (bool_decide _ && _) eqn:E; [|done]. apply andb_true_iff in E as [E1 E2].
    apply bool_decide_eq_true in E1, E2. destruct E2 as [t Ht].
    split; [done|]. split; [done|]. exists t. split; [done|]. by eapply hi_cont.
  - destruct (_ || _) eqn:E; [done|]. rewrite !orb_false_iff, negb_false_iff, Z.eqb_eq, Z.leb_gt in E.
    destruct E as [[E1 E2] E3]. apply bool_decide_eq_false in E3. apply eq_None_not_Some in E3.
    unfold GetOrCreateStream. mrun. rewrite E3. cbn [negb].
    destruct (Z.leb_spec (maximum_concurrent_streams (config_ (session c))) (Z.of_nat (size (streams_ (session c)))));
      [done|]. cbn [runs].
    split; [exact (hinv_new_stream n c _ Hh E1 E2 H1)|]. split; [done|].
    exists (new_stream (fh_stream_id header) (session c)). split; [apply lookup_insert_eq|done].
Qed.

(** Where the header block of a frame is. *)
Lemma headers_padding_ok header continuation payload : zlen payload = fh_length header ->
  match headers_padding header continuation payload with
  | Ok (Some (off, pad)) => 0 <= off /\ 0 <= pad /\ off + pad <= fh_length header
  | Ok None => True
  | Throw _ => False
  end.
Proof.
  intros Hl. unfold headers_padding.
  assert (Hp : forall o p, 0 <= o -> 0 <= p ->
    let o := if negb continuation && has_flag header FrameFlags_Priority then o + 5 else o in
    match (if (fh_length header <? o) || (fh_length header - o <? p) then Ok None else Ok (Some (o, p)))
      : result (option (Z * Z)) with
    | Ok (Some (off, pad)) => 0 <= off /\ 0 <= pad /\ off + pad <= fh_length header
    | Ok None => True
    | Throw _ => False
    end).
  { intros o p Ho Hpp o'. assert (0 <= o') by (unfold o'; destruct (_ && _); lia).
    destruct (_ || _) eqn:E; [done|]. rewrite orb_false_iff, !Z.ltb_ge in E. lia. }
  destruct (negb continuation && has_flag header FrameFlags_Padded).
  - destruct (Z.eqb_spec (fh_length header) 0); [exact I|].
    destruct payload as [|b payload]; [rewrite zlen_nil in Hl; lia|].
    cbn. pose proof (b2z_range b). apply Hp; lia.
  - cbn. apply Hp; lia.
Qed.

Lemma HandleHeaders_runs n c header payload :
  n < 2 ^ 56 -> zlen payload = fh_length header -> hinv site None (n - zlen payload) c ->
  runs (HandleHeaders header payload c) (fun _ c' => hinv site None n c').
Proof.
  intros Hn Hl Hh. pose proof (zlen_nonneg payload).
  pose proof (hinv_more None (n - zlen payload) n c ltac:(lia) Hh) as Hh'.
  unfold HandleHeaders. destruct (_ =? 0); [done|].
  eapply runs_bind; [by apply (headers_stream_runs (n - zlen payload))|]. intros found c1 [Hh1 Hf].
  destruct found as [id|]; [|apply (hinv_more None (n - zlen payload) n); [lia|done]].
  destruct Hf as (-> & t & Ht & Hi). set (id := fh_stream_id header) in *.
  apply runs_get. unfold Datatypes.id. rewrite Ht. cbn [fmap option_fmap option_map].
  rewrite bool_decide_eq_false_2 by (destruct (hi_streams _ _ _ _ Hh1 id t Ht); congruence).
  apply runs_lift.
  pose proof (headers_padding_ok header (fh_type header =? FrameType_Continuation) payload Hl) as Hp.
  destruct (headers_padding _ _ _) as [[[off pad]|]|]; [| |done].
  2:{ apply (hinv_more None (n - zlen payload) n); [lia|done]. }
  set (size := fh_length header - off - pad).
  set (good := fun c' => hinv site None n c' /\
    exists t, streams_ (session c') !! id = Some t /\ headers_complete_ t = false).
  apply (runs_bind _ _ _ (fun _ => good)).
  { assert (Hz : zlen (zslice off size payload) <= zlen payload) by (rewrite zlen_zslice; lia).
    destruct (negb _); [|split; [apply (hinv_more None (n - zlen payload) n); [lia|done]|eauto]].
    split; [|eexists; cbn; rewrite lookup_alter_eq, Ht; split; [done|]; unfold AppendHeaderFragment; by destruct (_ =? 0)].
    apply (hinv_alter None None (n - zlen payload) n); [lia|done| |by left].
    intros u Hu []. rewrite Ht in Hu. injection Hu as <-. unfold AppendHeaderFragment.
    destruct (_ =? 0); (split; [split; try done; cbn; rewrite ?zlen_app; lia|]); (split; [done|cbn; congruence]). }
  intros [] c2 [Hh2 (t2 & Ht2 & Hi2)]. apply (runs_bind _ _ _ (fun _ => good)).
  { destruct (_ && _); [|split; eauto].
    split; [|eexists; cbn; rewrite lookup_alter_eq, Ht2; split; done].
    apply (hinv_alter None None n n); [lia|done| |by left].
    intros u Hu []. rewrite Ht2 in Hu. injection Hu as <-. split; [by split|]. split; [done|cbn; congruence]. }
  intros [] c3 [Hh3 (t3 & Ht3 & Hi3)]. destruct (negb _).
  - cbn. destruct Hh3. split; try done. cbn. intros id' u [= <-] Hu. fold id in Hu. congruence.
  - apply runs_modify, runs_get. cbn [upd session set_continuation streams_ Datatypes.id]. unfold Datatypes.id.
    cbn [set_continuation streams_]. rewrite Ht3. cbn [fmap option_fmap option_map]. rewrite Hi3, bool_decide_eq_false_2 by done.
    apply (decode_headers_runs n _ id t3); try done. by apply hinv_no_continuation.
Qed.

Lemma data_padding_ok header payload : zlen payload = fh_length header ->
  match data_padding header payload with
  | Ok (Some (off, pad)) => 0 <= off /\ 0 <= pad /\ off + pad <= fh_length header
  | Ok None => True
  | Throw _ => False
  end.
Proof.
  intros Hl. unfold data_padding.
  assert (Hp : forall o p, 0 <= o -> 0 <= p ->
    match (if fh_length header - o <? p then Ok None else Ok (Some (o, p))) : result (option (Z * Z)) with
    | Ok (Some (off, pad)) => 0 <= off /\ 0 <= pad /\ off + pad <= fh_length header
    | Ok None => True
    | Throw _ => False
    end).
  { intros o p Ho Hpp. destruct (Z.ltb_spec (fh_length header - o) p); [done|lia]. }
  destruct (has_flag _ _).
  - destruct (Z.eqb_spec (fh_length header) 0); [exact I|].
    destruct payload as [|b payload]; [rewrite zlen_nil in Hl; lia|].
    cbn. pose proof (b2z_range b). apply Hp; lia.
  - cbn. apply Hp; lia.
Qed.

(** A window of at most [iw] after it was refilled, and the frame that says so. *)
Definition refill (iw w : Z) : Z := if w <? iw / 2 then iw else w.

Definition grant (id iw w : Z) : list Event :=
  if w <? iw / 2 then [SentFrame (window_update_frame id (iw - w))] else [].

Lemma refill_range iw w : 0 <= w <= iw -> iw / 2 <= refill iw w <= iw.
Proof. intros Hw. unfold refill. destruct (Z.ltb_spec w (iw / 2)); Z.div_mod_to_equations; lia. Qed.

(** The stream after the data of a frame was added to it. *)
Definition data_stream (iw flow : Z) (data : list byte) (end_stream : bool) (t : H2Stream) : H2Stream :=
  mkH2Stream (stream_id_ t) (if end_stream then HalfClosedRemote else stream_state_ t)
    (refill iw (recv_window_ t - flow)) (send_window_ t) (header_block_ t) (body_ t ++ data)
    (end_stream_ t || end_stream) (headers_complete_ t) (dispatched_ t) (request_ t).

Lemma accept_data_spec id flow data e t c :
  let iw := initial_window_size (config_ (session c)) in
  let w := connection_recv_window_ (session c) in
  0 <= iw < 2 ^ 32 -> streams_ (session c) !! id = Some t ->
  0 <= flow <= recv_window_ t -> recv_window_ t <= iw -> flow <= w <= iw ->
  accept_data id flow data e c =
  Ok (tt, logged (grant 0 iw (w - flow) ++ grant id iw (recv_window_ t - flow))
            (upd (fun s => set_recv_window (refill iw (w - flow))
               (set_streams (<[id := data_stream iw flow data e t]> (streams_ s)) s)) c)).
Proof.
  intros iw w Hiw Ht Hf Hr Hw. unfold accept_data.
  assert (Hwin : u32 (w - flow) = w - flow) by (apply u32_small; lia).
  assert (Hinc : u32 (iw - (w - flow)) = iw - (w - flow)) by (apply u32_small; lia).
  assert (Hinc' : u32 (iw - (recv_window_ t - flow)) = iw - (recv_window_ t - flow)) by (apply u32_small; lia).
  assert (Hsum : u32 (recv_window_ t - flow + (iw - (recv_window_ t - flow))) = iw).
  { replace (recv_window_ t - flow + (iw - (recv_window_ t - flow))) with iw by lia. apply u32_small. lia. }
  set (m := streams_ (session c)).
  set (ctx := fun u v l => mkContext (set_recv_window v (set_streams (<[id := u]> m) (session c))) l
                             (tasks c) (dispatching c)).
  assert (Hon : forall f u v l, on_stream id f (ctx u v l) = Ok (tt, ctx (f u) v l)).
  { intros f u v l. mrun. unfold ctx, set_recv_window, set_streams. cbn. by rewrite alter_insert_eq, ?insert_insert_eq. }
  assert (Hon0 : on_stream id (ConsumeRecvWindow flow) c =
    Ok (tt, ctx (set_stream_recv_window (recv_window_ t - flow) t) w (log c))).
  { assert (Ha : alter (ConsumeRecvWindow flow) id m = <[id := set_stream_recv_window (recv_window_ t - flow) t]> m).
    { apply map_eq. intros i. destruct (decide (i = id)) as [->|Hne].
      - rewrite lookup_alter_eq, lookup_insert_eq. unfold m. rewrite Ht. cbn. unfold ConsumeRecvWindow.
        by rewrite (proj2 (Z.leb_le _ _)) by lia.
      - by rewrite lookup_alter_ne, lookup_insert_ne. }
    mrun. unfold ctx, set_recv_window, set_streams. cbn. fold m. by rewrite Ha. }
  eapply bind_step; [apply Hon0|].
  eapply (bind_step _ _ _ tt (ctx (set_stream_recv_window (recv_window_ t - flow) t) (w - flow) (log c)));
    [mrun; unfold ctx; cbn; by rewrite Hwin|].
  set (t1 := set_stream_recv_window (recv_window_ t - flow) t).
  set (t2 := AppendData data t1).
  eapply (bind_step _ _ _ tt (ctx t2 (w - flow) (log c))).
  { unfold t2. destruct (zlen data =? 0) eqn:E; cbn [negb]; [unfold AppendData; by rewrite E|]. apply Hon. }
  set (t3 := if e then SetState HalfClosedRemote (SetEndStream t2) else t2).
  eapply (bind_step _ _ _ tt (ctx t3 (w - flow) (log c))); [by destruct e; [rewrite Hon|]|].
  eapply (bind_step _ _ _ tt (ctx t3 (refill iw (w - flow)) (log c ++ grant 0 iw (w - flow)))).
  { unfold update_connection_window. mrun. unfold ctx, refill, grant. cbn. fold iw.
    destruct (_ <? _); [by rewrite Hinc|by rewrite app_nil_r]. }
  assert (Hr3 : recv_window_ t3 = recv_window_ t - flow).
  { unfold t3, t2, AppendData, t1. destruct e, (_ =? 0); done. }
  assert (Hd : data_stream iw flow data e t = set_stream_recv_window (refill iw (recv_window_ t - flow)) t3).
  { unfold data_stream, t3, t2, AppendData, t1. destruct e, (Z.eqb_spec (zlen data) 0) as [E|E]; cbn;
      try (apply zlen_0 in E as ->); rewrite ?app_nil_r, ?orb_true_r, ?orb_false_r; done. }
  rewrite Hd. unfold update_stream_window. eapply bind_step; [reflexivity|].
  unfold Datatypes.id, ctx at 1. cbn [session set_recv_window set_streams streams_].
  rewrite lookup_insert_eq, Hr3. change (initial_window_size _) with iw.
  assert (Hrf : refill iw (recv_window_ t - flow) =
    if recv_window_ t - flow <? iw / 2 then iw else recv_window_ t - flow) by done.
  assert (Hgr : grant id iw (recv_window_ t - flow) =
    if recv_window_ t - flow <? iw / 2
    then [SentFrame (window_update_frame id (iw - (recv_window_ t - flow)))] else []) by done.
  rewrite Hrf, Hgr. clear Hrf Hgr. destruct (recv_window_ t - flow <? iw / 2).
  - eapply bind_step; [apply Hon|]. unfold AddRecvWindow. rewrite Hr3, Hinc', Hsum.
    unfold ctx, logged, upd. mrun. by rewrite <- app_assoc.
  - rewrite app_nil_r, <- Hr3. by destruct t3.
Qed.

Lemma grant_frames id iw w : exists fs, grant id iw w = map SentFrame fs.
Proof. unfold grant. destruct (_ <? _); [by exists [window_update_frame id (iw - w)]|by exists []]. Qed.

Lemma alter_const (m : gmap Z H2Stream) id t u : m !! id = Some t ->
  alter (fun _ => u) id m = <[id := u]> m.
Proof.
  intros Ht. apply map_eq. intros i. destruct (decide (i = id)) as [->|Hne].
  - by rewrite lookup_alter_eq, lookup_insert_eq, Ht.
  - by rewrite lookup_alter_ne, lookup_insert_ne.
Qed.

(** A DATA frame within the windows and the limit on a body. *)
Lemma hinv_data n c id flow data (e : bool) t :
  let iw := initial_window_size (config_ (session c)) in
  let w := connection_recv_window_ (session c) in
  hinv site None n c -> streams_ (session c) !! id = Some t ->
  end_stream_ t = false ->
  zlen data <= flow <= recv_window_ t -> flow <= w ->
  zlen data + zlen (body_ t) <= maximum_request_body_size (config_ (session c)) ->
  hinv site (if e then Some id else None) n
    (logged (grant 0 iw (w - flow) ++ grant id iw (recv_window_ t - flow))
       (upd (fun s => set_recv_window (refill iw (w - flow))
          (set_streams (<[id := data_stream iw flow data e t]> (streams_ s)) s)) c)).
Proof.
  intros iw w Hh Ht He Hf Hw Hb. pose proof (zlen_nonneg data).
  pose proof (hi_streams _ _ _ _ Hh id t Ht) as Hs. pose proof (hi_window _ _ _ _ Hh) as Hwi. fold iw w in Hwi.
  assert (Hh1 : hinv site (if e then Some id else None) n
    (upd (fun s => set_streams (alter (fun _ => data_stream iw flow data e t) id (streams_ s)) s) c)).
  { apply (hinv_alter None _ n n); [lia|done| |tauto]. intros t' Ht' _. rewrite Ht in Ht'. injection Ht' as <-.
    destruct Hs. split; [|split; [done|]].
    - split; try done; cbn; [apply refill_range; fold iw in sv_window0; lia|rewrite zlen_app; lia|by destruct e].
    - cbn. rewrite He. by destruct e. }
  apply (hinv_recv_window site _ n _ (refill iw (w - flow))) in Hh1; [|cbn; fold iw; apply refill_range; lia].
  destruct (grant_frames 0 iw (w - flow)) as [f1 ->], (grant_frames id iw (recv_window_ t - flow)) as [f2 ->].
  rewrite <- map_app. apply hinv_frames. unfold upd in *. cbn in Hh1. by rewrite (alter_const _ id t) in Hh1.
Qed.

Lemma HandleData_runs n c header payload :
  zlen payload = fh_length header -> hinv site None n c ->
  runs (HandleData header payload c) (fun _ c' => hinv site None n c').
Proof.
  intros Hl Hh. unfold HandleData. destruct (_ =? 0); [done|]. set (id := fh_stream_id header).
  unfold GetOrCreateStream. mrun. destruct (streams_ (session c) !! id) as [t|] eqn:Ht; [|done].
  cbn [option_bind]. rewrite Ht. destruct (_ || _ || _) eqn:E; [done|]. rewrite !orb_false_iff, negb_false_iff in E.
  destruct E as [[E1 E2] _]. pose proof (data_padding_ok header payload Hl) as Hp.
  destruct (data_padding _ _) as [[[off pad]|]|]; [|done|done].
  assert (Hclose : forall r : ProtocolFeedStatus, runs ((CloseStream id;; mret r) c) (fun _ c' => hinv site None n c')).
  { intros r. eapply runs_bind; [by apply CloseStream_runs|]. by intros [] c2. }
  destruct ((recv_window_ t <? _) || _) eqn:Ew; [apply Hclose|].
  destruct ((_ <? _) || (_ <? zlen _)) eqn:El; [apply Hclose|].
  rewrite !orb_false_iff, !Z.ltb_ge in Ew, El.
  set (data := zslice off (fh_length header - off - pad) payload).
  assert (Hd : zlen data = fh_length header - off - pad) by (unfold data; rewrite zlen_zslice; lia).
  pose proof (hi_streams _ _ _ _ Hh id t Ht) as []. pose proof (hi_window _ _ _ _ Hh).
  pose proof (cf_window _ (hi_config _ _ _ _ Hh)) as Hcw. unfold kMaximumWindow in Hcw.
  rewrite (accept_data_spec id (fh_length header) data _ t c) by (done || lia).
  pose proof (hinv_data n c id (fh_length header) data (has_flag header FrameFlags_EndStream) t Hh Ht E2
    ltac:(lia) ltac:(lia) ltac:(lia)) as Hh1.
  destruct (has_flag _ _); [|done].
  eapply (DispatchRequest_runs n _ id); [exact Hh1|cbn; apply lookup_insert_eq|done|].
  cbn. by rewrite orb_true_r.
Qed.

Lemma HandleRstStream_runs n c header payload : hinv site None n c ->
  runs (HandleRstStream header payload c) (fun _ c' => hinv site None n c').
Proof.
  intros Hh. unfold HandleRstStream. destruct (_ || _); [done|].
  eapply runs_bind; [by apply CloseStream_runs|]. by intros [] c2.
Qed.

Lemma HandleWindowUpdate_runs n c header payload : zlen payload = fh_length header -> hinv site None n c ->
  runs (HandleWindowUpdate header payload c) (fun _ c' => hinv site None n c').
Proof.
  intros Hl Hh. unfold HandleWindowUpdate. destruct (Z.eqb_spec (fh_length header) 4) as [E|]; cbn [negb]; [|done].
  do 5 (destruct payload as [|? payload]; [try (rewrite ?zlen_cons, zlen_nil in Hl; lia)|]).
  2:{ rewrite !zlen_cons in Hl. pose proof (zlen_nonneg payload). lia. }
  apply runs_lift.
  change (window_increment _) with (Ok (MakeUint32 (z2b (Z.land (b2z b) 0x7f)) b0 b1 b2)). cbv iota.
  match goal with |- context [MakeUint32 ?a ?b ?c ?d] => pose proof (MakeUint32_range a b c d) as Hv;
    set (v := MakeUint32 a b c d) in * end.
  destruct (_ =? 0); [done|]. destruct (_ =? 0).
  - destruct (outbound_runs None (CUpdateConnectionWindow v
      (visit_order (Http2Outbound.streams_ (outbound_ (session c))))) n c Hh) as (bb & fs & o & Ec & Ho).
    { split; [lia|]. apply visit_order_spec. }
    apply (runs_bind _ _ _ (fun _ c' => hinv site None n c')); [|by intros].
    change (outbound _ c) with (outbound (call (CUpdateConnectionWindow v
      (visit_order (Http2Outbound.streams_ (outbound_ (session c)))))) c).
    rewrite (Ec c eq_refl). by apply Ho.
  - destruct (outbound_runs None (CUpdateStreamWindow (fh_stream_id header) v) n c Hh) as (bb & fs & o & Ec & Ho);
      [cbn; lia|].
    apply (runs_bind _ _ _ (fun _ c' => hinv site None n c')); [|by intros].
    change (outbound _ c) with (outbound (call (CUpdateStreamWindow (fh_stream_id header) v)) c).
    rewrite (Ec c eq_refl). by apply Ho.
Qed.

Lemma HandlePing_runs x n c header payload : hinv site x n c ->
  runs (HandlePing header payload c) (fun _ c' => hinv site x n c').
Proof.
  intros Hh. unfold HandlePing. destruct (_ || _); [done|]. destruct (has_flag _ _); [done|].
  exact (hinv_send x n c _ Hh).
Qed.

Lemma HandleGoaway_runs x n c header payload : hinv site x n c ->
  runs (HandleGoaway header payload c) (fun _ c' => hinv site x n c').
Proof.
  intros Hh. unfold HandleGoaway. destruct (_ || _); [done|]. exact (hinv_state site x n c Closing Hh).
Qed.

(** ** A frame *)

Lemma handle_frame_runs n c header payload : n < 2 ^ 56 ->
  zlen payload = fh_length header -> hinv site None (n - zlen payload) c ->
  runs (handle_frame header payload c) (fun _ c' => hinv site None n c').
Proof.
  intros Hn Hl Hh. pose proof (zlen_nonneg payload).
  pose proof (hinv_more None (n - zlen payload) n c ltac:(lia) Hh) as Hh'.
  unfold handle_frame. destruct (_ =? _); [by apply HandleSettings_runs|].
  destruct (_ || _); [by apply HandleHeaders_runs|].
  destruct (_ =? _); [by apply HandleData_runs|]. destruct (_ =? _); [by apply HandleRstStream_runs|].
  destruct (_ =? _); [by apply HandleWindowUpdate_runs|]. destruct (_ =? _); [by apply HandlePing_runs|].
  destruct (_ =? _); [by apply HandleGoaway_runs|]. destruct (_ =? _); [by destruct (_ || _)|].
  by destruct (_ =? _).
Qed.

Lemma accept_frame_runs n c header payload : n < 2 ^ 56 ->
  zlen payload = fh_length header -> hinv site None (n - zlen payload) c ->
  runs (accept_frame header payload c) (fun _ c' => hinv site None n c').
Proof.
  intros Hn Hl Hh. pose proof (zlen_nonneg payload).
  pose proof (hinv_more None (n - zlen payload) n c ltac:(lia) Hh) as Hh'.
  pose proof (hinv_state site None n c Closing Hh') as Hs.
  unfold accept_frame. apply runs_get. unfold Datatypes.id. destruct (_ && _); [exact Hs|].
  destruct (continuation_stream_id_ (session c)) as [id|] eqn:Ec; [|by apply handle_frame_runs].
  destruct (Z.eqb_spec (fh_type header) FrameType_Continuation) as [Et|]; cbn [negb orb]; [|exact Hs].
  destruct (negb _); [exact Hs|]. by apply handle_frame_runs.
Qed.

(** ** The receive buffer *)

(** The frame handlers leave the receive buffer alone. *)
Definition keeps_buffer {A} (m : M A) : Prop :=
  forall c a c', m c = Ok (a, c') -> receive_buffer_ (session c') = receive_buffer_ (session c).

Lemma keeps_mret {A} (a : A) : keeps_buffer (mret a).
Proof. by intros c a' c' [= <- <-]. Qed.

Lemma keeps_bind {A B} (m : M A) (f : A -> M B) :
  keeps_buffer m -> (forall a, keeps_buffer (f a)) -> keeps_buffer (m ≫= f).
Proof.
  intros Hm Hf c a c' E. unfold mbind, M_bind in E. destruct (m c) as [[a1 c1]|] eqn:E1; [|done].
  rewrite (Hf _ _ _ _ E). by eapply Hm.
Qed.

Lemma keeps_get {A} (g : H2Session -> A) : keeps_buffer (get g).
Proof. by intros c a' c' [= <- <-]. Qed.

Lemma keeps_ask : keeps_buffer ask.
Proof. by intros c a' c' [= <- <-]. Qed.

Lemma keeps_modify g : (forall s, receive_buffer_ (g s) = receive_buffer_ s) -> keeps_buffer (modify g).
Proof. intros Hg c a' c' [= <- <-]. apply Hg. Qed.

Lemma keeps_put g : (forall c, receive_buffer_ (session (g c)) = receive_buffer_ (session c)) ->
  keeps_buffer (put g).
Proof. intros Hg c a' c' [= <- <-]. apply Hg. Qed.

Lemma keeps_lift {A} (r : result A) : keeps_buffer (lift r).
Proof. intros c a' c'. unfold lift. destruct r; cbn; [by intros [= <- <-]|done]. Qed.

Lemma keeps_outbound {A} (f : _ -> result (A * _ * _)) : keeps_buffer (outbound f).
Proof.
  intros c a' c'. unfold outbound. destruct (f _) as [[[a fs] o]|]; cbn; [by intros [= <- <-]|done].
Qed.

Ltac keeps :=
  repeat match goal with
  | |- keeps_buffer (_ ≫= _) => apply keeps_bind; [|intros ?]
  | |- keeps_buffer (mret _) => apply keeps_mret
  | |- keeps_buffer (get _) => apply keeps_get
  | |- keeps_buffer ask => apply keeps_ask
  | |- keeps_buffer (modify _) => by apply keeps_modify
  | |- keeps_buffer (put _) => by apply keeps_put
  | |- keeps_buffer (send _) => by apply keeps_put
  | |- keeps_buffer (on_stream _ _) => by apply keeps_modify
  | |- keeps_buffer (lift _) => apply keeps_lift
  | |- keeps_buffer (outbound _) => apply keeps_outbound
  | |- keeps_buffer (if ?b then _ else _) => destruct b
  | |- keeps_buffer (match ?b with _ => _ end) => destruct b
  | |- keeps_buffer (let _ := _ in _) => cbv zeta
  end.

Lemma keeps_close id : keeps_buffer (CloseStream id).
Proof. unfold CloseStream. keeps. Qed.

Lemma keeps_dispatch id : keeps_buffer (DispatchRequest id).
Proof. unfold DispatchRequest, dispatch, run_task, CloseStream. keeps. Qed.

Lemma keeps_settings_loop k : forall payload, (length payload < k)%nat -> keeps_buffer (settings_loop payload).
Proof.
  induction k as [|k IH]; intros payload Hk; [lia|].
  do 6 (destruct payload as [|? payload]; [apply keeps_mret|]). cbn [length] in Hk.
  cbn [settings_loop]. keeps; apply IH; lia.
Qed.

Lemma keeps_settings header payload : keeps_buffer (HandleSettings header payload).
Proof.
  unfold HandleSettings. keeps. eapply keeps_settings_loop. apply Nat.lt_succ_diag_r.
Qed.

Lemma keeps_headers header payload : keeps_buffer (HandleHeaders header payload).
Proof.
  unfold HandleHeaders, headers_stream, GetOrCreateStream, decode_headers, compression_error, CloseStream.
  keeps; apply keeps_dispatch.
Qed.

Lemma keeps_data header payload : keeps_buffer (HandleData header payload).
Proof.
  unfold HandleData, GetOrCreateStream, accept_data, update_connection_window, update_stream_window, CloseStream.
  keeps; apply keeps_dispatch.
Qed.

Lemma keeps_accept_frame header payload : keeps_buffer (accept_frame header payload).
Proof.
  unfold accept_frame, handle_frame, HandleRstStream, HandleWindowUpdate, HandlePing, HandleGoaway, CloseStream.
  keeps; first [apply keeps_settings|apply keeps_headers|apply keeps_data].
Qed.
End run.
