(* ===== verification/Http2SessionFeed.v ===== *)
(** * Reads of an HTTP/2 session

    The preface, the loop over the frames of the receive buffer, and the
    histories of a session: every read terminates and keeps the invariant, and
    a session that was closed stays silent. *)

From S2P Require Import Prelude BufferSequence ReceiveBuffer RingReceiveBuffer HttpMessage.
From S2P Require Import ProtocolSession HttpRouter Huffman Hpack HpackTheory Http2Frames Http2Outbound.
From S2P Require Import Http2OutboundTheory Http2Session Http2SessionTheory.

Section feed.
Context `{World} `{!WorldLaws} (site : Site).

(** ** The buffer *)

Lemma hinv_readable x n c : hinv site x n c -> exists s,
  RingReceiveBuffer.ReadableSequence (receive_buffer_ (session c)) = Ok s /\ seq_ok s /\
  seq_bytes s = contents (receive_buffer_ (session c)) /\
  seq_size s = zlen (contents (receive_buffer_ (session c))).
Proof.
  intros Hh. destruct (ReadableSequence_spec _ (hi_ring _ _ _ _ Hh)) as (s & E & Hs & Hb).
  exists s. split_and!; try done. by rewrite seq_size_spec, Hb.
Qed.

Lemma hinv_consume x n c k : hinv site x n c ->
  0 <= k <= zlen (contents (receive_buffer_ (session c))) ->
  exists b, RingReceiveBuffer.Consume (receive_buffer_ (session c)) k = Ok b /\
    zlen (contents b) = zlen (contents (receive_buffer_ (session c))) - k /\
    hinv site x (n - k) (upd (set_buffer b) c).
Proof.
  intros Hh Hk. destruct (ring_Consume_spec _ k (hi_ring _ _ _ _ Hh)) as [Hc _]; [lia|].
  destruct Hc as (b & E & Hb & Hbc & _); [lia|]. exists b. split; [done|].
  assert (Hz : zlen (contents b) = zlen (contents (receive_buffer_ (session c))) - k)
    by (rewrite Hbc, zlen_zdrop; lia).
  split; [done|]. apply (hinv_buffer site x n); [done|lia|done].
Qed.

Lemma DecodeHeader_length s : seq_ok s -> kHeaderSize <= zlen (seq_bytes s) < 2 ^ 64 ->
  exists h, DecodeHeader s = Ok (Some h) /\ 0 <= fh_length h.
Proof.
  intros Hs Hl. remember (seq_bytes s) as l eqn:E. unfold kHeaderSize in Hl.
  do 9 (destruct l as [|? l]; [rewrite ?zlen_cons, zlen_nil in Hl; lia|]).
  rewrite (DecodeHeader_spec s b b0 b1 b2 b3 b4 b5 b6 b7 l); [|done|rewrite <- E; lia|done].
  eexists. split; [done|]. cbn. apply MakeUint32_range.
Qed.

(** ** The connection preface *)

Lemma match_preface_ok readable compared : seq_ok readable -> compared <= zlen (seq_bytes readable) ->
  forall p index, 0 <= index -> exists b, match_preface p readable index compared = Ok b.
Proof.
  intros Hs Hc. induction p as [|x p IH]; intros index Hi; cbn [match_preface]; [by eexists|].
  destruct (Z.ltb_spec index compared); [|by eexists]. rewrite (At_spec _ _ Hs Hi).
  destruct (znth_is_Some (seq_bytes readable) index) as [b ->]; [lia|].
  cbn. case_decide; [|by eexists]. apply IH. lia.
Qed.

Lemma SendSettings_runs x n c : hinv site x n c ->
  runs (SendSettings c) (fun _ c' => hinv site x n c' /\ session c' = session c).
Proof. intros Hh. split; [|done]. exact (hinv_send site x n c _ Hh). Qed.

(** The result of a part of an iteration: the invariant, and fewer bytes in the
    buffer when it took some. *)
Definition consumes (n : Z) (c : context) (r : ProtocolFeedStatus * bool) (c' : context) : Prop :=
  hinv site None n c' /\
  zlen (contents (receive_buffer_ (session c'))) + Z.b2z r.2 <= zlen (contents (receive_buffer_ (session c))).

Lemma ConsumePreface_runs n c : hinv site None n c ->
  runs (ConsumePreface c) (fun r c' => consumes n c r c' /\ (r.2 = true -> state_ (session c') = Connected)).
Proof.
  intros Hh. unfold ConsumePreface. apply runs_get. unfold Datatypes.id.
  destruct (hinv_readable _ _ _ Hh) as (s & -> & Hs & Hb & Hz). apply runs_lift. cbv iota.
  destruct (match_preface_ok s (Z.min (seq_size s) (zlen kPreface)) Hs ltac:(rewrite Hz, Hb; lia)
    kPreface 0 ltac:(lia)) as [ok ->]. apply runs_lift. cbv iota.
  destruct ok; cbn [negb].
  2:{ split; [|done]. split; [exact (hinv_state site None n c Closing Hh)|cbn; lia]. }
  destruct (Z.ltb_spec (seq_size s) (zlen kPreface)) as [Hlt|Hge]; [split; [split; [done|cbn; lia]|done]|].
  assert (Hk : zlen kPreface = 24) by reflexivity.
  destruct (hinv_consume None n c (zlen kPreface) Hh) as (b & -> & Hzb & Hh1); [lia|].
  apply runs_lift. cbv iota. apply runs_modify, runs_modify.
  apply (hinv_more site None (n - zlen kPreface) n) in Hh1; [|lia].
  eapply runs_bind; [apply SendSettings_runs; exact (hinv_state site None n _ Connected Hh1)|].
  intros [] c1 [Hh2 Es]. cbn. rewrite Es. split; [|done]. split; [done|]. rewrite Es. cbn. lia.
Qed.

(** ** Frames *)

Lemma ConsumeFrame_runs n c : n < 2 ^ 56 -> hinv site None n c ->
  runs (ConsumeFrame c) (fun r c' => consumes n c r c').
Proof.
  intros Hn Hh. unfold ConsumeFrame. apply runs_get. unfold Datatypes.id.
  destruct (hinv_readable _ _ _ Hh) as (s & -> & Hs & Hb & Hz). apply runs_lift. cbv iota.
  pose proof (hi_bytes _ _ _ _ Hh) as Hbytes. rewrite <- Hb in Hz.
  assert (Hstop : forall st, consumes n c (st, false) (upd (set_state Closing) c)).
  { intros st. split; [exact (hinv_state site None n c Closing Hh)|cbn; lia]. }
  destruct (Z.ltb_spec (seq_size s) kHeaderSize) as [|Hge]; [split; [done|cbn; lia]|].
  destruct (DecodeHeader_length s Hs) as (h & -> & Hl); [rewrite Hb in *; lia|].
  apply runs_lift. cbv iota. destruct (_ <? fh_length h); [apply Hstop|].
  destruct (Z.ltb_spec (seq_size s) (kHeaderSize + fh_length h)) as [|Hfit]; [split; [done|cbn; lia]|].
  assert (Hp : exists p, (if fh_length h =? 0 then Ok [] else CopyTo s kHeaderSize (fh_length h)) = Ok p /\
    zlen p = fh_length h).
  { destruct (Z.eqb_spec (fh_length h) 0) as [E|]; [exists []; by rewrite E|]. unfold kHeaderSize in *.
    rewrite CopyTo_spec by (done || lia). rewrite (proj2 (Z.leb_le _ _)) by lia.
    eexists. split; [done|]. rewrite zlen_zslice; lia. }
  destruct Hp as (p & -> & Hpl). apply runs_lift. cbv iota. unfold kHeaderSize in *.
  destruct (hinv_consume None n c (9 + fh_length h) Hh) as (b & -> & Hzb & Hh1); [rewrite <- Hb; lia|].
  apply runs_lift. cbv iota. apply runs_modify.
  apply (hinv_more site None _ (n - zlen p)) in Hh1; [|lia].
  pose proof (keeps_accept_frame h p (upd (set_buffer b) c)) as Hk.
  pose proof (accept_frame_runs site n _ h p Hn Hpl Hh1) as Hr.
  unfold mbind at 1, M_bind at 1. destruct (accept_frame h p _) as [[st c1]|]; [|done].
  split; [done|]. rewrite (Hk st c1 eq_refl). cbn. lia.
Qed.

(** ** Failing *)

Lemma hinv_close x n c : hinv site x n c ->
  hinv site x n (upd (fun s => set_outbound (Http2Outbound.Close (outbound_ s)) s) c).
Proof.
  intros Hh. destruct (hi_out _ _ _ _ Hh) as (cd & Hs).
  destruct (close_done cd _ Hs) as (b & fs & o & cd' & [E Hs' _ _ _ _ _]).
  cbn in E. injection E as _ _ E.
  eapply (hinv_outbound site x n _ cd' o) in Hh; [|done]. rewrite <- E in Hh. exact Hh.
Qed.

(** A session that is closed, with nothing left to send. *)
Definition stopped (c : context) : Prop :=
  state_ (session c) = Closed /\ closed_ (outbound_ (session c)) = true /\ streams_ (session c) = ∅.

Lemma FailConnection_runs n c e : hinv site None n c ->
  runs (FailConnection e c) (fun _ c' => hinv site None n c' /\ stopped c').
Proof.
  intros Hh. unfold FailConnection. apply runs_get. unfold Datatypes.id.
  apply (runs_bind _ _ _ (fun _ c' => hinv site None n c')).
  { destruct (_ || _); [exact (hinv_send site None n c _ Hh)|done]. }
  intros [] c1 Hh1. apply runs_modify, runs_modify, runs_modify, runs_modify, runs_modify.
  split; [|done]. destruct (ring_Clear_spec _ (hi_ring _ _ _ _ Hh1)) as (Hi & Hc & _).
  apply hinv_close.
  refine (hinv_drop site None n (upd (set_continuation None) (upd (fun s => set_buffer (Clear (receive_buffer_ s)) s)
    (upd (set_state Closed) c1))) ∅ (map_empty_subseteq _) _).
  apply hinv_no_continuation, (hinv_buffer site None n n); [done| |by apply hinv_state].
  cbn. rewrite Hc, zlen_nil. pose proof (zlen_nonneg (contents (receive_buffer_ (session c1)))). lia.
Qed.

Lemma fail_or_return_runs n c st : hinv site None n c ->
  runs (fail_or_return st c) (fun _ c' => hinv site None n c').
Proof.
  intros Hh. unfold fail_or_return. case_decide; [|done].
  eapply runs_mono; [by apply FailConnection_runs|]. by intros ? ? [].
Qed.

(** ** The loop *)

Definition advances (n : Z) (c : context) (i : iteration) (c' : context) : Prop :=
  hinv site None n c' /\
  (i = Again -> zlen (contents (receive_buffer_ (session c'))) < zlen (contents (receive_buffer_ (session c)))).

Lemma returned n c c1 st : hinv site None n c1 ->
  runs ((r ← fail_or_return st; mret (Return r)) c1) (advances n c).
Proof.
  intros Hh. eapply runs_bind; [by apply (fail_or_return_runs n)|]. intros r c2 Hh2. by split.
Qed.

Lemma frame_iteration_runs n c : n < 2 ^ 56 -> hinv site None n c -> state_ (session c) <> ExpectPreface ->
  runs (frame_iteration c) (advances n c).
Proof.
  intros Hn Hh Hs. unfold frame_iteration. apply runs_get. unfold Datatypes.id.
  case_bool_decide as E.
  - eapply runs_bind; [by apply (ConsumeFrame_runs n)|]. intros [st took] c1 [Hh1 Hz].
    destruct (negb _); [by apply returned|]. destruct took; cbn [negb]; [|by split].
    split; [done|]. intros _. cbn in Hz. lia.
  - split; [done|]. destruct (state_ (session c)); done.
Qed.

Lemma Feed_iteration_runs n c : n < 2 ^ 56 -> hinv site None n c ->
  runs (Feed_iteration c) (advances n c).
Proof.
  intros Hn Hh. unfold Feed_iteration. apply runs_get. unfold Datatypes.id.
  case_bool_decide as E; [|by apply frame_iteration_runs].
  eapply runs_bind; [by apply (ConsumePreface_runs n)|]. intros [st took] c1 [[Hh1 Hz] Hst].
  destruct (negb _); [by apply returned|]. destruct took; cbn [negb]; [|by split].
  eapply runs_mono; [apply (frame_iteration_runs n); [done|done|by rewrite Hst]|].
  intros i c2 [Hh2 Hi]. split; [done|]. intros Ei. specialize (Hi Ei). cbn in Hz. lia.
Qed.

Lemma Feed_loop_runs n : n < 2 ^ 56 -> forall fuel c, hinv site None n c ->
  zlen (contents (receive_buffer_ (session c))) < Z.of_nat fuel ->
  runs (Feed_loop fuel c) (fun _ c' => hinv site None n c').
Proof.
  intros Hn. induction fuel as [|fuel IH]; intros c Hh Hf.
  { pose proof (zlen_nonneg (contents (receive_buffer_ (session c)))). lia. }
  cbn [Feed_loop]. apply runs_get. unfold Datatypes.id. destruct (Empty _); [done|].
  eapply runs_bind; [by apply (Feed_iteration_runs n)|]. intros i c1 [Hh1 Hi].
  destruct i; [|done|done]. apply IH; [done|]. specialize (Hi eq_refl). lia.
Qed.

Lemma hinv_feed n c bytes : hinv site None n c ->
  let b := receive_buffer_ (session c) in
  exists st b', RingReceiveBuffer.Append b bytes = Ok (st, b') /\
    hinv site None (n + zlen bytes) (upd (set_buffer b') c).
Proof.
  intros Hh b. pose proof (hi_ring _ _ _ _ Hh) as Hb. fold b in Hb. pose proof (zlen_nonneg bytes).
  destruct (ring_Append_spec b bytes Hb) as [Hok Hno].
  destruct (Z.le_gt_cases (zlen (contents b) + zlen bytes) (maximum_capacity_ b)) as [Hle|Hgt].
  - destruct (Hok Hle) as (b' & -> & Hb' & Hc' & _). eexists _, _. split; [done|].
    apply (hinv_buffer site None n); [done|rewrite Hc', zlen_app; unfold b; lia|done].
  - rewrite (Hno Hgt). eexists _, _. split; [done|].
    apply (hinv_buffer site None n); [done|unfold b; lia|done].
Qed.

Lemma Feed_runs n c bytes : n + zlen bytes < 2 ^ 56 -> hinv site None n c ->
  runs (Feed bytes c) (fun _ c' => hinv site None (n + zlen bytes) c').
Proof.
  intros Hn Hh0. pose proof (zlen_nonneg bytes). unfold Feed.
  apply (runs_bind _ _ _ (fun _ c' => hinv site None n c')); [exact (hinv_dispatching site None n c 0 Hh0)|].
  intros [] c1 Hh. apply runs_get. unfold Datatypes.id.
  case_bool_decide; [apply (hinv_more site None n); [lia|done]|].
  destruct (hinv_feed n c1 bytes Hh) as (st & b & -> & Hh1). apply runs_lift. cbv iota. apply runs_modify.
  destruct (negb _).
  - eapply runs_mono; [by apply (FailConnection_runs (n + zlen bytes))|]. by intros ? ? [].
  - apply runs_get. apply Feed_loop_runs; [done|done|]. unfold feed_fuel, Datatypes.id.
    pose proof (hi_ring _ _ _ _ Hh1) as Hb. rewrite (zlen_contents _ Hb).
    unfold ReadableBytes. destruct Hb. lia.
Qed.

(** ** Histories *)

(** The bytes that a history feeds to the session. *)
Definition fed (ops : list session_op) : list byte :=
  concat (map (fun o => match o with OpFeed bytes => bytes | _ => [] end) ops).

Lemma session_step_runs n c o : n + zlen (fed [o]) < 2 ^ 56 -> hinv site None n c ->
  runs (session_step o c) (fun _ c' => hinv site None (n + zlen (fed [o])) c').
Proof.
  intros Hn Hh. unfold fed in *. cbn [map concat] in *. rewrite app_nil_r in *.
  destruct o as [bytes|i|e|]; cbn [session_step]; rewrite ?zlen_nil, ?Z.add_0_r in *.
  - eapply runs_bind; [by apply Feed_runs|]. by intros.
  - apply (runs_bind _ _ _ (fun a c' => a = c /\ c' = c)); [done|]. intros _ _ [-> ->].
    destruct (tasks c !! i) as [[id r]|] eqn:Ei; [|done].
    assert (Hd : deliverable r).
    { eapply (Forall_lookup_1 _ _ _ _ (hi_tasks _ _ _ _ Hh)) in Ei. exact Ei. }
    apply (runs_bind _ _ _ (fun _ c' => hinv site None n c')).
    { apply hinv_tasks; [|done]. apply Forall_delete. apply Hh. }
    intros [] c1 Hh1. destruct (run_task_runs site None n c1 id r Hh1 Hd) as (fs & out & E & Ho). rewrite (E c1 eq_refl).
    by apply Ho.
  - unfold SendGoaway. apply runs_get. destruct (negb _); [done|]. apply runs_modify.
    exact (hinv_send site None n _ _ (hinv_state site None n c Closing Hh)).
  - refine (hinv_close None n _ _).
    refine (hinv_drop site None n (upd (set_state Closed) c) ∅ (map_empty_subseteq _) _).
    by apply hinv_state.
Qed.

Lemma fed_cons o ops : zlen (fed (o :: ops)) = zlen (fed [o]) + zlen (fed ops).
Proof. unfold fed. cbn. by rewrite app_nil_r, zlen_app. Qed.

Lemma session_run_runs ops : forall n c, n + zlen (fed ops) < 2 ^ 56 -> hinv site None n c ->
  runs (session_run ops c) (fun _ c' => hinv site None (n + zlen (fed ops)) c').
Proof.
  induction ops as [|o ops IH]; intros n c Hn Hh.
  { apply (hinv_more site None n); [|done]. pose proof (zlen_nonneg (fed [])). lia. }
  rewrite fed_cons in *. pose proof (zlen_nonneg (fed ops)). cbn [session_run].
  eapply runs_bind; [apply (session_step_runs n); [lia|done]|]. intros [] c1 Hh1.
  replace (n + (zlen (fed [o]) + zlen (fed ops))) with (n + zlen (fed [o]) + zlen (fed ops)) by lia.
  apply IH; [lia|done].
Qed.

(** Only a read can fail, by the shift. *)
Lemma session_step_fails n c o e : n + zlen (fed [o]) < 2 ^ 56 -> hinv site None n c ->
  session_step o c = Throw e -> e = UndefinedShift /\ exists bytes, o = OpFeed bytes.
Proof.
  intros Hn Hh E. pose proof (session_step_runs n c o Hn Hh) as Hr. rewrite E in Hr. split; [exact Hr|].
  destruct o as [bytes|i|e'|]; [by eexists|exfalso..].
  - revert E. cbn [session_step]. mrun. destruct (tasks c !! i) as [[id r]|] eqn:Ei; [|done].
    assert (Hd : deliverable r) by (eapply (Forall_lookup_1 _ _ _ _ (hi_tasks _ _ _ _ Hh)) in Ei; exact Ei).
    destruct (run_task_runs site None n c id r Hh Hd) as (fs & out & Et & _). by rewrite Et.
  - cbn [session_step] in E. unfold SendGoaway in E. revert E. mrun. by destruct (negb _).
  - done.
Qed.

(** A history returns, or runs until a read fails. *)
Lemma session_run_until ops : forall n c, n + zlen (fed ops) < 2 ^ 56 -> hinv site None n c ->
  exists first rest c', ops = first ++ rest /\ session_run first c = Ok (tt, c') /\
    hinv site None (n + zlen (fed first)) c' /\
    (rest = [] \/ exists bytes later, rest = OpFeed bytes :: later /\ session_step (OpFeed bytes) c' = Throw UndefinedShift).
Proof.
  induction ops as [|o ops IH]; intros n c Hn Hh.
  { exists [], [], c. split; [done|]. split; [done|]. split; [|by left]. apply (hinv_more site None n); [|done]. pose proof (zlen_nonneg (fed [])). lia. }
  rewrite fed_cons in Hn. pose proof (zlen_nonneg (fed ops)). pose proof (zlen_nonneg (fed [o])).
  destruct (session_step o c) as [[[] c1]|e] eqn:E.
  - pose proof (session_step_runs n c o ltac:(lia) Hh) as Hr. rewrite E in Hr.
    destruct (IH (n + zlen (fed [o])) c1 ltac:(lia) Hr) as (first & rest & c' & -> & Hrun & Hh' & Hrest).
    exists (o :: first), rest, c'. split; [done|]. split; [cbn [session_run]; by eapply bind_step|].
    split; [|done]. rewrite fed_cons. by rewrite Z.add_assoc.
  - destruct (session_step_fails n c o e) as [-> [bytes ->]]; [lia|done|done|].
    exists [], (OpFeed bytes :: ops), c. split; [done|]. split; [done|]. split; [|right; by exists bytes, ops].
    apply (hinv_more site None n); [|done]. pose proof (zlen_nonneg (fed [])). lia.
Qed.

(** A session that was just constructed. *)
Lemma hinv_make s : let router := site_router site in let cf := site_config site in
  H2Session_make (Some router) true true (site_connection site) cf = Ok s -> config_ok cf ->
  0 <= config_maximum_header_list_size cf < 2 ^ 62 ->
  1 <= initial_receive_buffer_size cf ->
  (forall r, deliverable (dispatch_task (route_request router r) r false)) ->
  hinv site None 0 (mkContext s [] [] 0).
Proof.
  intros router cf E Hcf Hl Hib Hr. destruct (Hcf). unfold H2Session_make in E.
  destruct (H2OutboundScheduler_make _ _ _ _) as [out|] eqn:Eo; [|done]. cbn [mbind result_bind] in E.
  destruct (RingReceiveBuffer.make _ _) as [b|] eqn:Eb; [|done]. cbn [negb mbind result_bind] in E.
  destruct (_ || _ || _) eqn:Ec; [done|]. rewrite !orb_false_iff, !Z.eqb_neq, Z.ltb_ge in Ec.
  destruct (ring_make_spec (initial_receive_buffer_size cf) (maximum_receive_buffer_size cf))
    as (b' & Eb' & Hb & Hc & _); [lia|lia|]. rewrite Eb in Eb'. injection Eb' as <-.
  injection E as <-. unfold kMaximumWindow in *. split; cbn -[BuildStaticTable];
    try done; try lia; try (by intros; set_solver).
  - rewrite Hc, zlen_nil. lia.
  - split; cbn; try done; lia.
  - Z.div_mod_to_equations; lia.
  - exists (HpackCodec_make (mkHpackOptions (header_table_size (site_config site)) 0)). eapply fresh_ok; [exact Eo|lia|done|cbn; lia|done].
  - split; constructor.
Qed.
End feed.

(** ** A closed session *)

Section closed.
Context `{World}.

Lemma session_run_fails first o later : forall c c' e, session_run first c = Ok (tt, c') -> session_step o c' = Throw e ->
  session_run (first ++ o :: later) c = Throw e.
Proof.
  induction first as [|o1 first IH]; intros c c' e E Eo.
  - injection E as <-. cbn [app session_run]. unfold mbind, M_bind. by rewrite Eo.
  - cbn [app session_run] in *. unfold mbind, M_bind in *. destruct (session_step o1 c) as [[[] c1]|]; [|done]. by eapply IH.
Qed.

Lemma closed_step o c : stopped c -> exists c', session_step o c = Ok (tt, c') /\ log c' = log c /\ stopped c'.
Proof.
  intros (Hs & Ho & Hm). destruct o as [bytes|i|e|]; cbn [session_step].
  - unfold Feed. mrun. rewrite Hs. eexists. by repeat split.
  - mrun. destruct (tasks c !! i) as [[id r]|]; [|eexists; by repeat split].
    unfold run_task, outbound. mrun. unfold SubmitResponse.
    destruct (Http2Outbound.streams_ (outbound_ (session c)) !! id); rewrite ?Ho; cbn [orb mbind result_bind];
      eexists; (split; [done|]); cbn; rewrite app_nil_r; done.
  - unfold SendGoaway. mrun. rewrite Hs. eexists. by repeat split.
  - unfold Close. mrun. eexists. by repeat split.
Qed.

Lemma closed_run ops : forall c, stopped c ->
  exists c', session_run ops c = Ok (tt, c') /\ log c' = log c /\ stopped c'.
Proof.
  induction ops as [|o ops IH]; intros c Hc; [by exists c|].
  destruct (closed_step o c Hc) as (c1 & E1 & L1 & H1). destruct (IH c1 H1) as (c2 & E2 & L2 & H2).
  exists c2. split; [|split; [congruence|done]]. cbn [session_run]. by eapply bind_step.
Qed.

(** Only [FailConnection] asks for the connection to be closed. *)
Definition never {A} (P : A -> Prop) (m : M A) : Prop := forall c a c', m c = Ok (a, c') -> ~ P a.

Lemma never_mret {A} (P : A -> Prop) (a : A) : ~ P a -> never P (mret a).
Proof. by intros Hp c a' c' [= <- <-]. Qed.

Lemma never_bind {A B} (P : B -> Prop) (m : M A) (f : A -> M B) : (forall a, never P (f a)) -> never P (m ≫= f).
Proof.
  intros Hf c a c' E. unfold mbind, M_bind in E. destruct (m c) as [[a1 c1]|] eqn:E1; [|done].
  by eapply Hf.
Qed.

Lemma never_throw {A} (P : A -> Prop) e : never P (lift (Throw e)).
Proof. by intros c a c'. Qed.

Ltac never :=
  repeat match goal with
  | |- never _ (_ ≫= _) => apply never_bind; intros ?
  | |- never _ (mret _) => apply never_mret
  | |- never _ (lift (Throw _)) => apply never_throw
  | |- never _ (if ?b then _ else _) => destruct b
  | |- never _ (match ?b with _ => _ end) => destruct b
  | |- never _ (let _ := _ in _) => cbv zeta
  end; try done.

Lemma never_dispatch id : never (eq FeedCloseRequired) (DispatchRequest id).
Proof. unfold DispatchRequest. never. by destruct (bool_decide _). Qed.

Lemma never_headers h p : never (eq FeedCloseRequired) (HandleHeaders h p).
Proof. unfold HandleHeaders, decode_headers, compression_error. never; apply never_dispatch. Qed.

Lemma never_accept h p : never (eq FeedCloseRequired) (accept_frame h p).
Proof.
  unfold accept_frame, handle_frame, HandleSettings, HandleData, HandleRstStream, HandleWindowUpdate,
    HandlePing, HandleGoaway.
  never; first [apply never_headers|apply never_dispatch|by destruct (_ && _)|by destruct (negb _)].
Qed.

Lemma never_tagged {A B} (x : A) (m : M A) (b : B) :
  never (eq x) m -> never (fun r => x = r.1) (a ← m; mret (a, b)).
Proof.
  intros Hm c [a b'] c' E. unfold mbind, M_bind in E. destruct (m c) as [[a1 c1]|] eqn:E1; [|done].
  cbn in E. injection E as <- _ _. cbn. by eapply Hm.
Qed.

Lemma never_frame : never (fun r => FeedCloseRequired = r.1) ConsumeFrame.
Proof.
  unfold ConsumeFrame. do 2 (apply never_bind; intros ?). destruct (_ <? _); [by apply never_mret|].
  apply never_bind. intros [h|]; [|never]. destruct (_ <? _); [never|]. destruct (_ <? _); [never|].
  do 3 (apply never_bind; intros ?). apply never_tagged, never_accept.
Qed.

Lemma never_preface : never (fun r => FeedCloseRequired = r.1) ConsumePreface.
Proof. unfold ConsumePreface. never. Qed.

(** When this run asks for the connection to be closed, the session is closed. *)
Definition closes {A} (P : A -> Prop) (m : M A) : Prop := forall c a c', m c = Ok (a, c') -> P a -> stopped c'.

Lemma closes_bind {A B} (R : A -> Prop) (P : B -> Prop) (m : M A) (f : A -> M B) :
  never R m -> (forall a, ~ R a -> closes P (f a)) -> closes P (m ≫= f).
Proof.
  intros Hm Hf c a c' E. unfold mbind, M_bind in E. destruct (m c) as [[a1 c1]|] eqn:E1; [|done].
  eapply Hf; [|done]. by eapply Hm.
Qed.

Lemma never_false {A} (m : M A) : never (fun _ => False) m.
Proof. intros c a c' _ []. Qed.

Lemma closes_mret {A} (P : A -> Prop) (a : A) : ~ P a -> closes P (mret a).
Proof. intros Hp c a' c' [= <- <-]. done. Qed.

Definition asks_close (r : ProtocolFeedResult) : Prop := feed_status r = FeedCloseRequired.

Lemma closes_fail e : closes asks_close (FailConnection e).
Proof.
  intros c a c'. unfold FailConnection. mrun. destruct (_ || _); intros [= <- <-] _; by split.
Qed.

Lemma closes_return st : FeedCloseRequired <> st -> closes asks_close (fail_or_return st).
Proof.
  intros Hs. unfold fail_or_return. case_decide; [apply closes_fail|]. intros c a c' [= <- <-] Ha.
  by destruct Hs.
Qed.

Definition iteration_asks (i : iteration) : Prop :=
  match i with Return r => asks_close r | _ => False end.

Lemma closes_returned st : FeedCloseRequired <> st ->
  closes iteration_asks (r ← fail_or_return st; mret (Return r)).
Proof.
  intros Hs c a c' E Ha. unfold mbind, M_bind in E.
  destruct (fail_or_return st c) as [[r c1]|] eqn:E1; [|done]. injection E as <- <-.
  by eapply (closes_return st Hs).
Qed.

Lemma closes_frames : closes iteration_asks frame_iteration.
Proof.
  unfold frame_iteration. eapply closes_bind; [apply never_false|]. intros s _. destruct (bool_decide _).
  - eapply closes_bind; [apply never_frame|]. intros [st b] Hst. destruct (negb _); [by apply closes_returned|].
    destruct b; cbn [negb]; [|apply closes_mret; intros []]. eapply closes_bind; [apply never_false|]. intros s1 _.
    apply closes_mret. destruct (_ || _); intros [].
  - apply closes_mret. destruct (_ || _); intros [].
Qed.

Lemma closes_iteration : closes iteration_asks Feed_iteration.
Proof.
  unfold Feed_iteration. eapply closes_bind; [apply never_false|]. intros s _.
  destruct (bool_decide _); [|apply closes_frames].
  eapply closes_bind; [apply never_preface|]. intros [st b] Hst. destruct (negb _); [by apply closes_returned|].
  destruct b; cbn [negb]; [apply closes_frames|]. by intros c a c' [= <- <-].
Qed.

Lemma closes_loop fuel : closes asks_close (Feed_loop fuel).
Proof.
  induction fuel as [|fuel IH]; [by intros c a c'|]. cbn [Feed_loop].
  eapply closes_bind; [apply never_false|]. intros s _. destruct (Empty _); [by intros c a c' [= <- <-]|].
  intros c a c' E Ha. unfold mbind, M_bind in E. destruct (Feed_iteration c) as [[i c1]|] eqn:E1; [|done].
  destruct i as [| |r]; [by eapply IH|by injection E as <- <-|]. injection E as <- <-.
  by eapply (closes_iteration _ _ _ E1).
Qed.

Lemma closes_feed bytes : closes asks_close (Feed bytes).
Proof.
  unfold Feed. do 2 (eapply closes_bind; [apply never_false|]; intros ? _).
  destruct (bool_decide _); [by apply closes_mret|]. eapply closes_bind; [apply never_false|]. intros [st b] _.
  eapply closes_bind; [apply never_false|]. intros [] _. destruct (negb _); [apply closes_fail|].
  eapply closes_bind; [apply never_false|]. intros s _. apply closes_loop.
Qed.
End closed.

(** ** The properties *)

(** C5. Whatever a peer sends, and however the tasks of the executor are
    interleaved with the reads, the session stays consistent until a read
    evaluates the shift of the HPACK decoder that C++17 leaves undefined (see
    [hpack_decode_safe]); nothing is claimed from there on, and no operation
    fails in any other way.  The responses of the router have names and values
    below a gigabyte.  From a new session, every history splits in a first part
    that returns and a rest, which is empty or starts with a read that evaluates
    that shift.  After the first part [hinv] holds: each posted request belongs
    to an odd stream number that was never posted before and got the router's
    response, no body exceeds the limit, no more streams than configured are
    open, a complete request is never left waiting, both kinds of receive
    windows lie between half of their initial size and the initial size, and the
    receive buffer, the HPACK decoder and the outbound scheduler satisfy their
    own invariants. *)
Theorem h2_session_safe `{World} `{!WorldLaws} (site : Site) s ops :
  let cf := site_config site in
  H2Session_make (Some (site_router site)) true true (site_connection site) cf = Ok s ->
  config_ok cf -> 1 <= initial_receive_buffer_size cf -> 0 <= config_maximum_header_list_size cf < 2 ^ 62 ->
  (forall r, deliverable (dispatch_task (route_request (site_router site) r) r false)) ->
  zlen (fed ops) < 2 ^ 56 ->
  exists first rest c, ops = first ++ rest /\
    session_run first (mkContext s [] [] 0) = Ok (tt, c) /\ hinv site None (zlen (fed first)) c /\
    (rest = [] \/ exists bytes later, rest = OpFeed bytes :: later /\
       session_step (OpFeed bytes) c = Throw UndefinedShift).
Proof.
  intros cf E Hc Hb Hl Hr Hf.
  destruct (session_run_until site ops 0 (mkContext s [] [] 0) Hf) as (first & rest & c & Hops & Hrun & Hh & Hrest);
    [by apply hinv_make|]. by exists first, rest, c.
Qed.

(** When a read asks for the connection to be closed, the session is done:
    no later read, task or call of the owner sends a frame, posts a request or
    fails. *)
Theorem h2_close_is_final `{World} bytes c r c' ops :
  Feed bytes c = Ok (r, c') -> feed_status r = FeedCloseRequired ->
  exists c2, session_run ops c' = Ok (tt, c2) /\ log c2 = log c' /\
    forall more r2 c3, Feed more c2 = Ok (r2, c3) -> feed_status r2 = FeedStopped /\ log c3 = log c'.
Proof.
  intros E Hr. destruct (closed_run ops c' (closes_feed bytes c r c' E Hr)) as (c2 & E2 & L2 & Hs & _).
  exists c2. split; [done|]. split; [done|]. intros more r2 c3. unfold Feed. mrun. rewrite Hs.
  by intros [= <- <-].
Qed.

(** *** A sample session *)

Definition sample_h2_world : World :=
  {| post_status _ := Accepted; runs_at_once _ := false; visit_order m := (map_to_list m).*1 |}.

Lemma sample_h2_laws : @WorldLaws sample_h2_world.
Proof. by intros m. Qed.

Definition sample_h2_site : Site :=
  mkSite ∅ 7 (mkH2Config 64 1000 100 10 65535 16384 16384 4096 false).

Definition sample_h2_session : H2Session :=
  mkH2Session ∅ (mkScheduler false 65535 65535 16384 4096 (HpackCodec_make HpackOptions_default) ∅) 7
    (site_config sample_h2_site) (mkRing (replicate 64 Byte.x00) 1000 0 0)
    (HpackCodec_make HpackOptions_default) ExpectPreface 0 4096 100 65535 16384 65535 false None ∅.

(** A preface, empty settings and a request for [/], cut into two reads, then
    the task of the request. *)
Definition sample_h2_request : list byte :=
  frame_of FrameType_Headers 5 1 [Byte.x82; Byte.x84; Byte.x86].
Definition sample_h2_ops : list session_op :=
  [OpFeed (kPreface ++ EncodeSettings [] ++ ztake 5 sample_h2_request); OpFeed (zdrop 5 sample_h2_request); OpTask 0].

Lemma sample_h2_deliverable r :
  deliverable (dispatch_task (route_request ∅ r) r false).
Proof.
  set (h := [mkHeader $":status" $"404"; mkHeader $"content-type" $"text/plain; charset=utf-8"]).
  assert (Hh : Forall header_fits h) by (repeat constructor; vm_compute; reflexivity).
  assert (E : response_fields (dispatch_task (route_request ∅ r) r false) = h /\
    resp_body (dispatch_task (route_request ∅ r) r false) `prefix_of` $"not found" ++ [LF]).
  { unfold dispatch_task, route_request. rewrite lookup_empty. case_decide; cbn -[response_fields].
    - split; [vm_compute; reflexivity|apply prefix_nil].
    - split; [vm_compute; reflexivity|done]. }
  destruct E as [E Eb]. unfold deliverable. rewrite E. split; [done|].
  apply prefix_length in Eb. change (length ($"not found" ++ [LF])) with 10%nat in Eb. unfold zlen. lia.
Qed.

Lemma h2_session_safe_witness : exists c,
  @session_run sample_h2_world sample_h2_ops (mkContext sample_h2_session [] [] 0) = Ok (tt, c) /\
  hinv sample_h2_site None (zlen (fed sample_h2_ops)) c /\ posted_ids (log c) = [1].
Proof.
  destruct (@h2_session_safe sample_h2_world sample_h2_laws sample_h2_site sample_h2_session sample_h2_ops)
    as (first & rest & c & Hops & Hrun & Hh & Hrest).
  - vm_compute. reflexivity.
  - split; cbn; unfold kMaximumWindow; lia.
  - cbn. lia.
  - cbn. lia.
  - exact sample_h2_deliverable.
  - vm_compute. reflexivity.
  - assert (Hok : match @session_run sample_h2_world sample_h2_ops (mkContext sample_h2_session [] [] 0) with
      | Ok (_, c) => posted_ids (log c) = [1] | Throw _ => False end) by (vm_compute; reflexivity).
    destruct Hrest as [->|(bytes & later & -> & Hfail)].
    + rewrite app_nil_r in Hops. subst first. rewrite Hrun in Hok. exists c. split; [exact Hrun|]. split; [exact Hh|exact Hok].
    + rewrite Hops, (session_run_fails _ _ later _ _ _ Hrun Hfail) in Hok. contradiction.
Defined.

Lemma h2_close_is_final_witness :
  exists r c', @Feed sample_h2_world (replicate 24 Byte.x61) (mkContext sample_h2_session [] [] 0) = Ok (r, c') /\
  exists c2, @session_run sample_h2_world sample_h2_ops c' = Ok (tt, c2) /\ log c2 = log c' /\
    forall more r2 c3, @Feed sample_h2_world more c2 = Ok (r2, c3) -> feed_status r2 = FeedStopped /\ log c3 = log c'.
Proof.
  assert (E : match @Feed sample_h2_world (replicate 24 Byte.x61) (mkContext sample_h2_session [] [] 0) with
    | Ok (r, _) => feed_status r = FeedCloseRequired | Throw _ => False end) by (vm_compute; reflexivity).
  destruct (Feed (replicate 24 Byte.x61) _) as [[r c']|e] eqn:Ef; [|contradiction].
  exists r, c'. split; [reflexivity|].
  exact (@h2_close_is_final sample_h2_world (replicate 24 Byte.x61) _ r c' sample_h2_ops Ef E).
Defined.
