(* ===== verification/Http2Request.v ===== *)
(** * Requests over HTTP/2

    A request that a client encodes arrives at the router as the client meant
    it, and DATA frames are paid back. *)

From S2P Require Import Prelude BufferSequence ReceiveBuffer RingReceiveBuffer HttpMessage.
From S2P Require Import ProtocolSession HttpRouter Huffman Hpack HpackTheory Http2Frames Http2Outbound.
From S2P Require Import Http2OutboundTheory Http2Session Http2SessionTheory Http2SessionFeed.

(** ** One frame *)

Lemma folded_id_small id : 0 <= id < 2 ^ 16 -> folded_id id = id.
Proof. intros Hi. apply folded_id_fix; lia. Qed.

Lemma DecodeHeader_frame s h rest : seq_ok s -> zlen (seq_bytes s) < 2 ^ 64 -> frame_header_ok h ->
  fh_stream_id h < 2 ^ 16 -> seq_bytes s = EncodeHeader h ++ rest -> DecodeHeader s = Ok (Some h).
Proof.
  intros Hs H64 Hh Hi E. rewrite (DecodeHeader_EncodeHeader s h rest) by done.
  rewrite folded_id_small by (destruct Hh; lia). by destruct h.
Qed.

(** ** The fields of a request *)

Definition target_of (p : list byte) (q : option (list byte)) : list byte :=
  p ++ match q with Some q => Byte.x3f :: q | None => [] end.

(** The header list that a client sends. *)
Definition request_fields (m scheme authority p : list byte) (q : option (list byte)) (hs : list HttpHeader)
    : list HttpHeader :=
  [mkHeader $":method" m; mkHeader $":scheme" scheme; mkHeader $":authority" authority;
   mkHeader $":path" (target_of p q)] ++ hs.

(** The request that it means. *)
Definition meant_request (conn id : Z) (m authority p : list byte) (q : option (list byte))
    (hs : list HttpHeader) : HttpRequest :=
  mkRequest (ParseMethod m) m (target_of p q) p (default [] q) (mkHeader $"host" authority :: hs) [] true id conn.

(** A field that is not a pseudo-header, in lower case. *)
Definition regular (h : HttpHeader) : Prop :=
  zlen (name h) <> 0 /\ front (name h) <> Some Byte.x3a /\ existsb is_upper (name h) = false.

Lemma set_request_target_spec p q r : ~ In Byte.x3f p -> zlen (target_of p q) < 2 ^ 63 -> query r = [] ->
  set_request_target (target_of p q) r =
  Ok (mkRequest (method r) (method_text r) (target_of p q) p (default [] q) (headers r) (body r) (keep_alive r)
        (request_id r) (connection_id r)).
Proof.
  intros Hp Hl Hq. unfold set_request_target, target_of in *. destruct q as [q|].
  - unfold str_find. change (zdrop 0 (p ++ Byte.x3f :: q)) with (p ++ Byte.x3f :: q).
    rewrite (find_from_app _ p q 0 Hp). cbn [Z.add]. rewrite zlen_app, zlen_cons in Hl.
    pose proof (zlen_nonneg p). pose proof (zlen_nonneg q).
    rewrite (proj2 (Z.eqb_neq _ _)) by (unfold npos; lia). cbn [negb].
    rewrite (substr_ok _ 0), substr_tail by zlia. cbn [mbind result_bind].
    rewrite zslice_app_l, zslice_all by zlia. rewrite zdrop_app_ge by lia.
    replace (0 + zlen p + 1 - zlen p) with 1 by lia. done.
  - rewrite app_nil_r in *. unfold str_find. change (zdrop 0 p) with p.
    rewrite find_from_None by done. cbn. by rewrite Hq.
Qed.

Lemma assemble_regular hs : forall a, Forall regular hs ->
  assemble_headers hs a = Ok (Some (mkAssembly
    (mkRequest (method (as_request a)) (method_text (as_request a)) (target (as_request a)) (path (as_request a))
       (query (as_request a)) (headers (as_request a) ++ hs) (body (as_request a)) (keep_alive (as_request a))
       (request_id (as_request a)) (connection_id (as_request a)))
    (has_method a) (has_path a) (saw_regular_header a || negb (zlen hs =? 0)))).
Proof.
  induction hs as [|h hs IH]; intros a Hf.
  { cbn. rewrite app_nil_r, orb_false_r. by destruct a as [[] ? ? ?]. }
  apply Forall_cons in Hf as [(Hn & Hc & Hu) Hf]. cbn [assemble_headers]. unfold assemble_header.
  rewrite (proj2 (Z.eqb_neq _ _)) by done. rewrite bool_decide_eq_false_2 by done. cbn [andb negb].
  do 4 (rewrite decide_False by (intros E; rewrite E in Hc; by destruct Hc)).
  rewrite Hu, orb_true_r. cbn [mbind result_bind]. rewrite IH by done. cbn -[zlen]. rewrite <- app_assoc.
  by rewrite orb_true_r.
Qed.

Lemma assemble_request conn id m scheme authority p q hs :
  ~ In Byte.x3f p -> zlen (target_of p q) < 2 ^ 63 -> Forall regular hs ->
  exists saw, assemble_headers (request_fields m scheme authority p q hs)
    (mkAssembly (new_request conn id) false false false) =
  Ok (Some (mkAssembly (meant_request conn id m authority p q hs) true true saw)).
Proof.
  intros Hp Hl Hf. unfold request_fields. cbn [app assemble_headers].
  set (r1 := set_request_method m (new_request conn id)).
  set (r2 := push_request_header (mkHeader $"host" authority) r1).
  change (assemble_header (mkHeader $":method" m) _) with (Ok (Some (mkAssembly r1 true false false))).
  cbn [mbind result_bind].
  change (assemble_header (mkHeader $":scheme" scheme) _) with (Ok (Some (mkAssembly r1 true false false))).
  cbn [mbind result_bind].
  change (assemble_header (mkHeader $":authority" authority) _) with (Ok (Some (mkAssembly r2 true false false))).
  cbn [mbind result_bind].
  change (assemble_header (mkHeader $":path" (target_of p q)) _) with
    (r ← set_request_target (target_of p q) r2; Ok (Some (mkAssembly r true true false))).
  rewrite set_request_target_spec by done. cbn [mbind result_bind].
  rewrite assemble_regular by done. eexists. reflexivity.
Qed.

Section request.
Context `{World}.

(** A frame at the front of the buffer is taken out and handled. *)
Lemma ConsumeFrame_front h payload rest c :
  RingReceiveBuffer.inv (receive_buffer_ (session c)) -> frame_header_ok h -> fh_stream_id h < 2 ^ 16 ->
  zlen payload = fh_length h -> fh_length h <= maximum_frame_size (config_ (session c)) ->
  contents (receive_buffer_ (session c)) = EncodeHeader h ++ payload ++ rest ->
  exists b, RingReceiveBuffer.inv b /\ contents b = rest /\
    maximum_capacity_ b = maximum_capacity_ (receive_buffer_ (session c)) /\
    ConsumeFrame c = (status ← accept_frame h payload; mret (status, true)) (upd (set_buffer b) c).
Proof.
  intros Hi Hh Hid Hl Hm Hc.
  assert (He : zlen (EncodeHeader h) = 9) by reflexivity.
  destruct (ReadableSequence_spec _ Hi) as (s & Es & Hs & Hb). rewrite Hc in Hb.
  pose proof (seq_size_spec _ Hs) as Hz. pose proof (seq_ok_bound _ Hs).
  pose proof (zlen_nonneg rest). pose proof (zlen_nonneg payload).
  rewrite Hb, !zlen_app, He in Hz.
  destruct (ring_Consume_spec _ (9 + fh_length h) Hi) as [Hco _]; [lia|].
  destruct Hco as (b & Eb & Hbi & Hbc & Hbm); [rewrite Hc, !zlen_app, He; lia|].
  exists b. split; [done|]. split.
  { rewrite Hbc, Hc, zdrop_app_ge, zdrop_app_ge by (rewrite ?He; lia). apply zdrop_0. lia. }
  split; [done|]. unfold ConsumeFrame. eapply bind_step; [reflexivity|]. unfold Datatypes.id. rewrite Es.
  eapply bind_step; [reflexivity|]. cbv zeta.
  rewrite (proj2 (Z.ltb_ge (seq_size s) kHeaderSize)) by (unfold kHeaderSize; lia).
  rewrite (DecodeHeader_frame s h (payload ++ rest)) by (done || rewrite <- (seq_size_spec _ Hs); lia).
  eapply bind_step; [reflexivity|]. cbv iota.
  rewrite (proj2 (Z.ltb_ge _ _)) by done.
  rewrite (proj2 (Z.ltb_ge (seq_size s) (kHeaderSize + fh_length h))) by (unfold kHeaderSize; lia).
  eapply (bind_step _ _ _ payload c).
  { unfold lift. destruct (Z.eqb_spec (fh_length h) 0) as [E0|E0].
    - rewrite (zlen_0 payload) by lia. done.
    - unfold kHeaderSize. rewrite CopyTo_spec by (done || lia). rewrite Hb, (proj2 (Z.leb_le _ _)) by zlia.
      rewrite zslice_app_r by (rewrite He; lia). rewrite He, zslice_app_l by lia.
      by rewrite zslice_all by lia. }
  unfold kHeaderSize. rewrite Eb. done.
Qed.

(** The first round of a read that brings a frame and further bytes. *)
Lemma Feed_front h payload rest c c1 :
  let r := receive_buffer_ (session c) in
  RingReceiveBuffer.inv r -> contents r = [] -> 9 + zlen payload + zlen rest <= maximum_capacity_ r ->
  state_ (session c) = Connected ->
  frame_header_ok h -> fh_stream_id h < 2 ^ 16 -> zlen payload = fh_length h ->
  fh_length h <= maximum_frame_size (config_ (session c)) ->
  (forall b, RingReceiveBuffer.inv b -> contents b = rest ->
     accept_frame h payload (upd (set_buffer b) (mkContext (session c) (log c) (tasks c) 0)) =
       Ok (FeedReady, upd (set_buffer b) c1)) ->
  exists b fuel, RingReceiveBuffer.inv b /\ contents b = rest /\ maximum_capacity_ b = maximum_capacity_ r /\
    Feed (EncodeHeader h ++ payload ++ rest) c =
      (if bool_decide (state_ (session c1) = Closing) || bool_decide (state_ (session c1) = Closed)
       then feed_result FeedReady else Feed_loop (S fuel)) (upd (set_buffer b) c1).
Proof.
  intros r Hi Hr Hcap Hst Hh Hid Hl Hm Hacc.
  assert (He : zlen (EncodeHeader h) = 9) by reflexivity. pose proof (zlen_nonneg payload). pose proof (zlen_nonneg rest).
  destruct (ring_Append_spec r (EncodeHeader h ++ payload ++ rest) Hi) as [Hap _].
  destruct Hap as (b1 & Ea & Hb1 & Hc1 & Hm1); [rewrite Hr, zlen_nil, !zlen_app, He; lia|].
  rewrite Hr in Hc1. cbn [app] in Hc1.
  set (c0 := upd (set_buffer b1) (mkContext (session c) (log c) (tasks c) 0)).
  destruct (ConsumeFrame_front h payload rest c0) as (b & Hb & Hbc & Hbm & Ec); try done.
  exists b, (Z.to_nat (8 + zlen payload + zlen rest)). split; [done|]. split; [done|]. split; [by rewrite Hbm, <- Hm1|].
  match goal with |- _ = ?x => set (outcome := x) end. unfold Feed. fold r.
  eapply bind_step; [reflexivity|]. eapply bind_step; [reflexivity|]. unfold Datatypes.id. cbn [session].
  rewrite bool_decide_eq_false_2 by (rewrite Hst; done). fold r. rewrite Ea.
  eapply bind_step; [reflexivity|]. cbv iota. eapply bind_step; [reflexivity|]. cbn [negb].
  rewrite bool_decide_eq_true_2 by done. cbn [negb]. eapply bind_step; [reflexivity|].
  fold c0. unfold feed_fuel. cbn [Feed_loop].
  assert (Hz : zlen (contents b1) = 9 + zlen payload + zlen rest) by (rewrite Hc1, !zlen_app, He; lia).
  rewrite (zlen_contents b1 Hb1) in Hz.
  eapply bind_step; [reflexivity|]. unfold Datatypes.id.
  change (receive_buffer_ _) with b1. unfold Empty, ReadableBytes.
  rewrite (proj2 (Z.eqb_neq (readable_bytes_ b1) 0)) by lia. rewrite Hz.
  replace (Z.to_nat (9 + zlen payload + zlen rest)) with (S (Z.to_nat (8 + zlen payload + zlen rest))) by lia.
  eapply (bind_step _ _ _ (if bool_decide (state_ (session c1) = Closing) || bool_decide (state_ (session c1) = Closed)
    then Break else Again) (upd (set_buffer b) c1)).
  { match goal with |- Feed_iteration ?x = _ => change x with c0 end.
    unfold Feed_iteration. eapply bind_step; [reflexivity|]. cbn [session Datatypes.id].
    assert (Hs0 : state_ (session c0) = Connected) by done. unfold Datatypes.id.
    rewrite bool_decide_eq_false_2 by (rewrite Hs0; done).
    unfold frame_iteration. eapply bind_step; [reflexivity|]. unfold Datatypes.id.
    rewrite bool_decide_eq_true_2 by done. eapply bind_step.
    { rewrite Ec. eapply bind_step; [|reflexivity]. specialize (Hacc b Hb Hbc). exact Hacc. }
    cbv iota. rewrite bool_decide_eq_true_2 by done. cbn [negb]. eapply bind_step; [reflexivity|].
    unfold Datatypes.id. cbn [upd session]. by change (state_ (set_buffer b (session c1))) with (state_ (session c1)). }
  unfold outcome. by destruct (_ || _).
Qed.

(** A read that brings exactly one frame. *)
Lemma Feed_frame h payload c c1 :
  let r := receive_buffer_ (session c) in
  RingReceiveBuffer.inv r -> contents r = [] -> 9 + zlen payload <= maximum_capacity_ r ->
  state_ (session c) = Connected ->
  frame_header_ok h -> fh_stream_id h < 2 ^ 16 -> zlen payload = fh_length h ->
  fh_length h <= maximum_frame_size (config_ (session c)) ->
  (forall b, RingReceiveBuffer.inv b -> contents b = [] ->
     accept_frame h payload (upd (set_buffer b) (mkContext (session c) (log c) (tasks c) 0)) =
       Ok (FeedReady, upd (set_buffer b) c1)) ->
  state_ (session c1) = Connected ->
  exists b, RingReceiveBuffer.inv b /\ contents b = [] /\
    Feed (EncodeHeader h ++ payload) c = Ok (mkFeedResult FeedReady (dispatching c1) 0, upd (set_buffer b) c1).
Proof.
  intros r Hi Hr Hcap Hst Hh Hid Hl Hm Hacc Hst1.
  destruct (Feed_front h payload [] c c1) as (b & fuel & Hb & Hbc & _ & E); try done; [rewrite zlen_nil; fold r; lia|].
  exists b. split; [done|]. split; [done|]. rewrite app_nil_r, Hst1 in E. rewrite E.
  rewrite !bool_decide_eq_false_2 by done. cbn [orb Feed_loop].
  eapply bind_step; [reflexivity|]. unfold Datatypes.id, Empty. cbn [upd session].
  change (receive_buffer_ (set_buffer b (session c1))) with b.
  rewrite <- (zlen_contents b Hb), Hbc. change (zlen [] =? 0) with true. cbv iota.
  unfold feed_result, ReadableBytes. mrun.
  change (receive_buffer_ _) with b. by rewrite <- (zlen_contents b Hb), Hbc.
Qed.

(** ** Dispatch *)

(** The context after the request of a stream was accepted by an executor that
    runs it later. *)
Definition posted (id : Z) (req : HttpRequest) (c : context) : context :=
  let resp := dispatch_task (route_request (router_ (session c)) req) req false in
  mkContext (set_streams (delete id (streams_ (session c))) (session c))
    (log c ++ [PostedRequest id req Accepted resp]) (tasks c ++ [(id, resp)]) (u64 (dispatching c + 1)).

Lemma DispatchRequest_posts id t req c :
  streams_ (session c) !! id = Some t -> headers_complete_ t = true -> end_stream_ t = true ->
  request_ t = Some req -> dispatched_ t = false ->
  post_status (log c) = Accepted -> runs_at_once (log c) = false ->
  DispatchRequest id c = Ok (FeedReady, posted id (set_body (body_ t) req) c).
Proof.
  intros Ht H1 H2 Hr Hd Hp Hn. unfold DispatchRequest. mrun. rewrite Ht, H1, H2.
  unfold HasRequest, TakeRequest. rewrite Hr, Hd, bool_decide_eq_true_2 by eauto. cbn [negb orb].
  unfold dispatch. mrun. unfold Dispatch. cbn [negb].
  rewrite Hp, Hn. cbn [ToDispatchStatus]. mrun. do 2 rewrite bool_decide_eq_true_2 by done. mrun.
  unfold posted, set_streams. cbn. by rewrite delete_alter_eq.
Qed.

(** The session after a stream was opened, used and removed. *)
Definition served (id : Z) (d : HpackCodec) (s : H2Session) : H2Session :=
  set_decoder d (set_continuation None (set_last_stream_id id (set_outbound (OpenStream id (outbound_ s)) s))).

Lemma HandleHeaders_request id m scheme authority p q hs block d c :
  let s := session c in
  let req := meant_request (connection_id_ s) id m authority p q hs in
  let c0 := mkContext (served id d s) (log c) (tasks c) (dispatching c) in
  id mod 2 = 1 -> 0 <= last_stream_id_ s < id -> streams_ s !! id = None ->
  Z.of_nat (size (streams_ s)) < maximum_concurrent_streams (config_ s) ->
  Decode block (hpack_decoder_ s) = (Ok (request_fields m scheme authority p q hs), d) ->
  ~ In Byte.x3f p -> zlen (target_of p q) < 2 ^ 63 -> Forall regular hs -> ParseMethod m <> Unsupported ->
  post_status (log c) = Accepted -> runs_at_once (log c) = false ->
  HandleHeaders (mkFrameHeader (zlen block) FrameType_Headers 5 id) block c = Ok (FeedReady, posted id req c0).
Proof.
  intros s req c0 Hodd Hlast Hnone Hsize Hdec Hp Hl Hf Hm Hpost Honce.
  set (base := set_last_stream_id id (set_outbound (OpenStream id (outbound_ s)) s)).
  set (ctx := fun d0 k u => mkContext (set_decoder d0 (set_continuation k (set_streams (<[id := u]> (streams_ s)) base)))
                        (log c) (tasks c) (dispatching c)).
  assert (Hon : forall f d0 k u, on_stream id f (ctx d0 k u) = Ok (tt, ctx d0 k (f u))).
  { intros f d0 k u. mrun. unfold ctx, set_streams, set_decoder, set_continuation, base. cbn.
    by rewrite alter_insert_eq. }
  unfold HandleHeaders. cbn [fh_stream_id fh_type fh_length].
  rewrite (proj2 (Z.eqb_neq id 0)) by lia. cbv zeta.
  change (FrameType_Headers =? FrameType_Continuation) with false.
  change (has_flag (mkFrameHeader (zlen block) FrameType_Headers 5 id) FrameFlags_EndStream) with true.
  change (has_flag (mkFrameHeader (zlen block) FrameType_Headers 5 id) FrameFlags_EndHeaders) with true.
  set (t0 := new_stream id s). set (k0 := continuation_stream_id_ s). set (d0 := hpack_decoder_ s).
  eapply (bind_step _ _ _ (Some id) (ctx d0 k0 t0)).
  { unfold headers_stream, GetOrCreateStream. mrun. cbn [fh_stream_id negb]. fold s. rewrite Hodd, Hnone.
    rewrite (proj2 (Z.leb_gt id (last_stream_id_ s))) by lia.
    rewrite bool_decide_eq_false_2 by (by intros []). cbn [negb orb Z.eqb Pos.eqb]. fold s. rewrite ?Hnone.
    rewrite (proj2 (Z.leb_gt (maximum_concurrent_streams (config_ s)) _)) by lia. done. }
  assert (Hat : forall d0 k u, streams_ (session (ctx d0 k u)) !! id = Some u).
  { intros. apply lookup_insert_eq. }
  eapply bind_step; [reflexivity|]. cbv beta iota. unfold Datatypes.id.
  rewrite Hat. cbn [fmap option_fmap option_map]. rewrite bool_decide_eq_false_2 by done.
  eapply (bind_step _ _ _ (Some (0, 0)) (ctx d0 k0 t0)).
  { unfold headers_padding, lift.
    change (has_flag (mkFrameHeader (zlen block) FrameType_Headers 5 id) FrameFlags_Padded) with false.
    change (has_flag (mkFrameHeader (zlen block) FrameType_Headers 5 id) FrameFlags_Priority) with false.
    cbn [negb andb mbind result_bind fh_length]. pose proof (zlen_nonneg block).
    rewrite (proj2 (Z.ltb_ge (zlen block) 0)), (proj2 (Z.ltb_ge (zlen block - 0) 0)) by lia. done. }
  cbv beta iota zeta.
  replace (zlen block - 0 - 0) with (zlen block) by lia. rewrite zslice_all by lia. cbn [negb andb].
  set (t1 := AppendHeaderFragment block t0).
  eapply (bind_step _ _ _ tt (ctx d0 k0 t1)).
  { unfold t1. destruct (zlen block =? 0) eqn:E; cbn [negb]; [unfold AppendHeaderFragment; by rewrite E|apply Hon]. }
  eapply bind_step; [apply Hon|]. set (t2 := SetEndStream t1).
  eapply (bind_step _ _ _ tt (ctx d0 None t2)); [reflexivity|].
  eapply bind_step; [reflexivity|]. unfold Datatypes.id. rewrite Hat.
  assert (Ht2 : headers_complete_ t2 = false /\ header_block_ t2 = block /\ end_stream_ t2 = true /\
    dispatched_ t2 = false /\ body_ t2 = []).
  { unfold t2, t1, AppendHeaderFragment. destruct (Z.eqb_spec (zlen block) 0) as [E|E]; [|done].
    by rewrite (zlen_0 block E). }
  destruct Ht2 as (Hc2 & Hb2 & He2 & Hd2 & Hy2). cbn [fmap option_fmap option_map]. rewrite Hc2.
  rewrite bool_decide_eq_false_2 by done.
  unfold decode_headers. eapply bind_step; [reflexivity|]. unfold Datatypes.id. rewrite Hat, Hb2.
  change (hpack_decoder_ (session (ctx d0 None t2))) with (hpack_decoder_ s). rewrite Hdec. cbv iota.
  eapply (bind_step _ _ _ tt (ctx d None t2)); [reflexivity|]. cbn [mbind result_bind].
  change (connection_id_ (session (ctx d0 None t2))) with (connection_id_ s).
  destruct (assemble_request (connection_id_ s) id m scheme authority p q hs Hp Hl Hf) as [saw ->].
  fold req. cbn [has_method has_path as_request negb orb].
  rewrite bool_decide_eq_false_2 by done. rewrite He2.
  do 3 (eapply bind_step; [apply Hon|]).
  set (t5 := SetState HalfClosedRemote (SetHeadersComplete (SetRequest req t2))).
  rewrite (DispatchRequest_posts id t5 req (ctx d None t5)) by (apply Hat || done).
  change (body_ t5) with (body_ t2). rewrite Hy2. change (set_body [] req) with req.
  unfold posted. cbn. unfold c0, served, set_streams, set_decoder, set_continuation, base, s. cbn.
  by rewrite delete_insert_eq, delete_id.
Qed.
End request.

(** ** Data *)

(** The credit that frames give back, on the connection (0) or on a stream. *)
Definition given_back (id iw w : Z) : Z := if w <? iw / 2 then iw - w else 0.

Lemma grant_given_back id iw w : 0 <= iw ->
  grant id iw w = if given_back id iw w =? 0 then [] else [SentFrame (window_update_frame id (given_back id iw w))].
Proof.
  intros Hiw. unfold grant, given_back. destruct (Z.ltb_spec w (iw / 2)); [|done].
  rewrite (proj2 (Z.eqb_neq _ _)); [done|]. Z.div_mod_to_equations; lia.
Qed.

Lemma refill_given_back id iw w : refill iw w = w + given_back id iw w.
Proof. unfold refill, given_back. destruct (_ <? _); lia. Qed.

(** ** Closing *)

Section closing.
Context `{World}.

(** While it is [Closing], a session only stores what it reads. *)
Lemma closing_feed bytes c :
  let b := receive_buffer_ (session c) in
  state_ (session c) = Closing -> RingReceiveBuffer.inv b ->
  zlen (contents b) + zlen bytes <= maximum_capacity_ b ->
  exists b' r, RingReceiveBuffer.inv b' /\ contents b' = contents b ++ bytes /\ maximum_capacity_ b' = maximum_capacity_ b /\
    Feed bytes c = Ok (r, mkContext (set_buffer b' (session c)) (log c) (tasks c) 0).
Proof.
  intros b Hs Hi Hf. destruct (ring_Append_spec b bytes Hi) as [Hok _].
  destruct (Hok Hf) as (b' & Ea & Hb' & Hc' & Hm).
  exists b', (mkFeedResult FeedReady 0 (ReadableBytes b')). split; [done|]. split; [done|]. split; [done|].
  unfold Feed. mrun. rewrite Hs. cbn [bool_decide decide]. rewrite bool_decide_eq_false_2 by done.
  fold b. rewrite Ea. mrun. rewrite bool_decide_eq_true_2 by done. cbn [negb]. unfold feed_fuel. cbn [Feed_loop].
  mrun. cbn [set_buffer receive_buffer_]. destruct (Empty b'); [done|].
  unfold Feed_iteration, frame_iteration. mrun. cbn [set_buffer state_]. rewrite Hs.
  rewrite bool_decide_eq_false_2 by done. mrun. cbn [set_buffer state_]. rewrite Hs.
  rewrite (bool_decide_eq_false_2 (Closing = Connected)) by done. mrun.
  by rewrite (bool_decide_eq_true_2 (Closing = Closing)) by done.
Qed.

Lemma closing_reads reads : forall c,
  let b := receive_buffer_ (session c) in
  state_ (session c) = Closing -> RingReceiveBuffer.inv b ->
  zlen (contents b ++ concat reads) <= maximum_capacity_ b ->
  exists c' b', session_run (map OpFeed reads) c = Ok (tt, c') /\ session c' = set_buffer b' (session c) /\
    contents b' = contents b ++ concat reads /\ log c' = log c /\ tasks c' = tasks c.
Proof.
  induction reads as [|r reads IH]; intros c b Hs Hi Hf.
  - exists c, b. split; [done|]. cbn. rewrite app_nil_r. split_and!; try done. unfold b. by destruct (session c).
  - cbn [concat] in Hf. rewrite !zlen_app in Hf. pose proof (zlen_nonneg (concat reads)).
    destruct (closing_feed r c Hs Hi) as (b1 & fr & Hb1 & Hc1 & Hm1 & E1); [fold b; lia|].
    destruct (IH (mkContext (set_buffer b1 (session c)) (log c) (tasks c) 0)) as (c' & b' & E & Es & Ec & El & Et); cbn; try done.
    { fold b in Hc1, Hm1. rewrite Hc1, Hm1, !zlen_app. lia. }
    exists c', b'. split; [cbn [map session_run session_step]; eapply bind_step; [eapply bind_step; [exact E1|reflexivity]|exact E]|].
    split; [exact Es|]. split; [|done]. rewrite Ec. cbn. rewrite Hc1. fold b. by rewrite <- app_assoc.
Qed.
End closing.

(** ** The properties *)


(** C30. Flow control of received data.  A DATA frame on an open stream, within
    the two windows and the limit on a body, is accepted: its data without the
    padding is added to the body of the stream, its whole length is taken from
    both windows, and what the session gives back is exactly what the two
    WINDOW_UPDATE frames announce (none is sent for nothing), so that both
    windows stay between half and all of their initial size; when the frame ends
    the stream, the request is dispatched in that state. *)
Theorem h2_data_credit `{World} site n c header payload t off pad :
  let s := session c in
  let id := fh_stream_id header in
  let flow := fh_length header in
  let iw := initial_window_size (config_ s) in
  let w := connection_recv_window_ s - flow in
  let v := recv_window_ t - flow in
  let data := zslice off (flow - off - pad) payload in
  let e := has_flag header FrameFlags_EndStream in
  let update id credit := if credit =? 0 then [] else [SentFrame (window_update_frame id credit)] in
  let c' := logged (update 0 (given_back 0 iw w) ++ update id (given_back id iw v))
    (upd (fun s => set_recv_window (w + given_back 0 iw w) (set_streams
       (<[id := mkH2Stream id (if e then HalfClosedRemote else stream_state_ t) (v + given_back id iw v)
                  (send_window_ t) (header_block_ t) (body_ t ++ data) e true false (request_ t)]> (streams_ s)) s)) c) in
  hinv site None n c -> zlen payload = flow -> streams_ s !! id = Some t ->
  headers_complete_ t = true -> data_padding header payload = Ok (Some (off, pad)) ->
  0 <= w -> 0 <= v -> zlen (body_ t) + (flow - off - pad) <= maximum_request_body_size (config_ s) ->
  HandleData header payload c = (if e then DispatchRequest id c' else Ok (FeedReady, c')) /\
  iw / 2 <= w + given_back 0 iw w <= iw /\ iw / 2 <= v + given_back id iw v <= iw.
Proof.
  intros s id flow iw w v data e update c' Hh Hl Ht Hhc Hpad Hw Hv Hbody.
  pose proof (hi_streams _ _ _ _ Hh id t Ht) as Hs. pose proof (hi_window _ _ _ _ Hh) as Hwin.
  fold s in Hs, Hwin. fold iw in Hs, Hwin. pose proof (sv_window _ _ _ _ _ _ _ Hs) as Hsw.
  pose proof (data_padding_ok header payload Hl) as Hp. rewrite Hpad in Hp.
  pose proof (cf_window _ (hi_config _ _ _ _ Hh)) as Hcw. unfold kMaximumWindow in Hcw. fold s in Hcw. fold iw in Hcw.
  assert (He : end_stream_ t = false).
  { destruct (end_stream_ t) eqn:E; [|done]. by pose proof (hi_live _ _ _ _ Hh id t Ht Hhc E). }
  rewrite <- (refill_given_back 0), <- (refill_given_back id).
  assert (0 <= flow) by lia.
  split; [|split; apply refill_range; unfold w, v in *; lia].
  unfold HandleData. fold id. rewrite (proj2 (Z.eqb_neq id 0)) by (pose proof (sv_range _ _ _ _ _ _ _ Hs); lia).
  unfold GetOrCreateStream. mrun. fold s. rewrite Ht. cbn [option_bind]. fold s. rewrite Ht, Hhc, He.
  rewrite bool_decide_eq_false_2 by apply (sv_state _ _ _ _ _ _ _ Hs). cbn [negb orb]. rewrite Hpad.
  fold flow. rewrite (proj2 (Z.ltb_ge (recv_window_ t) flow)), (proj2 (Z.ltb_ge (connection_recv_window_ s) flow)) by lia.
  pose proof (zlen_nonneg (body_ t)). cbn [orb].
  rewrite (proj2 (Z.ltb_ge (maximum_request_body_size (config_ s)) _)) by lia.
  rewrite (proj2 (Z.ltb_ge (maximum_request_body_size (config_ s) - _) _)) by lia. cbn [orb].
  fold e data. rewrite (accept_data_spec id flow data e t c) by (done || fold s; fold iw; lia). cbv iota.
  fold s iw. change (connection_recv_window_ s - flow) with w. change (recv_window_ t - flow) with v.
  assert (Ec : c' = logged (grant 0 iw w ++ grant id iw v) (upd (fun s0 => set_recv_window (refill iw w)
    (set_streams (<[id := data_stream iw flow data e t]> (streams_ s0)) s0)) c)).
  { unfold c', update, data_stream. rewrite !grant_given_back by lia. rewrite (refill_given_back 0), (refill_given_back id).
    rewrite He, Hhc, (sv_fresh _ _ _ _ _ _ _ Hs), (sv_id _ _ _ _ _ _ _ Hs). done. }
  rewrite Ec. by destruct e.
Qed.

(** A session that goes away: it reads a GOAWAY frame, followed by the bytes
    [rest], or its owner lets it send one, while [rest] is in the buffer;
    [announced] is what it sends. *)
Inductive goaway `{World} (c : context) : session_op -> list Event -> list byte -> Prop :=
  | goaway_received last_stream_id error_code debug_data rest :
      received_initial_settings_ (session c) = true -> continuation_stream_id_ (session c) = None ->
      contents (receive_buffer_ (session c)) = [] ->
      8 + zlen debug_data <= maximum_frame_size (config_ (session c)) ->
      17 + zlen debug_data + zlen rest <= maximum_capacity_ (receive_buffer_ (session c)) ->
      goaway c (OpFeed (EncodeGoaway last_stream_id error_code debug_data ++ rest)) [] rest
  | goaway_sent error_code :
      goaway c (OpGoaway error_code) [SentFrame (EncodeGoaway (last_stream_id_ (session c)) error_code [])]
        (contents (receive_buffer_ (session c))).

(** C31. GOAWAY.  A connected session that reads a GOAWAY frame, or that is told
    to send one, becomes [Closing], and from then on only collects bytes: the
    bytes behind the frame and all later reads, as long as they fit into the
    buffer, are stored and nothing else happens.  No frame is handled or sent
    (but the GOAWAY itself), no request is dispatched, no window or stream
    changes, so streams that were open are never completed.  (Tasks of requests
    that were dispatched before still send their responses when they run.) *)
Theorem h2_goaway_inert `{World} site n c op announced rest reads :
  hinv site None n c -> state_ (session c) = Connected -> goaway c op announced rest ->
  zlen (rest ++ concat reads) <= maximum_capacity_ (receive_buffer_ (session c)) ->
  exists c' b, session_run (op :: map OpFeed reads) c = Ok (tt, c') /\
    session c' = set_buffer b (set_state Closing (session c)) /\ contents b = rest ++ concat reads /\
    log c' = log c ++ announced /\ tasks c' = tasks c.
Proof.
  intros Hh Hst Hg Hf. pose proof (hi_ring _ _ _ _ Hh) as Hi.
  assert (Hop : exists c1 b1, session_step op c = Ok (tt, c1) /\ session c1 = set_buffer b1 (set_state Closing (session c)) /\
    RingReceiveBuffer.inv b1 /\ contents b1 = rest /\ maximum_capacity_ b1 = maximum_capacity_ (receive_buffer_ (session c)) /\
    log c1 = log c ++ announced /\ tasks c1 = tasks c).
  { destruct Hg as [last_stream_id error_code debug_data rest Hset Hcont Hempty Hmax Hcap|error_code].
    - set (payload := be31 last_stream_id ++ be32 error_code ++ debug_data).
      assert (Hp : zlen payload = 8 + zlen debug_data) by (unfold payload; rewrite !zlen_app; change (zlen (be31 _)) with 4; change (zlen (be32 _)) with 4; lia).
      assert (Eg : EncodeGoaway last_stream_id error_code debug_data =
        EncodeHeader (mkFrameHeader (u32 (zlen payload)) FrameType_Goaway 0 0) ++ payload) by done. clearbody payload.
      pose proof (zlen_nonneg debug_data). pose proof (cf_frame _ (hi_config _ _ _ _ Hh)) as Hcf.
      assert (Hu : u32 (zlen payload) = zlen payload) by (apply u32_small; lia).
      set (c1 := upd (set_state Closing) (mkContext (session c) (log c) (tasks c) 0)).
      destruct (Feed_front (mkFrameHeader (u32 (zlen payload)) FrameType_Goaway 0 0) payload rest c c1)
        as (b & fuel & Hb & Hbc & Hbm & E); try done; try (cbn [fh_length fh_stream_id]; lia).
      + split; cbn [fh_length fh_type fh_flags fh_stream_id]; unfold FrameType_Goaway; lia.
      + intros b Hb Hbc. unfold accept_frame. eapply bind_step; [reflexivity|]. unfold Datatypes.id.
        cbn [upd session set_buffer received_initial_settings_ continuation_stream_id_]. rewrite Hset, Hcont.
        cbn [negb andb]. unfold handle_frame, HandleGoaway. cbn. rewrite Hu. rewrite (proj2 (Z.ltb_ge _ _)) by lia. done.
      + eexists _, b. split.
        { cbn [session_step]. rewrite Eg, <- app_assoc. eapply bind_step; [exact E|reflexivity]. }
        split_and!; try done.
        * cbn. by rewrite app_nil_r.
    - eexists _, (receive_buffer_ (session c)). cbn [session_step]. split.
      { unfold SendGoaway. mrun. rewrite Hst. reflexivity. }
      split_and!; try done. }
  destruct Hop as (c1 & b1 & E1 & Es1 & Hi1 & Hc1 & Hm1 & El1 & Et1).
  destruct (closing_reads reads c1) as (c' & b' & E & Es & Ec & El & Et); rewrite ?Es1; cbn; try done.
  { by rewrite Hc1, Hm1. }
  exists c', b'. split; [cbn [session_run]; eapply bind_step; [exact E1|exact E]|].
  rewrite Es, Es1. split; [done|]. rewrite Ec, Es1, El, Et, El1, Et1. cbn. by rewrite Hc1.
Qed.

(** *** Sample sessions *)

Definition sample_after (ops : list session_op) : context :=
  match @session_run sample_h2_world ops (mkContext sample_h2_session [] [] 0) with
  | Ok (_, c) => c
  | Throw _ => mkContext sample_h2_session [] [] 0
  end.

Lemma sample_after_ok ops : zlen (fed ops) < 2 ^ 56 ->
  hinv sample_h2_site None (zlen (fed ops)) (sample_after ops).
Proof.
  intros Hf.
  assert (H0 : hinv sample_h2_site None 0 (mkContext sample_h2_session [] [] 0)).
  { apply (@hinv_make sample_h2_world sample_h2_laws); [vm_compute; reflexivity| |cbn; lia|cbn; lia|exact sample_h2_deliverable].
    split; cbn; unfold kMaximumWindow; lia. }
  pose proof (@session_run_runs sample_h2_world sample_h2_laws sample_h2_site ops 0 _ Hf H0) as Hr.
  unfold sample_after. destruct (session_run ops _) as [[[] c]|]; [exact Hr|].
  pose proof (zlen_nonneg (fed ops)). apply (hinv_more sample_h2_site None 0); [lia|done].
Qed.

(** The handshake. *)
Definition sample_handshake : list session_op := [OpFeed (kPreface ++ EncodeSettings [])].

(** The handshake and a POST whose data is to follow. *)
Definition sample_post : list session_op :=
  sample_handshake ++ [OpFeed (frame_of FrameType_Headers 4 1 [Byte.x83; Byte.x84; Byte.x86])].


Lemma h2_data_credit_witness :
  let c := sample_after sample_post in
  exists t, streams_ (session c) !! 1 = Some t /\
  32767 <= connection_recv_window_ (session c) - 5 + given_back 0 65535 (connection_recv_window_ (session c) - 5) <= 65535 /\
  exists c', @HandleData sample_h2_world (mkFrameHeader 5 FrameType_Data 0 1) $"hello" c = Ok (FeedReady, c').
Proof.
  intros c.
  destruct (streams_ (session c) !! 1) as [t|] eqn:Et; [|exfalso; revert Et; vm_compute; discriminate].
  exists t. split; [reflexivity|].
  destruct (@h2_data_credit sample_h2_world sample_h2_site (zlen (fed sample_post)) c
    (mkFrameHeader 5 FrameType_Data 0 1) $"hello" t 0 0) as (E & H1 & _).
  - apply sample_after_ok. vm_compute. reflexivity.
  - reflexivity.
  - exact Et.
  - revert Et. vm_compute. intros [= <-]. reflexivity.
  - reflexivity.
  - vm_compute. discriminate.
  - revert Et. vm_compute. intros [= <-]. discriminate.
  - revert Et. vm_compute. intros [= <-]. discriminate.
  - split; [exact H1|]. eexists. exact E.
Defined.

(** A GOAWAY frame followed by a request, which comes in two reads. *)
Lemma h2_goaway_inert_witness :
  let c := sample_after sample_handshake in
  let op := OpFeed (EncodeGoaway 0 0 [] ++ ztake 5 sample_h2_request) in
  exists c' b, @session_run sample_h2_world (op :: map OpFeed [zdrop 5 sample_h2_request]) c = Ok (tt, c') /\
    session c' = set_buffer b (set_state Closing (session c)) /\
    contents b = ztake 5 sample_h2_request ++ zdrop 5 sample_h2_request /\ log c' = log c ++ [].
Proof.
  intros c op.
  destruct (@h2_goaway_inert sample_h2_world sample_h2_site (zlen (fed sample_handshake)) c op []
    (ztake 5 sample_h2_request) [zdrop 5 sample_h2_request]) as (c' & b & E & Es & Ec & El & _).
  - apply sample_after_ok. vm_compute. reflexivity.
  - vm_compute. reflexivity.
  - apply goaway_received; vm_compute; first [reflexivity|discriminate].
  - vm_compute. discriminate.
  - exists c', b. split; [exact E|]. split; [exact Es|]. split; [exact Ec|exact El].
Defined.
