(* ===== verification/SendQueue.v ===== *)
(** * The send queue of a connection

    [SendQueue] of [send_queue.h] and [send_queue.cpp]: a bounded FIFO of
    batches of immutable buffers with a partially sent front.  A [shared_ptr] to
    an immutable vector is its bytes, [None] when it is null.  Running out of
    memory, which [TryPushBatch] turns into [false], is not modelled. *)

From S2P Require Import Prelude.

Abbreviation SharedSendBuffer := (option (list byte)).

Record SendSlice := mkSlice {
  slice_buffer : SharedSendBuffer;
  slice_offset : Z;
  slice_size : Z;
}.

Record SendGather := mkGather {
  slices : list SendSlice;
  total_bytes : Z;
}.

Definition SendGather_Empty (g : SendGather) : bool := zlen (slices g) =? 0.

Inductive SendConsumeResult := Progress | ItemCompleted | Invalid.

#[export] Instance SendConsumeResult_eq_dec : EqDecision SendConsumeResult.
Proof. solve_decision. Defined.

(** The buffer of a segment is not null: [TryPushBatch] checked it. *)
Record Segment := mkSegment {
  seg_buffer : list byte;
  seg_offset : Z;
}.

Record Batch := mkBatch {
  segments : list Segment;
  next_segment : Z;
}.

Record SendQueue := mkSendQueue {
  maximum_items_ : Z;
  maximum_bytes_ : Z;
  batches_ : list Batch;
  item_count_ : Z;
  queued_bytes_ : Z;
}.

Definition SendQueue_make (maximum_items maximum_bytes : Z) : result SendQueue :=
  if (maximum_items =? 0) || (maximum_bytes =? 0) then Throw invalid_argument
  else Ok (mkSendQueue maximum_items maximum_bytes [] 0 0).

(** The loop that checks a batch: its items and bytes, or a refusal. *)
Fixpoint admission_loop (q : SendQueue) (available_items : Z) (buffers : list SharedSendBuffer)
    (batch_items batch_bytes : Z) : option (Z * Z) :=
  match buffers with
  | [] => Some (batch_items, batch_bytes)
  | None :: _ => None
  | Some buffer :: buffers =>
      if zlen buffer =? 0 then admission_loop q available_items buffers batch_items batch_bytes
      else if batch_items =? available_items then None
      else if u64 (u64 (maximum_bytes_ q - queued_bytes_ q) - batch_bytes) <? zlen buffer then None
      else admission_loop q available_items buffers (u64 (batch_items + 1)) (u64 (batch_bytes + zlen buffer))
  end.

(** The segments of the batch: the buffers that are not empty. *)
Definition batch_segments (buffers : list SharedSendBuffer) : list Segment :=
  omap (fun b => match b with
    | Some buffer => if zlen buffer =? 0 then None else Some (mkSegment buffer 0)
    | None => None
    end) buffers.

Definition TryPushBatch (buffers : list SharedSendBuffer) (q : SendQueue) : bool * SendQueue :=
  match admission_loop q (u64 (maximum_items_ q - item_count_ q)) buffers 0 0 with
  | None => (false, q)
  | Some (batch_items, batch_bytes) =>
      if batch_items =? 0 then (true, q)
      else (true, mkSendQueue (maximum_items_ q) (maximum_bytes_ q)
                    (batches_ q ++ [mkBatch (batch_segments buffers) 0])
                    (u64 (item_count_ q + batch_items)) (u64 (queued_bytes_ q + batch_bytes)))
  end.

Definition TryPush (buffer : SharedSendBuffer) (q : SendQueue) : bool * SendQueue :=
  TryPushBatch [buffer] q.

(** [batch.segments[batch.next_segment]] *)
Definition current (b : Batch) : result Segment :=
  match znth (segments b) (next_segment b) with
  | Some s => Ok s
  | None => Throw UndefinedBehavior
  end.

Definition Front (q : SendQueue) : result SendSlice :=
  match batches_ q with
  | [] => Ok (mkSlice None 0 0)
  | batch :: _ =>
      item ← current batch;
      Ok (mkSlice (Some (seg_buffer item)) (seg_offset item) (u64 (zlen (seg_buffer item) - seg_offset item)))
  end.

(** The inner loop of [Gather], over the segments from [next_segment] on. *)
Fixpoint gather_segments (maximum_segments maximum_bytes : Z) (segs : list Segment) (g : SendGather)
    : SendGather :=
  match segs with
  | [] => g
  | s :: segs =>
      if (zlen (slices g) <? maximum_segments) && (total_bytes g <? maximum_bytes) then
        let remaining := u64 (zlen (seg_buffer s) - seg_offset s) in
        let bytes := Z.min remaining (u64 (maximum_bytes - total_bytes g)) in
        gather_segments maximum_segments maximum_bytes segs
          (mkGather (slices g ++ [mkSlice (Some (seg_buffer s)) (seg_offset s) bytes])
             (u64 (total_bytes g + bytes)))
      else g
  end.

Fixpoint gather_batches (maximum_segments maximum_bytes : Z) (bs : list Batch) (g : SendGather) : SendGather :=
  match bs with
  | [] => g
  | b :: bs =>
      let g := gather_segments maximum_segments maximum_bytes (zdrop (next_segment b) (segments b)) g in
      if (zlen (slices g) =? maximum_segments) || (total_bytes g =? maximum_bytes) then g
      else gather_batches maximum_segments maximum_bytes bs g
  end.

Definition Gather (maximum_segments maximum_bytes : Z) (q : SendQueue) : SendGather :=
  if (maximum_segments =? 0) || (maximum_bytes =? 0) || bool_decide (batches_ q = [])
  then mkGather [] 0
  else gather_batches maximum_segments maximum_bytes (batches_ q) (mkGather [] 0).

Definition set_front (bs : list Batch) (items bytes : Z) (q : SendQueue) : SendQueue :=
  mkSendQueue (maximum_items_ q) (maximum_bytes_ q) bs items bytes.

(** The loop of [Consume]; the flag is [completed_segment]. *)
Fixpoint Consume_loop (fuel : nat) (bytes_to_consume : Z) (completed_segment : bool) (q : SendQueue)
    : result (bool * SendQueue) :=
  match fuel with
  | O => Throw NonTermination
  | S fuel =>
      if bytes_to_consume =? 0 then Ok (completed_segment, q)
      else
        match batches_ q with
        | [] => Throw UndefinedBehavior
        | batch :: rest =>
            segment ← current batch;
            let remaining := u64 (zlen (seg_buffer segment) - seg_offset segment) in
            let consumed := Z.min bytes_to_consume remaining in
            let segment := mkSegment (seg_buffer segment) (u64 (seg_offset segment + consumed)) in
            let batch := mkBatch (<[Z.to_nat (next_segment batch) := segment]> (segments batch))
                           (next_segment batch) in
            let queued := u64 (queued_bytes_ q - consumed) in
            let left := u64 (bytes_to_consume - consumed) in
            if seg_offset segment =? zlen (seg_buffer segment) then
              let batch := mkBatch (segments batch) (u64 (next_segment batch + 1)) in
              let bs := if next_segment batch =? zlen (segments batch) then rest else batch :: rest in
              Consume_loop fuel left true (set_front bs (u64 (item_count_ q - 1)) queued q)
            else Consume_loop fuel left completed_segment (set_front (batch :: rest) (item_count_ q) queued q)
        end
  end.

(** Every iteration but the last two finishes a segment. *)
Definition consume_fuel (q : SendQueue) : nat :=
  S (S (length (concat (map segments (batches_ q))))).

Definition Consume (transferred_bytes : Z) (q : SendQueue) : result (SendConsumeResult * SendQueue) :=
  if bool_decide (batches_ q = []) || (transferred_bytes =? 0) || (queued_bytes_ q <? transferred_bytes)
  then Ok (Invalid, q)
  else
    '(completed_segment, q) ← Consume_loop (consume_fuel q) transferred_bytes false q;
    if negb completed_segment then Ok (Progress, q)
    else
      match batches_ q with
      | [] => Ok (ItemCompleted, q)
      | batch :: _ =>
          segment ← current batch;
          Ok (if seg_offset segment =? 0 then ItemCompleted else Progress, q)
      end.

Definition Clear (q : SendQueue) : SendQueue := set_front [] 0 0 q.

Definition Empty (q : SendQueue) : bool := bool_decide (batches_ q = []).
Definition ItemCount (q : SendQueue) : Z := item_count_ q.
Definition BatchCount (q : SendQueue) : Z := zlen (batches_ q).
Definition QueuedBytes (q : SendQueue) : Z := queued_bytes_ q.
Definition MaximumItems (q : SendQueue) : Z := maximum_items_ q.
Definition MaximumBytes (q : SendQueue) : Z := maximum_bytes_ q.

(** ** What a queue holds *)

Definition seg_bytes (s : Segment) : list byte := zdrop (seg_offset s) (seg_buffer s).
Definition live (b : Batch) : list Segment := zdrop (next_segment b) (segments b).
(** The segments that are not sent, in order. *)
Definition lives (q : SendQueue) : list Segment := concat (map live (batches_ q)).
Definition bytes_in (segs : list Segment) : list byte := concat (map seg_bytes segs).
(** The bytes that are not sent: the abstraction of a queue. *)
Definition pending (q : SendQueue) : list byte := bytes_in (lives q).

Definition slice_bytes (s : SendSlice) : list byte :=
  zslice (slice_offset s) (slice_size s) (default [] (slice_buffer s)).
Definition gather_bytes (g : SendGather) : list byte := concat (map slice_bytes (slices g)).

Record seg_ok (s : Segment) : Prop := {
  so_offset : 0 <= seg_offset s < zlen (seg_buffer s);
  so_size : zlen (seg_buffer s) < 2 ^ 64;
}.

Record batch_ok (b : Batch) : Prop := {
  bo_next : 0 <= next_segment b < zlen (segments b);
  bo_size : zlen (segments b) < 2 ^ 64;
  bo_live : Forall seg_ok (live b);
}.

Record inv (q : SendQueue) : Prop := {
  inv_batches : Forall batch_ok (batches_ q);
  inv_items : item_count_ q = zlen (lives q);
  inv_bytes : queued_bytes_ q = zlen (pending q);
  inv_max_items : item_count_ q <= maximum_items_ q < 2 ^ 64;
  inv_max_bytes : queued_bytes_ q <= maximum_bytes_ q < 2 ^ 64;
  inv_fresh : Forall (fun s => seg_offset s = 0) (tail (lives q));
}.

Lemma zlen_seg_bytes s : seg_ok s -> zlen (seg_bytes s) = zlen (seg_buffer s) - seg_offset s.
Proof. intros []. unfold seg_bytes. rewrite zlen_zdrop. lia. Qed.

Lemma bytes_in_app l k : bytes_in (l ++ k) = bytes_in l ++ bytes_in k.
Proof. unfold bytes_in. by rewrite map_app, concat_app. Qed.

Lemma bytes_in_cons s l : bytes_in (s :: l) = seg_bytes s ++ bytes_in l.
Proof. done. Qed.

Lemma live_cons b : batch_ok b -> exists s, current b = Ok s /\ seg_ok s /\
  live b = s :: zdrop (next_segment b + 1) (segments b).
Proof.
  intros [Hn Hs Hl]. destruct (znth_is_Some (segments b) (next_segment b) Hn) as [s Es].
  assert (E : live b = s :: zdrop (next_segment b + 1) (segments b)).
  { unfold live, zdrop, znth in *. destruct (Z.ltb_spec (next_segment b) 0); [lia|].
    rewrite (drop_S _ s) by done. do 2 f_equal. lia. }
  exists s. unfold current. rewrite Es. split; [done|]. split; [|done].
  rewrite E in Hl. by apply Forall_cons in Hl as [? _].
Qed.

Lemma Forall_live q : inv q -> Forall seg_ok (lives q).
Proof.
  intros Hq. unfold lives. apply Forall_concat, Forall_map. eapply Forall_impl; [apply Hq|]. by intros b [].
Qed.

Lemma pending_nil q : inv q -> pending q = [] <-> batches_ q = [].
Proof.
  intros Hq. split; [|by unfold pending, lives; intros ->].
  intros E. destruct (batches_ q) as [|b bs] eqn:Eb; [done|]. destruct Hq as [Hb _ _ _ _ _].
  unfold pending, lives in E. rewrite Eb in *. apply Forall_cons in Hb as [Hb _].
  destruct (live_cons b Hb) as (s & _ & Hs & El). cbn [map concat] in E.
  rewrite El, <- app_comm_cons, bytes_in_cons in E. apply app_eq_nil in E as [E _]. apply (f_equal zlen) in E.
  rewrite (zlen_seg_bytes s Hs), zlen_nil in E. destruct Hs. lia.
Qed.

(** ** Admission *)

Definition nonempty (bs : list SharedSendBuffer) : list (list byte) :=
  List.filter (fun b => negb (zlen b =? 0)) (omap id bs).

Lemma batch_segments_eq bs : batch_segments bs = map (fun b => mkSegment b 0) (nonempty bs).
Proof.
  unfold nonempty. induction bs as [|[b|] bs IH]; cbn; [done| |done].
  destruct (zlen b =? 0); cbn; by rewrite <- IH.
Qed.

Lemma batch_segments_bytes bs : bytes_in (batch_segments bs) = concat (nonempty bs).
Proof.
  rewrite batch_segments_eq. unfold bytes_in. induction (nonempty bs) as [|b l IH]; [done|]. cbn. by rewrite IH.
Qed.

Lemma zlen_concat_nonneg (l : list (list byte)) : 0 <= zlen (concat l).
Proof. apply zlen_nonneg. Qed.

(** The check refuses exactly a null buffer, too many items or too many bytes. *)
Lemma admission_loop_spec q avail : 
  0 <= queued_bytes_ q <= maximum_bytes_ q -> maximum_bytes_ q < 2 ^ 64 -> 0 <= avail < 2 ^ 64 ->
  forall bs items bytes, 0 <= items <= avail -> 0 <= bytes <= maximum_bytes_ q - queued_bytes_ q ->
  let n := items + zlen (nonempty bs) in
  let m := bytes + zlen (concat (nonempty bs)) in
  admission_loop q avail bs items bytes =
    if forallb (fun b => bool_decide (is_Some b)) bs && (n <=? avail) &&
       (m <=? maximum_bytes_ q - queued_bytes_ q)
    then Some (n, m) else None.
Proof.
  intros Hq Hm Ha. unfold nonempty. cbv zeta.
  induction bs as [|[b|] bs IH]; intros items bytes Hi Hb.
  - cbn -[zlen]. rewrite zlen_nil, !Z.add_0_r.
    by rewrite (proj2 (Z.leb_le items avail)), (proj2 (Z.leb_le bytes _)) by lia.
  - cbn [admission_loop]. cbn [omap list_omap id forallb].
    rewrite bool_decide_eq_true_2 by eauto. cbn [andb].
    pose proof (zlen_nonneg b). cbn [List.filter]. destruct (Z.eqb_spec (zlen b) 0) as [E|E]; cbn [negb].
    { by rewrite IH. }
    rewrite zlen_cons. cbn [concat]. rewrite zlen_app. set (k := List.filter _ _) in *.
    pose proof (zlen_nonneg k). pose proof (zlen_concat_nonneg k). usimpl.
    destruct (Z.eqb_spec items avail).
    { rewrite (proj2 (Z.leb_gt (items + (1 + zlen k)) avail)) by lia. by rewrite andb_false_r. }
    destruct (Z.ltb_spec (maximum_bytes_ q - queued_bytes_ q - bytes) (zlen b)).
    { rewrite (proj2 (Z.leb_gt (bytes + _) _)) by lia. by rewrite andb_false_r. }
    usimpl. rewrite IH by lia. fold k. 
    replace (items + 1 + zlen k) with (items + (1 + zlen k)) by lia.
    by replace (bytes + zlen b + zlen (concat k)) with (bytes + (zlen b + zlen (concat k))) by lia.
  - done.
Qed.

Lemma concat_nonempty bs : concat (nonempty bs) = concat (omap id bs).
Proof.
  unfold nonempty. induction (omap id bs) as [|b l IH]; [done|]. cbn [List.filter].
  destruct (Z.eqb_spec (zlen b) 0) as [E|E]; cbn [negb concat]; [|by rewrite IH].
  by rewrite IH, (zlen_0 b E).
Qed.

(** Whether a batch fits. *)
Definition fits (bs : list SharedSendBuffer) (q : SendQueue) : bool :=
  forallb (fun b => bool_decide (is_Some b)) bs &&
  (item_count_ q + zlen (nonempty bs) <=? maximum_items_ q) &&
  (queued_bytes_ q + zlen (concat (omap id bs)) <=? maximum_bytes_ q).

Lemma nonempty_segments_ok bs m : zlen (concat (nonempty bs)) <= m -> m < 2 ^ 64 ->
  Forall seg_ok (batch_segments bs).
Proof.
  intros Hm Hlt. rewrite batch_segments_eq. apply Forall_map, Forall_forall. intros b Hb.
  apply list_elem_of_In, filter_In in Hb as [Hb Hz]. apply negb_true_iff, Z.eqb_neq in Hz.
  assert (zlen b <= zlen (concat (nonempty bs))).
  { rewrite concat_nonempty. apply list_elem_of_In, list_elem_of_split in Hb as (l & k & ->).
    rewrite concat_app. cbn [concat]. rewrite !zlen_app. pose proof (zlen_nonneg (concat l)).
    pose proof (zlen_nonneg (concat k)). lia. }
  pose proof (zlen_nonneg b). split; cbn; lia.
Qed.

Lemma tail_app_Forall {A} (P : A -> Prop) l k : Forall P (tail l) -> Forall P k -> Forall P (tail (l ++ k)).
Proof.
  destruct l as [|a l]; cbn; [|by intros; apply Forall_app]. intros _ Hk. destruct k; [done|]. by apply Forall_cons in Hk as [_ ?].
Qed.

Lemma TryPushBatch_spec bs q : inv q -> exists q',
  TryPushBatch bs q = (fits bs q, q') /\ inv q' /\
  maximum_items_ q' = maximum_items_ q /\ maximum_bytes_ q' = maximum_bytes_ q /\
  pending q' = pending q ++ (if fits bs q then concat (omap id bs) else []) /\
  (fits bs q = false -> q' = q).
Proof.
  intros Hq. destruct (Hq) as [Hb Hi Hy Hmi Hmb Hf]. unfold TryPushBatch.
  pose proof (zlen_nonneg (lives q)). pose proof (zlen_nonneg (pending q)). usimpl.
  rewrite admission_loop_spec by lia. cbv zeta. rewrite !Z.add_0_l. unfold fits. rewrite concat_nonempty.
  set (ok := forallb _ bs). set (n := zlen (nonempty bs)). set (m := zlen (concat (omap id bs))).
  replace (n <=? maximum_items_ q - item_count_ q) with (item_count_ q + n <=? maximum_items_ q)
    by (apply eq_iff_eq_true; rewrite !Z.leb_le; lia).
  replace (m <=? maximum_bytes_ q - queued_bytes_ q) with (queued_bytes_ q + m <=? maximum_bytes_ q)
    by (apply eq_iff_eq_true; rewrite !Z.leb_le; lia).
  destruct (ok && _ && _) eqn:E.
  2:{ exists q. split_and!; try done. by rewrite app_nil_r. }
  rewrite !andb_true_iff, !Z.leb_le in E. destruct E as [[_ En] Em].
  assert (Hn0 : 0 <= n) by apply zlen_nonneg. assert (Hm0 : 0 <= m) by apply zlen_nonneg.
  destruct (Z.eqb_spec n 0) as [E0|E0].
  { exists q. split_and!; try done. unfold n in E0. apply zlen_0 in E0.
    rewrite <- concat_nonempty, E0. cbn. by rewrite app_nil_r. }
  usimpl. eexists. split; [done|].
  set (b := mkBatch (batch_segments bs) 0). set (q' := mkSendQueue _ _ _ _ _).
  assert (Hlen : zlen (batch_segments bs) = n).
  { rewrite batch_segments_eq. unfold zlen, n. by rewrite length_map. }
  assert (Hlives : lives q' = lives q ++ batch_segments bs).
  { unfold lives, q'. cbn [batches_]. rewrite map_app, concat_app. cbn [map concat]. by rewrite app_nil_r. }
  assert (Hpend : pending q' = pending q ++ concat (omap id bs)).
  { unfold pending. by rewrite Hlives, bytes_in_app, batch_segments_bytes, concat_nonempty. }
  split; [|split_and!; done].
  split; cbn -[lives pending]; rewrite ?Hlives, ?Hpend, ?zlen_app, ?Hlen; fold m; try lia.
  - apply Forall_app. split; [done|]. apply Forall_singleton. split; cbn; [lia|lia|].
    apply (nonempty_segments_ok bs m); [|lia]. by rewrite concat_nonempty.
  - apply tail_app_Forall; [done|]. rewrite batch_segments_eq. apply Forall_map, Forall_true. done.
Qed.

(** ** Gathering *)

Record gather_ok (maximum_segments maximum_bytes : Z) (g : SendGather) : Prop := {
  go_total : total_bytes g = zlen (gather_bytes g);
  go_bytes : total_bytes g <= maximum_bytes;
  go_slices : zlen (slices g) <= maximum_segments;
}.

Definition gather_full (maximum_segments maximum_bytes : Z) (g : SendGather) : Prop :=
  zlen (slices g) = maximum_segments \/ total_bytes g = maximum_bytes.

Section gather.
Context (maximum_segments maximum_bytes : Z) (Hmb : maximum_bytes < 2 ^ 64).

Lemma gather_segments_stop segs g : gather_full maximum_segments maximum_bytes g ->
  gather_segments maximum_segments maximum_bytes segs g = g.
Proof.
  intros Hf. destruct segs as [|s segs]; [done|]. cbn. destruct (_ && _) eqn:E; [|done].
  rewrite andb_true_iff, !Z.ltb_lt in E. destruct Hf; lia.
Qed.

Lemma gather_segments_app l k g :
  gather_segments maximum_segments maximum_bytes (l ++ k) g =
  gather_segments maximum_segments maximum_bytes k (gather_segments maximum_segments maximum_bytes l g).
Proof.
  revert g. induction l as [|s l IH]; intros g; [done|]. cbn. destruct (_ && _) eqn:E; [apply IH|].
  destruct k as [|s' k]; [done|]. cbn. by rewrite E.
Qed.

(** The two loops gather from the segments in order. *)
Lemma gather_batches_eq bs : forall g,
  gather_batches maximum_segments maximum_bytes bs g =
  gather_segments maximum_segments maximum_bytes (concat (map live bs)) g.
Proof.
  induction bs as [|b bs IH]; intros g; [done|]. cbn [gather_batches map concat].
  rewrite gather_segments_app. fold (live b). destruct (_ || _) eqn:E; [|apply IH].
  rewrite (gather_segments_stop (concat (map live bs))); [done|]. unfold gather_full.
  rewrite orb_true_iff, !Z.eqb_eq in E. done.
Qed.

Lemma gather_step s g : seg_ok s -> gather_ok maximum_segments maximum_bytes g ->
  zlen (slices g) < maximum_segments -> total_bytes g < maximum_bytes ->
  let bytes := Z.min (u64 (zlen (seg_buffer s) - seg_offset s)) (u64 (maximum_bytes - total_bytes g)) in
  let g' := mkGather (slices g ++ [mkSlice (Some (seg_buffer s)) (seg_offset s) bytes])
              (u64 (total_bytes g + bytes)) in
  0 < bytes /\ gather_ok maximum_segments maximum_bytes g' /\ total_bytes g' = total_bytes g + bytes /\
  gather_bytes g' = gather_bytes g ++ ztake bytes (seg_bytes s) /\
  (bytes = zlen (seg_bytes s) \/ total_bytes g' = maximum_bytes).
Proof.
  intros Hs [Ht Hb Hl] Hlt Hbt bytes g'. destruct (Hs) as [Ho Hz].
  pose proof (zlen_nonneg (gather_bytes g)). pose proof (zlen_seg_bytes s Hs) as Hsb.
  assert (Hbytes : bytes = Z.min (zlen (seg_buffer s) - seg_offset s) (maximum_bytes - total_bytes g)).
  { unfold bytes. by usimpl. }
  clearbody bytes.
  assert (Et : total_bytes g' = total_bytes g + bytes) by (unfold g'; cbn; rewrite u64_small; lia).
  assert (Eg : gather_bytes g' = gather_bytes g ++ ztake bytes (seg_bytes s)).
  { unfold gather_bytes, g'. cbn [slices]. rewrite map_app, concat_app. cbn [map concat]. by rewrite app_nil_r. }
  split; [lia|]. split; [|split; [done|split; [done|lia]]]. split.
  - rewrite Et, Eg, zlen_app, zlen_ztake. lia.
  - lia.
  - unfold g'. cbn [slices]. rewrite zlen_app. change (zlen [_]) with 1. lia.
Qed.

(** What is gathered is a prefix, as long as the limits permit. *)
Lemma gather_segments_spec segs : Forall seg_ok segs -> forall g, gather_ok maximum_segments maximum_bytes g ->
  let g' := gather_segments maximum_segments maximum_bytes segs g in
  gather_ok maximum_segments maximum_bytes g' /\
  (exists n, 0 <= n /\ gather_bytes g' = gather_bytes g ++ ztake n (bytes_in segs)) /\
  (gather_full maximum_segments maximum_bytes g' \/ gather_bytes g' = gather_bytes g ++ bytes_in segs) /\
  (segs <> [] -> ~ gather_full maximum_segments maximum_bytes g -> total_bytes g < total_bytes g').
Proof.
  induction 1 as [|s segs Hs Hsegs IH]; intros g Hg g'.
  { change (bytes_in []) with (@nil byte). split; [done|].
    split; [exists 0; split; [done|]; by rewrite ztake_nil, app_nil_r|].
    split; [right; by rewrite app_nil_r|]. done. }
  unfold g'. clear g'. cbn [gather_segments]. destruct (_ && _) eqn:E.
  - rewrite andb_true_iff, !Z.ltb_lt in E. destruct E as [E1 E2].
    destruct (gather_step s g Hs Hg E1 E2) as (Hpos & Hg1 & Et & Eb & Hfull).
    set (bytes := Z.min _ _) in *. set (g1 := mkGather _ _) in *.
    destruct (IH g1 Hg1) as (Hg2 & (n & Hn & En) & Hend & Hgrow). split; [done|].
    pose proof (zlen_seg_bytes s Hs) as Hsb. pose proof (go_bytes _ _ _ Hg2).
    assert (Hle : bytes <= zlen (seg_bytes s)).
    { unfold bytes. destruct Hs. rewrite (u64_small (zlen _ - _)) by lia. lia. }
    split; [|split].
    + destruct Hfull as [Hall|Hmax].
      * exists (bytes + n). split; [lia|]. rewrite En, Eb, <- app_assoc. f_equal.
        rewrite bytes_in_cons, (ztake_all bytes) by lia. rewrite (ztake_app_ge (bytes + n)) by lia. do 2 f_equal. lia.
      * exists bytes. split; [lia|]. rewrite gather_segments_stop by (by right).
        rewrite Eb, bytes_in_cons. f_equal. symmetry. by apply ztake_app_le.
    + destruct Hend as [Hend|Hend]; [by left|]. destruct Hfull as [Hall|Hmax].
      * right. rewrite Hend, Eb, <- app_assoc, bytes_in_cons. by rewrite ztake_all by lia.
      * left. rewrite gather_segments_stop by (by right). by right.
    + intros _ _. destruct segs as [|s' segs']; [change (total_bytes g < total_bytes g1); lia|].
      destruct (decide (zlen (slices g1) = maximum_segments \/ total_bytes g1 = maximum_bytes)) as [Hf|Hf].
      * rewrite gather_segments_stop by done. lia.
      * specialize (Hgrow ltac:(done) Hf). lia.
  - split; [done|]. split; [exists 0; split; [done|]; rewrite ztake_0 by done; by rewrite app_nil_r|].
    assert (Hf : gather_full maximum_segments maximum_bytes g).
    { destruct Hg. unfold gather_full. rewrite andb_false_iff, !Z.ltb_ge in E. lia. }
    split; [by left|]. done.
Qed.
End gather.

Lemma Gather_spec maximum_segments maximum_bytes q : inv q ->
  0 < maximum_segments -> 0 < maximum_bytes < 2 ^ 64 ->
  let g := Gather maximum_segments maximum_bytes q in
  gather_ok maximum_segments maximum_bytes g /\ gather_bytes g `prefix_of` pending q /\
  (gather_full maximum_segments maximum_bytes g \/ gather_bytes g = pending q) /\
  (pending q <> [] -> 0 < total_bytes g /\ slices g <> []).
Proof.
  intros Hq Hs Hb g. unfold g, Gather. rewrite (proj2 (Z.eqb_neq maximum_segments 0)), (proj2 (Z.eqb_neq maximum_bytes 0)) by lia.
  cbn [orb].
  assert (H0 : gather_ok maximum_segments maximum_bytes (mkGather [] 0)).
  { split; [done|change (0 <= maximum_bytes); lia|change (0 <= maximum_segments); lia]. }
  case_bool_decide as E.
  { split; [done|]. split; [apply prefix_nil|]. split; [right; symmetry; by apply pending_nil|].
    intros Hp. by apply pending_nil in E. }
  rewrite gather_batches_eq. fold (lives q).
  destruct (gather_segments_spec maximum_segments maximum_bytes (proj2 Hb) (lives q) (Forall_live q Hq) _ H0)
    as (Hg & (n & Hn & En) & Hend & Hgrow).
  set (g1 := gather_segments _ _ _ _) in *. split; [done|]. cbn [app] in *.
  split; [rewrite En; exists (zdrop n (pending q)); symmetry; apply ztake_zdrop|]. split; [done|].
  intros Hp. assert (Hpos : 0 < total_bytes g1).
  { apply Hgrow; [intros El; apply Hp; unfold pending; by rewrite El|].
    change (~ (0 = maximum_segments \/ 0 = maximum_bytes)). lia. }
  split; [done|]. intros El. rewrite (go_total _ _ _ Hg) in Hpos. unfold gather_bytes in Hpos.
  rewrite El in Hpos. exact (Z.lt_irrefl 0 Hpos).
Qed.

(** ** Consuming *)

Lemma drop_insert_next {A} (l : list A) i x : 0 <= i < zlen l ->
  zdrop (i + 1) (<[Z.to_nat i := x]> l) = zdrop (i + 1) l /\
  zdrop i (<[Z.to_nat i := x]> l) = x :: zdrop (i + 1) l.
Proof.
  intros Hi. unfold zdrop, zlen in *. replace (Z.to_nat (i + 1)) with (S (Z.to_nat i)) by lia.
  split; [apply drop_insert_lt; lia|].
  rewrite (drop_S _ x) by (apply list_lookup_insert_eq; lia). f_equal. apply drop_insert_lt. lia.
Qed.

(** A queue whose front segment was consumed in part, or to its end. *)
Lemma inv_front q bs items bytes segs :
  inv q -> lives (set_front bs items bytes q) = segs -> Forall batch_ok bs ->
  items = zlen segs -> items <= item_count_ q ->
  bytes = zlen (bytes_in segs) -> bytes <= queued_bytes_ q -> Forall (fun s => seg_offset s = 0) (tail segs) ->
  inv (set_front bs items bytes q).
Proof.
  intros [] El Hb -> Hi -> Hy Hf. split; cbn -[lives pending]; unfold pending; rewrite ?El; try done; lia.
Qed.

(** One iteration: [n] bytes of the front segment. *)
Lemma consume_front q n : inv q -> 0 < n <= queued_bytes_ q ->
  exists batch rest s, batches_ q = batch :: rest /\ current batch = Ok s /\ seg_ok s /\ batch_ok batch /\
    lives q = s :: tail (lives q) /\
    forall q1, (q1 = set_front (mkBatch (<[Z.to_nat (next_segment batch) :=
                  mkSegment (seg_buffer s) (seg_offset s + n)]> (segments batch)) (next_segment batch) :: rest)
                  (item_count_ q) (queued_bytes_ q - n) q -> n < zlen (seg_bytes s) ->
                inv q1 /\ pending q1 = zdrop n (pending q) /\
                lives q1 = mkSegment (seg_buffer s) (seg_offset s + n) :: tail (lives q)) /\
      (forall s', q1 = set_front (if next_segment batch + 1 =? zlen (segments batch) then rest else
                   mkBatch (<[Z.to_nat (next_segment batch) := s']> (segments batch)) (next_segment batch + 1) :: rest)
                   (item_count_ q - 1) (queued_bytes_ q - zlen (seg_bytes s)) q ->
                inv q1 /\ pending q1 = zdrop (zlen (seg_bytes s)) (pending q) /\ lives q1 = tail (lives q)).
Proof.
  intros Hq Hn. destruct (Hq) as [Hb Hi Hy _ _ Hf].
  destruct (batches_ q) as [|batch rest] eqn:Eb.
  { unfold pending, lives in Hy. rewrite Eb in Hy. change (zlen _) with 0 in Hy. lia. }
  apply Forall_cons in Hb as [Hb Hrest]. destruct (live_cons batch Hb) as (s & Ec & Hs & El).
  exists batch, rest, s. split; [done|]. split; [done|]. split; [done|]. split; [done|].
  assert (Els : lives q = s :: zdrop (next_segment batch + 1) (segments batch) ++ concat (map live rest)).
  { unfold lives. rewrite Eb. cbn [map concat]. by rewrite El. }
  rewrite Els in *. cbn [tail] in *. split; [done|].
  set (more := zdrop (next_segment batch + 1) (segments batch) ++ concat (map live rest)) in *.
  unfold pending in *. rewrite Els in *. rewrite bytes_in_cons, zlen_app in Hy. rewrite zlen_cons in Hi.
  pose proof (zlen_seg_bytes s Hs) as Hsb. pose proof (zlen_nonneg (seg_bytes s)). pose proof (zlen_nonneg (bytes_in more)). pose proof (zlen_nonneg more).
  destruct Hb as [Hnx Hsz Hlv]. rewrite El in Hlv. apply Forall_cons in Hlv as [_ Hlv].
  intros q1. split.
  - intros -> Hlt. set (s1 := mkSegment (seg_buffer s) (seg_offset s + n)).
    destruct (drop_insert_next (segments batch) (next_segment batch) s1 Hnx) as [_ Ed].
    assert (Hs1 : seg_ok s1) by (destruct Hs; split; cbn; lia).
    assert (Eb1 : seg_bytes s1 = zdrop n (seg_bytes s)).
    { unfold seg_bytes, s1. cbn. destruct Hs. by rewrite zdrop_zdrop by lia. }
    set (q1 := set_front _ _ _ _).
    assert (El1 : lives q1 = s1 :: more).
    { unfold lives, q1, set_front, live. cbn [batches_ map concat segments next_segment]. by rewrite Ed. }
    split; [|split; [|done]].
    + apply (inv_front q _ _ _ (s1 :: more)); try done.
      * constructor; [|done]. split; cbn; [unfold zlen in *; rewrite length_insert; lia|unfold zlen in *; rewrite length_insert; lia|].
        unfold live. cbn. rewrite Ed. by constructor.
      * rewrite zlen_cons. lia.
      * rewrite bytes_in_cons, zlen_app, Eb1, zlen_zdrop. lia.
      * lia.
    + rewrite El1, !bytes_in_cons, Eb1. symmetry. apply zdrop_app_le. lia.
  - intros s1 ->.
    destruct (drop_insert_next (segments batch) (next_segment batch) s1 Hnx) as [Ed _].
    set (bs := if _ =? _ then rest else _). set (q1 := set_front _ _ _ _).
    assert (El1 : lives q1 = more).
    { unfold lives, q1, set_front, bs. cbn [batches_]. destruct (Z.eqb_spec (next_segment batch + 1) (zlen (segments batch))) as [E|E].
      - unfold more. by rewrite zdrop_all by lia.
      - cbn [map concat]. unfold live at 1. cbn [segments next_segment]. by rewrite Ed. }
    split; [|split; [|done]].
    + apply (inv_front q _ _ _ more); try done; try lia.
      * unfold bs. destruct (Z.eqb_spec (next_segment batch + 1) (zlen (segments batch))); [done|].
        constructor; [|done]. split; cbn; [unfold zlen in *; rewrite length_insert; lia|unfold zlen in *; rewrite length_insert; lia|].
        unfold live. cbn. by rewrite Ed.
      * revert Hf. clear. destruct more as [|x more]; cbn [tail]; [by intros _; constructor|]. by intros [_ ?]%Forall_cons.
    + rewrite El1, bytes_in_cons. rewrite zdrop_app_ge by lia. by rewrite Z.sub_diag.
Qed.

Lemma Consume_loop_done fuel c q : Consume_loop (S fuel) 0 c q = Ok (c, q).
Proof. done. Qed.

Lemma Consume_loop_spec fuel : forall n c q, inv q -> 0 <= n <= queued_bytes_ q ->
  (S (length (lives q)) < fuel)%nat ->
  exists q', Consume_loop fuel n c q = Ok (c || bool_decide (length (lives q') < length (lives q))%nat, q') /\
    inv q' /\ pending q' = zdrop n (pending q) /\ (length (lives q') <= length (lives q))%nat /\
    maximum_items_ q' = maximum_items_ q /\ maximum_bytes_ q' = maximum_bytes_ q.
Proof.
  induction fuel as [|fuel IH]; intros n c q Hq Hn Hf; [lia|].
  destruct (decide (n = 0)) as [->|Hnz].
  { exists q. rewrite Consume_loop_done, bool_decide_eq_false_2, orb_false_r by lia.
    split_and!; done. }
  destruct (consume_front q n Hq ltac:(lia)) as (batch & rest & s & Eb & Ec & Hs & Hbt & El & Hstep).
  pose proof (inv_max_bytes q Hq) as Hmax. pose proof (zlen_seg_bytes s Hs) as Hsb.
  pose proof (inv_max_items q Hq) as Hmi. pose proof (inv_items q Hq) as Hit.
  assert (Hlen : (length (lives q) = S (length (tail (lives q))))%nat) by (by rewrite El at 1).
  assert (Hpos : 1 <= item_count_ q) by (rewrite Hit; unfold zlen; lia).
  assert (Hbs : zlen (seg_bytes s) <= queued_bytes_ q).
  { rewrite (inv_bytes q Hq). unfold pending. rewrite El, bytes_in_cons, zlen_app.
    pose proof (zlen_nonneg (bytes_in (tail (lives q)))). lia. }
  destruct Hs as [Hso Hss], Hbt as [Hbn Hbz _].
  cbn [Consume_loop]. rewrite (proj2 (Z.eqb_neq n 0)) by done. rewrite Eb, Ec.
  cbn [mbind result_bind seg_buffer seg_offset segments next_segment]. usimpl.
  destruct (Z.lt_ge_cases n (zlen (seg_bytes s))) as [Hlt|Hge].
  - rewrite (Z.min_l n) by lia. usimpl. rewrite (proj2 (Z.eqb_neq _ (zlen (seg_buffer s)))) by lia.
    rewrite Z.sub_diag. destruct fuel as [|fuel]; [lia|]. change (u64 0) with 0. rewrite Consume_loop_done.
    set (q1 := set_front _ _ _ _). exists q1. destruct (Hstep q1) as [Hpart _].
    destruct (Hpart eq_refl Hlt) as (Hq1 & Hp1 & Hl1). rewrite Hl1. split; [|split_and!; try done; cbn; lia].
    rewrite bool_decide_eq_false_2 by (cbn; lia). by rewrite orb_false_r.
  - rewrite (Z.min_r n) by lia. usimpl.
    replace (seg_offset s + (zlen (seg_buffer s) - seg_offset s)) with (zlen (seg_buffer s)) by lia.
    rewrite Z.eqb_refl. rewrite <- Hsb.
    assert (Hz : zlen (<[Z.to_nat (next_segment batch) := mkSegment (seg_buffer s) (zlen (seg_buffer s))]> (segments batch))
      = zlen (segments batch)) by (unfold zlen; by rewrite length_insert).
    rewrite Hz. set (q1 := set_front _ _ _ _).
    destruct (Hstep q1) as [_ Hfull]. destruct (Hfull _ eq_refl) as (Hq1 & Hp1 & Hl1).
    destruct (IH (n - zlen (seg_bytes s)) true q1 Hq1) as (q' & E' & Hq' & Hp' & Hl' & Hm1 & Hm2).
    + cbn. lia.
    + rewrite Hl1. lia.
    + exists q'. rewrite E'. split_and!; try done.
      * do 2 f_equal. rewrite (bool_decide_eq_true_2 (length (lives q') < length (lives q))%nat) by (rewrite Hl1 in Hl'; lia).
        by rewrite orb_true_r.
      * rewrite Hp', Hp1, zdrop_zdrop by lia. f_equal. lia.
      * rewrite Hl1 in Hl'. lia.
Qed.

Lemma consume_fuel_enough q : (S (length (lives q)) < consume_fuel q)%nat.
Proof.
  unfold consume_fuel, lives. induction (batches_ q) as [|b bs IH]; [cbn; lia|]. cbn [map concat].
  rewrite !length_app. unfold live at 1, zdrop. rewrite length_drop. lia.
Qed.

Lemma Consume_invalid n q : n = 0 \/ queued_bytes_ q < n \/ batches_ q = [] -> Consume n q = Ok (Invalid, q).
Proof.
  intros Hn. unfold Consume. destruct (_ || _) eqn:E; [done|].
  rewrite !orb_false_iff, bool_decide_eq_false, Z.eqb_neq, Z.ltb_ge in E. destruct E as [[? ?] ?]. naive_solver lia.
Qed.

Lemma Consume_front_spec n q : inv q -> 0 < n <= queued_bytes_ q ->
  exists r q', Consume n q = Ok (r, q') /\ r <> Invalid /\ inv q' /\ pending q' = zdrop n (pending q) /\
    maximum_items_ q' = maximum_items_ q /\ maximum_bytes_ q' = maximum_bytes_ q /\
    (r = ItemCompleted <-> (length (lives q') < length (lives q))%nat /\ Forall (fun s => seg_offset s = 0) (lives q')).
Proof.
  intros Hq Hn. unfold Consume.
  assert (Hne : batches_ q <> []).
  { intros E. apply (pending_nil q Hq) in E. pose proof (inv_bytes q Hq) as Hy. rewrite E, zlen_nil in Hy. lia. }
  rewrite bool_decide_eq_false_2 by done.
  rewrite (proj2 (Z.eqb_neq n 0)), (proj2 (Z.ltb_ge (queued_bytes_ q) n)) by lia. cbn [orb].
  destruct (Consume_loop_spec (consume_fuel q) n false q Hq ltac:(lia) (consume_fuel_enough q))
    as (q' & -> & Hq' & Hp' & Hl' & Hm1 & Hm2). cbn [mbind result_bind orb].
  case_bool_decide as Hb; cbn [negb].
  - destruct (batches_ q') as [|b bs] eqn:Eb.
    + exists ItemCompleted, q'. split_and!; try done. split; [|done]. intros _. split; [done|].
      unfold lives. rewrite Eb. constructor.
    + pose proof (inv_batches q' Hq') as Hbs. rewrite Eb in Hbs. apply Forall_cons in Hbs as [Hbok _].
      destruct (live_cons b Hbok) as (s & -> & Hs & El). cbn [mbind result_bind].
      assert (Els : exists more, lives q' = s :: more).
      { unfold lives. rewrite Eb. cbn [map concat]. rewrite El. by eexists. }
      destruct Els as [more Els]. pose proof (inv_fresh q' Hq') as Hf. rewrite Els in Hf, Hb. cbn [tail] in Hf.
      eexists _, q'. rewrite Els. split; [done|].
      destruct (Z.eqb_spec (seg_offset s) 0); split_and!; try done.
      * split; [|done]. intros _. split; [done|]. by constructor.
      * split; [done|]. intros [_ Hall]. apply Forall_cons in Hall as [? _]. lia.
  - exists Progress, q'. split_and!; try done. split; [done|]. intros [? _]. lia.
Qed.

Lemma Clear_inv q : inv q -> inv (Clear q) /\ pending (Clear q) = [].
Proof.
  intros Hq. split; [|done]. pose proof (zlen_nonneg (lives q)). pose proof (zlen_nonneg (pending q)).
  destruct (Hq) as [_ Hi Hy _ _ _]. apply (inv_front q [] 0 0 []); try done; lia.
Qed.

Lemma SendQueue_make_inv i b q : 0 <= i < 2 ^ 64 -> 0 <= b < 2 ^ 64 -> SendQueue_make i b = Ok q ->
  inv q /\ pending q = [] /\ maximum_items_ q = i /\ maximum_bytes_ q = b /\ 0 < i /\ 0 < b.
Proof.
  intros Hi Hb E. unfold SendQueue_make in E. destruct (_ || _) eqn:E0; [done|]. injection E as <-.
  rewrite orb_false_iff, !Z.eqb_neq in E0. split_and!; try done; try lia.
Qed.

(** ** The properties *)

(** Admission is atomic and bounded.  A batch is accepted exactly when none
    of its buffers is null and its non-empty buffers fit the limits on items and
    bytes together with what is queued; an accepted batch is appended as a
    whole, a refused one leaves the queue as it was; in both cases the counters
    agree with the contents and stay within their limits. *)
Theorem send_queue_admission bs q : inv q ->
  let ok := forallb (fun b => bool_decide (is_Some b)) bs &&
    (zlen (lives q) + zlen (nonempty bs) <=? maximum_items_ q) &&
    (zlen (pending q) + zlen (concat (omap id bs)) <=? maximum_bytes_ q) in
  exists q', TryPushBatch bs q = (ok, q') /\ inv q' /\
    pending q' = pending q ++ (if ok then concat (omap id bs) else []) /\ (ok = false -> q' = q) /\
    ItemCount q' = zlen (lives q') /\ ItemCount q' <= MaximumItems q /\
    QueuedBytes q' = zlen (pending q') /\ QueuedBytes q' <= MaximumBytes q.
Proof.
  intros Hq ok. destruct (TryPushBatch_spec bs q Hq) as (q' & E & Hq' & Hm1 & Hm2 & Hp & Hr).
  assert (Eok : fits bs q = ok) by (unfold fits, ok; by rewrite (inv_items q Hq), (inv_bytes q Hq)).
  rewrite Eok in *. exists q'. destruct (Hq'). unfold ItemCount, QueuedBytes, MaximumItems, MaximumBytes.
  split_and!; try done; lia.
Qed.

Definition push (q : SendQueue) (bs : list SharedSendBuffer) : SendQueue := (TryPushBatch bs q).2.

Lemma push_all batches : forall q, inv q -> exists added,
  inv (foldl push q batches) /\ pending (foldl push q batches) = pending q ++ added.
Proof.
  induction batches as [|bs batches IH]; intros q Hq; [exists []; by rewrite app_nil_r|]. cbn [foldl].
  destruct (TryPushBatch_spec bs q Hq) as (q' & E & Hq' & _ & _ & Hp & _).
  unfold push at 2 4. rewrite E. cbn [snd]. destruct (IH q' Hq') as (added & Hi & Ha).
  exists ((if fits bs q then concat (omap id bs) else []) ++ added). split; [done|]. by rewrite Ha, Hp, app_assoc.
Qed.

(** What is in flight stays at the front.  Gathering takes as many of the
    first queued bytes as the two limits allow, at least one if there is any.
    However many batches are offered while the gathered bytes are in flight, a
    completion that reports [n] of them removes exactly the first [n] gathered
    bytes and nothing else. *)
Theorem send_queue_in_flight maximum_segments maximum_bytes q batches n :
  inv q -> 0 < maximum_segments -> 0 < maximum_bytes < 2 ^ 64 ->
  let g := Gather maximum_segments maximum_bytes q in
  let q1 := foldl push q batches in
  0 < n <= total_bytes g ->
  zlen (slices g) <= maximum_segments /\ total_bytes g <= maximum_bytes /\
  gather_bytes g `prefix_of` pending q /\
  (zlen (slices g) = maximum_segments \/ total_bytes g = maximum_bytes \/ gather_bytes g = pending q) /\
  exists r q2 added, Consume n q1 = Ok (r, q2) /\ r <> Invalid /\ inv q2 /\
    ztake n (gather_bytes g) ++ pending q2 = pending q ++ added.
Proof.
  intros Hq Hs Hb g q1 Hn. destruct (Gather_spec maximum_segments maximum_bytes q Hq Hs Hb) as (Hg & Hpre & Hend & _).
  fold g in Hg, Hpre, Hend. destruct (Hg) as [Ht Hgb Hgs]. split; [done|]. split; [done|]. split; [done|].
  split; [unfold gather_full in Hend; tauto|].
  destruct (push_all batches q Hq) as (added & Hq1 & Hp1). fold q1 in Hq1, Hp1. destruct Hpre as [k Hk].
  destruct (Consume_front_spec n q1 Hq1) as (r & q2 & E & Hr & Hq2 & Hp2 & _).
  { rewrite (inv_bytes q1 Hq1), Hp1, Hk, !zlen_app. pose proof (zlen_nonneg k). pose proof (zlen_nonneg added). lia. }
  exists r, q2, added. split_and!; try done. rewrite Hp2, Hp1, Hk, <- app_assoc, zdrop_app_le by lia.
  by rewrite app_assoc, ztake_zdrop.
Qed.

Definition sample_queue : SendQueue :=
  mkSendQueue 4 20 [mkBatch [mkSegment $"ab" 0; mkSegment $"cdef" 1] 1; mkBatch [mkSegment $"gh" 0] 0] 2 5.

Lemma sample_queue_inv : inv sample_queue.
Proof. split; repeat (constructor || (vm_compute; intuition discriminate) || reflexivity). Qed.

Lemma send_queue_admission_witness :
  exists q', TryPushBatch [Some $"xy"; Some []; Some $"z"] sample_queue = (true, q') /\
    pending q' = $"defghxyz".
Proof.
  destruct (send_queue_admission [Some $"xy"; Some []; Some $"z"] sample_queue sample_queue_inv)
    as (q' & E & _ & Hp & _).
  exists q'. split; [exact E|exact Hp].
Defined.

Lemma send_queue_in_flight_witness :
  exists r q2 added, Consume 4 (foldl push sample_queue [[Some $"xy"]]) = Ok (r, q2) /\
    $"defg" ++ pending q2 = $"defgh" ++ added.
Proof.
  destruct (send_queue_in_flight 2 4 sample_queue [[Some $"xy"]] 4 sample_queue_inv)
    as (_ & _ & _ & _ & r & q2 & added & E & _ & _ & Hp);
    [reflexivity|split; reflexivity|split; [reflexivity|vm_compute; discriminate]|].
  exists r, q2, added. split; [exact E|exact Hp].
Defined.
