(* ===== verification/TcpConnection.v ===== *)
(** * TCP connections

    [TcpConnection] of [tcp_connection.h] and [tcp_connection.cpp]: the state
    machine around at most one overlapped receive and one overlapped send.

    Every part of a method that runs under the mutex is one step; what it does
    afterwards (notifying waiters, the call of the registry) does not touch the
    connection and belongs to the same step.  [OnReceiveComplete] runs its
    handler outside of the mutex and is two steps, between which other threads
    and the handler itself can call the connection.

    The socket functions are outside: [World] says how WSARecv and WSASend
    answer and which number a timer gets, as functions of the events so far.
    The operations that the system accepted are kept in [ios] until their
    completion arrives.  Log messages other than the closing one, socket options
    and running out of memory are not modelled. *)

From S2P Require Import Prelude SendQueue.

Inductive ConnectionState := Active | Closing | Closed.

#[export] Instance ConnectionState_eq_dec : EqDecision ConnectionState.
Proof. solve_decision. Defined.

Inductive CloseReason :=
  | NoReason | LocalShutdown | PeerClosed | ReceiveError | SendError | SendQueueOverflow | HandlerError
  | ProtocolClose.

#[export] Instance CloseReason_eq_dec : EqDecision CloseReason.
Proof. solve_decision. Defined.

Definition CloseReasonName (reason : CloseReason) : list byte :=
  match reason with
  | NoReason => $"none"
  | LocalShutdown => $"local_shutdown"
  | PeerClosed => $"peer_closed"
  | ReceiveError => $"receive_error"
  | SendError => $"send_error"
  | SendQueueOverflow => $"send_queue_overflow"
  | HandlerError => $"handler_error"
  | ProtocolClose => $"protocol_close"
  end.

Record ConnectionSnapshot := mkSnapshot {
  snapshot_id : Z;
  snapshot_state : ConnectionState;
  snapshot_close_reason : CloseReason;
  snapshot_outstanding_operations : Z;
  snapshot_receive_in_flight : bool;
  snapshot_send_in_flight : bool;
  snapshot_queued_send_items : Z;
  snapshot_queued_send_bytes : Z;
  snapshot_received_bytes : Z;
  snapshot_sent_bytes : Z;
}.

Record ConnectionOptions := mkOptions {
  maximum_send_queue_items : Z;
  maximum_send_queue_bytes : Z;
  receive_chunk_bytes : Z;
  maximum_gather_segments_per_operation : Z;
  maximum_gather_bytes_per_operation : Z;
  maximum_outbound_batch_segments : Z;
  connection_timeout : Z;
}.

Definition ConnectionOptions_default : ConnectionOptions :=
  mkOptions 64 (1024 * 1024) 4096 16 (64 * 1024) 16 0.

Inductive SendStatus := SendAccepted | SendClosed | QueueOverflow | StartFailed.

#[export] Instance SendStatus_eq_dec : EqDecision SendStatus.
Proof. solve_decision. Defined.

(** [socket_] says whether the handle is open, [timer_service_] whether a timer
    service was given. *)
Record TcpConnection := mkConnection {
  id_ : Z;
  socket_ : bool;
  receive_chunk_bytes_ : Z;
  maximum_gather_segments_per_operation_ : Z;
  maximum_gather_bytes_per_operation_ : Z;
  maximum_outbound_batch_segments_ : Z;
  send_queue_ : SendQueue;
  state_ : ConnectionState;
  close_reason_ : CloseReason;
  outstanding_operations_ : Z;
  receive_in_flight_ : bool;
  send_in_flight_ : bool;
  close_after_send_ : bool;
  received_bytes_ : Z;
  sent_bytes_ : Z;
  connection_timeout_ : Z;
  timer_service_ : bool;
  idle_timer_id_ : Z;
}.

Definition set_socket (v : bool) (c : TcpConnection) : TcpConnection :=
  mkConnection (id_ c) v (receive_chunk_bytes_ c) (maximum_gather_segments_per_operation_ c)
    (maximum_gather_bytes_per_operation_ c) (maximum_outbound_batch_segments_ c) (send_queue_ c)
    (state_ c) (close_reason_ c) (outstanding_operations_ c) (receive_in_flight_ c)
    (send_in_flight_ c) (close_after_send_ c) (received_bytes_ c) (sent_bytes_ c)
    (connection_timeout_ c) (timer_service_ c) (idle_timer_id_ c).
Definition set_send_queue (v : SendQueue) (c : TcpConnection) : TcpConnection :=
  mkConnection (id_ c) (socket_ c) (receive_chunk_bytes_ c)
    (maximum_gather_segments_per_operation_ c) (maximum_gather_bytes_per_operation_ c)
    (maximum_outbound_batch_segments_ c) v (state_ c) (close_reason_ c) (outstanding_operations_ c)
    (receive_in_flight_ c) (send_in_flight_ c) (close_after_send_ c) (received_bytes_ c)
    (sent_bytes_ c) (connection_timeout_ c) (timer_service_ c) (idle_timer_id_ c).
Definition set_state (v : ConnectionState) (c : TcpConnection) : TcpConnection :=
  mkConnection (id_ c) (socket_ c) (receive_chunk_bytes_ c)
    (maximum_gather_segments_per_operation_ c) (maximum_gather_bytes_per_operation_ c)
    (maximum_outbound_batch_segments_ c) (send_queue_ c) v (close_reason_ c)
    (outstanding_operations_ c) (receive_in_flight_ c) (send_in_flight_ c) (close_after_send_ c)
    (received_bytes_ c) (sent_bytes_ c) (connection_timeout_ c) (timer_service_ c)
    (idle_timer_id_ c).
Definition set_close_reason (v : CloseReason) (c : TcpConnection) : TcpConnection :=
  mkConnection (id_ c) (socket_ c) (receive_chunk_bytes_ c)
    (maximum_gather_segments_per_operation_ c) (maximum_gather_bytes_per_operation_ c)
    (maximum_outbound_batch_segments_ c) (send_queue_ c) (state_ c) v (outstanding_operations_ c)
    (receive_in_flight_ c) (send_in_flight_ c) (close_after_send_ c) (received_bytes_ c)
    (sent_bytes_ c) (connection_timeout_ c) (timer_service_ c) (idle_timer_id_ c).
Definition set_outstanding_operations (v : Z) (c : TcpConnection) : TcpConnection :=
  mkConnection (id_ c) (socket_ c) (receive_chunk_bytes_ c)
    (maximum_gather_segments_per_operation_ c) (maximum_gather_bytes_per_operation_ c)
    (maximum_outbound_batch_segments_ c) (send_queue_ c) (state_ c) (close_reason_ c) v
    (receive_in_flight_ c) (send_in_flight_ c) (close_after_send_ c) (received_bytes_ c)
    (sent_bytes_ c) (connection_timeout_ c) (timer_service_ c) (idle_timer_id_ c).
Definition set_receive_in_flight (v : bool) (c : TcpConnection) : TcpConnection :=
  mkConnection (id_ c) (socket_ c) (receive_chunk_bytes_ c)
    (maximum_gather_segments_per_operation_ c) (maximum_gather_bytes_per_operation_ c)
    (maximum_outbound_batch_segments_ c) (send_queue_ c) (state_ c) (close_reason_ c)
    (outstanding_operations_ c) v (send_in_flight_ c) (close_after_send_ c) (received_bytes_ c)
    (sent_bytes_ c) (connection_timeout_ c) (timer_service_ c) (idle_timer_id_ c).
Definition set_send_in_flight (v : bool) (c : TcpConnection) : TcpConnection :=
  mkConnection (id_ c) (socket_ c) (receive_chunk_bytes_ c)
    (maximum_gather_segments_per_operation_ c) (maximum_gather_bytes_per_operation_ c)
    (maximum_outbound_batch_segments_ c) (send_queue_ c) (state_ c) (close_reason_ c)
    (outstanding_operations_ c) (receive_in_flight_ c) v (close_after_send_ c) (received_bytes_ c)
    (sent_bytes_ c) (connection_timeout_ c) (timer_service_ c) (idle_timer_id_ c).
Definition set_close_after_send (v : bool) (c : TcpConnection) : TcpConnection :=
  mkConnection (id_ c) (socket_ c) (receive_chunk_bytes_ c)
    (maximum_gather_segments_per_operation_ c) (maximum_gather_bytes_per_operation_ c)
    (maximum_outbound_batch_segments_ c) (send_queue_ c) (state_ c) (close_reason_ c)
    (outstanding_operations_ c) (receive_in_flight_ c) (send_in_flight_ c) v (received_bytes_ c)
    (sent_bytes_ c) (connection_timeout_ c) (timer_service_ c) (idle_timer_id_ c).
Definition set_received_bytes (v : Z) (c : TcpConnection) : TcpConnection :=
  mkConnection (id_ c) (socket_ c) (receive_chunk_bytes_ c)
    (maximum_gather_segments_per_operation_ c) (maximum_gather_bytes_per_operation_ c)
    (maximum_outbound_batch_segments_ c) (send_queue_ c) (state_ c) (close_reason_ c)
    (outstanding_operations_ c) (receive_in_flight_ c) (send_in_flight_ c) (close_after_send_ c) v
    (sent_bytes_ c) (connection_timeout_ c) (timer_service_ c) (idle_timer_id_ c).
Definition set_sent_bytes (v : Z) (c : TcpConnection) : TcpConnection :=
  mkConnection (id_ c) (socket_ c) (receive_chunk_bytes_ c)
    (maximum_gather_segments_per_operation_ c) (maximum_gather_bytes_per_operation_ c)
    (maximum_outbound_batch_segments_ c) (send_queue_ c) (state_ c) (close_reason_ c)
    (outstanding_operations_ c) (receive_in_flight_ c) (send_in_flight_ c) (close_after_send_ c)
    (received_bytes_ c) v (connection_timeout_ c) (timer_service_ c) (idle_timer_id_ c).
Definition set_timer_service (v : bool) (c : TcpConnection) : TcpConnection :=
  mkConnection (id_ c) (socket_ c) (receive_chunk_bytes_ c)
    (maximum_gather_segments_per_operation_ c) (maximum_gather_bytes_per_operation_ c)
    (maximum_outbound_batch_segments_ c) (send_queue_ c) (state_ c) (close_reason_ c)
    (outstanding_operations_ c) (receive_in_flight_ c) (send_in_flight_ c) (close_after_send_ c)
    (received_bytes_ c) (sent_bytes_ c) (connection_timeout_ c) v (idle_timer_id_ c).
Definition set_idle_timer_id (v : Z) (c : TcpConnection) : TcpConnection :=
  mkConnection (id_ c) (socket_ c) (receive_chunk_bytes_ c)
    (maximum_gather_segments_per_operation_ c) (maximum_gather_bytes_per_operation_ c)
    (maximum_outbound_batch_segments_ c) (send_queue_ c) (state_ c) (close_reason_ c)
    (outstanding_operations_ c) (receive_in_flight_ c) (send_in_flight_ c) (close_after_send_ c)
    (received_bytes_ c) (sent_bytes_ c) (connection_timeout_ c) (timer_service_ c) v.

(** The constructor; the flags say that the socket is open and that the logger
    and the handler are not null. *)
Definition TcpConnection_make (id : Z) (socket logger receive_handler : bool) (o : ConnectionOptions)
    : result TcpConnection :=
  q ← SendQueue_make (maximum_send_queue_items o) (maximum_send_queue_bytes o);
  if id =? 0 then Throw invalid_argument
  else if negb socket then Throw invalid_argument
  else if negb logger then Throw invalid_argument
  else if negb receive_handler then Throw invalid_argument
  else if (receive_chunk_bytes o =? 0) || (2 ^ 32 - 1 <? receive_chunk_bytes o) then Throw invalid_argument
  else if (maximum_gather_segments_per_operation o =? 0) ||
          (2 ^ 32 - 1 <? maximum_gather_segments_per_operation o) then Throw invalid_argument
  else if (maximum_gather_bytes_per_operation o =? 0) ||
          (2 ^ 32 - 1 <? maximum_gather_bytes_per_operation o) then Throw invalid_argument
  else if maximum_outbound_batch_segments o =? 0 then Throw invalid_argument
  else if (MaximumItems q <? maximum_gather_segments_per_operation o) ||
          (MaximumItems q <? maximum_outbound_batch_segments o) then Throw invalid_argument
  else if MaximumBytes q <? maximum_gather_bytes_per_operation o then Throw invalid_argument
  else Ok (mkConnection id true (receive_chunk_bytes o) (maximum_gather_segments_per_operation o)
             (maximum_gather_bytes_per_operation o) (maximum_outbound_batch_segments o) q Active NoReason 0
             false false false 0 0 (connection_timeout o) false 0).

(** ** The surroundings of a connection *)

(** An overlapped operation that was accepted and has not completed. *)
Inductive Io :=
  | ReceiveIo (capacity : Z)
  | SendIo (g : SendGather).

Definition is_receive (io : Io) : bool := match io with ReceiveIo _ => true | SendIo _ => false end.

Inductive Event :=
  | PostedReceive
  | PostedSend (g : SendGather)
  | Queued (bytes : list byte)
  | Confirmed (bytes : list byte)
  | Delivered (bytes : list byte)
  | ShutdownSend
  | SocketReset
  | Rescheduled (old new : Z)
  | Cancelled (id : Z)
  | CloseLogged (reason : CloseReason)
  | ClosedNotified
  | RemovedFromRegistry.

Class World := {
  wsa_recv : list Event -> Z;
  wsa_send : list Event -> Z;
  new_timer : list Event -> Z;
}.

(** [delivering] counts the threads that are in the receive handler. *)
Record system := mkSystem {
  conn : TcpConnection;
  ios : list Io;
  delivering : nat;
  log : list Event;
}.

Definition M (A : Type) : Type := system -> result (A * system).

#[export] Instance M_ret : MRet M := fun A a s => Ok (a, s).
#[export] Instance M_bind : MBind M := fun A B f m s => '(a, s) ← m s; f a s.

Definition get {A} (f : TcpConnection -> A) : M A := fun s => Ok (f (conn s), s).
Definition modify (f : TcpConnection -> TcpConnection) : M unit :=
  fun s => Ok (tt, mkSystem (f (conn s)) (ios s) (delivering s) (log s)).
Definition lift {A} (r : result A) : M A := fun s => a ← r; Ok (a, s).
Definition emit (e : Event) : M unit :=
  fun s => Ok (tt, mkSystem (conn s) (ios s) (delivering s) (log s ++ [e])).
Definition answer {A} (f : list Event -> A) : M A := fun s => Ok (f (log s), s).
(** [operation.release()]: the operation belongs to the system. *)
Definition release (io : Io) : M unit :=
  fun s => Ok (tt, mkSystem (conn s) (ios s ++ [io]) (delivering s) (log s)).

Definition WSAEALREADY : Z := 10037.
Definition WSAESHUTDOWN : Z := 10058.
Definition WSAEINVAL : Z := 10022.

(** [if (outstanding_operations_ > 0) --outstanding_operations_;] *)
Definition one_less (c : TcpConnection) : TcpConnection :=
  if 0 <? outstanding_operations_ c then set_outstanding_operations (outstanding_operations_ c - 1) c else c.

Section connection.
Context `{World}.

(** ** Timer and closing *)

Definition UpdateIdleTimerLocked : M unit :=
  c ← get id;
  if negb (timer_service_ c) || (connection_timeout_ c <=? 0) then mret tt
  else if negb (bool_decide (state_ c = Active)) then mret tt
  else
    new ← answer new_timer;
    emit (Rescheduled (idle_timer_id_ c) new);;
    modify (set_idle_timer_id new).

Definition CancelIdleTimer : M unit :=
  c ← get id;
  if timer_service_ c && negb (idle_timer_id_ c =? 0) then
    emit (Cancelled (idle_timer_id_ c));;
    modify (set_idle_timer_id 0)
  else mret tt.

Definition BeginCloseLocked (reason : CloseReason) : M bool :=
  c ← get id;
  if negb (bool_decide (state_ c = Active)) then mret false
  else
    modify (fun c => set_close_after_send false (set_close_reason reason (set_state Closing c)));;
    CancelIdleTimer;;
    emit SocketReset;;
    modify (set_socket false);;
    mret true.

Definition MoveToClosedIfDrainedLocked : M bool :=
  c ← get id;
  if bool_decide (state_ c = Closing) && (outstanding_operations_ c =? 0) then
    modify (fun c => set_send_queue (Clear (send_queue_ c)) (set_state Closed c));;
    mret true
  else mret false.

Definition LogClose (reason : CloseReason) : M unit := emit (CloseLogged reason).

(** [closed_condition_.notify_all(); RemoveFromRegistry();] *)
Definition notify_closed (remove_from_registry : bool) : M unit :=
  if remove_from_registry then emit ClosedNotified;; emit RemovedFromRegistry else mret tt.

Definition BeginClose (reason : CloseReason) : M unit :=
  close_started ← BeginCloseLocked reason;
  remove_from_registry ← MoveToClosedIfDrainedLocked;
  (if (close_started : bool) then LogClose reason else mret tt);;
  notify_closed remove_from_registry.

(** ** Posting *)

Definition PostReceiveLocked : M Z :=
  c ← get id;
  if negb (bool_decide (state_ c = Active)) || receive_in_flight_ c
  then mret (if bool_decide (state_ c = Active) then WSAEALREADY else WSAESHUTDOWN)
  else
    modify (fun c => set_receive_in_flight true
                       (set_outstanding_operations (u64 (outstanding_operations_ c + 1)) c));;
    error ← answer wsa_recv;
    if negb (error =? 0) then
      modify (fun c => set_receive_in_flight false (one_less c));;
      UpdateIdleTimerLocked;;
      mret error
    else
      emit PostedReceive;;
      release (ReceiveIo (receive_chunk_bytes_ c));;
      mret 0.

Definition PostSendLocked : M Z :=
  c ← get id;
  if negb (bool_decide (state_ c = Active)) || send_in_flight_ c || Empty (send_queue_ c)
  then mret (if bool_decide (state_ c = Active) then WSAEALREADY else WSAESHUTDOWN)
  else
    let gather := Gather (maximum_gather_segments_per_operation_ c)
                    (maximum_gather_bytes_per_operation_ c) (send_queue_ c) in
    if SendGather_Empty gather then mret WSAEINVAL
    else
      modify (fun c => set_send_in_flight true
                         (set_outstanding_operations (u64 (outstanding_operations_ c + 1)) c));;
      error ← answer wsa_send;
      if negb (error =? 0) then
        modify (fun c => set_send_in_flight false (one_less c));;
        UpdateIdleTimerLocked;;
        mret error
      else
        emit (PostedSend gather);;
        release (SendIo gather);;
        mret 0.

Definition Start : M bool :=
  error ← PostReceiveLocked;
  if negb (error =? 0) then
    BeginCloseLocked ReceiveError;;
    remove_from_registry ← MoveToClosedIfDrainedLocked;
    LogClose ReceiveError;;
    notify_closed remove_from_registry;;
    mret false
  else mret true.

(** ** Sending *)

Definition SendBatchInternal (segs : list (list byte)) (close_after_send : bool) : M SendStatus :=
  let full := List.filter (fun s => negb (zlen s =? 0)) segs in
  let segment_count := zlen full in
  if segment_count =? 0 then
    (if close_after_send then BeginClose ProtocolClose else mret tt);; mret SendAccepted
  else
    c ← get id;
    let buffers := if segment_count <=? maximum_outbound_batch_segments_ c then map Some full else [] in
    if negb (bool_decide (state_ c = Active)) || close_after_send_ c then mret SendClosed
    else
      let '(pushed, q) := TryPushBatch buffers (send_queue_ c) in
      if (maximum_outbound_batch_segments_ c <? segment_count) || negb pushed then
        close_started ← BeginCloseLocked SendQueueOverflow;
        remove_from_registry ← MoveToClosedIfDrainedLocked;
        (if (close_started : bool) then LogClose SendQueueOverflow else mret tt);;
        notify_closed remove_from_registry;;
        mret QueueOverflow
      else
        modify (set_send_queue q);;
        emit (Queued (concat full));;
        modify (set_close_after_send close_after_send);;
        if send_in_flight_ c then mret SendAccepted
        else
          post_error ← PostSendLocked;
          if negb (post_error =? 0) then
            close_started ← BeginCloseLocked SendError;
            remove_from_registry ← MoveToClosedIfDrainedLocked;
            (if (close_started : bool) then LogClose SendError else mret tt);;
            notify_closed remove_from_registry;;
            mret StartFailed
          else mret SendAccepted.

Definition SendBatch (segs : list (list byte)) : M SendStatus := SendBatchInternal segs false.
Definition SendBatchAndClose (segs : list (list byte)) : M SendStatus := SendBatchInternal segs true.
Definition Send (bytes : list byte) : M SendStatus := SendBatch [bytes].

(** ** Completions *)

(** [if (state_ == Active) { BeginCloseLocked(reason); close_to_log = reason; }] *)
Definition close_active (reason : CloseReason) : M (option CloseReason) :=
  active ← get (fun c => bool_decide (state_ c = Active));
  if (active : bool) then BeginCloseLocked reason;; mret (Some reason) else mret None.

(** [if (close_to_log != None) LogClose(close_to_log);] *)
Definition log_close (close_to_log : option CloseReason) : M unit :=
  match close_to_log with Some reason => LogClose reason | None => mret tt end.

(** [OnReceiveComplete] up to the call of the handler; [true] if it is called. *)
Definition OnReceiveComplete (storage : list byte) (transferred_bytes : Z) (error : bool) : M bool :=
  modify (fun c => set_receive_in_flight false (one_less c));;
  UpdateIdleTimerLocked;;
  '(close_to_log, deliver) ←
    (if error then r ← close_active ReceiveError; mret (r, false)
     else if transferred_bytes =? 0 then r ← close_active PeerClosed; mret (r, false)
     else if zlen storage <? transferred_bytes then r ← close_active ReceiveError; mret (r, false)
     else
       active ← get (fun c => bool_decide (state_ c = Active));
       if (active : bool) then
         modify (fun c => set_received_bytes (u64 (received_bytes_ c + transferred_bytes)) c);;
         mret (None, true)
       else mret (None, false));
  remove_from_registry ← MoveToClosedIfDrainedLocked;
  log_close close_to_log;;
  notify_closed remove_from_registry;;
  if (remove_from_registry : bool) then mret false
  else if (deliver : bool) then emit (Delivered (ztake transferred_bytes storage));; mret true
  else mret false.

(** The rest of [OnReceiveComplete], when the handler returned or threw. *)
Definition after_handler (threw : bool) : M unit :=
  if threw then BeginClose HandlerError
  else
    active ← get (fun c => bool_decide (state_ c = Active));
    if (active : bool) then
      post_error ← PostReceiveLocked;
      if negb (post_error =? 0) then
        BeginCloseLocked ReceiveError;;
        remove_from_registry ← MoveToClosedIfDrainedLocked;
        LogClose ReceiveError;;
        notify_closed remove_from_registry
      else mret tt
    else mret tt.

(** The part of [OnSendComplete] for a completion without error on an active
    connection. *)
Definition send_completed (transferred_bytes submitted_bytes : Z) : M (option CloseReason) :=
  q ← get send_queue_;
  '(consumed, q) ← lift (if (transferred_bytes =? 0) || (submitted_bytes <? transferred_bytes)
                         then Ok (Invalid, q) else Consume transferred_bytes q);
  modify (set_send_queue q);;
  if bool_decide (consumed = Invalid) then BeginCloseLocked SendError;; mret (Some SendError)
  else
    modify (fun c => set_sent_bytes (u64 (sent_bytes_ c + transferred_bytes)) c);;
    c ← get id;
    if negb (Empty (send_queue_ c)) then
      post_error ← PostSendLocked;
      if negb (post_error =? 0) then BeginCloseLocked SendError;; mret (Some SendError)
      else mret None
    else if close_after_send_ c then
      emit ShutdownSend;;
      BeginCloseLocked ProtocolClose;;
      mret (Some ProtocolClose)
    else mret None.

Definition OnSendComplete (transferred_bytes submitted_bytes : Z) (error : bool) : M unit :=
  modify (fun c => set_send_in_flight false (one_less c));;
  UpdateIdleTimerLocked;;
  close_to_log ←
    (if error then close_active SendError
     else
       active ← get (fun c => bool_decide (state_ c = Active));
       if (active : bool) then send_completed transferred_bytes submitted_bytes else mret None);
  remove_from_registry ← MoveToClosedIfDrainedLocked;
  log_close close_to_log;;
  notify_closed remove_from_registry.

(** ** Other operations *)

Definition SetTimerService (timer : bool) : M unit :=
  modify (set_timer_service timer);;
  timeout ← get connection_timeout_;
  if 0 <? timeout then UpdateIdleTimerLocked else mret tt.

(** The condition that [WaitClosed] waits for. *)
Definition IsClosed (c : TcpConnection) : bool := bool_decide (state_ c = Closed).

Definition Snapshot (c : TcpConnection) : ConnectionSnapshot :=
  mkSnapshot (id_ c) (state_ c) (close_reason_ c) (outstanding_operations_ c) (receive_in_flight_ c)
    (send_in_flight_ c) (ItemCount (send_queue_ c)) (QueuedBytes (send_queue_ c)) (received_bytes_ c)
    (sent_bytes_ c).

(** ** Steps

    [DoTimer] is the callback of the idle timer.  A completion takes its
    operation out of [ios]; for a send without error the system has put the
    first bytes of the gathered data on the wire. *)
Inductive label :=
  | DoStart
  | DoSend (segs : list (list byte)) (close : bool)
  | DoClose (reason : CloseReason)
  | DoTimer
  | DoSetTimer (timer : bool)
  | DoReceive (storage : list byte) (transferred : Z) (error : bool)
  | DoHandlerDone (threw : bool)
  | DoSendDone (transferred : Z) (error : bool).

(** The thread of a completion goes on to the handler. *)
Definition enter_handler (deliver : bool) : M unit := fun s =>
  Ok (tt, mkSystem (conn s) (ios s) (if deliver then S (delivering s) else delivering s) (log s)).

(** Takes the first operation of a kind out of a list. *)
Fixpoint take_io (receive : bool) (l : list Io) : option (Io * list Io) :=
  match l with
  | [] => None
  | io :: l =>
      if Bool.eqb (is_receive io) receive then Some (io, l)
      else '(x, k) ← take_io receive l; Some (x, io :: k)
  end.

(** Transferred bytes are a [DWORD]. *)
Definition dword (n : Z) : bool := (0 <=? n) && (n <? 2 ^ 32).

(** What the system does in a step, if it can. *)
Definition perform (l : label) (s : system) : option (result (unit * system)) :=
  match l with
  | DoStart => Some ((_ ← Start; mret tt) s)
  | DoSend segs close => Some ((_ ← SendBatchInternal segs close; mret tt) s)
  | DoClose reason => Some (BeginClose reason s)
  | DoTimer => Some (BeginClose NoReason s)
  | DoSetTimer timer => Some (SetTimerService timer s)
  | DoReceive storage transferred error =>
      match take_io true (ios s) with
      | Some (ReceiveIo capacity, rest) =>
          if (zlen storage =? capacity) && dword transferred then
            Some ((deliver ← OnReceiveComplete storage transferred error; enter_handler deliver)
                    (mkSystem (conn s) rest (delivering s) (log s)))
          else None
      | _ => None
      end
  | DoHandlerDone threw =>
      match delivering s with
      | O => None
      | S n => Some (after_handler threw (mkSystem (conn s) (ios s) n (log s)))
      end
  | DoSendDone transferred error =>
      match take_io false (ios s) with
      | Some (SendIo g, rest) =>
          let s := mkSystem (conn s) rest (delivering s)
                     (log s ++ if error then [] else [Confirmed (ztake transferred (gather_bytes g))]) in
          if dword transferred then Some (OnSendComplete transferred (total_bytes g) error s) else None
      | _ => None
      end
  end.

Inductive step : system -> label -> system -> Prop :=
  | step_perform s l s' : perform l s = Some (Ok (tt, s')) -> step s l s'.

Inductive steps : system -> list label -> system -> Prop :=
  | steps_nil s : steps s [] s
  | steps_cons s l s1 ls s2 : step s l s1 -> steps s1 ls s2 -> steps s (l :: ls) s2.
End connection.
