(* ===== verification/TcpConnectionTheory.v ===== *)
(** * TCP connections: one operation per direction, FIFO, drained before closed

    The invariant of a connection and its overlapped operations, for every
    interleaving of calls, completions, timers and handlers. *)

From S2P Require Import Prelude SendQueue TcpConnection.

(** ** What a log says *)

(** The bytes that were accepted for sending, and those that a completion
    confirmed. *)
Definition queued_of (l : list Event) : list byte :=
  concat (omap (fun e => match e with Queued b => Some b | _ => None end) l).
Definition confirmed_of (l : list Event) : list byte :=
  concat (omap (fun e => match e with Confirmed b => Some b | _ => None end) l).

(** How often the connection was removed from the registry, and its socket closed. *)
Definition removals (l : list Event) : nat :=
  length (List.filter (fun e => match e with RemovedFromRegistry => true | _ => false end) l).
Definition resets (l : list Event) : nat :=
  length (List.filter (fun e => match e with SocketReset => true | _ => false end) l).

Lemma queued_app l k : queued_of (l ++ k) = queued_of l ++ queued_of k.
Proof. unfold queued_of. by rewrite omap_app, concat_app. Qed.
Lemma confirmed_app l k : confirmed_of (l ++ k) = confirmed_of l ++ confirmed_of k.
Proof. unfold confirmed_of. by rewrite omap_app, concat_app. Qed.
Lemma removals_app l k : removals (l ++ k) = (removals l + removals k)%nat.
Proof. unfold removals. by rewrite List.filter_app, length_app. Qed.
Lemma resets_app l k : resets (l ++ k) = (resets l + resets k)%nat.
Proof. unfold resets. by rewrite List.filter_app, length_app. Qed.

Create Rewrite HintDb tcp.
#[export] Hint Rewrite queued_app confirmed_app removals_app resets_app : tcp.

(** Events that say nothing about these. *)
Definition neutral (e : Event) : bool :=
  match e with Queued _ | Confirmed _ | RemovedFromRegistry | SocketReset => false | _ => true end.

(** ** The invariant *)

(** A gathered send that is on its way. *)
Record flying (g : SendGather) (q : SendQueue) : Prop := {
  fl_total : total_bytes g = zlen (gather_bytes g);
  fl_some : 0 < total_bytes g < 2 ^ 32;
  fl_front : gather_bytes g `prefix_of` pending q;
}.

(** The operations that the flags promise. *)
Definition expected (c : TcpConnection) (g : SendGather) : list Io :=
  (if receive_in_flight_ c then [ReceiveIo (receive_chunk_bytes_ c)] else []) ++
  (if send_in_flight_ c then [SendIo g] else []).

(** [ahead] are confirmed bytes that are still queued. *)
Record mid (ahead : list byte) (s : system) : Prop := {
  k_queue : SendQueue.inv (send_queue_ (conn s));
  k_limits : 0 < maximum_gather_segments_per_operation_ (conn s) /\
    0 < maximum_gather_bytes_per_operation_ (conn s) < 2 ^ 32;
  k_chunk : 0 < receive_chunk_bytes_ (conn s);
  k_ios : exists g, ios s ≡ₚ expected (conn s) g /\ (send_in_flight_ (conn s) = true -> flying g (send_queue_ (conn s)));
  k_out : outstanding_operations_ (conn s) = zlen (ios s);
  k_socket : socket_ (conn s) = bool_decide (state_ (conn s) = Active);
  k_resets : resets (log s) = if bool_decide (state_ (conn s) = Active) then 0%nat else 1%nat;
  k_stream : exists base, confirmed_of (log s) = base ++ ahead /\
    (state_ (conn s) <> Closed -> queued_of (log s) = base ++ pending (send_queue_ (conn s)));
  k_prefix : confirmed_of (log s) `prefix_of` queued_of (log s);
  k_closed : state_ (conn s) = Closed -> ios s = [] /\ pending (send_queue_ (conn s)) = [];
}.

(** Whether the queue of a connection that can still send is up to date. *)
Definition synced (ahead : list byte) (s : system) : Prop :=
  state_ (conn s) = Active \/ send_in_flight_ (conn s) = true -> ahead = [].

(** A closed connection leaves the registry once; [b] says that it is about to. *)
Definition owed (b : bool) (s : system) : Prop :=
  (removals (log s) + (if b then 1 else 0))%nat = if bool_decide (state_ (conn s) = Closed) then 1%nat else 0%nat.
Abbreviation told := (owed false).

(** Queued bytes of an active connection are on their way, and a connection that
    is to be closed after sending has some. *)
Record busy (s : system) : Prop := {
  bz_work : state_ (conn s) = Active -> (send_in_flight_ (conn s) = true <-> pending (send_queue_ (conn s)) <> []);
  bz_close : close_after_send_ (conn s) = true ->
    state_ (conn s) = Active /\ pending (send_queue_ (conn s)) <> [];
}.

(** The invariant between two steps, up to the removal from the registry. *)
Record fin (b : bool) (s : system) : Prop := {
  ci_mid : exists ahead, mid ahead s /\ synced ahead s;
  ci_told : owed b s;
  ci_busy : busy s;
  ci_drain : state_ (conn s) = Closing -> ios s <> [];
}.
Abbreviation cinv := (fin false).

(** ** Running the methods *)

Definition wp {A} (r : result (A * system)) (Q : A -> system -> Prop) : Prop :=
  match r with Ok (a, s) => Q a s | Throw _ => False end.

Lemma wp_bind {A B} (m : M A) (f : A -> M B) s (R : A -> system -> Prop) Q :
  wp (m s) R -> (forall a s', R a s' -> wp (f a s') Q) -> wp ((m ≫= f) s) Q.
Proof.
  intros Hm Hf. unfold mbind, M_bind. destruct (m s) as [[a s']|e]; cbn in *; [by apply Hf|done].
Qed.

Lemma wp_mono {A} (r : result (A * system)) (R Q : A -> system -> Prop) :
  wp r R -> (forall a s, R a s -> Q a s) -> wp r Q.
Proof. destruct r as [[a s]|e]; cbn; auto. Qed.

Ltac mrun :=
  cbv beta iota zeta delta [get modify lift emit answer release mret M_ret mbind M_bind result_bind Datatypes.id];
  cbn [conn ios delivering log].

(** The idle timer and neutral events do not matter. *)
Definition touch (v : Z) (es : list Event) (s : system) : system :=
  mkSystem (set_idle_timer_id v (conn s)) (ios s) (delivering s) (log s ++ es).

Lemma neutral_log es l : forallb neutral es = true ->
  queued_of (l ++ es) = queued_of l /\ confirmed_of (l ++ es) = confirmed_of l /\
  removals (l ++ es) = removals l /\ resets (l ++ es) = resets l.
Proof.
  intros He.
  assert (H0 : queued_of es = [] /\ confirmed_of es = [] /\ removals es = 0%nat /\ resets es = 0%nat).
  { induction es as [|e es IH]; [done|]. cbn in He. apply andb_true_iff in He as [He Hes].
    destruct (IH Hes) as (? & ? & ? & ?). by destruct e. }
  destruct H0 as (H1 & H2 & H3 & H4). autorewrite with tcp. rewrite H1, H2, H3, H4, !app_nil_r, !Nat.add_0_r. done.
Qed.

Lemma mid_touch ahead v es s : forallb neutral es = true -> mid ahead s -> mid ahead (touch v es s).
Proof.
  intros He []. destruct (neutral_log es (log s) He) as (E1 & E2 & E3 & E4).
  split; change (log (touch v es s)) with (log s ++ es); rewrite ?E1, ?E2, ?E4; done.
Qed.

Lemma owed_touch b v es s : forallb neutral es = true -> owed b s -> owed b (touch v es s).
Proof.
  intros He Ht. destruct (neutral_log es (log s) He) as (E1 & E2 & E3 & E4). unfold owed.
  change (log (touch v es s)) with (log s ++ es). by rewrite E3.
Qed.

Lemma busy_touch v es s : busy s -> busy (touch v es s).
Proof. by intros []. Qed.

Section run.
Context `{World}.

Lemma UpdateIdleTimerLocked_run s : exists v es, forallb neutral es = true /\
  UpdateIdleTimerLocked s = Ok (tt, touch v es s).
Proof.
  unfold UpdateIdleTimerLocked. mrun. destruct (_ || _); [|destruct (negb _)].
  1,2: exists (idle_timer_id_ (conn s)), []; split; [done|]; unfold touch; rewrite app_nil_r; by destruct s as [[] ? ? ?].
  by exists (new_timer (log s)), [Rescheduled (idle_timer_id_ (conn s)) (new_timer (log s))].
Qed.

Lemma CancelIdleTimer_run s : exists v es, forallb neutral es = true /\
  CancelIdleTimer s = Ok (tt, touch v es s).
Proof.
  unfold CancelIdleTimer. mrun. destruct (_ && _).
  - by exists 0, [Cancelled (idle_timer_id_ (conn s))].
  - exists (idle_timer_id_ (conn s)), []. split; [done|]. unfold touch. rewrite app_nil_r. by destruct s as [[] ? ? ?].
Qed.

(** ** Closing *)

Definition closing_conn (r : CloseReason) (v : Z) (c : TcpConnection) : TcpConnection :=
  set_socket false (set_idle_timer_id v (set_close_after_send false (set_close_reason r (set_state Closing c)))).

Lemma BeginCloseLocked_run r s :
  if bool_decide (state_ (conn s) = Active)
  then exists v es, forallb neutral es = true /\ BeginCloseLocked r s =
    Ok (true, mkSystem (closing_conn r v (conn s)) (ios s) (delivering s) ((log s ++ es) ++ [SocketReset]))
  else BeginCloseLocked r s = Ok (false, s).
Proof.
  unfold BeginCloseLocked. mrun. case_bool_decide as E; cbn [negb]; [|done].
  set (s1 := mkSystem _ (ios s) _ _). destruct (CancelIdleTimer_run s1) as (v & es & He & ->).
  exists v, es. split; [done|]. done.
Qed.

Lemma reset_log es l : forallb neutral es = true ->
  queued_of ((l ++ es) ++ [SocketReset]) = queued_of l /\ confirmed_of ((l ++ es) ++ [SocketReset]) = confirmed_of l /\
  removals ((l ++ es) ++ [SocketReset]) = removals l /\ resets ((l ++ es) ++ [SocketReset]) = S (resets l).
Proof.
  intros He. destruct (neutral_log es l He) as (E1 & E2 & E3 & E4).
  rewrite queued_app, confirmed_app, removals_app, resets_app, E1, E2, E3, E4.
  change (queued_of [SocketReset]) with (@nil byte). change (confirmed_of [SocketReset]) with (@nil byte).
  rewrite !app_nil_r. split_and!; try done; cbn; lia.
Qed.

(** What the methods below leave alone. *)
Record frame (s s' : system) : Prop := {
  fr_delivering : delivering s' = delivering s;
  fr_queue : send_queue_ (conn s') = send_queue_ (conn s);
  fr_queued : queued_of (log s') = queued_of (log s);
  fr_confirmed : confirmed_of (log s') = confirmed_of (log s);
}.

Lemma frame_touch v es s : forallb neutral es = true -> frame s (touch v es s).
Proof. intros He. destruct (neutral_log es (log s) He) as (E1 & E2 & E3 & E4). by split. Qed.

(** A connection that is not active starts nothing. *)
Definition stays (s s' : system) : Prop :=
  state_ (conn s) <> Active -> state_ (conn s') <> Active /\ ios s' = ios s.

Lemma frame_refl s : frame s s.
Proof. done. Qed.

Lemma frame_trans s1 s2 s3 : frame s1 s2 -> frame s2 s3 -> frame s1 s3.
Proof. intros [] []. split; congruence. Qed.

Lemma BeginCloseLocked_wp ahead r s : mid ahead s -> told s ->
  wp (BeginCloseLocked r s) (fun b s' => mid ahead s' /\ told s' /\ frame s s' /\ ios s' = ios s /\
    b = bool_decide (state_ (conn s) = Active) /\ send_in_flight_ (conn s') = send_in_flight_ (conn s) /\
    state_ (conn s') = (if decide (state_ (conn s) = Active) then Closing else state_ (conn s)) /\
    close_after_send_ (conn s') = (if decide (state_ (conn s) = Active) then false else close_after_send_ (conn s)) /\
    close_reason_ (conn s') = (if decide (state_ (conn s) = Active) then r else close_reason_ (conn s))).
Proof.
  intros Hm Ht. pose proof (BeginCloseLocked_run r s) as Hr.
  destruct (decide _) as [Ha|Ha]; [|rewrite bool_decide_eq_false_2 in Hr |- * by done; rewrite Hr; done].
  rewrite bool_decide_eq_true_2 in Hr |- * by done.
  destruct Hr as (v & es & He & ->). destruct (reset_log es (log s) He) as (E1 & E2 & E3 & E4).
  destruct Hm. unfold owed in *. rewrite Ha in *. cbn [wp conn ios delivering log].
  rewrite E3. split_and!; try done.
  split; cbn [conn ios delivering log]; rewrite ?E1, ?E2, ?E4; try done.
  - rewrite k_resets0. done.
  - destruct k_stream0 as (base & ? & Hq). exists base. split; [done|]. intros _. by apply Hq.
Qed.

(** A connection that was closed is up to date and not busy any more. *)
Lemma BeginCloseLocked_busy r s ahead : mid ahead s -> told s ->
  (state_ (conn s) <> Active -> busy s) ->
  (send_in_flight_ (conn s) = true -> ahead = []) ->
  wp (BeginCloseLocked r s) (fun b s' => mid ahead s' /\ told s' /\ frame s s' /\ ios s' = ios s /\
    state_ (conn s') <> Active /\ busy s' /\ synced ahead s' /\
    (state_ (conn s) = Active -> state_ (conn s') = Closing /\ close_reason_ (conn s') = r)).
Proof.
  intros Hm Ht Hb Ha. eapply wp_mono; [by apply BeginCloseLocked_wp|].
  intros b s' (Hm' & Ht' & Hf & Hi & _ & Es & E1 & E2 & E3).
  assert (Hst : state_ (conn s') <> Active) by (rewrite E1; by destruct (decide _)).
  split_and!; try done.
  - split; [done|]. rewrite E2. destruct (decide _) as [?|n]; [done|]. intros Hc.
    destruct (bz_close _ (Hb n) Hc). done.
  - intros [?|?]; [done|]. apply Ha. congruence.
  - intros Hst'. rewrite E1, E3. by destruct (decide _).
Qed.

Definition closed_conn (c : TcpConnection) : TcpConnection :=
  set_send_queue (Clear (send_queue_ c)) (set_state Closed c).

Lemma MoveToClosedIfDrainedLocked_wp ahead s : mid ahead s -> synced ahead s -> told s -> busy s ->
  wp (MoveToClosedIfDrainedLocked s) (fun b s' => fin b s' /\
    b = bool_decide (state_ (conn s) = Closing /\ ios s = []) /\ log s' = log s /\ delivering s' = delivering s /\
    ios s' = ios s /\
    (if (b : bool) then conn s' = closed_conn (conn s) else s' = s)).
Proof.
  intros Hm Hy Ht Hb. unfold MoveToClosedIfDrainedLocked. mrun. rewrite (k_out _ _ Hm).
  assert (Hz : (zlen (ios s) =? 0) = bool_decide (ios s = [])).
  { case_bool_decide as E; [by rewrite E|]. apply Z.eqb_neq. intros E0. by apply zlen_0 in E0. }
  rewrite Hz, <- bool_decide_and.
  match goal with |- context [if bool_decide ?P then _ else _] => destruct (decide P) as [E|E] end.
  2:{ rewrite !bool_decide_eq_false_2 by done. cbn [wp]. split_and!; try done.
      split; [by exists ahead|done|done|]. intros ? ?. by apply E. }
  rewrite !bool_decide_eq_true_2 by done.
  destruct E as [Ec Ei]. cbn [wp conn ios delivering log]. split_and!; try done.
  assert (Hns : send_in_flight_ (conn s) = false).
  { destruct (k_ios _ _ Hm) as (g & Hp & Hf). destruct (send_in_flight_ (conn s)) eqn:Hs; [|done]. exfalso.
    rewrite Ei in Hp. apply Permutation_nil_l in Hp. unfold expected in Hp. rewrite Hs in Hp. symmetry in Hp.
    by apply app_eq_nil in Hp as [_ ?]. }
  unfold owed in *. rewrite Ec, bool_decide_eq_false_2 in Ht by done.
  destruct Hm. split; cbn [conn ios delivering log].
  - exists ahead. split.
    + split; cbn [conn ios delivering log]; try done.
      * apply Clear_inv, k_queue0.
      * destruct k_ios0 as (g & Hp & Hf). exists g. split; [done|]. cbn. by rewrite Hns.
      * cbn [socket_ set_send_queue set_state closed_conn state_]. rewrite k_socket0, Ec. done.
      * rewrite k_resets0, Ec. done.
      * destruct k_stream0 as (base & Hb' & _). exists base. split; [done|]. by intros [].
    + intros [?|?]; [done|]. cbn in *. congruence.
  - unfold owed. rewrite bool_decide_eq_true_2 by done. cbn [log]. lia.
  - split; [done|]. cbn. intros Hc. destruct (bz_close _ Hb Hc). congruence.
  - done.
Qed.

(** The end of a method: the log entry and the removal from the registry. *)
Lemma fin_touch b v es s : forallb neutral es = true -> fin b s -> fin b (touch v es s).
Proof.
  intros He [(ahead & Hm & Hy) Ht Hb Hd]. split; [|by apply owed_touch|by apply busy_touch|done].
  exists ahead. split; [by apply mid_touch|done].
Qed.

Lemma emit_fin b e s : neutral e = true -> fin b s -> wp (emit e s) (fun _ s' => fin b s' /\ conn s' = conn s /\
  ios s' = ios s /\ frame s s').
Proof.
  intros He Hs.
  assert (E : emit e s = Ok (tt, touch (idle_timer_id_ (conn s)) [e] s)).
  { unfold emit, touch. by destruct s as [[] ? ? ?]. }
  rewrite E. cbn [wp]. split_and!.
  - apply fin_touch; [cbn; by rewrite He|done].
  - by destruct s as [[] ? ? ?].
  - done.
  - apply frame_touch. cbn. by rewrite He.
Qed.

Lemma notify_closed_fin b s : fin b s -> wp (notify_closed b s) (fun _ s' => cinv s' /\ conn s' = conn s /\
  ios s' = ios s /\ frame s s').
Proof.
  intros Hs. destruct b; [|done]. unfold notify_closed. mrun. cbn [wp conn ios].
  destruct Hs as [(ahead & Hm & Hy) Ht Hb Hd].
  assert (E : forall l, queued_of ((l ++ [ClosedNotified]) ++ [RemovedFromRegistry]) = queued_of l /\
    confirmed_of ((l ++ [ClosedNotified]) ++ [RemovedFromRegistry]) = confirmed_of l /\
    removals ((l ++ [ClosedNotified]) ++ [RemovedFromRegistry]) = S (removals l) /\
    resets ((l ++ [ClosedNotified]) ++ [RemovedFromRegistry]) = resets l).
  { intros l. autorewrite with tcp. cbn. rewrite !app_nil_r. split_and!; try done; lia. }
  destruct (E (log s)) as (E1 & E2 & E3 & E4). split_and!; try done.
  split; cbn [conn ios log]; try done.
  - exists ahead. split; [|done]. destruct Hm. split; cbn [conn ios log]; rewrite ?E1, ?E2, ?E4; done.
  - unfold owed in *. cbn [conn log]. rewrite E3. rewrite <- Ht. lia.
  - by destruct Hb.
Qed.

(** [MoveToClosedIfDrainedLocked], the log entry and the removal, at the end of a method. *)
Lemma closing_tail {A} ahead s (entry : M unit) (k : bool -> M A) Q :
  mid ahead s -> synced ahead s -> told s -> busy s ->
  (entry = mret tt \/ exists r, entry = LogClose r) ->
  (forall b s', cinv s' -> delivering s' = delivering s -> ios s' = ios s ->
     b = bool_decide (state_ (conn s) = Closing /\ ios s = []) ->
     conn s' = (if (b : bool) then closed_conn (conn s) else conn s) ->
     queued_of (log s') = queued_of (log s) -> confirmed_of (log s') = confirmed_of (log s) ->
     wp (k b s') Q) ->
  wp ((b ← MoveToClosedIfDrainedLocked; entry;; notify_closed b;; k b) s) Q.
Proof.
  intros Hm Hy Ht Hb Hentry Hk.
  eapply wp_bind; [by eapply MoveToClosedIfDrainedLocked_wp|].
  intros b s1 (Hf1 & Eb & El & Ed & Ei & Ec). cbn beta.
  eapply (wp_bind _ _ _ (fun _ s2 => fin b s2 /\ conn s2 = conn s1 /\ ios s2 = ios s1 /\ frame s1 s2)).
  { destruct Hentry as [->|[r ->]]; [by split_and!|by apply emit_fin]. }
  intros [] s2 (Hf2 & Ec2 & Ei2 & Fr2).
  eapply wp_bind; [by apply notify_closed_fin|]. intros [] s3 (Hf3 & Ec3 & Ei3 & Fr3).
  destruct Fr2 as [D2 _ F2a F2b], Fr3 as [D3 _ F3a F3b].
  apply Hk; try congruence. rewrite Ec3, Ec2. destruct b; [done|by rewrite Ec].
Qed.

(** The same without anything behind it. *)
Lemma closing_end ahead s (entry : M unit) Q :
  mid ahead s -> synced ahead s -> told s -> busy s ->
  (entry = mret tt \/ exists r, entry = LogClose r) ->
  (forall s', cinv s' -> delivering s' = delivering s -> ios s' = ios s ->
     conn s' = (if bool_decide (state_ (conn s) = Closing /\ ios s = []) then closed_conn (conn s) else conn s) ->
     queued_of (log s') = queued_of (log s) -> confirmed_of (log s') = confirmed_of (log s) -> Q tt s') ->
  wp ((b ← MoveToClosedIfDrainedLocked; entry;; notify_closed b) s) Q.
Proof.
  intros Hm Hy Ht Hb He HQ. 
  assert (Hw := closing_tail ahead s entry (fun _ => mret tt) Q Hm Hy Ht Hb He).
  revert Hw. unfold mbind, M_bind, mret, M_ret.
  destruct (MoveToClosedIfDrainedLocked s) as [[b s1]|]; cbn; [|intros Hw; apply Hw; by intros; subst; apply HQ].
  destruct (entry s1) as [[[] s2]|]; cbn; [|intros Hw; apply Hw; by intros; subst; apply HQ].
  destruct (notify_closed b s2) as [[[] s3]|]; cbn; intros Hw; apply Hw; by intros; subst; apply HQ.
Qed.

(** Closing for a reason, from any state that is consistent but for [busy]. *)
Lemma close_now {A} ahead s r (close_entry : bool -> M unit) (k : bool -> bool -> M A) Q :
  mid ahead s -> told s -> (state_ (conn s) <> Active -> busy s) -> (send_in_flight_ (conn s) = true -> ahead = []) ->
  (forall b, close_entry b = mret tt \/ exists r, close_entry b = LogClose r) ->
  (forall b b' s', cinv s' -> state_ (conn s') <> Active -> delivering s' = delivering s -> ios s' = ios s ->
     queued_of (log s') = queued_of (log s) -> confirmed_of (log s') = confirmed_of (log s) -> wp (k b b' s') Q) ->
  wp ((b ← BeginCloseLocked r; b' ← MoveToClosedIfDrainedLocked; close_entry b;; notify_closed b';; k b b') s) Q.
Proof.
  intros Hm Ht Hb Ha He Hk. eapply wp_bind; [by eapply BeginCloseLocked_busy|].
  intros b s1 (Hm1 & Ht1 & Fr & Ei & Hs1 & Hb1 & Hy1 & _). cbn beta.
  eapply closing_tail; [done..|by apply He|]. intros b' s2 Hc2 Ed Ei2 Eb Ec Eq Ef.
  destruct Fr. apply Hk; try congruence. rewrite Ec. by destruct b'.
Qed.

Lemma close_now_end ahead s r (close_entry : bool -> M unit) Q :
  mid ahead s -> told s -> (state_ (conn s) <> Active -> busy s) -> (send_in_flight_ (conn s) = true -> ahead = []) ->
  (forall b, close_entry b = mret tt \/ exists r, close_entry b = LogClose r) ->
  (forall s', cinv s' -> state_ (conn s') <> Active -> delivering s' = delivering s -> ios s' = ios s ->
     queued_of (log s') = queued_of (log s) -> confirmed_of (log s') = confirmed_of (log s) -> Q tt s') ->
  wp ((b ← BeginCloseLocked r; b' ← MoveToClosedIfDrainedLocked; close_entry b;; notify_closed b') s) Q.
Proof.
  intros Hm Ht Hb Ha He Hk. eapply wp_bind; [by eapply BeginCloseLocked_busy|].
  intros b s1 (Hm1 & Ht1 & Fr & Ei & Hs1 & Hb1 & Hy1 & _). cbn beta.
  eapply closing_end; [done..|by apply He|]. intros s2 Hc2 Ed Ei2 Ec Eq Ef.
  destruct Fr. apply Hk; try congruence. rewrite Ec. by case_bool_decide.
Qed.

(** ** Posting *)

Lemma at_most_two ahead s : mid ahead s -> 0 <= outstanding_operations_ (conn s) <= 2.
Proof.
  intros []. rewrite k_out0. destruct k_ios0 as (g & Hp & _). unfold zlen. rewrite Hp. unfold expected.
  rewrite length_app. destruct (receive_in_flight_ _), (send_in_flight_ _); cbn; lia.
Qed.

Lemma retract_receive c : 0 <= outstanding_operations_ c <= 2 -> receive_in_flight_ c = false ->
  set_receive_in_flight false (one_less (set_receive_in_flight true
    (set_outstanding_operations (u64 (outstanding_operations_ c + 1)) c))) = c.
Proof.
  intros Ho Hr. usimpl. unfold one_less. cbn [outstanding_operations_ set_receive_in_flight set_outstanding_operations].
  rewrite (proj2 (Z.ltb_lt 0 (outstanding_operations_ c + 1))) by lia.
  rewrite Z.add_simpl_r. destruct c; cbn in *. by subst.
Qed.

Lemma retract_send c : 0 <= outstanding_operations_ c <= 2 -> send_in_flight_ c = false ->
  set_send_in_flight false (one_less (set_send_in_flight true
    (set_outstanding_operations (u64 (outstanding_operations_ c + 1)) c))) = c.
Proof.
  intros Ho Hr. usimpl. unfold one_less. cbn [outstanding_operations_ set_send_in_flight set_outstanding_operations].
  rewrite (proj2 (Z.ltb_lt 0 (outstanding_operations_ c + 1))) by lia.
  rewrite Z.add_simpl_r. destruct c; cbn in *. by subst.
Qed.

Lemma PostReceiveLocked_wp ahead s : mid ahead s -> told s ->
  wp (PostReceiveLocked s) (fun e s' => mid ahead s' /\ told s' /\ frame s s' /\
    state_ (conn s') = state_ (conn s) /\ close_after_send_ (conn s') = close_after_send_ (conn s) /\
    send_in_flight_ (conn s') = send_in_flight_ (conn s) /\ (state_ (conn s) <> Active -> s' = s)).
Proof.
  intros Hm Ht. unfold PostReceiveLocked. mrun. destruct (_ || _) eqn:E; [by split_and!|].
  rewrite orb_false_iff, negb_false_iff, bool_decide_eq_true in E. destruct E as [Ea Er].
  pose proof (at_most_two _ _ Hm) as Ho. destruct (negb _).
  - cbn [conn ios delivering log]. rewrite retract_receive by done. set (s1 := mkSystem _ _ _ _).
    replace s1 with s by (by destruct s). destruct (UpdateIdleTimerLocked_run s) as (v & es & He & ->). cbn [wp].
    split_and!; try done; [by apply mid_touch|by apply owed_touch|by apply frame_touch].
  - cbn [wp]. destruct (neutral_log [PostedReceive] (log s) eq_refl) as (E1 & E2 & E3 & E4).
    split_and!; try done; [|unfold owed; cbn [log conn]; by rewrite E3].
    destruct Hm. split; cbn [conn ios log]; rewrite ?E1, ?E2, ?E4; try done.
    + destruct k_ios0 as (g & Hp & Hf). exists g. split; [|done]. rewrite Hp. unfold expected.
      cbn [receive_in_flight_ send_in_flight_ receive_chunk_bytes_ set_receive_in_flight set_outstanding_operations].
      rewrite Er. rewrite app_nil_l. apply Permutation_app_comm.
    + cbn [outstanding_operations_ set_receive_in_flight set_outstanding_operations].
      rewrite zlen_app, zlen_cons, zlen_nil, <- k_out0. by usimpl.
    + cbn. by rewrite Ea.
Qed.

Lemma PostSendLocked_wp s : mid [] s -> told s -> state_ (conn s) = Active -> send_in_flight_ (conn s) = false ->
  pending (send_queue_ (conn s)) <> [] ->
  wp (PostSendLocked s) (fun e s' => mid [] s' /\ told s' /\ frame s s' /\
    state_ (conn s') = Active /\ close_after_send_ (conn s') = close_after_send_ (conn s) /\
    send_in_flight_ (conn s') = bool_decide (e = 0) /\ ((forall l, wsa_send l = 0) -> e = 0)).
Proof.
  intros Hm Ht Ea Es Hne. unfold PostSendLocked. mrun. rewrite (bool_decide_eq_true_2 _ Ea), Es. cbn [negb orb].
  destruct (k_limits _ _ Hm) as [Hl1 Hl2]. pose proof (at_most_two _ _ Hm) as Ho.
  assert (Hl3 : 0 < maximum_gather_bytes_per_operation_ (conn s) < 2 ^ 64) by lia.
  destruct (Gather_spec _ _ _ (k_queue _ _ Hm) Hl1 Hl3) as ([Hg1 Hg2 Hg3] & Hpre & _ & Hsome).
  destruct (Hsome Hne) as [Hpos Hsl].
  replace (Empty (send_queue_ (conn s))) with false.
  2:{ symmetry. unfold Empty. apply bool_decide_eq_false. intros E. apply Hne. by apply pending_nil; [apply Hm|]. }
  set (g := Gather _ _ _) in *. replace (SendGather_Empty g) with false.
  2:{ symmetry. apply Z.eqb_neq. intros E. by apply zlen_0 in E. }
  destruct (negb _) eqn:Ee.
  - cbn [conn ios delivering log]. rewrite retract_send by done. set (s1 := mkSystem _ _ _ _).
    replace s1 with s by (by destruct s). destruct (UpdateIdleTimerLocked_run s) as (v & es & He & ->). cbn [wp].
    apply negb_true_iff, Z.eqb_neq in Ee. rewrite bool_decide_eq_false_2 by done.
    split_and!; try done; [by apply mid_touch|by apply owed_touch|by apply frame_touch].
  - cbn [wp]. destruct (neutral_log [PostedSend g] (log s) eq_refl) as (E1 & E2 & E3 & E4).
    split_and!; try done; [|unfold owed; cbn [log conn]; by rewrite E3].
    destruct Hm. split; cbn [conn ios log]; rewrite ?E1, ?E2, ?E4; try done.
    + destruct k_ios0 as (g' & Hp & Hf). exists g. split; [|intros _; split; [done|lia|done]]. rewrite Hp. unfold expected.
      cbn [receive_in_flight_ send_in_flight_ receive_chunk_bytes_ set_send_in_flight set_outstanding_operations].
      by rewrite Es, app_nil_r.
    + cbn [outstanding_operations_ set_send_in_flight set_outstanding_operations].
      rewrite zlen_app, zlen_cons, zlen_nil, <- k_out0. by usimpl.
    + cbn. by rewrite Ea.
Qed.

(** ** The methods *)

Lemma entry_ok (r : CloseReason) (b : bool) :
  (if b then LogClose r else mret tt) = mret tt \/ exists r', (if b then LogClose r else mret tt) = LogClose r'.
Proof. destruct b; [right; by exists r|by left]. Qed.

Lemma log_ok (r : CloseReason) (b : bool) : LogClose r = mret tt \/ exists r', LogClose r = LogClose r'.
Proof. right. by exists r. Qed.

(** A state between two steps is a good start for closing. *)
Lemma fin_start s : cinv s -> exists ahead, mid ahead s /\ synced ahead s /\ told s /\ busy s /\
  (state_ (conn s) <> Active -> busy s) /\ (send_in_flight_ (conn s) = true -> ahead = []).
Proof. intros [(ahead & Hm & Hy) Ht Hb _]. exists ahead. split_and!; try done. intros Hs. apply Hy. by right. Qed.

Lemma busy_frame s s' : busy s -> send_queue_ (conn s') = send_queue_ (conn s) ->
  state_ (conn s') = state_ (conn s) -> close_after_send_ (conn s') = close_after_send_ (conn s) ->
  send_in_flight_ (conn s') = send_in_flight_ (conn s) -> busy s'.
Proof. intros [H1 H2] E1 E2 E3 E4. split; rewrite ?E1, ?E2, ?E3, ?E4; done. Qed.

Lemma synced_frame ahead s s' : synced ahead s ->
  state_ (conn s') = state_ (conn s) -> send_in_flight_ (conn s') = send_in_flight_ (conn s) -> synced ahead s'.
Proof. intros Hy E1 E2. unfold synced. by rewrite E1, E2. Qed.

Lemma BeginClose_wp r s : cinv s -> wp (BeginClose r s) (fun _ s' => cinv s' /\ state_ (conn s') <> Active /\
  delivering s' = delivering s /\ ios s' = ios s /\
  queued_of (log s') = queued_of (log s) /\ confirmed_of (log s') = confirmed_of (log s)).
Proof.
  intros Hs. destruct (fin_start s Hs) as (ahead & Hm & Hy & Ht & Hb & Hb' & Ha).
  eapply close_now_end; try done. apply entry_ok.
Qed.

(** After [PostReceiveLocked], either there is nothing to do or the connection closes. *)
Lemma receive_or_close s (k : Z -> M unit) : cinv s ->
  (forall error, k error = (if negb (error =? 0) then
     BeginCloseLocked ReceiveError;; b ← MoveToClosedIfDrainedLocked; LogClose ReceiveError;; notify_closed b
     else mret tt)) ->
  wp ((e ← PostReceiveLocked; k e) s) (fun _ s' => cinv s' /\ delivering s' = delivering s /\ stays s s').
Proof.
  intros Hs Hk. destruct (fin_start s Hs) as (ahead & Hm & Hy & Ht & Hb & Hb' & Ha).
  eapply wp_bind; [by eapply PostReceiveLocked_wp|].
  intros e s1 (Hm1 & Ht1 & Fr & E1 & E2 & E3 & Hs1). rewrite Hk.
  assert (Hb1 : busy s1) by (destruct Fr; by apply (busy_frame s)).
  assert (Hy1 : synced ahead s1) by by apply (synced_frame _ s).
  destruct Fr. destruct (negb _).
  - eapply (close_now_end ahead s1 ReceiveError (fun _ => LogClose ReceiveError)); try done.
    + intros ?. apply Hy1. by right.
    + intros b. by apply log_ok.
    + intros s2 Hc2 Hn2 Ed Ei2 _ _. split_and!; [done|congruence|]. intros Hna. split; [done|]. by rewrite Ei2, Hs1.
  - cbn. split_and!; [|done|intros Hna; by rewrite Hs1]. split; try done; [by exists ahead|].
    rewrite E1. intros Hc. rewrite Hs1 by congruence. by apply Hs.
Qed.

Lemma Start_wp s : cinv s -> wp ((_ ← Start; mret tt) s)
  (fun _ s' => cinv s' /\ delivering s' = delivering s /\ stays s s').
Proof.
  intros Hs.
  set (k := fun error => if negb (error =? 0) then
     BeginCloseLocked ReceiveError;; b ← MoveToClosedIfDrainedLocked; LogClose ReceiveError;; notify_closed b
     else mret tt).
  pose proof (receive_or_close s k Hs (fun _ => eq_refl)) as Hw. revert Hw.
  unfold Start, k, mbind, M_bind, mret, M_ret. destruct (PostReceiveLocked s) as [[e s1]|]; cbn; [|done].
  destruct (negb _); cbn; [|done]. destruct (BeginCloseLocked _ s1) as [[b s2]|]; cbn; [|done].
  destruct (MoveToClosedIfDrainedLocked s2) as [[b' s3]|]; cbn; [|done].
  destruct (notify_closed _ _) as [[[] s4]|]; cbn; done.
Qed.

Lemma after_handler_wp threw s : cinv s -> wp (after_handler threw s)
  (fun _ s' => cinv s' /\ delivering s' = delivering s /\ stays s s').
Proof.
  intros Hs. destruct threw.
  { eapply wp_mono; [by apply BeginClose_wp|]. intros [] s' (? & ? & ? & ? & _). by split_and!. }
  unfold after_handler.
  eapply (wp_bind _ _ _ (fun _ s1 => s1 = s)); [done|]. intros a s1 ->.
  destruct a; [|done]. by apply receive_or_close.
Qed.

Lemma SetTimerService_wp timer s : cinv s -> wp (SetTimerService timer s)
  (fun _ s' => cinv s' /\ delivering s' = delivering s /\ stays s s').
Proof.
  intros Hs. unfold SetTimerService. mrun.
  set (s1 := mkSystem (set_timer_service timer (conn s)) _ _ _).
  assert (Hs1 : cinv s1).
  { destruct Hs as [(ahead & [] & Hy) Ht [] Hd]. by split; [exists ahead|..]. }
  destruct (_ <? _); [|done]. destruct (UpdateIdleTimerLocked_run s1) as (v & es & He & ->). cbn [wp].
  split_and!; [by apply fin_touch|done|done].
Qed.

(** ** Sending *)

Lemma concat_full (segs : list (list byte)) : concat (List.filter (fun s => negb (zlen s =? 0)) segs) = concat segs.
Proof.
  induction segs as [|b l IH]; [done|]. cbn [List.filter concat].
  destruct (Z.eqb_spec (zlen b) 0) as [E|E]; cbn [negb concat]; [|by rewrite IH].
  by rewrite IH, (zlen_0 b E).
Qed.

Lemma concat_full_nonempty (segs : list (list byte)) :
  (zlen (List.filter (fun s => negb (zlen s =? 0)) segs) =? 0) = false -> concat segs <> [].
Proof.
  rewrite Z.eqb_neq. intros Hn E. apply Hn. induction segs as [|b l IH]; [done|]. cbn [concat List.filter] in *.
  apply app_eq_nil in E as [-> E]. apply IH; [|done]. by cbn in Hn.
Qed.

(** The state after a batch was admitted. *)
Definition admitted (q : SendQueue) (bytes : list byte) (close : bool) (s : system) : system :=
  mkSystem (set_close_after_send close (set_send_queue q (conn s))) (ios s) (delivering s) (log s ++ [Queued bytes]).

Lemma admitted_log bytes l :
  queued_of (l ++ [Queued bytes]) = queued_of l ++ bytes /\ confirmed_of (l ++ [Queued bytes]) = confirmed_of l /\
  removals (l ++ [Queued bytes]) = removals l /\ resets (l ++ [Queued bytes]) = resets l.
Proof. autorewrite with tcp. cbn. by rewrite !app_nil_r, !Nat.add_0_r. Qed.

Lemma admitted_mid q bytes close s : mid [] s -> state_ (conn s) = Active -> SendQueue.inv q ->
  pending q = pending (send_queue_ (conn s)) ++ bytes -> mid [] (admitted q bytes close s).
Proof.
  intros [] Ea Hq Hp. destruct (admitted_log bytes (log s)) as (E1 & E2 & E3 & E4).
  split; cbn [conn ios log admitted]; rewrite ?E1, ?E2, ?E4; try done.
  - destruct k_ios0 as (g & Hi & Hf). exists g. split; [done|]. intros Hs. destruct (Hf Hs). split; [done..|].
    cbn [send_queue_ set_close_after_send set_send_queue]. rewrite Hp. by apply prefix_app_r.
  - destruct k_stream0 as (base & Hb & Hs). exists base. split; [done|]. intros _. rewrite Hs by congruence.
    cbn [send_queue_ set_close_after_send set_send_queue]. by rewrite Hp, app_assoc.
  - by apply prefix_app_r.
  - cbn. by rewrite Ea.
Qed.

Lemma wp_get {A B} (f : TcpConnection -> A) (k : A -> M B) s Q :
  wp (k (f (conn s)) s) Q -> wp ((a ← get f; k a) s) Q.
Proof. done. Qed.

(** What follows the admission. *)
Lemma admitted_wp q bytes close s : cinv s -> state_ (conn s) = Active -> SendQueue.inv q -> bytes <> [] ->
  pending q = pending (send_queue_ (conn s)) ++ bytes ->
  wp ((if send_in_flight_ (conn s) then mret SendAccepted
       else
         post_error ← PostSendLocked;
         if negb (post_error =? 0) then
           close_started ← BeginCloseLocked SendError;
           remove_from_registry ← MoveToClosedIfDrainedLocked;
           (if (close_started : bool) then LogClose SendError else mret tt);;
           notify_closed remove_from_registry;;
           mret StartFailed
         else mret SendAccepted) (admitted q bytes close s))
    (fun status s' => cinv s' /\ delivering s' = delivering s /\ confirmed_of (log s') = confirmed_of (log s) /\
      queued_of (log s') = queued_of (log s) ++ bytes /\
      (status = SendAccepted \/ status = StartFailed /\ state_ (conn s') <> Active)).
Proof.
  intros Hs Ea Hq Hne Hp. destruct (fin_start s Hs) as (ahead & Hm & Hy & Ht & Hb & Hb' & Ha).
  assert (ahead = []) as -> by (apply Hy; by left).
  destruct (admitted_log bytes (log s)) as (E1 & E2 & E3 & E4).
  pose proof (admitted_mid q bytes close s Hm Ea Hq Hp) as Hm1.
  assert (Hpn : pending q <> []) by (rewrite Hp; intros [? ?]%app_eq_nil; done).
  assert (Ht1 : told (admitted q bytes close s)) by (unfold owed in *; cbn [log conn admitted]; by rewrite E3).
  destruct (send_in_flight_ (conn s)) eqn:Ef.
  - cbn [wp mret M_ret]. split_and!; try done; [|by left].
    split; [exists []; split; [done|by intros _]|done| |cbn; congruence].
    split; [|done]. by intros _.
  - eapply wp_bind; [by apply PostSendLocked_wp|].
    intros e s1 (Hm2 & Ht2 & Fr & Ea2 & Ec2 & Es2 & _). destruct Fr as [Fd Fq F1 F2].
    cbn [log admitted delivering] in F1, F2, Fd. rewrite E1 in F1. rewrite E2 in F2.
    assert (Hst : (e =? 0) = bool_decide (e = 0)) by (apply eq_iff_eq_true; by rewrite Z.eqb_eq, bool_decide_eq_true).
    rewrite Hst. case_bool_decide; cbn [negb].
    + cbn [wp mret M_ret]. split_and!; try done; [|by left].
      split; [exists []; split; [done|by intros _]|done| |congruence].
      split; intros; rewrite Fq; done.
    + eapply (close_now [] s1 SendError (fun b => if b then LogClose SendError else mret tt)
                (fun _ _ => mret StartFailed)); try done; [apply entry_ok|].
      intros b b' s2 Hc2 Hs2 Ed _ Eq Econf. cbn [wp mret M_ret]. split_and!; try congruence. by right.
Qed.

Lemma SendBatchInternal_wp segs close s : cinv s ->
  wp (SendBatchInternal segs close s) (fun status s' => cinv s' /\ delivering s' = delivering s /\
    confirmed_of (log s') = confirmed_of (log s) /\
    (status = SendAccepted -> queued_of (log s') = queued_of (log s) ++ concat segs) /\
    (status = SendClosed -> s' = s /\ (state_ (conn s) <> Active \/ close_after_send_ (conn s) = true)) /\ stays s s' /\
    (status = QueueOverflow \/ status = StartFailed -> state_ (conn s) = Active /\ state_ (conn s') <> Active)).
Proof.
  intros Hs. destruct (fin_start s Hs) as (ahead & Hm & Hy & Ht & Hb & Hb' & Ha).
  unfold SendBatchInternal. set (full := List.filter _ segs). cbv zeta.
  destruct (zlen full =? 0) eqn:En.
  { assert (Ec : concat segs = []).
    { rewrite <- concat_full. apply Z.eqb_eq, zlen_0 in En. fold full. by rewrite En. }
    destruct close; [|cbn; rewrite Ec, app_nil_r; unfold stays; naive_solver].
    eapply wp_bind; [by apply BeginClose_wp|]. intros [] s1 (H1 & H2 & H3 & H4 & H5 & H6). cbn.
    rewrite Ec, app_nil_r. unfold stays; naive_solver. }
  apply concat_full_nonempty in En. apply wp_get. cbv beta zeta.
  destruct (_ || _) eqn:E1.
  { rewrite orb_true_iff, negb_true_iff, bool_decide_eq_false in E1. cbn. unfold stays. naive_solver. }
  rewrite orb_false_iff, negb_false_iff, bool_decide_eq_true in E1. destruct E1 as [Ea Ecl].
  change (id (conn s)) with (conn s). set (bufs := if _ : bool then map Some full else []).
  destruct (TryPushBatch_spec bufs (send_queue_ (conn s)) (k_queue _ _ Hm)) as (q & Et & Hq & _ & _ & Hp & _).
  change (id (conn s)) with (conn s) in *. rewrite Et. destruct (_ || _) eqn:E2.
  - eapply (close_now ahead s SendQueueOverflow (fun b => if b then LogClose SendQueueOverflow else mret tt)
              (fun _ _ => mret QueueOverflow)); try done; try apply entry_ok.
    all: intros b b' s2 Hc2 Hs2 Ed _ Eq Econf; cbn [wp mret M_ret]; unfold stays; naive_solver.
  - rewrite orb_false_iff, negb_false_iff, Z.ltb_ge in E2. destruct E2 as [E2 E3].
    rewrite E3 in Hp. unfold bufs in Hp. rewrite (proj2 (Z.leb_le _ _) E2) in Hp.
    assert (Eo : concat (omap id (map Some full)) = concat segs).
    { rewrite <- (concat_full segs). fold full. f_equal. generalize full. clear. intros full. induction full as [|b l IH]; [done|]. cbn. by f_equal. }
    rewrite Eo in Hp. rewrite <- (concat_full segs) in En, Hp. fold full in En, Hp.
    eapply wp_mono; [exact (admitted_wp q (concat full) close s Hs Ea Hq En Hp)|].
    intros st s' (H1 & H2 & H3 & H4 & H5). rewrite <- (concat_full segs). fold full. unfold stays; naive_solver.
Qed.

(** ** Completions *)

Lemma take_io_perm b l io k : take_io b l = Some (io, k) -> is_receive io = b /\ l ≡ₚ io :: k.
Proof.
  revert k. induction l as [|x l IH]; intros k E; [done|]. cbn in E. destruct (Bool.eqb _ _) eqn:Ex.
  - injection E as <- <-. by apply Bool.eqb_prop in Ex.
  - destruct (take_io b l) as [[y m]|] eqn:Et; [|done]. injection E as <- <-. destruct (IH m eq_refl) as [H1 H2].
    split; [done|]. rewrite H2. apply Permutation_swap.
Qed.

Lemma expected_receive n k c g : ReceiveIo n :: k ≡ₚ expected c g ->
  receive_in_flight_ c = true /\ n = receive_chunk_bytes_ c /\
  k ≡ₚ expected (set_receive_in_flight false (one_less c)) g.
Proof.
  intros Hp. unfold expected in *.
  assert (Hin : ReceiveIo n ∈ (if receive_in_flight_ c then [ReceiveIo (receive_chunk_bytes_ c)] else []) ++
                              (if send_in_flight_ c then [SendIo g] else [])) by (rewrite <- Hp; by left).
  assert (Hr : receive_in_flight_ c = true /\ n = receive_chunk_bytes_ c).
  { destruct (receive_in_flight_ c), (send_in_flight_ c); set_solver. }
  destruct Hr as [Hr ->]. rewrite Hr in *. split_and!; try done. cbn [app] in Hp.
  apply (inj (cons _)) in Hp. rewrite Hp. unfold one_less. by destruct (_ <? _).
Qed.

Lemma expected_send g' k c g : SendIo g' :: k ≡ₚ expected c g ->
  send_in_flight_ c = true /\ g' = g /\ k ≡ₚ expected (set_send_in_flight false (one_less c)) g.
Proof.
  intros Hp. unfold expected in *. rewrite Permutation_app_comm in Hp.
  assert (Hin : SendIo g' ∈ (if send_in_flight_ c then [SendIo g] else []) ++
    (if receive_in_flight_ c then [ReceiveIo (receive_chunk_bytes_ c)] else [])) by (rewrite <- Hp; by left).
  assert (Hr : send_in_flight_ c = true /\ g' = g).
  { destruct (receive_in_flight_ c), (send_in_flight_ c); set_solver. }
  destruct Hr as [Hr ->]. rewrite Hr in *. split_and!; try done. cbn [app] in Hp.
  apply (inj (cons _)) in Hp. rewrite Hp. unfold one_less. destruct (_ <? _); cbn; by rewrite app_nil_r.
Qed.

(** [one_less] on an operation that is outstanding. *)
Lemma one_less_eq ahead s io k : mid ahead s -> ios s ≡ₚ io :: k ->
  one_less (conn s) = set_outstanding_operations (zlen k) (conn s).
Proof.
  intros Hm Hp. assert (E : outstanding_operations_ (conn s) = zlen k + 1).
  { rewrite (k_out _ _ Hm). unfold zlen. rewrite Hp. cbn [length]. lia. }
  unfold one_less. rewrite E, (proj2 (Z.ltb_lt 0 (zlen k + 1))) by (pose proof (zlen_nonneg k); lia).
  by rewrite Z.add_simpl_r.
Qed.

Lemma mid_not_closed ahead s : mid ahead s -> ios s <> [] -> state_ (conn s) <> Closed.
Proof. intros Hm Hi Hc. by destruct (k_closed _ _ Hm Hc). Qed.

Lemma receive_done_mid ahead s n k : mid ahead s -> take_io true (ios s) = Some (ReceiveIo n, k) ->
  mid ahead (mkSystem (set_receive_in_flight false (one_less (conn s))) k (delivering s) (log s)).
Proof.
  intros Hm Ht. destruct (take_io_perm _ _ _ _ Ht) as [_ Hp].
  assert (Hnc : state_ (conn s) <> Closed).
  { apply (mid_not_closed _ _ Hm). intros E. rewrite E in Hp. by apply Permutation_nil_cons in Hp. }
  destruct (k_ios _ _ Hm) as (g & Hg & Hf). rewrite Hp in Hg. destruct (expected_receive _ _ _ _ Hg) as (Hr & _ & Hk).
  rewrite (one_less_eq _ _ _ _ Hm Hp) in *. destruct Hm. split; cbn [conn ios log]; try done. by exists g.
Qed.

Lemma send_done_mid ahead s g k bs es : mid ahead s -> synced ahead s -> take_io false (ios s) = Some (SendIo g, k) ->
  bs `prefix_of` gather_bytes g -> (es = [] /\ bs = []) \/ es = [Confirmed bs] ->
  mid bs (mkSystem (set_send_in_flight false (one_less (conn s))) k (delivering s) (log s ++ es)) /\
  send_in_flight_ (conn s) = true /\ flying g (send_queue_ (conn s)) /\
  queued_of (log s ++ es) = queued_of (log s) /\ confirmed_of (log s ++ es) = confirmed_of (log s) ++ bs /\
  removals (log s ++ es) = removals (log s).
Proof.
  intros Hm Hy Ht Hbs Hes. destruct (take_io_perm _ _ _ _ Ht) as [_ Hp].
  assert (Hnc : state_ (conn s) <> Closed).
  { apply (mid_not_closed _ _ Hm). intros E. rewrite E in Hp. by apply Permutation_nil_cons in Hp. }
  destruct (k_ios _ _ Hm) as (g' & Hg & Hf). rewrite Hp in Hg.
  destruct (expected_send _ _ _ _ Hg) as (Hr & -> & Hk). specialize (Hf Hr).
  assert (ahead = []) as -> by (apply Hy; by right).
  assert (Ees : queued_of es = [] /\ confirmed_of es = bs /\ removals es = 0%nat /\ resets es = 0%nat).
  { destruct Hes as [[-> ->]| ->]; [done|]. cbn. by rewrite app_nil_r. }
  destruct Ees as (Ee1 & Ee2 & Ee3 & Ee4).
  assert (El : confirmed_of (log s ++ es) = confirmed_of (log s) ++ bs) by by rewrite confirmed_app, Ee2.
  assert (Eq : queued_of (log s ++ es) = queued_of (log s)) by by rewrite queued_app, Ee1, app_nil_r.
  assert (Er : resets (log s ++ es) = resets (log s)) by (rewrite resets_app; lia).
  split_and!; try done; [|rewrite removals_app; lia]. rewrite (one_less_eq _ _ _ _ Hm Hp) in *.
  destruct Hm. destruct k_stream0 as (base & Hb & Hs). specialize (Hs Hnc). rewrite app_nil_r in Hb.
  split; cbn [conn ios log]; rewrite ?El, ?Eq, ?Er; try done.
  - by exists g'.
  - exists base. rewrite Hb. split; [done|]. by intros _.
  - rewrite Hb, Hs. apply prefix_app. etrans; [exact Hbs|]. apply Hf.
Qed.

Definition ready (ahead : list byte) (s : system) : Prop := mid ahead s /\ synced ahead s /\ told s /\ busy s.

Lemma ready_touch ahead v es s : forallb neutral es = true -> ready ahead s -> ready ahead (touch v es s).
Proof.
  intros He (? & ? & ? & ?). split_and!; [by apply mid_touch|done|by apply owed_touch|by apply busy_touch].
Qed.

Lemma close_active_wp ahead r s : ready ahead s ->
  wp (close_active r s) (fun _ s' => ready ahead s' /\ frame s s' /\ ios s' = ios s /\ stays s s').
Proof.
  intros (Hm & Hy & Ht & Hb). unfold close_active. apply wp_get. case_bool_decide; [|done].
  eapply wp_bind; [eapply BeginCloseLocked_busy; try done; intros ?; apply Hy; by right|].
  intros b s1 (Hm1 & Ht1 & Fr & Ei & Hs1 & Hb1 & Hy1 & _). by split_and!.
Qed.

Lemma log_close_ok r : log_close r = mret tt \/ exists r', log_close r = LogClose r'.
Proof. destruct r as [r|]; [right; by exists r|by left]. Qed.

Lemma OnReceiveComplete_wp storage transferred error s n k : cinv s ->
  take_io true (ios s) = Some (ReceiveIo n, k) ->
  wp (OnReceiveComplete storage transferred error (mkSystem (conn s) k (delivering s) (log s)))
    (fun b s' => cinv s' /\ delivering s' = delivering s /\
      (state_ (conn s) <> Active -> b = false /\ state_ (conn s') <> Active /\ ios s' = k)).
Proof.
  intros [(ahead & Hm & Hy) Ht Hb _] Hio. pose proof (receive_done_mid _ _ _ _ Hm Hio) as Hm1.
  set (s1 := mkSystem (set_receive_in_flight false _) _ _ _) in Hm1.
  assert (Hc : state_ (conn s1) = state_ (conn s) /\ send_in_flight_ (conn s1) = send_in_flight_ (conn s) /\
    close_after_send_ (conn s1) = close_after_send_ (conn s) /\ send_queue_ (conn s1) = send_queue_ (conn s)).
  { unfold s1, one_less. by destruct (_ <? _). }
  destruct Hc as (E1 & E2 & E3 & E4).
  assert (Hr1 : ready ahead s1).
  { split_and!; [done|by apply (synced_frame _ s)| |by apply (busy_frame s)]. unfold owed in *. by rewrite E1. }
  unfold OnReceiveComplete. eapply (wp_bind _ _ _ (fun _ s' => s' = s1)); [done|]. intros [] s' ->.
  destruct (UpdateIdleTimerLocked_run s1) as (v & es & He & Eu).
  eapply (wp_bind _ _ _ (fun _ s2 => s2 = touch v es s1)); [by rewrite Eu|]. intros [] s' ->.
  set (s2 := touch v es s1). assert (Hr2 : ready ahead s2) by by apply ready_touch.
  eapply (wp_bind _ _ _ (fun x s3 => ready ahead s3 /\ delivering s3 = delivering s /\
    (state_ (conn s) <> Active -> x.2 = false /\ state_ (conn s3) <> Active /\ ios s3 = k))).
  { assert (Hclose : forall r, wp ((x ← close_active r; mret (x, false)) s2)
      (fun x s3 => ready ahead s3 /\ delivering s3 = delivering s /\
        (state_ (conn s) <> Active -> x.2 = false /\ state_ (conn s3) <> Active /\ ios s3 = k))).
    { intros r. eapply wp_bind; [by apply close_active_wp|]. intros x s3 (Hr3 & [D3 _ _ _] & Ei3 & Hst). cbn.
      split_and!; [done|by rewrite D3|]. intros Hna. destruct Hst as [? ->]; [change (state_ (conn s1) <> Active); by rewrite E1|done]. }
    destruct error; [done|]. destruct (_ =? 0); [done|]. destruct (_ <? _); [done|]. apply wp_get.
    case_bool_decide as Ha; cbn.
    - destruct Hr2 as (Hm2 & Hy2 & Ht2 & [Hb1 Hb2]). split_and!; [by destruct Hm2|done|]. intros Hna. destruct Hna. by rewrite <- E1.
    - split_and!; [done..|]. intros Hna. split_and!; try done. }
  intros [cl dl] s3 [(Hm3 & Hy3 & Ht3 & Hb3) [D3 Hst3]]. cbn [snd] in Hst3.
  eapply closing_tail; [done..|apply log_close_ok|].
  intros b s4 Hc4 D4 I4 _ K4 _ _.
  assert (Hst4 : state_ (conn s) <> Active -> state_ (conn s4) <> Active /\ ios s4 = k).
  { intros Hna. destruct (Hst3 Hna) as (_ & ? & ?). rewrite I4, K4. by destruct b. }
  destruct b; [cbn; split_and!; [done|congruence|naive_solver]|].
  destruct dl; [|cbn; split_and!; [done|congruence|naive_solver]].
  eapply wp_bind; [by apply emit_fin|]. intros [] s5 (Hc5 & _ & _ & [D5 _ _ _]). cbn. split_and!; [done|congruence|].
  intros Hna. by destruct (Hst3 Hna).
Qed.

(** Closing an active connection whose queue is not up to date. *)
Lemma close_error_wp ahead r s : mid ahead s -> told s -> state_ (conn s) = Active ->
  send_in_flight_ (conn s) = false ->
  wp ((BeginCloseLocked r;; mret (Some r)) s) (fun x s' => x = Some r /\ ready ahead s' /\ frame s s' /\
    ios s' = ios s /\ state_ (conn s') = Closing /\ close_reason_ (conn s') = r).
Proof.
  intros Hm Ht Ha Hf. eapply wp_bind; [by eapply BeginCloseLocked_busy; try done; rewrite Hf|].
  intros b s1 (Hm1 & Ht1 & Fr & Ei & Hs1 & Hb1 & Hy1 & Hr). destruct (Hr Ha). by split_and!.
Qed.

(** [n] bytes of the gathered data were confirmed and leave the queue. *)
Lemma consumed_mid n g q s : mid (ztake n (gather_bytes g)) s -> state_ (conn s) = Active ->
  send_in_flight_ (conn s) = false ->
  flying g (send_queue_ (conn s)) -> 0 < n <= total_bytes g ->
  SendQueue.inv q -> pending q = zdrop n (pending (send_queue_ (conn s))) ->
  forall v, mid [] (mkSystem (set_sent_bytes v (set_send_queue q (conn s))) (ios s) (delivering s) (log s)).
Proof.
  intros [] Ha Hs [Ft Fs [rest Ff]] Hn Hq Hp v. split; cbn [conn ios log]; try done.
  - destruct k_ios0 as (g' & Hi & _). exists g'. split; [done|]. cbn. by rewrite Hs.
  - destruct k_stream0 as (base & Hb & Hq'). exists (base ++ ztake n (gather_bytes g)).
    split; [by rewrite Hb, app_nil_r|]. intros _. rewrite Hq' by congruence.
    cbn [send_queue_ set_sent_bytes set_send_queue]. rewrite Hp, Ff. rewrite <- app_assoc. f_equal.
    rewrite Ft in Hn. rewrite zdrop_app_le by lia. by rewrite app_assoc, ztake_zdrop.
  - cbn. congruence.
Qed.

(** What a completion of [n] bytes leads to: the rest is posted, or a connection
    that waits for its end closes. *)
Definition progress (n : Z) (s s' : system) : Prop :=
  let left := zdrop n (pending (send_queue_ (conn s))) in
  (left = [] -> close_after_send_ (conn s) = true ->
     state_ (conn s') <> Active /\ close_reason_ (conn s') = ProtocolClose) /\
  (left <> [] -> (forall l, wsa_send l = 0) ->
     state_ (conn s') = Active /\ close_after_send_ (conn s') = close_after_send_ (conn s) /\
     pending (send_queue_ (conn s')) = left).

(** A completion whose size is impossible. *)
Lemma invalid_wp ahead s (k : SendQueue -> M (option CloseReason)) : mid ahead s -> told s ->
  state_ (conn s) = Active -> send_in_flight_ (conn s) = false ->
  wp (('(consumed, q) ← lift (Ok (Invalid, send_queue_ (conn s)));
       modify (set_send_queue q);;
       if bool_decide (consumed = Invalid) then BeginCloseLocked SendError;; mret (Some SendError) else k q) s)
    (fun _ s' => (exists ahead, ready ahead s') /\ delivering s' = delivering s /\
      queued_of (log s') = queued_of (log s) /\ confirmed_of (log s') = confirmed_of (log s)).
Proof.
  intros Hm Ht Ha Hs.
  eapply (wp_bind _ _ _ (fun x s1 => x = (Invalid, send_queue_ (conn s)) /\ s1 = s)); [done|].
  intros [r q] s1 [[= -> ->] ->].
  eapply (wp_bind _ _ _ (fun _ s1 => s1 = s)); [by destruct s as [[] ? ? ?]|]. intros [] s1 ->.
  eapply wp_mono; [by eapply close_error_wp|]. intros x s1 (_ & Hr & [F1 F2 F3 F4] & _). split_and!; try done.
  by exists ahead.
Qed.

Lemma send_completed_wp n g s : 0 <= n -> mid (ztake n (gather_bytes g)) s -> told s -> state_ (conn s) = Active ->
  send_in_flight_ (conn s) = false -> flying g (send_queue_ (conn s)) ->
  (close_after_send_ (conn s) = true -> pending (send_queue_ (conn s)) <> []) ->
  wp (send_completed n (total_bytes g) s) (fun _ s' => (exists ahead, ready ahead s') /\
    delivering s' = delivering s /\ queued_of (log s') = queued_of (log s) /\
    confirmed_of (log s') = confirmed_of (log s) /\
    (0 < n <= total_bytes g -> progress n s s')).
Proof.
  intros Hn0 Hm Ht Ha Hs Hf Hc. unfold send_completed. apply wp_get.
  destruct ((n =? 0) || (total_bytes g <? n)) eqn:En.
  { assert (Hbad : ~ 0 < n <= total_bytes g).
    { rewrite orb_true_iff, Z.eqb_eq, Z.ltb_lt in En. lia. }
    replace (lift _) with (lift (Ok (Invalid, send_queue_ (conn s)))) by done.
    eapply wp_mono; [by eapply invalid_wp|]. intros _ s1 (? & ? & ? & ?). by split_and!. }
  rewrite orb_false_iff, Z.eqb_neq, Z.ltb_ge in En. assert (Hn : 0 < n <= total_bytes g) by lia.
  assert (Hle : n <= queued_bytes_ (send_queue_ (conn s))).
  { rewrite (inv_bytes _ (k_queue _ _ Hm)). destruct Hf as [Ft _ [rest Fp]]. rewrite Fp, zlen_app.
    pose proof (zlen_nonneg rest). lia. }
  destruct (Consume_front_spec n _ (k_queue _ _ Hm) (conj (proj1 Hn) Hle)) as (r & q & Eq & Hr & Hq & Hp & _).
  pose proof (consumed_mid n g q s Hm Ha Hs Hf Hn Hq Hp (u64 (sent_bytes_ (conn s) + n))) as Hm1.
  eapply (wp_bind _ _ _ (fun x s1 => x = (r, q) /\ s1 = s)); [unfold lift; by rewrite Eq|].
  intros [r' q'] s1 [[= -> ->] ->].
  eapply (wp_bind _ _ _ (fun _ s1 => s1 = mkSystem (set_send_queue q (conn s)) (ios s) (delivering s) (log s))); [done|].
  intros [] s1 ->. rewrite bool_decide_eq_false_2 by done.
  set (s1 := mkSystem _ _ _ _) in Hm1.
  eapply (wp_bind _ _ _ (fun _ s' => s' = s1)); [done|]. intros [] s' ->. apply wp_get.
  assert (Ht1 : told s1) by done.
  assert (He : Empty (send_queue_ (conn s1)) = bool_decide (pending q = [])).
  { apply eq_iff_eq_true. rewrite bool_decide_eq_true, pending_nil by done. unfold Empty. by rewrite bool_decide_eq_true. }
  change (Datatypes.id (conn s1)) with (conn s1). change (id (conn s1)) with (conn s1). rewrite He. unfold progress. rewrite <- Hp.
  case_bool_decide as Hpe; cbn [negb].
  - destruct (close_after_send_ (conn s1)) eqn:Ec.
    + assert (E0 : emit ShutdownSend s1 = Ok (tt, touch (idle_timer_id_ (conn s1)) [ShutdownSend] s1)) by (by unfold emit, touch; destruct s as [[] ? ? ?]).
      eapply (wp_bind _ _ _ (fun _ s2 => s2 = touch (idle_timer_id_ (conn s1)) [ShutdownSend] s1)); [by rewrite E0|].
      intros [] s2 ->. assert (Fr1 := frame_touch (idle_timer_id_ (conn s1)) [ShutdownSend] s1 eq_refl).
      eapply wp_mono; [eapply (close_error_wp []); try done; [by apply mid_touch|by apply owed_touch]|].
      intros x s2 (_ & Hr2 & Fr2 & _ & Hst & Hre). destruct (frame_trans _ _ _ Fr1 Fr2) as [F1 F2 F3 F4].
      split_and!; try done; [by exists []|]. intros _. split; [by rewrite Hst|done].
    + cbn [wp mret M_ret]. split_and!; try done.
      * exists []. split_and!; try done. split; [|by rewrite Ec]. intros _. cbn [conn s1 send_queue_ set_sent_bytes set_send_queue].
        rewrite Hpe. cbn. by rewrite Hs.
      * intros _. cbv zeta. split; [|done]. intros _ Hcl. by change (close_after_send_ (conn s1) = true) in Hcl; rewrite Ec in Hcl.
  - eapply wp_bind; [by apply PostSendLocked_wp|]. intros e s2 (Hm2 & Ht2 & Fr2 & Ha2 & Hc2 & Hf2 & Hw).
    destruct (Z.eqb_spec e 0) as [E0|E0]; cbn [negb].
    + cbn [wp mret M_ret]. rewrite bool_decide_eq_true_2 in Hf2 by done. destruct Fr2 as [F1 F2 F3 F4].
      change (send_queue_ (conn s1)) with q in F2. split_and!; try done.
      * exists []. split_and!; try done. split; rewrite F2; done.
      * intros _. cbv zeta. split; [done|]. intros _ _. by rewrite F2.
    + rewrite bool_decide_eq_false_2 in Hf2 by done. eapply wp_mono; [by apply (close_error_wp [])|].
      intros x s3 (_ & Hr3 & Fr3 & _). destruct (frame_trans _ _ _ Fr2 Fr3) as [F1 F2 F3 F4].
      split_and!; try done; [by exists []|]. intros _. cbv zeta. split; [done|]. intros _ Hall. by destruct (E0 (Hw Hall)).
Qed.

(** The part of [OnSendComplete] between the timer and the end. *)
Lemma settle_wp n error g s s1 v es : 0 <= n -> busy s ->
  let bs := if (error : bool) then [] else ztake n (gather_bytes g) in
  let s2 := touch v es s1 in
  mid bs s1 -> told s1 -> forallb neutral es = true -> flying g (send_queue_ (conn s)) ->
  state_ (conn s1) = state_ (conn s) -> send_in_flight_ (conn s1) = false ->
  close_after_send_ (conn s1) = close_after_send_ (conn s) -> send_queue_ (conn s1) = send_queue_ (conn s) ->
  wp ((if error then close_active SendError
       else
         active ← get (fun c => bool_decide (state_ c = Active));
         if (active : bool) then send_completed n (total_bytes g) else mret None) s2)
    (fun _ s3 => (exists ahead, ready ahead s3) /\ delivering s3 = delivering s1 /\
      queued_of (log s3) = queued_of (log s1) /\ confirmed_of (log s3) = confirmed_of (log s1) /\
      (state_ (conn s) = Active -> error = false -> 0 < n <= total_bytes g -> progress n s s3) /\
      stays s1 s3).
Proof.
  intros Hn Hb bs s2 Hm Ht He Hfl E1 E2 E3 E4.
  pose proof (mid_touch bs v es s1 He Hm) as Hm2. pose proof (owed_touch false v es s1 He Ht) as Ht2.
  destruct (neutral_log es (log s1) He) as (N1 & N2 & _). fold s2 in Hm2, Ht2.
  change (state_ (conn s1)) with (state_ (conn s2)) in E1.
  assert (Hidle : state_ (conn s2) <> Active -> ready bs s2).
  { intros Ha. split_and!; try done; [intros [?|Hf]; [done|]; change (send_in_flight_ (conn s1) = true) in Hf; congruence|]. split; [done|].
    intros Hc. change (close_after_send_ (conn s1) = true) in Hc. rewrite E3 in Hc.
    destruct (bz_close _ Hb Hc). congruence. }
  assert (Hq : send_queue_ (conn s2) = send_queue_ (conn s)) by done.
  assert (Hl : queued_of (log s2) = queued_of (log s1) /\ confirmed_of (log s2) = confirmed_of (log s1)) by done.
  destruct Hl as [L1 L2]. destruct error.
  - unfold close_active. apply wp_get. case_bool_decide as Ha.
    + eapply wp_mono; [by apply (close_error_wp bs)|]. intros x s3 (_ & Hr & [F1 F2 F3 F4] & _).
      split_and!; try done; [by exists bs|congruence..].
    + cbn [wp mret M_ret]. split_and!; try done. exists bs. by apply Hidle.
  - apply wp_get. case_bool_decide as Ha.
    + eapply wp_mono; [eapply (send_completed_wp n g); try done; [by rewrite Hq|]|].
      { intros Hc. change (close_after_send_ (conn s1) = true) in Hc. rewrite E3 in Hc. rewrite Hq.
        by destruct (bz_close _ Hb Hc). }
      intros x s3 (Hr & D & Q & C & P). split_and!; try done; [congruence..|].
      intros _ _ Hv. specialize (P Hv). unfold progress in *. rewrite Hq in P.
      change (close_after_send_ (conn s2)) with (close_after_send_ (conn s1)) in P. by rewrite E3 in P.
    + cbn [wp mret M_ret]. split_and!; try done; [exists bs; by apply Hidle|]. intros. congruence.
Qed.

Lemma OnSendComplete_wp n error s g k : cinv s -> take_io false (ios s) = Some (SendIo g, k) -> 0 <= n ->
  let bs := if (error : bool) then [] else ztake n (gather_bytes g) in
  wp (OnSendComplete n (total_bytes g) error
        (mkSystem (conn s) k (delivering s) (log s ++ if error then [] else [Confirmed bs])))
    (fun _ s' => cinv s' /\ delivering s' = delivering s /\ queued_of (log s') = queued_of (log s) /\
      confirmed_of (log s') = confirmed_of (log s) ++ bs /\
      (state_ (conn s) = Active -> error = false -> 0 < n <= total_bytes g -> progress n s s') /\
      (state_ (conn s) <> Active -> state_ (conn s') <> Active /\ ios s' = k)).
Proof.
  intros [(ahead & Hm & Hy) Ht Hb _] Hio Hn bs.
  destruct (send_done_mid ahead s g k bs (if error then [] else [Confirmed bs]) Hm Hy Hio) as (Hm1 & Hsf & Hfl & Eq & Ec & Er).
  { unfold bs. destruct error; [apply prefix_nil|]. exists (zdrop n (gather_bytes g)). by rewrite ztake_zdrop. }
  { destruct error; [by left|by right]. }
  set (es := if error then [] else [Confirmed bs]) in *.
  set (s1 := mkSystem (set_send_in_flight false _) _ _ _) in Hm1.
  assert (Hc : state_ (conn s1) = state_ (conn s) /\ send_in_flight_ (conn s1) = false /\
    close_after_send_ (conn s1) = close_after_send_ (conn s) /\ send_queue_ (conn s1) = send_queue_ (conn s)).
  { unfold s1, one_less. by destruct (_ <? _). }
  destruct Hc as (E1 & E2 & E3 & E4).
  assert (Ht1 : told s1) by (unfold owed in *; rewrite E1; cbn [log s1]; by rewrite Er).
  unfold OnSendComplete. eapply (wp_bind _ _ _ (fun _ s' => s' = s1)); [done|]. intros [] s' ->.
  destruct (UpdateIdleTimerLocked_run s1) as (v & es1 & He1 & Eu).
  eapply (wp_bind _ _ _ (fun _ s2 => s2 = touch v es1 s1)); [by rewrite Eu|]. intros [] s2 ->.
  eapply wp_bind; [by apply (settle_wp n error g s s1 v es1)|]. rewrite <- Ec, <- Eq.
  intros cl s3 ((a3 & Hm3 & Hy3 & Ht3 & Hb3) & D3 & Q3 & C3 & L3 & St3).
  change (delivering s1) with (delivering s) in D3. change (log s1) with (log s ++ es) in Q3, C3.
  eapply closing_end; [done..|apply log_close_ok|]. intros s4 Hc4 D4 I4 K4 Q4 C4.
  split_and!; try done; try congruence.
  2:{ intros Hna. destruct St3 as [S3 I3]; [by rewrite E1|]. split; [rewrite K4; by destruct (bool_decide _)|by rewrite I4, I3]. }
  intros Ha Herr Hv. destruct (L3 Ha Herr Hv) as [L1 L2]. split.
  - intros Hl Hcl. destruct (L1 Hl Hcl) as [S3 R3]. rewrite K4. case_bool_decide; done.
  - intros Hl Hw. destruct (L2 Hl Hw) as (S3 & ?). rewrite K4, bool_decide_eq_false_2 by (intros []; congruence). done.
Qed.

(** ** Steps *)

Lemma fin_delivering b n s : fin b s -> fin b (mkSystem (conn s) (ios s) n (log s)).
Proof. intros [(ahead & [] & Hy) Ht [] Hd]. by split; [exists ahead|..]. Qed.

Definition completion (l : label) : bool :=
  match l with DoReceive _ _ _ | DoSendDone _ _ => true | _ => false end.

(** What every step does to the invariant, and to a connection that is not active. *)
Definition stepped (l : label) (s s' : system) : Prop :=
  cinv s' /\
  (state_ (conn s) <> Active -> state_ (conn s') <> Active /\
     length (ios s) = (length (ios s') + if completion l then 1 else 0)%nat).

Lemma perform_wp l s r : cinv s -> perform l s = Some r -> wp r (fun _ s' => stepped l s s').
Proof.
  intros Hs Hp. destruct l as [|segs close|reason| |timer|storage n error|threw|n error]; cbn [perform] in Hp.
  - injection Hp as <-. eapply wp_mono; [by apply Start_wp|]. intros [] s' (H1 & _ & H2). split; [done|].
    intros Hna. destruct (H2 Hna) as [? ->]. cbn. by rewrite Nat.add_0_r.
  - injection Hp as <-. eapply wp_bind; [by apply SendBatchInternal_wp|].
    intros st s' (H1 & _ & _ & _ & _ & H2 & _). cbn. split; [done|].
    intros Hna. destruct (H2 Hna) as [? ->]. cbn. by rewrite Nat.add_0_r.
  - injection Hp as <-. eapply wp_mono; [by apply BeginClose_wp|]. intros [] s' (H1 & H2 & _ & E & _).
    split; [done|]. cbn. by rewrite E, Nat.add_0_r.
  - injection Hp as <-. eapply wp_mono; [by apply BeginClose_wp|]. intros [] s' (H1 & H2 & _ & E & _).
    split; [done|]. cbn. by rewrite E, Nat.add_0_r.
  - injection Hp as <-. eapply wp_mono; [by apply SetTimerService_wp|]. intros [] s' (H1 & _ & H2). split; [done|].
    intros Hna. destruct (H2 Hna) as [? ->]. cbn. by rewrite Nat.add_0_r.
  - destruct (take_io true (ios s)) as [[[cap|] k]|] eqn:Et; try done. destruct (_ && _); [|done]. injection Hp as <-.
    eapply wp_bind; [by eapply OnReceiveComplete_wp|]. intros b s' (H1 & _ & H2). cbn. split; [by apply fin_delivering|].
    intros Hna. destruct (H2 Hna) as (_ & ? & E). split; [done|]. cbn [ios]. rewrite E.
    destruct (take_io_perm _ _ _ _ Et) as [_ ->]. cbn. lia.
  - destruct (delivering s) as [|m]; [done|]. injection Hp as <-. pose proof (fin_delivering false m s Hs) as Hs'.
    eapply wp_mono; [by apply after_handler_wp|]. intros [] s' (H1 & _ & H2). split; [done|].
    intros Hna. destruct (H2 Hna) as [? ->]. cbn. by rewrite Nat.add_0_r.
  - destruct (take_io false (ios s)) as [[[|g] k]|] eqn:Et; try done. cbv zeta in Hp.
    destruct (dword n) eqn:Ed; [|done]. injection Hp as <-. apply andb_true_iff in Ed as [Ed _]. apply Z.leb_le in Ed.
    pose proof (OnSendComplete_wp n error s g k Hs Et Ed) as Hw. cbv zeta in Hw. destruct error.
    all: eapply wp_mono; [exact Hw|]; intros [] s' (H1 & _ & _ & _ & _ & H2); split; [done|].
    all: intros Hna; destruct (H2 Hna) as [? ->]; split; [done|].
    all: destruct (take_io_perm _ _ _ _ Et) as [_ ->]; cbn; lia.
Qed.

Lemma step_stepped s l s' : cinv s -> step s l s' -> stepped l s s'.
Proof. intros Hs Hst. inversion Hst as [s0 l0 s0' Hp]; subst. exact (perform_wp _ _ _ Hs Hp). Qed.

Lemma steps_cinv s ls s' : steps s ls s' -> cinv s -> cinv s'.
Proof. induction 1 as [|s l s1 ls s2 Hst _ IH]; [done|]. intros Hs. apply IH. by eapply step_stepped. Qed.
End run.
