(* ===== verification/TcpConnectionRuns.v ===== *)
(** * TCP connections: what holds in every run

    The theorems about a connection from its construction on, for every sequence
    of calls, completions, timers and handlers, and for every answer of the
    socket functions. *)

From S2P Require Import Prelude SendQueue TcpConnection TcpConnectionTheory.

(** ** Connections from their construction on *)

(** The limits are values of [std::size_t]. *)
Definition options_fit (o : ConnectionOptions) : Prop :=
  0 <= maximum_send_queue_items o < 2 ^ 64 /\ 0 <= maximum_send_queue_bytes o < 2 ^ 64 /\
  0 <= receive_chunk_bytes o /\ 0 <= maximum_gather_segments_per_operation o /\ 0 <= maximum_gather_bytes_per_operation o.

Definition fresh (c : TcpConnection) : system := mkSystem c [] 0 [].

Section runs.
Context `{World}.

(** [s] is a state that a new connection with the options can get to. *)
Definition reachable (o : ConnectionOptions) (s : system) : Prop :=
  exists id c ls, TcpConnection_make id true true true o = Ok c /\ steps (fresh c) ls s.

Lemma make_cinv id o c : options_fit o -> TcpConnection_make id true true true o = Ok c -> cinv (fresh c).
Proof.
  intros (H1 & H2 & H3 & H4 & H5). unfold TcpConnection_make.
  destruct (SendQueue_make _ _) as [q|] eqn:Eq; [|done]. cbn [mbind result_bind].
  destruct (SendQueue_make_inv _ _ _ H1 H2 Eq) as (Hq & Hp & _).
  destruct (id =? 0); [done|]. cbn [negb]. destruct (_ || (_ <? receive_chunk_bytes o)) eqn:E0; [done|].
  destruct (_ || (_ <? maximum_gather_segments_per_operation o)) eqn:E1; [done|].
  destruct (_ || (_ <? maximum_gather_bytes_per_operation o)) eqn:E2; [done|].
  destruct (maximum_outbound_batch_segments o =? 0); [done|]. destruct ((MaximumItems q <? _) || _); [done|].
  destruct (MaximumBytes q <? _); [done|]. intros [= <-].
  rewrite orb_false_iff, Z.eqb_neq, Z.ltb_ge in E0, E1, E2.
  split; [|done| |done].
  - exists []. split; [|done]. split; cbn [fresh conn ios log]; try done.
    + cbn. lia.
    + cbn. lia.
    + exists (mkGather [] 0). done.
    + exists []. split; [done|]. intros _. cbn. by rewrite Hp.
  - split; cbn; [|done]. intros _. by rewrite Hp.
Qed.

Lemma reachable_cinv o s : options_fit o -> reachable o s -> cinv s.
Proof. intros Ho (id & c & ls & Hc & Hs). eapply steps_cinv; [done|]. by eapply make_cinv. Qed.

(** ** Operations, socket and registry *)

Lemma expected_counts c g l : l ≡ₚ expected c g ->
  length (List.filter is_receive l) = (if receive_in_flight_ c then 1 else 0)%nat /\
  length (List.filter (fun io => negb (is_receive io)) l) = (if send_in_flight_ c then 1 else 0)%nat.
Proof.
  intros Hp.
  assert (Hf : forall f : Io -> bool, length (List.filter f l) = length (List.filter f (expected c g))).
  { intros f. induction Hp as [|x l1 l2 _ IH|x y l1|l1 l2 l3 _ IH1 _ IH2]; cbn; [done| | |congruence].
    - destruct (f x); cbn; by rewrite IH.
    - by destruct (f x), (f y). }
  rewrite !Hf. unfold expected. destruct (receive_in_flight_ c), (send_in_flight_ c); done.
Qed.

Lemma Empty_pending q : SendQueue.inv q -> Empty q = bool_decide (pending q = []).
Proof. intros Hq. unfold Empty. apply bool_decide_ext. by rewrite pending_nil. Qed.

(** C7. In every reachable state of a connection: the counter of outstanding
    operations is the number of operations that the system holds, at most one
    receive and one send, as the two flags say; the socket is open exactly while
    the connection is active and is closed once; the connection has left the
    registry exactly once if it is closed, and not before; a closing connection
    still has operations, a closed one has none and an empty queue; an active
    connection has a send in flight exactly if bytes are queued; and no call or
    completion that is possible in the state fails. *)
Theorem tcp_io_discipline o s : options_fit o -> reachable o s ->
  let c := conn s in
  outstanding_operations_ c = zlen (ios s) /\
  length (List.filter is_receive (ios s)) = (if receive_in_flight_ c then 1 else 0)%nat /\
  length (List.filter (fun io => negb (is_receive io)) (ios s)) = (if send_in_flight_ c then 1 else 0)%nat /\
  socket_ c = bool_decide (state_ c = Active) /\
  resets (log s) = (if bool_decide (state_ c = Active) then 0 else 1)%nat /\
  removals (log s) = (if bool_decide (state_ c = Closed) then 1 else 0)%nat /\
  (state_ c = Closing -> ios s <> []) /\
  (state_ c = Closed -> ios s = [] /\ Empty (send_queue_ c) = true) /\
  (state_ c = Active -> send_in_flight_ c = negb (Empty (send_queue_ c))) /\
  (forall l r, perform l s = Some r -> exists s', r = Ok (tt, s')).
Proof.
  intros Ho Hr c. pose proof (reachable_cinv o s Ho Hr) as Hs. destruct (Hs) as [(ahead & Hm & Hy) Ht Hb Hd].
  destruct (k_ios _ _ Hm) as (g & Hp & _). destruct (expected_counts _ _ _ Hp) as [C1 C2].
  pose proof (Empty_pending _ (k_queue _ _ Hm)) as He. unfold c. split_and!; try done; try apply Hm.
  - unfold owed in Ht. rewrite Nat.add_0_r in Ht. done.
  - intros Hc. destruct (k_closed _ _ Hm Hc) as [? Hq]. by rewrite He, Hq.
  - intros Ha. rewrite He. apply eq_iff_eq_true. rewrite negb_true_iff, bool_decide_eq_false. by apply (bz_work _ Hb).
  - intros l r Hl. pose proof (perform_wp l s r Hs Hl) as Hw. destruct r as [[[] s']|e]; [by exists s'|done].
Qed.

(** ** The order of bytes *)

(** C8. The bytes that completions confirmed are always a prefix of the bytes that
    were accepted; while the connection is active, what is missing is exactly what
    the queue holds, whose size is [QueuedBytes] and within its limit. *)
Theorem tcp_stream_fifo o s : options_fit o -> reachable o s ->
  confirmed_of (log s) `prefix_of` queued_of (log s) /\
  QueuedBytes (send_queue_ (conn s)) = zlen (pending (send_queue_ (conn s))) /\
  QueuedBytes (send_queue_ (conn s)) <= MaximumBytes (send_queue_ (conn s)) /\
  (state_ (conn s) = Active -> queued_of (log s) = confirmed_of (log s) ++ pending (send_queue_ (conn s))).
Proof.
  intros Ho Hr. pose proof (reachable_cinv o s Ho Hr) as [(ahead & Hm & Hy) Ht Hb Hd].
  pose proof (k_queue _ _ Hm) as Hq. split_and!; [apply Hm|apply Hq|apply Hq|].
  intros Ha. destruct (k_stream _ _ Hm) as (base & E1 & E2). rewrite E2, E1 by congruence.
  rewrite (Hy (or_introl Ha)). by rewrite app_nil_r.
Qed.

(** What the status of a send means: accepted bytes are queued behind all
    earlier ones; a send on a connection that is closing, or that closes after an
    earlier send, changes nothing; after an overflow or a failed start the
    connection is not active any more.  No send confirms or removes bytes. *)
Theorem tcp_send_status o s segs close : options_fit o -> reachable o s ->
  exists status s', SendBatchInternal segs close s = Ok (status, s') /\
    confirmed_of (log s') = confirmed_of (log s) /\
    match status with
    | SendAccepted => queued_of (log s') = queued_of (log s) ++ concat segs
    | SendClosed => s' = s /\ (state_ (conn s) <> Active \/ close_after_send_ (conn s) = true)
    | QueueOverflow | StartFailed => state_ (conn s) = Active /\ state_ (conn s') <> Active
    end.
Proof.
  intros Ho Hr. pose proof (reachable_cinv o s Ho Hr) as Hs.
  pose proof (SendBatchInternal_wp segs close s Hs) as Hw.
  destruct (SendBatchInternal segs close s) as [[status s']|e] eqn:E; [|done]. exists status, s'.
  destruct Hw as (_ & _ & Hc & H1 & H2 & _ & H3). split_and!; try done.
  destruct status; [by apply H1|by apply H2|apply H3; by left|apply H3; by right].
Qed.

(** ** Closing *)

Lemma closing_run s ls s' : steps s ls s' -> cinv s -> state_ (conn s) <> Active ->
  state_ (conn s') <> Active /\
  length (ios s) = (length (ios s') + length (List.filter completion ls))%nat.
Proof.
  induction 1 as [|s l s1 ls s2 Hst _ IH]; intros Hs Ha; [split; [done|cbn; lia]|].
  destruct (step_stepped _ _ _ Hs Hst) as [Hs1 Hst1]. destruct (Hst1 Ha) as [Ha1 E1].
  destruct (IH Hs1 Ha1) as [Ha2 E2]. split; [done|]. cbn [List.filter]. destruct (completion l); cbn [length]; lia.
Qed.

(** An operation of the system can complete. *)
Lemma completion_possible s : cinv s -> ios s <> [] -> exists l s', completion l = true /\ step s l s'.
Proof.
  intros Hs Hn. assert (Hpossible : exists l r, completion l = true /\ perform l s = Some r).
  { destruct (ios s) as [|[cap|g] rest] eqn:Ei; [done| |].
    - destruct Hs as [(ahead & Hm & _) _ _ _]. exists (DoReceive (replicate (Z.to_nat cap) Byte.x00) 0 true).
      destruct (k_ios _ _ Hm) as (g & Hp & _). rewrite Ei in Hp. destruct (expected_receive _ _ _ _ Hp) as (_ & Ec & _).
      pose proof (k_chunk _ _ Hm) as Hc. cbn [perform completion]. rewrite Ei. cbn [take_io is_receive Bool.eqb].
      unfold zlen. rewrite length_replicate, Z2Nat.id, Z.eqb_refl by lia. by eexists.
    - exists (DoSendDone 0 true). cbn [perform completion]. rewrite Ei. by eexists. }
  destruct Hpossible as (l & r & Hl & Hp). pose proof (perform_wp l s r Hs Hp) as Hw.
  destruct r as [[[] s']|]; [|done]. exists l, s'. by split; [|constructor].
Qed.

Lemma drained_run n : forall s, cinv s -> state_ (conn s) <> Active -> length (ios s) = n ->
  exists ls s', Forall (fun l => completion l = true) ls /\ steps s ls s' /\ ios s' = [].
Proof.
  induction n as [|n IH]; intros s Hs Ha Hn.
  { exists [], s. apply length_zero_iff_nil in Hn. split_and!; [done|constructor|done]. }
  destruct (completion_possible s Hs) as (l & s1 & Hl & Hst); [by intros E; rewrite E in Hn|].
  destruct (step_stepped _ _ _ Hs Hst) as [Hs1 Hst1]. destruct (Hst1 Ha) as [Ha1 E1]. rewrite Hl in E1.
  destruct (IH s1 Hs1 Ha1 ltac:(lia)) as (ls & s2 & Hls & Hr & Hi). exists (l :: ls), s2.
  split_and!; [by constructor|by econstructor|done].
Qed.

(** Without operations, a connection that is not active is closed and unregistered. *)
Lemma drained_closed s : cinv s -> state_ (conn s) <> Active -> ios s = [] -> state_ (conn s) = Closed /\ removals (log s) = 1%nat.
Proof.
  intros [_ Ht _ Hd] Ha Hi. assert (Hc : state_ (conn s) = Closed) by (destruct (state_ (conn s)); naive_solver).
  split; [done|]. unfold owed in Ht. rewrite Hc, bool_decide_eq_true_2 in Ht by done. lia.
Qed.

(** C10. A connection that is not active any more gets closed by its completions and
    by nothing else: in every run from there it stays inactive, no operation is
    started, and it is closed exactly when all operations that were outstanding
    have completed.  Such a run exists, one completion per operation, and at its
    end the connection has left the registry once. *)
Theorem tcp_close_drains o s : options_fit o -> reachable o s -> state_ (conn s) <> Active ->
  (forall ls s', steps s ls s' -> state_ (conn s') <> Active /\
     (length (List.filter completion ls) <= length (ios s))%nat /\
     (state_ (conn s') = Closed <-> length (List.filter completion ls) = length (ios s))) /\
  exists ls s', Forall (fun l => completion l = true) ls /\ steps s ls s' /\ length ls = length (ios s) /\
    state_ (conn s') = Closed /\ removals (log s') = 1%nat.
Proof.
  intros Ho Hr Ha. pose proof (reachable_cinv o s Ho Hr) as Hs. split.
  - intros ls s' Hls. destruct (closing_run s ls s' Hls Hs Ha) as [Ha' E]. pose proof (steps_cinv _ _ _ Hls Hs) as Hs'.
    split_and!; [done|lia|]. split.
    + intros Hc. destruct Hs' as [(ahead & Hm & _) _ _ _]. destruct (k_closed _ _ Hm Hc) as [Hi _].
      rewrite Hi in E. cbn in E. lia.
    + intros Hn. apply drained_closed; [done..|]. apply length_zero_iff_nil. lia.
  - destruct (drained_run _ s Hs Ha eq_refl) as (ls & s' & Hls & Hst & Hi). exists ls, s'.
    destruct (closing_run s ls s' Hst Hs Ha) as [Ha' E]. pose proof (steps_cinv _ _ _ Hst Hs) as Hs'.
    destruct (drained_closed s' Hs' Ha' Hi) as [Hc Hrm]. split_and!; try done.
    rewrite Hi in E. cbn in E. rewrite E. clear -Hls. induction Hls as [|l ls Hl _ IH]; [done|]. cbn. rewrite Hl. cbn. by rewrite IH.
Qed.

(** ** Closing after the last byte *)

(** Completions of sends, where [size] says how many bytes of an operation the
    system sends before it completes it, until the connection is not active. *)
Inductive drains (size : Z -> Z) : system -> list label -> system -> Prop :=
  | drains_end s : state_ (conn s) <> Active -> drains size s [] s
  | drains_step s g rest s1 ls s2 : state_ (conn s) = Active -> take_io false (ios s) = Some (SendIo g, rest) ->
      step s (DoSendDone (size (total_bytes g)) false) s1 -> drains size s1 ls s2 ->
      drains size s (DoSendDone (size (total_bytes g)) false :: ls) s2.

Lemma take_send l g k : l ≡ₚ k -> SendIo g ∈ k -> exists g' rest, take_io false l = Some (SendIo g', rest).
Proof.
  intros Hp Hin. rewrite <- Hp in Hin. clear Hp k. induction l as [|[n|g'] l IH]; [by apply not_elem_of_nil in Hin| |].
  - apply elem_of_cons in Hin as [?|Hin]; [done|]. destruct (IH Hin) as (g' & rest & E). cbn. rewrite E. cbn. by eexists _, _.
  - cbn. by eexists _, _.
Qed.

(** The confirmed bytes of a gathered send are all that is queued. *)
Lemma all_taken m g q : flying g q -> 0 < m <= total_bytes g -> zdrop m (pending q) = [] ->
  ztake m (gather_bytes g) = pending q.
Proof.
  intros [Ft _ [rest Fp]] Hm Hd. rewrite <- (ztake_zdrop m (pending q)), Hd, app_nil_r, Fp.
  rewrite Ft in Hm. by rewrite ztake_app_le by lia.
Qed.

Lemma drains_run size n : (forall t, 0 < t -> 0 < size t <= t) -> (forall l, wsa_send l = 0) ->
  forall s, cinv s -> close_after_send_ (conn s) = true -> (length (pending (send_queue_ (conn s))) <= n)%nat ->
  exists ls s', drains size s ls s' /\ (length ls <= n)%nat /\
    close_reason_ (conn s') = ProtocolClose /\ confirmed_of (log s') = queued_of (log s') /\
    queued_of (log s') = queued_of (log s).
Proof.
  intros Hsize Hw. induction n as [|n IH]; intros s Hs Hc Hn.
  { destruct Hs as [_ _ Hb _]. destruct (bz_close _ Hb Hc) as [_ Hp]. destruct Hp. apply length_zero_iff_nil. lia. }
  destruct (Hs) as [(ahead & Hm & Hy) _ Hb _]. destruct (bz_close _ Hb Hc) as [Ha Hp].
  pose proof (proj2 (bz_work _ Hb Ha) Hp) as Hf. destruct (k_ios _ _ Hm) as (g & Hio & Hfl). destruct (Hfl Hf) as [Ft Fs Fp].
  destruct (take_send (ios s) g _ Hio) as (g' & rest & Et).
  { unfold expected. rewrite Hf. apply elem_of_app. right. by left. }
  destruct (take_io_perm _ _ _ _ Et) as [_ Hp']. rewrite Hio in Hp'. symmetry in Hp'.
  destruct (expected_send _ _ _ _ Hp') as (_ & -> & _).
  pose proof (Hsize (total_bytes g) ltac:(lia)) as Hv. set (m := size (total_bytes g)) in *.
  pose proof (OnSendComplete_wp m false s g rest Hs Et ltac:(lia)) as Hwp. cbv zeta in Hwp.
  set (r := OnSendComplete _ _ _ _) in Hwp.
  assert (Hperf : perform (DoSendDone m false) s = Some r).
  { cbn [perform]. rewrite Et. unfold dword. rewrite (proj2 (Z.leb_le 0 m)), (proj2 (Z.ltb_lt m (2 ^ 32))) by lia. done. }
  destruct r as [[[] s1]|] eqn:Er; [|done]. destruct Hwp as (Hs1 & _ & Q1 & C1 & Hpr & _).
  destruct (Hpr Ha eq_refl Hv) as [Hend Hmore]. assert (Hst : step s (DoSendDone m false) s1) by by constructor.
  set (left := zdrop m (pending (send_queue_ (conn s)))) in *.
  destruct (decide (left = [])) as [Hl|Hl].
  - destruct (Hend Hl Hc) as [Ha1 Hr1]. exists [DoSendDone m false], s1. split_and!; try done; [| cbn; lia |].
    + eapply drains_step; [done..|by constructor].
    + rewrite C1, Q1. destruct (k_stream _ _ Hm) as (base & E1 & E2). rewrite E2 by congruence.
      rewrite E1, (Hy (or_introl Ha)), app_nil_r. f_equal. by apply (all_taken m).
  - destruct (Hmore Hl Hw) as (Ha1 & Hc1 & Hp1).
    destruct (IH s1 Hs1) as (ls & s2 & Hd & Hlen & Hre & Hcq & Hqq); [congruence| |].
    + rewrite Hp1. unfold left, zdrop. rewrite length_drop. lia.
    + exists (DoSendDone m false :: ls), s2. split_and!; try done; [|cbn; lia|congruence].
      by eapply drains_step.
Qed.

Lemma drains_steps size s ls s' : drains size s ls s' -> steps s ls s' /\ state_ (conn s') <> Active.
Proof. induction 1 as [|s g rest s1 ls s2 Ha Ht Hst Hd [IH1 IH2]]; [by split; [constructor|]|]. split; [by econstructor|done]. Qed.

(** C9. A connection that was asked to close after its last byte does so: if
    WSASend accepts what it is given, then however many bytes of each operation
    ([size]) the system sends before it completes it, after at most as many
    completions as there were bytes the connection has stopped being active with
    the reason of a protocol close, and by then every accepted byte is confirmed. *)
Theorem tcp_close_after_send o s size : options_fit o -> reachable o s ->
  (forall l, wsa_send l = 0) -> (forall t, 0 < t -> 0 < size t <= t) ->
  close_after_send_ (conn s) = true ->
  exists ls s', drains size s ls s' /\ steps s ls s' /\ zlen ls <= QueuedBytes (send_queue_ (conn s)) /\
    state_ (conn s') <> Active /\ close_reason_ (conn s') = ProtocolClose /\
    queued_of (log s') = queued_of (log s) /\ confirmed_of (log s') = queued_of (log s).
Proof.
  intros Ho Hr Hw Hsize Hc. pose proof (reachable_cinv o s Ho Hr) as Hs.
  destruct (drains_run size _ Hsize Hw s Hs Hc (le_n _)) as (ls & s' & Hd & Hlen & Hre & Hcq & Hqq).
  destruct (drains_steps _ _ _ _ Hd) as [Hst Ha]. exists ls, s'. split_and!; try done; [|congruence].
  destruct Hs as [(ahead & Hm & _) _ _ _]. unfold QueuedBytes. rewrite (inv_bytes _ (k_queue _ _ Hm)). unfold zlen. lia.
Qed.

(** [SendBatchAndClose] of a batch without bytes does not wait for the bytes
    that are queued: it is accepted and an active connection stops being active at
    once, with nothing more confirmed and, if bytes were queued, not all of them. *)
Theorem tcp_empty_close_at_once o s segs : options_fit o -> reachable o s -> state_ (conn s) = Active ->
  concat segs = [] -> pending (send_queue_ (conn s)) <> [] ->
  exists s', SendBatchAndClose segs s = Ok (SendAccepted, s') /\ state_ (conn s') <> Active /\
    confirmed_of (log s') = confirmed_of (log s) /\ confirmed_of (log s') <> queued_of (log s').
Proof.
  intros Ho Hr Ha He Hp. pose proof (reachable_cinv o s Ho Hr) as Hs.
  unfold SendBatchAndClose, SendBatchInternal. set (full := List.filter _ segs).
  assert (Ef : full = []).
  { unfold full. clear -He. induction segs as [|b l IH]; [done|]. cbn [concat List.filter] in *.
    apply app_eq_nil in He as [-> He]. by apply IH. }
  rewrite Ef. cbv zeta. change (zlen (@nil (list byte)) =? 0) with true. cbv iota.
  pose proof (BeginClose_wp ProtocolClose s Hs) as Hw. unfold mbind, M_bind.
  destruct (BeginClose ProtocolClose s) as [[[] s']|]; [|done]. destruct Hw as (_ & H1 & _ & _ & Q & C).
  exists s'. split_and!; try done. rewrite Q, C. destruct Hs as [(ahead & Hm & Hy) _ _ _].
  destruct (k_stream _ _ Hm) as (base & E1 & E2). rewrite E2, E1, (Hy (or_introl Ha)), app_nil_r by congruence.
  intros E. rewrite <- (app_nil_r base) in E at 1. by apply app_inv_head in E.
Qed.

(** ** Runs as functions *)

Fixpoint run (ls : list label) (s : system) : option system :=
  match ls with
  | [] => Some s
  | l :: ls => match perform l s with Some (Ok (tt, s1)) => run ls s1 | _ => None end
  end.

Lemma run_steps ls : forall s s', run ls s = Some s' -> steps s ls s'.
Proof.
  induction ls as [|l ls IH]; intros s s'; cbn; [by intros [= ->]; constructor|].
  destruct (perform l s) as [[[[] s1]|]|] eqn:E; [|done..]. intros Hr. econstructor; [by constructor|by apply IH].
Qed.
End runs.

(** ** A connection that serves as an example *)

Definition sample_world : World := {| wsa_recv := fun _ => 0; wsa_send := fun _ => 0; new_timer := fun l => zlen l + 1 |}.

Definition sample_connection : TcpConnection :=
  match TcpConnection_make 7 true true true ConnectionOptions_default with
  | Ok c => c
  | Throw _ => mkConnection 0 false 0 0 0 0 (mkSendQueue 0 0 [] 0 0) Closed NoReason 0 false false false 0 0 0 false 0
  end.

Definition sample_at (ls : list label) : system := default (fresh sample_connection) (@run sample_world ls (fresh sample_connection)).

(** Two sends, the second of which asks for the end; the first one is on its way. *)
Definition sample_labels : list label := [DoSetTimer true; DoStart; DoSend [$"abc"; []; $"de"] false; DoSend [$"fgh"] true].

Lemma sample_fit : options_fit ConnectionOptions_default.
Proof. unfold options_fit. cbn -[Z.pow]. lia. Qed.

Lemma sample_reachable ls : is_Some (@run sample_world ls (fresh sample_connection)) ->
  @reachable sample_world ConnectionOptions_default (sample_at ls).
Proof.
  intros [s Hs]. exists 7, sample_connection, ls. split; [by vm_compute|]. apply run_steps. unfold sample_at. by rewrite Hs.
Qed.

Lemma tcp_io_discipline_witness : outstanding_operations_ (conn (sample_at sample_labels)) = 2 /\
  length (List.filter is_receive (ios (sample_at sample_labels))) = 1%nat.
Proof.
  split; [by vm_compute|].
  destruct (@tcp_io_discipline sample_world _ _ sample_fit (sample_reachable sample_labels ltac:(by vm_compute; eexists))) as (_ & H & _).
  rewrite H. by vm_compute.
Defined.

Lemma tcp_stream_fifo_witness : queued_of (log (sample_at sample_labels)) = $"abcdefgh" /\
  confirmed_of (log (sample_at sample_labels)) `prefix_of` $"abcdefgh".
Proof.
  split; [by vm_compute|].
  destruct (@tcp_stream_fifo sample_world _ _ sample_fit (sample_reachable sample_labels ltac:(by vm_compute; eexists))) as (H & _).
  exact H.
Defined.

Lemma tcp_send_status_witness : exists status s', @SendBatchInternal sample_world [$"xyz"] false (sample_at [DoStart]) = Ok (status, s') /\
  confirmed_of (log s') = confirmed_of (log (sample_at [DoStart])).
Proof.
  destruct (@tcp_send_status sample_world _ _ [$"xyz"] false sample_fit (sample_reachable [DoStart] ltac:(by vm_compute; eexists)))
    as (status & s' & H1 & H2 & _). by exists status, s'.
Defined.

Lemma tcp_close_drains_witness : exists ls s', @steps sample_world (sample_at (sample_labels ++ [DoClose LocalShutdown])) ls s' /\
  length ls = 2%nat /\ state_ (conn s') = Closed.
Proof.
  destruct (@tcp_close_drains sample_world _ _ sample_fit
    (sample_reachable (sample_labels ++ [DoClose LocalShutdown]) ltac:(by vm_compute; eexists)) ltac:(by vm_compute))
    as (_ & ls & s' & _ & H1 & H2 & H3 & _). exists ls, s'. by split_and!.
Defined.

Lemma tcp_close_after_send_witness : exists ls s', @steps sample_world (sample_at sample_labels) ls s' /\
  close_reason_ (conn s') = ProtocolClose /\ confirmed_of (log s') = $"abcdefgh".
Proof.
  destruct (@tcp_close_after_send sample_world _ _ (fun t => Z.min 2 t) sample_fit
    (sample_reachable sample_labels ltac:(by vm_compute; eexists)) (fun _ => eq_refl) ltac:(lia) ltac:(by vm_compute))
    as (ls & s' & _ & H1 & _ & _ & H2 & _ & H3). exists ls, s'. by split_and!.
Defined.

Lemma tcp_empty_close_at_once_witness : exists s', @SendBatchAndClose sample_world [] (sample_at (take 3 sample_labels)) = Ok (SendAccepted, s') /\
  state_ (conn s') <> Active.
Proof.
  destruct (@tcp_empty_close_at_once sample_world _ _ [] sample_fit
    (sample_reachable (take 3 sample_labels) ltac:(by vm_compute; eexists)) ltac:(by vm_compute) eq_refl ltac:(by vm_compute))
    as (s' & H1 & H2 & _). by exists s'.
Defined.
