(* ===== verification/Executor.v ===== *)
(** * Executors: what they have in common and what they promise

    The types of [executor.h], the bounded queue of tasks that three of the
    executors keep, and the contract of [IExecutor] as a class: an executor is a
    transition system whose steps are its critical sections, with a view of its
    tasks, and it is lawful if every reachable view satisfies the contract.

    A task is a number; what a task does is not modelled, only that it starts,
    returns or throws.  While a task runs, other threads and the task itself can
    call the executor. *)

From S2P Require Import Prelude ProtocolSession.

Definition Task : Type := Z.

Inductive StopMode := Drain | CancelPending.

#[export] Instance StopMode_eq_dec : EqDecision StopMode.
Proof. solve_decision. Defined.

Inductive ExecutionState := StateRunning | StateStopping | StateStopped.

#[export] Instance ExecutionState_eq_dec : EqDecision ExecutionState.
Proof. solve_decision. Defined.

Record ExecutorSnapshot := mkSnapshot {
  state : ExecutionState;
  pending_tasks : Z;
  running_tasks : Z;
  completed_tasks : Z;
  cancelled_tasks : Z;
  live_workers : Z;
}.

(** What happens to tasks. *)
Inductive Event :=
  | EAccepted (t : Task)
  | EStarted (t : Task)
  | EFinished (t : Task)
  | EHandled (t : Task)
  | ECancelled (t : Task).

Definition accepted_of (l : list Event) : list Task :=
  omap (fun e => match e with EAccepted t => Some t | _ => None end) l.
Definition started_of (l : list Event) : list Task :=
  omap (fun e => match e with EStarted t => Some t | _ => None end) l.
Definition finished_of (l : list Event) : list Task :=
  omap (fun e => match e with EFinished t => Some t | _ => None end) l.
Definition cancelled_of (l : list Event) : list Task :=
  omap (fun e => match e with ECancelled t => Some t | _ => None end) l.

#[global] Arguments accepted_of !l /.
#[global] Arguments started_of !l /.
#[global] Arguments finished_of !l /.
#[global] Arguments cancelled_of !l /.

(** [Execute]: the exception of a task goes to the handler, if there is one; an
    exception of the handler is swallowed. *)
Definition Execute (exception_handler threw : bool) (t : Task) : list Event :=
  if threw && exception_handler then [EHandled t] else [].

(** Takes the first occurrence of a task out of a list. *)
Fixpoint remove_one (t : Task) (l : list Task) : list Task :=
  match l with
  | [] => []
  | x :: l => if x =? t then l else x :: remove_one t l
  end.

(** ** The queue of tasks *)

(** The members that [ManualExecutor], [SerialExecutor] and the state of
    [ThreadPoolContext] share. *)
Record Core := mkCore {
  maximum_pending_tasks_ : Z;
  exception_handler_ : bool;
  tasks_ : list Task;
  state_ : ExecutionState;
  stop_mode_ : StopMode;
  running_tasks_ : Z;
  completed_tasks_ : Z;
  cancelled_tasks_ : Z;
}.

Definition Core_make (maximum_pending_tasks : Z) (exception_handler : bool) : Core :=
  mkCore maximum_pending_tasks exception_handler [] StateRunning Drain 0 0 0.

Definition set_tasks (ts : list Task) (c : Core) : Core :=
  mkCore (maximum_pending_tasks_ c) (exception_handler_ c) ts (state_ c) (stop_mode_ c) (running_tasks_ c)
    (completed_tasks_ c) (cancelled_tasks_ c).
Definition set_state (st : ExecutionState) (c : Core) : Core :=
  mkCore (maximum_pending_tasks_ c) (exception_handler_ c) (tasks_ c) st (stop_mode_ c) (running_tasks_ c)
    (completed_tasks_ c) (cancelled_tasks_ c).
Definition set_stop_mode (m : StopMode) (c : Core) : Core :=
  mkCore (maximum_pending_tasks_ c) (exception_handler_ c) (tasks_ c) (state_ c) m (running_tasks_ c)
    (completed_tasks_ c) (cancelled_tasks_ c).

(** Why a task is not admitted, if it is not. *)
Definition refusal (c : Core) : option SubmitStatus :=
  if negb (bool_decide (state_ c = StateRunning)) then Some Stopped
  else if maximum_pending_tasks_ c <=? zlen (tasks_ c) then Some Saturated
  else None.

(** [tasks_.push_back(std::move(task));] *)
Definition push_back (t : Task) (c : Core) : Core := set_tasks (tasks_ c ++ [t]) c.

(** The first half of [Stop]: the policy. *)
Definition select_mode (mode : StopMode) (c : Core) : Core :=
  if bool_decide (state_ c = StateRunning) then set_stop_mode mode (set_state StateStopping c)
  else if bool_decide (mode = CancelPending) then set_stop_mode CancelPending c
  else c.

(** The second half of [Stop]: the tasks that are dropped, and the rest. *)
Definition cancel_pending (c : Core) : list Task * Core :=
  if bool_decide (stop_mode_ c = CancelPending) then
    (tasks_ c, mkCore (maximum_pending_tasks_ c) (exception_handler_ c) [] (state_ c) (stop_mode_ c)
                 (running_tasks_ c) (completed_tasks_ c) (u64 (cancelled_tasks_ c + zlen (tasks_ c))))
  else ([], c).

(** [task = std::move(tasks_.front()); tasks_.pop_front(); ++running_tasks_;] *)
Definition take_front (c : Core) : option (Task * Core) :=
  match tasks_ c with
  | [] => None
  | t :: ts => Some (t, mkCore (maximum_pending_tasks_ c) (exception_handler_ c) ts (state_ c) (stop_mode_ c)
                          (u64 (running_tasks_ c + 1)) (completed_tasks_ c) (cancelled_tasks_ c))
  end.

(** [--running_tasks_; ++completed_tasks_;] *)
Definition task_done (c : Core) : Core :=
  mkCore (maximum_pending_tasks_ c) (exception_handler_ c) (tasks_ c) (state_ c) (stop_mode_ c)
    (u64 (running_tasks_ c - 1)) (u64 (completed_tasks_ c + 1)) (cancelled_tasks_ c).

Definition MoveToStoppedIfDrainedLocked (c : Core) : Core :=
  if bool_decide (state_ c = StateStopping) && bool_decide (tasks_ c = []) && (running_tasks_ c =? 0)
  then set_state StateStopped c else c.

(** [Stop] of the manual and of the serial executor. *)
Definition Stop (mode : StopMode) (c : Core) : list Task * Core :=
  if bool_decide (state_ c = StateStopped) then ([], c)
  else
    let '(dropped, c) := cancel_pending (select_mode mode c) in
    (dropped, MoveToStoppedIfDrainedLocked c).

Definition Snapshot (c : Core) (live : Z) : ExecutorSnapshot :=
  mkSnapshot (state_ c) (zlen (tasks_ c)) (running_tasks_ c) (completed_tasks_ c) (cancelled_tasks_ c) live.

(** ** The contract *)

(** [v_submitting] are tasks between admission and acceptance. *)
Record View := mkView {
  v_log : list Event;
  v_pending : list Task;
  v_running : list Task;
  v_submitting : list Task;
  v_snapshot : ExecutorSnapshot;
  v_mode : StopMode;
  v_maximum : Z;
}.

Record contract (v : View) : Prop := {
  ct_tasks : accepted_of (v_log v) ≡ₚ started_of (v_log v) ++ cancelled_of (v_log v) ++ v_pending v;
  ct_running : started_of (v_log v) ≡ₚ finished_of (v_log v) ++ v_running v;
  ct_pending_count : pending_tasks (v_snapshot v) = zlen (v_pending v) + zlen (v_submitting v);
  ct_running_count : running_tasks (v_snapshot v) = zlen (v_running v);
  ct_completed_count : completed_tasks (v_snapshot v) = u64 (zlen (finished_of (v_log v)));
  ct_cancelled_count : cancelled_tasks (v_snapshot v) = u64 (zlen (cancelled_of (v_log v)));
  ct_limit : pending_tasks (v_snapshot v) <= v_maximum v;
  ct_stopped : state (v_snapshot v) = StateStopped -> v_pending v = [] /\ v_running v = [];
  ct_cancel : cancelled_of (v_log v) <> [] -> v_mode v = CancelPending /\ state (v_snapshot v) <> StateRunning;
}.

(** An executor as a system of steps. *)
Class ExecutorSystem (S L : Type) := {
  initial : S -> Prop;
  step : S -> L -> S -> Prop;
  view : S -> View;
}.

Inductive reachable {St Lb} `{ExecutorSystem St Lb} : St -> Prop :=
  | reach_initial s : initial s -> reachable s
  | reach_step s l s' : reachable s -> step s l s' -> reachable s'.

Class Lawful (St Lb : Type) `{ExecutorSystem St Lb} : Prop := lawful : forall s, reachable s -> contract (view s).

(** Tasks that are accepted run exactly once, or are cancelled. *)
Definition exactly_once (v : View) : Prop :=
  NoDup (accepted_of (v_log v)) ->
  NoDup (started_of (v_log v)) /\
  (forall t, t ∈ started_of (v_log v) -> t ∈ accepted_of (v_log v) /\ t ∉ cancelled_of (v_log v)) /\
  (v_mode v = Drain -> cancelled_of (v_log v) = []) /\
  (state (v_snapshot v) = StateStopped ->
     accepted_of (v_log v) ≡ₚ finished_of (v_log v) ++ cancelled_of (v_log v) /\
     (v_mode v = Drain -> accepted_of (v_log v) ≡ₚ finished_of (v_log v))).

(** The contract is enough for a client of any executor. *)
Lemma contract_exactly_once v : contract v -> exactly_once v.
Proof.
  intros [Ht Hr _ _ _ _ _ Hs Hc] Hn. rewrite Ht in Hn. apply NoDup_app in Hn as (H1 & H2 & H3).
  assert (Hd : v_mode v = Drain -> cancelled_of (v_log v) = []).
  { intros Hm. destruct (cancelled_of (v_log v)) eqn:E; [done|]. destruct Hc as [Hm' _]; [done|congruence]. }
  split_and!; [done| |done|].
  - intros t Hin. split; [rewrite Ht; set_solver|]. intros Hx. apply (H2 t Hin). set_solver.
  - intros Hst. destruct (Hs Hst) as [Hp Hrun]. rewrite Hp, app_nil_r in Ht. rewrite Hrun, app_nil_r in Hr.
    split; [by rewrite Ht, Hr|]. intros Hm. by rewrite Ht, Hr, (Hd Hm), app_nil_r.
Qed.

Lemma lawful_exactly_once {St Lb} `{Lawful St Lb} s : reachable s -> exactly_once (view s).
Proof. intros Hs. apply contract_exactly_once, lawful, Hs. Qed.

(** ** The queue and the contract *)

Lemma accepted_app l k : accepted_of (l ++ k) = accepted_of l ++ accepted_of k.
Proof. apply omap_app. Qed.
Lemma started_app l k : started_of (l ++ k) = started_of l ++ started_of k.
Proof. apply omap_app. Qed.
Lemma finished_app l k : finished_of (l ++ k) = finished_of l ++ finished_of k.
Proof. apply omap_app. Qed.
Lemma cancelled_app l k : cancelled_of (l ++ k) = cancelled_of l ++ cancelled_of k.
Proof. apply omap_app. Qed.

Create Rewrite HintDb exec.
#[export] Hint Rewrite accepted_app started_app finished_app cancelled_app : exec.

Lemma cancelled_map ts :
  accepted_of (map ECancelled ts) = [] /\ started_of (map ECancelled ts) = [] /\
  finished_of (map ECancelled ts) = [] /\ cancelled_of (map ECancelled ts) = ts.
Proof. induction ts as [|t ts (E1 & E2 & E3 & E4)]; [done|]. unfold accepted_of, started_of, finished_of, cancelled_of in *. cbn. by rewrite E4. Qed.

(** The invariant of a core with the tasks that run and the log: tasks start in
    the order in which they were accepted. *)
Record core_ok (c : Core) (running : list Task) (l : list Event) : Prop := {
  co_order : exists later, accepted_of l = started_of l ++ later /\ later ≡ₚ cancelled_of l ++ tasks_ c /\
    (cancelled_of l = [] -> later = tasks_ c);
  co_running : started_of l ≡ₚ finished_of l ++ running;
  co_count : running_tasks_ c = zlen running /\ zlen running < 2 ^ 64;
  co_completed : completed_tasks_ c = u64 (zlen (finished_of l));
  co_cancelled : cancelled_tasks_ c = u64 (zlen (cancelled_of l));
  co_limit : zlen (tasks_ c) <= maximum_pending_tasks_ c;
  co_mode : cancelled_of l <> [] -> stop_mode_ c = CancelPending /\ state_ c <> StateRunning;
  co_dropped : stop_mode_ c = CancelPending -> state_ c <> StateRunning -> tasks_ c = [];
}.

Lemma remove_one_perm t l : t ∈ l -> l ≡ₚ t :: remove_one t l.
Proof.
  induction l as [|x l IH]; intros Hin; [by apply not_elem_of_nil in Hin|]. cbn. destruct (Z.eqb_spec x t) as [->|Hne]; [done|].
  apply elem_of_cons in Hin as [?|Hin]; [congruence|]. rewrite (IH Hin) at 1. apply Permutation_swap.
Qed.

Lemma u64_add a b : u64 (u64 a + b) = u64 (a + b).
Proof. unfold u64. by rewrite Zplus_mod_idemp_l. Qed.

Lemma core_make_ok n h : 0 < n -> core_ok (Core_make n h) [] [].
Proof. intros Hn. split; try done; [by exists []|]. cbn. unfold zlen. cbn. lia. Qed.

Lemma core_push c running l t : core_ok c running l -> refusal c = None ->
  core_ok (push_back t c) running (l ++ [EAccepted t]).
Proof.
  intros [Ho Hr Hc Hd Hx Hl Hm Hp] Hf. unfold refusal in Hf. case_bool_decide as Hs; [|done]. cbn [negb] in Hf.
  destruct (Z.leb_spec (maximum_pending_tasks_ c) (zlen (tasks_ c))) as [|Hlt]; [done|].
  assert (Hnc : cancelled_of l = []) by (destruct (cancelled_of l); [done|]; by destruct Hm).
  destruct Ho as (later & E1 & E2 & E3). specialize (E3 Hnc) as ->.
  split; autorewrite with exec; cbn -[zlen]; rewrite ?app_nil_r; try done.
  - exists (tasks_ c ++ [t]). rewrite E1, Hnc, app_assoc. done.
  - rewrite zlen_app, zlen_cons, zlen_nil. lia.
Qed.

Lemma core_take c running l t c' : core_ok c running l -> take_front c = Some (t, c') -> zlen running + 1 < 2 ^ 64 ->
  core_ok c' (running ++ [t]) (l ++ [EStarted t]).
Proof.
  intros [Ho Hr [Hc Hc'] Hd Hx Hl Hm Hp] Ht Hb. unfold take_front in Ht. destruct (tasks_ c) as [|t0 ts] eqn:Et; [done|].
  injection Ht as <- <-. pose proof (zlen_nonneg running).
  assert (Hnc : cancelled_of l = []).
  { destruct (cancelled_of l); [done|]. destruct Hm as [H1 H2]; [done|]. by specialize (Hp H1 H2). }
  destruct Ho as (later & E1 & E2 & E3). specialize (E3 Hnc) as ->.
  split; autorewrite with exec; cbn -[zlen]; rewrite ?app_nil_r; try done.
  - exists ts. rewrite E1, Hnc, <- app_assoc. done.
  - by rewrite Hr, app_assoc.
  - rewrite zlen_app, zlen_cons, zlen_nil, Hc. usimpl. lia.
  - rewrite zlen_cons in Hl. lia.
  - intros H1 H2. by specialize (Hp H1 H2).
Qed.

Lemma Execute_log h threw t : accepted_of (Execute h threw t) = [] /\ started_of (Execute h threw t) = [] /\
  finished_of (Execute h threw t) = [] /\ cancelled_of (Execute h threw t) = [].
Proof. unfold Execute. by destruct (_ && _). Qed.

Lemma core_done c running rest l t h threw : core_ok c running l -> running ≡ₚ t :: rest ->
  core_ok (task_done c) rest (l ++ Execute h threw t ++ [EFinished t]).
Proof.
  intros [Ho Hr [Hc Hc'] Hd Hx Hl Hm Hp] Ht. destruct (Execute_log h threw t) as (E1 & E2 & E3 & E4).
  assert (Hz : zlen running = zlen rest + 1) by (unfold zlen; rewrite Ht; cbn; lia). pose proof (zlen_nonneg rest).
  split; autorewrite with exec; rewrite ?E1, ?E2, ?E3, ?E4; cbn -[zlen u64]; rewrite ?app_nil_r; try done.
  - by rewrite Hr, Ht, <- app_assoc.
  - rewrite Hc, Hz. usimpl. lia.
  - by rewrite Hd, u64_add, zlen_app, zlen_cons, zlen_nil.
Qed.

Lemma core_state c running l st : core_ok c running l -> (state_ c <> StateRunning) -> st <> StateRunning ->
  core_ok (set_state st c) running l.
Proof.
  intros [Ho Hr Hc Hd Hx Hl Hm Hp] Hs Hst. split; cbn; try done.
  - intros Hn. split; [|done]. by apply Hm.
  - intros Hn _. by apply Hp.
Qed.

Lemma core_move c running l : core_ok c running l -> core_ok (MoveToStoppedIfDrainedLocked c) running l.
Proof.
  intros Hc. unfold MoveToStoppedIfDrainedLocked. destruct (_ && _) eqn:E; [|done].
  rewrite !andb_true_iff, bool_decide_eq_true in E. destruct E as [[Es _] _]. apply core_state; [done|congruence|done].
Qed.

Lemma core_cancel c running l mode : core_ok c running l -> state_ c <> StateStopped ->
  let r := cancel_pending (select_mode mode c) in
  core_ok r.2 running (l ++ map ECancelled r.1) /\ state_ r.2 = StateStopping /\
  (tasks_ r.2 = tasks_ c \/ tasks_ r.2 = []).
Proof.
  intros Hc Hs. set (c1 := select_mode mode c).
  assert (H1 : state_ c1 = StateStopping /\ tasks_ c1 = tasks_ c /\ running_tasks_ c1 = running_tasks_ c /\
    completed_tasks_ c1 = completed_tasks_ c /\ cancelled_tasks_ c1 = cancelled_tasks_ c /\
    maximum_pending_tasks_ c1 = maximum_pending_tasks_ c /\
    (cancelled_of l <> [] -> stop_mode_ c1 = CancelPending)).
  { unfold c1, select_mode. destruct Hc as [Ho Hr Hcc Hd Hx Hl Hm Hp]. case_bool_decide as Er; cbn.
    - split_and!; try done. intros Hn. by destruct (Hm Hn).
    - case_bool_decide; cbn; split_and!; try done; try (by destruct (state_ c)). intros Hn. by destruct (Hm Hn). }
  destruct H1 as (S1 & T1 & R1 & C1 & X1 & M1 & K1). destruct Hc as [Ho Hr Hcc Hd Hx Hl Hm Hp].
  unfold cancel_pending. case_bool_decide as Em; cbn [fst snd map].
  - destruct (cancelled_map (tasks_ c1)) as (E1 & E2 & E3 & E4). split_and!; [|done|by right].
    split; autorewrite with exec; rewrite ?E1, ?E2, ?E3, ?E4; cbn -[zlen u64]; rewrite ?app_nil_r; try done; rewrite ?T1, ?R1, ?C1, ?X1, ?M1; try done.
    + destruct Ho as (later & O1 & O2 & O3). exists later. split_and!; [done|done|].
      intros [Hn1 Hn2]%app_eq_nil. by rewrite (O3 Hn1).
    + by rewrite Hx, u64_add, zlen_app.
    + pose proof (zlen_nonneg (tasks_ c)). rewrite zlen_nil. lia.
    + by rewrite S1.
  - rewrite app_nil_r. split_and!; [|done|by left].
    split; rewrite ?T1, ?R1, ?C1, ?X1, ?M1; try done. intros Hn. split; [by apply K1|by rewrite S1].
Qed.

Lemma core_stop c running l mode dropped c' : core_ok c running l -> Stop mode c = (dropped, c') ->
  core_ok c' running (l ++ map ECancelled dropped).
Proof.
  intros Hc. unfold Stop. case_bool_decide as Es; [intros [= <- <-]; by rewrite app_nil_r|].
  destruct (core_cancel c running l mode Hc Es) as [H1 _]. destruct (cancel_pending _) as [d c1]. intros [= <- <-].
  by apply core_move.
Qed.

(** What the queue gives for the contract of an executor without workers of its own. *)
Lemma core_contract c running l live : core_ok c running l ->
  (state_ c = StateStopped -> tasks_ c = [] /\ running = []) ->
  contract (mkView l (tasks_ c) running [] (Snapshot c live) (stop_mode_ c) (maximum_pending_tasks_ c)).
Proof.
  intros [(later & O1 & O2 & _) Hr [Hc _] Hd Hx Hl Hm Hp] Hs. split; cbn -[zlen]; try done.
  - by rewrite O1, O2.
  - rewrite zlen_nil. lia.
Qed.

(** FIFO: tasks start in the order of their acceptance. *)
Lemma core_fifo c running l : core_ok c running l -> started_of l `prefix_of` accepted_of l.
Proof. intros [(later & O1 & _) _ _ _ _ _ _ _]. rewrite O1. by exists later. Qed.

(** A core that has just been moved is stopped only without tasks. *)
Definition rests (c : Core) (running : list Task) : Prop :=
  state_ c = StateStopped -> tasks_ c = [] /\ running = [].

Lemma rests_move c running l : core_ok c running l -> rests c running ->
  rests (MoveToStoppedIfDrainedLocked c) running.
Proof.
  intros Hc Hr. unfold MoveToStoppedIfDrainedLocked. destruct (_ && _) eqn:E; [|done].
  rewrite !andb_true_iff, !bool_decide_eq_true, Z.eqb_eq in E. destruct E as [[Es Et] En]. intros _.
  split; [done|]. destruct (co_count _ _ _ Hc) as [Hn _]. rewrite En in Hn. symmetry in Hn. by apply zlen_0 in Hn.
Qed.

Lemma rests_stop c running l mode dropped c' : core_ok c running l -> rests c running ->
  Stop mode c = (dropped, c') -> rests c' running.
Proof.
  intros Hc Hr. unfold Stop. case_bool_decide as Es; [by intros [= <- <-]|].
  destruct (core_cancel c running l mode Hc Es) as (H1 & H2 & _). destruct (cancel_pending _) as [d c1].
  intros [= <- <-]. eapply rests_move; [exact H1|]. unfold rests. cbn in H2. by rewrite H2.
Qed.
