(* ===== verification/ManualExecutor.v ===== *)
(** * The manual executor and the inline executor

    [ManualExecutor] of [manual_executor.h] and [manual_executor.cpp], whose tasks
    run when a thread asks for it, and [InlineExecutor] of [inline_executor.h].
    [RunOne] is two critical sections with the task between them. *)

From S2P Require Import Prelude ProtocolSession Executor.

(** [executing] are the tasks that threads are executing inside [RunOne]. *)
Record ManualExecutor := mkManual {
  core : Core;
  executing : list Task;
  log : list Event;
}.

Definition ManualExecutor_make (maximum_pending_tasks : Z) (exception_handler : bool) : result ManualExecutor :=
  if maximum_pending_tasks =? 0 then Throw invalid_argument
  else Ok (mkManual (Core_make maximum_pending_tasks exception_handler) [] []).

(** [None] is an empty function. *)
Definition Post (task : option Task) (s : ManualExecutor) : result (SubmitStatus * ManualExecutor) :=
  match task with
  | None => Throw invalid_argument
  | Some t =>
      Ok match refusal (core s) with
         | Some status => (status, s)
         | None => (Accepted, mkManual (push_back t (core s)) (executing s) (log s ++ [EAccepted t]))
         end
  end.

(** [RunOne] up to the task: the task, or nothing to run. *)
Definition RunOne_begin (s : ManualExecutor) : option Task * ManualExecutor :=
  match take_front (core s) with
  | None => (None, mkManual (MoveToStoppedIfDrainedLocked (core s)) (executing s) (log s))
  | Some (t, c) => (Some t, mkManual c (executing s ++ [t]) (log s ++ [EStarted t]))
  end.

(** The rest of [RunOne]. *)
Definition RunOne_end (t : Task) (threw : bool) (s : ManualExecutor) : ManualExecutor :=
  mkManual (MoveToStoppedIfDrainedLocked (task_done (core s))) (remove_one t (executing s))
    (log s ++ Execute (exception_handler_ (core s)) threw t ++ [EFinished t]).

(** [RunOne]; [body] is what the task does to the executor, and whether it throws. *)
Definition RunOne (body : Task -> ManualExecutor -> bool * ManualExecutor) (s : ManualExecutor)
    : bool * ManualExecutor :=
  match RunOne_begin s with
  | (None, s) => (false, s)
  | (Some t, s) => let '(threw, s) := body t s in (true, RunOne_end t threw s)
  end.

Fixpoint RunReady (fuel : nat) (body : Task -> ManualExecutor -> bool * ManualExecutor) (executed : Z)
    (s : ManualExecutor) : result (Z * ManualExecutor) :=
  match fuel with
  | O => Throw NonTermination
  | S fuel =>
      match RunOne body s with
      | (false, s) => Ok (executed, s)
      | (true, s) => RunReady fuel body (u64 (executed + 1)) s
      end
  end.

Definition Stop (mode : StopMode) (s : ManualExecutor) : ManualExecutor :=
  let '(dropped, c) := Executor.Stop mode (core s) in mkManual c (executing s) (log s ++ map ECancelled dropped).

(** The condition that [WaitStopped] waits for. *)
Definition IsStopped (s : ManualExecutor) : bool := bool_decide (state_ (core s) = StateStopped).

Definition Snapshot (s : ManualExecutor) : ExecutorSnapshot := Executor.Snapshot (core s) 0.

(** [InlineExecutor::Post] runs the task at once; the events of the run. *)
Definition InlineExecutor_Post (exception_handler : bool) (task : option Task) (threw : bool)
    : result (SubmitStatus * list Event) :=
  match task with
  | None => Throw invalid_argument
  | Some t => Ok (Accepted, [EAccepted t; EStarted t] ++ Execute exception_handler threw t ++ [EFinished t])
  end.

(** ** Steps *)

Inductive label :=
  | DoPost (task : Task)
  | DoBegin
  | DoEnd (task : Task) (threw : bool)
  | DoStop (mode : StopMode).

(** There are fewer than 2^64 threads. *)
Inductive manual_step : ManualExecutor -> label -> ManualExecutor -> Prop :=
  | step_post s t status s' : Post (Some t) s = Ok (status, s') -> manual_step s (DoPost t) s'
  | step_begin s r s' : RunOne_begin s = (r, s') -> zlen (executing s) + 1 < 2 ^ 64 -> manual_step s DoBegin s'
  | step_end s t threw : t ∈ executing s -> manual_step s (DoEnd t threw) (RunOne_end t threw s)
  | step_stop s mode : manual_step s (DoStop mode) (Stop mode s).

#[export] Instance manual_system : ExecutorSystem ManualExecutor label := {
  initial s := exists n h, 0 <= n /\ ManualExecutor_make n h = Ok s;
  step := manual_step;
  view s := mkView (log s) (tasks_ (core s)) (executing s) [] (Snapshot s) (stop_mode_ (core s))
              (maximum_pending_tasks_ (core s));
}.

(** ** The contract *)

Definition minv (s : ManualExecutor) : Prop :=
  core_ok (core s) (executing s) (log s) /\ rests (core s) (executing s).

Lemma minv_post task s status s' : minv s -> Post task s = Ok (status, s') -> minv s'.
Proof.
  intros [Hc Hr] Hp. destruct task as [t|]; [|done]. cbn in Hp. injection Hp as Hp.
  destruct (refusal (core s)) eqn:Ef; [by injection Hp as <- <-|]. injection Hp as <- <-. split; [by apply core_push|].
  intros Hst. change (state_ (core s) = StateStopped) in Hst. unfold refusal in Ef. by rewrite Hst in Ef.
Qed.

Lemma minv_begin s r s' : minv s -> RunOne_begin s = (r, s') -> zlen (executing s) + 1 < 2 ^ 64 -> minv s'.
Proof.
  intros [Hc Hr] Hb Hz. unfold RunOne_begin in Hb. destruct (take_front (core s)) as [[t c]|] eqn:Et; injection Hb as <- <-.
  - split; cbn [core executing log]; [by eapply core_take|]. unfold take_front in Et. destruct (tasks_ (core s)) eqn:E; [done|].
    injection Et as <- <-. intros Hst. destruct (Hr Hst). congruence.
  - split; cbn [core executing log]; [by apply core_move|by eapply rests_move].
Qed.

Lemma minv_end s t threw : minv s -> t ∈ executing s -> minv (RunOne_end t threw s).
Proof.
  intros [Hc Hr] Hin. assert (Hd := core_done _ _ _ _ _ (exception_handler_ (core s)) threw Hc (remove_one_perm _ _ Hin)).
  split; [by apply core_move|]. eapply rests_move; [exact Hd|]. intros Hst. destruct (Hr Hst) as [_ He].
  rewrite He in Hin. by apply not_elem_of_nil in Hin.
Qed.

Lemma minv_stop s mode : minv s -> minv (Stop mode s).
Proof.
  intros [Hc Hr]. unfold Stop. destruct (Executor.Stop mode (core s)) as [d c] eqn:Es.
  split; [by eapply core_stop|by eapply rests_stop].
Qed.

Lemma manual_minv (s : ManualExecutor) : reachable s -> minv s.
Proof.
  induction 1 as [s (n & h & Hn & Hs)|s l s' _ IH Hst].
  - unfold ManualExecutor_make in Hs. destruct (Z.eqb_spec n 0); [done|]. injection Hs as <-.
    split; [apply core_make_ok; lia|done].
  - destruct Hst as [s t status s' Hp|s r s' Hb Hz|s t threw Hin|s mode];
      [by eapply minv_post|by eapply minv_begin|by apply minv_end|by apply minv_stop].
Qed.

#[export] Instance manual_lawful : Lawful ManualExecutor label.
Proof. intros s Hs. destruct (manual_minv s Hs) as [Hc Hr]. by apply core_contract. Qed.

(** ** Running what is ready *)

(** If tasks leave the executor alone, [RunReady] runs every pending task in order
    and returns how many there were. *)
Lemma RunReady_runs fuel threw : forall s n, executing s = [] -> running_tasks_ (core s) = 0 ->
  (length (tasks_ (core s)) < fuel)%nat -> 0 <= n -> n + zlen (tasks_ (core s)) < 2 ^ 64 ->
  exists s', RunReady fuel (fun t s => (threw t, s)) n s = Ok (n + zlen (tasks_ (core s)), s') /\
    tasks_ (core s') = [] /\ finished_of (log s') = finished_of (log s) ++ tasks_ (core s).
Proof.
  induction fuel as [|fuel IH]; intros s n He Hr Hf Hn Hz; [lia|]. cbn [RunReady]. unfold RunOne, RunOne_begin, take_front.
  destruct (tasks_ (core s)) as [|t ts] eqn:Et; cbn [fst snd].
  - eexists. rewrite zlen_nil, Z.add_0_r, app_nil_r. split; [done|]. cbn [core log].
    unfold MoveToStoppedIfDrainedLocked. by destruct (_ && _).
  - set (s1 := RunOne_end t _ _). rewrite zlen_cons in Hz. pose proof (zlen_nonneg ts).
    assert (E1 : tasks_ (core s1) = ts) by (unfold s1, RunOne_end, MoveToStoppedIfDrainedLocked; cbn [core]; by destruct (_ && _)).
    assert (E2 : running_tasks_ (core s1) = 0).
    { unfold s1, RunOne_end, MoveToStoppedIfDrainedLocked. cbn [core]. destruct (_ && _); cbn; rewrite Hr; done. }
    assert (E3 : executing s1 = []) by (unfold s1, RunOne_end; cbn; rewrite He; cbn; by rewrite Z.eqb_refl).
    destruct (IH s1 (u64 (n + 1)) E3 E2) as (s' & Hs' & H1 & H2); rewrite ?E1; usimpl; [cbn in Hf; lia|lia..|].
    exists s'. rewrite E1 in Hs', H2. usimpl. rewrite Hs', zlen_cons. split; [do 2 f_equal; lia|]. split; [done|].
    rewrite H2. unfold s1, RunOne_end. cbn [log]. destruct (Execute_log (exception_handler_ (core s)) (threw t) t) as (_ & _ & E5 & _).
    rewrite !finished_app. cbn [exception_handler_ core] in *. rewrite E5. cbn. by rewrite app_nil_r, <- app_assoc.
Qed.
