(* ===== verification/SerialExecutor.v ===== *)
(** * The serial executor

    [SerialExecutor] of [serial_executor.h] and [serial_executor.cpp]: tasks run one
    after the other although the executor below may have many threads.

    The executor below answers a submission through an argument of [Post].  If it
    accepts, a drain is waiting there ([drains]) and begins when it pleases; an
    executor that runs tasks at once is one that begins it immediately.  [loops]
    are the threads inside [Drain]: at the head of its loop, or executing a task. *)

From S2P Require Import Prelude ProtocolSession Executor.

Record SerialExecutor := mkSerial {
  core : Core;
  drain_scheduled_ : bool;
  drains : nat;
  loops : list (option Task);
  log : list Event;
}.

Definition SerialExecutor_make (underlying : bool) (maximum_pending_tasks : Z) (exception_handler : bool)
    : result SerialExecutor :=
  if negb underlying then Throw invalid_argument
  else if maximum_pending_tasks =? 0 then Throw invalid_argument
  else Ok (mkSerial (Core_make maximum_pending_tasks exception_handler) false 0 [] []).

(** [tasks_.pop_back();] *)
Definition pop_back (c : Core) : Core := set_tasks (removelast (tasks_ c)) c.

Definition Post (task : option Task) (underlying : result SubmitStatus) (s : SerialExecutor)
    : result SubmitStatus * SerialExecutor :=
  match task with
  | None => (Throw invalid_argument, s)
  | Some t =>
      match refusal (core s) with
      | Some status => (Ok status, s)
      | None =>
          let c := push_back t (core s) in
          if drain_scheduled_ s then
            (Ok Accepted, mkSerial c true (drains s) (loops s) (log s ++ [EAccepted t]))
          else
            match underlying with
            | Throw e => (Throw e, mkSerial (pop_back c) false (drains s) (loops s) (log s))
            | Ok Accepted => (Ok Accepted, mkSerial c true (S (drains s)) (loops s) (log s ++ [EAccepted t]))
            | Ok Stopped =>
                (Ok Stopped, mkSerial (set_state StateStopped (pop_back c)) false (drains s) (loops s) (log s))
            | Ok Saturated => (Ok Saturated, mkSerial (pop_back c) false (drains s) (loops s) (log s))
            end
      end
  end.

Definition Stop (mode : StopMode) (s : SerialExecutor) : SerialExecutor :=
  let '(dropped, c) := Executor.Stop mode (core s) in
  mkSerial c (drain_scheduled_ s) (drains s) (loops s) (log s ++ map ECancelled dropped).

(** The first critical section of an iteration of [Drain]: the task to execute, or
    the end of the loop. *)
Definition Drain_next (s : SerialExecutor) : option Task * SerialExecutor :=
  match take_front (core s) with
  | None => (None, mkSerial (MoveToStoppedIfDrainedLocked (core s)) false (drains s) (loops s) (log s))
  | Some (t, c) => (Some t, mkSerial c (drain_scheduled_ s) (drains s) (loops s) (log s ++ [EStarted t]))
  end.

(** [Execute] and the second critical section. *)
Definition Drain_done (t : Task) (threw : bool) (s : SerialExecutor) : SerialExecutor :=
  mkSerial (MoveToStoppedIfDrainedLocked (task_done (core s))) (drain_scheduled_ s) (drains s) (loops s)
    (log s ++ Execute (exception_handler_ (core s)) threw t ++ [EFinished t]).

(** The condition that [WaitStopped] waits for. *)
Definition IsStopped (s : SerialExecutor) : bool := bool_decide (state_ (core s) = StateStopped).

Definition Snapshot (s : SerialExecutor) : ExecutorSnapshot := Executor.Snapshot (core s) 0.

(** ** Steps *)

Definition set_drains (n : nat) (ls : list (option Task)) (s : SerialExecutor) : SerialExecutor :=
  mkSerial (core s) (drain_scheduled_ s) n ls (log s).

Inductive label :=
  | DoPost (task : Task) (underlying : result SubmitStatus)
  | DoStop (mode : StopMode)
  | DrainBegins
  | DrainNext
  | DrainDone (task : Task) (threw : bool).

Inductive serial_step : SerialExecutor -> label -> SerialExecutor -> Prop :=
  | step_post s t answer r s' : Post (Some t) answer s = (r, s') -> serial_step s (DoPost t answer) s'
  | step_stop s mode : serial_step s (DoStop mode) (Stop mode s)
  | step_drain s n : drains s = S n -> serial_step s DrainBegins (set_drains n (loops s ++ [None]) s)
  | step_empty s s' before after : loops s = before ++ None :: after -> Drain_next s = (None, s') ->
      serial_step s DrainNext (set_drains (drains s) (before ++ after) s')
  | step_take s s' t before after : loops s = before ++ None :: after -> Drain_next s = (Some t, s') ->
      serial_step s DrainNext (set_drains (drains s) (before ++ Some t :: after) s')
  | step_done s t threw before after : loops s = before ++ Some t :: after ->
      serial_step s (DrainDone t threw) (set_drains (drains s) (before ++ None :: after) (Drain_done t threw s)).

Definition executing (s : SerialExecutor) : list Task := omap id (loops s).

#[export] Instance serial_system : ExecutorSystem SerialExecutor label := {
  initial s := exists n h, 0 <= n /\ SerialExecutor_make true n h = Ok s;
  step := serial_step;
  view s := mkView (log s) (tasks_ (core s)) (executing s) [] (Snapshot s) (stop_mode_ (core s))
              (maximum_pending_tasks_ (core s));
}.

(** ** The invariant *)

Record sinv (s : SerialExecutor) : Prop := {
  si_core : core_ok (core s) (executing s) (log s);
  si_rests : rests (core s) (executing s);
  si_one : (drains s + length (loops s) = if drain_scheduled_ s then 1 else 0)%nat;
  si_idle : drain_scheduled_ s = false -> tasks_ (core s) = [];
  si_order : started_of (log s) = finished_of (log s) ++ executing s;
}.

Lemma pop_push c t : pop_back (push_back t c) = c.
Proof. unfold pop_back, push_back, set_tasks. cbn. rewrite removelast_last. by destruct c. Qed.

Lemma one_loop s before x after : sinv s -> loops s = before ++ x :: after ->
  before = [] /\ after = [] /\ drains s = 0%nat /\ drain_scheduled_ s = true.
Proof.
  intros [_ _ Ho _ _] E. rewrite E, length_app in Ho. cbn in Ho.
  destruct (drain_scheduled_ s), before, after; cbn in Ho; try lia. by split_and!; [..|lia|].
Qed.

Lemma sinv_post task answer s r s' : sinv s -> Post task answer s = (r, s') -> sinv s'.
Proof.
  intros Hs Hp. destruct (Hs) as [Hc Hr Ho Hi Hd]. destruct task as [t|]; [|by injection Hp as <- <-]. cbn [Post] in Hp.
  destruct (refusal (core s)) eqn:Ef; [by injection Hp as <- <-|].
  assert (Hrun : state_ (core s) = StateRunning).
  { unfold refusal in Ef. by case_bool_decide. }
  assert (Hpush : core_ok (push_back t (core s)) (executing s) (log s ++ [EAccepted t])) by by apply core_push.
  assert (Hord : started_of (log s ++ [EAccepted t]) = finished_of (log s ++ [EAccepted t]) ++ executing s).
  { autorewrite with exec. cbn. by rewrite !app_nil_r. }
  destruct (drain_scheduled_ s) eqn:Ed.
  { injection Hp as <- <-. split; cbn [core drains loops log drain_scheduled_]; try done.
    intros Hst. cbn in Hst. congruence. }
  rewrite pop_push in Hp. destruct answer as [[| |]|e]; injection Hp as <- <-.
  - split; cbn [core drains loops log drain_scheduled_]; try done; [|lia]. intros Hst. cbn in Hst. congruence.
  - assert (Hl : loops s = []) by (destruct (loops s); [done|cbn in Ho; lia]).
    split; cbn [core drains loops log drain_scheduled_]; try done.
    + destruct Hc as [Hco Hcr Hcc Hcd Hcx Hcl Hcm Hcp]. split; cbn; try done; [|intros _ _; by apply Hi].
      intros Hn. destruct (Hcm Hn). congruence.
    + intros _. cbn. unfold executing. cbn. by rewrite Hl, Hi.
  - by split.
  - by split.
Qed.

Lemma sinv_stop mode s : sinv s -> sinv (Stop mode s).
Proof.
  intros [Hc Hr Ho Hi Hd]. unfold Stop. destruct (Executor.Stop mode (core s)) as [d c] eqn:Es.
  split; cbn [core drains loops log drain_scheduled_]; try done; [by eapply core_stop|by eapply rests_stop| |].
  - intros Hf. specialize (Hi Hf). unfold Executor.Stop in Es. case_bool_decide as Est; [by injection Es as <- <-|].
    destruct (core_cancel _ _ _ mode Hc Est) as (_ & _ & Ht). destruct (cancel_pending _) as [d1 c1]. injection Es as <- <-.
    cbn [snd] in Ht. unfold MoveToStoppedIfDrainedLocked. destruct (_ && _); cbn; destruct Ht; congruence.
  - destruct (cancelled_map d) as (_ & E2 & E3 & _). autorewrite with exec. rewrite E2, E3, !app_nil_r. done.
Qed.

Lemma sinv_next s r s' before after : sinv s -> loops s = before ++ None :: after -> Drain_next s = (r, s') ->
  sinv (set_drains (drains s) (before ++ match r with None => after | Some t => Some t :: after end) s').
Proof.
  intros Hs El Hn. destruct (one_loop _ _ _ _ Hs El) as (-> & -> & Hd0 & Hsch). destruct (Hs) as [Hc Hr Ho Hi Hd].
  assert (He : executing s = []) by (unfold executing; by rewrite El). unfold Drain_next in Hn.
  destruct (take_front (core s)) as [[t c]|] eqn:Et; injection Hn as <- <-; rewrite Hd0; cbn [app].
  - assert (Hc' := core_take _ _ _ _ _ Hc Et). rewrite He in Hc'.
    split; unfold set_drains, executing; cbn [core drains loops log drain_scheduled_].
    + apply Hc'. rewrite zlen_nil. lia.
    + intros Hst. unfold take_front in Et. destruct (tasks_ (core s)) eqn:E; [done|]. injection Et as <- <-.
      cbn in Hst. destruct (Hr Hst). congruence.
    + by rewrite Hsch.
    + congruence.
    + autorewrite with exec. cbn. by rewrite Hd, He, !app_nil_r.
  - split; unfold set_drains, executing; cbn [core drains loops log drain_scheduled_]; cbn [omap list_omap]; try done.
    + rewrite <- He. by apply core_move.
    + rewrite <- He. by eapply rests_move.
    + intros _. unfold take_front in Et. destruct (tasks_ (core s)) eqn:E; [|done].
      unfold MoveToStoppedIfDrainedLocked. by destruct (_ && _).
    + by rewrite Hd, He.
Qed.

Lemma sinv_done s t threw before after : sinv s -> loops s = before ++ Some t :: after ->
  sinv (set_drains (drains s) (before ++ None :: after) (Drain_done t threw s)).
Proof.
  intros Hs El. destruct (one_loop _ _ _ _ Hs El) as (-> & -> & Hd0 & Hsch). destruct (Hs) as [Hc Hr Ho Hi Hd].
  assert (He : executing s = [t]) by (unfold executing; by rewrite El). rewrite He in Hc, Hr, Hd.
  assert (Hc' := core_done _ _ [] _ t (exception_handler_ (core s)) threw Hc (reflexivity _)).
  destruct (Execute_log (exception_handler_ (core s)) threw t) as (_ & E2 & E3 & _).
  split; unfold set_drains, executing, Drain_done; cbn [core drains loops log drain_scheduled_]; cbn [omap list_omap app]; try done.
  - by apply core_move.
  - eapply rests_move; [exact Hc'|]. intros Hst. cbn in Hst. by destruct (Hr Hst).
  - rewrite Hd0, Hsch. done.
  - congruence.
  - autorewrite with exec. rewrite E2, E3. cbn. by rewrite Hd, !app_nil_r.
Qed.

Lemma sinv_begin s n : sinv s -> drains s = S n -> sinv (set_drains n (loops s ++ [None]) s).
Proof.
  intros [Hc Hr Ho Hi Hd] En. assert (E : omap id (loops s ++ [None]) = executing s).
  { rewrite omap_app. cbn. by rewrite app_nil_r. }
  split; unfold set_drains, executing; cbn [core drains loops log drain_scheduled_]; rewrite ?E; try done.
  rewrite length_app. cbn. lia.
Qed.

Lemma serial_step_sinv s l s' : sinv s -> serial_step s l s' -> sinv s'.
Proof.
  intros Hs Hst.
  destruct Hst as [s0 t answer r s0' Hp|s0 mode|s0 n Hn|s0 s0' b a El Hn|s0 s0' t b a El Hn|s0 t threw b a El].
  - by eapply sinv_post.
  - by apply sinv_stop.
  - by apply sinv_begin.
  - exact (sinv_next _ _ _ _ _ Hs El Hn).
  - exact (sinv_next _ _ _ _ _ Hs El Hn).
  - by apply sinv_done.
Qed.

Lemma serial_sinv (s : SerialExecutor) : reachable s -> sinv s.
Proof.
  induction 1 as [s (n & h & Hn & Hs)|s l s' _ IH Hst]; [|by eapply serial_step_sinv].
  unfold SerialExecutor_make in Hs. cbn [negb] in Hs. destruct (Z.eqb_spec n 0); [done|]. injection Hs as <-.
  split; try done. apply core_make_ok. lia.
Qed.

#[export] Instance serial_lawful : Lawful SerialExecutor label.
Proof. intros s Hs. destruct (serial_sinv s Hs) as [Hc Hr _ _ _]. by apply core_contract. Qed.

(** ** Order and progress *)

Definition drain_label (l : label) : bool :=
  match l with DrainBegins | DrainNext | DrainDone _ _ => true | _ => false end.

Definition drain_step (s s' : SerialExecutor) : Prop := exists l, drain_label l = true /\ serial_step s l s'.

(** How many steps of a drain can be left. *)
Definition work (s : SerialExecutor) : nat :=
  (2 * length (tasks_ (core s)) + 2 * drains s +
   list_sum (map (fun x => match x with None => 1 | Some _ => 2 end) (loops s)))%nat.

Lemma list_sum_mid l x k : list_sum (l ++ x :: k) = (list_sum l + x + list_sum k)%nat.
Proof. rewrite list_sum_app. change (list_sum (x :: k)) with (x + list_sum k)%nat. lia. Qed.

Lemma move_tasks c : tasks_ (MoveToStoppedIfDrainedLocked c) = tasks_ c.
Proof. unfold MoveToStoppedIfDrainedLocked. by destruct (_ && _). Qed.

Lemma drain_step_work s s' : drain_step s s' -> (work s' < work s)%nat.
Proof.
  intros (l & Hl & Hst). unfold work.
  destruct Hst as [s0 t answer r s0' Hp|s0 mode|s0 n Hn|s0 s0' b a El Hn|s0 s0' t b a El Hn|s0 t threw b a El]; try done;
    cbn [set_drains core drains loops].
  - rewrite map_app, list_sum_app. cbn. lia.
  - rewrite El, !map_app, list_sum_app. cbn [map]. rewrite list_sum_mid. unfold Drain_next in Hn.
    destruct (take_front (core s0)) as [[? ?]|]; [done|]. injection Hn as <-. cbn [core]. rewrite move_tasks. lia.
  - rewrite El, !map_app. cbn [map]. rewrite !list_sum_mid. unfold Drain_next, take_front in Hn.
    destruct (tasks_ (core s0)) as [|t0 ts]; [done|]. injection Hn as <- <-. cbn [core tasks_ length]. lia.
  - rewrite El, !map_app. cbn [map]. rewrite !list_sum_mid. unfold Drain_done. cbn [core]. rewrite move_tasks. cbn. lia.
Qed.

Lemma drain_possible s : sinv s -> drain_scheduled_ s = true -> exists s', drain_step s s'.
Proof.
  intros Hs Hd. pose proof (si_one _ Hs) as Ho. rewrite Hd in Ho. destruct (loops s) as [|[t|] ls] eqn:El.
  - eexists. exists DrainBegins. split; [done|]. apply step_drain. cbn in Ho. rewrite Nat.add_0_r in Ho. exact Ho.
  - eexists. exists (DrainDone t false). split; [done|]. by apply (step_done _ _ _ []).
  - destruct (Drain_next s) as [[t|] s'] eqn:En; eexists; exists DrainNext; (split; [done|]).
    + by eapply (step_take _ _ _ []).
    + by eapply (step_empty _ _ []).
Qed.

Lemma drains_out n : forall s, sinv s -> (work s <= n)%nat ->
  exists k s', (k <= n)%nat /\ nsteps drain_step k s s' /\ sinv s' /\ drain_scheduled_ s' = false.
Proof.
  induction n as [|n IH]; intros s Hs Hn; destruct (drain_scheduled_ s) eqn:Ed.
  - destruct (drain_possible s Hs Ed) as [s1 H1%drain_step_work]. lia.
  - exists 0%nat, s. split_and!; [lia|constructor|done|done].
  - destruct (drain_possible s Hs Ed) as [s1 H1]. pose proof (drain_step_work _ _ H1).
    assert (Hs1 : sinv s1) by (destruct H1 as (l & _ & Hst); by eapply serial_step_sinv).
    destruct (IH s1 Hs1 ltac:(lia)) as (k & s' & Hk & Hst & Hs' & He). exists (S k), s'.
    split_and!; [lia|by econstructor|done|done].
  - exists 0%nat, s. split_and!; [lia|constructor|done|done].
Qed.

(** C12. The serial executor, for any interleaving of submissions, stops and drains
    and any answers of the executor below: at most one task runs at a time, tasks
    start in the order in which they were accepted and finish in that order too;
    every step of a drain brings it closer to its end; and as long as something is
    pending or running, a drain can proceed, and after a bounded number of its
    steps nothing is pending or running any more. *)
Theorem serial_order (s : SerialExecutor) : reachable s ->
  (length (executing s) <= 1)%nat /\
  started_of (log s) `prefix_of` accepted_of (log s) /\
  started_of (log s) = finished_of (log s) ++ executing s /\
  (forall s', drain_step s s' -> (work s' < work s)%nat) /\
  exists k s', (k <= work s)%nat /\ nsteps drain_step k s s' /\
    tasks_ (core s') = [] /\ finished_of (log s') = started_of (log s') /\ executing s' = [].
Proof.
  intros Hr. pose proof (serial_sinv s Hr) as Hs. destruct (Hs) as [Hc Hres Ho Hi Hd].
  assert (He : forall s, sinv s -> (length (executing s) <= length (loops s))%nat).
  { intros s0 _. unfold executing. induction (loops s0) as [|[t|] ls IH]; cbn in *; lia. }
  split_and!; [|by eapply core_fifo|done|apply drain_step_work|].
  - specialize (He s Hs). destruct (drain_scheduled_ s); lia.
  - destruct (drains_out _ s Hs (le_n _)) as (k & s' & Hk & Hst & Hs' & Hf). exists k, s'.
    destruct (Hs') as [_ _ Ho' Hi' Hd']. rewrite Hf in Ho'.
    assert (Hn : executing s' = []) by (apply length_zero_iff_nil; specialize (He s' Hs'); lia).
    split_and!; [done|done|by apply Hi'| |done]. by rewrite Hd', Hn, app_nil_r.
Qed.
