(* ===== verification/ThreadPoolExecutor.v ===== *)
(** * The thread pool

    [ThreadPoolContext] and [ThreadPoolExecutor] of [thread_pool_executor.h] and
    [thread_pool_executor.cpp].  A worker is at the wait of its loop ([idle]) or
    executes a task.  The wait is a step that is possible when its predicate holds:
    every change of the predicate is followed by a notification.  Detaching the
    worker that joins itself is not modelled. *)

From S2P Require Import Prelude ProtocolSession Executor.

Record ThreadPoolContext := mkPool {
  core : Core;
  worker_count_ : Z;
  live_workers_ : Z;
  idle : nat;
  executing : list Task;
  log : list Event;
}.

Definition set_core (c : Core) (es : list Event) (s : ThreadPoolContext) : ThreadPoolContext :=
  mkPool c (worker_count_ s) (live_workers_ s) (idle s) (executing s) (log s ++ es).

(** The loop of the constructor; [spawn] says which threads can be created. *)
Fixpoint spawn_workers (n : nat) (spawn : nat -> bool) (s : ThreadPoolContext) : option ThreadPoolContext :=
  match n with
  | O => Some s
  | S n =>
      if spawn (idle s) then
        spawn_workers n spawn (mkPool (core s) (worker_count_ s) (u64 (live_workers_ s + 1)) (S (idle s)) (executing s) (log s))
      else None
  end.

(** If a thread cannot be created, the others are stopped and joined and the
    exception goes on. *)
Definition ThreadPoolContext_make (worker_count maximum_pending_tasks : Z) (exception_handler : bool)
    (spawn : nat -> bool) : result ThreadPoolContext :=
  if worker_count =? 0 then Throw invalid_argument
  else if maximum_pending_tasks =? 0 then Throw invalid_argument
  else if max_thread_vector <? worker_count then Throw length_error
  else
    match spawn_workers (Z.to_nat worker_count) spawn
            (mkPool (Core_make maximum_pending_tasks exception_handler) worker_count 0 0 [] []) with
    | Some s => Ok s
    | None => Throw runtime_error
    end.

Definition Stop (mode : StopMode) (s : ThreadPoolContext) : ThreadPoolContext :=
  if bool_decide (state_ (core s) = StateStopped) then s
  else
    let '(dropped, c) := cancel_pending (select_mode mode (core s)) in
    set_core (if live_workers_ s =? 0 then set_state StateStopped c else c) (map ECancelled dropped) s.

(** [Join] asks for a drain and then waits until no worker is left. *)
Definition Join_begin (s : ThreadPoolContext) : ThreadPoolContext := Stop Drain s.
Definition joined (s : ThreadPoolContext) : bool := (idle s =? 0)%nat && bool_decide (executing s = []).

(** The condition that [WaitStopped] waits for. *)
Definition IsStopped (s : ThreadPoolContext) : bool := bool_decide (state_ (core s) = StateStopped).

Definition Snapshot (s : ThreadPoolContext) : ExecutorSnapshot := Executor.Snapshot (core s) (live_workers_ s).

Definition ConfiguredWorkerCount (s : ThreadPoolContext) : Z := worker_count_ s.

Definition Submit (task : option Task) (s : ThreadPoolContext) : result (SubmitStatus * ThreadPoolContext) :=
  match task with
  | None => Throw invalid_argument
  | Some t =>
      Ok match refusal (core s) with
         | Some status => (status, s)
         | None => (Accepted, set_core (push_back t (core s)) [EAccepted t] s)
         end
  end.

(** [ThreadPoolExecutor::Post] *)
Definition Post (task : option Task) (s : ThreadPoolContext) : result (SubmitStatus * ThreadPoolContext) := Submit task s.

(** The first critical section of [WorkerMain], for a worker at the wait. *)
Inductive next := Waits | Takes (t : Task) (s : ThreadPoolContext) | Leaves (s : ThreadPoolContext).

Definition WorkerMain_next (s : ThreadPoolContext) : next :=
  let running := bool_decide (state_ (core s) = StateRunning) in
  let empty := bool_decide (tasks_ (core s) = []) in
  if negb (negb running || negb empty) then Waits
  else if negb empty && (running || bool_decide (stop_mode_ (core s) = Drain)) then
    match take_front (core s) with
    | Some (t, c) =>
        Takes t (mkPool c (worker_count_ s) (live_workers_ s) (Nat.pred (idle s)) (executing s ++ [t]) (log s ++ [EStarted t]))
    | None => Waits
    end
  else if negb running then
    let live := if 0 <? live_workers_ s then live_workers_ s - 1 else live_workers_ s in
    Leaves (mkPool (if live =? 0 then set_state StateStopped (core s) else core s)
              (worker_count_ s) live (Nat.pred (idle s)) (executing s) (log s))
  else Waits.

(** The task and the second critical section. *)
Definition WorkerMain_done (t : Task) (threw : bool) (s : ThreadPoolContext) : ThreadPoolContext :=
  mkPool (task_done (core s)) (worker_count_ s) (live_workers_ s) (S (idle s)) (remove_one t (executing s))
    (log s ++ Execute (exception_handler_ (core s)) threw t ++ [EFinished t]).

(** ** Steps *)

Inductive label :=
  | DoSubmit (task : Task)
  | DoStop (mode : StopMode)
  | WorkerTakes (task : Task)
  | WorkerLeaves
  | WorkerDone (task : Task) (threw : bool).

Inductive pool_step : ThreadPoolContext -> label -> ThreadPoolContext -> Prop :=
  | step_submit s t status s' : Submit (Some t) s = Ok (status, s') -> pool_step s (DoSubmit t) s'
  | step_stop s mode : pool_step s (DoStop mode) (Stop mode s)
  | step_takes s t s' : (0 < idle s)%nat -> WorkerMain_next s = Takes t s' -> pool_step s (WorkerTakes t) s'
  | step_leaves s s' : (0 < idle s)%nat -> WorkerMain_next s = Leaves s' -> pool_step s WorkerLeaves s'
  | step_done s t threw : t ∈ executing s -> pool_step s (WorkerDone t threw) (WorkerMain_done t threw s).

#[export] Instance pool_system : ExecutorSystem ThreadPoolContext label := {
  initial s := exists w n h spawn, 0 <= w < 2 ^ 64 /\ 0 <= n /\ ThreadPoolContext_make w n h spawn = Ok s;
  step := pool_step;
  view s := mkView (log s) (tasks_ (core s)) (executing s) [] (Snapshot s) (stop_mode_ (core s))
              (maximum_pending_tasks_ (core s));
}.

(** ** The invariant *)

Record pinv (s : ThreadPoolContext) : Prop := {
  pi_core : core_ok (core s) (executing s) (log s);
  pi_live : live_workers_ s = Z.of_nat (idle s) + zlen (executing s) /\ live_workers_ s < 2 ^ 64;
  pi_some : state_ (core s) <> StateStopped -> 0 < live_workers_ s;
  pi_stopped : state_ (core s) = StateStopped -> live_workers_ s = 0 /\ tasks_ (core s) = [];
}.

Lemma pool_rests s : pinv s -> rests (core s) (executing s).
Proof.
  intros [_ [Hl _] _ Hs] Hst. destruct (Hs Hst) as [H0 Ht]. split; [done|]. apply zlen_0.
  pose proof (zlen_nonneg (executing s)). lia.
Qed.

Lemma spawn_workers_spec n spawn : forall s s', spawn_workers n spawn s = Some s' ->
  live_workers_ s = Z.of_nat (idle s) -> Z.of_nat (idle s + n) < 2 ^ 64 ->
  s' = mkPool (core s) (worker_count_ s) (Z.of_nat (idle s + n)) (idle s + n) (executing s) (log s).
Proof.
  induction n as [|n IH]; intros s s' E Hl Hb; cbn in E.
  - injection E as <-. rewrite !Nat.add_0_r, <- Hl. by destruct s.
  - destruct (spawn (idle s)); [|done]. apply IH in E; cbn [live_workers_ idle core worker_count_ executing log] in *.
    + rewrite E. f_equal; lia.
    + rewrite Hl. usimpl. lia.
    + lia.
Qed.

Lemma pinv_make w n h spawn s : 0 <= w < 2 ^ 64 -> 0 <= n -> ThreadPoolContext_make w n h spawn = Ok s -> pinv s.
Proof.
  intros Hw Hn E. unfold ThreadPoolContext_make in E. destruct (Z.eqb_spec w 0); [done|]. destruct (Z.eqb_spec n 0); [done|].
  destruct (max_thread_vector <? w); [done|].
  destruct (spawn_workers _ _ _) as [s0|] eqn:Es; [|done]. injection E as <-.
  apply spawn_workers_spec in Es; [|done|cbn; lia]. rewrite Es. cbn -[zlen]. rewrite Z2Nat.id by lia.
  split; cbn -[zlen]; rewrite ?zlen_nil; try done; [apply core_make_ok; lia|lia|lia].
Qed.

Lemma pinv_submit task s status s' : pinv s -> Submit task s = Ok (status, s') -> pinv s'.
Proof.
  intros [Hc Hl Hn Hs] Hp. destruct task as [t|]; [|done]. cbn in Hp. injection Hp as Hp.
  destruct (refusal (core s)) eqn:Ef; [by injection Hp as <- <-|]. injection Hp as <- <-.
  split; cbn [set_core core live_workers_ idle executing log]; try done; [by apply core_push|].
  intros Hst. change (state_ (core s) = StateStopped) in Hst. unfold refusal in Ef. by rewrite Hst in Ef.
Qed.

Lemma pinv_stop mode s : pinv s -> pinv (Stop mode s).
Proof.
  intros Hp. destruct (Hp) as [Hc Hl Hn Hs]. unfold Stop. case_bool_decide as Es; [done|].
  destruct (core_cancel _ _ _ mode Hc Es) as (H1 & H2 & H3). destruct (cancel_pending _) as [d c1]. cbn [fst snd] in *.
  specialize (Hn Es). rewrite (proj2 (Z.eqb_neq (live_workers_ s) 0)) by lia.
  split; cbn [set_core core live_workers_ idle executing log]; try done. by rewrite H2.
Qed.

Lemma pinv_takes s t s' : pinv s -> (0 < idle s)%nat -> WorkerMain_next s = Takes t s' -> pinv s'.
Proof.
  intros [Hc [Hl Hb] Hn Hs] Hi Ew. unfold WorkerMain_next in Ew. cbv zeta in Ew. destruct (negb (_ || _)); [done|].
  destruct (_ && _) eqn:E2; [|by destruct (negb (bool_decide (state_ (core s) = StateRunning)))]. destruct (take_front (core s)) as [[t0 c]|] eqn:Et; [|done].
  injection Ew as <- <-. assert (Hk : state_ c = state_ (core s)).
  { unfold take_front in Et. destruct (tasks_ (core s)); [done|]. by injection Et as <- <-. }
  split; cbn [core live_workers_ idle executing log]; rewrite ?Hk; try done.
  - eapply core_take; [done..|]. lia.
  - rewrite zlen_app, zlen_cons, zlen_nil. lia.
  - intros Hst. destruct (Hs Hst) as [_ Ht]. unfold take_front in Et. by rewrite Ht in Et.
Qed.

(** A worker leaves only when there is nothing to do. *)
Lemma leaves_empty s s' : pinv s -> WorkerMain_next s = Leaves s' -> state_ (core s) <> StateRunning /\ tasks_ (core s) = [].
Proof.
  intros [Hc _ _ _] Ew. unfold WorkerMain_next in Ew. cbv zeta in Ew. destruct (negb (_ || _)) eqn:E1; [done|].
  destruct (_ && _) eqn:E2; [by destruct (take_front _) as [[? ?]|]|].
  destruct (negb (bool_decide (state_ (core s) = StateRunning))) eqn:E3; [|done].
  apply negb_true_iff, bool_decide_eq_false in E3. split; [done|].
  destruct (decide (tasks_ (core s) = [])) as [?|Hne]; [done|].
  rewrite (bool_decide_eq_false_2 _ Hne), (bool_decide_eq_false_2 _ E3) in E2. cbn in E2.
  apply bool_decide_eq_false in E2. destruct Hc as [_ _ _ _ _ _ _ Hd].
  apply Hd; [|done]. by destruct (stop_mode_ (core s)).
Qed.

Lemma pinv_leaves s s' : pinv s -> (0 < idle s)%nat -> WorkerMain_next s = Leaves s' -> pinv s'.
Proof.
  intros Hp Hi Ew. destruct (leaves_empty s s' Hp Ew) as [Hr Ht]. destruct (Hp) as [Hc [Hl Hb] Hn Hs].
  unfold WorkerMain_next in Ew. cbv zeta in Ew.
  destruct (negb (_ || _)) eqn:E1; [done|]. destruct (_ && _) eqn:E2; [by destruct (take_front _) as [[? ?]|]|].
  destruct (negb (bool_decide (state_ (core s) = StateRunning))); [|done]. injection Ew as <-. pose proof (zlen_nonneg (executing s)).
  rewrite (proj2 (Z.ltb_lt 0 (live_workers_ s))) by lia.
  destruct (Z.eqb_spec (live_workers_ s - 1) 0) as [E|E];
    split; cbn [core live_workers_ idle executing log]; try done; try lia; try (by apply core_state).
  intros Hst. destruct (Hs Hst). lia.
Qed.

Lemma pinv_done s t threw : pinv s -> t ∈ executing s -> pinv (WorkerMain_done t threw s).
Proof.
  intros [Hc [Hl Hb] Hn Hs] Hin. pose proof (remove_one_perm _ _ Hin) as Hp.
  assert (Hz : zlen (executing s) = zlen (remove_one t (executing s)) + 1) by (unfold zlen; rewrite Hp at 1; cbn; lia).
  split; cbn [WorkerMain_done core live_workers_ idle executing log]; try done; [by apply (core_done _ (executing s))|lia].
Qed.

Lemma pool_step_pinv s l s' : pinv s -> pool_step s l s' -> pinv s'.
Proof.
  intros Hs Hst. destruct Hst as [s0 t status s0' Hp|s0 mode|s0 t s0' Hi Hn|s0 s0' Hi Hn|s0 t threw Hin].
  - by eapply pinv_submit.
  - by apply pinv_stop.
  - by eapply pinv_takes.
  - by eapply pinv_leaves.
  - by apply pinv_done.
Qed.

Lemma pool_pinv (s : ThreadPoolContext) : reachable s -> pinv s.
Proof.
  induction 1 as [s (w & n & h & spawn & Hw & Hn & Hs)|s l s' _ IH Hst]; [by eapply pinv_make|by eapply pool_step_pinv].
Qed.

#[export] Instance pool_lawful : Lawful ThreadPoolContext label.
Proof. intros s Hs. pose proof (pool_pinv s Hs) as Hp. apply core_contract; [apply Hp|by apply pool_rests]. Qed.

(** ** Stopping *)

Definition worker_label (l : label) : bool :=
  match l with WorkerTakes _ | WorkerLeaves | WorkerDone _ _ => true | _ => false end.

Definition worker_step (s s' : ThreadPoolContext) : Prop := exists l, worker_label l = true /\ pool_step s l s'.

(** How many steps of workers can be left. *)
Definition work (s : ThreadPoolContext) : nat := (3 * length (tasks_ (core s)) + 2 * length (executing s) + idle s)%nat.

Lemma worker_step_work s s' : pinv s -> worker_step s s' -> (work s' < work s)%nat.
Proof.
  intros Hp (l & Hl & Hst). unfold work.
  destruct Hst as [s0 t status s0' H1|s0 mode|s0 t s0' Hi Hn|s0 s0' Hi Hn|s0 t threw Hin]; try done.
  - unfold WorkerMain_next in Hn. cbv zeta in Hn. destruct (negb (_ || _)); [done|].
    destruct (_ && _); [|by destruct (negb (bool_decide (state_ (core s0) = StateRunning)))].
    unfold take_front in Hn. destruct (tasks_ (core s0)) as [|t0 ts]; [done|]. injection Hn as <- <-.
    cbn [core executing idle tasks_ length]. rewrite length_app. cbn. lia.
  - destruct (leaves_empty s0 s0' Hp Hn) as [_ Ht]. unfold WorkerMain_next in Hn. cbv zeta in Hn.
    destruct (negb (_ || _)); [done|]. destruct (_ && _); [by destruct (take_front _) as [[? ?]|]|].
    destruct (negb (bool_decide (state_ (core s0) = StateRunning))); [|done]. injection Hn as <-. cbn [core executing idle].
    destruct (_ =? 0); cbn [set_state tasks_]; lia.
  - cbn [WorkerMain_done core executing idle task_done tasks_]. pose proof (Permutation_length (remove_one_perm _ _ Hin)) as E.
    cbn in E. lia.
Qed.

(** While the pool stops, some worker can always go on. *)
Lemma worker_possible s : pinv s -> state_ (core s) = StateStopping -> exists s', worker_step s s'.
Proof.
  intros Hp Hst. destruct (Hp) as [Hc [Hl Hb] Hn Hs]. destruct (executing s) as [|t ts] eqn:Ee.
  - assert (Hi : (0 < idle s)%nat) by (specialize (Hn ltac:(congruence)); rewrite zlen_nil in Hl; lia).
    assert (Hw : WorkerMain_next s <> Waits).
    { unfold WorkerMain_next, take_front. rewrite Hst. cbv zeta. rewrite (bool_decide_eq_false_2 (StateStopping = StateRunning)) by done.
      cbn [negb orb]. destruct (tasks_ (core s)) as [|t ts] eqn:Et; [done|]. rewrite bool_decide_eq_false_2 by done. cbn [negb andb].
      by destruct (bool_decide _). }
    destruct (WorkerMain_next s) as [|t s'|s'] eqn:Ew; [done| |]; exists s'.
    + exists (WorkerTakes t). split; [done|by constructor].
    + exists WorkerLeaves. split; [done|by constructor].
  - exists (WorkerMain_done t false s), (WorkerDone t false). split; [done|]. constructor. rewrite Ee. by left.
Qed.

(** Workers do not start a stopped pool again, nor change the mode or what was accepted. *)
Lemma worker_step_keeps s s' : pinv s -> worker_step s s' -> state_ (core s) <> StateRunning ->
  state_ (core s') <> StateRunning /\ stop_mode_ (core s') = stop_mode_ (core s) /\
  accepted_of (log s') = accepted_of (log s) /\ cancelled_of (log s') = cancelled_of (log s).
Proof.
  intros Hp (l & Hl & Hst) Hr.
  destruct Hst as [s0 t status s0' H1|s0 mode|s0 t s0' Hi Hn|s0 s0' Hi Hn|s0 t threw Hin]; try done.
  - unfold WorkerMain_next in Hn. cbv zeta in Hn. destruct (negb (_ || _)); [done|].
    destruct (_ && _); [|by destruct (negb (bool_decide (state_ (core s0) = StateRunning)))].
    unfold take_front in Hn. destruct (tasks_ (core s0)) as [|t0 ts]; [done|]. injection Hn as <- <-.
    cbn [core log state_ stop_mode_]. autorewrite with exec. cbn. by rewrite !app_nil_r.
  - unfold WorkerMain_next in Hn. cbv zeta in Hn.
    destruct (negb (_ || _)); [done|]. destruct (_ && _); [by destruct (take_front _) as [[? ?]|]|].
    destruct (negb (bool_decide (state_ (core s0) = StateRunning))); [|done]. injection Hn as <-. cbn [core log].
    by destruct (_ =? 0).
  - cbn [WorkerMain_done core log task_done state_ stop_mode_].
    destruct (Execute_log (exception_handler_ (core s0)) threw t) as (E1 & _ & _ & E4).
    autorewrite with exec. rewrite E1, E4. cbn. by rewrite !app_nil_r.
Qed.

Lemma pool_runs_out n : forall s, pinv s -> state_ (core s) <> StateRunning -> (work s <= n)%nat ->
  exists k s', (k <= n)%nat /\ nsteps worker_step k s s' /\ pinv s' /\ state_ (core s') = StateStopped /\
    stop_mode_ (core s') = stop_mode_ (core s) /\
    accepted_of (log s') = accepted_of (log s) /\ cancelled_of (log s') = cancelled_of (log s).
Proof.
  induction n as [|n IH]; intros s Hs Hr Hn; destruct (decide (state_ (core s) = StateStopped)) as [Ed|Ed].
  - exists 0%nat, s. split_and!; try done. constructor.
  - destruct (worker_possible s Hs) as [s1 H1%worker_step_work]; [by destruct (state_ (core s))|lia|done].
  - exists 0%nat, s. split_and!; try done; [lia|constructor].
  - destruct (worker_possible s Hs) as [s1 H1]; [by destruct (state_ (core s))|]. pose proof (worker_step_work _ _ Hs H1).
    destruct (worker_step_keeps _ _ Hs H1 Hr) as (K1 & K2 & K3 & K4).
    assert (Hs1 : pinv s1) by (destruct H1 as (l & _ & Hst); by eapply pool_step_pinv).
    destruct (IH s1 Hs1 K1 ltac:(lia)) as (k & s' & Hk & Hst & Hs' & He & L2 & L3 & L4). exists (S k), s'.
    split_and!; [lia|by econstructor|done|done|congruence..].
Qed.

(** C13. A thread pool that was asked to stop stops: whatever the workers do next, they
    get closer to the end, and as long as the pool is not stopped one of them can go
    on, so that after a bounded number of their steps no worker is left, and every
    accepted task that was not cancelled has run to its end; with the mode [Drain]
    that is every accepted task.  Tasks start in the order of their acceptance. *)
Theorem pool_stops (s : ThreadPoolContext) : reachable s -> state_ (core s) <> StateRunning ->
  started_of (log s) `prefix_of` accepted_of (log s) /\
  (forall s', worker_step s s' -> (work s' < work s)%nat) /\
  (state_ (core s) <> StateStopped -> exists s', worker_step s s') /\
  exists k s', (k <= work s)%nat /\ nsteps worker_step k s s' /\
    state_ (core s') = StateStopped /\ live_workers_ s' = 0 /\ joined s' = true /\
    accepted_of (log s) ≡ₚ finished_of (log s') ++ cancelled_of (log s) /\
    (stop_mode_ (core s) = Drain -> accepted_of (log s) ≡ₚ finished_of (log s')).
Proof.
  intros Hr Hst. pose proof (pool_pinv s Hr) as Hs. split_and!.
  - eapply core_fifo, Hs.
  - intros s'. by apply worker_step_work.
  - intros Hn. apply worker_possible; [done|]. by destruct (state_ (core s)).
  - destruct (pool_runs_out _ s Hs Hst (le_n _)) as (k & s' & Hk & Hn & Hs' & He & L2 & L3 & L4). exists k, s'.
    pose proof (pool_rests s' Hs' He) as [Ht Hx]. destruct (pi_stopped _ Hs' He) as [Hl _].
    pose proof (core_contract _ _ _ (live_workers_ s') (pi_core _ Hs') (pool_rests s' Hs')) as [Ct Cr _ _ _ _ _ _ Cc].
    cbn [v_log v_pending v_running] in Ct, Cr, Cc. rewrite Ht, app_nil_r in Ct. rewrite Hx, app_nil_r in Cr.
    rewrite Cr, L3, L4 in Ct.
    split_and!; try done.
    + unfold joined. rewrite Hx. apply andb_true_intro. split; [|done]. apply Nat.eqb_eq.
      destruct (pi_live _ Hs') as [Hlv _]. rewrite Hx, zlen_nil in Hlv. lia.
    + intros Hm. destruct (cancelled_of (log s)) eqn:Ec; [by rewrite Ct, app_nil_r|].
      destruct Cc as [Cm _]; [by rewrite L4|]. cbn in Cm. congruence.
Qed.
