(* ===== verification/IocpExecutor.v ===== *)
(** * The executor on the completion port

    [IocpExecutor] of [iocp_executor.h] and [iocp_executor.cpp].  A submission is two
    critical sections with [IoContext::PostTask] between them, whose answer is an
    argument; a packet is two critical sections with the task between them.
    [packets] are the packets in the completion port, which hands them out in any
    order, [submitting] the tasks that were admitted and not yet posted, and
    [skipping] counts the packets that were cancelled and are not finished. *)

From S2P Require Import Prelude ProtocolSession Executor.

Record IocpExecutor := mkIocp {
  maximum_pending_tasks : Z;
  exception_handler : bool;
  execution_state : ExecutionState;
  stop_mode : StopMode;
  pending_tasks_ : Z;
  running_tasks_ : Z;
  completed_tasks_ : Z;
  cancelled_tasks_ : Z;
  submitting : list Task;
  packets : list Task;
  executing : list Task;
  skipping : nat;
  log : list Event;
}.

Definition IocpExecutor_make (maximum : Z) (handler : bool) : result IocpExecutor :=
  if maximum =? 0 then Throw invalid_argument
  else Ok (mkIocp maximum handler StateRunning Drain 0 0 0 0 [] [] [] 0 []).

Definition set_execution_state (st : ExecutionState) (s : IocpExecutor) : IocpExecutor :=
  mkIocp (maximum_pending_tasks s) (exception_handler s) st (stop_mode s) (pending_tasks_ s) (running_tasks_ s)
    (completed_tasks_ s) (cancelled_tasks_ s) (submitting s) (packets s) (executing s) (skipping s) (log s).
Definition set_stop_mode (m : StopMode) (s : IocpExecutor) : IocpExecutor :=
  mkIocp (maximum_pending_tasks s) (exception_handler s) (execution_state s) m (pending_tasks_ s) (running_tasks_ s)
    (completed_tasks_ s) (cancelled_tasks_ s) (submitting s) (packets s) (executing s) (skipping s) (log s).
Definition set_pending (n : Z) (sub pk : list Task) (es : list Event) (s : IocpExecutor) : IocpExecutor :=
  mkIocp (maximum_pending_tasks s) (exception_handler s) (execution_state s) (stop_mode s) n (running_tasks_ s)
    (completed_tasks_ s) (cancelled_tasks_ s) sub pk (executing s) (skipping s) (log s ++ es).
Definition set_skipping (n : nat) (s : IocpExecutor) : IocpExecutor :=
  mkIocp (maximum_pending_tasks s) (exception_handler s) (execution_state s) (stop_mode s) (pending_tasks_ s)
    (running_tasks_ s) (completed_tasks_ s) (cancelled_tasks_ s) (submitting s) (packets s) (executing s) n (log s).

Definition MoveToStoppedIfDrainedLocked (s : IocpExecutor) : IocpExecutor :=
  if bool_decide (execution_state s = StateStopping) && (pending_tasks_ s =? 0) && (running_tasks_ s =? 0)
  then set_execution_state StateStopped s else s.

(** [if (state->pending_tasks > 0) --state->pending_tasks;] *)
Definition one_less (n : Z) : Z := if 0 <? n then n - 1 else n.

(** [Post] up to [PostTask]: the answer, or the task goes on. *)
Definition Post_admit (task : option Task) (s : IocpExecutor) : result (option SubmitStatus * IocpExecutor) :=
  match task with
  | None => Throw invalid_argument
  | Some t =>
      Ok (if negb (bool_decide (execution_state s = StateRunning)) then (Some Stopped, s)
          else if maximum_pending_tasks s <=? pending_tasks_ s then (Some Saturated, s)
          else (None, set_pending (u64 (pending_tasks_ s + 1)) (submitting s ++ [t]) (packets s) [] s))
  end.

Definition RollBackSubmission (t : Task) (context_stopped : bool) (s : IocpExecutor) : IocpExecutor :=
  let s := set_pending (one_less (pending_tasks_ s)) (remove_one t (submitting s)) (packets s) [] s in
  let s := if context_stopped && bool_decide (execution_state s = StateRunning)
           then set_execution_state StateStopping s else s in
  MoveToStoppedIfDrainedLocked s.

(** The rest of [Post], with the answer of [PostTask]. *)
Definition Post_submit (t : Task) (accepted : result bool) (s : IocpExecutor) : result SubmitStatus * IocpExecutor :=
  match accepted with
  | Ok true => (Ok Accepted, set_pending (pending_tasks_ s) (remove_one t (submitting s)) (packets s ++ [t]) [EAccepted t] s)
  | Ok false => (Ok Stopped, RollBackSubmission t true s)
  | Throw e => (Throw e, RollBackSubmission t false s)
  end.

Definition Stop (mode : StopMode) (s : IocpExecutor) : IocpExecutor :=
  if bool_decide (execution_state s = StateStopped) then s
  else
    let s := if bool_decide (execution_state s = StateRunning) then set_stop_mode mode (set_execution_state StateStopping s)
             else if bool_decide (mode = CancelPending) then set_stop_mode CancelPending s else s in
    MoveToStoppedIfDrainedLocked s.

(** [ExecutePacket] up to the task: whether the task is executed. *)
Definition ExecutePacket_begin (t : Task) (s : IocpExecutor) : bool * IocpExecutor :=
  let pending := one_less (pending_tasks_ s) in
  let cancelled := negb (bool_decide (execution_state s = StateRunning)) && bool_decide (stop_mode s = CancelPending) in
  if cancelled then
    (false, mkIocp (maximum_pending_tasks s) (exception_handler s) (execution_state s) (stop_mode s) pending
              (running_tasks_ s) (completed_tasks_ s) (u64 (cancelled_tasks_ s + 1)) (submitting s)
              (remove_one t (packets s)) (executing s) (S (skipping s)) (log s ++ [ECancelled t]))
  else
    (true, mkIocp (maximum_pending_tasks s) (exception_handler s) (execution_state s) (stop_mode s) pending
             (u64 (running_tasks_ s + 1)) (completed_tasks_ s) (cancelled_tasks_ s) (submitting s)
             (remove_one t (packets s)) (executing s ++ [t]) (skipping s) (log s ++ [EStarted t])).

(** The rest of [ExecutePacket], for a task that was executed. *)
Definition ExecutePacket_end (t : Task) (threw : bool) (s : IocpExecutor) : IocpExecutor :=
  MoveToStoppedIfDrainedLocked
    (mkIocp (maximum_pending_tasks s) (exception_handler s) (execution_state s) (stop_mode s) (pending_tasks_ s)
       (u64 (running_tasks_ s - 1)) (u64 (completed_tasks_ s + 1)) (cancelled_tasks_ s) (submitting s) (packets s)
       (remove_one t (executing s)) (skipping s) (log s ++ Execute (exception_handler s) threw t ++ [EFinished t])).

(** The condition that [WaitStopped] waits for. *)
Definition IsStopped (s : IocpExecutor) : bool := bool_decide (execution_state s = StateStopped).

Definition Snapshot (s : IocpExecutor) : ExecutorSnapshot :=
  mkSnapshot (execution_state s) (pending_tasks_ s) (running_tasks_ s) (completed_tasks_ s) (cancelled_tasks_ s) 0.

(** ** Steps *)

Inductive label :=
  | DoAdmit (task : Task)
  | DoSubmit (task : Task) (accepted : result bool)
  | DoStop (mode : StopMode)
  | PacketBegins (task : Task)
  | PacketEnds (task : Task) (threw : bool)
  | PacketSkipped.

(** There are fewer than 2^64 threads. *)
Inductive iocp_step : IocpExecutor -> label -> IocpExecutor -> Prop :=
  | step_admit s t r s' : Post_admit (Some t) s = Ok (r, s') -> iocp_step s (DoAdmit t) s'
  | step_submit s t answer r s' : t ∈ submitting s -> Post_submit t answer s = (r, s') ->
      iocp_step s (DoSubmit t answer) s'
  | step_stop s mode : iocp_step s (DoStop mode) (Stop mode s)
  | step_begins s t r s' : t ∈ packets s -> ExecutePacket_begin t s = (r, s') -> zlen (executing s) + 1 < 2 ^ 64 ->
      iocp_step s (PacketBegins t) s'
  | step_ends s t threw : t ∈ executing s -> iocp_step s (PacketEnds t threw) (ExecutePacket_end t threw s)
  | step_skipped s n : skipping s = S n -> iocp_step s PacketSkipped (set_skipping n (MoveToStoppedIfDrainedLocked s)).

#[export] Instance iocp_system : ExecutorSystem IocpExecutor label := {
  initial s := exists n h, 0 <= n < 2 ^ 64 /\ IocpExecutor_make n h = Ok s;
  step := iocp_step;
  view s := mkView (log s) (packets s) (executing s) (submitting s) (Snapshot s) (stop_mode s) (maximum_pending_tasks s);
}.

(** ** The contract *)

Record iinv (s : IocpExecutor) : Prop := {
  ii_tasks : accepted_of (log s) ≡ₚ started_of (log s) ++ cancelled_of (log s) ++ packets s;
  ii_running : started_of (log s) ≡ₚ finished_of (log s) ++ executing s;
  ii_pending : pending_tasks_ s = zlen (packets s) + zlen (submitting s);
  ii_limit : pending_tasks_ s <= maximum_pending_tasks s < 2 ^ 64;
  ii_count : running_tasks_ s = zlen (executing s) /\ zlen (executing s) < 2 ^ 64;
  ii_completed : completed_tasks_ s = u64 (zlen (finished_of (log s)));
  ii_cancelled : cancelled_tasks_ s = u64 (zlen (cancelled_of (log s)));
  ii_stopped : execution_state s = StateStopped -> packets s = [] /\ submitting s = [] /\ executing s = [];
  ii_cancel : cancelled_of (log s) <> [] -> stop_mode s = CancelPending /\ execution_state s <> StateRunning;
}.

Lemma iinv_move s : iinv s -> iinv (MoveToStoppedIfDrainedLocked s).
Proof.
  intros Hs. unfold MoveToStoppedIfDrainedLocked. destruct (_ && _) eqn:E; [|done].
  rewrite !andb_true_iff, bool_decide_eq_true, !Z.eqb_eq in E. destruct E as [[E1 E2] E3]. destruct Hs.
  split; cbn [set_execution_state log packets executing submitting pending_tasks_ running_tasks_ maximum_pending_tasks
    completed_tasks_ cancelled_tasks_ execution_state stop_mode]; try done.
  - intros _. pose proof (zlen_nonneg (packets s)). pose proof (zlen_nonneg (submitting s)).
    split_and!; apply zlen_0; lia.
  - intros Hn. split; [by apply ii_cancel0|done].
Qed.

Lemma iinv_admit task s r s' : iinv s -> Post_admit task s = Ok (r, s') -> iinv s'.
Proof.
  intros Hs E. destruct task as [t|]; [|done]. cbn in E. injection E as E. case_bool_decide as Er; [|by injection E as <- <-].
  cbn [negb] in E. destruct (Z.leb_spec (maximum_pending_tasks s) (pending_tasks_ s)); [by injection E as <- <-|].
  injection E as <- <-. destruct Hs. pose proof (zlen_nonneg (packets s)). pose proof (zlen_nonneg (submitting s)).
  split; cbn -[zlen u64]; rewrite ?app_nil_r; try done.
  - rewrite zlen_app, zlen_cons, zlen_nil. usimpl. lia.
  - usimpl. lia.
  - congruence.
Qed.

Lemma zlen_remove t l : t ∈ l -> zlen (remove_one t l) = zlen l - 1.
Proof. intros Hin. pose proof (Permutation_length (remove_one_perm t l Hin)) as E. unfold zlen. cbn in E. lia. Qed.

(** A task leaves [submitting] without being accepted. *)
Lemma iinv_rollback t b s : iinv s -> t ∈ submitting s -> iinv (RollBackSubmission t b s).
Proof.
  intros Hs Hin. unfold RollBackSubmission. cbv zeta. set (s1 := set_pending _ _ _ _ s).
  assert (H1 : iinv s1).
  { destruct Hs. pose proof (zlen_remove t _ Hin) as Hz. pose proof (zlen_nonneg (packets s)).
    pose proof (zlen_nonneg (remove_one t (submitting s))). unfold s1, one_less.
    rewrite (proj2 (Z.ltb_lt 0 (pending_tasks_ s))) by lia.
    split; cbn -[zlen u64]; rewrite ?app_nil_r; try done; [lia|lia|].
    intros Hst. destruct (ii_stopped0 Hst) as (? & He & ?). rewrite He in Hin. by apply not_elem_of_nil in Hin. }
  apply iinv_move. destruct (_ && _) eqn:E; [|done]. apply andb_true_iff in E as [_ E]. apply bool_decide_eq_true in E.
  destruct H1. split; cbn -[zlen]; try done. intros Hn. by destruct (ii_cancel0 Hn).
Qed.

Lemma iinv_submit t answer s r s' : iinv s -> t ∈ submitting s -> Post_submit t answer s = (r, s') -> iinv s'.
Proof.
  intros Hs Hin E. destruct answer as [[|]|e]; injection E as <- <-; [|by apply iinv_rollback..].
  destruct Hs. pose proof (zlen_remove t _ Hin) as Hz.
  split; cbn -[zlen u64 accepted_of started_of finished_of cancelled_of]; autorewrite with exec; cbn -[zlen]; rewrite ?app_nil_r; try done.
  - rewrite ii_tasks0, <- !app_assoc. done.
  - rewrite zlen_app, zlen_cons, zlen_nil. lia.
  - intros Hst. destruct (ii_stopped0 Hst) as (? & He & ?). rewrite He in Hin. by apply not_elem_of_nil in Hin.
Qed.

Lemma iinv_stop mode s : iinv s -> iinv (Stop mode s).
Proof.
  intros Hs. unfold Stop. case_bool_decide as Est; [done|]. cbv zeta. apply iinv_move. destruct Hs.
  case_bool_decide as Er; [|case_bool_decide; [|done]]; split; cbn -[zlen]; try done.
  all: intros Hn; destruct (ii_cancel0 Hn); done.
Qed.

Lemma iinv_begins t s r s' : iinv s -> t ∈ packets s -> ExecutePacket_begin t s = (r, s') ->
  zlen (executing s) + 1 < 2 ^ 64 -> iinv s'.
Proof.
  intros Hs Hin E Hb. destruct Hs as [Ht Hr Hp Hl [Hc _] Hd Hx Hst Hm]. pose proof (zlen_remove t _ Hin) as Hz.
  pose proof (remove_one_perm t _ Hin) as Hperm. pose proof (zlen_nonneg (remove_one t (packets s))).
  pose proof (zlen_nonneg (submitting s)). pose proof (zlen_nonneg (executing s)).
  assert (Hns : execution_state s <> StateStopped).
  { intros Hq. destruct (Hst Hq) as (He & _). rewrite He in Hin. by apply not_elem_of_nil in Hin. }
  unfold ExecutePacket_begin, one_less in E. rewrite (proj2 (Z.ltb_lt 0 (pending_tasks_ s))) in E by lia. cbv zeta in E.
  destruct (_ && _) eqn:Ec; injection E as <- <-;
    split; cbn -[zlen u64 accepted_of started_of finished_of cancelled_of]; autorewrite with exec; cbn -[zlen u64]; rewrite ?app_nil_r; try done; try lia.
  - rewrite Ht, Hperm at 1. rewrite <- !app_assoc. done.
  - by rewrite Hx, u64_add, zlen_app, zlen_cons, zlen_nil.
  - intros _. apply andb_true_iff in Ec as [Ec1 Ec2]. by apply negb_true_iff, bool_decide_eq_false in Ec1; apply bool_decide_eq_true in Ec2.
  - rewrite Ht, Hperm at 1. rewrite <- !app_assoc. cbn. apply Permutation_app_head. symmetry. apply Permutation_middle.
  - by rewrite Hr, app_assoc.
  - rewrite zlen_app, zlen_cons, zlen_nil, Hc. usimpl. lia.
Qed.

Lemma iinv_ends t threw s : iinv s -> t ∈ executing s -> iinv (ExecutePacket_end t threw s).
Proof.
  intros Hs Hin. apply iinv_move. destruct Hs as [Ht Hr Hp Hl [Hc Hb] Hd Hx Hst Hm]. pose proof (zlen_remove t _ Hin) as Hz.
  pose proof (remove_one_perm t _ Hin) as Hperm. pose proof (zlen_nonneg (remove_one t (executing s))).
  destruct (Execute_log (exception_handler s) threw t) as (E1 & E2 & E3 & E4).
  split; cbn -[zlen u64 accepted_of started_of finished_of cancelled_of]; autorewrite with exec; rewrite ?E1, ?E2, ?E3, ?E4; cbn -[zlen u64]; rewrite ?app_nil_r; try done.
  - rewrite Hr, Hperm at 1. by rewrite <- !app_assoc.
  - rewrite Hc. usimpl. lia.
  - by rewrite Hd, u64_add, zlen_app, zlen_cons, zlen_nil.
  - intros Hq. destruct (Hst Hq) as (? & ? & He). rewrite He in Hin. by apply not_elem_of_nil in Hin.
Qed.

Lemma iocp_iinv (s : IocpExecutor) : reachable s -> iinv s.
Proof.
  induction 1 as [s (n & h & Hn & Hs)|s l s' _ IH Hst].
  - unfold IocpExecutor_make in Hs. destruct (Z.eqb_spec n 0); [done|]. injection Hs as <-.
    by split; cbn.
  - destruct Hst as [s t r s' E|s t answer r s' Hin E|s mode|s t r s' Hin E Hb|s t threw Hin|s n Hn].
    + by eapply iinv_admit.
    + by eapply iinv_submit.
    + by apply iinv_stop.
    + by eapply iinv_begins.
    + by apply iinv_ends.
    + apply iinv_move in IH. by destruct IH.
Qed.

#[export] Instance iocp_lawful : Lawful IocpExecutor label.
Proof. intros s Hs. destruct (iocp_iinv s Hs) as [Ht Hr Hp [Hl _] [Hc _] Hd Hx Hst Hm]. split; try done. intros Hq. by destruct (Hst Hq) as (? & ? & ?). Qed.
