(* ===== verification/Executors.v ===== *)
(** * All executors keep the promise of their interface

    [IExecutor::Post] promises that an accepted task runs exactly once, unless the
    executor is stopped with [CancelPending].  The four executors with a queue are
    lawful, so the argument of [Executor] applies to each of them. *)

From S2P Require Import Prelude ProtocolSession Executor ManualExecutor SerialExecutor ThreadPoolExecutor IocpExecutor.

(** C11. For each of the four executors, after any interleaving of submissions, stops and
    runs: no task is started twice, only accepted tasks that are not cancelled are
    started, nothing is cancelled as long as the mode is [Drain], and once the
    executor is stopped the accepted tasks are exactly the finished ones and the
    cancelled ones, with [Drain] exactly the finished ones; the counters of a
    snapshot count the tasks that are pending, running, completed and cancelled, and
    never more are pending than the limit allows. *)
Theorem executors_exactly_once :
  (forall s : ManualExecutor, reachable s -> exactly_once (view s) /\ contract (view s)) /\
  (forall s : SerialExecutor, reachable s -> exactly_once (view s) /\ contract (view s)) /\
  (forall s : ThreadPoolContext, reachable s -> exactly_once (view s) /\ contract (view s)) /\
  (forall s : IocpExecutor, reachable s -> exactly_once (view s) /\ contract (view s)).
Proof. split_and!; intros s Hs; (split; [by apply lawful_exactly_once|by apply lawful]). Qed.

(** ** Runs that serve as examples *)

Definition sample_pool : ThreadPoolContext :=
  match ThreadPoolContext_make 2 3 true (fun _ => true) with
  | Ok s => s
  | Throw _ => mkPool (Core_make 0 false) 0 0 0 [] []
  end.

(** Two tasks were submitted, one of them is running, and the pool was asked to stop. *)
Definition submitted (t : Task) (s : ThreadPoolContext) : ThreadPoolContext :=
  match ThreadPoolExecutor.Submit (Some t) s with Ok (_, s) => s | Throw _ => s end.
Definition taken (s : ThreadPoolContext) : ThreadPoolContext := match WorkerMain_next s with Takes _ s => s | _ => s end.
Definition sample_stopping : ThreadPoolContext := ThreadPoolExecutor.Stop Drain (taken (submitted 2 (submitted 1 sample_pool))).

Lemma sample_pool_initial : initial sample_pool.
Proof. exists 2, 3, true, (fun _ => true). split_and!; [lia|lia|lia|reflexivity]. Qed.

Lemma sample_stopping_reachable : reachable sample_stopping.
Proof.
  assert (H0 : reachable sample_pool) by apply reach_initial, sample_pool_initial.
  assert (H1 : reachable (submitted 1 sample_pool)).
  { apply (reach_step _ (ThreadPoolExecutor.DoSubmit 1) _ H0). by apply (ThreadPoolExecutor.step_submit _ _ Accepted). }
  assert (H2 : reachable (submitted 2 (submitted 1 sample_pool))).
  { apply (reach_step _ (ThreadPoolExecutor.DoSubmit 2) _ H1). by apply (ThreadPoolExecutor.step_submit _ _ Accepted). }
  assert (H3 : reachable (taken (submitted 2 (submitted 1 sample_pool)))).
  { apply (reach_step _ (ThreadPoolExecutor.WorkerTakes 1) _ H2). apply ThreadPoolExecutor.step_takes; [vm_compute; lia|done]. }
  apply (reach_step _ (ThreadPoolExecutor.DoStop Drain) _ H3). apply ThreadPoolExecutor.step_stop.
Qed.

Lemma executors_exactly_once_witness :
  NoDup (started_of (ThreadPoolExecutor.log sample_stopping)) /\ started_of (ThreadPoolExecutor.log sample_stopping) = [1].
Proof.
  destruct executors_exactly_once as (_ & _ & H & _). destruct (H _ sample_stopping_reachable) as [H1 _].
  split; [|reflexivity]. apply H1. apply (bool_decide_unpack _). vm_compute. exact I.
Defined.

Lemma pool_stops_witness : exists k s', nsteps worker_step k sample_stopping s' /\
  state_ (ThreadPoolExecutor.core s') = StateStopped /\ finished_of (ThreadPoolExecutor.log s') ≡ₚ [1; 2].
Proof.
  destruct (pool_stops sample_stopping sample_stopping_reachable) as (_ & _ & _ & k & s' & _ & H1 & H2 & _ & _ & _ & H3).
  - vm_compute. discriminate.
  - exists k, s'. split; [exact H1|]. split; [exact H2|]. symmetry. apply H3. reflexivity.
Defined.

Definition sample_serial : SerialExecutor :=
  match SerialExecutor_make true 3 true with
  | Ok s => s
  | Throw _ => mkSerial (Core_make 0 false) false 0 [] []
  end.

Definition posted (t : Task) (s : SerialExecutor) : SerialExecutor := (SerialExecutor.Post (Some t) (Ok Accepted) s).2.
Definition sample_posted : SerialExecutor := posted 6 (posted 5 sample_serial).

Lemma posted_reachable t s : reachable s -> reachable (posted t s).
Proof.
  intros Hs. apply (reach_step _ (SerialExecutor.DoPost t (Ok Accepted)) _ Hs).
  apply (SerialExecutor.step_post _ _ _ (SerialExecutor.Post (Some t) (Ok Accepted) s).1). apply surjective_pairing.
Qed.

Lemma sample_posted_reachable : reachable sample_posted.
Proof. do 2 apply posted_reachable. apply reach_initial. exists 3, true. split; [lia|done]. Qed.

Lemma serial_order_witness : SerialExecutor.work sample_posted = 6%nat /\
  exists k s', (k <= 6)%nat /\ nsteps drain_step k sample_posted s' /\ tasks_ (SerialExecutor.core s') = [].
Proof.
  destruct (serial_order sample_posted sample_posted_reachable) as (_ & _ & _ & _ & k & s' & H1 & H2 & H3 & _).
  split; [reflexivity|]. exists k, s'. split; [exact H1|]. split; [exact H2|exact H3].
Defined.
