(* ===== verification/LengthPrefixed.v ===== *)
(** * The length-prefixed sample protocol

    [length_prefixed_codec.cpp], [sample_dispatcher.cpp] and
    [length_prefixed_session.cpp]: a frame is the length of its body in four bytes,
    a message number in two, and a payload; a session cuts the bytes of a connection
    into frames and posts their messages.  The executor answers through [post_status],
    a function of the messages posted so far that may also throw; which message numbers have handlers is
    the state of the dispatcher, since a handler is only called by the executor. *)

From S2P Require Import Prelude BufferSequence ReceiveBuffer RingReceiveBuffer Http2Frames ProtocolSession.

Record SampleMessage := mkMessage {
  message_id : Z;
  message_payload : list byte;
}.

Inductive FrameDecodeStatus := DecodeIncomplete | DecodeComplete | DecodeError.

#[export] Instance FrameDecodeStatus_eq_dec : EqDecision FrameDecodeStatus.
Proof. solve_decision. Defined.

Inductive FrameDecodeError := NoDecodeError | BodyTooSmall | PayloadTooLarge.

#[export] Instance FrameDecodeError_eq_dec : EqDecision FrameDecodeError.
Proof. solve_decision. Defined.

Record FrameDecodeResult := mkDecodeResult {
  decode_status : FrameDecodeStatus;
  decode_error : FrameDecodeError;
  consumed_bytes : Z;
  decode_message : SampleMessage;
}.

Definition no_message : SampleMessage := mkMessage 0 [].

Definition kLengthPrefixBytes : Z := 4.
Definition kMessageIdBytes : Z := 2.
Definition kFrameOverheadBytes : Z := 6.

(** ** The codec *)

Definition ValidateMaximumPayload (maximum_payload_bytes : Z) : result unit :=
  throw_if (2 ^ 32 - 1 - kFrameOverheadBytes <? maximum_payload_bytes) invalid_argument (Ok tt).

Definition ReadBigEndian32 (input : BufferSequence) (offset : Z) : result Z :=
  b0 ← At input offset;
  b1 ← At input (u64 (offset + 1));
  b2 ← At input (u64 (offset + 2));
  b3 ← At input (u64 (offset + 3));
  Ok (Z.lor (Z.lor (Z.lor (Z.shiftl (b2z b0) 24) (Z.shiftl (b2z b1) 16)) (Z.shiftl (b2z b2) 8)) (b2z b3)).

Definition ReadBigEndian16 (input : BufferSequence) (offset : Z) : result Z :=
  b0 ← At input offset;
  b1 ← At input (u64 (offset + 1));
  Ok (Z.lor (Z.shiftl (b2z b0) 8) (b2z b1) mod 2 ^ 16).

Definition WriteBigEndian32 (value : Z) : list byte :=
  [z2b (Z.land (Z.shiftr value 24) 0xff); z2b (Z.land (Z.shiftr value 16) 0xff);
   z2b (Z.land (Z.shiftr value 8) 0xff); z2b (Z.land value 0xff)].

Definition WriteBigEndian16 (value : Z) : list byte :=
  [z2b (Z.land (Z.shiftr value 8) 0xff); z2b (Z.land value 0xff)].

Definition LengthPrefixedFrameDecoder_make (maximum_payload_bytes : Z) : result Z :=
  _ ← ValidateMaximumPayload maximum_payload_bytes; Ok maximum_payload_bytes.

(** A decoder is its limit. *)
Definition Decode (maximum_payload_bytes_ : Z) (input : BufferSequence) : result FrameDecodeResult :=
  let incomplete := mkDecodeResult DecodeIncomplete NoDecodeError 0 no_message in
  if seq_size input <? kLengthPrefixBytes then Ok incomplete
  else
    body_bytes ← ReadBigEndian32 input 0;
    if body_bytes <? kMessageIdBytes then Ok (mkDecodeResult DecodeError BodyTooSmall 0 no_message)
    else
      let payload_bytes := u64 (body_bytes - kMessageIdBytes) in
      if maximum_payload_bytes_ <? payload_bytes then Ok (mkDecodeResult DecodeError PayloadTooLarge 0 no_message)
      else
        let total_bytes := u64 (kLengthPrefixBytes + body_bytes) in
        if seq_size input <? total_bytes then Ok incomplete
        else
          id ← ReadBigEndian16 input kLengthPrefixBytes;
          payload ← CopyTo input kFrameOverheadBytes payload_bytes;
          Ok (mkDecodeResult DecodeComplete NoDecodeError total_bytes (mkMessage id payload)).

(** [Decode] of a contiguous view. *)
Definition Decode_view (maximum_payload_bytes_ : Z) (input : ByteView) : result FrameDecodeResult :=
  Decode maximum_payload_bytes_ (BufferSequence_1 input).

Definition LengthPrefixedFrameEncoder_make (maximum_payload_bytes : Z) : result Z :=
  _ ← ValidateMaximumPayload maximum_payload_bytes; Ok maximum_payload_bytes.

Definition Encode (maximum_payload_bytes_ : Z) (id : Z) (payload : list byte) : result (list byte) :=
  if maximum_payload_bytes_ <? zlen payload then Throw length_error
  else
    let body_bytes := u64 (kMessageIdBytes + zlen payload) in
    Ok (WriteBigEndian32 (u32 body_bytes) ++ WriteBigEndian16 id ++ payload).

(** ** The dispatcher *)

Inductive DispatchStatus := DispatchAccepted | HandlerNotFound | ExecutorStopped | ExecutorSaturated.

#[export] Instance DispatchStatus_eq_dec : EqDecision DispatchStatus.
Proof. solve_decision. Defined.

(** The message numbers with a handler. *)
Definition SampleDispatcher : Type := list Z.

Definition Register (id : Z) (handler : bool) (handlers_ : SampleDispatcher) : result (bool * SampleDispatcher) :=
  if negb handler then Throw invalid_argument
  else if bool_decide (id ∈ handlers_) then Ok (false, handlers_)
  else Ok (true, id :: handlers_).

(** The messages that were handed to the executor, with its answers. *)
Definition Posted : Type := SampleMessage * SubmitStatus.

Class World := { post_status : list Posted -> result SubmitStatus }.

Section sample.
Context `{World}.

Definition Dispatch (message : SampleMessage) (handlers_ : SampleDispatcher) (log : list Posted)
    : result (DispatchStatus * list Posted) :=
  if negb (bool_decide (message_id message ∈ handlers_)) then Ok (HandlerNotFound, log)
  else
    submit_status ← post_status log;
    Ok (match submit_status with
        | Accepted => DispatchAccepted
        | Stopped => ExecutorStopped
        | Saturated => ExecutorSaturated
        end, log ++ [(message, submit_status)]).

(** ** The session *)

Record LengthPrefixedSessionOptions := mkOptions {
  initial_buffer_bytes : Z;
  maximum_buffer_bytes : Z;
  maximum_payload_bytes : Z;
}.

Record LengthPrefixedSession := mkSession {
  dispatcher_ : SampleDispatcher;
  receive_buffer_ : RingReceiveBuffer;
  decoder_ : Z;
  stopped_ : bool;
  last_decode_error_ : FrameDecodeError;
}.

Definition set_buffer (b : RingReceiveBuffer) (s : LengthPrefixedSession) : LengthPrefixedSession :=
  mkSession (dispatcher_ s) b (decoder_ s) (stopped_ s) (last_decode_error_ s).
Definition set_stopped (s : LengthPrefixedSession) : LengthPrefixedSession :=
  mkSession (dispatcher_ s) (receive_buffer_ s) (decoder_ s) true (last_decode_error_ s).
Definition set_last_decode_error (e : FrameDecodeError) (s : LengthPrefixedSession) : LengthPrefixedSession :=
  mkSession (dispatcher_ s) (receive_buffer_ s) (decoder_ s) (stopped_ s) e.

Definition LengthPrefixedSession_make (dispatcher : option SampleDispatcher) (o : LengthPrefixedSessionOptions)
    : result LengthPrefixedSession :=
  b ← RingReceiveBuffer.make (initial_buffer_bytes o) (maximum_buffer_bytes o);
  d ← LengthPrefixedFrameDecoder_make (maximum_payload_bytes o);
  match dispatcher with
  | None => Throw invalid_argument
  | Some dispatcher =>
      if (maximum_buffer_bytes o <? kFrameOverheadBytes) ||
         (u64 (maximum_buffer_bytes o - kFrameOverheadBytes) <? maximum_payload_bytes o)
      then Throw invalid_argument
      else Ok (mkSession dispatcher b d false NoDecodeError)
  end.

Definition ToFeedStatus (status : DispatchStatus) : ProtocolFeedStatus :=
  match status with
  | DispatchAccepted => FeedReady
  | HandlerNotFound => FeedHandlerNotFound
  | ExecutorStopped => FeedExecutorStopped
  | ExecutorSaturated => FeedExecutorSaturated
  end.

Definition BufferedBytes (s : LengthPrefixedSession) : Z := RingReceiveBuffer.ReadableBytes (receive_buffer_ s).
Definition IsStopped (s : LengthPrefixedSession) : bool := stopped_ s.
Definition LastDecodeError (s : LengthPrefixedSession) : FrameDecodeError := last_decode_error_ s.

Definition Fail (status : ProtocolFeedStatus) (messages_dispatched : Z) (s : LengthPrefixedSession)
    : ProtocolFeedResult * LengthPrefixedSession :=
  let s := set_stopped s in (mkFeedResult status messages_dispatched (BufferedBytes s), s).

(** The loop of [Feed]; an exception leaves a stopped session. *)
Fixpoint Feed_loop (fuel : nat) (messages_dispatched : Z) (s : LengthPrefixedSession) (log : list Posted)
    : result ProtocolFeedResult * (LengthPrefixedSession * list Posted) :=
  match fuel with
  | O => (Throw NonTermination, (s, log))
  | S fuel =>
      match input ← RingReceiveBuffer.ReadableSequence (receive_buffer_ s); Decode (decoder_ s) input with
      | Throw e => (Throw e, (set_stopped s, log))
      | Ok decoded =>
          match decode_status decoded with
          | DecodeIncomplete => (Ok (mkFeedResult FeedReady messages_dispatched (BufferedBytes s)), (s, log))
          | DecodeError =>
              let '(r, s) := Fail FeedProtocolError messages_dispatched (set_last_decode_error (decode_error decoded) s) in
              (Ok r, (s, log))
          | DecodeComplete =>
              match Dispatch (decode_message decoded) (dispatcher_ s) log with
              | Throw e => (Throw e, (set_stopped s, log))
              | Ok (dispatch_status, log) =>
                  if negb (bool_decide (dispatch_status = DispatchAccepted)) then
                    let '(r, s) := Fail (ToFeedStatus dispatch_status) messages_dispatched s in (Ok r, (s, log))
                  else
                    match RingReceiveBuffer.Consume (receive_buffer_ s) (consumed_bytes decoded) with
                    | Throw e => (Throw e, (set_stopped s, log))
                    | Ok b => Feed_loop fuel (u64 (messages_dispatched + 1)) (set_buffer b s) log
                    end
              end
          end
      end
  end.

(** A frame has at least six bytes. *)
Definition feed_fuel (s : LengthPrefixedSession) : nat := S (Z.to_nat (BufferedBytes s)).

Definition Feed (bytes : list byte) (s : LengthPrefixedSession) (log : list Posted)
    : result ProtocolFeedResult * (LengthPrefixedSession * list Posted) :=
  if stopped_ s then (Ok (mkFeedResult FeedStopped 0 (BufferedBytes s)), (s, log))
  else
    match RingReceiveBuffer.Append (receive_buffer_ s) bytes with
    | Throw e => (Throw e, (s, log))
    | Ok (status, b) =>
        let s := set_buffer b s in
        if negb (bool_decide (status = Ready)) then
          let '(r, s) := Fail FeedBufferLimitExceeded 0 s in (Ok r, (s, log))
        else Feed_loop (feed_fuel s) 0 s log
    end.
End sample.

(** ** A decoder of lists *)

Definition decode_frame (maximum : Z) (l : list byte) : FrameDecodeResult :=
  let incomplete := mkDecodeResult DecodeIncomplete NoDecodeError 0 no_message in
  match l with
  | b0 :: b1 :: b2 :: b3 :: body =>
      let n := MakeUint32 b0 b1 b2 b3 in
      if n <? 2 then mkDecodeResult DecodeError BodyTooSmall 0 no_message
      else if maximum <? n - 2 then mkDecodeResult DecodeError PayloadTooLarge 0 no_message
      else if zlen body <? n then incomplete
      else
        match body with
        | i0 :: i1 :: rest =>
            mkDecodeResult DecodeComplete NoDecodeError (4 + n)
              (mkMessage (256 * b2z i0 + b2z i1) (ztake (n - 2) rest))
        | _ => incomplete
        end
  | _ => incomplete
  end.

Lemma MakeUint32_bound b0 b1 b2 b3 : 0 <= MakeUint32 b0 b1 b2 b3 < 2 ^ 32.
Proof.
  rewrite MakeUint32_spec. pose proof (b2z_range b0). pose proof (b2z_range b1). pose proof (b2z_range b2).
  pose proof (b2z_range b3). lia.
Qed.

Lemma ReadBigEndian32_spec s b0 b1 b2 b3 body : seq_ok s -> seq_bytes s = b0 :: b1 :: b2 :: b3 :: body ->
  ReadBigEndian32 s 0 = Ok (MakeUint32 b0 b1 b2 b3).
Proof. intros Hs El. unfold ReadBigEndian32. rewrite !u64_small by lia. rewrite !(At_spec s), El by (done || lia). done. Qed.

Lemma ReadBigEndian16_spec s b0 b1 b2 b3 i0 i1 body : seq_ok s -> seq_bytes s = b0 :: b1 :: b2 :: b3 :: i0 :: i1 :: body ->
  ReadBigEndian16 s 4 = Ok (256 * b2z i0 + b2z i1).
Proof.
  intros Hs El. unfold ReadBigEndian16. rewrite !u64_small by lia. rewrite !(At_spec s), El by (done || lia).
  change (Ok (Z.lor (Z.shiftl (b2z i0) 8) (b2z i1) mod 2 ^ 16) = Ok (256 * b2z i0 + b2z i1)).
  pose proof (b2z_range i0). pose proof (b2z_range i1). rewrite lor_shiftl_add by lia. f_equal. rewrite Z.mod_small; lia.
Qed.

(** The decoder of a sequence of segments is the decoder of its bytes. *)
Lemma Decode_spec maximum s : seq_ok s -> zlen (seq_bytes s) < 2 ^ 64 -> 0 <= maximum ->
  Decode maximum s = Ok (decode_frame maximum (seq_bytes s)).
Proof.
  intros Hs Hz Hm. unfold Decode. rewrite (seq_size_spec _ Hs). unfold kLengthPrefixBytes, kMessageIdBytes, kFrameOverheadBytes.
  destruct (seq_bytes s) as [|b0 [|b1 [|b2 [|b3 body]]]] eqn:El;
    [by rewrite ?zlen_cons, ?zlen_nil..|].
  rewrite !zlen_cons in *. pose proof (zlen_nonneg body).
  rewrite (proj2 (Z.ltb_ge _ 4)) by lia. rewrite (ReadBigEndian32_spec _ _ _ _ _ _ Hs El). cbn [mbind result_bind].
  unfold decode_frame. pose proof (MakeUint32_bound b0 b1 b2 b3). set (n := MakeUint32 b0 b1 b2 b3) in *.
  destruct (Z.ltb_spec n 2); [done|]. rewrite !u64_small by lia. destruct (_ <? n - 2); [done|].
  destruct (Z.ltb_spec (zlen body) n).
  { rewrite (proj2 (Z.ltb_lt _ _)) by lia. done. }
  rewrite (proj2 (Z.ltb_ge _ (4 + n))) by lia.
  destruct body as [|i0 [|i1 rest]]; [rewrite ?zlen_cons, ?zlen_nil in *; lia..|]. rewrite !zlen_cons in *.
  rewrite (ReadBigEndian16_spec _ _ _ _ _ _ _ _ Hs El). cbn [mbind result_bind].
  rewrite (CopyTo_spec _ _ _ Hs) by lia. rewrite El, !zlen_cons, (proj2 (Z.leb_le _ _)) by lia. done.
Qed.

(** ** Frames *)

Definition frame (m : SampleMessage) : list byte :=
  WriteBigEndian32 (2 + zlen (message_payload m)) ++ WriteBigEndian16 (message_id m) ++ message_payload m.

Record message_ok (maximum : Z) (m : SampleMessage) : Prop := {
  mo_id : 0 <= message_id m < 2 ^ 16;
  mo_payload : zlen (message_payload m) <= maximum;
}.

Lemma Encode_spec maximum id payload : maximum <= 2 ^ 32 - 1 - 6 ->
  Encode maximum id payload = if maximum <? zlen payload then Throw length_error else Ok (frame (mkMessage id payload)).
Proof.
  intros Hm. unfold Encode. destruct (Z.ltb_spec maximum (zlen payload)); [done|]. pose proof (zlen_nonneg payload).
  unfold kMessageIdBytes. by rewrite u64_small, u32_small by lia.
Qed.

Lemma zlen_frame m : zlen (frame m) = 6 + zlen (message_payload m).
Proof. unfold frame. rewrite !zlen_app. change (zlen (WriteBigEndian32 _)) with 4. change (zlen (WriteBigEndian16 _)) with 2. lia. Qed.

(** The header of a frame is read back. *)
Lemma frame_eq m : 2 + zlen (message_payload m) < 2 ^ 32 -> 0 <= message_id m < 2 ^ 16 ->
  exists b0 b1 b2 b3 i0 i1, frame m = b0 :: b1 :: b2 :: b3 :: i0 :: i1 :: message_payload m /\
    MakeUint32 b0 b1 b2 b3 = 2 + zlen (message_payload m) /\ 256 * b2z i0 + b2z i1 = message_id m.
Proof.
  intros Hz Hid. pose proof (zlen_nonneg (message_payload m)). do 6 eexists. split; [reflexivity|]. split.
  - pose proof (be32_value (2 + zlen (message_payload m)) ltac:(lia)) as E. unfold field in E. by rewrite Z.shiftr_0_r in E.
  - rewrite !b2z_z2b, !land_0xff, Z.shiftr_div_pow2 by lia. Z.div_mod_to_equations. lia.
Qed.

Lemma decode_frame_complete maximum m rest : message_ok maximum m -> maximum <= 2 ^ 32 - 1 - 6 ->
  decode_frame maximum (frame m ++ rest) =
  mkDecodeResult DecodeComplete NoDecodeError (zlen (frame m)) m.
Proof.
  intros [Hid Hp] Hm. destruct (frame_eq m) as (b0 & b1 & b2 & b3 & i0 & i1 & Ef & En & Ei); [lia|done|].
  rewrite zlen_frame, Ef. cbn [app decode_frame]. rewrite En, Ei. pose proof (zlen_nonneg (message_payload m)).
  rewrite (proj2 (Z.ltb_ge _ 2)), (proj2 (Z.ltb_ge maximum _)) by lia.
  rewrite !zlen_cons, zlen_app. pose proof (zlen_nonneg rest). rewrite (proj2 (Z.ltb_ge _ _)) by lia.
  rewrite ztake_app_le, ztake_all by lia. destruct m; cbn. f_equal. lia.
Qed.

Lemma decode_frame_partial maximum m part rest : message_ok maximum m -> maximum <= 2 ^ 32 - 1 - 6 ->
  frame m = part ++ rest -> rest <> [] ->
  decode_frame maximum part = mkDecodeResult DecodeIncomplete NoDecodeError 0 no_message.
Proof.
  intros [Hid Hp] Hm Ef0 Hr. destruct (frame_eq m) as (b0 & b1 & b2 & b3 & i0 & i1 & Ef & En & Ei); [lia|done|].
  assert (Hl : zlen part < zlen (frame m)).
  { rewrite Ef0, zlen_app. destruct rest; [done|]. rewrite zlen_cons. pose proof (zlen_nonneg rest). lia. }
  rewrite zlen_frame in Hl. rewrite Ef in Ef0. pose proof (zlen_nonneg (message_payload m)).
  destruct part as [|c0 [|c1 [|c2 [|c3 part]]]]; [done..|]. injection Ef0 as <- <- <- <- _.
  cbn [decode_frame]. rewrite En, (proj2 (Z.ltb_ge _ 2)), (proj2 (Z.ltb_ge maximum _)) by lia.
  rewrite !zlen_cons in Hl. by rewrite (proj2 (Z.ltb_lt (zlen part) _)) by lia.
Qed.

(** A prefix of a sequence of frames is some frames and an incomplete one. *)
Lemma frames_prefix maximum ms : Forall (message_ok maximum) ms -> 0 <= maximum <= 2 ^ 32 - 1 - 6 ->
  forall p rest, concat (map frame ms) = p ++ rest ->
  exists ms1 ms2 part, ms = ms1 ++ ms2 /\ p = concat (map frame ms1) ++ part /\ concat (map frame ms2) = part ++ rest /\
    decode_frame maximum part = mkDecodeResult DecodeIncomplete NoDecodeError 0 no_message /\
    zlen part < maximum + 6 /\ (rest = [] -> part = [] /\ ms2 = []).
Proof.
  intros Hms Hm. induction Hms as [|m ms Hmo _ IH]; intros p rest E.
  - symmetry in E. apply app_eq_nil in E as [-> ->]. exists [], [], []. split_and!; try done. rewrite zlen_nil. lia.
  - cbn [map concat] in E. pose proof (zlen_frame m) as Hf. destruct (Hmo) as [Hid Hp].
    destruct (decide (zlen p < zlen (frame m))) as [Hlt|Hge].
    + assert (Ep : frame m = p ++ zdrop (zlen p) (frame m)).
      { apply (f_equal (ztake (zlen p))) in E. rewrite ztake_app_le in E by lia.
        rewrite (ztake_app_le _ p) in E by lia. rewrite (ztake_all (zlen p) p) in E by lia.
        rewrite <- (ztake_zdrop (zlen p) (frame m)) at 1. by rewrite E. }
      assert (Hne : zdrop (zlen p) (frame m) <> []).
      { intros E0. apply (f_equal zlen) in Ep. rewrite E0, app_nil_r in Ep. lia. }
      exists [], (m :: ms), p. split_and!; try done; [eapply (decode_frame_partial _ m); [done|lia|done..]|lia|].
      intros ->. rewrite app_nil_r in E. rewrite <- E, zlen_app in Hlt. pose proof (zlen_nonneg (concat (map frame ms))). lia.
    + assert (Ep : p = frame m ++ zdrop (zlen (frame m)) p).
      { apply (f_equal (ztake (zlen (frame m)))) in E. rewrite ztake_app_le, ztake_all in E by lia.
        rewrite ztake_app_le in E by lia. rewrite E at 1. by rewrite ztake_zdrop. }
      rewrite Ep, <- app_assoc in E. apply app_inv_head in E.
      destruct (IH _ _ E) as (ms1 & ms2 & part & -> & E1 & E2 & E3 & E4 & E5). exists (m :: ms1), ms2, part.
      split_and!; try done. rewrite Ep, E1. cbn [map concat]. by rewrite <- app_assoc.
Qed.

(** ** Sessions *)

Section theory.
Context `{World}.
Hypothesis accepts : forall l, post_status l = Ok Accepted.

(** A session that has not been stopped, with the bytes in its buffer. *)
Record running (handlers : SampleDispatcher) (maximum capacity : Z) (l : list byte) (s : LengthPrefixedSession) : Prop := {
  rn_dispatcher : dispatcher_ s = handlers;
  rn_decoder : decoder_ s = maximum;
  rn_buffer : RingReceiveBuffer.inv (receive_buffer_ s);
  rn_contents : contents (receive_buffer_ s) = l;
  rn_capacity : maximum_capacity_ (receive_buffer_ s) = capacity;
  rn_stopped : stopped_ s = false;
}.

Lemma running_input handlers maximum capacity l s : running handlers maximum capacity l s -> 0 <= maximum ->
  (input ← RingReceiveBuffer.ReadableSequence (receive_buffer_ s); Decode (decoder_ s) input) = Ok (decode_frame maximum l) /\
  BufferedBytes s = zlen l.
Proof.
  intros [] Hm. destruct (ReadableSequence_spec _ rn_buffer0) as (q & -> & Hq & Eq). cbn [mbind result_bind].
  pose proof (ring_contents_bound _ rn_buffer0) as Hb. rewrite rn_decoder0.
  pose proof (zlen_contents _ rn_buffer0) as Hz. split.
  - rewrite Decode_spec; rewrite ?Eq, ?rn_contents0; try done. rewrite <- rn_contents0. pose proof (RingReceiveBuffer.inv_max _ rn_buffer0). lia.
  - unfold BufferedBytes, RingReceiveBuffer.ReadableBytes. by rewrite <- rn_contents0, Hz.
Qed.

Lemma Feed_loop_frames handlers maximum capacity ms : Forall (message_ok maximum) ms -> 0 <= maximum <= 2 ^ 32 - 1 - 6 ->
  Forall (fun m => message_id m ∈ handlers) ms ->
  forall fuel n s log part, running handlers maximum capacity (concat (map frame ms) ++ part) s ->
  decode_frame maximum part = mkDecodeResult DecodeIncomplete NoDecodeError 0 no_message ->
  (length ms < fuel)%nat -> 0 <= n -> n + zlen ms < 2 ^ 64 ->
  exists s', Feed_loop fuel n s log =
    (Ok (mkFeedResult FeedReady (n + zlen ms) (zlen part)), (s', log ++ map (fun m => (m, Accepted)) ms)) /\
    running handlers maximum capacity part s'.
Proof.
  intros Hms Hm Hin. induction Hms as [|m ms Hmo _ IH]; intros fuel n s log part Hs Hd Hf Hn Hz;
    (destruct fuel as [|fuel]; [cbn in Hf; lia|]); cbn [Feed_loop];
    destruct (running_input _ _ _ _ _ Hs ltac:(lia)) as [-> Hb].
  - cbn [map concat app] in *. rewrite Hd. cbn [decode_status]. rewrite Hb, zlen_nil, Z.add_0_r, app_nil_r. by exists s.
  - cbn [map concat] in *. rewrite <- app_assoc in *. rewrite (decode_frame_complete _ _ _ Hmo) by lia.
    cbn [decode_status decode_message consumed_bytes]. apply Forall_cons in Hin as [Hi Hin].
    unfold Dispatch. rewrite (rn_dispatcher _ _ _ _ _ Hs), bool_decide_eq_true_2 by done. cbn [negb].
    rewrite accepts. cbn [mbind result_bind]. rewrite bool_decide_eq_true_2 by done. cbn [negb].
    destruct (Hs) as [H1 H2 H3 H4 H5 H6]. pose proof (zlen_nonneg (frame m)).
    destruct (ring_Consume_spec _ (zlen (frame m)) H3) as [Hc _]; [done|].
    destruct Hc as (b' & -> & Hb' & Hcon & Hcap).
    { rewrite H4, zlen_app. pose proof (zlen_nonneg (concat (map frame ms) ++ part)). lia. }
    rewrite H4, zdrop_app_le, zdrop_all in Hcon by lia. rewrite zlen_cons in *. pose proof (zlen_nonneg ms).
    rewrite u64_small by lia.
    destruct (IH Hin fuel (n + 1) (set_buffer b' s) (log ++ [(m, Accepted)]) part) as (s' & -> & Hs'); try done; try lia.
    + split; cbn; try done; congruence.
    + cbn in Hf. lia.
    + exists s'. split; [|done]. rewrite <- app_assoc. f_equal. do 2 f_equal. lia.
Qed.

(** All reads of a connection, with the results. *)
Fixpoint feed_all (reads : list (list byte)) (s : LengthPrefixedSession) (log : list Posted)
    : result (list ProtocolFeedResult) * (LengthPrefixedSession * list Posted) :=
  match reads with
  | [] => (Ok [], (s, log))
  | bytes :: reads =>
      match Feed bytes s log with
      | (Throw e, st) => (Throw e, st)
      | (Ok r, (s, log)) =>
          match feed_all reads s log with
          | (Ok rs, st) => (Ok (r :: rs), st)
          | (Throw e, st) => (Throw e, st)
          end
      end
  end.

Lemma Feed_frames handlers maximum capacity ms part bytes part' s log :
  Forall (message_ok maximum) ms -> 0 <= maximum <= 2 ^ 32 - 1 - 6 -> Forall (fun m => message_id m ∈ handlers) ms ->
  running handlers maximum capacity part s -> part ++ bytes = concat (map frame ms) ++ part' ->
  decode_frame maximum part' = mkDecodeResult DecodeIncomplete NoDecodeError 0 no_message ->
  zlen part + zlen bytes <= capacity ->
  exists s', Feed bytes s log =
    (Ok (mkFeedResult FeedReady (zlen ms) (zlen part')), (s', log ++ map (fun m => (m, Accepted)) ms)) /\
    running handlers maximum capacity part' s'.
Proof.
  intros Hms Hm Hin [H1 H2 H3 H4 H5 H6] Ep Hd Hc. unfold Feed. rewrite H6.
  destruct (ring_Append_spec _ bytes H3) as [Ha _]. destruct Ha as (b & -> & Hb & Hcon & Hcap); [by rewrite H4, H5|].
  rewrite bool_decide_eq_true_2 by done. cbn [negb].
  assert (Hs : running handlers maximum capacity (concat (map frame ms) ++ part') (set_buffer b s)).
  { split; cbn; try done; [by rewrite Hcon, H4|congruence]. }
  destruct (running_input _ _ _ _ _ Hs ltac:(lia)) as [_ Hz].
  assert (Hl : zlen ms <= zlen (concat (map frame ms))).
  { clear. induction ms as [|m ms IH]; [done|]. cbn [map concat]. rewrite zlen_cons, zlen_app, zlen_frame.
    pose proof (zlen_nonneg (message_payload m)). lia. }
  pose proof (zlen_nonneg ms). pose proof (zlen_nonneg part').
  assert (Hb64 : zlen (concat (map frame ms) ++ part') < 2 ^ 63).
  { rewrite <- (rn_contents _ _ _ _ _ Hs). pose proof (ring_contents_bound _ (rn_buffer _ _ _ _ _ Hs)).
    pose proof (RingReceiveBuffer.inv_max _ (rn_buffer _ _ _ _ _ Hs)). lia. }
  rewrite zlen_app in Hb64.
  apply (Feed_loop_frames _ _ _ ms Hms Hm Hin _ 0); try done; [|lia].
  unfold feed_fuel. rewrite Hz, zlen_app. unfold zlen in *. lia.
Qed.

Lemma feed_all_frames handlers maximum capacity : 0 <= maximum <= 2 ^ 32 - 1 - 6 ->
  forall reads ms part s log, Forall (message_ok maximum) ms -> Forall (fun m => message_id m ∈ handlers) ms ->
  running handlers maximum capacity part s -> part ++ concat reads = concat (map frame ms) -> (concat reads = [] -> part = []) ->
  zlen part < maximum + 6 -> Forall (fun r => zlen r + maximum + 5 <= capacity) reads ->
  exists rs s', feed_all reads s log = (Ok rs, (s', log ++ map (fun m => (m, Accepted)) ms)) /\
    running handlers maximum capacity [] s' /\
    Forall (fun r => feed_status r = FeedReady) rs /\ foldr Z.add 0 (map messages_dispatched rs) = zlen ms.
Proof.
  intros Hm. induction reads as [|r reads IH]; intros ms part s log Hms Hin Hs E He Hp Hr; cbn [feed_all].
  - rewrite (He eq_refl) in *. cbn in E. destruct ms as [|m ms].
    + exists [], s. cbn. by rewrite app_nil_r.
    + apply (f_equal zlen) in E. cbn [map concat] in E. rewrite zlen_app, zlen_frame, zlen_nil in E.
      pose proof (zlen_nonneg (message_payload m)). pose proof (zlen_nonneg (concat (map frame ms))). lia.
  - cbn [concat] in E. rewrite app_assoc in E. symmetry in E. apply Forall_cons in Hr as [Hr Hrs].
    destruct (frames_prefix maximum ms Hms Hm _ _ E) as (ms1 & ms2 & part' & -> & E1 & E2 & E3 & E4 & E5).
    apply Forall_app in Hms as [Hm1 Hm2]. apply Forall_app in Hin as [Hi1 Hi2].
    destruct (Feed_frames _ _ _ ms1 _ _ _ _ log Hm1 Hm Hi1 Hs E1 E3) as (s1 & -> & Hs1); [lia|].
    destruct (IH ms2 part' s1 (log ++ map (fun m => (m, Accepted)) ms1) Hm2 Hi2 Hs1) as (rs & s2 & -> & Hs2 & Hrs2 & Hsum); try done.
    { intros Hc. by destruct (E5 Hc). }
    eexists _, s2. split_and!; [by rewrite map_app, app_assoc|done|by constructor|].
    cbn [map foldr messages_dispatched]. rewrite Hsum, zlen_app. done.
Qed.

(** For every list of messages within the limits and with handlers, encoded one after
    the other by [Encode], and for every way to cut the bytes into reads, a new
    session posts exactly these messages in order if the executor accepts them: every
    read is answered with success, the answers count the messages, and at the end
    nothing is left in the buffer. *)
Theorem lp_session_delivers handlers o s ms wire reads :
  LengthPrefixedSession_make (Some handlers) o = Ok s ->
  1 <= initial_buffer_bytes o <= maximum_buffer_bytes o -> maximum_buffer_bytes o < 2 ^ 63 ->
  0 <= maximum_payload_bytes o ->
  Forall2 (fun m w => 0 <= message_id m < 2 ^ 16 /\ message_id m ∈ handlers /\
             Encode (maximum_payload_bytes o) (message_id m) (message_payload m) = Ok w) ms wire ->
  concat reads = concat wire ->
  Forall (fun r => zlen r + maximum_payload_bytes o + 5 <= maximum_buffer_bytes o) reads ->
  exists rs s', feed_all reads s [] = (Ok rs, (s', map (fun m => (m, Accepted)) ms)) /\
    Forall (fun r => feed_status r = FeedReady) rs /\ foldr Z.add 0 (map messages_dispatched rs) = zlen ms /\
    BufferedBytes s' = 0 /\ IsStopped s' = false.
Proof.
  intros Hmake Hi Hb Hp0 Hw Hc Hr. unfold LengthPrefixedSession_make in Hmake.
  destruct (ring_make_spec _ _ Hi Hb) as (b & Eb & Hinv & Hcon & Hcap). rewrite Eb in Hmake. cbn [mbind result_bind] in Hmake.
  unfold LengthPrefixedFrameDecoder_make, ValidateMaximumPayload, throw_if in Hmake.
  destruct (Z.ltb_spec (2 ^ 32 - 1 - kFrameOverheadBytes) (maximum_payload_bytes o)) as [|Hm]; [done|].
  unfold kFrameOverheadBytes in Hm. cbn [mbind result_bind] in Hmake. destruct (_ || _); [done|]. injection Hmake as <-.
  set (s := mkSession _ _ _ _ _). assert (Hs : running handlers (maximum_payload_bytes o) (maximum_buffer_bytes o) [] s) by by split.
  assert (Hms : Forall (message_ok (maximum_payload_bytes o)) ms /\ Forall (fun m => message_id m ∈ handlers) ms /\
    concat wire = concat (map frame ms)).
  { clear -Hw Hm. induction Hw as [|m w ms wire (H1 & H2 & H3) _ (IH1 & IH2 & IH3)]; [done|].
    rewrite Encode_spec in H3 by lia. destruct (Z.ltb_spec (maximum_payload_bytes o) (zlen (message_payload m))); [done|]. injection H3 as <-.
    split_and!; [by constructor; [split|]|by constructor|]. cbn [map concat]. rewrite IH3. by destruct m. }
  destruct Hms as (Hm1 & Hm2 & Hm3). rewrite Hm3 in Hc.
  destruct (feed_all_frames handlers (maximum_payload_bytes o) (maximum_buffer_bytes o) ltac:(lia) reads ms [] s [] Hm1 Hm2 Hs Hc)
    as (rs & s' & E & Hs' & Hrs & Hsum); [done|rewrite zlen_nil; lia|done|].
  exists rs, s'. destruct (running_input _ _ _ _ _ Hs' Hp0) as [_ Hbuf]. split_and!; try done. apply Hs'.
Qed.
End theory.

Definition sample_accepting : World := {| post_status := fun _ => Ok Accepted |}.

Lemma lp_session_delivers_witness : exists s rs s',
  LengthPrefixedSession_make (Some [1; 515]) (mkOptions 8 64 16) = Ok s /\
  @feed_all sample_accepting
    [[z2b 0; z2b 0]; [z2b 0; z2b 4; z2b 2; z2b 3; z2b 65]; [z2b 66; z2b 0; z2b 0; z2b 0; z2b 2; z2b 0; z2b 1]] s [] =
  (Ok rs, (s', [(mkMessage 515 [z2b 65; z2b 66], Accepted); (mkMessage 1 [], Accepted)])).
Proof.
  destruct (LengthPrefixedSession_make (Some [1; 515]) (mkOptions 8 64 16)) as [s|e] eqn:Es; [|vm_compute in Es; discriminate].
  destruct (@lp_session_delivers sample_accepting (fun _ => eq_refl) [1; 515] (mkOptions 8 64 16) s
    [mkMessage 515 [z2b 65; z2b 66]; mkMessage 1 []]
    [[z2b 0; z2b 0; z2b 0; z2b 4; z2b 2; z2b 3; z2b 65; z2b 66]; [z2b 0; z2b 0; z2b 0; z2b 2; z2b 0; z2b 1]]
    [[z2b 0; z2b 0]; [z2b 0; z2b 4; z2b 2; z2b 3; z2b 65]; [z2b 66; z2b 0; z2b 0; z2b 0; z2b 2; z2b 0; z2b 1]])
    as (rs & s' & H1 & _).
  - exact Es.
  - cbn. lia.
  - cbn. lia.
  - cbn. lia.
  - repeat constructor; cbn -[Z.pow]; try lia; try set_solver.
  - reflexivity.
  - repeat constructor; vm_compute; discriminate.
  - exists s, rs, s'. split; [reflexivity|exact H1].
Defined.
