(* ===== verification/PrefaceBootstrap.v ===== *)
(** * Choosing the protocol by its preface

    [PrefaceProtocolBootstrap] of [preface_protocol_bootstrap.cpp]: it holds back the
    first bytes of a connection until they are the preface or cannot become it, and
    hands them to the session that one of its two factories makes.

    A session is known by the reads that it got, and what it answers, or that it
    throws, is a function of them; so is whether a factory makes one. *)

From S2P Require Import Prelude ProtocolSession.

(** Which factory. *)
Inductive choice := Match | Fallback.

#[export] Instance choice_eq_dec : EqDecision choice.
Proof. solve_decision. Defined.

(** [make k]: the factory returns a session ([Ok true]), null ([Ok false]) or throws. *)
Class Sessions := {
  make : choice -> result bool;
  answer : choice -> list (list byte) -> result ProtocolFeedResult;
}.

Record PrefaceProtocolBootstrap := mkBootstrap {
  preface_ : list byte;
  pending_ : list byte;
  selected_ : option (choice * list (list byte));
}.

(** The constructor; the flags say that the factories are not empty. *)
Definition PrefaceProtocolBootstrap_make (preface : list byte) (match_factory fallback_factory : bool)
    : result PrefaceProtocolBootstrap :=
  if zlen preface =? 0 then Throw invalid_argument
  else if negb match_factory || negb fallback_factory then Throw invalid_argument
  else Ok (mkBootstrap preface [] None).

Definition set_pending (p : list byte) (s : PrefaceProtocolBootstrap) : PrefaceProtocolBootstrap :=
  mkBootstrap (preface_ s) p (selected_ s).
Definition set_selected (x : option (choice * list (list byte))) (s : PrefaceProtocolBootstrap) : PrefaceProtocolBootstrap :=
  mkBootstrap (preface_ s) (pending_ s) x.

(** [preface_[i]]: the character at the end of a string is zero. *)
Definition preface_at (preface : list byte) (i : Z) : result byte :=
  if i =? zlen preface then Ok Byte.x00
  else match znth preface i with Some b => Ok b | None => Throw UndefinedBehavior end.

Section bootstrap.
Context `{Sessions}.

(** [selected_->Feed(bytes)] *)
Definition session_feed (bytes : list byte) (k : choice) (h : list (list byte)) (s : PrefaceProtocolBootstrap)
    : result ProtocolFeedResult * PrefaceProtocolBootstrap :=
  (answer k (h ++ [bytes]), set_selected (Some (k, h ++ [bytes])) s).

Definition SelectAndFeed (factory : choice) (remaining : list byte) (s : PrefaceProtocolBootstrap)
    : result ProtocolFeedResult * PrefaceProtocolBootstrap :=
  match make factory with
  | Throw e => (Throw e, s)
  | Ok false => (Throw runtime_error, set_selected None s)
  | Ok true =>
      match session_feed (pending_ s) factory [] s with
      | (Throw e, s) => (Throw e, s)
      | (Ok r, s1) =>
          let s1 := set_pending [] s1 in
          if negb (bool_decide (feed_status r = FeedReady)) || (zlen remaining =? 0) then (Ok r, s1)
          else
            match session_feed remaining factory [pending_ s] s1 with
            | (Throw e, s2) => (Throw e, s2)
            | (Ok tail_result, s2) =>
                (Ok (mkFeedResult (feed_status tail_result)
                       (u64 (messages_dispatched r + messages_dispatched tail_result))
                       (buffered_bytes tail_result)), s2)
            end
      end
  end.

(** The loop of [Feed]. *)
Fixpoint Feed_loop (bytes : list byte) (s : PrefaceProtocolBootstrap)
    : result ProtocolFeedResult * PrefaceProtocolBootstrap :=
  match bytes with
  | [] => (Ok (mkFeedResult FeedReady 0 (zlen (pending_ s))), s)
  | value :: bytes =>
      let preface_offset := zlen (pending_ s) in
      let s := set_pending (pending_ s ++ [value]) s in
      match preface_at (preface_ s) preface_offset with
      | Throw e => (Throw e, s)
      | Ok c =>
          if negb (bool_decide (value = c)) then SelectAndFeed Fallback bytes s
          else if zlen (pending_ s) =? zlen (preface_ s) then SelectAndFeed Match bytes s
          else Feed_loop bytes s
      end
  end.

Definition Feed (bytes : list byte) (s : PrefaceProtocolBootstrap)
    : result ProtocolFeedResult * PrefaceProtocolBootstrap :=
  match selected_ s with
  | Some (k, h) => session_feed bytes k h s
  | None => Feed_loop bytes s
  end.

(** All reads of a connection, as long as none throws. *)
Fixpoint feed_all (reads : list (list byte)) (s : PrefaceProtocolBootstrap)
    : result (list ProtocolFeedResult) * PrefaceProtocolBootstrap :=
  match reads with
  | [] => (Ok [], s)
  | bytes :: reads =>
      match Feed bytes s with
      | (Throw e, s) => (Throw e, s)
      | (Ok r, s) =>
          match feed_all reads s with
          | (Ok rs, s) => (Ok (r :: rs), s)
          | (Throw e, s) => (Throw e, s)
          end
      end
  end.

(** ** What it does *)

(** The choice that the bytes of a connection ask for. *)
Definition right_choice (preface w : list byte) : choice := if decide (preface `prefix_of` w) then Match else Fallback.

(** Enough bytes to choose. *)
Definition decided (preface first : list byte) : Prop := first = preface \/ ~ first `prefix_of` preface.

(** The state that belongs to the bytes [w]: the right session got all of them, unless
    its first answer was a failure. *)
Definition served (preface w : list byte) (s : PrefaceProtocolBootstrap) : Prop :=
  preface_ s = preface /\
  match selected_ s with
  | None => pending_ s = w /\ w `prefix_of` preface /\ w <> preface
  | Some (k, h) =>
      k = right_choice preface w /\ pending_ s = [] /\
      exists first rest, h = first :: rest /\ decided preface first /\ first `prefix_of` w /\
        (forall r, answer k [first] = Ok r -> feed_status r = FeedReady -> concat h = w)
  end.

Hypothesis makes : forall k, make k = Ok true.
Hypothesis answers : forall k h, exists r, answer k h = Ok r.

Lemma select_served preface k first remaining s : preface_ s = preface -> pending_ s = first -> decided preface first ->
  k = right_choice preface (first ++ remaining) ->
  exists r, (SelectAndFeed k remaining s).1 = Ok r /\ served preface (first ++ remaining) (SelectAndFeed k remaining s).2.
Proof.
  intros Hp Hf Hne Hk. unfold SelectAndFeed. rewrite makes. unfold session_feed. rewrite Hf. cbn [app].
  destruct (answers k [first]) as [r Er]. rewrite Er. destruct (_ || _) eqn:E.
  - exists r. split; [done|]. split; [done|]. cbn. split_and!; try done. exists first, []. split_and!; try done; [by exists remaining|].
    intros r' Er' Hr. rewrite Er in Er'. injection Er' as <-. rewrite bool_decide_eq_true_2 in E by done. cbn in E.
    apply Z.eqb_eq, zlen_0 in E as ->. done.
  - destruct (answers k [first; remaining]) as [r2 Er2]. cbn. rewrite Er2. eexists. split; [done|]. split; [done|]. cbn.
    split_and!; try done. exists first, [remaining]. split_and!; try done; [by exists remaining|]. intros. cbn. by rewrite app_nil_r.
Qed.

Lemma prefix_ne_length {A} (l k : list A) : l `prefix_of` k -> l <> k -> zlen l < zlen k.
Proof. intros [m ->] Hn. rewrite zlen_app. destruct m; [by rewrite app_nil_r in Hn|]. rewrite zlen_cons. pose proof (zlen_nonneg m). lia. Qed.

Lemma Feed_loop_served preface bytes : forall w s, preface_ s = preface -> selected_ s = None -> pending_ s = w ->
  w `prefix_of` preface -> w <> preface ->
  exists r, (Feed_loop bytes s).1 = Ok r /\ served preface (w ++ bytes) (Feed_loop bytes s).2.
Proof.
  induction bytes as [|v bytes IH]; intros w s Hp Hs Hw Hpre Hne; cbn [Feed_loop].
  - eexists. split; [done|]. rewrite app_nil_r. split; [done|]. cbn. by rewrite Hs.
  - pose proof (prefix_ne_length _ _ Hpre Hne) as Hlt. cbn [preface_ set_pending]. rewrite Hp, Hw.
    destruct Hpre as [m Em]. destruct m as [|c m]; [by rewrite Em, app_nil_r in Hne|].
    assert (Hat : preface_at preface (zlen w) = Ok c).
    { unfold preface_at. rewrite (proj2 (Z.eqb_neq _ _)) by lia. rewrite Em, znth_app_r by lia. by rewrite Z.sub_diag. }
    rewrite Hat. cbn [pending_ preface_ set_pending].
    assert (Happ : w ++ v :: bytes = (w ++ [v]) ++ bytes) by by rewrite <- app_assoc.
    case_bool_decide as Ev; cbn [negb].
    + subst c. destruct (Z.eqb_spec (zlen (w ++ [v])) (zlen preface)) as [El|El].
      * assert (Epre : w ++ [v] = preface).
        { rewrite Em in El |- *. rewrite !zlen_app, !zlen_cons, zlen_nil in El. assert (zlen m = 0) by lia.
          by apply zlen_0 in H0 as ->. }
        rewrite Happ. eapply select_served; try done; [by left|]. unfold right_choice.
        rewrite decide_True; [done|]. rewrite Epre. by exists bytes.
      * rewrite Happ. apply IH; try done.
        -- exists m. by rewrite <- app_assoc.
        -- intros E. by rewrite E in El.
    + assert (Hno : forall x y, w ++ [v] ++ x = preface ++ y -> False).
      { intros x y Ex. rewrite Em, <- !app_assoc in Ex. apply app_inv_head in Ex. cbn in Ex. by injection Ex as ->. }
      rewrite Happ. eapply select_served; try done.
      * right. intros [x Ex]. apply (Hno x []). by rewrite app_nil_r, Ex, <- app_assoc.
      * unfold right_choice. rewrite decide_False; [done|]. intros [x Ex]. apply (Hno bytes x). by rewrite <- Ex, <- app_assoc.
Qed.

Lemma right_choice_ext preface first w : decided preface first -> first `prefix_of` w ->
  right_choice preface w = right_choice preface first.
Proof.
  intros Hd Hw. unfold right_choice. destruct (decide (preface `prefix_of` first)) as [Hf|Hf].
  - rewrite decide_True; [done|]. by etrans.
  - rewrite decide_False; [done|]. intros Hp. destruct Hd as [->|Hd]; [done|].
    destruct (prefix_weak_total _ _ _ Hp Hw); done.
Qed.

Lemma Feed_served preface w bytes s : served preface w s ->
  exists r, (Feed bytes s).1 = Ok r /\ served preface (w ++ bytes) (Feed bytes s).2.
Proof.
  intros [Hp Hs]. unfold Feed. destruct (selected_ s) as [[k h]|] eqn:Es.
  - destruct Hs as (Hk & Hpend & first & rest & -> & Hd & Hf & Hc). unfold session_feed. cbn [fst snd].
    destruct (answers k ((first :: rest) ++ [bytes])) as [r ->]. exists r. split; [done|]. split; [done|]. cbn [selected_ set_selected pending_].
    assert (Hf' : first `prefix_of` w ++ bytes) by by apply prefix_app_r.
    split_and!; [|done|].
    + by rewrite Hk, (right_choice_ext _ _ _ Hd Hf), (right_choice_ext _ _ _ Hd Hf').
    + exists first, (rest ++ [bytes]). split_and!; try done. intros r' Er Hr. specialize (Hc r' Er Hr).
      change ((first :: rest) ++ [bytes]) with (first :: rest ++ [bytes]) in *. rewrite <- Hc.
      change (first ++ concat (rest ++ [bytes]) = (first ++ concat rest) ++ bytes). rewrite concat_app, <- app_assoc. cbn. by rewrite app_nil_r.
  - destruct Hs as (Hw & Hpre & Hne). by apply Feed_loop_served.
Qed.

Lemma feed_all_served preface reads : forall w s, served preface w s ->
  exists rs s', feed_all reads s = (Ok rs, s') /\ served preface (w ++ concat reads) s'.
Proof.
  induction reads as [|r reads IH]; intros w s Hs; cbn [feed_all concat].
  - exists [], s. by rewrite app_nil_r.
  - destruct (Feed_served preface w r s Hs) as (x & Ex & Hs1). destruct (Feed r s) as [res s1]. cbn [fst snd] in *. subst res.
    destruct (IH _ _ Hs1) as (rs & s' & -> & Hs'). exists (x :: rs), s'. by rewrite app_assoc.
Qed.

(** The bootstrap is transparent: whatever the reads of a connection are, as long as their
    bytes are a proper beginning of the preface it keeps them; otherwise it has
    chosen, by the bytes alone and not by how they were cut into reads, the matching
    session if the bytes begin with the preface and the other one if not, and, unless
    the first answer of that session was a failure, the session got exactly the
    bytes of the connection, in order. *)
Theorem bootstrap_transparent preface s0 reads :
  PrefaceProtocolBootstrap_make preface true true = Ok s0 ->
  let w := concat reads in
  exists rs s, feed_all reads s0 = (Ok rs, s) /\
    match selected_ s with
    | None => pending_ s = w /\ w `prefix_of` preface /\ w <> preface
    | Some (k, h) =>
        (k = Match <-> preface `prefix_of` w) /\ ~ (w `prefix_of` preface /\ w <> preface) /\
        exists first rest, h = first :: rest /\
          forall r, answer k [first] = Ok r -> feed_status r = FeedReady -> concat h = w
    end.
Proof.
  intros Hm w. unfold PrefaceProtocolBootstrap_make in Hm. destruct (Z.eqb_spec (zlen preface) 0) as [|Hn]; [done|]. injection Hm as <-.
  destruct (feed_all_served preface reads [] (mkBootstrap preface [] None)) as (rs & s & E & Hp & Hs).
  { split; [done|]. split_and!; [done|apply prefix_nil|]. cbn. intros <-. done. }
  exists rs, s. split; [done|]. cbn [app] in Hs. fold w in Hs. destruct (selected_ s) as [[k h]|]; [|done].
  destruct Hs as (Hk & _ & first & rest & Eh & Hd & Hf & Hc). split_and!; [| |by exists first, rest].
  - rewrite Hk. unfold right_choice. by destruct (decide _).
  - intros [Hw1 Hw2]. destruct Hd as [->|Hd].
    + apply Hw2. by apply (anti_symm prefix).
    + apply Hd. by etrans.
Qed.
End bootstrap.

(** ** Examples *)

Definition sample_sessions : Sessions :=
  {| make := fun _ => Ok true; answer := fun _ h => Ok (mkFeedResult FeedReady 1 (zlen (concat h))) |}.

Lemma bootstrap_transparent_witness : exists s0 rs s, PrefaceProtocolBootstrap_make $"PRI * " true true = Ok s0 /\
  @feed_all sample_sessions [$"PR"; $"I"; $"X more"; $"!"] s0 = (Ok rs, s) /\
  selected_ s = Some (Fallback, [$"PRIX"; $" more"; $"!"]).
Proof.
  destruct (@bootstrap_transparent sample_sessions (fun _ => eq_refl) (fun _ _ => ex_intro _ _ eq_refl)
    $"PRI * " (mkBootstrap $"PRI * " [] None) [$"PR"; $"I"; $"X more"; $"!"] eq_refl) as (rs & s & H & _).
  exists (mkBootstrap $"PRI * " [] None), rs, s. split; [reflexivity|]. split; [exact H|].
  vm_compute in H. injection H as <- <-. reflexivity.
Defined.

(** After a factory that threw, the byte that did not match is forgotten: the next reads can
    complete the preface although the connection did not begin with it. *)
Lemma bootstrap_failed_factory_mismatch :
  let failing := {| make := fun k => if decide (k = Fallback) then Throw runtime_error else Ok true;
                    answer := fun _ _ => Ok (mkFeedResult FeedReady 0 0) |} in
  let s := mkBootstrap $"PRI" [] None in
  (@Feed failing $"X" s).1 = Throw runtime_error /\
  selected_ (@Feed failing $"RI" (@Feed failing $"X" s).2).2 = Some (Match, [$"XRI"]).
Proof. vm_compute. done. Qed.
