(* ===== verification/TimerService.v ===== *)
(** * The timer service

    [TimerService] of [timer_service.h] and [timer_service.cpp]: callbacks that one
    worker runs when their deadline has passed.

    The heap of the standard library is a list of which only the front is specified:
    [pops] says that an entry with the earliest deadline is taken, any of them if
    there are several.  Time is the value of the clock, a signed 64-bit number of nanoseconds;
    it is an argument of the calls that read the clock, and durations are in milliseconds.  A
    callback is a number. *)

From S2P Require Import Prelude.

Record Entry := mkEntry {
  deadline : Z;
  entry_id : Z;
  callback : option Z;
}.

(** [worker_] is what the worker is doing; [WorkerGone] when [Run] has returned. *)
Inductive Worker := WorkerWaiting | WorkerCalling (id : Z) | WorkerGone.

#[export] Instance Worker_eq_dec : EqDecision Worker.
Proof. solve_decision. Defined.

Inductive Event :=
  | Scheduled (id deadline callback : Z)
  | CancelledTimer (id : Z)
  | Ran (id callback now : Z).

Record TimerService := mkTimerService {
  heap_ : list Entry;
  next_id_ : Z;
  stopped_ : bool;
  worker_ : Worker;
  log : list Event;
}.

Definition TimerService_make : TimerService := mkTimerService [] 1 false WorkerWaiting [].

(** Milliseconds as nanoseconds *)
Abbreviation ms n := (n * 1000000).

Definition clock_range (t : Z) : bool := (- 2 ^ 63 <=? t) && (t <? 2 ^ 63).

(** The duration is converted to nanoseconds and added to the time of the clock, in signed arithmetic. *)
Definition Schedule (now duration : Z) (cb : option Z) (s : TimerService) : result (Z * TimerService) :=
  match cb with
  | None => Throw invalid_argument
  | Some f =>
      let deadline := now + ms duration in
      if negb (clock_range (ms duration) && clock_range deadline) then Throw UndefinedShift
      else
        let id := next_id_ s in
        Ok (id, mkTimerService (heap_ s ++ [mkEntry deadline id (Some f)]) (u64 (id + 1)) (stopped_ s) (worker_ s)
                  (log s ++ [Scheduled id deadline f]))
  end.

(** The loop of [Cancel]: the heap with the entry emptied, if there is one. *)
Fixpoint cancel_entry (id : Z) (h : list Entry) : option (list Entry) :=
  match h with
  | [] => None
  | e :: h =>
      if entry_id e =? id then Some (mkEntry (deadline e) (entry_id e) None :: h)
      else match cancel_entry id h with Some h' => Some (e :: h') | None => None end
  end.

Definition Cancel (id : Z) (s : TimerService) : bool * TimerService :=
  match cancel_entry id (heap_ s) with
  | Some h => (true, mkTimerService h (next_id_ s) (stopped_ s) (worker_ s) (log s ++ [CancelledTimer id]))
  | None => (false, s)
  end.

Definition Reschedule (id now duration : Z) (cb : option Z) (s : TimerService) : result (Z * TimerService) :=
  Schedule now duration cb (Cancel id s).2.

(** [Stop] up to the join: whether this call is the one that stops. *)
Definition Stop_begin (s : TimerService) : bool * TimerService :=
  if stopped_ s then (false, s)
  else (true, mkTimerService (heap_ s) (next_id_ s) true (worker_ s) (log s)).

(** The rest of [Stop], after the join. *)
Definition Stop_end (s : TimerService) : TimerService := mkTimerService [] (next_id_ s) (stopped_ s) (worker_ s) (log s).

Definition ActiveCount (s : TimerService) : Z := zlen (heap_ s).

(** [pop_heap] and [pop_back] *)
Definition pops (e : Entry) (h h' : list Entry) : Prop := h ≡ₚ e :: h' /\ Forall (fun x => deadline e <= deadline x) h'.

(** An iteration of [Run] at a time: the worker returns, waits, drops a cancelled entry or
    calls a callback.  The entry at the front of the heap is an argument. *)
Definition Run_iteration (now : Z) (front : option (Entry * list Entry)) (s : TimerService) : option TimerService :=
  if stopped_ s then Some (mkTimerService (heap_ s) (next_id_ s) (stopped_ s) WorkerGone (log s))
  else
    match front with
    | None => None
    | Some (e, h) =>
        if now <? deadline e then None
        else
          match callback e with
          | None => Some (mkTimerService h (next_id_ s) (stopped_ s) WorkerWaiting (log s))
          | Some f =>
              Some (mkTimerService h (next_id_ s) (stopped_ s) (WorkerCalling (entry_id e)) (log s ++ [Ran (entry_id e) f now]))
          end
    end.

(** The callback has returned, or has thrown, which is swallowed. *)
Definition Run_called (s : TimerService) : TimerService :=
  mkTimerService (heap_ s) (next_id_ s) (stopped_ s) WorkerWaiting (log s).

(** ** Steps *)

Inductive label :=
  | DoSchedule (now duration callback : Z)
  | DoCancel (id : Z)
  | DoStopBegin
  | DoStopEnd
  | DoRun (now : Z)
  | DoCalled.

Inductive timer_step : TimerService -> label -> TimerService -> Prop :=
  | step_schedule s now duration f id s' : Schedule now duration (Some f) s = Ok (id, s') -> next_id_ s + 1 < 2 ^ 64 ->
      timer_step s (DoSchedule now duration f) s'
  | step_cancel s id b s' : Cancel id s = (b, s') -> timer_step s (DoCancel id) s'
  | step_stop_begin s b s' : Stop_begin s = (b, s') -> timer_step s DoStopBegin s'
  | step_stop_end s : stopped_ s = true -> worker_ s = WorkerGone -> timer_step s DoStopEnd (Stop_end s)
  | step_run s now front s' : worker_ s = WorkerWaiting ->
      match front with None => heap_ s = [] | Some (e, h) => pops e (heap_ s) h end ->
      Run_iteration now front s = Some s' -> timer_step s (DoRun now) s'
  | step_called s id : worker_ s = WorkerCalling id -> timer_step s DoCalled (Run_called s).

Inductive timer_reachable : TimerService -> Prop :=
  | timer_initial : timer_reachable TimerService_make
  | timer_next s l s' : timer_reachable s -> timer_step s l s' -> timer_reachable s'.

(** ** The invariant *)

Definition ids (h : list Entry) : list Z := map entry_id h.
Definition ran_ids (l : list Event) : list Z := omap (fun e => match e with Ran id _ _ => Some id | _ => None end) l.

Record tinv (s : TimerService) : Prop := {
  ti_next : 1 <= next_id_ s < 2 ^ 64;
  ti_heap_ids : NoDup (ids (heap_ s));
  ti_heap_old : Forall (fun e => 1 <= entry_id e < next_id_ s) (heap_ s);
  ti_heap_scheduled : forall e f, e ∈ heap_ s -> callback e = Some f -> Scheduled (entry_id e) (deadline e) f ∈ log s;
  ti_heap_live : forall e f, e ∈ heap_ s -> callback e = Some f -> CancelledTimer (entry_id e) ∉ log s;
  ti_ran_once : NoDup (ran_ids (log s));
  ti_ran_gone : forall id, id ∈ ran_ids (log s) -> (id ∉ ids (heap_ s)) /\ id < next_id_ s;
  ti_ran_due : forall id f now, Ran id f now ∈ log s -> exists d, Scheduled id d f ∈ log s /\ d <= now;
  ti_cancelled : forall id, CancelledTimer id ∈ log s -> (id ∉ ran_ids (log s)) /\ id < next_id_ s;
  ti_scheduled : forall id d f, Scheduled id d f ∈ log s -> id < next_id_ s;
}.

Lemma ran_app l k : ran_ids (l ++ k) = ran_ids l ++ ran_ids k.
Proof. apply omap_app. Qed.

Lemma Schedule_Ok now duration f s id s' : Schedule now duration (Some f) s = Ok (id, s') ->
  id = next_id_ s /\
  s' = mkTimerService (heap_ s ++ [mkEntry (now + ms duration) (next_id_ s) (Some f)]) (u64 (next_id_ s + 1)) (stopped_ s) (worker_ s)
         (log s ++ [Scheduled (next_id_ s) (now + ms duration) f]).
Proof. unfold Schedule. destruct (negb _); [done|]. by intros [= <- <-]. Qed.

Lemma tinv_schedule s now duration f id s' : tinv s -> Schedule now duration (Some f) s = Ok (id, s') ->
  next_id_ s + 1 < 2 ^ 64 -> tinv s'.
Proof.
  intros [H1 H2 H3 H4 H5 H6 H7 H8 H9 H10] E Hn. apply Schedule_Ok in E as [-> ->].
  assert (Hold : forall x, x ∈ ids (heap_ s) -> x < next_id_ s).
  { intros x (e & -> & He)%list_elem_of_fmap. rewrite Forall_forall in H3. by apply H3. }
  split; cbn [heap_ next_id_ stopped_ worker_ log]; rewrite ?ran_app; cbn [ran_ids omap list_omap]; rewrite ?app_nil_r, ?u64_small by lia; try done.
  - lia.
  - unfold ids. rewrite map_app. apply NoDup_app. split_and!; [done| |apply NoDup_singleton].
    intros x Hx Hy%list_elem_of_singleton. specialize (Hold x Hx). cbn in Hy. lia.
  - apply Forall_app. split; [eapply Forall_impl; [done|cbn; lia]|]. constructor; [cbn; lia|done].
  - intros e g [He| ->%list_elem_of_singleton]%elem_of_app Hc; apply elem_of_app; [left; by eapply H4|].
    right. cbn in *. injection Hc as ->. by left.
  - intros e g [He| ->%list_elem_of_singleton]%elem_of_app Hc; rewrite not_elem_of_app; (split; [|set_solver]); [by eapply H5|].
    cbn. intros Hx. destruct (H9 _ Hx). lia.
  - intros x Hx. destruct (H7 x Hx) as [Hy Hz]. split; [|lia]. unfold ids. rewrite map_app, not_elem_of_app. split; [done|].
    cbn. intros Hx'%list_elem_of_singleton. lia.
  - intros x g n [Hx|Hx]%elem_of_app; [|set_solver]. destruct (H8 x g n Hx) as (d & Hd & ?). exists d. split; [set_solver|done].
  - intros x [Hx|Hx]%elem_of_app; [|set_solver]. destruct (H9 x Hx). split; [done|lia].
  - intros x d g [Hx|Hx]%elem_of_app; [specialize (H10 _ _ _ Hx); lia|]. apply list_elem_of_singleton in Hx. injection Hx as -> -> ->. lia.
Qed.

Lemma cancel_entry_spec id h h' : cancel_entry id h = Some h' -> ids h' = ids h /\ id ∈ ids h /\
  (forall e, e ∈ h' -> exists e0, e0 ∈ h /\ entry_id e0 = entry_id e /\ deadline e0 = deadline e /\
     (callback e = None \/ (e = e0 /\ (NoDup (ids h) -> entry_id e <> id)))).
Proof.
  revert h'. induction h as [|e h IH]; intros h' E; [done|]. cbn in E. destruct (Z.eqb_spec (entry_id e) id) as [Ei|Ei].
  - injection E as <-. split_and!; [done|apply elem_of_cons; left; by symmetry|]. intros x [->|Hx]%elem_of_cons.
    + exists e. split_and!; [by left|done|done|by left].
    + exists x. split_and!; [by right|done|done|]. right. split; [done|]. intros [Hn _]%NoDup_cons Hx'. apply Hn.
      rewrite Ei, <- Hx'. by apply (list_elem_of_fmap_2 entry_id).
  - destruct (cancel_entry id h) as [k|] eqn:Ek; [|done]. injection E as <-. destruct (IH k eq_refl) as (I1 & I2 & I3).
    split_and!; [cbn; unfold ids in *; by rewrite I1|by right|]. intros x [->|Hx]%elem_of_cons.
    + exists e. split_and!; [by left|done|done|]. by right.
    + destruct (I3 x Hx) as (e0 & J1 & J2 & J3 & J4). exists e0. split_and!; [by right|done|done|].
      destruct J4 as [?|[-> J4]]; [by left|]. right. split; [done|]. intros [_ Hn]%NoDup_cons. by apply J4.
Qed.

Lemma tinv_cancel s id b s' : tinv s -> Cancel id s = (b, s') -> tinv s'.
Proof.
  intros Hs E. unfold Cancel in E. destruct (cancel_entry id (heap_ s)) as [h|] eqn:Ec; injection E as <- <-; [|done].
  destruct (cancel_entry_spec _ _ _ Ec) as (C1 & C2 & C3). destruct Hs as [H1 H2 H3 H4 H5 H6 H7 H8 H9 H10].
  assert (Hold : id < next_id_ s).
  { apply list_elem_of_fmap in C2 as (e & -> & He). rewrite Forall_forall in H3. by apply H3. }
  split; cbn [heap_ next_id_ stopped_ worker_ log]; rewrite ?ran_app, ?C1; cbn [ran_ids omap list_omap]; rewrite ?app_nil_r; try done.
  - apply Forall_forall. intros e He. destruct (C3 e He) as (e0 & J1 & J2 & _). rewrite Forall_forall in H3. rewrite <- J2. by apply H3.
  - intros e f He Hc. destruct (C3 e He) as (e0 & J1 & _ & _ & [J|[-> _]]); [congruence|]. apply elem_of_app. left. by eapply H4.
  - intros e f He Hc. destruct (C3 e He) as (e0 & J1 & _ & _ & [J|[-> J]]); [congruence|]. rewrite not_elem_of_app.
    split; [by eapply H5|]. rewrite list_elem_of_singleton. intros [= Hx]. by apply (J H2).
  - intros x f n [Hx|Hx]%elem_of_app; [|set_solver]. destruct (H8 x f n Hx) as (d & Hd & ?). exists d. split; [set_solver|done].
  - intros x [Hx|Hx%list_elem_of_singleton]%elem_of_app; [by apply H9|]. injection Hx as ->. split; [|done].
    intros Hr. by destruct (H7 _ Hr).
  - intros x d f [Hx|Hx]%elem_of_app; [by eapply H10|set_solver].
Qed.

(** The front entry leaves the heap. *)
Lemma tinv_pop s e h : tinv s -> pops e (heap_ s) h ->
  tinv (mkTimerService h (next_id_ s) (stopped_ s) WorkerWaiting (log s)) /\ (entry_id e ∉ ids h) /\
  1 <= entry_id e < next_id_ s /\ e ∈ heap_ s.
Proof.
  intros [H1 H2 H3 H4 H5 H6 H7 H8 H9 H10] [Hp _]. pose proof (Permutation_map entry_id Hp) as Hi. cbn in Hi.
  assert (Hin : e ∈ heap_ s) by (rewrite Hp; by left).
  unfold ids in *. rewrite Hi in H2. apply NoDup_cons in H2 as [N1 N2].
  assert (Hsub : forall x, x ∈ h -> x ∈ heap_ s) by (intros x Hx; rewrite Hp; by right).
  split; [|split; [done|split; [rewrite Forall_forall in H3; by apply H3|done]]].
  split; cbn [heap_ next_id_ stopped_ worker_ log]; try done.
  - rewrite Forall_forall in *. intros x Hx. by apply H3, Hsub.
  - intros x f Hx. by apply H4, Hsub.
  - intros x f Hx. by apply H5, Hsub.
  - intros id Hid. destruct (H7 id Hid) as [Hn ?]. split; [|done]. intros Hx. apply Hn. unfold ids. rewrite Hi. by right.
Qed.

Lemma tinv_run s now front s' : tinv s ->
  match front with None => heap_ s = [] | Some (e, h) => pops e (heap_ s) h end ->
  Run_iteration now front s = Some s' -> tinv s'.
Proof.
  intros Hs Hf E. unfold Run_iteration in E. destruct (stopped_ s) eqn:Est; [injection E as <-; by destruct Hs|].
  destruct front as [[e h]|]; [|done]. destruct (Z.ltb_spec now (deadline e)) as [|Hd]; [done|].
  destruct (tinv_pop s e h Hs Hf) as (Hs' & Hni & Hold & Hin). destruct (callback e) as [f|] eqn:Ec; injection E as <-; [|by rewrite Est in Hs'].
  destruct (Hs) as [_ _ _ S4 S5 _ S7 _ _ _]. pose proof (S4 e f Hin Ec) as Hsch. pose proof (S5 e f Hin Ec) as Hlive.
  destruct Hs' as [H1 H2 H3 H4 H5 H6 H7 H8 H9 H10]. cbn [heap_ next_id_ stopped_ worker_ log] in *.
  assert (Hnr : entry_id e ∉ ran_ids (log s)).
  { intros Hr. destruct (S7 _ Hr) as [Hx _]. apply Hx. by apply (list_elem_of_fmap_2 entry_id). }
  split; cbn [heap_ next_id_ stopped_ worker_ log]; rewrite ?ran_app; try done.
  - intros x g Hx Hc. apply elem_of_app. left. by eapply H4.
  - intros x g Hx Hc. rewrite not_elem_of_app. split; [by eapply H5|set_solver].
  - apply NoDup_app. split_and!; [done| |apply NoDup_singleton]. intros x Hx Hy%list_elem_of_singleton. cbn in Hy. by subst.
  - intros x [Hx|Hx%list_elem_of_singleton]%elem_of_app; [by apply H7|]. cbn in Hx. subst x. split; [done|lia].
  - intros x g n [Hx|Hx%list_elem_of_singleton]%elem_of_app.
    + destruct (H8 x g n Hx) as (d & Hx1 & Hx2). exists d. split; [set_solver|done].
    + injection Hx as -> -> ->. exists (deadline e). split; [set_solver|lia].
  - intros x [Hx|Hx]%elem_of_app; [|set_solver]. destruct (H9 x Hx) as [Hn ?]. split; [|done]. rewrite not_elem_of_app. split; [done|].
    cbn. intros ->%list_elem_of_singleton. by apply Hlive.
  - intros x d g [Hx|Hx]%elem_of_app; [by eapply H10|set_solver].
Qed.

Lemma timer_step_tinv s l s' : tinv s -> timer_step s l s' -> tinv s'.
Proof.
  intros Hs Hst. destruct Hst as [s now duration f id s' E Hn|s id b s' E|s b s' E|s Hst Hw|s now front s' Hw Hf E|s id Hw].
  - by eapply tinv_schedule.
  - by eapply tinv_cancel.
  - unfold Stop_begin in E. destruct (stopped_ s); injection E as <- <-; [done|]. by destruct Hs.
  - destruct Hs as [H1 H2 H3 H4 H5 H6 H7 H8 H9 H10]. split; cbn; try done; try (by intros ? ? ?%not_elem_of_nil); [by constructor|].
    intros id Hid. split; [apply not_elem_of_nil|by apply H7].
  - by eapply tinv_run.
  - by destruct Hs.
Qed.

Lemma timer_tinv s : timer_reachable s -> tinv s.
Proof.
  induction 1 as [|s l s' _ IH Hst]; [|by eapply timer_step_tinv].
  split; cbn; try lia; try (by constructor); intros; set_solver.
Qed.

(** ** Safety *)

Definition timer_advances (s s' : TimerService) : Prop := exists l, timer_step s l s'.

Lemma timer_reachable_advances s s' : timer_reachable s -> rtc timer_advances s s' -> timer_reachable s'.
Proof. intros Hs. induction 1 as [|s t s' [l Hl] _ IH]; [done|]. apply IH. by eapply timer_next. Qed.

Lemma Run_iteration_log now front s s' : Run_iteration now front s = Some s' -> exists k, log s' = log s ++ k.
Proof.
  unfold Run_iteration. intros E. destruct (stopped_ s); [injection E as <-; exists []; by rewrite app_nil_r|].
  destruct front as [[e h]|]; [|done]. destruct (now <? deadline e); [done|].
  destruct (callback e); injection E as <-; cbn; [by eexists|]. exists []. by rewrite app_nil_r.
Qed.

Lemma timer_log_grows s s' : rtc timer_advances s s' -> log s `prefix_of` log s'.
Proof.
  induction 1 as [|s t s' [l Hl] _ IH]; [done|]. etrans; [|done]. clear IH s'.
  destruct Hl as [s now duration f id s' E _|s id b s' E|s b s' E|s _ _|s now front s' _ _ E|s id _].
  - apply Schedule_Ok in E as [-> ->]. by eexists.
  - unfold Cancel in E. destruct (cancel_entry id (heap_ s)); injection E as <- <-; [by eexists|done].
  - unfold Stop_begin in E. by destruct (stopped_ s); injection E as <- <-.
  - done.
  - destruct (Run_iteration_log _ _ _ _ E) as [k ->]. by eexists.
  - done.
Qed.

Lemma timer_gone_quiet s s' : worker_ s = WorkerGone -> rtc timer_advances s s' -> ran_ids (log s') = ran_ids (log s).
Proof.
  intros Hw. induction 1 as [|s t s' [l Hl] _ IH]; [done|]. cut (worker_ t = WorkerGone /\ ran_ids (log t) = ran_ids (log s)).
  { intros [Ht <-]. by apply IH. }
  clear IH s'. destruct Hl as [s now duration f id s' E _|s id b s' E|s b s' E|s _ _|s now front s' ? _ E|s id ?]; try congruence.
  - apply Schedule_Ok in E as [-> ->]. cbn. rewrite ran_app. cbn. by rewrite app_nil_r.
  - unfold Cancel in E. destruct (cancel_entry id (heap_ s)); injection E as <- <-; [|done]. cbn. rewrite ran_app. cbn. by rewrite app_nil_r.
  - unfold Stop_begin in E. by destruct (stopped_ s); injection E as <- <-.
  - done.
Qed.

(** C24. The timer service is safe.  In every state that calls of [Schedule], [Cancel],
    [Reschedule], [Stop] and iterations of the worker reach, in any interleaving and at any
    times: no timer has run twice; a callback that has run was scheduled under that id, and
    ran no earlier than its deadline; after [Cancel] has returned true the timer never runs;
    and after the worker has left, which is what [Stop] waits for, nothing runs.  (A deadline
    out of the range of the clock, 292 years, is undefined in C++ and no step.) *)
Theorem timer_service_safe s : timer_reachable s ->
  NoDup (ran_ids (log s)) /\
  (forall id f now, Ran id f now ∈ log s -> exists d, Scheduled id d f ∈ log s /\ d <= now) /\
  (forall id t s', Cancel id s = (true, t) -> rtc timer_advances t s' -> id ∉ ran_ids (log s')) /\
  (forall s', worker_ s = WorkerGone -> rtc timer_advances s s' -> ran_ids (log s') = ran_ids (log s)).
Proof.
  intros Hs. pose proof (timer_tinv s Hs) as I. split_and!; [apply I|apply I| |].
  - intros id t s' E Hr.
    assert (Ht : timer_reachable t) by (eapply timer_next; [done|by apply (step_cancel s id true)]).
    apply (ti_cancelled s' (timer_tinv s' (timer_reachable_advances _ _ Ht Hr))).
    eapply elem_of_prefix; [|by apply timer_log_grows]. unfold Cancel in E.
    destruct (cancel_entry id (heap_ s)); [|done]. injection E as <-. set_solver.
  - intros s'. apply timer_gone_quiet.
Qed.

(** ** Progress *)

(** The worker alone, at a time *)
Definition worker_step (now : Z) (s s' : TimerService) : Prop := timer_step s (DoRun now) s' \/ timer_step s DoCalled s'.

(** An entry with the earliest deadline can be popped off a heap that is not empty. *)
Lemma pops_exists (h : list Entry) : h <> [] -> exists e h', pops e h h'.
Proof.
  induction h as [|e h IH]; intros Hne; [done|]. destruct h as [|e1 h1]; [exists e, []; split; [done|constructor]|].
  destruct IH as (m & k & Hp & Hm); [done|]. destruct (Z.leb_spec (deadline e) (deadline m)) as [Hle|Hlt].
  - exists e, (e1 :: h1). split; [done|]. rewrite Hp. constructor; [done|]. eapply Forall_impl; [exact Hm|cbn; lia].
  - exists m, (e :: k). split; [rewrite Hp; apply Permutation_swap|]. constructor; [lia|done].
Qed.

(** How many steps the worker can take before it waits. *)
Definition worker_work (s : TimerService) : nat :=
  2 * length (heap_ s) + match worker_ s with WorkerCalling _ => 1 | _ => 0 end.

(** The entry waits for its time, or its callback was called at [now]. *)
Definition waits_or_ran (now : Z) (e : Entry) (f : Z) (s : TimerService) : Prop :=
  stopped_ s = false /\ worker_ s <> WorkerGone /\ (e ∈ heap_ s \/ Ran (entry_id e) f now ∈ log s).

Lemma waits_or_ran_step now e f s s' : callback e = Some f -> waits_or_ran now e f s -> worker_step now s s' ->
  waits_or_ran now e f s' /\ (worker_work s' < worker_work s)%nat.
Proof.
  intros Hc (Hns & Hng & He) [Hst|Hst]; inversion Hst as [| | | |x n front y Hw Hf E|x id Hw]; subst; unfold worker_work.
  - unfold Run_iteration in E. rewrite Hns in E. destruct front as [[e0 h]|]; [|done].
    destruct (now <? deadline e0); [done|]. destruct Hf as [Hp _]. pose proof (Permutation_length Hp) as Hlen. cbn in Hlen.
    destruct (callback e0) as [g|] eqn:Eg; injection E as <-; (split; [split_and!; try done|cbn; lia]); cbn [heap_ log].
    + destruct He as [He|He]; [|right; set_solver]. rewrite Hp in He. apply elem_of_cons in He as [->|He]; [right|by left].
      assert (f = g) as -> by congruence. set_solver.
    + destruct He as [He|He]; [|by right]. rewrite Hp in He. apply elem_of_cons in He as [->|He]; [congruence|by left].
  - split; [split_and!; done|]. cbn. rewrite Hw. lia.
Qed.

Lemma waits_or_ran_steps now e f s k s' : callback e = Some f -> waits_or_ran now e f s -> nsteps (worker_step now) k s s' ->
  waits_or_ran now e f s' /\ (worker_work s' + k <= worker_work s)%nat.
Proof.
  intros Hc Hs Hk. revert Hs. induction Hk as [s|k s t s' Hst _ IH]; intros Hs; [split; [done|lia]|].
  destruct (waits_or_ran_step now e f s t Hc Hs Hst) as [Ht ?]. destruct (IH Ht). split; [done|lia].
Qed.

(** Due timers run.  Take a live timer in the heap of a service that is not stopped, and a
    time [now] that is not before its deadline.  The worker on its own takes at most two steps
    per entry of the heap, and as long as the callback of the timer has not been called it can
    take another one: so it calls the callback, whatever the other entries are and in
    whichever order entries with one deadline are taken. *)
Theorem timer_due_runs s now e f k s' :
  stopped_ s = false -> worker_ s <> WorkerGone ->
  e ∈ heap_ s -> callback e = Some f -> deadline e <= now ->
  nsteps (worker_step now) k s s' ->
  (k <= 2 * length (heap_ s) + 1)%nat /\
  (Ran (entry_id e) f now ∈ log s' \/ exists s'', worker_step now s' s'').
Proof.
  intros Hns Hng He Hc Hd Hk.
  assert (Hs : waits_or_ran now e f s) by (split; [done|split; [done|by left]]).
  destruct (waits_or_ran_steps now e f s k s' Hc Hs Hk) as [(Hns' & Hng' & [Hw|Hr]) Hle].
  - split; [unfold worker_work in Hle; destruct (worker_ s); lia|]. right. destruct (worker_ s') as [|id|] eqn:Ew; [| |done].
    + destruct (pops_exists (heap_ s')) as (m & h & Hp); [by intros E; rewrite E in Hw; apply not_elem_of_nil in Hw|].
      assert (Hm : deadline m <= deadline e).
      { destruct Hp as [Hp Hmin]. rewrite Hp in Hw. apply elem_of_cons in Hw as [->|Hw]; [lia|].
        rewrite Forall_forall in Hmin. by apply Hmin. }
      destruct (Run_iteration now (Some (m, h)) s') as [s''|] eqn:E.
      * exists s''. left. by apply (step_run s' now (Some (m, h))).
      * unfold Run_iteration in E. rewrite Hns' in E. destruct (Z.ltb_spec now (deadline m)); [lia|]. by destruct (callback m).
    + exists (Run_called s'). right. by apply (step_called s' id).
  - split; [unfold worker_work in Hle; destruct (worker_ s); lia|by left].
Qed.

(** ** A run *)

(** Three timers; the second is cancelled, the clock passes the deadlines of the first two. *)
Definition sample_timers : TimerService :=
  mkTimerService [mkEntry (ms 30) 1 (Some 11); mkEntry (ms 20) 2 None; mkEntry (ms 90) 3 (Some 33)] 4 false WorkerWaiting
    [Scheduled 1 (ms 30) 11; Scheduled 2 (ms 20) 22; Scheduled 3 (ms 90) 33; CancelledTimer 2].

Definition sample_heap : list Entry := [mkEntry (ms 30) 1 (Some 11); mkEntry (ms 20) 2 (Some 22); mkEntry (ms 90) 3 (Some 33)].
Definition sample_log : list Event := [Scheduled 1 (ms 30) 11; Scheduled 2 (ms 20) 22; Scheduled 3 (ms 90) 33].
Definition sample_scheduled (n : nat) : TimerService :=
  mkTimerService (take n sample_heap) (Z.of_nat n + 1) false WorkerWaiting (take n sample_log).

Lemma sample_timers_reachable : timer_reachable sample_timers.
Proof.
  apply (timer_next (sample_scheduled 3) (DoCancel 2)); [|by apply (step_cancel _ 2 true)].
  apply (timer_next (sample_scheduled 2) (DoSchedule (ms 10) 80 33)); [|by apply (step_schedule _ (ms 10) 80 33 3)].
  apply (timer_next (sample_scheduled 1) (DoSchedule (ms 10) 10 22)); [|by apply (step_schedule _ (ms 10) 10 22 2)].
  apply (timer_next (sample_scheduled 0) (DoSchedule (ms 10) 20 11)); [|by apply (step_schedule _ (ms 10) 20 11 1)].
  apply timer_initial.
Qed.

Lemma timer_service_safe_witness : NoDup (ran_ids (log sample_timers)) /\
  (forall s', rtc timer_advances (Cancel 1 sample_timers).2 s' -> 1 ∉ ran_ids (log s')).
Proof.
  destruct (timer_service_safe sample_timers sample_timers_reachable) as (H1 & _ & H3 & _).
  split; [exact H1|]. intros s'. apply (H3 1). reflexivity.
Defined.

Definition sample_dropped : TimerService :=
  mkTimerService [mkEntry (ms 30) 1 (Some 11); mkEntry (ms 90) 3 (Some 33)] 4 false WorkerWaiting (log sample_timers).

Lemma sample_timers_run : nsteps (worker_step (ms 40)) 1 sample_timers sample_dropped.
Proof.
  eapply nsteps_l; [|constructor]. left.
  apply (step_run sample_timers (ms 40) (Some (mkEntry (ms 20) 2 None, heap_ sample_dropped))); [done| |done].
  split; [apply Permutation_swap|]. repeat constructor; cbn; lia.
Qed.

Lemma timer_due_runs_witness : Ran 1 11 (ms 40) ∈ log sample_dropped \/ exists s, worker_step (ms 40) sample_dropped s.
Proof.
  destruct (timer_due_runs sample_timers (ms 40) (mkEntry (ms 30) 1 (Some 11)) 11 1 sample_dropped) as [_ H];
    [reflexivity|discriminate|left|reflexivity|cbn; lia|exact sample_timers_run|exact H].
Defined.

(** ** Cancelled entries *)

(** A second [Cancel] of a timer succeeds as well, as long as the entry is in the heap. *)
Lemma cancel_succeeds_twice : let s := (Cancel 2 sample_timers).2 in
  (Cancel 2 sample_timers).1 = true /\ (Cancel 2 s).1 = true.
Proof. by split. Qed.

(** [ActiveCount] counts timers that were cancelled. *)
Lemma active_count_counts_cancelled : ActiveCount sample_timers = 3.
Proof. reflexivity. Qed.

(** A timer that is rescheduled again and again leaves an entry per call behind, until the
    deadlines pass. *)
Lemma reschedule_keeps_entries id now duration f s i s' : Reschedule id now duration (Some f) s = Ok (i, s') ->
  ActiveCount s' = ActiveCount s + 1.
Proof.
  unfold Reschedule, Cancel, ActiveCount. intros E. destruct (cancel_entry id (heap_ s)) as [h|] eqn:Eh; apply Schedule_Ok in E as [-> ->]; cbn [heap_].
  - destruct (cancel_entry_spec _ _ _ Eh) as [Hi _]. unfold ids in Hi.
    assert (length h = length (heap_ s)) by (by rewrite <- (length_map entry_id h), Hi, length_map).
    unfold zlen. rewrite length_app. cbn. lia.
  - unfold zlen. rewrite length_app. cbn. lia.
Qed.
