(* ===== verification/TcpListener.v ===== *)
(** * The TCP listener

    [TcpListener] of [tcp_listener.h] and [tcp_listener.cpp]: a listen socket that keeps one
    [AcceptEx] registered and hands every accepted connection to a handler.

    A step is one critical section, or one call between two of them.  The answers of the
    socket functions are arguments.  An operation ([AcceptOperation]) is an element of [ops]
    with how far it has come; its number is not in the code.  [delivered] collects the
    numbers of the operations whose socket was given to the handler. *)

From S2P Require Import Prelude.

Record ListenerOptions := mkListenerOptions {
  address : list byte;
  port : Z;
  backlog : Z;
  exclusive_address_use : bool;
  reuse_address : bool;
}.

Definition SOMAXCONN : Z := 0x7fffffff.

Definition ListenerOptions_default : ListenerOptions := mkListenerOptions $"127.0.0.1" 0 SOMAXCONN true false.

Inductive ListenerState := Running | Stopping | Stopped.

#[export] Instance ListenerState_eq_dec : EqDecision ListenerState.
Proof. solve_decision. Defined.

Record ListenerSnapshot := mkListenerSnapshot {
  snapshot_state : ListenerState;
  snapshot_outstanding_accepts : Z;
  snapshot_accepted_connections : Z;
  snapshot_accept_errors : Z;
  snapshot_local_port : Z;
}.

(** [listen_socket_] says whether the handle is open. *)
Record TcpListener := mkListener {
  listen_socket_ : bool;
  state_ : ListenerState;
  outstanding_accepts_ : Z;
  accepted_connections_ : Z;
  accept_errors_ : Z;
  local_port_ : Z;
}.

Definition set_outstanding (n : Z) (s : TcpListener) : TcpListener :=
  mkListener (listen_socket_ s) (state_ s) n (accepted_connections_ s) (accept_errors_ s) (local_port_ s).
Definition set_state (x : ListenerState) (s : TcpListener) : TcpListener :=
  mkListener (listen_socket_ s) x (outstanding_accepts_ s) (accepted_connections_ s) (accept_errors_ s) (local_port_ s).
Definition set_accepted (n : Z) (s : TcpListener) : TcpListener :=
  mkListener (listen_socket_ s) (state_ s) (outstanding_accepts_ s) n (accept_errors_ s) (local_port_ s).
Definition set_errors (n : Z) (s : TcpListener) : TcpListener :=
  mkListener (listen_socket_ s) (state_ s) (outstanding_accepts_ s) (accepted_connections_ s) n (local_port_ s).
(** [listen_socket_.Reset()] *)
Definition reset_socket (s : TcpListener) : TcpListener :=
  mkListener false (state_ s) (outstanding_accepts_ s) (accepted_connections_ s) (accept_errors_ s) (local_port_ s).

(** ** Construction *)

(** Which calls of the constructor succeed, the port that was bound and the answer of
    [IoContext::Associate]. *)
Record CreateAnswers := mkCreateAnswers {
  answer_socket : bool;
  answer_reuse : bool;
  answer_exclusive : bool;
  answer_address : bool;
  answer_bind : bool;
  answer_listen : bool;
  answer_getsockname : option Z;
  answer_ioctl : bool;
  answer_associate : result unit;
}.

Definition TcpListener_make (logger accept_handler : bool) (o : ListenerOptions) (a : CreateAnswers) : result TcpListener :=
  throw_if (negb logger) invalid_argument (
  throw_if (negb accept_handler) invalid_argument (
  throw_if (backlog o <=? 0) invalid_argument (
  throw_if (negb (answer_socket a)) system_error (
  throw_if (reuse_address o && negb (answer_reuse a)) system_error (
  throw_if (exclusive_address_use o && negb (answer_exclusive a)) system_error (
  throw_if (negb (answer_address a)) invalid_argument (
  throw_if (negb (answer_bind a)) system_error (
  throw_if (negb (answer_listen a)) system_error (
  match answer_getsockname a with
  | None => Throw system_error
  | Some port =>
      throw_if (negb (answer_ioctl a)) system_error (
      _ ← answer_associate a;
      Ok (mkListener true Running 0 0 0 port))
  end))))))))).

(** ** The critical sections *)

(** The answers of [PostAcceptLocked]: the error of [WSASocketW] or 0 (the error of a call that
    fails is never 0), whether the operation
    could be allocated, and the error of [AcceptEx] or 0 for an immediate success. *)
Record PostAnswer := mkPostAnswer {
  socket_error : Z;
  allocated : bool;
  accept_error : Z;
}.

Definition WSAESHUTDOWN : Z := 10058.
Definition WSA_IO_PENDING : Z := 997.

(** 0 when an [AcceptEx] was registered *)
Definition PostAcceptLocked (a : PostAnswer) (s : TcpListener) : result Z * TcpListener :=
  if negb (bool_decide (state_ s = Running)) then (Ok WSAESHUTDOWN, s)
  else if negb (socket_error a =? 0) then (Ok (socket_error a), s)
  else if negb (allocated a) then (Throw bad_alloc, s)
  else
    let s := set_outstanding (u64 (outstanding_accepts_ s + 1)) s in
    if negb (accept_error a =? 0) && negb (accept_error a =? WSA_IO_PENDING) then
      (Ok (accept_error a), set_outstanding (u64 (outstanding_accepts_ s - 1)) s)
    else (Ok 0, s).

Definition MoveToStoppedIfDrainedLocked (s : TcpListener) : bool * TcpListener :=
  if bool_decide (state_ s = Stopping) && (outstanding_accepts_ s =? 0) then (true, set_state Stopped s) else (false, s).

Definition Start (a : PostAnswer) (s : TcpListener) : result unit * TcpListener :=
  match PostAcceptLocked a s with
  | (Throw e, s) => (Throw e, s)
  | (Ok post_error, s) =>
      if negb (post_error =? 0) then (Throw system_error, (MoveToStoppedIfDrainedLocked (reset_socket (set_state Stopping s))).2)
      else (Ok tt, s)
  end.

(** [TcpListener::Create]; an exception destroys the listener. *)
Definition Create (logger accept_handler : bool) (o : ListenerOptions) (a : CreateAnswers) (p : PostAnswer) : result TcpListener :=
  s ← TcpListener_make logger accept_handler o a;
  match Start p s with
  | (Throw e, _) => Throw e
  | (Ok _, s) => Ok s
  end.

(** [OnAcceptCompleteImpl], the first critical section: [completion_was_running], whether
    [listen_socket] is a socket, and [next_accept_error]. *)
Definition OnAcceptCompleteImpl_first (a : PostAnswer) (s : TcpListener) : result (bool * bool * Z) * TcpListener :=
  if negb (bool_decide (state_ s = Running)) then (Ok (false, false, 0), s)
  else
    let listen_socket := listen_socket_ s in
    match PostAcceptLocked a s with
    | (Throw e, s) => (Throw e, s)
    | (Ok next_accept_error, s) =>
        if negb (next_accept_error =? 0) then
          (Ok (true, listen_socket, next_accept_error), reset_socket (set_state Stopping (set_errors (u64 (accept_errors_ s + 1)) s)))
        else (Ok (true, listen_socket, 0), s)
    end.

(** How far an operation has come.  An error of 0 means success. *)
Inductive Phase :=
  | Pending
  | Completed (error : Z)
  | Checked (error : Z) (completion_was_running listen_socket : bool)
  | Delivering
  | Failed
  | Finishing.

(** The section that decides to deliver *)
Definition deliver (s : TcpListener) : bool * TcpListener :=
  if bool_decide (state_ s = Running) then (true, set_accepted (u64 (accepted_connections_ s + 1)) s) else (false, s).

(** The rest of [OnAcceptCompleteImpl] up to the call of the handler.  [prepared] says whether
    [setsockopt] and [Associate] succeed. *)
Definition OnAcceptCompleteImpl_second (error : Z) (completion_was_running listen_socket prepared : bool) (s : TcpListener)
    : Phase * TcpListener :=
  if negb (error =? 0) then
    if completion_was_running then (Finishing, set_errors (u64 (accept_errors_ s + 1)) s) else (Finishing, s)
  else if completion_was_running && listen_socket then
    if prepared then let '(d, s) := deliver s in (if d : bool then Delivering else Finishing, s)
    else (Finishing, s)
  else (Finishing, s).

Definition FinishAcceptCompletion (s : TcpListener) : bool * TcpListener :=
  MoveToStoppedIfDrainedLocked
    (if 0 <? outstanding_accepts_ s then set_outstanding (outstanding_accepts_ s - 1) s else s).

Definition Stop (s : TcpListener) : bool * TcpListener :=
  if bool_decide (state_ s = Stopped) || bool_decide (state_ s = Stopping) then (false, s)
  else MoveToStoppedIfDrainedLocked (reset_socket (set_state Stopping s)).

(** The condition of [WaitStopped] *)
Definition IsStopped (s : TcpListener) : bool := bool_decide (state_ s = Stopped).

Definition Snapshot (s : TcpListener) : ListenerSnapshot :=
  mkListenerSnapshot (state_ s) (outstanding_accepts_ s) (accepted_connections_ s) (accept_errors_ s) (local_port_ s).

(** ** The system *)

Record Operation := mkOp { op_id : Z; op_phase : Phase }.

Record System := mkSystem {
  listener : TcpListener;
  ops : list Operation;
  next_op : Z;
  delivered : list Z;
}.

(** The operation after the first section, and the one that was registered in it. *)
Definition after_first (i error : Z) (next : Z) (r : result (bool * bool * Z)) : Operation * list Operation :=
  match r with
  | Throw _ => (mkOp i Failed, [])
  | Ok (was_running, listen_socket, next_accept_error) =>
      (mkOp i (Checked error was_running listen_socket),
       if was_running && (next_accept_error =? 0) then [mkOp next Pending] else [])
  end.

(** What the completion port and its threads do.  Between critical sections anything may throw,
    an allocation for example. *)
Inductive completion_step : System -> System -> Prop :=
  | step_dequeue s l i r error : ops s = l ++ mkOp i Pending :: r ->
      completion_step s (mkSystem (listener s) (l ++ mkOp i (Completed error) :: r) (next_op s) (delivered s))
  | step_first s l i error r a res s' o new : ops s = l ++ mkOp i (Completed error) :: r ->
      (state_ (listener s) = Running -> zlen (ops s) + 1 < 2 ^ 64) ->
      OnAcceptCompleteImpl_first a (listener s) = (res, s') -> after_first i error (next_op s) res = (o, new) ->
      completion_step s (mkSystem s' (l ++ o :: r ++ new) (next_op s + zlen new) (delivered s))
  | step_second s l i error w k r prepared p s' : ops s = l ++ mkOp i (Checked error w k) :: r ->
      OnAcceptCompleteImpl_second error w k prepared (listener s) = (p, s') ->
      completion_step s (mkSystem s' (l ++ mkOp i p :: r) (next_op s)
                           (delivered s ++ match p with Delivering => [i] | _ => [] end))
  | step_returned s l i r : ops s = l ++ mkOp i Delivering :: r ->
      completion_step s (mkSystem (listener s) (l ++ mkOp i Finishing :: r) (next_op s) (delivered s))
  | step_throws s l i p r : ops s = l ++ mkOp i p :: r -> match p with Checked _ _ _ | Delivering => True | _ => False end ->
      completion_step s (mkSystem (listener s) (l ++ mkOp i Failed :: r) (next_op s) (delivered s))
  | step_catch s l i r b s' : ops s = l ++ mkOp i Failed :: r -> Stop (listener s) = (b, s') ->
      completion_step s (mkSystem s' (l ++ mkOp i Finishing :: r) (next_op s) (delivered s))
  | step_finish s l i r b s' : ops s = l ++ mkOp i Finishing :: r -> FinishAcceptCompletion (listener s) = (b, s') ->
      completion_step s (mkSystem s' (l ++ r) (next_op s) (delivered s)).

Inductive listener_step : System -> System -> Prop :=
  | step_completion s s' : completion_step s s' -> listener_step s s'
  | step_stop s b s' : Stop (listener s) = (b, s') -> listener_step s (mkSystem s' (ops s) (next_op s) (delivered s)).

Inductive listener_reachable : System -> Prop :=
  | listener_created logger accept_handler o a p s : Create logger accept_handler o a p = Ok s ->
      listener_reachable (mkSystem s [mkOp 1 Pending] 2 [])
  | listener_next s s' : listener_reachable s -> listener_step s s' -> listener_reachable s'.

(** ** The invariant *)

(** An operation that can still accept, or has accepted and not registered its successor. *)
Definition accepting (o : Operation) : bool := match op_phase o with Pending | Completed _ => true | _ => false end.
Definition capacity (l : list Operation) : nat := length (List.filter accepting l).
(** An operation whose socket was not given away *)
Definition undelivered (o : Operation) : bool :=
  match op_phase o with Pending | Completed _ | Checked _ _ _ => true | _ => false end.
Definition failed (o : Operation) : bool := match op_phase o with Failed => true | _ => false end.
Definition op_ids (l : list Operation) : list Z := map op_id l.

Record linv (s : System) : Prop := {
  li_count : outstanding_accepts_ (listener s) = zlen (ops s);
  li_small : zlen (ops s) < 2 ^ 64;
  li_capacity : (capacity (ops s) <= 1)%nat;
  li_running : state_ (listener s) = Running -> capacity (ops s) = 1%nat \/ existsb failed (ops s) = true;
  li_socket : listen_socket_ (listener s) = bool_decide (state_ (listener s) = Running);
  li_stopped : state_ (listener s) <> Running -> state_ (listener s) = Stopped <-> ops s = [];
  li_accepted : accepted_connections_ (listener s) = u64 (zlen (delivered s));
  li_once : NoDup (delivered s ++ op_ids (List.filter undelivered (ops s)));
  li_ids : Forall (fun o => op_id o < next_op s) (ops s);
  li_old : Forall (fun i => i < next_op s) (delivered s);
}.

Lemma capacity_app l k : capacity (l ++ k) = (capacity l + capacity k)%nat.
Proof. unfold capacity. by rewrite List.filter_app, length_app. Qed.
Lemma capacity_cons o l : capacity (o :: l) = ((if accepting o then 1 else 0) + capacity l)%nat.
Proof. unfold capacity. cbn. by destruct (accepting o). Qed.

(** An operation changes its phase and the listener stays as it is but for its counters: what
    has to be shown. *)
Lemma linv_phase s l i p r s' p' d : linv s -> ops s = l ++ mkOp i p :: r ->
  (accepting (mkOp i p') = true -> accepting (mkOp i p) = true) ->
  (state_ s' = Running -> accepting (mkOp i p) = true -> accepting (mkOp i p') = true \/ p' = Failed) ->
  (state_ s' = Running -> p = Failed -> p' = Failed) ->
  (state_ s' = Running -> state_ (listener s) = Running) ->
  (state_ s' = Stopped -> state_ (listener s) = Stopped) ->
  (d = [] /\ accepted_connections_ s' = accepted_connections_ (listener s) \/
   d = [i] /\ undelivered (mkOp i p) = true /\ undelivered (mkOp i p') = false /\
   accepted_connections_ s' = u64 (accepted_connections_ (listener s) + 1)) ->
  (undelivered (mkOp i p') = true -> undelivered (mkOp i p) = true) ->
  outstanding_accepts_ s' = outstanding_accepts_ (listener s) ->
  listen_socket_ s' = bool_decide (state_ s' = Running) ->
  linv (mkSystem s' (l ++ mkOp i p' :: r) (next_op s) (delivered s ++ d)).
Proof.
  intros [H1 H2 H3 H4 H5 H6 H7 H8 H9 H10] E A1 A2 A3 A4 A5 A6 A7 A8 A9. rewrite E in *.
  assert (Hlen : zlen (l ++ mkOp i p' :: r) = zlen (l ++ mkOp i p :: r)) by (by rewrite !zlen_app, !zlen_cons).
  split; cbn [listener ops next_op delivered].
  - by rewrite A8, Hlen.
  - by rewrite Hlen.
  - rewrite !capacity_app, !capacity_cons in *. destruct (accepting (mkOp i p')); [rewrite A1 in H3 by done|]; lia.
  - intros Hr. specialize (H4 (A4 Hr)). specialize (A2 Hr). specialize (A3 Hr).
    rewrite !capacity_app, !capacity_cons, !existsb_app in *. cbn [existsb] in *.
    destruct (existsb failed l); [by right|]. destruct (existsb failed r); [right; cbn [orb]; by rewrite orb_true_r|]. cbn [orb] in *. rewrite orb_false_r in *.
    destruct (accepting (mkOp i p)) eqn:Ep.
    + destruct (A2 eq_refl) as [->| ->]; [left|by right]. destruct H4 as [H4|H4]; [done|]. by destruct p.
    + destruct H4 as [H4|H4]; [|destruct p; try done; rewrite A3 by done; by right].
      destruct (accepting (mkOp i p')); [discriminate (A1 eq_refl)|]. by left.
  - done.
  - intros Hr. split; [|by destruct l].
    intros Hs. apply A5 in Hs. rewrite Hs in H6. destruct H6 as [H6 _]; [done|]. specialize (H6 eq_refl). by destruct l.
  - destruct A6 as [[-> ->]|(-> & _ & _ & ->)]; [by rewrite app_nil_r|].
    rewrite H7, zlen_app. unfold u64. by rewrite Zplus_mod_idemp_l.
  - rewrite !List.filter_app in *. cbn [List.filter] in *. unfold op_ids in *. rewrite !map_app in *.
    destruct A6 as [[-> _]|(-> & Eu & Eu' & _)].
    + rewrite app_nil_r. destruct (undelivered (mkOp i p')); [rewrite A7 in H8 by done; exact H8|].
      destruct (undelivered (mkOp i p)); [|done]. cbn [map] in H8. rewrite app_assoc in H8 |- *.
      rewrite <- Permutation_middle in H8. by apply NoDup_cons in H8 as [_ H8].
    + rewrite Eu in H8. rewrite Eu'. cbn [map op_id] in H8. rewrite <- app_assoc.
      rewrite <- (Permutation_middle (map op_id (List.filter undelivered l))) in H8. exact H8.
  - apply Forall_app in H9 as [F1 F2]. inversion F2. apply Forall_app. split; [done|]. by constructor.
  - destruct A6 as [[-> _]|(-> & _)]; [by rewrite app_nil_r|]. apply Forall_app. split; [done|]. constructor; [|done].
    apply Forall_app in H9 as [F1 F2]. inversion F2 as [|x y Hx]. exact Hx.
Qed.

Lemma filtered_id f x l : x ∈ map op_id (List.filter f l) -> x ∈ op_ids l.
Proof.
  intros (o & -> & Ho)%list_elem_of_fmap. apply (list_elem_of_fmap_2 op_id). apply list_elem_of_In in Ho.
  apply List.filter_In in Ho as [Ho _]. by apply list_elem_of_In.
Qed.

(** The successor is registered while the listener runs. *)
Lemma linv_posted s l i error r w k : linv s -> ops s = l ++ mkOp i (Completed error) :: r -> zlen (ops s) + 1 < 2 ^ 64 ->
  state_ (listener s) = Running ->
  linv (mkSystem (set_outstanding (u64 (outstanding_accepts_ (listener s) + 1)) (listener s))
          (l ++ mkOp i (Checked error w k) :: r ++ [mkOp (next_op s) Pending]) (next_op s + 1) (delivered s)).
Proof.
  intros [H1 H2 H3 H4 H5 H6 H7 H8 H9 H10] E Hz Hr.
  assert (Hcap : capacity l = 0%nat /\ capacity r = 0%nat).
  { rewrite E, capacity_app, capacity_cons in H3. cbn in H3. lia. }
  assert (Hlen : zlen (l ++ mkOp i (Checked error w k) :: r ++ [mkOp (next_op s) Pending]) = zlen (ops s) + 1).
  { rewrite E, !zlen_app, !zlen_cons, zlen_app, zlen_cons, zlen_nil. lia. }
  split; cbn [listener ops next_op delivered set_outstanding outstanding_accepts_ listen_socket_ state_ accepted_connections_]; try done.
  - rewrite H1, Hlen, u64_small by zlia. done.
  - by rewrite Hlen.
  - rewrite capacity_app, capacity_cons, capacity_app. cbn. lia.
  - intros _. left. rewrite capacity_app, capacity_cons, capacity_app. cbn. lia.
  - rewrite E in H8. rewrite !List.filter_app in *. cbn [List.filter undelivered op_phase] in *. rewrite List.filter_app.
    cbn [List.filter undelivered op_phase]. unfold op_ids in *. rewrite !map_app in *. cbn [map op_id] in *. rewrite map_app. cbn [map op_id].
    rewrite app_comm_cons, (app_assoc (map op_id _)), (app_assoc (delivered s)).
    apply NoDup_app. split_and!; [exact H8| |apply NoDup_singleton].
    intros x Hx Hy%list_elem_of_singleton. subst x. apply elem_of_app in Hx as [Hx|Hx].
    + rewrite Forall_forall in H10. specialize (H10 _ Hx). lia.
    + assert (Hin : next_op s ∈ op_ids (ops s)).
      { rewrite E. unfold op_ids. rewrite map_app. cbn [map op_id].
        apply elem_of_app in Hx as [Hx%filtered_id|[Hx|Hx%filtered_id]%elem_of_cons]; set_solver. }
      apply list_elem_of_fmap in Hin as (o & Ho & Hin). rewrite Forall_forall in H9. specialize (H9 _ Hin). lia.
  - rewrite E in H9. apply Forall_app in H9 as [F1 F2]. apply Forall_cons in F2 as [F2 F3].
    apply Forall_app. split; [eapply Forall_impl; [exact F1|cbn; lia]|]. constructor; [cbn in *; lia|].
    apply Forall_app. split; [eapply Forall_impl; [exact F3|cbn; lia]|]. constructor; [cbn; lia|done].
  - eapply Forall_impl; [exact H10|cbn; lia].
Qed.

Lemma linv_first s l i error r a res s' o new : linv s -> ops s = l ++ mkOp i (Completed error) :: r ->
  (state_ (listener s) = Running -> zlen (ops s) + 1 < 2 ^ 64) -> OnAcceptCompleteImpl_first a (listener s) = (res, s') -> after_first i error (next_op s) res = (o, new) ->
  linv (mkSystem s' (l ++ o :: r ++ new) (next_op s + zlen new) (delivered s)).
Proof.
  intros Hs E Hz Ef Ea.
  (* no successor: the phase changes *)
  assert (Hp : forall p t, new = [] -> o = mkOp i p -> (p = Failed /\ t = listener s \/ exists w k, p = Checked error w k /\ state_ t <> Running /\
      (state_ t = state_ (listener s) \/ state_ t = Stopping) /\ accepted_connections_ t = accepted_connections_ (listener s) /\
      outstanding_accepts_ t = outstanding_accepts_ (listener s) /\ listen_socket_ t = false) ->
    linv (mkSystem t (l ++ o :: r ++ new) (next_op s + zlen new) (delivered s))).
  { intros p t -> -> Hc. rewrite app_nil_r, zlen_nil, Z.add_0_r, <- (app_nil_r (delivered s)).
    eapply linv_phase; [exact Hs|exact E|..]; destruct Hc as [[-> ->]|(w & k & -> & Hn & Hst & Ha & Ho & Hk)]; try done;
      try (by left); try (by right); [by destruct Hst; congruence|apply Hs|]. by rewrite Hk, bool_decide_eq_false_2. }
  unfold OnAcceptCompleteImpl_first, PostAcceptLocked in Ef.
  destruct (bool_decide_reflect (state_ (listener s) = Running)) as [Hr|Hr]; cbn [negb] in Ef.
  2: { injection Ef as <- <-. injection Ea as <- <-. eapply Hp; [done..|]. right. eexists _, _.
       split_and!; try done; [by left|]. by rewrite (li_socket s Hs), bool_decide_eq_false_2. }
  specialize (Hz Hr). destruct (negb (socket_error a =? 0)) eqn:E1; [rewrite E1 in Ef|destruct (negb (allocated a))].
  - injection Ef as <- <-. apply negb_true_iff in E1. cbn in Ea. rewrite E1 in Ea. injection Ea as <- <-.
    eapply Hp; [done..|]. right. eexists _, _. split_and!; try done. by right.
  - injection Ef as <- <-. injection Ea as <- <-. eapply Hp; [done..|]. by left.
  - destruct (negb (accept_error a =? 0) && _) eqn:E2.
    + apply andb_true_iff in E2 as [E2 _]. rewrite E2 in Ef. injection Ef as <- <-. apply negb_true_iff in E2. cbn in Ea.
      rewrite E2 in Ea. injection Ea as <- <-. eapply Hp; [done..|]. right. eexists _, _. split_and!; try done; [by right|].
      cbn. rewrite (li_count s Hs). rewrite (u64_small (_ + 1)) by zlia. rewrite u64_small by zlia. lia.
    + cbn in Ef. injection Ef as <- <-. injection Ea as <- <-. rewrite zlen_cons, zlen_nil, Z.add_0_r. by eapply linv_posted.
Qed.

(** What [Stop] does while operations are outstanding. *)
Lemma Stop_busy s b s' : Stop s = (b, s') -> outstanding_accepts_ s <> 0 ->
  state_ s' <> Running /\ (state_ s' = Stopped -> state_ s = Stopped) /\ accepted_connections_ s' = accepted_connections_ s /\
  outstanding_accepts_ s' = outstanding_accepts_ s /\ (listen_socket_ s = bool_decide (state_ s = Running) -> listen_socket_ s' = false).
Proof.
  unfold Stop, MoveToStoppedIfDrainedLocked. intros E Hn. cbn in E. destruct (state_ s) eqn:Es; cbn in E.
  - destruct (Z.eqb_spec (outstanding_accepts_ s) 0); [done|]. by injection E as <- <-.
  - injection E as <- <-. by rewrite Es.
  - injection E as <- <-. by rewrite Es.
Qed.

Lemma linv_busy s l o r : linv s -> ops s = l ++ o :: r -> outstanding_accepts_ (listener s) <> 0.
Proof. intros Hs E. rewrite (li_count s Hs), E. zlia. Qed.

Lemma linv_catch s l i r b s' : linv s -> ops s = l ++ mkOp i Failed :: r -> Stop (listener s) = (b, s') ->
  linv (mkSystem s' (l ++ mkOp i Finishing :: r) (next_op s) (delivered s)).
Proof.
  intros Hs E Est. destruct (Stop_busy _ _ _ Est (linv_busy _ _ _ _ Hs E)) as (S1 & S2 & S3 & S4 & S5).
  rewrite <- (app_nil_r (delivered s)). eapply linv_phase; try done; [by left|].
  rewrite bool_decide_eq_false_2 by done. apply S5, Hs.
Qed.

Lemma linv_second s l i error w k r prepared p s' : linv s -> ops s = l ++ mkOp i (Checked error w k) :: r ->
  OnAcceptCompleteImpl_second error w k prepared (listener s) = (p, s') ->
  linv (mkSystem s' (l ++ mkOp i p :: r) (next_op s) (delivered s ++ match p with Delivering => [i] | _ => [] end)).
Proof.
  intros Hs E E2.
  assert (Hp : p = Finishing /\ (s' = listener s \/ s' = set_errors (u64 (accept_errors_ (listener s) + 1)) (listener s)) \/
               p = Delivering /\ s' = set_accepted (u64 (accepted_connections_ (listener s) + 1)) (listener s)).
  { unfold OnAcceptCompleteImpl_second, deliver in E2.
    destruct (negb (error =? 0)), w, k, prepared, (bool_decide (state_ (listener s) = Running)); cbn in E2;
      injection E2 as <- <-; auto. }
  pose proof (li_socket s Hs). destruct Hp as [[-> [-> | ->]]|[-> ->]]; eapply linv_phase; try done; try (by left). by right.
Qed.

Lemma linv_finish s l i r b s' : linv s -> ops s = l ++ mkOp i Finishing :: r -> FinishAcceptCompletion (listener s) = (b, s') ->
  linv (mkSystem s' (l ++ r) (next_op s) (delivered s)).
Proof.
  intros [H1 H2 H3 H4 H5 H6 H7 H8 H9 H10] E Ef. rewrite E in *.
  assert (Hlen : outstanding_accepts_ (listener s) - 1 = zlen (l ++ r)) by (rewrite H1, !zlen_app, zlen_cons; lia).
  assert (Hp : forall t, outstanding_accepts_ t = zlen (l ++ r) -> listen_socket_ t = bool_decide (state_ t = Running) ->
    accepted_connections_ t = accepted_connections_ (listener s) -> (state_ t = Running -> state_ (listener s) = Running) ->
    (state_ t <> Running -> state_ t = Stopped <-> l ++ r = []) -> linv (mkSystem t (l ++ r) (next_op s) (delivered s))).
  { intros t T1 T2 T3 T4 T5. rewrite capacity_app, capacity_cons in H3, H4. rewrite existsb_app in H4.
    rewrite List.filter_app in H8. apply Forall_app in H9 as [F1 F2]. apply Forall_cons in F2 as [_ F2].
    split; cbn [listener ops next_op delivered]; rewrite ?capacity_app, ?existsb_app, ?List.filter_app; try done.
    - lia.
    - intros Hr. exact (H4 (T4 Hr)).
    - by rewrite T3.
    - by apply Forall_app. }
  unfold FinishAcceptCompletion, MoveToStoppedIfDrainedLocked in Ef.
  destruct (Z.ltb_spec 0 (outstanding_accepts_ (listener s))) as [_|]; [|zlia].
  cbn [set_outstanding state_ outstanding_accepts_] in Ef. rewrite Hlen in Ef.
  destruct (state_ (listener s)) eqn:Hst; cbn in Ef; [|destruct (Z.eqb_spec (zlen (l ++ r)) 0) as [Hz|Hz]|];
    injection Ef as <- <-; apply Hp; cbn; rewrite ?Hst; try done.
  - intros _. split; [intros _; by apply zlen_0|done].
  - intros _. split; [done|]. intros Hx. by rewrite Hx in Hz.
  - intros _. split; [|done]. intros _. destruct H6 as [H6 _]; [done|]. specialize (H6 eq_refl). by destruct l.
Qed.

Lemma completion_step_linv s s' : linv s -> completion_step s s' -> linv s'.
Proof.
  intros Hs Hst. pose proof (li_socket s Hs) as Hk.
  destruct Hst as [s l i r error E|s l i error r a res s' o new E Hz Ef Ea|s l i error w k r prepared p s' E E2|s l i r E|s l i p r E Hp
    |s l i r b s' E Est|s l i r b s' E Ef].
  - rewrite <- (app_nil_r (delivered s)). eapply linv_phase; try done; by left.
  - by eapply linv_first.
  - by eapply linv_second.
  - rewrite <- (app_nil_r (delivered s)). eapply linv_phase; try done; by left.
  - rewrite <- (app_nil_r (delivered s)). eapply linv_phase; try done; try (by left). intros _ _. by right.
  - by eapply linv_catch.
  - by eapply linv_finish.
Qed.

Lemma listener_step_linv s s' : linv s -> listener_step s s' -> linv s'.
Proof.
  intros Hs Hst. destruct Hst as [x y Hst|x b y Est]; [by eapply completion_step_linv|].
  destruct (ops x) as [|o r] eqn:Eo.
  - destruct Hs as [H1 H2 H3 H4 H5 H6 H7 H8 H9 H10]. rewrite Eo in *. unfold Stop, MoveToStoppedIfDrainedLocked in Est.
    destruct (state_ (listener x)) eqn:Ex; cbn in Est; [destruct (H4 eq_refl); done| |]; injection Est as <- <-; split; cbn; rewrite ?Ex, ?Eo; done.
  - destruct (Stop_busy _ _ _ Est (linv_busy _ [] _ _ Hs Eo)) as (S1 & S2 & S3 & S4 & S5).
    destruct Hs as [H1 H2 H3 H4 H5 H6 H7 H8 H9 H10]. rewrite <- Eo. split; cbn; try done; try congruence.
    + rewrite bool_decide_eq_false_2 by done. by apply S5.
    + intros _. split; [|rewrite Eo; done]. intros Hx%S2. apply H6; [congruence|done].
Qed.

Lemma Start_linv a s : state_ s = Running -> listen_socket_ s = true -> outstanding_accepts_ s = 0 -> accepted_connections_ s = 0 ->
  match Start a s with
  | (Ok _, s') => linv (mkSystem s' [mkOp 1 Pending] 2 [])
  | (Throw _, s') => outstanding_accepts_ s' = 0 /\ (state_ s' = Stopped \/ s' = s)
  end.
Proof.
  intros H1 H2 H3 H4. unfold Start, PostAcceptLocked. rewrite H1, H3. cbn [bool_decide negb]. rewrite bool_decide_eq_true_2 by done. cbn [negb].
  destruct (socket_error a =? 0) eqn:E1; cbn [negb].
  - destruct (allocated a); cbn [negb]; [|by split; [|right]].
    destruct (negb (accept_error a =? 0) && _) eqn:E2.
    + apply andb_true_iff in E2 as [E2 _]. rewrite E2. split; [done|by left].
    + cbn. split; cbn; try done; try (by rewrite ?H1, ?H2, ?H4); try (by left); repeat constructor; set_solver.
  - rewrite E1. cbn [negb]. unfold MoveToStoppedIfDrainedLocked. cbn. rewrite H3. cbn. split; [done|by left].
Qed.

Lemma listener_linv s : listener_reachable s -> linv s.
Proof.
  induction 1 as [logger accept_handler o a p s E|s s' _ IH Hst]; [|by eapply listener_step_linv].
  unfold Create in E. destruct (TcpListener_make logger accept_handler o a) as [t|] eqn:Et; [|done]. cbn in E.
  assert (exists port, t = mkListener true Running 0 0 0 port) as [port ->].
  { unfold TcpListener_make, throw_if in Et. repeat (destruct (_ : bool) in Et; [done|]).
    destruct (answer_getsockname a) as [port|]; [|done]. destruct (negb (answer_ioctl a)); [done|].
    destruct (answer_associate a); [|done]. injection Et as <-. by eexists. }
  pose proof (Start_linv p (mkListener true Running 0 0 0 port) eq_refl eq_refl eq_refl eq_refl) as Hp.
  destruct (Start p _) as [[u|e] t]; [|done]. by injection E as <-.
Qed.

(** C14. The accept discipline of a listener.  In every reachable state, whatever the socket
    functions, the handler and the threads of the completion port do: [outstanding_accepts_]
    counts the operations exactly; a running listener has exactly one operation that accepts,
    so it neither loses its capacity nor accumulates more, except after an exception, when the
    thread that caught it is about to call [Stop]; a listener that does not run has closed its
    socket; it is stopped if and only if no operation is left; and no connection is given to
    the handler twice, and [accepted_connections_] counts those that were. *)
Theorem listener_discipline s : listener_reachable s ->
  outstanding_accepts_ (listener s) = zlen (ops s) /\
  (capacity (ops s) <= 1)%nat /\
  (state_ (listener s) = Running -> capacity (ops s) = 1%nat \/ exists o, o ∈ ops s /\ op_phase o = Failed) /\
  (state_ (listener s) <> Running -> listen_socket_ (listener s) = false) /\
  (IsStopped (listener s) = true <-> ops s = []) /\
  NoDup (delivered s) /\ accepted_connections_ (listener s) = u64 (zlen (delivered s)).
Proof.
  intros [H1 H2 H3 H4 H5 H6 H7 H8 H9 H10]%listener_linv. split_and!; try done.
  - intros Hr. destruct (H4 Hr) as [Hc|Hf]; [by left|right]. apply existsb_exists in Hf as (o & Ho%list_elem_of_In & Hf).
    exists o. split; [done|]. unfold failed in Hf. by destruct (op_phase o).
  - intros Hr. by rewrite H5, bool_decide_eq_false_2.
  - unfold IsStopped. rewrite bool_decide_eq_true. destruct (decide (state_ (listener s) = Running)) as [Hr|Hr]; [|by apply H6].
    split; [congruence|]. intros Ho. rewrite Ho in H4. by destruct (H4 Hr).
  - by apply NoDup_app in H8 as [H8 _].
Qed.

(** ** Draining *)

(** How many steps an operation can still take when no successor is registered. *)
Definition phase_work (p : Phase) : nat :=
  match p with Pending => 6 | Completed _ => 5 | Checked _ _ _ => 4 | Delivering => 3 | Failed => 2 | Finishing => 1 end.
Definition work (l : list Operation) : nat := weight (fun o => phase_work (op_phase o)) l.

Lemma drain_step s s' : linv s -> state_ (listener s) <> Running -> completion_step s s' ->
  state_ (listener s') <> Running /\ delivered s' = delivered s /\ (work (ops s') < work (ops s))%nat.
Proof.
  intros Hs Hr Hst.
  destruct Hst as [s l i r error E|s l i error r a res s' o new E _ Ef Ea|s l i error w k r prepared p s' E E2|s l i r E|s l i p r E Hp
    |s l i r b s' E Est|s l i r b s' E Ef]; cbn [listener ops delivered]; unfold work;
    rewrite E, !weight_app, ?weight_cons; cbn [op_phase phase_work].
  - split_and!; [done|done|lia].
  - unfold OnAcceptCompleteImpl_first in Ef. rewrite bool_decide_eq_false_2 in Ef by done. cbn in Ef. injection Ef as <- <-.
    injection Ea as <- <-. rewrite app_nil_r. cbn. split_and!; [done|done|lia].
  - unfold OnAcceptCompleteImpl_second, deliver in E2. rewrite bool_decide_eq_false_2 in E2 by done.
    destruct (negb (error =? 0)), w, k, prepared; injection E2 as <- <-; rewrite app_nil_r; cbn; split_and!; (done || lia).
  - split_and!; [done|done|lia].
  - split_and!; [done|done|]. destruct p; cbn; (done || lia).
  - destruct (Stop_busy _ _ _ Est (linv_busy _ _ _ _ Hs E)) as (S1 & _). split_and!; [done|done|lia].
  - split_and!; [|done|lia]. unfold FinishAcceptCompletion, MoveToStoppedIfDrainedLocked in Ef.
    destruct (0 <? outstanding_accepts_ (listener s)); destruct (bool_decide _ && _); by injection Ef as <- <-.
Qed.

Lemma drain_steps k s s' : linv s -> state_ (listener s) <> Running -> nsteps completion_step k s s' ->
  linv s' /\ state_ (listener s') <> Running /\ delivered s' = delivered s /\ (work (ops s') + k <= work (ops s))%nat.
Proof.
  intros Hs Hr Hk. revert Hs Hr. induction Hk as [s|k s t s' Hst _ IH]; intros Hs Hr; [split_and!; (done || lia)|].
  destruct (drain_step s t Hs Hr Hst) as (Ht & Hd & Hw). destruct IH as (I1 & I2 & I3 & I4); [by eapply completion_step_linv|done|].
  split_and!; [done|done|congruence|lia].
Qed.

(** An operation that is left can go on. *)
Lemma drain_progress s : state_ (listener s) <> Running -> ops s <> [] -> exists s', completion_step s s'.
Proof.
  intros Hr Ho. destruct (ops s) as [|[i p] r] eqn:E; [done|]. change (mkOp i p :: r) with ([] ++ mkOp i p :: r) in E.
  destruct p as [|error|error w k| | |].
  - eexists. by apply (step_dequeue s [] i r 0).
  - destruct (OnAcceptCompleteImpl_first (mkPostAnswer 0 true 0) (listener s)) as [res t] eqn:Ef.
    destruct (after_first i error (next_op s) res) as [o new] eqn:Ea. eexists. by eapply step_first.
  - destruct (OnAcceptCompleteImpl_second error w k true (listener s)) as [p t] eqn:E2. eexists. by eapply step_second.
  - eexists. by apply (step_returned s [] i r).
  - destruct (Stop (listener s)) as [b t] eqn:Est. eexists. by eapply step_catch.
  - destruct (FinishAcceptCompletion (listener s)) as [b t] eqn:Ef. eexists. by eapply step_finish.
Qed.

(** A listener that was stopped, by its owner or by an error, drains.  From then on no
    connection is given to the handler.  The completions of the registered operations and the
    threads that handle them take at most six steps per outstanding operation, in whatever
    order; as long as the listener is not stopped there is another step; so it becomes
    stopped, and [WaitStopped] returns. *)
Theorem listener_drains s k s' : listener_reachable s -> state_ (listener s) <> Running ->
  nsteps completion_step k s s' ->
  Z.of_nat k <= 6 * outstanding_accepts_ (listener s) /\ delivered s' = delivered s /\
  (IsStopped (listener s') = true \/ exists s'', completion_step s' s'').
Proof.
  intros Hs%listener_linv Hr Hk. destruct (drain_steps k s s' Hs Hr Hk) as (Hs' & Hr' & Hd & Hw).
  split_and!; [|done|].
  - rewrite (li_count s Hs). assert (Hb : (work (ops s) <= 6 * length (ops s))%nat)
      by (apply weight_bound; intros o; destruct (op_phase o); cbn; lia).
    unfold zlen. lia.
  - destruct (ops s') as [|o r] eqn:E; [left|right; apply drain_progress; congruence].
    unfold IsStopped. apply bool_decide_eq_true. by apply (li_stopped s' Hs').
Qed.

(** ** A run *)

Definition sample_options : ListenerOptions := mkListenerOptions $"127.0.0.1" 0 16 true false.
Definition sample_answers : CreateAnswers := mkCreateAnswers true true true true true true (Some 4711) true (Ok tt).
Definition sample_pending : PostAnswer := mkPostAnswer 0 true WSA_IO_PENDING.

(** A connection was accepted, its successor is registered, and the handler runs. *)
Definition sample_running : System :=
  mkSystem (mkListener true Running 2 1 0 4711) [mkOp 1 Delivering; mkOp 2 Pending] 3 [1].

Definition sample_created : System := mkSystem (mkListener true Running 1 0 0 4711) [mkOp 1 Pending] 2 [].
Definition sample_completed : System := mkSystem (mkListener true Running 1 0 0 4711) [mkOp 1 (Completed 0)] 2 [].
Definition sample_checked : System :=
  mkSystem (mkListener true Running 2 0 0 4711) [mkOp 1 (Checked 0 true true); mkOp 2 Pending] 3 [].

Lemma sample_running_reachable : listener_reachable sample_running.
Proof.
  apply (listener_next sample_checked); [apply (listener_next sample_completed); [apply (listener_next sample_created)|]|].
  - by apply (listener_created true true sample_options sample_answers sample_pending).
  - apply step_completion. by apply (step_dequeue sample_created [] 1 [] 0).
  - apply step_completion. by apply (step_first sample_completed [] 1 0 [] sample_pending (Ok (true, true, 0))
      (listener sample_checked) (mkOp 1 (Checked 0 true true)) [mkOp 2 Pending]).
  - apply step_completion. by apply (step_second sample_checked [] 1 0 true true [mkOp 2 Pending] true Delivering
      (listener sample_running)).
Qed.

Lemma listener_discipline_witness : capacity (ops sample_running) = 1%nat /\ NoDup (delivered sample_running).
Proof.
  destruct (listener_discipline sample_running sample_running_reachable) as (_ & _ & _ & _ & _ & H & _). split; [reflexivity|exact H].
Defined.

Definition sample_stopping : System :=
  mkSystem (mkListener false Stopping 2 1 0 4711) [mkOp 1 Delivering; mkOp 2 Pending] 3 [1].

Lemma listener_stopping_reachable : listener_reachable sample_stopping.
Proof. eapply listener_next; [exact sample_running_reachable|]. by apply (step_stop sample_running false). Qed.

Lemma listener_drains_witness : exists s, nsteps completion_step 1 sample_stopping s /\ delivered s = [1].
Proof.
  assert (H : nsteps completion_step 1 sample_stopping
    (mkSystem (mkListener false Stopping 2 1 0 4711) [mkOp 1 Finishing; mkOp 2 Pending] 3 [1])).
  { eapply nsteps_l; [|constructor]. by apply (step_returned sample_stopping [] 1 [mkOp 2 Pending]). }
  eexists. split; [exact H|].
  exact (proj1 (proj2 (listener_drains sample_stopping 1 _ listener_stopping_reachable ltac:(discriminate) H))).
Defined.

(** When the successor of an accepted connection cannot be registered, the connection is
    dropped: the listener stops first and then does not deliver. *)
Lemma accepted_connection_dropped s a e s' prepared :
  state_ s = Running -> socket_error a = e -> e <> 0 -> OnAcceptCompleteImpl_first a s = (Ok (true, true, e), s') ->
  OnAcceptCompleteImpl_second 0 true true prepared s' = (Finishing, s').
Proof.
  intros Hr <- He E. unfold OnAcceptCompleteImpl_first, PostAcceptLocked in E. rewrite bool_decide_eq_true_2 in E by done.
  destruct (Z.eqb_spec (socket_error a) 0) as [|H0]; [done|]. cbn [negb] in E.
  destruct (Z.eqb_spec (socket_error a) 0) as [|_]; [done|]. cbn [negb] in E. injection E as _ <-. by destruct prepared.
Qed.
