(* ===== verification/TcpConnector.v ===== *)
(** * The TCP connector

    [TcpConnector] of [tcp_connector.h] and [tcp_connector.cpp]: outgoing connections with
    [ConnectEx].  A step is one critical section, or one call between two of them; the
    answers of the socket functions are arguments.

    A request is an element of [ops] with how far it has come.  Its socket handle is shared by
    the operation and [pending_sockets_]; the value in the map says whether it is open.
    [accepted] collects the requests for which [Connect] returned [Accepted], [calls] the
    calls of handlers with the error and whether the socket given along is open.  That a mutex
    cannot be locked is not modelled. *)

From S2P Require Import Prelude.

Record TcpConnectOptions := mkConnectOptions { address : list byte; port : Z }.

Inductive TcpConnectorState := Running | Stopping | Stopped.

#[export] Instance TcpConnectorState_eq_dec : EqDecision TcpConnectorState.
Proof. solve_decision. Defined.

Inductive ConnectStartStatus := ConnectAccepted | ConnectStopped | ConnectStartFailed.

(** [std::error_code]: none, of the system, [operation_canceled] *)
Inductive ErrorCode := NoError | SystemError (code : Z) | OperationCanceled.

#[export] Instance ErrorCode_eq_dec : EqDecision ErrorCode.
Proof. solve_decision. Defined.

Record ConnectStartResult := mkStartResult { start_status : ConnectStartStatus; start_error : ErrorCode }.

Record TcpConnectorSnapshot := mkConnectorSnapshot {
  snapshot_state : TcpConnectorState;
  snapshot_outstanding_connects : Z;
  snapshot_successful_connects : Z;
  snapshot_failed_connects : Z;
  snapshot_cancelled_connects : Z;
}.

Record TcpConnector := mkConnector {
  state_ : TcpConnectorState;
  next_operation_id_ : Z;
  pending_sockets_ : gmap Z bool;
  outstanding_connects_ : Z;
  successful_connects_ : Z;
  failed_connects_ : Z;
  cancelled_connects_ : Z;
}.

Definition set_state (x : TcpConnectorState) (s : TcpConnector) : TcpConnector :=
  mkConnector x (next_operation_id_ s) (pending_sockets_ s) (outstanding_connects_ s) (successful_connects_ s)
    (failed_connects_ s) (cancelled_connects_ s).
Definition set_pending (p : gmap Z bool) (s : TcpConnector) : TcpConnector :=
  mkConnector (state_ s) (next_operation_id_ s) p (outstanding_connects_ s) (successful_connects_ s)
    (failed_connects_ s) (cancelled_connects_ s).
Definition set_outstanding (n : Z) (s : TcpConnector) : TcpConnector :=
  mkConnector (state_ s) (next_operation_id_ s) (pending_sockets_ s) n (successful_connects_ s)
    (failed_connects_ s) (cancelled_connects_ s).
Definition set_counts (successful failed cancelled : Z) (s : TcpConnector) : TcpConnector :=
  mkConnector (state_ s) (next_operation_id_ s) (pending_sockets_ s) (outstanding_connects_ s) successful failed cancelled.

Definition TcpConnector_make (logger : bool) : result TcpConnector :=
  if negb logger then Throw invalid_argument else Ok (mkConnector Running 1 ∅ 0 0 0 0).

(** ** Connect *)

Definition StartFailure (error : Z) : ConnectStartResult := mkStartResult ConnectStartFailed (SystemError error).

(** The arguments and the first look at the state; [None] to go on *)
Definition Connect_check (o : TcpConnectOptions) (handler : bool) (s : TcpConnector) : result (option ConnectStartResult) :=
  throw_if (negb handler) invalid_argument (
  throw_if (zlen (address o) =? 0) invalid_argument (
  throw_if (port o =? 0) invalid_argument (
  if negb (bool_decide (state_ s = Running)) then Ok (Some (mkStartResult ConnectStopped NoError)) else Ok None))).

(** Whether the address is one, the errors of [WSASocketW], [bind] and [WSAIoctl], or 0, and the
    answer of [IoContext::Associate] *)
Record PrepareAnswers := mkPrepareAnswers {
  answer_address : bool;
  answer_socket : Z;
  answer_bind : Z;
  answer_ioctl : Z;
  answer_associate : result unit;
}.

(** The calls without the lock *)
Definition Connect_prepare (a : PrepareAnswers) : result (option ConnectStartResult) :=
  if negb (answer_address a) then Throw invalid_argument
  else if negb (answer_socket a =? 0) then Ok (Some (StartFailure (answer_socket a)))
  else if negb (answer_bind a =? 0) then Ok (Some (StartFailure (answer_bind a)))
  else if negb (answer_ioctl a =? 0) then Ok (Some (StartFailure (answer_ioctl a)))
  else _ ← answer_associate a; Ok None.

Definition WSA_IO_PENDING : Z := 997.

(** The second critical section and the rest; [connect_error] is the error of [ConnectEx], or 0
    for an immediate success. *)
Definition Connect_register (connect_error : Z) (s : TcpConnector) : ConnectStartResult * TcpConnector :=
  if negb (bool_decide (state_ s = Running)) then (mkStartResult ConnectStopped NoError, s)
  else
    let id := next_operation_id_ s in
    let s := mkConnector (state_ s) (u64 (id + 1)) (<[id := true]> (pending_sockets_ s)) (u64 (outstanding_connects_ s + 1))
               (successful_connects_ s) (failed_connects_ s) (cancelled_connects_ s) in
    if negb (connect_error =? 0) && negb (connect_error =? WSA_IO_PENDING) then
      (StartFailure connect_error,
       mkConnector (state_ s) (next_operation_id_ s) (delete id (pending_sockets_ s)) (u64 (outstanding_connects_ s - 1))
         (successful_connects_ s) (u64 (failed_connects_ s + 1)) (cancelled_connects_ s))
    else (mkStartResult ConnectAccepted NoError, s).

(** [Connect] without other threads *)
Definition Connect (o : TcpConnectOptions) (handler : bool) (a : PrepareAnswers) (connect_error : Z) (s : TcpConnector)
    : result ConnectStartResult * TcpConnector :=
  match Connect_check o handler s with
  | Throw e => (Throw e, s)
  | Ok (Some r) => (Ok r, s)
  | Ok None =>
      match Connect_prepare a with
      | Throw e => (Throw e, s)
      | Ok (Some r) => (Ok r, s)
      | Ok None => let '(r, s) := Connect_register connect_error s in (Ok r, s)
      end
  end.

(** What a caller can rely on: only the second critical section changes the connector, and only
    then can the request be accepted. *)
Lemma Connect_changes o handler a connect_error s r s' : Connect o handler a connect_error s = (r, s') ->
  (s' = s /\ r <> Ok (mkStartResult ConnectAccepted NoError)) \/
  (exists x, r = Ok x /\ Connect_register connect_error s = (x, s') /\ state_ s = Running).
Proof.
  unfold Connect, Connect_check, throw_if. intros E.
  destruct (negb handler); [injection E as <- <-; by left|]. destruct (zlen (address o) =? 0); [injection E as <- <-; by left|].
  destruct (port o =? 0); [injection E as <- <-; by left|].
  destruct (bool_decide_reflect (state_ s = Running)) as [Hr|_]; [|injection E as <- <-; by left]. cbn [negb] in E.
  unfold Connect_prepare in E. destruct (negb (answer_address a)); [injection E as <- <-; by left|].
  do 3 (destruct (negb _); [injection E as <- <-; by left|]). destruct (answer_associate a); [|injection E as <- <-; by left].
  cbn in E. destruct (Connect_register connect_error s) as [x t] eqn:Er. injection E as <- <-. right. by eexists.
Qed.

(** ** Completion and stop *)

Definition MoveToStoppedIfDrainedLocked (s : TcpConnector) : bool * TcpConnector :=
  if bool_decide (state_ s = Stopping) && (outstanding_connects_ s =? 0) then (true, set_state Stopped s) else (false, s).

(** The first critical section of [OnConnectComplete]: the error for the handler and the socket
    for it, [false] for none.  [error] is the error of the completion, [setsockopt_error] the
    one of [setsockopt], or 0. *)
Definition OnConnectComplete_first (id : Z) (error : ErrorCode) (setsockopt_error : Z) (s : TcpConnector)
    : ErrorCode * bool * TcpConnector :=
  let socket := default false (pending_sockets_ s !! id) in
  let s := set_pending (delete id (pending_sockets_ s)) s in
  if negb (bool_decide (state_ s = Running)) then
    (OperationCanceled, false, set_counts (successful_connects_ s) (failed_connects_ s) (u64 (cancelled_connects_ s + 1)) s)
  else if bool_decide (error = NoError) then
    if negb (setsockopt_error =? 0) then
      (SystemError setsockopt_error, false, set_counts (successful_connects_ s) (u64 (failed_connects_ s + 1)) (cancelled_connects_ s) s)
    else (NoError, socket, set_counts (u64 (successful_connects_ s + 1)) (failed_connects_ s) (cancelled_connects_ s) s)
  else (error, false, set_counts (successful_connects_ s) (u64 (failed_connects_ s + 1)) (cancelled_connects_ s) s).

(** The critical section behind the handler *)
Definition OnConnectComplete_last (s : TcpConnector) : bool * TcpConnector :=
  MoveToStoppedIfDrainedLocked
    (if 0 <? outstanding_connects_ s then set_outstanding (outstanding_connects_ s - 1) s else s).

Definition Stop (s : TcpConnector) : bool * TcpConnector :=
  if bool_decide (state_ s = Stopped) || bool_decide (state_ s = Stopping) then (false, s)
  else MoveToStoppedIfDrainedLocked (set_pending ((fun _ => false) <$> pending_sockets_ s) (set_state Stopping s)).

(** The condition of [WaitStopped] *)
Definition IsStopped (s : TcpConnector) : bool := bool_decide (state_ s = Stopped).

Definition Snapshot (s : TcpConnector) : TcpConnectorSnapshot :=
  mkConnectorSnapshot (state_ s) (outstanding_connects_ s) (successful_connects_ s) (failed_connects_ s) (cancelled_connects_ s).

(** ** The system *)

Inductive Phase := Pending | Completed (error : ErrorCode) | Calling (error : ErrorCode) (socket : bool) | Returned.

Record Operation := mkOp { op_id : Z; op_phase : Phase }.
Record Call := mkCall { call_id : Z; call_error : ErrorCode; call_socket : bool }.

Record System := mkSystem {
  connector : TcpConnector;
  ops : list Operation;
  accepted : list Z;
  calls : list Call;
  start_failures : Z;
}.

(** What the completion port and its threads do.  The error of a completion is one of the
    system.  A handler that throws is like one that returns. *)
Inductive completion_step : System -> System -> Prop :=
  | step_dequeue s l i r error : ops s = l ++ mkOp i Pending :: r -> error <> OperationCanceled ->
      completion_step s (mkSystem (connector s) (l ++ mkOp i (Completed error) :: r) (accepted s) (calls s) (start_failures s))
  | step_first s l i r error setsockopt_error e socket s' : ops s = l ++ mkOp i (Completed error) :: r ->
      OnConnectComplete_first i error setsockopt_error (connector s) = (e, socket, s') ->
      completion_step s (mkSystem s' (l ++ mkOp i (Calling e socket) :: r) (accepted s) (calls s ++ [mkCall i e socket]) (start_failures s))
  | step_returned s l i r e socket : ops s = l ++ mkOp i (Calling e socket) :: r ->
      completion_step s (mkSystem (connector s) (l ++ mkOp i Returned :: r) (accepted s) (calls s) (start_failures s))
  | step_last s l i r b s' : ops s = l ++ mkOp i Returned :: r -> OnConnectComplete_last (connector s) = (b, s') ->
      completion_step s (mkSystem s' (l ++ r) (accepted s) (calls s) (start_failures s)).

Inductive connector_step : System -> System -> Prop :=
  | step_completion s s' : completion_step s s' -> connector_step s s'
  | step_register s connect_error r s' : Connect_register connect_error (connector s) = (r, s') ->
      next_operation_id_ (connector s) + 1 < 2 ^ 64 -> zlen (ops s) + 1 < 2 ^ 64 ->
      connector_step s
        match start_status r with
        | ConnectAccepted =>
            let id := next_operation_id_ (connector s) in
            mkSystem s' (ops s ++ [mkOp id Pending]) (accepted s ++ [id]) (calls s) (start_failures s)
        | ConnectStopped => mkSystem s' (ops s) (accepted s) (calls s) (start_failures s)
        | ConnectStartFailed => mkSystem s' (ops s) (accepted s) (calls s) (start_failures s + 1)
        end
  | step_stop s b s' : Stop (connector s) = (b, s') ->
      connector_step s (mkSystem s' (ops s) (accepted s) (calls s) (start_failures s)).

Inductive connector_reachable : System -> Prop :=
  | connector_created s : TcpConnector_make true = Ok s -> connector_reachable (mkSystem s [] [] [] 0)
  | connector_next s s' : connector_reachable s -> connector_step s s' -> connector_reachable s'.

(** ** The invariant *)

(** The handler of the request was not called. *)
Definition uncalled (o : Operation) : bool := match op_phase o with Pending | Completed _ => true | _ => false end.
Definition uncalled_ids (l : list Operation) : list Z := map op_id (List.filter uncalled l).

(** Counts of the calls of handlers *)
Definition count (f : ErrorCode -> bool) (l : list Call) : Z := zlen (List.filter (fun c => f (call_error c)) l).
Definition is_success (e : ErrorCode) : bool := match e with NoError => true | _ => false end.
Definition is_failure (e : ErrorCode) : bool := match e with SystemError _ => true | _ => false end.
Definition is_cancelled (e : ErrorCode) : bool := match e with OperationCanceled => true | _ => false end.

Record cinv (s : System) : Prop := {
  ci_count : outstanding_connects_ (connector s) = zlen (ops s);
  ci_small : zlen (ops s) < 2 ^ 64;
  ci_next : 1 <= next_operation_id_ (connector s) < 2 ^ 64;
  ci_old : Forall (fun i => i < next_operation_id_ (connector s)) (accepted s);
  ci_accepted : accepted s ≡ₚ uncalled_ids (ops s) ++ map call_id (calls s);
  ci_once : NoDup (accepted s);
  ci_pending : forall i, pending_sockets_ (connector s) !! i =
    if bool_decide (i ∈ uncalled_ids (ops s)) then Some (bool_decide (state_ (connector s) = Running)) else None;
  ci_stopped : state_ (connector s) <> Running -> state_ (connector s) = Stopped <-> ops s = [];
  ci_successful : successful_connects_ (connector s) = u64 (count is_success (calls s));
  ci_failed : failed_connects_ (connector s) = u64 (count is_failure (calls s) + start_failures s);
  ci_cancelled : cancelled_connects_ (connector s) = u64 (count is_cancelled (calls s));
  ci_sockets : Forall (fun c => call_socket c = is_success (call_error c)) (calls s);
  ci_errors : Forall (fun o => op_phase o <> Completed OperationCanceled) (ops s);
}.

Ltac fields := cbn [connector ops accepted calls start_failures set_state set_outstanding set_pending set_counts state_ next_operation_id_
  pending_sockets_ outstanding_connects_ successful_connects_ failed_connects_ cancelled_connects_].

Lemma uncalled_app l k : uncalled_ids (l ++ k) = uncalled_ids l ++ uncalled_ids k.
Proof. unfold uncalled_ids. by rewrite List.filter_app, map_app. Qed.

Lemma uncalled_cons o l : uncalled_ids (o :: l) = (if uncalled o then [op_id o] else []) ++ uncalled_ids l.
Proof. unfold uncalled_ids. cbn. by destruct (uncalled o). Qed.

Lemma count_app f l k : count f (l ++ k) = count f l + count f k.
Proof. unfold count. by rewrite List.filter_app, zlen_app. Qed.

Lemma count_one f c : count f [c] = if f (call_error c) then 1 else 0.
Proof. unfold count. cbn. by destruct (f (call_error c)). Qed.

Lemma u64_plus a b : u64 (u64 a + b) = u64 (a + b).
Proof. unfold u64. by rewrite Zplus_mod_idemp_l. Qed.

Lemma Forall_middle {A} (P : A -> Prop) l x y r : Forall P (l ++ x :: r) -> P y -> Forall P (l ++ y :: r).
Proof. intros [H1 H2]%Forall_app Hy. apply Forall_cons in H2 as [_ H2]. apply Forall_app. split; [done|by constructor]. Qed.

Lemma cinv_phase s l i p p' r : cinv s -> ops s = l ++ mkOp i p :: r -> uncalled (mkOp i p') = uncalled (mkOp i p) ->
  p' <> Completed OperationCanceled ->
  cinv (mkSystem (connector s) (l ++ mkOp i p' :: r) (accepted s) (calls s) (start_failures s)).
Proof.
  intros [H1 H2 H3 H4 H5 H6 H7 H8 H9 H10 H11 H12 H13] E Hu Hp. rewrite E in *.
  assert (Hlen : zlen (l ++ mkOp i p' :: r) = zlen (l ++ mkOp i p :: r)) by (by rewrite !zlen_app, !zlen_cons).
  assert (Hids : uncalled_ids (l ++ mkOp i p' :: r) = uncalled_ids (l ++ mkOp i p :: r)) by (by rewrite !uncalled_app, !uncalled_cons, Hu).
  split; cbn [connector ops accepted calls start_failures]; rewrite ?Hlen, ?Hids; try done.
  - intros Hr. rewrite (H8 Hr). split; intros Hx; by destruct l.
  - by eapply Forall_middle.
Qed.

Lemma cinv_first s l i r error setsockopt_error e socket s' : cinv s -> ops s = l ++ mkOp i (Completed error) :: r ->
  OnConnectComplete_first i error setsockopt_error (connector s) = (e, socket, s') ->
  cinv (mkSystem s' (l ++ mkOp i (Calling e socket) :: r) (accepted s) (calls s ++ [mkCall i e socket]) (start_failures s)).
Proof.
  intros [H1 H2 H3 H4 H5 H6 H7 H8 H9 H10 H11 H12 H13] E Ef. rewrite E in *.
  assert (Hlen : forall p, zlen (l ++ mkOp i p :: r) = zlen (l ++ mkOp i (Completed error) :: r)) by (intros; by rewrite !zlen_app, !zlen_cons).
  rewrite !uncalled_app, !uncalled_cons in H5. cbn [uncalled op_phase op_id] in H5. cbn in H5. rewrite <- Permutation_middle in H5. cbn in H5.
  assert (Hni : i ∉ uncalled_ids l ++ uncalled_ids r).
  { rewrite H5 in H6. apply NoDup_cons in H6 as [H6 _]. set_solver. }
  assert (Hi : pending_sockets_ (connector s) !! i = Some (bool_decide (state_ (connector s) = Running))).
  { rewrite H7, bool_decide_eq_true_2; [done|]. rewrite uncalled_app, uncalled_cons. set_solver. }
  assert (Hpend : forall j, delete i (pending_sockets_ (connector s)) !! j =
    if bool_decide (j ∈ uncalled_ids (l ++ mkOp i (Calling e socket) :: r)) then Some (bool_decide (state_ (connector s) = Running)) else None).
  { intros j. rewrite uncalled_app, uncalled_cons. cbn [uncalled op_phase app]. destruct (decide (j = i)) as [->|Hj].
    - by rewrite lookup_delete_eq, bool_decide_eq_false_2.
    - rewrite lookup_delete_ne, H7 by done. rewrite uncalled_app, uncalled_cons. cbn [uncalled op_phase app op_id].
      erewrite bool_decide_ext; [done|]. set_solver. }
  assert (Hp : forall t, outstanding_connects_ t = outstanding_connects_ (connector s) -> next_operation_id_ t = next_operation_id_ (connector s) ->
    state_ t = state_ (connector s) -> pending_sockets_ t = delete i (pending_sockets_ (connector s)) ->
    successful_connects_ t = u64 (successful_connects_ (connector s) + if is_success e then 1 else 0) ->
    failed_connects_ t = u64 (failed_connects_ (connector s) + if is_failure e then 1 else 0) ->
    cancelled_connects_ t = u64 (cancelled_connects_ (connector s) + if is_cancelled e then 1 else 0) ->
    socket = is_success e ->
    cinv (mkSystem t (l ++ mkOp i (Calling e socket) :: r) (accepted s) (calls s ++ [mkCall i e socket]) (start_failures s))).
  { intros t T1 T2 T3 T4 T5 T6 T7 T8. split; cbn [connector ops accepted calls start_failures];
      rewrite ?Hlen, ?T1, ?T2, ?T3, ?T4, ?count_app, ?count_one; cbn [call_error]; try done.
    - rewrite map_app, H5, uncalled_app, uncalled_cons. cbn [uncalled op_phase app map call_id].
      rewrite app_assoc. apply Permutation_cons_append.
    - intros Hr. rewrite (H8 Hr). split; intros Hx; by destruct l.
    - by rewrite T5, H9, u64_plus.
    - rewrite T6, H10, u64_plus. f_equal. lia.
    - by rewrite T7, H11, u64_plus.
    - apply Forall_app. split; [done|]. by constructor.
    - by eapply Forall_middle. }
  unfold OnConnectComplete_first in Ef. rewrite Hi in Ef. cbn [default] in Ef.
  apply Forall_app in H13 as [_ [H13 _]%Forall_cons]. cbn in H13.
  assert (U0 : forall x y, x = u64 y -> u64 (x + 0) = x) by (intros x y ->; rewrite u64_plus; f_equal; lia).
  cbn [set_pending state_] in Ef. destruct (bool_decide_reflect (state_ (connector s) = Running)) as [Hr|Hr]; cbn [negb] in Ef.
  - destruct (bool_decide_reflect (error = NoError)) as [->|He].
    + destruct (setsockopt_error =? 0); injection Ef as <- <- <-; apply Hp; cbn; try done; symmetry; by eapply U0.
    + injection Ef as <- <- <-. destruct error; [done| |done]. apply Hp; cbn; try done; symmetry; by eapply U0.
  - injection Ef as <- <- <-. apply Hp; cbn; try done; symmetry; by eapply U0.
Qed.

Lemma cinv_last s l i r b s' : cinv s -> ops s = l ++ mkOp i Returned :: r -> OnConnectComplete_last (connector s) = (b, s') ->
  cinv (mkSystem s' (l ++ r) (accepted s) (calls s) (start_failures s)).
Proof.
  intros [H1 H2 H3 H4 H5 H6 H7 H8 H9 H10 H11 H12 H13] E Ef. rewrite E in *.
  assert (Hlen : outstanding_connects_ (connector s) - 1 = zlen (l ++ r)) by (rewrite H1, !zlen_app, zlen_cons; lia).
  assert (Hids : uncalled_ids (l ++ mkOp i Returned :: r) = uncalled_ids (l ++ r)) by (by rewrite !uncalled_app, uncalled_cons).
  assert (Hp : forall x, (x = state_ (connector s) \/ x = Stopped /\ state_ (connector s) = Stopping) -> (x <> Running -> x = Stopped <-> l ++ r = []) ->
    cinv (mkSystem (set_state x (set_outstanding (zlen (l ++ r)) (connector s))) (l ++ r) (accepted s) (calls s) (start_failures s))).
  { intros x Hx Hst. rewrite zlen_app, zlen_cons in H2. apply Forall_app in H13 as [F1 [_ F2]%Forall_cons].
    rewrite Hids in H5. split; fields; try done.
    - rewrite zlen_app. lia.
    - intros j. rewrite H7, Hids. by destruct Hx as [-> |[-> ->]].
    - by apply Forall_app. }
  unfold OnConnectComplete_last, MoveToStoppedIfDrainedLocked in Ef.
  destruct (Z.ltb_spec 0 (outstanding_connects_ (connector s))) as [_|]; [|zlia].
  cbn [set_outstanding state_ outstanding_connects_] in Ef. rewrite Hlen in Ef.
  destruct (state_ (connector s)) eqn:Hst; cbn in Ef; [|destruct (Z.eqb_spec (zlen (l ++ r)) 0) as [Hz|Hz]|]; injection Ef as <- <-.
  - pose proof (Hp Running) as Hq. unfold set_state, set_outstanding in *. cbn in *. rewrite Hst. apply Hq; [by left|done].
  - apply Hp; [by right|]. intros _. split; [intros _; by apply zlen_0|done].
  - pose proof (Hp Stopping) as Hq. unfold set_state, set_outstanding in *. cbn in *. rewrite Hst. apply Hq; [by left|].
    intros _. split; [done|]. intros Hx. by rewrite Hx in Hz.
  - destruct H8 as [H8 _]; [done|]. specialize (H8 eq_refl). by destruct l.
Qed.

Lemma completion_step_cinv s s' : cinv s -> completion_step s s' -> cinv s'.
Proof.
  intros Hs Hst. destruct Hst as [s l i r error E He|s l i r error se e socket s' E Ef|s l i r e socket E|s l i r b s' E Ef].
  - eapply cinv_phase; try done. congruence.
  - by eapply cinv_first.
  - by eapply cinv_phase.
  - by eapply cinv_last.
Qed.

Lemma cinv_accepted s : cinv s -> next_operation_id_ (connector s) + 1 < 2 ^ 64 -> zlen (ops s) + 1 < 2 ^ 64 ->
  state_ (connector s) = Running -> let id := next_operation_id_ (connector s) in
  cinv (mkSystem (mkConnector Running (u64 (id + 1)) (<[id := true]> (pending_sockets_ (connector s))) (u64 (outstanding_connects_ (connector s) + 1))
     (successful_connects_ (connector s)) (failed_connects_ (connector s)) (cancelled_connects_ (connector s)))
    (ops s ++ [mkOp id Pending]) (accepted s ++ [id]) (calls s) (start_failures s)).
Proof.
  intros [H1 H2 H3 H4 H5 H6 H7 H8 H9 H10 H11 H12 H13] Hn Hz Hr id.
  assert (Hni : id ∉ accepted s).
  { intros Hx. rewrite Forall_forall in H4. specialize (H4 _ Hx). unfold id in H4. lia. }
  split; fields; try done.
  - rewrite H1, zlen_app, u64_small by zlia. zlia.
  - zlia.
  - rewrite u64_small by (unfold id; lia). unfold id. lia.
  - rewrite u64_small by (unfold id; lia). apply Forall_app. split; [eapply Forall_impl; [exact H4|cbn; unfold id; lia]|].
    constructor; [lia|done].
  - rewrite uncalled_app, H5, <- !app_assoc. apply Permutation_app_head. cbn. symmetry. apply Permutation_cons_append.
  - apply NoDup_app. split_and!; [done| |apply NoDup_singleton]. intros x Hx ->%list_elem_of_singleton. done.
  - intros j. rewrite uncalled_app. cbn [uncalled_ids List.filter uncalled op_phase map op_id]. destruct (decide (j = id)) as [->|Hj].
    + rewrite lookup_insert_eq, bool_decide_eq_true_2; [done|]. apply elem_of_app. right. by left.
    + rewrite lookup_insert_ne, H7, Hr by done. erewrite bool_decide_ext; [done|]. rewrite elem_of_app, list_elem_of_singleton. naive_solver.
  - apply Forall_app. split; [done|]. by constructor.
Qed.

Lemma connector_step_cinv s s' : cinv s -> connector_step s s' -> cinv s'.
Proof.
  intros Hs Hst. destruct Hst as [s s' Hst|s ce r s' E Hn Hz|s b s' E]; [by eapply completion_step_cinv| |].
  - unfold Connect_register in E. destruct (bool_decide_reflect (state_ (connector s) = Running)) as [Hr|Hr]; cbn [negb] in E.
    2: { injection E as <- <-. cbn. by destruct Hs. }
    destruct (negb (ce =? 0) && _); injection E as <- <-; cbn [start_status StartFailure].
    + destruct Hs as [H1 H2 H3 H4 H5 H6 H7 H8 H9 H10 H11 H12 H13].
      split; fields; rewrite ?(u64_small (next_operation_id_ (connector s) + 1)) by lia; try done.
      * rewrite H1, (u64_small (_ + 1)), u64_small by zlia. lia.
      * lia.
      * eapply Forall_impl; [exact H4|cbn; lia].
      * intros j. rewrite <- H7. destruct (decide (j = next_operation_id_ (connector s))) as [->|Hj].
        -- rewrite lookup_delete_eq, H7, bool_decide_eq_false_2; [done|]. intros Hx. rewrite Forall_forall in H4.
           specialize (H4 (next_operation_id_ (connector s))). rewrite H5 in H4. set_solver by lia.
        -- by rewrite lookup_delete_ne, lookup_insert_ne.
      * rewrite H10, u64_plus. f_equal. lia.
    + cbn. rewrite Hr. by apply cinv_accepted.
  - unfold Stop, MoveToStoppedIfDrainedLocked in E. cbn in E. destruct Hs as [H1 H2 H3 H4 H5 H6 H7 H8 H9 H10 H11 H12 H13].
    destruct (state_ (connector s)) eqn:Hst; cbn in E; try (injection E as <- <-; split; fields; rewrite ?Hst; done).
    rewrite H1 in E. destruct (Z.eqb_spec (zlen (ops s)) 0) as [Hz|Hz]; injection E as <- <-; (split; fields; try done).
    + intros j. rewrite lookup_fmap, H7. by destruct (bool_decide (j ∈ uncalled_ids (ops s))).
    + intros _. split; [intros _; by apply zlen_0|done].
    + intros j. rewrite lookup_fmap, H7. by destruct (bool_decide (j ∈ uncalled_ids (ops s))).
    + intros _. split; [done|]. intros Hx. by rewrite Hx in Hz.
Qed.

Lemma connector_cinv s : connector_reachable s -> cinv s.
Proof.
  induction 1 as [s E|s s' _ IH Hst]; [|by eapply connector_step_cinv]. injection E as <-.
  split; cbn; try done; try lia; try constructor.
Qed.

(** C15. The promise of [Connect].  In every reachable state, for any threads, completions and
    answers of the socket functions: the handler of an accepted request was called once, or
    its operation is on the way to it, never both and never twice, and a request that was not
    accepted has no call; a handler got an open socket exactly when it was called without an
    error; the counters count the calls by their outcome and the failed starts; sockets that
    wait for their connection are open while the connector runs and closed as soon as it does
    not; and a connector that has stopped has called the handler of every accepted
    request. *)
Theorem connector_exactly_once s : connector_reachable s ->
  NoDup (accepted s) /\ accepted s ≡ₚ uncalled_ids (ops s) ++ map call_id (calls s) /\
  (forall c, c ∈ calls s -> call_socket c = true <-> call_error c = NoError) /\
  outstanding_connects_ (connector s) = zlen (ops s) /\
  successful_connects_ (connector s) = u64 (count is_success (calls s)) /\
  failed_connects_ (connector s) = u64 (count is_failure (calls s) + start_failures s) /\
  cancelled_connects_ (connector s) = u64 (count is_cancelled (calls s)) /\
  (forall i open, pending_sockets_ (connector s) !! i = Some open ->
     i ∈ uncalled_ids (ops s) /\ open = bool_decide (state_ (connector s) = Running)) /\
  (IsStopped (connector s) = true -> accepted s ≡ₚ map call_id (calls s)).
Proof.
  intros [H1 H2 H3 H4 H5 H6 H7 H8 H9 H10 H11 H12 H13]%connector_cinv. split_and!; try done.
  - intros c Hc. rewrite Forall_forall in H12. rewrite (H12 c Hc). by destruct (call_error c).
  - intros i b. rewrite H7. destruct (bool_decide_reflect (i ∈ uncalled_ids (ops s))); [|done]. by intros [= <-].
  - intros Hst%bool_decide_eq_true. rewrite H5. destruct H8 as [H8 _]; [congruence|]. by rewrite (H8 Hst).
Qed.

(** ** Draining *)

Definition phase_work (p : Phase) : nat := match p with Pending => 4 | Completed _ => 3 | Calling _ _ => 2 | Returned => 1 end.
Definition work (l : list Operation) : nat := weight (fun o => phase_work (op_phase o)) l.

Lemma connector_drain_step s s' : state_ (connector s) <> Running -> completion_step s s' ->
  state_ (connector s') <> Running /\ accepted s' = accepted s /\ (work (ops s') < work (ops s))%nat /\
  exists new, calls s' = calls s ++ new /\ Forall (fun c => call_error c = OperationCanceled) new.
Proof.
  intros Hr Hst. destruct Hst as [s l i r error E He|s l i r error se e socket s' E Ef|s l i r e socket E|s l i r b s' E Ef];
    fields; unfold work; rewrite E, !weight_app, ?weight_cons; cbn [op_phase phase_work].
  - split_and!; [done|done|lia|]. exists []. by rewrite app_nil_r.
  - unfold OnConnectComplete_first in Ef. cbn [set_pending state_] in Ef. rewrite bool_decide_eq_false_2 in Ef by done.
    injection Ef as <- <- <-. split_and!; [done|done|lia|]. eexists. split; [done|]. by constructor.
  - split_and!; [done|done|lia|]. exists []. by rewrite app_nil_r.
  - split_and!; [|done|lia|exists []; by rewrite app_nil_r]. unfold OnConnectComplete_last, MoveToStoppedIfDrainedLocked in Ef.
    destruct (0 <? outstanding_connects_ (connector s)); destruct (bool_decide _ && _); by injection Ef as <- <-.
Qed.

Lemma connector_drain_steps k s s' : state_ (connector s) <> Running -> nsteps completion_step k s s' ->
  state_ (connector s') <> Running /\ accepted s' = accepted s /\ (work (ops s') + k <= work (ops s))%nat /\
  exists new, calls s' = calls s ++ new /\ Forall (fun c => call_error c = OperationCanceled) new.
Proof.
  intros Hr Hk. revert Hr. induction Hk as [s|k s t s' Hst _ IH]; intros Hr.
  - split_and!; [done|done|lia|]. exists []. by rewrite app_nil_r.
  - destruct (connector_drain_step s t Hr Hst) as (Ht & Ha & Hw & n1 & Hn1 & F1). destruct (IH Ht) as (I1 & I2 & I3 & n2 & Hn2 & F2).
    split_and!; [done|congruence|lia|]. exists (n1 ++ n2). split; [by rewrite Hn2, Hn1, app_assoc|by apply Forall_app].
Qed.

Lemma connector_drain_progress s : ops s <> [] -> exists s', completion_step s s'.
Proof.
  intros Ho. destruct (ops s) as [|[i p] r] eqn:E; [done|]. change (mkOp i p :: r) with ([] ++ mkOp i p :: r) in E.
  destruct p as [|error|e socket|].
  - eexists. by apply (step_dequeue s [] i r NoError).
  - destruct (OnConnectComplete_first i error 0 (connector s)) as [[e socket] t] eqn:Ef. eexists. by eapply step_first.
  - eexists. by eapply (step_returned s [] i r).
  - destruct (OnConnectComplete_last (connector s)) as [b t] eqn:Ef. eexists. by eapply step_last.
Qed.

Lemma reachable_steps s k s' : cinv s -> nsteps completion_step k s s' -> cinv s'.
Proof. intros Hs Hk. revert Hs. induction Hk as [|k s t s' Hst _ IH]; [done|]. intros Hs. apply IH. by eapply completion_step_cinv. Qed.

(** A connector that was stopped drains: no request is accepted any more, every handler that
    is still called gets [operation_canceled], the completions and their threads take at most
    four steps per outstanding request in whatever order, and as long as the connector is not
    stopped there is another step.  So it stops, and not before all handlers have returned. *)
Theorem connector_drains s k s' : connector_reachable s -> state_ (connector s) <> Running ->
  nsteps completion_step k s s' ->
  Z.of_nat k <= 4 * outstanding_connects_ (connector s) /\ accepted s' = accepted s /\
  (exists new, calls s' = calls s ++ new /\ Forall (fun c => call_error c = OperationCanceled) new) /\
  (IsStopped (connector s') = true /\ ops s' = [] \/ exists s'', completion_step s' s'').
Proof.
  intros Hs%connector_cinv Hr Hk. destruct (connector_drain_steps k s s' Hr Hk) as (Hr' & Ha & Hw & Hn). split_and!; [|done|done|].
  - rewrite (ci_count s Hs). unfold zlen. assert (Hb : (work (ops s) <= 4 * length (ops s))%nat)
      by (apply weight_bound; intros o; destruct (op_phase o); cbn; lia). lia.
  - destruct (ops s') as [|o r] eqn:E; [left|right; apply connector_drain_progress; congruence].
    split; [|done]. unfold IsStopped. apply bool_decide_eq_true. by apply (ci_stopped s' (reachable_steps s k s' Hs Hk)).
Qed.

(** ** A run *)

Definition sample_connects_two : System :=
  mkSystem (mkConnector Running 3 {[ 1 := true; 2 := true ]} 2 0 0 0) [mkOp 1 Pending; mkOp 2 Pending] [1; 2] [] 0.

Lemma sample_connects_two_reachable : connector_reachable sample_connects_two.
Proof.
  pose (s0 := mkSystem (mkConnector Running 1 ∅ 0 0 0 0) [] [] [] 0).
  pose (s1 := mkSystem (mkConnector Running 2 {[ 1 := true ]} 1 0 0 0) [mkOp 1 Pending] [1] [] 0).
  apply (connector_next s1); [apply (connector_next s0)|].
  - by apply connector_created.
  - by apply (step_register s0 WSA_IO_PENDING (mkStartResult ConnectAccepted NoError) (connector s1)).
  - apply (step_register s1 0 (mkStartResult ConnectAccepted NoError) (connector sample_connects_two)); [|done..].
    by vm_compute.
Qed.

(** The first request succeeds, and the connector is stopped while the second waits. *)
Definition sample_connects_stopping : System :=
  mkSystem (mkConnector Stopping 3 {[ 2 := false ]} 2 1 0 0) [mkOp 1 (Calling NoError true); mkOp 2 Pending] [1; 2] [mkCall 1 NoError true] 0.

Lemma sample_connects_stopping_reachable : connector_reachable sample_connects_stopping.
Proof.
  pose (s1 := mkSystem (connector sample_connects_two) [mkOp 1 (Completed NoError); mkOp 2 Pending] [1; 2] [] 0).
  pose (s2 := mkSystem (mkConnector Running 3 {[ 2 := true ]} 2 1 0 0) (ops sample_connects_stopping) [1; 2] [mkCall 1 NoError true] 0).
  apply (connector_next s2); [apply (connector_next s1); [apply (connector_next sample_connects_two); [apply sample_connects_two_reachable|]|]|].
  - apply step_completion. by apply (step_dequeue sample_connects_two [] 1 [mkOp 2 Pending] NoError).
  - apply step_completion. apply (step_first s1 [] 1 [mkOp 2 Pending] NoError 0 NoError true (connector s2)); [done|by vm_compute].
  - apply (step_stop s2 false (connector sample_connects_stopping)). by vm_compute.
Qed.

Lemma connector_exactly_once_witness : NoDup (accepted sample_connects_stopping) /\ outstanding_connects_ (connector sample_connects_stopping) = 2.
Proof.
  destruct (connector_exactly_once sample_connects_stopping sample_connects_stopping_reachable) as (H1 & _ & _ & H4 & _). split; [exact H1|exact H4].
Defined.

Lemma connector_drains_witness : exists s, nsteps completion_step 1 sample_connects_stopping s /\ accepted s = [1; 2].
Proof.
  assert (H : nsteps completion_step 1 sample_connects_stopping
    (mkSystem (connector sample_connects_stopping) [mkOp 1 Returned; mkOp 2 Pending] [1; 2] [mkCall 1 NoError true] 0)).
  { eapply nsteps_l; [|constructor]. by apply (step_returned sample_connects_stopping [] 1 [mkOp 2 Pending] NoError true). }
  eexists. split; [exact H|].
  exact (proj1 (proj2 (connector_drains sample_connects_stopping 1 _ sample_connects_stopping_reachable ltac:(discriminate) H))).
Defined.
