(* ===== verification/IoContext.v ===== *)
(** * The I/O context

    [IoContext] and [IoContextState] of [io_context.h] and [io_context.cpp], with
    [CompletionOperation]: a completion port and the threads that take packets from it.

    The port belongs to the operating system.  What the code relies on is its documented
    behaviour: packets are handed out in the order in which they were queued, each to one
    waiting thread, and a port that is closed releases its waiting threads with an error.  A
    step is one critical section, one packet that is taken and dispatched, or the end of the
    work on it.  Tasks and operations are numbers. *)

From S2P Require Import Prelude.

Definition kTaskCompletionKey : Z := 2 ^ 64 - 1.
Definition kStopCompletionKey : Z := kTaskCompletionKey - 1.

Definition IsReservedCompletionKey (completion_key : Z) : bool :=
  (completion_key =? kTaskCompletionKey) || (completion_key =? kStopCompletionKey).

(** [port_] says whether the port is open. *)
Record IoContextState := mkState {
  worker_count_ : Z;
  port_ : bool;
  stopping_ : bool;
}.

(** [create_error] is the error of [CreateIoCompletionPort], or 0. *)
Definition IoContextState_make (worker_count : Z) (logger : bool) (create_error : Z) : result IoContextState :=
  throw_if (worker_count =? 0) invalid_argument (
  throw_if (negb logger) invalid_argument (
  throw_if (negb (create_error =? 0)) system_error (
  Ok (mkState worker_count true false)))).

(** [handle] says whether the handle is one, [error] is the error of [CreateIoCompletionPort]. *)
Definition Associate (handle : bool) (completion_key error : Z) (s : IoContextState) : result unit :=
  throw_if (negb handle) invalid_argument (
  throw_if (IsReservedCompletionKey completion_key) invalid_argument (
  throw_if (stopping_ s) logic_error (
  throw_if (negb (error =? 0)) system_error (
  Ok tt)))).

(** What can be in the port: a task, a stop packet, the completion of an operation *)
Inductive Packet :=
  | TaskPacket (task : Z)
  | StopPacket
  | IoPacket (operation completion_key transferred_bytes error : Z).

(** [PostTask] with the packets it queues; [post_error] is the error of
    [PostQueuedCompletionStatus], or 0. *)
Definition PostTask (task : option Z) (post_error : Z) (s : IoContextState) : result bool * list Packet :=
  match task with
  | None => (Throw invalid_argument, [])
  | Some t =>
      if stopping_ s then (Ok false, [])
      else if negb (post_error =? 0) then (Throw system_error, [])
      else (Ok true, [TaskPacket t])
  end.

(** The loop of [Stop], with the packets queued and [post_error]: the answers of
    [PostQueuedCompletionStatus] are a function of the index. *)
Fixpoint post_stops (answer : nat -> Z) (index n : nat) : list Packet * Z :=
  match n with
  | O => ([], 0)
  | S n =>
      if answer index =? 0 then let '(packets, post_error) := post_stops answer (S index) n in (StopPacket :: packets, post_error)
      else ([], answer index)
  end.

Definition Stop (answer : nat -> Z) (s : IoContextState) : list Packet * IoContextState :=
  if stopping_ s then ([], s)
  else
    let '(packets, post_error) := post_stops answer 0 (Z.to_nat (worker_count_ s)) in
    (packets, mkState (worker_count_ s) (if post_error =? 0 then port_ s else false) true).

Definition IsStopping (s : IoContextState) : bool := stopping_ s.

Definition Close (s : IoContextState) : IoContextState := mkState (worker_count_ s) false true.

(** ** A worker *)

(** What an [OVERLAPPED*] points to *)
Inductive Overlapped := TaskPointer (task : Z) | OperationPointer (operation : Z).

(** The results of [GetQueuedCompletionStatus] *)
Record Dequeued := mkDequeued {
  succeeded : bool;
  transferred_bytes : Z;
  completion_key : Z;
  overlapped : option Overlapped;
  dequeue_error : Z;
}.

Definition GetQueuedCompletionStatus (p : Packet) : Dequeued :=
  match p with
  | TaskPacket t => mkDequeued true 0 kTaskCompletionKey (Some (TaskPointer t)) 0
  | StopPacket => mkDequeued true 0 kStopCompletionKey None 0
  | IoPacket o k n e => mkDequeued (e =? 0) n k (Some (OperationPointer o)) e
  end.

Definition ERROR_ABANDONED_WAIT_0 : Z := 735.
Definition abandoned : Dequeued := mkDequeued false 0 0 None ERROR_ABANDONED_WAIT_0.

Inductive Action :=
  | ExecuteTask (task : Z)
  | ExitWorker
  | IgnorePacket
  | CompleteOperation (operation transferred_bytes error completion_key : Z).

(** The body of the loop of [RunWorker]; a pointer that is cast to the wrong type is undefined
    behaviour. *)
Definition RunWorker_dispatch (d : Dequeued) : result Action :=
  let error := if succeeded d then 0 else dequeue_error d in
  match overlapped d with
  | Some (TaskPointer t) => if completion_key d =? kTaskCompletionKey then Ok (ExecuteTask t) else Throw UndefinedBehavior
  | Some (OperationPointer o) =>
      if completion_key d =? kTaskCompletionKey then Throw UndefinedBehavior
      else Ok (CompleteOperation o (transferred_bytes d) error (completion_key d))
  | None =>
      if succeeded d && (completion_key d =? kStopCompletionKey) then Ok ExitWorker
      else if negb (succeeded d) then Ok ExitWorker
      else Ok IgnorePacket
  end.

#[export] Instance Action_eq_dec : EqDecision Action.
Proof. solve_decision. Defined.

Inductive Worker := WorkerWaiting | WorkerBusy (action : Action) | WorkerExited.

#[export] Instance Worker_eq_dec : EqDecision Worker.
Proof. solve_decision. Defined.

(** The constructor: the state and its threads, or an exception.  If not all threads can be
    started, those that were are stopped and joined. *)
Definition IoContext_make (worker_count : Z) (logger : bool) (create_error : Z) (threads : bool)
    : result (IoContextState * list Worker) :=
  s ← IoContextState_make worker_count logger create_error;
  if max_thread_vector <? worker_count then Throw length_error
  else if negb threads then Throw system_error
  else Ok (s, replicate (Z.to_nat worker_count) WorkerWaiting).

(** [Join] up to the waiting; [self] says that the caller is one of the workers. *)
Definition Join (self : bool) (s : IoContextState) : result unit :=
  throw_if (negb (IsStopping s)) logic_error (throw_if self logic_error (Ok tt)).

(** Whether the joins return *)
Definition joined (workers : list Worker) : bool := forallb (fun w => match w with WorkerExited => true | _ => false end) workers.

Definition WorkerCount (workers : list Worker) : Z := zlen workers.

(** ** The system *)

Record System := mkSystem {
  context : IoContextState;
  queue : list Packet;
  workers : list Worker;
  associated : list Z;
  accepted : list Z;
  started : list Z;
  completed : list Action;
}.

Definition after_dispatch (a : Action) : Worker := match a with ExitWorker => WorkerExited | _ => WorkerBusy a end.
Definition started_task (a : Action) : list Z := match a with ExecuteTask t => [t] | _ => [] end.
Definition completed_io (a : Action) : list Action := match a with CompleteOperation _ _ _ _ => [a] | _ => [] end.

(** What the workers do on their own *)
Inductive worker_step : System -> System -> Prop :=
  | step_dequeue s p q l r a : port_ (context s) = true -> queue s = p :: q -> workers s = l ++ WorkerWaiting :: r ->
      RunWorker_dispatch (GetQueuedCompletionStatus p) = Ok a ->
      worker_step s (mkSystem (context s) q (l ++ after_dispatch a :: r) (associated s) (accepted s)
                       (started s ++ started_task a) (completed s ++ completed_io a))
  | step_abandoned s l r a : port_ (context s) = false -> workers s = l ++ WorkerWaiting :: r ->
      RunWorker_dispatch abandoned = Ok a ->
      worker_step s (mkSystem (context s) (queue s) (l ++ after_dispatch a :: r) (associated s) (accepted s) (started s) (completed s))
  | step_done s l a r : workers s = l ++ WorkerBusy a :: r ->
      worker_step s (mkSystem (context s) (queue s) (l ++ WorkerWaiting :: r) (associated s) (accepted s) (started s) (completed s)).

(** Packets that are in a port when it is closed are lost. *)
Definition port_queue (s : IoContextState) (q : list Packet) : list Packet := if port_ s then q else [].

Inductive io_step : System -> System -> Prop :=
  | step_worker s s' : worker_step s s' -> io_step s s'
  | step_associate s key : Associate true key 0 (context s) = Ok tt ->
      io_step s (mkSystem (context s) (queue s) (workers s) (key :: associated s) (accepted s) (started s) (completed s))
  | step_io s o key n e : port_ (context s) = true -> key ∈ associated s ->
      io_step s (mkSystem (context s) (queue s ++ [IoPacket o key n e]) (workers s) (associated s) (accepted s) (started s) (completed s))
  | step_post s t post_error b q : PostTask (Some t) post_error (context s) = (Ok b, q) ->
      io_step s (mkSystem (context s) (queue s ++ q) (workers s) (associated s) (accepted s ++ if (b : bool) then [t] else []) (started s) (completed s))
  | step_stop s answer q c : Stop answer (context s) = (q, c) ->
      io_step s (mkSystem c (port_queue c (queue s ++ q)) (workers s) (associated s) (accepted s) (started s) (completed s)).

Inductive io_reachable : System -> Prop :=
  | io_created n logger create_error s w : 0 <= n -> IoContext_make n logger create_error true = Ok (s, w) ->
      io_reachable (mkSystem s [] w [] [] [] [])
  | io_next s s' : io_reachable s -> io_step s s' -> io_reachable s'.

(** ** The invariant *)

Definition tasks_of (q : list Packet) : list Z := omap (fun p => match p with TaskPacket t => Some t | _ => None end) q.
Definition stops (q : list Packet) : nat := weight (fun p => match p with StopPacket => 1 | _ => 0 end)%nat q.
Definition exited (w : list Worker) : nat := weight (fun w => match w with WorkerExited => 1 | _ => 0 end)%nat w.

(** No task is behind a stop packet. *)
Definition tasks_first (q : list Packet) : Prop := exists q1 q2, q = q1 ++ q2 /\ stops q1 = 0%nat /\ tasks_of q2 = [].

(** What the worker should do with a packet *)
Definition action_of (p : Packet) : Action :=
  match p with
  | TaskPacket t => ExecuteTask t
  | StopPacket => ExitWorker
  | IoPacket o k n e => CompleteOperation o n e k
  end.

Definition packet_ok (p : Packet) : Prop := match p with IoPacket _ k _ _ => IsReservedCompletionKey k = false | _ => True end.

Record iinv (s : System) : Prop := {
  ii_count : zlen (workers s) = worker_count_ (context s) /\ 1 <= worker_count_ (context s);
  ii_running : stopping_ (context s) = false -> port_ (context s) = true /\ stops (queue s) = 0%nat /\ exited (workers s) = 0%nat;
  ii_stopping : stopping_ (context s) = true -> port_ (context s) = true ->
    (stops (queue s) + exited (workers s))%nat = length (workers s);
  ii_first : tasks_first (queue s);
  ii_exited : (0 < exited (workers s))%nat -> tasks_of (queue s) = [];
  ii_open : port_ (context s) = true -> accepted s = started s ++ tasks_of (queue s);
  ii_closed : port_ (context s) = false -> queue s = [] /\ started s `prefix_of` accepted s;
  ii_packets : Forall packet_ok (queue s);
  ii_keys : Forall (fun k => IsReservedCompletionKey k = false) (associated s);
}.

Lemma dispatch_ok p : packet_ok p -> RunWorker_dispatch (GetQueuedCompletionStatus p) = Ok (action_of p).
Proof.
  destruct p as [t| |o k n e]; [done..|]. cbn. unfold IsReservedCompletionKey. intros [-> _]%orb_false_iff.
  unfold RunWorker_dispatch. cbn. by destruct (Z.eqb_spec e 0) as [->|].
Qed.

Lemma tasks_app q k : tasks_of (q ++ k) = tasks_of q ++ tasks_of k.
Proof. apply omap_app. Qed.

Lemma stops_app q k : stops (q ++ k) = (stops q + stops k)%nat.
Proof. apply weight_app. Qed.

(** The number of threads that have left changes with the worker only. *)
Lemma exited_set l x y r : exited (l ++ x :: r) = exited (l ++ WorkerWaiting :: r) -> exited (l ++ y :: r) =
  (exited (l ++ x :: r) + match y with WorkerExited => 1 | _ => 0 end)%nat.
Proof. unfold exited. rewrite !weight_app, !weight_cons. intros. destruct x, y; lia. Qed.

Lemma iinv_dequeue s p q l r : iinv s -> port_ (context s) = true -> queue s = p :: q -> workers s = l ++ WorkerWaiting :: r ->
  let a := action_of p in
  iinv (mkSystem (context s) q (l ++ after_dispatch a :: r) (associated s) (accepted s) (started s ++ started_task a) (completed s ++ completed_io a)).
Proof.
  intros [H1 H2 H3 H4 H5 H6 H7 H8 H9] Hp Eq Ew a. rewrite Eq, Ew in *.
  pose proof (exited_set l WorkerWaiting (after_dispatch a) r eq_refl) as He.
  destruct H4 as (q1 & q2 & Hq & Hq1 & Hq2). apply Forall_cons in H8 as [H8 H8'].
  assert (Hstop : p = StopPacket -> q1 = []).
  { intros ->. destruct q1 as [|x q1]; [done|]. injection Hq as <- _. done. }
  assert (Hs : stops (p :: q) = ((match p with StopPacket => 1 | _ => 0 end) + stops q)%nat) by reflexivity.
  split; cbn [context queue workers associated accepted started completed]; try done.
  - rewrite !zlen_app, !zlen_cons in *. done.
  - intros Hn. destruct (H2 Hn) as (? & ? & Hx). rewrite He, Hx. destruct p; cbn in *; split_and!; done || lia.
  - intros Hn _. specialize (H3 Hn Hp). rewrite length_app in *. cbn [length] in *. rewrite He. destruct p; cbn [after_dispatch action_of a] in *; lia.
  - destruct q1 as [|x q1]; cbn in Hq.
    + exists [], q. split_and!; [done|done|]. destruct q2 as [|y q2]; [done|]. injection Hq as <- <-. by destruct p.
    + injection Hq as <- ->. exists q1, q2. split_and!; [done| |done]. unfold stops in *. rewrite weight_cons in Hq1. lia.
  - intros Hx. rewrite He in Hx. destruct p as [t| |o k n e]; cbn [after_dispatch action_of a] in Hx.
    + assert (Hn : tasks_of (TaskPacket t :: q) = []) by (apply H5; lia). done.
    + rewrite (Hstop eq_refl) in Hq. cbn in Hq. destruct q2; [done|]. injection Hq as <- <-. done.
    + assert (Hn : tasks_of (IoPacket o k n e :: q) = []) by (apply H5; lia). done.
  - intros _. rewrite (H6 Hp), <- app_assoc. f_equal. by destruct p.
  - intros Hn. congruence.
Qed.

Lemma post_stops_spec answer n : forall index packets e, post_stops answer index n = (packets, e) ->
  e = 0 -> packets = replicate n StopPacket.
Proof.
  induction n as [|n IH]; intros index packets e E He; cbn in E; [by injection E as <- _|].
  destruct (Z.eqb_spec (answer index) 0) as [_|Hx]; [|injection E as _ <-; done].
  destruct (post_stops answer (S index) n) as [k e'] eqn:Ek. injection E as <- ->. cbn. f_equal. by eapply IH.
Qed.

Lemma stops_replicate n : stops (replicate n StopPacket) = n.
Proof. unfold stops. induction n as [|n IH]; [done|]. cbn [replicate]. rewrite weight_cons, IH. done. Qed.
Lemma tasks_replicate n : tasks_of (replicate n StopPacket) = [].
Proof. by induction n. Qed.

Lemma io_iinv_stop s answer q c : iinv s -> Stop answer (context s) = (q, c) ->
  iinv (mkSystem c (port_queue c (queue s ++ q)) (workers s) (associated s) (accepted s) (started s) (completed s)).
Proof.
  intros Hs E. unfold Stop in E. destruct (stopping_ (context s)) eqn:Est.
  - injection E as <- <-. rewrite app_nil_r. unfold port_queue. destruct (port_ (context s)) eqn:Ep; [by destruct Hs|].
    destruct (ii_closed s Hs Ep) as [<- _]. by destruct Hs.
  - destruct Hs as [H1 H2 H3 H4 H5 H6 H7 H8 H9]. destruct (H2 Est) as (Hp & Hz & Hx).
    destruct (post_stops answer 0 _) as [k e] eqn:Ek. injection E as <- <-. unfold port_queue. cbn [port_].
    destruct (Z.eqb_spec e 0) as [He|He].
    + rewrite (post_stops_spec _ _ _ _ _ Ek He). set (n := Z.to_nat (worker_count_ (context s))).
      assert (Hn : n = length (workers s)) by (unfold n, zlen in *; lia). rewrite Hp.
      split; cbn [context queue workers associated accepted started completed worker_count_ port_ stopping_]; try done.
      * intros _ _. rewrite stops_app, stops_replicate. lia.
      * exists (queue s), (replicate n StopPacket). split_and!; [done|done|apply tasks_replicate].
      * intros Hy. lia.
      * intros _. rewrite tasks_app, tasks_replicate, app_nil_r. by apply H6.
      * apply Forall_app. split; [done|]. clear. induction n; cbn; by constructor.
    + split; cbn [context queue workers associated accepted started completed worker_count_ port_ stopping_]; try done.
      * by exists [], [].
      * intros _. split; [done|]. rewrite (H6 Hp). by eexists.
Qed.

Lemma worker_step_iinv s s' : iinv s -> worker_step s s' -> iinv s'.
Proof.
  intros Hs Hst. destruct Hst as [s p q l r a Hp Eq Ew Ea|s l r a Hp Ew Ea|s l a r Ew].
  - assert (Hok : packet_ok p) by (pose proof (ii_packets s Hs) as Hx; rewrite Eq in Hx; by apply Forall_cons in Hx as [? _]).
    rewrite (dispatch_ok p Hok) in Ea. injection Ea as <-. by eapply iinv_dequeue.
  - injection Ea as <-. destruct Hs as [H1 H2 H3 H4 H5 H6 H7 H8 H9]. rewrite Ew in *. destruct (H7 Hp) as [Hq _].
    split; cbn [context queue workers associated accepted started completed]; try done; try congruence.
    + rewrite !zlen_app, !zlen_cons in *. done.
    + intros Hn. destruct (H2 Hn). congruence.
    + intros _. by rewrite Hq.
  - destruct Hs as [H1 H2 H3 H4 H5 H6 H7 H8 H9]. rewrite Ew in *.
    assert (He : exited (l ++ WorkerWaiting :: r) = exited (l ++ WorkerBusy a :: r)) by (unfold exited; by rewrite !weight_app, !weight_cons).
    split; cbn [context queue workers associated accepted started completed]; rewrite ?He; try done.
    + rewrite !zlen_app, !zlen_cons in *. done.
    + rewrite length_app in *. done.
Qed.

Lemma io_step_iinv s s' : iinv s -> io_step s s' -> iinv s'.
Proof.
  intros Hs Hst. destruct Hst as [s s' Hst|s key E|s o key n e Hp Hk|s t pe b q E|s answer q c E].
  - by eapply worker_step_iinv.
  - unfold Associate, throw_if in E. cbn in E. destruct (IsReservedCompletionKey key) eqn:Ek; [done|].
    destruct Hs as [H1 H2 H3 H4 H5 H6 H7 H8 H9]. split; cbn; try done. by constructor.
  - destruct Hs as [H1 H2 H3 H4 H5 H6 H7 H8 H9].
    assert (H0 : stops (queue s ++ [IoPacket o key n e]) = stops (queue s)) by (rewrite stops_app; cbn; lia).
    assert (T0 : tasks_of (queue s ++ [IoPacket o key n e]) = tasks_of (queue s)) by (by rewrite tasks_app, app_nil_r).
    split; cbn [context queue workers associated accepted started completed]; rewrite ?H0, ?T0; try done; try congruence.
    + destruct H4 as (q1 & q2 & -> & Hq1 & Hq2). exists q1, (q2 ++ [IoPacket o key n e]). rewrite app_assoc, tasks_app, Hq2. done.
    + apply Forall_app. split; [done|]. constructor; [|done]. rewrite Forall_forall in H9. by apply H9.
  - cbn in E. destruct (stopping_ (context s)) eqn:Est; [injection E as <- <-; rewrite !app_nil_r; by destruct Hs|].
    destruct (negb (pe =? 0)); [done|]. injection E as <- <-. destruct Hs as [H1 H2 H3 H4 H5 H6 H7 H8 H9]. destruct (H2 Est) as (Hp & Hz & Hx).
    split; cbn [context queue workers associated accepted started completed]; try done; try congruence.
    + intros _. rewrite stops_app, Hz. done.
    + exists (queue s ++ [TaskPacket t]), []. rewrite app_nil_r, stops_app, Hz. done.
    + lia.
    + intros _. by rewrite tasks_app, (H6 Hp), app_assoc.
    + apply Forall_app. split; [done|]. by constructor.
  - by eapply io_iinv_stop.
Qed.

Lemma exited_new n : exited (replicate n WorkerWaiting) = 0%nat.
Proof. unfold exited. by induction n. Qed.

Lemma io_iinv s : io_reachable s -> iinv s.
Proof.
  induction 1 as [n logger ce s w Hn E|s s' _ IH Hst]; [|by eapply io_step_iinv].
  unfold IoContext_make, IoContextState_make, throw_if in E. destruct (Z.eqb_spec n 0) as [|Hn0]; [done|].
  destruct (negb logger); [done|]. destruct (negb (ce =? 0)); [done|]. cbn [mbind result_bind negb] in E.
  destruct (max_thread_vector <? n); [done|]. injection E as <- <-.
  split; cbn [context queue workers associated accepted started completed worker_count_ port_ stopping_]; try done; rewrite ?exited_new; try done.
  - rewrite zlen_replicate. lia.
  - by exists [], [].
Qed.

(** The dispatch of the completion port.  In every reachable state, for any tasks, handles,
    completions and threads: every packet in the port is taken for what it is, as a task, a
    stop packet, or the completion of its operation with its result, and no pointer is cast to
    the wrong type; tasks are started in the order in which they were accepted, each once; as
    long as the port is open every accepted task was started or waits in the port; no worker
    leaves before [Stop]; and when the first worker has left, all accepted tasks were started,
    because no task is queued behind a stop packet. *)
Theorem io_context_dispatches s : io_reachable s ->
  Forall (fun p => RunWorker_dispatch (GetQueuedCompletionStatus p) = Ok (action_of p)) (queue s) /\
  started s `prefix_of` accepted s /\
  (port_ (context s) = true -> accepted s = started s ++ tasks_of (queue s)) /\
  (IsStopping (context s) = false -> exited (workers s) = 0%nat) /\
  (port_ (context s) = true -> (0 < exited (workers s))%nat -> started s = accepted s).
Proof.
  intros [H1 H2 H3 H4 H5 H6 H7 H8 H9]%io_iinv. split_and!.
  - eapply Forall_impl; [exact H8|]. intros p. apply dispatch_ok.
  - destruct (port_ (context s)); [|by apply H7]. rewrite H6 by done. by eexists.
  - done.
  - intros Hn. by destruct (H2 Hn) as (_ & _ & ?).
  - intros Hp Hx. by rewrite (H6 Hp), (H5 Hx), app_nil_r.
Qed.

(** ** Stopping *)

Definition worker_work (w : Worker) : nat := match w with WorkerBusy _ => 2 | WorkerWaiting => 1 | WorkerExited => 0 end.
Definition io_work (s : System) : nat := 2 * length (queue s) + weight worker_work (workers s).

Lemma io_worker_step_work s s' : worker_step s s' ->
  (io_work s' < io_work s)%nat /\ context s' = context s /\ accepted s' = accepted s.
Proof.
  intros Hst. unfold io_work. destruct Hst as [s p q l r a Hp Eq Ew Ea|s l r a Hp Ew Ea|s l a r Ew]; cbn [queue workers context accepted];
    rewrite ?Eq, Ew, !weight_app, !weight_cons; cbn [length worker_work]; (split; [|done]).
  - destruct a; cbn; lia.
  - injection Ea as <-. cbn. lia.
  - lia.
Qed.

Lemma worker_steps_work k s s' : iinv s -> nsteps worker_step k s s' ->
  iinv s' /\ (io_work s' + k <= io_work s)%nat /\ context s' = context s /\ accepted s' = accepted s.
Proof.
  intros Hs Hk. revert Hs. induction Hk as [s|k s t s' Hst _ IH]; intros Hs; [split_and!; done || lia|].
  destruct (io_worker_step_work s t Hst) as (? & ? & ?). destruct IH as (? & ? & ? & ?); [by eapply worker_step_iinv|].
  split_and!; [done|lia|congruence|congruence].
Qed.

(** The state of some worker, unless all have left *)
Lemma not_joined w : joined w = true \/ exists l x r, w = l ++ x :: r /\ x <> WorkerExited.
Proof.
  unfold joined. induction w as [|x w IH]; [by left|]. destruct (decide (x = WorkerExited)) as [->|Hx].
  - destruct IH as [IH|(l & y & r & -> & Hy)]; [by left|right]. by exists (WorkerExited :: l), y, r.
  - right. by exists [], x, w.
Qed.

Lemma joined_exited w : joined w = true -> exited w = length w.
Proof.
  unfold joined, exited. induction w as [|x w IH]; [done|]. cbn [forallb]. intros [Hx Hw]%andb_true_iff.
  rewrite weight_cons, IH by done. by destruct x.
Qed.

Lemma exited_bound l x r : x <> WorkerExited -> (exited (l ++ x :: r) < length (l ++ x :: r))%nat.
Proof.
  intros Hx. unfold exited. rewrite weight_app, weight_cons, length_app. cbn [length].
  assert (Hb : forall k, (weight (fun w => match w with WorkerExited => 1 | _ => 0 end)%nat k <= 1 * length k)%nat)
    by (intros k; apply weight_bound; intros []; lia).
  pose proof (Hb l). pose proof (Hb r). destruct x; [lia..|done].
Qed.

Lemma stopping_progress s : iinv s -> stopping_ (context s) = true -> joined (workers s) = true \/ exists s', worker_step s s'.
Proof.
  intros Hs Hst. destruct (not_joined (workers s)) as [|(l & x & r & Ew & Hx)]; [by left|right].
  destruct x as [|a|]; [|eexists; by eapply step_done|done].
  destruct (port_ (context s)) eqn:Hp.
  - pose proof (ii_stopping s Hs Hst Hp) as Hn. pose proof (exited_bound l WorkerWaiting r Hx) as Hb. rewrite Ew in Hn.
    destruct (queue s) as [|p q] eqn:Eq; [cbn in Hn; lia|].
    pose proof (ii_packets s Hs) as Hok. rewrite Eq in Hok. apply Forall_cons in Hok as [Hok _].
    eexists. eapply step_dequeue; [done|done|done|]. by apply dispatch_ok.
  - eexists. by eapply step_abandoned.
Qed.

(** [Stop] lets [Join] return.  Once the context is stopping the workers take at most two
    steps per packet in the port and two per worker, and as long as one of them has not left
    there is another step, whether the stop packets could be queued or the port was closed
    instead.  And if the port was not closed, all accepted tasks were started when the last
    worker has left. *)
Theorem io_context_joins s k s' : io_reachable s -> IsStopping (context s) = true -> nsteps worker_step k s s' ->
  (k <= 2 * length (queue s) + 2 * length (workers s))%nat /\ accepted s' = accepted s /\
  (joined (workers s') = true \/ exists s'', worker_step s' s'') /\
  (joined (workers s') = true -> port_ (context s') = true -> started s' = accepted s').
Proof.
  intros Hs%io_iinv Hst Hk. destruct (worker_steps_work k s s' Hs Hk) as (Hs' & Hw & Hc & Ha). split_and!; [|done| |].
  - assert (Hb : (weight worker_work (workers s) <= 2 * length (workers s))%nat) by (apply weight_bound; intros []; cbn; lia).
    unfold io_work in Hw. lia.
  - apply stopping_progress; [done|]. by rewrite Hc.
  - intros Hj Hp. rewrite (ii_open s' Hs' Hp). rewrite (ii_exited s' Hs'); [by rewrite app_nil_r|].
    rewrite (joined_exited _ Hj). destruct (ii_count s' Hs') as [H1 H2]. unfold zlen in H1. lia.
Qed.

(** ** A run *)

(** Two workers; a task and a completion are queued and then the context is stopped. *)
Definition sample_waiting : System :=
  mkSystem (mkState 2 true false) [TaskPacket 7; IoPacket 1 5 100 0] [WorkerWaiting; WorkerWaiting] [5] [7] [] [].
Definition sample_stop : System :=
  mkSystem (mkState 2 true true) [TaskPacket 7; IoPacket 1 5 100 0; StopPacket; StopPacket] [WorkerWaiting; WorkerWaiting] [5] [7] [] [].

Lemma sample_stop_reachable : io_reachable sample_stop.
Proof.
  pose (s0 := mkSystem (mkState 2 true false) [] [WorkerWaiting; WorkerWaiting] [] [] [] []).
  pose (s1 := mkSystem (mkState 2 true false) [] [WorkerWaiting; WorkerWaiting] [5] [] [] []).
  pose (s2 := mkSystem (mkState 2 true false) [TaskPacket 7] [WorkerWaiting; WorkerWaiting] [5] [7] [] []).
  apply (io_next sample_waiting); [apply (io_next s2); [apply (io_next s1); [apply (io_next s0)|]|]|].
  - by apply (io_created 2 true 0).
  - by apply (step_associate s0 5).
  - by apply (step_post s1 7 0 true [TaskPacket 7]).
  - apply (step_io s2 1 5 100 0); [done|by left].
  - by apply (step_stop sample_waiting (fun _ => 0) [StopPacket; StopPacket]).
Qed.

Lemma io_context_dispatches_witness : accepted sample_stop = started sample_stop ++ tasks_of (queue sample_stop).
Proof.
  destruct (io_context_dispatches sample_stop sample_stop_reachable) as (_ & _ & H & _). apply H. reflexivity.
Defined.

Definition sample_taken : System :=
  mkSystem (mkState 2 true true) [IoPacket 1 5 100 0; StopPacket; StopPacket] [WorkerBusy (ExecuteTask 7); WorkerWaiting] [5] [7] [7] [].

Lemma io_context_joins_witness : nsteps worker_step 1 sample_stop sample_taken /\ accepted sample_taken = [7].
Proof.
  assert (H : nsteps worker_step 1 sample_stop sample_taken).
  { eapply nsteps_l; [|constructor]. by apply (step_dequeue sample_stop (TaskPacket 7) (queue sample_taken) [] [WorkerWaiting] (ExecuteTask 7)). }
  split; [exact H|]. exact (proj1 (proj2 (io_context_joins sample_stop 1 sample_taken sample_stop_reachable eq_refl H))).
Defined.

(** If a stop packet cannot be queued the port is closed, and with it go the tasks that were
    accepted and not started. *)
Lemma stop_failure_loses_tasks :
  let '(q, c) := Stop (fun _ => 8) (context sample_waiting) in
  tasks_of (port_queue c (queue sample_waiting ++ q)) = [] /\ tasks_of (queue sample_waiting) = [7].
Proof. by split. Qed.
