(* ===== verification/ConnectionRegistry.v ===== *)
(** * The connection registry

    [ConnectionRegistry] of [connection_registry.h] and [connection_registry.cpp]: the active
    connections by their numbers, with counters.  A connection is a value of any type with a
    number. *)

From S2P Require Import Prelude.

Section registry.
Context {Connection : Type} (Id : Connection -> Z).

Record ConnectionRegistry := mkRegistry {
  next_id_ : Z;
  connections_ : gmap Z Connection;
  total_added_ : Z;
  total_removed_ : Z;
}.

Record RegistrySnapshot := mkRegistrySnapshot {
  active_connections : Z;
  total_added : Z;
  total_removed : Z;
}.

Definition ConnectionRegistry_make : ConnectionRegistry := mkRegistry 1 ∅ 0 0.

Definition NextId (s : ConnectionRegistry) : Z * ConnectionRegistry :=
  (next_id_ s, mkRegistry (u64 (next_id_ s + 1)) (connections_ s) (total_added_ s) (total_removed_ s)).

(** [emplace] does nothing if the number is in use. *)
Definition Add (connection : option Connection) (s : ConnectionRegistry) : result unit * ConnectionRegistry :=
  match connection with
  | None => (Throw invalid_argument, s)
  | Some c =>
      match connections_ s !! Id c with
      | Some _ => (Throw logic_error, s)
      | None => (Ok tt, mkRegistry (next_id_ s) (<[Id c := c]> (connections_ s)) (u64 (total_added_ s + 1)) (total_removed_ s))
      end
  end.

(** The second result says whether waiting threads are woken. *)
Definition Remove (id : Z) (s : ConnectionRegistry) : bool * bool * ConnectionRegistry :=
  match connections_ s !! id with
  | None => (false, false, s)
  | Some _ =>
      let s := mkRegistry (next_id_ s) (delete id (connections_ s)) (total_added_ s) (u64 (total_removed_ s + 1)) in
      (true, bool_decide (connections_ s = ∅), s)
  end.

(** In an unspecified order *)
Definition Connections (s : ConnectionRegistry) : list Connection := (map_to_list (connections_ s)).*2.

(** The condition of [WaitEmpty] *)
Definition IsEmpty (s : ConnectionRegistry) : bool := bool_decide (connections_ s = ∅).

Definition Snapshot (s : ConnectionRegistry) : RegistrySnapshot :=
  mkRegistrySnapshot (Z.of_nat (size (connections_ s))) (total_added_ s) (total_removed_ s).

(** ** Runs *)

Inductive registry_step : ConnectionRegistry -> ConnectionRegistry -> Prop :=
  | step_next s id s' : NextId s = (id, s') -> next_id_ s + 1 < 2 ^ 64 -> registry_step s s'
  | step_add s c r s' : Add c s = (r, s') -> (forall x, c = Some x -> 1 <= Id x < next_id_ s) -> registry_step s s'
  | step_remove s id b n s' : Remove id s = (b, n, s') -> registry_step s s'.

(** The registry holds connections under their own numbers, all of which were given out, and
    the number of active connections is the difference of the counters. *)
Record registry_ok (s : ConnectionRegistry) : Prop := {
  ro_next : 1 <= next_id_ s < 2 ^ 64;
  ro_ids : forall i c, connections_ s !! i = Some c -> Id c = i /\ 1 <= i < next_id_ s;
  ro_active : u64 (Z.of_nat (size (connections_ s))) = u64 (total_added_ s - total_removed_ s);
}.

Lemma registry_step_ok s s' : registry_ok s -> registry_step s s' -> registry_ok s'.
Proof.
  intros [H1 H2 H3] Hst. destruct Hst as [s id s' E Hn|s c r s' E Hc|s id b n s' E].
  - injection E as _ <-. split; cbn; rewrite ?u64_small by lia; [lia| |done].
    intros i c Hi. destruct (H2 i c Hi). split; [done|lia].
  - unfold Add in E. destruct c as [x|]; [|by injection E as _ <-].
    destruct (connections_ s !! Id x) eqn:Ex; injection E as _ <-; [done|]. split; cbn; [done| |].
    + intros i c [[<- <-]|[_ Hi]]%lookup_insert_Some; [split; [done|by apply Hc]|by apply H2].
    + rewrite map_size_insert_None by done. unfold u64 in *.
      rewrite (Zminus_mod ((total_added_ s + 1) mod 2 ^ 64)), Zmod_mod, <- Zminus_mod.
      replace (total_added_ s + 1 - total_removed_ s) with (total_added_ s - total_removed_ s + 1) by lia.
      rewrite <- (Zplus_mod_idemp_l (total_added_ s - total_removed_ s)), <- H3, Zplus_mod_idemp_l. f_equal. lia.
  - unfold Remove in E. destruct (connections_ s !! id) as [x|] eqn:Ex; injection E as _ _ <-; [|done]. split; cbn; [done| |].
    + intros i c [_ Hi]%lookup_delete_Some. by apply H2.
    + rewrite map_size_delete_Some by done. assert (0 < size (connections_ s))%nat.
      { apply Nat.neq_0_lt_0. intros Hz%map_size_empty_iff. by rewrite Hz in Ex. }
      unfold u64 in *. rewrite (Zminus_mod (total_added_ s)), Zmod_mod, <- Zminus_mod.
      replace (total_added_ s - (total_removed_ s + 1)) with (total_added_ s - total_removed_ s - 1) by lia.
      rewrite Zminus_mod, <- H3, <- Zminus_mod. f_equal. lia.
Qed.

(** In every run the snapshot accounts for all connections, and a connection with a new number
    can be added. *)
Lemma registry_accounts s : rtc registry_step ConnectionRegistry_make s ->
  let n := Snapshot s in
  u64 (active_connections n) = u64 (total_added n - total_removed n) /\
  (IsEmpty s = true <-> active_connections n = 0) /\
  (forall i c s', NextId s = (i, s') -> next_id_ s + 1 < 2 ^ 64 -> Id c = i -> exists t, Add (Some c) s' = (Ok tt, t)).
Proof.
  intros Hr n. assert (Hs : registry_ok s).
  { assert (H0 : registry_ok ConnectionRegistry_make) by (split; cbn; [lia|intros i c; by rewrite lookup_empty|done]).
    revert H0. induction Hr as [|x y z Hxy _ IH]; [done|]. intros Hx. apply IH. by eapply registry_step_ok. }
  destruct Hs as [H1 H2 H3]. split_and!; [exact H3| |].
  - unfold IsEmpty. rewrite bool_decide_eq_true. cbn. rewrite <- map_size_empty_iff. lia.
  - intros i c s' E Hn <-. injection E as Ei <-. unfold Add. cbn. destruct (connections_ s !! Id c) as [d|] eqn:Ed; [|by eexists].
    destruct (H2 _ _ Ed). lia.
Qed.
End registry.
