(* ===== verification/StringMap.v ===== *)
(** * Strings: search and maps with string keys

    [std::string::find] with a string, and [std::unordered_map<std::string, std::string>] as an
    association list in which every key occurs once; the order is not specified. *)

From S2P Require Import Prelude.

Abbreviation str := (list byte).

(** Whether [l] begins with [p] *)
Fixpoint starts_with (p l : str) : bool :=
  match p, l with
  | [], _ => true
  | a :: p, b :: l => bool_decide (a = b) && starts_with p l
  | _, [] => false
  end.

Fixpoint find_first (p l : str) : option nat :=
  if starts_with p l then Some 0%nat
  else match l with [] => None | _ :: l => S <$> find_first p l end.

(** [l.find(p, pos)]; [None] is [npos]. *)
Definition find (p l : str) (pos : nat) : option nat :=
  if (pos <=? length l)%nat then (fun i => (pos + i)%nat) <$> find_first p (drop pos l) else None.

(** [l.substr(pos, n)] *)
Definition substr (l : str) (pos n : nat) : str := take n (drop pos l).

Definition StringMap : Type := list (str * str).

Fixpoint lookup (key : str) (m : StringMap) : option str :=
  match m with
  | [] => None
  | (k, v) :: m => if decide (k = key) then Some v else lookup key m
  end.

(** [m.emplace(key, value)] *)
Definition emplace (key value : str) (m : StringMap) : StringMap :=
  match lookup key m with Some _ => m | None => m ++ [(key, value)] end.

(** [m[key] = value] *)
Fixpoint assign (key value : str) (m : StringMap) : StringMap :=
  match m with
  | [] => [(key, value)]
  | (k, v) :: m => if decide (k = key) then (k, value) :: m else (k, v) :: assign key value m
  end.

(** ** Search *)

Lemma starts_with_spec p l : starts_with p l = true <-> exists r, l = p ++ r.
Proof.
  revert l. induction p as [|a p IH]; intros l; [split; [by exists l|done]|].
  destruct l as [|b l]; cbn; [split; [done|by intros []]|]. rewrite andb_true_iff, bool_decide_eq_true, IH.
  split; [intros [-> [r ->]]; by exists r|]. intros [r [= -> ->]]. split; [done|by exists r].
Qed.

(** The first occurrence *)
Lemma starts_with_self p r : starts_with p (p ++ r) = true.
Proof. apply starts_with_spec. by exists r. Qed.

Lemma find_first_here p r : find_first p (p ++ r) = Some 0%nat.
Proof. pose proof (starts_with_self p r) as E. destruct (p ++ r); cbn; by rewrite E. Qed.

Lemma find_first_Some p l i : find_first p l = Some i ->
  exists r, l = take i l ++ p ++ r /\ (i + length p <= length l)%nat.
Proof.
  revert i. induction l as [|b l IH]; intros i E; cbn in E.
  - destruct (starts_with p []) eqn:Es; [|done]. injection E as <-. apply starts_with_spec in Es as [r Er]. exists r.
    split; [done|]. rewrite Er, length_app. cbn. lia.
  - destruct (starts_with p (b :: l)) eqn:Es.
    + injection E as <-. apply starts_with_spec in Es as [r Er]. exists r. split; [done|]. rewrite Er, length_app. lia.
    + destruct (find_first p l) as [j|] eqn:Ej; [|done]. injection E as <-. destruct (IH j eq_refl) as (r & Er & Hl).
      exists r. cbn [take]. split; [cbn; by f_equal|cbn; lia].
Qed.

(** Only as many bytes matter as the pattern has. *)
Lemma starts_with_app p l r r' : (length p <= length l)%nat -> starts_with p (l ++ r) = starts_with p (l ++ r').
Proof.
  revert l. induction p as [|a p IH]; intros [|b l] Hl; cbn in *; try done; [lia|]. by rewrite (IH l) by lia.
Qed.

(** What is up to the end of the first occurrence decides it. *)
Lemma find_first_app p l r r' i : find_first p (l ++ r) = Some i -> (i + length p <= length l)%nat ->
  find_first p (l ++ r') = Some i.
Proof.
  revert i. induction l as [|b l IH]; intros i E Hi; cbn in *.
  - assert (p = []) as -> by (destruct p; [done|cbn in Hi; lia]). destruct r, r', i; cbn in *; try done; lia.
  - rewrite !app_comm_cons in *. destruct (starts_with p ((b :: l) ++ r)) eqn:Es.
    + injection E as <-. by rewrite (starts_with_app p (b :: l) r' r), Es.
    + destruct (find_first p (l ++ r)) as [j|] eqn:Ej; [|done]. injection E as <-.
      by rewrite (starts_with_app p (b :: l) r' r), Es, (IH j eq_refl) by (cbn; lia).
Qed.

(** The first occurrence of a byte *)
Lemma find_first_byte c l r : c ∉ l -> find_first [c] (l ++ c :: r) = Some (length l).
Proof.
  induction l as [|b l IH]; intros Hc; cbn.
  - by rewrite bool_decide_eq_true_2.
  - apply not_elem_of_cons in Hc as [Hb Hc]. rewrite bool_decide_eq_false_2 by done. cbn. by rewrite (IH Hc).
Qed.

(** [find] behind a given beginning *)
Lemma find_app p l r : find p (l ++ r) (length l) = (fun i => (length l + i)%nat) <$> find_first p r.
Proof.
  unfold find. rewrite drop_app_length, length_app. by destruct (Nat.leb_spec (length l) (length l + length r)); [|lia].
Qed.

(** ** Maps *)

Lemma lookup_assign key value m k : lookup k (assign key value m) = if decide (k = key) then Some value else lookup k m.
Proof.
  induction m as [|[k' v] m IH]; cbn; [by repeat case_decide; subst|].
  destruct (decide (k' = key)) as [->|Hk]; cbn.
  - destruct (decide (key = k)) as [->|]; [by rewrite decide_True|]. by rewrite decide_False.
  - rewrite IH. destruct (decide (k' = k)) as [->|]; [by rewrite decide_False|done].
Qed.

Lemma assign_new key value m : key ∉ m.*1 -> assign key value m = m ++ [(key, value)].
Proof.
  induction m as [|[k v] m IH]; intros Hk; [done|]. cbn in *. apply not_elem_of_cons in Hk as [Hk Hm].
  rewrite decide_False by done. by rewrite (IH Hm).
Qed.

(** The first value stays. *)
Lemma lookup_emplace key value m k : lookup k (emplace key value m) =
  match lookup k m with Some v => Some v | None => if decide (key = k) then Some value else None end.
Proof.
  unfold emplace. destruct (lookup key m) eqn:Ek.
  - destruct (lookup k m) eqn:E; [done|]. by destruct (decide (key = k)) as [->|]; [congruence|].
  - clear Ek. induction m as [|[k' v] m IH]; cbn; [done|]. by destruct (decide (k' = k)).
Qed.
