(* ===== verification/SimpleTemplate.v ===== *)
(** * Templates

    [SimpleTemplate] of [simple_template.h] and [simple_template.cpp]: text in which every
    [{{key}}] is replaced by a value. *)

From S2P Require Import Prelude StringMap.

Record SimpleTemplate := mkTemplate {
  source_ : str;
  values_ : StringMap;
}.

Definition SimpleTemplate_make (source : str) : SimpleTemplate := mkTemplate source [].

(** [Load]; [file] is the contents of the file, if it can be opened. *)
Definition Load (file : option str) : result SimpleTemplate :=
  match file with None => Throw runtime_error | Some s => Ok (SimpleTemplate_make s) end.

Definition open_mark : str := $"{{".
Definition close_mark : str := $"}}".

(** The loop of [Render], with [result] and [pos] *)
Fixpoint Render_loop (fuel : nat) (source : str) (values : StringMap) (res : str) (pos : nat) : result str :=
  match fuel with
  | O => Throw NonTermination
  | S fuel =>
      match find open_mark source pos with
      | None => Ok (res ++ drop pos source)
      | Some opened =>
          let res := res ++ substr source pos (opened - pos) in
          match find close_mark source (opened + 2) with
          | None => Ok (res ++ drop opened source)
          | Some closed =>
              let key := substr source (opened + 2) (closed - (opened + 2)) in
              let res := match lookup key values with Some v => res ++ v | None => res end in
              Render_loop fuel source values res (closed + 2)
          end
      end
  end.

(** [Render(values)] *)
Definition Render_values (values : StringMap) (t : SimpleTemplate) : result str :=
  Render_loop (S (length (source_ t))) (source_ t) values [] 0.

Definition Set_value (key value : str) (t : SimpleTemplate) : SimpleTemplate := mkTemplate (source_ t) (emplace key value (values_ t)).

Definition Render (t : SimpleTemplate) : result str := Render_values (values_ t) t.

(** ** The meaning of a template *)

(** A piece of a template: text and the key of the marker behind it *)
Definition piece : Type := str * str.

Definition print (p : piece) : str := p.1 ++ open_mark ++ p.2 ++ close_mark.
Definition eval (values : StringMap) (p : piece) : str := p.1 ++ default [] (lookup p.2 values).

(** The mark opens behind the text and not before, and is closed behind the key and not
    before. *)
Definition piece_ok (p : piece) : Prop :=
  find_first open_mark (p.1 ++ open_mark) = Some (length p.1) /\ find_first close_mark (p.2 ++ close_mark) = Some (length p.2).

(** The rest of a template has no mark, or one that is not closed. *)
Definition rest_ok (r : str) : Prop :=
  match find_first open_mark r with
  | None => True
  | Some i => find_first close_mark (drop (i + 2) r) = None
  end.

(** Every text consists of pieces and a rest in exactly the way in which marks are found. *)
Lemma pieces_exist n : forall s, (length s <= n)%nat -> exists ps r, s = concat (map print ps) ++ r /\ Forall piece_ok ps /\ rest_ok r.
Proof.
  induction n as [|n IH]; intros s Hn.
  { exists [], s. split_and!; [done|constructor|]. destruct s; [done|cbn in Hn; lia]. }
  destruct (find_first open_mark s) as [i|] eqn:Ei.
  2: { exists [], s. split_and!; [done|constructor|]. unfold rest_ok. by rewrite Ei. }
  destruct (find_first_Some _ _ _ Ei) as (r & Er & Hi). change (length open_mark) with 2%nat in Hi.
  assert (Hl : length (take i s) = i) by (rewrite length_take; lia).
  destruct (find_first close_mark r) as [j|] eqn:Ej.
  2: { exists [], s. split_and!; [done|constructor|]. unfold rest_ok. rewrite Ei. rewrite Er. rewrite app_assoc, drop_app_length'; [done|].
       rewrite length_app, Hl. done. }
  destruct (find_first_Some _ _ _ Ej) as (r' & Er' & Hj). change (length close_mark) with 2%nat in Hj.
  assert (Hl' : length (take j r) = j) by (rewrite length_take; lia).
  destruct (IH r') as (ps & t & -> & Hps & Ht).
  { apply (f_equal length) in Er, Er'. rewrite !length_app, ?Hl, ?Hl' in *. change (length open_mark) with 2%nat in *.
    change (length close_mark) with 2%nat in *. lia. }
  exists ((take i s, take j r) :: ps), t. split_and!; [|constructor; [|done]|done].
  - cbn [map concat]. unfold print. cbn [fst snd]. rewrite Er at 1. rewrite Er' at 1. by rewrite <- !app_assoc.
  - split; cbn [fst snd]; rewrite ?Hl, ?Hl'.
    + rewrite <- (app_nil_r (take i s ++ open_mark)). eapply find_first_app; [rewrite <- app_assoc, <- Er; exact Ei|].
      rewrite length_app, Hl. done.
    + rewrite <- (app_nil_r (take j r ++ close_mark)). eapply find_first_app; [rewrite <- app_assoc, <- Er'; exact Ej|].
      rewrite length_app, Hl'. done.
Qed.

Lemma find_piece p r rest : find_first p (r ++ p) = Some (length r) -> find_first p (r ++ p ++ rest) = Some (length r).
Proof.
  intros E. rewrite app_assoc. eapply (find_first_app p (r ++ p) []); [by rewrite app_nil_r|]. by rewrite length_app.
Qed.

Lemma substr_middle (l k r : str) : substr (l ++ k ++ r) (length l) (length k) = k.
Proof. unfold substr. by rewrite drop_app_length, take_app_length. Qed.

Lemma Render_loop_pieces values ps rest : rest_ok rest -> Forall piece_ok ps ->
  forall fuel pre res, (length ps < fuel)%nat ->
  Render_loop fuel (pre ++ concat (map print ps) ++ rest) values res (length pre) = Ok (res ++ concat (map (eval values) ps) ++ rest).
Proof.
  intros Hr Hps. induction Hps as [|[text key] ps [Ho Hc] _ IH]; intros fuel pre res Hf; (destruct fuel as [|fuel]; [cbn in Hf; lia|]);
    cbn [map concat app Render_loop].
  - rewrite find_app. unfold rest_ok in Hr. destruct (find_first open_mark rest) as [i|] eqn:Ei; cbn [fmap option_fmap option_map].
    2: by rewrite drop_app_length.
    destruct (find_first_Some _ _ _ Ei) as (r & Er & Hi). change (length open_mark) with 2%nat in Hi.
    assert (Hl : length (take i rest) = i) by (rewrite length_take; lia).
    assert (Hd : drop (i + 2) rest = r).
    { rewrite Er. rewrite app_assoc, drop_app_length'; [done|]. by rewrite length_app, Hl. }
    assert (Hz : find close_mark (pre ++ rest) (length pre + i + 2) = None).
    { rewrite Er at 1. rewrite 2!app_assoc.
      replace (length pre + i + 2)%nat with (length ((pre ++ take i rest) ++ open_mark)) by (rewrite !length_app, Hl; cbn; lia).
      rewrite find_app, <- Hd, Hr. done. }
    rewrite Hz. f_equal. rewrite <- app_assoc. f_equal. unfold substr.
    replace (length pre + i - length pre)%nat with i by lia. rewrite drop_app_length.
    rewrite <- drop_drop, drop_app_length. by rewrite take_drop.
  - cbn [fst snd] in *. replace (print (text, key)) with (text ++ open_mark ++ key ++ close_mark) by done. rewrite <- !app_assoc. rewrite find_app, (find_piece _ _ _ Ho). cbn [fmap option_fmap option_map].
    set (tail := concat (map print ps) ++ rest). set (source := pre ++ text ++ open_mark ++ key ++ close_mark ++ tail).
    assert (Hs : source = ((pre ++ text) ++ open_mark) ++ key ++ close_mark ++ tail) by (unfold source; by rewrite <- !app_assoc).
    assert (Hl : (length pre + length text + 2)%nat = length ((pre ++ text) ++ open_mark)) by (rewrite !length_app; cbn; lia).
    assert (F1 : find close_mark source (length pre + length text + 2) = Some (length pre + length text + 2 + length key)%nat).
    { rewrite Hl, Hs, find_app, (find_piece _ _ _ Hc). done. }
    assert (F2 : substr source (length pre) (length text) = text) by apply substr_middle.
    assert (F3 : substr source (length pre + length text + 2) (length key) = key) by (rewrite Hl, Hs; apply substr_middle).
    rewrite F1. replace (length pre + length text - length pre)%nat with (length text) by lia. rewrite F2.
    replace (length pre + length text + 2 + length key - (length pre + length text + 2))%nat with (length key) by lia. rewrite F3.
    specialize (IH fuel ((((pre ++ text) ++ open_mark) ++ key) ++ close_mark)).
    replace source with (((((pre ++ text) ++ open_mark) ++ key) ++ close_mark) ++ tail) by (rewrite Hs; by rewrite <- !app_assoc).
    replace (length pre + length text + 2 + length key + 2)%nat with (length ((((pre ++ text) ++ open_mark) ++ key) ++ close_mark))
      by (rewrite !length_app; cbn; lia).
    unfold tail. rewrite IH by (cbn in Hf; lia). f_equal. unfold eval at 2. cbn [fst snd].
    destruct (lookup key values); cbn [default]; rewrite <- ?app_assoc; done.
Qed.

Lemma pieces_length ps r : (length ps <= length (concat (map print ps) ++ r))%nat.
Proof.
  induction ps as [|p ps IH]; cbn; [lia|]. unfold print at 1. rewrite !length_app in *. change (length open_mark) with 2%nat. lia.
Qed.

(** The meaning of a template.  Every text is a sequence of pieces, a text and a marked
    key each, and a rest, cut where marks are first found: the text of a piece does not open a
    mark, its key does not close one, and the rest has no mark or one that is not closed.
    [Render] terminates on every text and gives the texts with the values of the keys behind
    them, nothing for a key without a value, and the rest as it is; values are not looked
    at again. *)
Theorem template_render values t : exists ps rest,
  source_ t = concat (map print ps) ++ rest /\ Forall piece_ok ps /\ rest_ok rest /\
  Render_values values t = Ok (concat (map (eval values) ps) ++ rest).
Proof.
  destruct (pieces_exist (length (source_ t)) (source_ t)) as (ps & r & E & Hps & Hr); [done|].
  exists ps, r. split_and!; [done..|]. unfold Render_values. pose proof (pieces_length ps r) as Hl. rewrite <- E in Hl.
  rewrite E at 2. apply (Render_loop_pieces values ps r Hr Hps (S (length (source_ t))) []). lia.
Qed.

Lemma render_example : Render (Set_value $"name" $"x{{name}}" (SimpleTemplate_make $"a {{name}}, {{none}} {{b")) = Ok $"a x{{name}},  {{b".
Proof. reflexivity. Qed.

Lemma lookup_snoc key v m : lookup key m = None -> lookup key (m ++ [(key, v)]) = Some v.
Proof.
  induction m as [|[k x] m IH]; cbn; [by rewrite decide_True|]. destruct (decide (k = key)); [done|exact IH].
Qed.

(** A second [Set] of a key has no effect. *)
Lemma set_keeps_first key v w t : Set_value key w (Set_value key v t) = Set_value key v t.
Proof.
  unfold Set_value. cbn. f_equal.
  unfold emplace. destruct (lookup key (values_ t)) as [x|] eqn:E; [by rewrite E|]. by rewrite (lookup_snoc _ _ _ E).
Qed.
