(* ===== verification/JsonUtils.v ===== *)
(** * Flat JSON objects

    [JsonValue] of [json_utils.h] and [json_utils.cpp]: a parser for objects whose values are
    strings, numbers and truth values, all kept as strings, and a formatter.  [GetNumber], which
    reads a [double], is not modelled. *)

From S2P Require Import Prelude StringMap.

(** [JsonValue] has one member, [fields_]. *)
Definition JsonValue : Type := StringMap.

Definition quote : byte := Byte.x22.
Definition backslash : byte := Byte.x5c.

Fixpoint Unescape (s : str) : str :=
  match s with
  | [] => []
  | c :: s' =>
      match s' with
      | d :: s'' =>
          if decide (c = backslash) then
            (if decide (d = quote) then quote
             else if decide (d = backslash) then backslash
             else if decide (d = Byte.x6e) then Byte.x0a
             else if decide (d = Byte.x72) then Byte.x0d
             else if decide (d = Byte.x74) then Byte.x09
             else d) :: Unescape s''
          else c :: Unescape s'
      | [] => [c]
      end
  end.

Definition escape_byte (c : byte) : str :=
  if decide (c = quote) then [backslash; quote]
  else if decide (c = backslash) then [backslash; backslash]
  else if decide (c = Byte.x0a) then [backslash; Byte.x6e]
  else if decide (c = Byte.x0d) then [backslash; Byte.x72]
  else if decide (c = Byte.x09) then [backslash; Byte.x74]
  else [c].

Definition Escape (s : str) : str := concat (map escape_byte s).

(** ** Parse *)

(** How many bytes at the beginning satisfy a condition *)
Fixpoint run_length (P : byte -> bool) (l : str) : nat :=
  match l with [] => 0 | c :: l => if P c then S (run_length P l) else 0 end.

(** [while (pos < s.size() && P(s[pos])) ++pos;] *)
Definition skip (P : byte -> bool) (s : str) (pos : nat) : nat := pos + run_length P (drop pos s).

Definition is_blank (c : byte) : bool := bool_decide (c = Byte.x20) || bool_decide (c = Byte.x09).
Definition is_space (c : byte) : bool := is_blank c || bool_decide (c = Byte.x0a) || bool_decide (c = Byte.x0d).

(** The bytes of a number.  [std::isdigit] is undefined for a negative [char]. *)
Definition number_byte (c : byte) : result bool :=
  if 128 <=? b2z c then Throw UndefinedBehavior
  else Ok ((48 <=? b2z c) && (b2z c <=? 57) || bool_decide (c = Byte.x2e) || bool_decide (c = Byte.x2d) ||
           bool_decide (c = Byte.x65) || bool_decide (c = Byte.x45)).

Fixpoint number_length (l : str) : result nat :=
  match l with
  | [] => Ok 0%nat
  | c :: l => b ← number_byte c; if (b : bool) then n ← number_length l; Ok (S n) else Ok 0%nat
  end.

(** The value at a position and the position behind it; [None] is [break]. *)
Definition Parse_value (s : str) (val_start : nat) : result (option (str * nat)) :=
  let c := default Byte.x00 (s !! val_start) in
  if decide (c = quote) then
    match find [quote] s (val_start + 1) with
    | None => Ok None
    | Some val_end => Ok (Some (Unescape (substr s (val_start + 1) (val_end - (val_start + 1))), val_end + 1)%nat)
    end
  else if bool_decide (c = Byte.x74) && bool_decide (substr s val_start 4 = $"true") then Ok (Some ($"true", val_start + 4)%nat)
  else if bool_decide (c = Byte.x66) && bool_decide (substr s val_start 5 = $"false") then Ok (Some ($"false", val_start + 5)%nat)
  else n ← number_length (drop val_start s); Ok (Some (substr s val_start n, val_start + n)%nat).

(** The key at a position, and where its value begins; [None] is [break]. *)
Definition Parse_key (s : str) (start : nat) : option (str * nat) :=
  match find [quote] s start with
  | None => None
  | Some key_quote =>
      let key_start := S key_quote in
      match find [quote] s key_start with
      | None => None
      | Some key_end =>
          match find [Byte.x3a] s key_end with
          | None => None
          | Some colon =>
              let val_start := skip is_blank s (colon + 1) in
              if (length s <=? val_start)%nat then None else Some (substr s key_start (key_end - key_start), val_start)
          end
      end
  end.

Fixpoint Parse_loop (fuel : nat) (s : str) (start : nat) (fields : JsonValue) : result JsonValue :=
  match fuel with
  | O => Throw NonTermination
  | S fuel =>
      if (length s <=? start)%nat then Ok fields
      else
        let start := skip is_space s start in
        if (length s <=? start)%nat || bool_decide (s !! start = Some Byte.x7d) then Ok fields
        else
          match Parse_key s start with
          | None => Ok fields
          | Some (key, val_start) =>
              r ← Parse_value s val_start;
              match r with
              | None => Ok fields
              | Some (value, start) =>
                  let start := skip is_blank s start in
                  let start := if bool_decide (s !! start = Some Byte.x2c) then S start else start in
                  Parse_loop fuel s start (assign key value fields)
              end
          end
  end.

Definition Parse (json : str) : result JsonValue :=
  match find [Byte.x7b] json 0 with
  | None => Ok []
  | Some start => Parse_loop (S (length json)) json (start + 1) []
  end.

(** ** The rest *)

Definition GetString (key def : str) (j : JsonValue) : str := default def (lookup key j).

Definition GetBool (key : str) (def : bool) (j : JsonValue) : bool :=
  match lookup key j with Some v => bool_decide (v = $"true") | None => def end.

Definition format_field (f : str * str) : str := [quote] ++ Escape f.1 ++ [quote; Byte.x3a; quote] ++ Escape f.2 ++ [quote].

Fixpoint format_fields (fields : list (str * str)) : str :=
  match fields with
  | [] => []
  | [f] => format_field f
  | f :: fields => format_field f ++ [Byte.x2c] ++ format_fields fields
  end.

(** [Format]; the map is given in the order of its iteration. *)
Definition Format (fields : StringMap) : str := [Byte.x7b] ++ format_fields fields ++ [Byte.x7d].

(** ** Escaping *)

Lemma Unescape_cons c s : c <> backslash -> Unescape (c :: s) = c :: Unescape s.
Proof. intros Hc. destruct s; [done|]. cbn [Unescape]. by rewrite decide_False. Qed.

Lemma Unescape_Escape s : Unescape (Escape s) = s.
Proof.
  induction s as [|c s IH]; [done|]. change (Escape (c :: s)) with (escape_byte c ++ Escape s).
  unfold escape_byte. repeat (case_decide; [subst; cbn; by rewrite IH|]). cbn [app]. by rewrite Unescape_cons, IH.
Qed.

(** A byte that is written as it is *)
Definition plain (c : byte) : Prop := escape_byte c = [c].

Lemma Escape_plain s : Forall plain s -> Escape s = s.
Proof. induction 1 as [|c s Hc _ IH]; [done|]. change (Escape (c :: s)) with (escape_byte c ++ Escape s). by rewrite Hc, IH. Qed.

Lemma plain_no_quote s : Forall plain s -> quote ∉ s.
Proof. rewrite Forall_forall. intros Hs Hq. specialize (Hs _ Hq). done. Qed.

Lemma Escape_no_quote s : quote ∉ s -> quote ∉ Escape s.
Proof.
  induction s as [|c s IH]; [done|]. intros [Hc Hs]%not_elem_of_cons. change (Escape (c :: s)) with (escape_byte c ++ Escape s).
  rewrite not_elem_of_app. split; [|by apply IH]. unfold escape_byte. repeat case_decide; subst; set_solver.
Qed.

(** ** Termination *)

Lemma find_bounds p s pos i : find p s pos = Some i -> (pos <= i /\ i + length p <= length s)%nat.
Proof.
  unfold find. destruct (Nat.leb_spec pos (length s)) as [Hp|]; [|done]. destruct (find_first p (drop pos s)) as [j|] eqn:E; [|done].
  intros [= <-]. apply find_first_Some in E as (_ & _ & E). rewrite length_drop in E. lia.
Qed.

Lemma skip_ge P s pos : (pos <= skip P s pos)%nat.
Proof. unfold skip. lia. Qed.

Lemma Parse_key_advances s start key val_start : Parse_key s start = Some (key, val_start) -> (start < val_start < length s)%nat.
Proof.
  unfold Parse_key. destruct (find [quote] s start) as [q|] eqn:E1; [|done]. destruct (find [quote] s (S q)) as [e|] eqn:E2; [|done].
  destruct (find [Byte.x3a] s e) as [c|] eqn:E3; [|done]. destruct (Nat.leb_spec (length s) (skip is_blank s (c + 1))) as [|Hv]; [done|].
  intros [= _ <-]. apply find_bounds in E1, E2, E3. pose proof (skip_ge is_blank s (c + 1)). lia.
Qed.

Definition ascii (s : str) : Prop := Forall (fun c => b2z c < 128) s.

Lemma number_length_ascii l : ascii l -> exists n, number_length l = Ok n.
Proof.
  induction 1 as [|c l Hc _ [n IH]]; [by exists 0%nat|]. cbn. unfold number_byte.
  destruct (Z.leb_spec 128 (b2z c)); [lia|]. cbn. case_match; [rewrite IH; by eexists|by eexists].
Qed.

Lemma Parse_value_total s val_start : ascii s ->
  exists r, Parse_value s val_start = Ok r /\ forall value start, r = Some (value, start) -> (val_start <= start)%nat.
Proof.
  intros Hs. unfold Parse_value. case_decide.
  { destruct (find [quote] s (val_start + 1)) as [e|] eqn:E; [|by eexists]. eexists. split; [done|]. intros v st [= _ <-].
    apply find_bounds in E. lia. }
  case_match; [eexists; split; [done|]; intros v st [= _ <-]; lia|].
  case_match; [eexists; split; [done|]; intros v st [= _ <-]; lia|].
  destruct (number_length_ascii (drop val_start s)) as [n ->]; [by apply Forall_drop|].
  cbn. eexists. split; [done|]. intros v st [= _ <-]. lia.
Qed.

Lemma Parse_loop_total s : ascii s -> forall fuel start fields, (length s - start < fuel)%nat ->
  exists m, Parse_loop fuel s start fields = Ok m.
Proof.
  intros Hs fuel. induction fuel as [|fuel IH]; intros start fields Hf; [lia|]. cbn [Parse_loop].
  destruct (Nat.leb_spec (length s) start) as [|Hst]; [by eexists|]. pose proof (skip_ge is_space s start) as Hsk.
  destruct (_ || _); [by eexists|]. destruct (Parse_key s _) as [[key v]|] eqn:Ek; [|by eexists].
  apply Parse_key_advances in Ek. destruct (Parse_value_total s v Hs) as (r & -> & Hr). cbn [mbind result_bind].
  destruct r as [[value st]|]; [|by eexists]. specialize (Hr _ _ eq_refl). apply IH.
  pose proof (skip_ge is_blank s st). destruct (bool_decide _); lia.
Qed.

(** ** Round trip *)

Lemma skip_none P s pos c : s !! pos = Some c -> P c = false -> skip P s pos = pos.
Proof. intros Hl Hp. unfold skip. rewrite (drop_S _ _ _ Hl). cbn. rewrite Hp. lia. Qed.

Lemma lookup_at (pre : str) c r : (pre ++ c :: r) !! length pre = Some c.
Proof. by apply list_lookup_middle. Qed.

Lemma lookup_one (pre : str) c d r : (pre ++ c :: d :: r) !! S (length pre) = Some d.
Proof. rewrite lookup_app_r by lia. by replace (S (length pre) - length pre)%nat with 1%nat by lia. Qed.

(** [find] of a byte behind a beginning *)
Lemma find_byte (pre l r : str) c : c ∉ l -> find [c] (pre ++ l ++ c :: r) (length pre) = Some (length pre + length l)%nat.
Proof. intros Hc. by rewrite find_app, find_first_byte. Qed.

Lemma substr_mid (l k r : str) n m : n = length l -> m = length k -> substr (l ++ k ++ r) n m = k.
Proof. intros -> ->. unfold substr. by rewrite drop_app_length, take_app_length. Qed.

Lemma Parse_key_field pre k v r : quote ∉ k ->
  Parse_key (pre ++ [quote] ++ k ++ [quote; Byte.x3a; quote] ++ v ++ r) (length pre) = Some (k, length pre + length k + 3)%nat.
Proof.
  intros Hk. set (s := pre ++ _). unfold Parse_key.
  assert (E1 : find [quote] s (length pre) = Some (length pre)).
  { pose proof (find_byte pre [] (k ++ [quote; Byte.x3a; quote] ++ v ++ r) quote (not_elem_of_nil _)) as E.
    rewrite Nat.add_0_r in E. exact E. }
  assert (E2 : find [quote] s (S (length pre)) = Some (S (length pre) + length k)%nat).
  { replace (S (length pre)) with (length (pre ++ [quote])) by (rewrite length_app; cbn; lia).
    unfold s. rewrite app_assoc. by apply (find_byte (pre ++ [quote]) k). }
  assert (Hs : s = (pre ++ [quote] ++ k) ++ [quote] ++ Byte.x3a :: quote :: v ++ r) by (unfold s; rewrite <- !app_assoc; done).
  assert (E3 : find [Byte.x3a] s (S (length pre) + length k)%nat = Some (S (length pre) + length k + 1)%nat).
  { replace (S (length pre) + length k)%nat with (length (pre ++ [quote] ++ k)) by (rewrite !length_app; cbn; lia).
    rewrite Hs. apply (find_byte (pre ++ [quote] ++ k) [quote]). set_solver. }
  rewrite E1, E2, E3.
  assert (Hl : s !! (S (length pre) + length k + 1 + 1)%nat = Some quote).
  { rewrite Hs. rewrite lookup_app_r by (rewrite !length_app; cbn; lia).
    replace (_ - _)%nat with 2%nat by (rewrite !length_app; cbn; lia). done. }
  rewrite (skip_none is_blank s _ quote Hl eq_refl). destruct (Nat.leb_spec (length s) (S (length pre) + length k + 1 + 1)) as [Hle|_].
  { apply lookup_lt_Some in Hl. lia. }
  f_equal. f_equal; [|lia]. unfold s. rewrite (app_assoc pre). apply substr_mid; [rewrite length_app; cbn; lia|lia].
Qed.

Lemma Parse_value_string pre v r : quote ∉ v ->
  Parse_value (pre ++ [quote] ++ v ++ quote :: r) (length pre) = Ok (Some (Unescape v, length pre + length v + 2)%nat).
Proof.
  intros Hv. unfold Parse_value. change ([quote] ++ v ++ quote :: r) with (quote :: v ++ quote :: r). rewrite lookup_at. cbn [default].
  rewrite decide_True by done. replace (length pre + 1)%nat with (length (pre ++ [quote])) by (rewrite length_app; done).
  change (pre ++ quote :: v ++ quote :: r) with (pre ++ [quote] ++ v ++ quote :: r). rewrite (app_assoc pre), (find_byte _ v _ quote Hv).
  rewrite (substr_mid (pre ++ [quote]) v) by lia. do 3 f_equal. rewrite length_app. cbn. lia.
Qed.

(** One field and what is behind it *)
Lemma Parse_loop_field fuel pre k v r c fields : Forall plain k -> quote ∉ v -> is_blank c = false ->
  Parse_loop (S fuel) (pre ++ format_field (k, v) ++ c :: r) (length pre) fields =
  Parse_loop fuel (pre ++ format_field (k, v) ++ c :: r) (length (pre ++ format_field (k, v)) + if bool_decide (c = Byte.x2c) then 1 else 0)
    (assign k v fields).
Proof.
  intros Hk Hv Hc. unfold format_field. cbn [fst snd]. rewrite (Escape_plain k Hk). rewrite <- !app_assoc.
  set (s := pre ++ [quote] ++ k ++ [quote; Byte.x3a; quote] ++ Escape v ++ [quote] ++ c :: r).
  assert (H0 : s !! length pre = Some quote) by (unfold s; apply lookup_at).
  cbn [Parse_loop]. cbv zeta. destruct (Nat.leb_spec (length s) (length pre)) as [Hle|_]; [apply lookup_lt_Some in H0; lia|].
  rewrite (skip_none is_space s _ quote H0 eq_refl). destruct (Nat.leb_spec (length s) (length pre)) as [Hle|_]; [apply lookup_lt_Some in H0; lia|].
  rewrite bool_decide_eq_false_2 by (rewrite H0; done). cbn [orb].
  pose proof (Parse_key_field pre k (Escape v) ([quote] ++ c :: r) (plain_no_quote k Hk)) as Hkey. fold s in Hkey. rewrite Hkey.
  assert (Hs : s = (pre ++ [quote] ++ k ++ [quote; Byte.x3a]) ++ [quote] ++ Escape v ++ quote :: c :: r) by (unfold s; rewrite <- !app_assoc; done).
  assert (Hl : (length pre + length k + 3)%nat = length (pre ++ [quote] ++ k ++ [quote; Byte.x3a])) by (rewrite !length_app; cbn; lia).
  rewrite Hl, Hs at 1. rewrite (Parse_value_string _ (Escape v) (c :: r) (Escape_no_quote v Hv)), Unescape_Escape. cbn [mbind result_bind]. rewrite <- Hl.
  assert (Hend : s !! (length pre + length k + 3 + length (Escape v) + 2)%nat = Some c).
  { rewrite Hs. rewrite lookup_app_r by (rewrite <- Hl; lia). rewrite <- Hl.
    replace (_ - _)%nat with (length ([quote] ++ Escape v ++ [quote])) by (rewrite !length_app; cbn; lia).
    change ([quote] ++ Escape v ++ quote :: c :: r) with (quote :: Escape v ++ [quote] ++ c :: r).
    rewrite (app_assoc (Escape v)), app_comm_cons. apply lookup_at. }
  rewrite (skip_none is_blank s _ c Hend Hc).
  rewrite (bool_decide_ext _ (c = Byte.x2c)) by (rewrite Hend; naive_solver).
  assert (Hlen : (length pre + length k + 3 + length (Escape v) + 2)%nat = length (pre ++ [quote] ++ k ++ [quote; Byte.x3a; quote] ++ Escape v ++ [quote]))
    by (rewrite !length_app; cbn; lia).
  rewrite Hlen. destruct (bool_decide (c = Byte.x2c)); f_equal; lia.
Qed.

(** The fields that are left, behind what was read *)
Lemma Parse_loop_fields l : forall fuel pre fields, (length l < fuel)%nat -> Forall (fun f => Forall plain f.1 /\ quote ∉ f.2) l ->
  NoDup (fields.*1 ++ l.*1) ->
  Parse_loop fuel (pre ++ format_fields l ++ [Byte.x7d]) (length pre) fields = Ok (fields ++ l).
Proof.
  induction l as [|[k v] l IH]; intros fuel pre fields Hf Hl Hn; (destruct fuel as [|fuel]; [cbn in Hf; lia|]).
  - cbn [format_fields app Parse_loop]. rewrite length_app. cbn [length]. destruct (Nat.leb_spec (length pre + 1) (length pre)); [lia|].
    assert (H0 : (pre ++ [Byte.x7d]) !! length pre = Some Byte.x7d) by apply lookup_at.
    rewrite (skip_none is_space _ _ Byte.x7d H0 eq_refl), (bool_decide_eq_true_2 (_ = Some Byte.x7d) H0), orb_true_r, app_nil_r. done.
  - apply Forall_cons in Hl as [[Hk Hv] Hl]. cbn [fst snd] in Hk, Hv.
    assert (Hnew : assign k v fields = fields ++ [(k, v)]).
    { apply assign_new. intros Hx. apply NoDup_app in Hn as (_ & Hn & _). apply (Hn k Hx). by left. }
    assert (Hn' : NoDup ((fields ++ [(k, v)]).*1 ++ l.*1)) by (rewrite fmap_app, <- app_assoc; exact Hn).
    destruct l as [|f l].
    + cbn [format_fields]. rewrite (Parse_loop_field fuel pre k v [] Byte.x7d fields Hk Hv eq_refl), Hnew.
      rewrite bool_decide_eq_false_2, Nat.add_0_r, app_assoc by done. rewrite <- (app_nil_l [Byte.x7d]).
      rewrite (IH fuel _ (fields ++ [(k, v)])); [by rewrite app_nil_r|cbn in *; lia|done|done].
    + change (format_fields ((k, v) :: f :: l)) with (format_field (k, v) ++ [Byte.x2c] ++ format_fields (f :: l)).
      rewrite <- !app_assoc. cbn [app].
      rewrite (Parse_loop_field fuel pre k v (format_fields (f :: l) ++ [Byte.x7d]) Byte.x2c fields Hk Hv eq_refl), Hnew.
      rewrite bool_decide_eq_true_2 by done.
      replace (length (pre ++ format_field (k, v)) + 1)%nat with (length ((pre ++ format_field (k, v)) ++ [Byte.x2c])) by (rewrite !length_app; cbn; lia).
      replace (pre ++ format_field (k, v) ++ Byte.x2c :: format_fields (f :: l) ++ [Byte.x7d])
        with (((pre ++ format_field (k, v)) ++ [Byte.x2c]) ++ format_fields (f :: l) ++ [Byte.x7d]) by (by rewrite <- !app_assoc).
      rewrite (IH fuel _ (fields ++ [(k, v)])); [by rewrite <- app_assoc|cbn in *; lia|done|done].
Qed.

Lemma format_length l : (length l <= length (format_fields l))%nat.
Proof.
  induction l as [|f l IH]; [done|]. destruct l as [|g l]; [unfold format_fields, format_field; cbn; lia|].
  change (format_fields (f :: g :: l)) with (format_field f ++ [Byte.x2c] ++ format_fields (g :: l)).
  rewrite !length_app. unfold format_field. cbn [length app] in *. lia.
Qed.

(** JSON objects.  [Parse] returns for every text of ASCII characters, whatever it is; and
    what [Format] writes is read back by [Parse] as the same fields, if no key has a character
    that must be escaped and no value has a quotation mark.  Other values may have any
    bytes, backslashes and line breaks included. *)
Theorem json_roundtrip json fields :
  ascii json ->
  NoDup fields.*1 -> Forall (fun f => Forall plain f.1 /\ quote ∉ f.2) fields ->
  (exists m, Parse json = Ok m) /\ Parse (Format fields) = Ok fields.
Proof.
  intros Hj Hn Hf. split.
  - unfold Parse. destruct (find [Byte.x7b] json 0) as [i|]; [|by eexists]. apply Parse_loop_total; [done|lia].
  - unfold Parse, Format. change ([Byte.x7b] ++ format_fields fields ++ [Byte.x7d]) with ([] ++ [] ++ Byte.x7b :: (format_fields fields ++ [Byte.x7d])).
    assert (E : find [Byte.x7b] ([] ++ [] ++ Byte.x7b :: (format_fields fields ++ [Byte.x7d])) 0 = Some 0%nat)
      by (apply (find_byte [] [] _ Byte.x7b); apply not_elem_of_nil).
    rewrite E. apply (Parse_loop_fields fields _ [Byte.x7b] []); [|done|done].
    pose proof (format_length fields). cbn [app length]. rewrite length_app. cbn. lia.
Qed.

Lemma json_roundtrip_witness : Parse (Format [($"id", $"7"); ($"text", $"a\b")]) = Ok [($"id", $"7"); ($"text", $"a\b")].
Proof.
  refine (proj2 (json_roundtrip $"{}" [($"id", $"7"); ($"text", $"a\b")] _ _ _)).
  - repeat constructor.
  - apply (bool_decide_unpack _). vm_compute. exact I.
  - repeat constructor; apply (bool_decide_unpack _); vm_compute; exact I.
Defined.

(** A quotation mark in a value ends the value when it is read back, although it was escaped. *)
Lemma json_quote_lost : Parse (Format [($"a", $"x" ++ [quote] ++ $"y")]) = Ok [($"a", $"x" ++ [backslash])].
Proof. reflexivity. Qed.

(** The rest of such a value is read as further fields. *)
Lemma json_value_forges_field :
  let v := [quote] ++ $"," ++ [quote] ++ $"admin" ++ [quote] ++ $":true" in
  Parse (Format [($"a", v)]) = Ok [($"a", [backslash]); ($"admin" ++ [backslash], $"true")].
Proof. reflexivity. Qed.

(** A value that is no string, number or truth value and begins outside of ASCII *)
Lemma json_isdigit_undefined : Parse ($"{" ++ [quote] ++ $"a" ++ [quote] ++ $":" ++ [Byte.xc3]) = Throw UndefinedBehavior.
Proof. reflexivity. Qed.
