(* ===== verification/Logging.v ===== *)
(** * Logging

    [logging.h] and [logging.cpp]: records, their text, sinks with levels, and the logger.  A
    stream is the bytes written to it.  The clock and the number of the thread are part of a
    record.  [Log] copies the sinks under the lock of the logger and then calls one sink after
    the other.  A sink gives its line to its stream under its own lock; the stream may take the
    line in pieces and may fail at any point.  So threads interleave between the sinks, and two
    sinks on one stream interleave within a line: that is the step relation at the end. *)

From S2P Require Import Prelude HttpMessage StringMap JsonUtils.

Inductive LogLevel := Trace | Debug | Info | Warning | Error | Critical.

#[export] Instance LogLevel_eq_dec : EqDecision LogLevel.
Proof. solve_decision. Defined.

(** The value of the enumeration *)
Definition rank (l : LogLevel) : Z :=
  match l with Trace => 0 | Debug => 1 | Info => 2 | Warning => 3 | Error => 4 | Critical => 5 end.

Record LogField := mkField { key : str; field_value : str }.

Record LogTimestamp := mkTimestamp {
  year : Z; month : Z; day : Z; hour : Z; minute : Z; second : Z; milliseconds : Z;
}.

Record LogRecord := mkRecord {
  timestamp : LogTimestamp;
  level : LogLevel;
  thread_id : Z;
  event : str;
  message : str;
  fields : list LogField;
}.

#[export] Instance LogField_eq_dec : EqDecision LogField.
Proof. solve_decision. Defined.
#[export] Instance LogTimestamp_eq_dec : EqDecision LogTimestamp.
Proof. solve_decision. Defined.
#[export] Instance LogRecord_eq_dec : EqDecision LogRecord.
Proof. solve_decision. Defined.

Definition Accepts (level minimum_level maximum_level : LogLevel) : bool :=
  (rank minimum_level <=? rank level) && (rank level <=? rank maximum_level).

Definition LevelName (l : LogLevel) : str :=
  match l with
  | Trace => $"TRACE"
  | Debug => $"DEBUG"
  | Info => $"INFO"
  | Warning => $"WARNING"
  | Error => $"ERROR"
  | Critical => $"CRITICAL"
  end.

(** The text that is written for a character *)
Definition written_byte (c : byte) : str :=
  if decide (c = Byte.x5c) then [Byte.x5c; Byte.x5c]
  else if decide (c = Byte.x22) then [Byte.x5c; Byte.x22]
  else if decide (c = Byte.x0a) then [Byte.x5c; Byte.x6e]
  else if decide (c = Byte.x0d) then [Byte.x5c; Byte.x72]
  else if decide (c = Byte.x09) then [Byte.x5c; Byte.x74]
  else [c].

Definition WriteEscaped (value : str) : str := [Byte.x22] ++ concat (map written_byte value) ++ [Byte.x22].

(** [std::setfill('0') << std::setw(w) << n] *)
Definition setw (w : nat) (n : Z) : str := replicate (w - length (to_string n)) Byte.x30 ++ to_string n.

Definition format_time (t : LogTimestamp) : str :=
  setw 4 (year t) ++ $"-" ++ setw 2 (month t) ++ $"-" ++ setw 2 (day t) ++ $"T" ++ setw 2 (hour t) ++ $":" ++
  setw 2 (minute t) ++ $":" ++ setw 2 (second t) ++ $"." ++ setw 3 (milliseconds t) ++ $"Z".

Definition format_fields (l : list LogField) : str :=
  concat (map (fun f => [SP] ++ key f ++ $"=" ++ WriteEscaped (field_value f)) l).

(** The line without its end *)
Definition format_line (r : LogRecord) : str :=
  format_time (timestamp r) ++ $" [" ++ LevelName (level r) ++ $"] [thread=" ++ to_string (thread_id r) ++ $"] event=" ++
  WriteEscaped (event r) ++ $" message=" ++ WriteEscaped (message r) ++ format_fields (fields r).

Definition FormatRecord (r : LogRecord) : str := format_line r ++ [LF].

(** ** Sinks *)

Inductive Target := Stdout | Stderr | File (path : str).

#[export] Instance Target_eq_dec : EqDecision Target.
Proof. solve_decision. Defined.

(** [StreamLogSink] and [FileLogSink]; [mutex_] names the lock, that is the sink as an object. *)
Record Sink := mkSink {
  mutex_ : Z;
  target : Target;
  minimum_level : LogLevel;
  maximum_level : LogLevel;
}.

Definition StreamLogSink (mutex : Z) (stream : Target) (minimum maximum : LogLevel) : Sink := mkSink mutex stream minimum maximum.

(** [opened] says whether the file could be opened, [contents] what is in it. *)
Definition FileLogSink (mutex : Z) (path : str) (append opened : bool) (minimum maximum : LogLevel) (contents : str)
    : result (Sink * str) :=
  if negb opened then Throw system_error else Ok (mkSink mutex (File path) minimum maximum, if append then contents else []).

(** What is in the streams *)
Definition Streams : Type := Target -> str.

Definition append_to (t : Target) (line : str) (s : Streams) : Streams := fun t' => if decide (t' = t) then s t' ++ line else s t'.

Definition accepts (r : LogRecord) (k : Sink) : bool := Accepts (level r) (minimum_level k) (maximum_level k).

(** [Write] when nothing fails and no other sink writes to the stream *)
Definition Write (r : LogRecord) (k : Sink) (s : Streams) : Streams :=
  if negb (accepts r k) then s else append_to (target k) (FormatRecord r) s.

(** ** The logger *)

Definition Logger : Type := list Sink.

(** A null sink is [None]. *)
Definition Logger_make (sinks : list (option Sink)) : result Logger :=
  if existsb (fun o => match o with None => true | Some _ => false end) sinks then Throw invalid_argument else Ok (omap id sinks).

Definition AddSink (sink : option Sink) (l : Logger) : result Logger :=
  match sink with None => Throw invalid_argument | Some k => Ok (l ++ [k]) end.

Definition SinkCount (l : Logger) : Z := zlen l.

(** [Log] when no other thread runs and nothing fails *)
Definition Log (l : Logger) (r : LogRecord) (s : Streams) : Streams := fold_left (fun s k => Write r k s) l s.

Definition MakeConsoleLogger : result Logger :=
  l ← AddSink (Some (StreamLogSink 1 Stdout Trace Info)) [];
  AddSink (Some (StreamLogSink 2 Stderr Warning Critical)) l.

(** ** Threads *)

(** A thread in the loop of [Log]: the sinks that are left, and, while it holds the lock of the first of them, the
    bytes of its line that the stream has not taken yet. *)
Record Call := mkCall { call_record : LogRecord; call_sinks : list Sink; call_left : option str }.

(** [failed]: the streams that are in an error state, which take nothing any more.  [written], [lost] and [started]
    are for the theorems: the records that went to a stream as a whole and those that did not, in the order of the
    writes, and the calls with the sinks they found. *)
Record System := mkSystem {
  sinks_ : Logger;
  pending : list Call;
  streams : Streams;
  failed : list Target;
  written : list (Target * LogRecord);
  lost : list (Target * LogRecord);
  started : list (LogRecord * list Sink);
}.

Definition System_make (s : Streams) : System := mkSystem [] [] s [] [] [] [].

(** The lock that a thread holds *)
Definition holds (c : Call) : option Z :=
  match call_left c, call_sinks c with Some _, k :: _ => Some (mutex_ k) | _, _ => None end.

Definition unlocked (m : Z) (calls : list Call) : bool := forallb (fun c => bool_decide (holds c <> Some m)) calls.

(** The steps of the threads.  [step_pass]: the sink does not take the level, or something is thrown before its
    stream is used.  [step_bytes]: the stream takes a piece of the line.  [step_done]: it has taken the line.
    [step_fail]: the stream is or gets into an error state, before, within or after the line. *)
Inductive step : System -> System -> Prop :=
  | step_add k l s : AddSink k (sinks_ s) = Ok l ->
      step s (mkSystem l (pending s) (streams s) (failed s) (written s) (lost s) (started s))
  | step_log r s :
      step s (mkSystem (sinks_ s) (pending s ++ [mkCall r (sinks_ s) None]) (streams s) (failed s) (written s) (lost s)
                (started s ++ [(r, sinks_ s)]))
  | step_pass p1 r k ks p2 s : pending s = p1 ++ mkCall r (k :: ks) None :: p2 ->
      step s (mkSystem (sinks_ s) (p1 ++ mkCall r ks None :: p2) (streams s) (failed s) (written s)
                (lost s ++ if accepts r k then [(target k, r)] else []) (started s))
  | step_lock p1 r k ks p2 s : pending s = p1 ++ mkCall r (k :: ks) None :: p2 -> accepts r k = true ->
      unlocked (mutex_ k) (pending s) = true ->
      step s (mkSystem (sinks_ s) (p1 ++ mkCall r (k :: ks) (Some (FormatRecord r)) :: p2) (streams s) (failed s) (written s)
                (lost s) (started s))
  | step_bytes p1 r k ks a b p2 s : pending s = p1 ++ mkCall r (k :: ks) (Some (a ++ b)) :: p2 -> target k ∉ failed s ->
      step s (mkSystem (sinks_ s) (p1 ++ mkCall r (k :: ks) (Some b) :: p2) (append_to (target k) a (streams s)) (failed s)
                (written s) (lost s) (started s))
  | step_done p1 r k ks p2 s : pending s = p1 ++ mkCall r (k :: ks) (Some []) :: p2 ->
      step s (mkSystem (sinks_ s) (p1 ++ mkCall r ks None :: p2) (streams s) (failed s) (written s ++ [(target k, r)])
                (lost s) (started s))
  | step_fail p1 r k ks b p2 s : pending s = p1 ++ mkCall r (k :: ks) (Some b) :: p2 ->
      step s (mkSystem (sinks_ s) (p1 ++ mkCall r ks None :: p2) (streams s) (target k :: failed s) (written s)
                (lost s ++ [(target k, r)]) (started s))
  | step_return p1 r p2 s : pending s = p1 ++ mkCall r [] None :: p2 ->
      step s (mkSystem (sinks_ s) (p1 ++ p2) (streams s) (failed s) (written s) (lost s) (started s)).

(** ** Escaping *)

Lemma written_byte_escape c : written_byte c = escape_byte c.
Proof. by destruct c. Qed.

Lemma WriteEscaped_Escape v : WriteEscaped v = [quote] ++ Escape v ++ [quote].
Proof.
  unfold WriteEscaped, Escape. rewrite (map_ext written_byte escape_byte); [done|]. apply written_byte_escape.
Qed.

Section avoids.
Context (c : byte).

Definition avoids (l : str) : Prop := c ∉ l.

Lemma avoids_app l k : avoids (l ++ k) <-> avoids l /\ avoids k.
Proof. unfold avoids. rewrite elem_of_app. naive_solver. Qed.

Lemma avoids_bool l : forallb (fun b => negb (bool_decide (b = c))) l = true -> avoids l.
Proof.
  unfold avoids. rewrite forallb_forall. intros H Hl%list_elem_of_In. specialize (H _ Hl). by rewrite bool_decide_eq_true_2 in H.
Qed.

Context (Hc : is_digit c = false).

Lemma to_digits_avoids fuel n acc : avoids acc -> avoids (to_digits fuel n acc).
Proof.
  revert n acc. induction fuel as [|fuel IH]; intros n acc Ha; [done|]. cbn [to_digits].
  assert (avoids (z2b (48 + n mod 10) :: acc)); [|case_match; [done|by apply IH]].
  unfold avoids in *. rewrite elem_of_cons. intros [E|]; [|done]. rewrite E in Hc. revert Hc. unfold is_digit.
  pose proof (Z.mod_pos_bound n 10 eq_refl). rewrite b2z_z2b_small by lia. rewrite !(proj2 (Z.leb_le _ _)) by lia. done.
Qed.

Lemma to_string_avoids n : avoids (to_string n).
Proof. apply to_digits_avoids. by apply avoids_bool. Qed.

Lemma setw_avoids w n : avoids (setw w n).
Proof.
  unfold setw. apply avoids_app. split; [|apply to_string_avoids]. intros E%elem_of_replicate_inv. by rewrite E in Hc.
Qed.
End avoids.

Abbreviation one_line := (avoids LF).

Lemma WriteEscaped_one_line v : one_line (WriteEscaped v).
Proof.
  unfold WriteEscaped. rewrite !avoids_app. split_and!; try by apply avoids_bool. induction v as [|c v IH]; [by apply avoids_bool|].
  cbn [map concat]. apply avoids_app. split; [|done]. apply avoids_bool. by destruct c.
Qed.

Definition clean (r : LogRecord) : Prop := Forall (fun f => one_line (key f)) (fields r).

Lemma format_line_one_line r : clean r -> one_line (format_line r).
Proof.
  intros Hr. unfold format_line, format_time. rewrite !avoids_app.
  split_and!; try (by apply avoids_bool); auto using setw_avoids, to_string_avoids, WriteEscaped_one_line.
  - apply avoids_bool. by destruct (level r).
  - unfold format_fields. induction Hr as [|f l Hf _ IH]; [by apply avoids_bool|]. cbn [map concat]. rewrite !avoids_app.
    split_and!; try done; try (by apply avoids_bool). apply WriteEscaped_one_line.
Qed.

(** ** Lines *)

(** The complete lines of a text and what is behind them *)
Fixpoint split_lines (l : str) : list str * str :=
  match l with
  | [] => ([], [])
  | c :: l =>
      let '(ls, rest) := split_lines l in
      if decide (c = LF) then ([] :: ls, rest)
      else match ls with [] => ([], c :: rest) | x :: ls => ((c :: x) :: ls, rest) end
  end.

Lemma split_lines_line l k : one_line l -> split_lines (l ++ [LF] ++ k) = (l :: (split_lines k).1, (split_lines k).2).
Proof.
  induction l as [|c l IH]; intros Hl.
  - cbn. by destruct (split_lines k).
  - apply not_elem_of_cons in Hl as [Hc Hl]. change ((c :: l) ++ [LF] ++ k) with (c :: (l ++ [LF] ++ k)).
    cbn [split_lines]. rewrite (IH Hl). by rewrite decide_False.
Qed.

Lemma split_lines_records rs : Forall clean rs -> split_lines (concat (map FormatRecord rs)) = (map format_line rs, []).
Proof.
  induction 1 as [|r rs Hr _ IH]; [done|]. cbn [map concat]. unfold FormatRecord at 1. rewrite <- app_assoc.
  rewrite split_lines_line by by apply format_line_one_line. by rewrite IH.
Qed.

(** ** Texts can be told apart *)

(** A quoted text: what it stands for and what is behind it *)
Fixpoint read_escaped (l : str) : option (str * str) :=
  match l with
  | [] => None
  | c :: l' =>
      if decide (c = quote) then Some ([], l')
      else if decide (c = backslash) then
        match l' with [] => None | d :: l'' => (fun p => (Unescape [c; d] ++ p.1, p.2)) <$> read_escaped l'' end
      else (fun p => (c :: p.1, p.2)) <$> read_escaped l'
  end.

Lemma read_escaped_Escape v k : read_escaped (Escape v ++ [quote] ++ k) = Some (v, k).
Proof.
  induction v as [|c v IH]; [done|]. change (Escape (c :: v)) with (escape_byte c ++ Escape v). rewrite <- app_assoc.
  unfold escape_byte. repeat (case_decide; [subst c; cbn -[Escape]; change (quote :: k) with ([quote] ++ k); by rewrite IH|]).
  cbn [app read_escaped]. rewrite !decide_False by done. change (quote :: k) with ([quote] ++ k). by rewrite IH.
Qed.

(** A quoted text and what follows it are determined by the whole. *)
Lemma WriteEscaped_inj v v' k k' : WriteEscaped v ++ k = WriteEscaped v' ++ k' -> v = v' /\ k = k'.
Proof.
  rewrite !WriteEscaped_Escape, <- !app_assoc. intros [= E]. pose proof (read_escaped_Escape v k) as H. cbn [app] in H. rewrite E in H.
  pose proof (read_escaped_Escape v' k') as H'. cbn [app] in H'. rewrite H' in H. by injection H as -> ->.
Qed.

(** Up to the first occurrence of a byte *)
Lemma prefix_inj (c : byte) l l' k k' : c ∉ l -> c ∉ l' -> l ++ c :: k = l' ++ c :: k' -> l = l' /\ k = k'.
Proof.
  revert l'. induction l as [|a l IH]; intros [|b l'] Hl Hl' E.
  - by injection E.
  - injection E as -> _. set_solver.
  - injection E as <- _. set_solver.
  - injection E as -> E. apply not_elem_of_cons in Hl as [_ Hl], Hl' as [_ Hl']. destruct (IH l' Hl Hl' E) as [-> ->]. done.
Qed.

Lemma format_fields_inj l l' : Forall (fun f => Byte.x3d ∉ key f) l -> Forall (fun f => Byte.x3d ∉ key f) l' ->
  format_fields l = format_fields l' -> l = l'.
Proof.
  intros Hl. revert l'. induction Hl as [|f l Hf _ IH]; intros [|f' l'] Hl' E; try done.
  apply Forall_cons in Hl' as [Hf' Hl']. unfold format_fields in E. cbn [map concat] in E. rewrite <- !app_assoc in E.
  injection E as E. apply prefix_inj in E as [Ek E]; [|done|done]. apply WriteEscaped_inj in E as [Ev E]. f_equal; [|by apply IH].
  destruct f, f'. cbn in *. by subst.
Qed.

(** What stands before the event *)
Definition format_head (r : LogRecord) : str :=
  format_time (timestamp r) ++ $" [" ++ LevelName (level r) ++ $"] [thread=" ++ to_string (thread_id r) ++ $"] event=".

Lemma format_head_no_quote r : avoids quote (format_head r).
Proof.
  unfold format_head, format_time. rewrite !avoids_app.
  split_and!; try (by apply avoids_bool); auto using setw_avoids, to_string_avoids. apply avoids_bool. by destruct (level r).
Qed.

(** Different events, messages or fields give different texts. *)
Lemma FormatRecord_inj r r' : Forall (fun f => Byte.x3d ∉ key f) (fields r) -> Forall (fun f => Byte.x3d ∉ key f) (fields r') ->
  FormatRecord r = FormatRecord r' -> event r = event r' /\ message r = message r' /\ fields r = fields r'.
Proof.
  intros Hr Hr' E. unfold FormatRecord in E. apply app_inj_tail in E as [E _].
  assert (forall r, format_line r = format_head r ++ WriteEscaped (event r) ++ $" message=" ++ WriteEscaped (message r) ++ format_fields (fields r)) as Hh.
  { intros q. unfold format_line, format_head. by rewrite <- !app_assoc. }
  rewrite !Hh in E. assert (forall v, WriteEscaped v = quote :: (concat (map written_byte v) ++ [quote])) as Hq by done.
  rewrite !(Hq (event _)) in E. cbn [app] in E. apply prefix_inj in E as [_ E]; [|apply format_head_no_quote..].
  assert (WriteEscaped (event r) ++ $" message=" ++ WriteEscaped (message r) ++ format_fields (fields r) =
          WriteEscaped (event r') ++ $" message=" ++ WriteEscaped (message r') ++ format_fields (fields r')) as E'.
  { rewrite !(Hq (event _)). cbn [app]. by rewrite E. }
  apply WriteEscaped_inj in E' as [Ee E']. apply app_inv_head in E'. apply WriteEscaped_inj in E' as [Em E'].
  by apply format_fields_inj in E'.
Qed.

(** ** Every record once *)

(** Where a call of [Log] has to write *)
Definition deliveries (c : LogRecord * list Sink) : list (Target * LogRecord) :=
  omap (fun k => if accepts c.1 k then Some (target k, c.1) else None) c.2.

(** The records that went to a stream *)
Definition written_to (t : Target) (l : list (Target * LogRecord)) : list LogRecord :=
  omap (fun p => if decide (p.1 = t) then Some p.2 else None) l.

Inductive steps : System -> System -> Prop :=
  | steps_refl s : steps s s
  | steps_snoc s s' s'' : steps s s' -> step s' s'' -> steps s s''.

Lemma written_to_app t l k : written_to t (l ++ k) = written_to t l ++ written_to t k.
Proof. apply omap_app. Qed.

(** What is left of a call *)
Definition remaining (c : Call) : list (Target * LogRecord) := deliveries (call_record c, call_sinks c).

Definition once (s : System) : Prop :=
  concat (map deliveries (started s)) ≡ₚ written s ++ lost s ++ concat (map remaining (pending s)).

Lemma deliveries_cons r k ks :
  deliveries (r, k :: ks) = (if accepts r k then [(target k, r)] else []) ++ deliveries (r, ks).
Proof. unfold deliveries. cbn. by destruct (accepts r k). Qed.

(** A thread that holds a lock writes a record that its sink takes. *)
Definition lock_ok (s : System) : Prop :=
  Forall (fun c => match call_left c, call_sinks c with Some _, k :: _ => accepts (call_record c) k = true | Some _, [] => False | None, _ => True end)
    (pending s).

Lemma lock_ok_step s s' : lock_ok s -> step s s' -> lock_ok s'.
Proof.
  unfold lock_ok. intros Hl Hst.
  destruct Hst as [k l s E|r s|p1 r k ks p2 s E|p1 r k ks p2 s E Ha|p1 r k ks a b p2 s E|p1 r k ks p2 s E|p1 r k ks b p2 s E|p1 r p2 s E];
    cbn [pending]; try (rewrite E, Forall_app, Forall_cons in Hl; destruct Hl as (H1 & H2 & H3); rewrite Forall_app, ?Forall_cons; done).
  - done.
  - apply Forall_app. split; [done|]. by repeat constructor.
Qed.

Lemma once_step s s' : lock_ok s -> once s -> step s s' -> once s'.
Proof.
  unfold once. intros Hl Ho Hst.
  destruct Hst as [k l s E|r s|p1 r k ks p2 s E|p1 r k ks p2 s E Ha|p1 r k ks a b p2 s E|p1 r k ks p2 s E|p1 r k ks b p2 s E|p1 r p2 s E];
    cbn [pending written lost started]; try done.
  - rewrite !map_app, !concat_app, Ho, <- !app_assoc. done.
  - rewrite E in Ho. rewrite map_app, concat_app in *. cbn [map concat] in *. unfold remaining at 2 in Ho. cbn [call_record call_sinks] in Ho.
    rewrite deliveries_cons in Ho. rewrite Ho. change (remaining (mkCall r ks None)) with (deliveries (r, ks)). solve_Permutation.
  - rewrite E in Ho. by rewrite map_app, concat_app in *.
  - rewrite E in Ho. by rewrite map_app, concat_app in *.
  - rewrite E in Ho. unfold lock_ok in Hl. rewrite E, Forall_app, Forall_cons in Hl. destruct Hl as (_ & Ha & _). cbn in Ha.
    rewrite map_app, concat_app in *. cbn [map concat] in *. unfold remaining at 2 in Ho. cbn [call_record call_sinks] in Ho.
    rewrite deliveries_cons, Ha in Ho. rewrite Ho. change (remaining (mkCall r ks None)) with (deliveries (r, ks)). solve_Permutation.
  - rewrite E in Ho. unfold lock_ok in Hl. rewrite E, Forall_app, Forall_cons in Hl. destruct Hl as (_ & Ha & _). cbn in Ha.
    rewrite map_app, concat_app in *. cbn [map concat] in *. unfold remaining at 2 in Ho. cbn [call_record call_sinks] in Ho.
    rewrite deliveries_cons, Ha in Ho. rewrite Ho. change (remaining (mkCall r ks None)) with (deliveries (r, ks)). solve_Permutation.
  - rewrite E in Ho. rewrite map_app, concat_app in *. cbn [map concat] in *. done.
Qed.

(** ** Every stream *)

(** The sinks that calls of [Log] found; the sinks on one stream are one object. *)
Definition used (s : System) : list Sink := concat (map snd (started s)).

Definition own_streams (s : System) : Prop :=
  forall k k', k ∈ used s -> k' ∈ used s -> target k = target k' -> mutex_ k = mutex_ k'.

(** What the threads inside a lock have still to write to a stream *)
Definition writer (t : Target) (c : Call) : list (LogRecord * str) :=
  match call_left c, call_sinks c with
  | Some b, k :: _ => if decide (target k = t) then [(call_record c, b)] else []
  | _, _ => []
  end.

Definition writers (t : Target) (calls : list Call) : list (LogRecord * str) := concat (map (writer t) calls).

Lemma writers_middle t p1 c p2 : writers t (p1 ++ c :: p2) = writers t p1 ++ writer t c ++ writers t p2.
Proof. unfold writers. by rewrite map_app, concat_app. Qed.

(** A stream has the lines of the records written to it and then, if it failed, a piece of a line that is lost; else
    the piece that it took of the line of the thread that is writing to it. *)
Definition tail_ok (s : System) (t : Target) (rest : str) : Prop :=
  if decide (t ∈ failed s) then exists r, (t, r) ∈ lost s /\ rest `prefix_of` FormatRecord r
  else writers t (pending s) = [] /\ rest = [] \/
       exists r b, writers t (pending s) = [(r, b)] /\ rest ++ b = FormatRecord r.

Record stream_ok (s0 : Streams) (s : System) (t : Target) : Prop := {
  so_bytes : exists rest,
    streams s t = s0 t ++ concat (map FormatRecord (written_to t (written s))) ++ rest /\ tail_ok s t rest;
  so_failed : t ∈ failed s -> Forall (fun w => w.2 = FormatRecord w.1) (writers t (pending s));
}.

Definition known (s : System) : Prop := Forall (fun c => Forall (fun k => k ∈ used s) (call_sinks c)) (pending s).

Lemma step_used s s' : step s s' -> used s ⊆ used s'.
Proof.
  destruct 1; try done. unfold used. cbn [started]. rewrite map_app, concat_app. set_solver.
Qed.

Lemma own_streams_before s s' : step s s' -> own_streams s' -> own_streams s.
Proof. intros Hu%step_used Ho k k' Hk Hk'. apply Ho; by apply Hu. Qed.

Lemma known_step s s' : known s -> step s s' -> known s'.
Proof.
  intros Hk Hst. assert (Hm : Forall (fun c => Forall (fun k => k ∈ used s') (call_sinks c)) (pending s)).
  { eapply Forall_impl; [exact Hk|]. intros c Hc. eapply Forall_impl; [exact Hc|]. intros k. by apply step_used. }
  unfold known in *. remember (used s') as u eqn:Eu.
  destruct Hst as [k l s E|r s|p1 r k ks p2 s E|p1 r k ks p2 s E Ha|p1 r k ks a b p2 s E|p1 r k ks p2 s E|p1 r k ks b p2 s E|p1 r p2 s E];
    cbn [pending]; try (rewrite E, Forall_app, Forall_cons in Hm; destruct Hm as (H1 & H2 & H3);
      cbn [call_sinks] in H2; rewrite ?Forall_cons in H2; rewrite Forall_app, ?Forall_cons; cbn [call_sinks]; rewrite ?Forall_cons; tauto); try done.
  apply Forall_app. split; [done|]. constructor; [|constructor]. cbn [call_sinks]. apply Forall_forall. intros k Hk'.
  subst u. unfold used. cbn [started]. rewrite map_app, concat_app. cbn. set_solver.
Qed.

Lemma writers_free s k t : known s -> own_streams s -> k ∈ used s -> target k = t -> unlocked (mutex_ k) (pending s) = true ->
  writers t (pending s) = [].
Proof.
  intros Hk Ho Hku Ht Hu. unfold known in Hk. unfold unlocked in Hu. rewrite forallb_forall in Hu.
  destruct (writers t (pending s)) as [|w l] eqn:E; [done|]. exfalso.
  assert (Hw : w ∈ writers t (pending s)) by (rewrite E; set_solver).
  apply list_elem_of_In, in_concat in Hw as (x & Hin & Hx). apply in_map_iff in Hin as (c & <- & Hc).
  specialize (Hu c Hc). apply bool_decide_eq_true in Hu. apply list_elem_of_In in Hc.
  apply (proj1 (Forall_forall _ _) Hk) in Hc. unfold writer in Hx. unfold holds in Hu.
  destruct (call_left c), (call_sinks c) as [|k' ks]; try done. apply Forall_cons in Hc as [Hk' _].
  case_decide; [|done]. apply Hu. f_equal. apply Ho; [done..|congruence].
Qed.

Lemma app_singleton {A} (l1 l2 : list A) x y : l1 ++ [x] ++ l2 = [y] -> l1 = [] /\ l2 = [] /\ x = y.
Proof. destruct l1 as [|a [|? ?]]; [|done..]. cbn. intros [= -> ->]. done. Qed.

Lemma FormatRecord_nonempty r : FormatRecord r <> [].
Proof. unfold FormatRecord. by destruct (format_line r). Qed.

(** A step that changes neither the stream nor what is written to it *)
Lemma stream_ok_same s0 s s' t : stream_ok s0 s t -> streams s' t = streams s t ->
  written_to t (written s') = written_to t (written s) -> writers t (pending s') = writers t (pending s) ->
  (t ∈ failed s' <-> t ∈ failed s) -> lost s ⊆ lost s' -> stream_ok s0 s' t.
Proof.
  intros [(rest & E & Ht) Hf] Es Ew Ep Ef El. split.
  - exists rest. rewrite Es, Ew. split; [done|]. unfold tail_ok in *. rewrite Ep.
    destruct (decide (t ∈ failed s)), (decide (t ∈ failed s')); try tauto. destruct Ht as (r & Hr & Hp). exists r. split; [by apply El|done].
  - rewrite Ef, Ep. exact Hf.
Qed.

(** In the lock of a sink, the stream takes all of the line, or fails. *)
Lemma writer_own r k ks b : writer (target k) (mkCall r (k :: ks) (Some b)) = [(r, b)].
Proof. cbn. by rewrite decide_True. Qed.
Lemma writer_other t r k ks b : t <> target k -> writer t (mkCall r (k :: ks) (Some b)) = [].
Proof. intros. cbn. by rewrite decide_False. Qed.

Lemma stream_ok_lock s0 s p1 r k ks p2 t : stream_ok s0 s t -> known s -> own_streams s ->
  pending s = p1 ++ mkCall r (k :: ks) None :: p2 -> unlocked (mutex_ k) (pending s) = true ->
  stream_ok s0 (mkSystem (sinks_ s) (p1 ++ mkCall r (k :: ks) (Some (FormatRecord r)) :: p2) (streams s) (failed s) (written s)
                  (lost s) (started s)) t.
Proof.
  intros Hs Hk Ho E Hu. destruct (decide (t = target k)) as [->|Ht].
  2:{ apply (stream_ok_same s0 s); try done. cbn [pending]. by rewrite E, !writers_middle, writer_other. }
  assert (Hku : k ∈ used s).
  { unfold known in Hk. rewrite E, Forall_app, Forall_cons in Hk. destruct Hk as (_ & H & _). by apply Forall_cons in H as [? _]. }
  pose proof (writers_free s k _ Hk Ho Hku eq_refl Hu) as Hw. rewrite E, writers_middle in Hw.
  apply app_eq_nil in Hw as [Hw1 Hw2]. cbn in Hw2.
  assert (Hn : writers (target k) (p1 ++ mkCall r (k :: ks) (Some (FormatRecord r)) :: p2) = [(r, FormatRecord r)]).
  { by rewrite writers_middle, Hw1, Hw2, writer_own. }
  destruct Hs as [(rest & Es & Hr) Hf]. split; cbn [streams written failed pending lost].
  - exists rest. split; [done|]. unfold tail_ok in *. cbn [failed pending lost]. rewrite Hn. rewrite E, writers_middle, Hw1, Hw2 in Hr.
    destruct (decide _); [done|]. right. destruct Hr as [[_ ->]|(?&?&?&?)]; [|done]. by exists r, (FormatRecord r).
  - intros _. rewrite Hn. by constructor.
Qed.

Lemma stream_ok_bytes s0 s p1 r k ks a b p2 t : stream_ok s0 s t ->
  pending s = p1 ++ mkCall r (k :: ks) (Some (a ++ b)) :: p2 -> target k ∉ failed s ->
  stream_ok s0 (mkSystem (sinks_ s) (p1 ++ mkCall r (k :: ks) (Some b) :: p2) (append_to (target k) a (streams s)) (failed s)
                  (written s) (lost s) (started s)) t.
Proof.
  intros Hs E Hn. destruct (decide (t = target k)) as [->|Ht].
  2:{ apply (stream_ok_same s0 s); try done; cbn [pending streams].
      - unfold append_to. by rewrite decide_False.
      - by rewrite E, !writers_middle, !writer_other. }
  destruct Hs as [(rest & Es & Hr) Hf]. unfold tail_ok in Hr. rewrite decide_False in Hr by done.
  rewrite E, writers_middle, writer_own in Hr. destruct Hr as [[H _]|(r' & b' & Hw & Hb)]; [by destruct (writers _ p1)|].
  apply app_singleton in Hw as (Hw1 & Hw2 & [= <- <-]). split; cbn [streams written failed pending lost]; [|done].
  exists (rest ++ a). split; [unfold append_to; rewrite decide_True by done; by rewrite Es, <- !app_assoc|].
  unfold tail_ok. cbn [failed pending]. rewrite decide_False by done. right. exists r, b.
  by rewrite writers_middle, writer_own, Hw1, Hw2, <- app_assoc.
Qed.

Lemma stream_ok_done s0 s p1 r k ks p2 t : stream_ok s0 s t ->
  pending s = p1 ++ mkCall r (k :: ks) (Some []) :: p2 ->
  stream_ok s0 (mkSystem (sinks_ s) (p1 ++ mkCall r ks None :: p2) (streams s) (failed s) (written s ++ [(target k, r)])
                  (lost s) (started s)) t.
Proof.
  intros Hs E. destruct (decide (t = target k)) as [->|Ht].
  2:{ apply (stream_ok_same s0 s); try done; cbn [pending written].
      - rewrite written_to_app. cbn. rewrite decide_False by done. by rewrite app_nil_r.
      - by rewrite E, !writers_middle, writer_other. }
  destruct Hs as [(rest & Es & Hr) Hf]. rewrite E, writers_middle, writer_own in Hf.
  destruct (decide (target k ∈ failed s)) as [Hin|Hn].
  { apply Hf, Forall_app in Hin as [_ [Hbad _]%Forall_cons]. cbn in Hbad. by destruct (FormatRecord_nonempty r). }
  unfold tail_ok in Hr. rewrite decide_False in Hr by done.
  rewrite E, writers_middle, writer_own in Hr. destruct Hr as [[H _]|(r' & b' & Hw & Hb)]; [by destruct (writers _ p1)|].
  apply app_singleton in Hw as (Hw1 & Hw2 & [= <- <-]). rewrite app_nil_r in Hb. subst rest.
  split; cbn [streams written failed pending lost]; [|done]. exists []. rewrite written_to_app, map_app, concat_app, app_nil_r. cbn.
  rewrite decide_True by done. cbn. rewrite app_nil_r. split; [done|]. unfold tail_ok. cbn [failed pending]. rewrite decide_False by done.
  left. by rewrite writers_middle, Hw1, Hw2.
Qed.

Lemma stream_ok_fail s0 s p1 r k ks b p2 t : stream_ok s0 s t ->
  pending s = p1 ++ mkCall r (k :: ks) (Some b) :: p2 ->
  stream_ok s0 (mkSystem (sinks_ s) (p1 ++ mkCall r ks None :: p2) (streams s) (target k :: failed s) (written s)
                  (lost s ++ [(target k, r)]) (started s)) t.
Proof.
  intros Hs E. destruct (decide (t = target k)) as [->|Ht].
  2:{ apply (stream_ok_same s0 s); try done; cbn [pending failed lost].
      - by rewrite E, !writers_middle, writer_other.
      - set_solver.
      - set_solver. }
  destruct Hs as [(rest & Es & Hr) Hf]. rewrite E, writers_middle, writer_own in Hf.
  unfold tail_ok in Hr. rewrite E, writers_middle, writer_own in Hr.
  split; cbn [streams written failed pending lost].
  - exists rest. split; [done|]. unfold tail_ok. cbn [failed lost]. rewrite decide_True by set_solver.
    destruct (decide (target k ∈ failed s)).
    + destruct Hr as (r' & Hr' & Hp). exists r'. split; [set_solver|done].
    + destruct Hr as [[H _]|(r' & b' & Hw & Hb)]; [by destruct (writers _ p1)|]. exists r.
      apply app_singleton in Hw as (_ & _ & [= <- <-]). split; [set_solver|]. by exists b.
  - intros _. rewrite writers_middle. destruct (decide (target k ∈ failed s)) as [Hin|Hn].
    + apply Hf, Forall_app in Hin as [H1 H2]. apply Forall_cons in H2 as [_ H2]. apply Forall_app. split; [done|]. by apply Forall_app.
    + destruct Hr as [[H _]|(r' & b' & Hw & Hb)]; [by destruct (writers _ p1)|].
      apply app_singleton in Hw as (-> & -> & _). by repeat constructor.
Qed.

Lemma stream_ok_step s0 s s' t : stream_ok s0 s t -> known s -> own_streams s -> step s s' -> stream_ok s0 s' t.
Proof.
  intros Hs Hk Ho Hst.
  destruct Hst as [k l s E|r s|p1 r k ks p2 s E|p1 r k ks p2 s E Ha|p1 r k ks a b p2 s E|p1 r k ks p2 s E|p1 r k ks b p2 s E|p1 r p2 s E].
  - by apply (stream_ok_same s0 s).
  - apply (stream_ok_same s0 s); try done. cbn [pending]. rewrite writers_middle. by rewrite !app_nil_r.
  - apply (stream_ok_same s0 s); try done; cbn [pending lost]; [by rewrite E, !writers_middle|set_solver].
  - by apply stream_ok_lock.
  - by eapply stream_ok_bytes.
  - by apply stream_ok_done.
  - by eapply stream_ok_fail.
  - apply (stream_ok_same s0 s); try done. cbn [pending]. rewrite E, writers_middle. unfold writers. by rewrite map_app, concat_app.
Qed.

Record inv (s0 : Streams) (s : System) : Prop := {
  inv_once : once s;
  inv_lock : lock_ok s;
  inv_known : known s;
  inv_streams : own_streams s -> forall t, stream_ok s0 s t;
}.

Lemma inv_steps s0 s : steps (System_make s0) s -> inv s0 s.
Proof.
  intros H. remember (System_make s0) as i eqn:Ei. induction H as [|s s' s'' _ IH Hst]; subst.
  - split; try done; try constructor; try done. exists []. split; [by rewrite !app_nil_r|]. unfold tail_ok. cbn. by left.
  - destruct (IH eq_refl) as [H1 H2 H3 H4]. split.
    + by eapply once_step.
    + by eapply lock_ok_step.
    + by eapply known_step.
    + intros Ho t. assert (own_streams s') by (by eapply own_streams_before). eapply stream_ok_step; [by apply H4|done..].
Qed.

(** C35. Log lines, for any number of threads that log and add sinks, any interleaving of them, streams that take a
    line in any pieces and fail at any point, and records whose keys contain no line feed (the code does not escape
    keys).  Every call of [Log] is written as a whole, or lost, or still has to be written exactly once to each sink
    it found whose levels admit the record, and to no other.  If every stream is written to by one sink (the lock
    that keeps lines apart is one of the sink, see [two_sinks_interleave]), what was appended to a stream consists of
    complete lines, one for each record written to it, in the order of the writes, and no event, message or value
    can add or break one; behind them there is nothing but, in a stream that failed, a piece of a lost line, and else
    the piece taken so far of the one line that is being written. *)
Theorem log_lines s0 s : steps (System_make s0) s -> Forall (fun c => clean c.1) (started s) ->
  concat (map deliveries (started s)) ≡ₚ written s ++ lost s ++ concat (map remaining (pending s)) /\
  (own_streams s -> forall t, exists l rest, streams s t = s0 t ++ l ++ rest /\
     split_lines l = (map format_line (written_to t (written s)), []) /\ tail_ok s t rest).
Proof.
  intros [Ho _ _ Hs]%inv_steps Hc. unfold once in Ho. split; [exact Ho|]. intros Hown t. destruct (Hs Hown t) as [(rest & E & Hr) _].
  exists (concat (map FormatRecord (written_to t (written s)))), rest. split; [done|]. split; [|done].
  apply split_lines_records. apply Forall_forall. intros r (p & Hp & Er)%list_elem_of_omap.
  assert (p ∈ concat (map deliveries (started s))) as Hd by (rewrite Ho; set_solver).
  apply list_elem_of_In, in_concat in Hd as (l & Hin & Hl). apply list_elem_of_In in Hin, Hl.
  apply list_elem_of_fmap in Hin as (c & -> & Hin). apply list_elem_of_omap in Hl as (k & _ & El). case_match; [|done].
  injection El as <-. cbn in Er. case_decide; [|done]. injection Er as <-. exact (proj1 (Forall_forall _ _) Hc c Hin).
Qed.

(** ** A call alone

    Without other threads and failures a call of [Log] is [Log]. *)
Lemma steps_trans s1 s2 s3 : steps s1 s2 -> steps s2 s3 -> steps s1 s3.
Proof. intros H. induction 1; [done|]. econstructor; [by apply IHsteps|done]. Qed.

Lemma steps_one s1 s2 : step s1 s2 -> steps s1 s2.
Proof. intros. econstructor; [apply steps_refl|done]. Qed.

Lemma Write_alone l r k ks st w lo sd :
  steps (mkSystem l [mkCall r (k :: ks) None] st [] w lo sd)
    (mkSystem l [mkCall r ks None] (Write r k st) [] (w ++ if accepts r k then [(target k, r)] else []) lo sd).
Proof.
  unfold Write. destruct (accepts r k) eqn:Ea; cbn [negb].
  - eapply steps_trans; [apply steps_one, (step_lock [] r k ks []); [done..|apply andb_true_iff; by rewrite bool_decide_true]|].
    eapply steps_trans; [apply steps_one, (step_bytes [] r k ks (FormatRecord r) [] []); cbn; [by rewrite app_nil_r|set_solver]|].
    apply steps_one. apply (step_done [] r k ks []). done.
  - pose proof (step_pass [] r k ks [] (mkSystem l [mkCall r (k :: ks) None] st [] w lo sd) eq_refl) as H.
    rewrite Ea in H. cbn in H. rewrite app_nil_r in *. by apply steps_one.
Qed.

Lemma Log_alone l r st w lo sd :
  steps (mkSystem l [] st [] w lo sd) (mkSystem l [] (Log l r st) [] (w ++ deliveries (r, l)) lo (sd ++ [(r, l)])).
Proof.
  eapply steps_trans; [apply steps_one, (step_log r)|]. cbn. unfold Log. generalize (sd ++ [(r, l)]) as sd'.
  assert (H : forall ks st w sd', steps (mkSystem l [mkCall r ks None] st [] w lo sd')
    (mkSystem l [] (fold_left (fun s k => Write r k s) ks st) [] (w ++ deliveries (r, ks)) lo sd')); [|intros; apply H].
  induction ks as [|k ks IH]; intros st' w' sd'.
  - cbn. rewrite app_nil_r. apply steps_one. by apply (step_return [] r []).
  - eapply steps_trans; [apply Write_alone|]. rewrite deliveries_cons, app_assoc. apply IH.
Qed.


Definition example_record : LogRecord :=
  mkRecord (mkTimestamp 2024 5 6 7 8 9 10) Info 12 $"server.started" [Byte.x61; LF; Byte.x62] [mkField $"port" $"9000"].

Example example_line : FormatRecord example_record =
  $"2024-05-06T07:08:09.010Z [INFO] [thread=12] event=" ++ [quote] ++ $"server.started" ++ [quote] ++ $" message=" ++
  [quote] ++ $"a\nb" ++ [quote] ++ $" port=" ++ [quote] ++ $"9000" ++ [quote; LF].
Proof. vm_compute. reflexivity. Qed.

Definition example_sink : Sink := StreamLogSink 1 Stdout Trace Info.

(** Two calls of one sink: the first line is cut, the second is lost. *)
Definition example_system : System :=
  mkSystem [example_sink] [] (append_to Stdout $"2024" (Write example_record example_sink (fun _ => []))) [Stdout]
    [(Stdout, example_record)] [(Stdout, example_record)]
    [(example_record, [example_sink]); (example_record, [example_sink])].

Lemma log_lines_witness : steps (System_make (fun _ => [])) example_system /\
  exists l rest, streams example_system Stdout = l ++ rest /\ split_lines l = ([format_line example_record], []) /\
    tail_ok example_system Stdout rest.
Proof.
  assert (H : steps (System_make (fun _ => [])) example_system).
  { eapply steps_trans; [apply steps_one, (step_add (Some example_sink) [example_sink]); reflexivity|].
    eapply steps_trans; [apply (Log_alone [example_sink] example_record)|].
    eapply steps_trans; [apply steps_one, (step_log example_record)|]. cbn [sinks_ pending app].
    eapply steps_trans; [apply steps_one, (step_lock [] example_record example_sink [] []); [reflexivity..]|].
    eapply steps_trans; [apply steps_one, (step_bytes [] example_record example_sink [] $"2024" (zdrop 4 (FormatRecord example_record)) []);
      [reflexivity|cbn; set_solver]|].
    eapply steps_trans; [apply steps_one, (step_fail [] example_record example_sink [] (zdrop 4 (FormatRecord example_record)) []); reflexivity|].
    apply steps_one, (step_return [] example_record []). reflexivity. }
  split; [done|]. destruct (log_lines (fun _ => []) example_system H) as [_ Hl].
  { constructor; [|constructor; [|constructor]]; (constructor; [|constructor]); by apply avoids_bool. }
  destruct (Hl ltac:(intros k k' Hk Hk' _; cbn in Hk, Hk'; set_solver) Stdout) as (l & rest & E & El & Ht).
  exists l, rest. split; [exact E|]. split; [exact El|exact Ht].
Defined.

Lemma append_to_same t l s : append_to t l s t = s t ++ l.
Proof. unfold append_to. by rewrite decide_True. Qed.

(** Reduces the state after a step *)
Local Ltac tidy := cbn [sinks_ pending streams failed written lost started app System_make].

(** Two sinks on one stream have a lock each, so a line can get into another one. *)
Theorem two_sinks_interleave r :
  let k1 := StreamLogSink 1 Stdout Trace Critical in
  let k2 := StreamLogSink 2 Stdout Trace Critical in
  exists s, steps (System_make (fun _ => [])) s /\ lost s = [] /\ written s = [(Stdout, r); (Stdout, r); (Stdout, r)] /\
    streams s Stdout = FormatRecord r ++ ztake 4 (FormatRecord r) ++ FormatRecord r ++ zdrop 4 (FormatRecord r).
Proof.
  intros k1 k2. set (line := FormatRecord r).
  assert (H1 : accepts r k1 = true) by (by destruct r as [? [] ? ? ? ?]).
  assert (H2 : accepts r k2 = true) by (by destruct r as [? [] ? ? ? ?]).
  eexists. split; [|split; [|split]].
  - eapply steps_trans; [eapply steps_one, (step_add (Some k1) [k1]); reflexivity|]; tidy.
    eapply steps_trans; [eapply steps_one, (step_add (Some k2) [k1; k2]); reflexivity|]; tidy.
    eapply steps_trans; [eapply steps_one, (step_log r)|]; tidy.
    eapply steps_trans; [eapply steps_one, (step_log r)|]; tidy.
    (* the first thread is done with the first sink, and within its line to the second one *)
    eapply steps_trans; [eapply steps_one, (step_lock [] r k1 [k2] [mkCall r [k1; k2] None]); [reflexivity|done|reflexivity]|]; tidy.
    eapply steps_trans; [eapply steps_one, (step_bytes [] r k1 [k2] line [] [mkCall r [k1; k2] None]); cbn; [by rewrite app_nil_r|set_solver]|]; tidy.
    eapply steps_trans; [eapply steps_one, (step_done [] r k1 [k2] [mkCall r [k1; k2] None]); reflexivity|]; tidy.
    eapply steps_trans; [eapply steps_one, (step_lock [] r k2 [] [mkCall r [k1; k2] None]); [reflexivity|done|reflexivity]|]; tidy.
    eapply steps_trans; [eapply steps_one, (step_bytes [] r k2 [] (ztake 4 line) (zdrop 4 line) [mkCall r [k1; k2] None]);
      cbn; [by rewrite ztake_zdrop|set_solver]|]; tidy.
    (* the second thread writes to the first sink *)
    eapply steps_trans; [eapply steps_one, (step_lock [mkCall r [k2] (Some (zdrop 4 line))] r k1 [k2] []); [reflexivity|done|reflexivity]|]; tidy.
    eapply steps_trans; [eapply steps_one, (step_bytes [mkCall r [k2] (Some (zdrop 4 line))] r k1 [k2] line [] []);
      cbn; [by rewrite app_nil_r|set_solver]|]; tidy.
    eapply steps_trans; [eapply steps_one, (step_done [mkCall r [k2] (Some (zdrop 4 line))] r k1 [k2] []); reflexivity|]; tidy.
    (* the first thread goes on *)
    eapply steps_trans; [eapply steps_one, (step_bytes [] r k2 [] (zdrop 4 line) [] [mkCall r [k2] None]);
      cbn; [by rewrite app_nil_r|set_solver]|]; tidy.
    apply steps_one, (step_done [] r k2 [] [mkCall r [k2] None]). reflexivity.
  - reflexivity.
  - reflexivity.
  - cbn [streams]. change (target k1) with Stdout. change (target k2) with Stdout. fold line. clearbody line.
    rewrite !append_to_same. by rewrite <- !app_assoc.
Qed.

(** The console logger sends every record to one of the two streams. *)
Lemma console_logger_routes r : exists l, MakeConsoleLogger = Ok l /\
  deliveries (r, l) = [(if rank (level r) <=? rank Info then Stdout else Stderr, r)].
Proof. eexists. split; [reflexivity|]. unfold deliveries, accepts. cbn. by destruct (level r). Qed.
