(* ===== verification/ConfigUtils.v ===== *)
(** * Configuration: command line, numbers, TOML tables

    [config_utils.h] and [config_utils.cpp].  The TOML library, the file system and the process
    are interfaces: [Toml] has what the sources call of toml++, [Platform] what they call of the
    operating system.  A path is its text.

    The applications all read their options in the same way: a name and a text are handed to a
    function that rejects them or stores a value.  [OptionSet] is the contract of such a
    function, [apply_all_last] what follows for a list of overrides: the last one wins. *)

From S2P Require Import Prelude HttpMessage StringMap.

(** ** Interfaces *)

(** What is used of [toml::table] and [toml::node].  [value_exact<T>] is the value of a node of
    the type [T] and nothing for any other. *)
Class Toml := {
  table : Type;
  node : Type;
  entries : table -> list (str * node);
  get : table -> str -> option node;
  as_table : node -> option table;
  value_int64 : node -> option Z;
  value_string : node -> option str;
  value_bool : node -> option bool;
}.

(** What is used of the operating system: the directory of the program (nothing if the system
    does not tell it), the file system, the parser of files ([None] is a [toml::parse_error]),
    and the environment. *)
Class Platform (T : Toml) := {
  module_directory : option str;
  exists_ : str -> result bool;
  canonical : str -> result str;
  is_regular_file : str -> option bool;
  parse_file : str -> option table;
  ReadProcessEnvironment : str -> result (option str);
}.

(** ** Command line *)

Record CliParser := mkCliParser {
  cli_show_help : bool;
  cli_config_file : option str;
  options_ : StringMap;
  positional_ : list str;
}.

(** [body.find('=')] and the two [substr]. *)
Definition split_option (body : str) : option (str * str) :=
  match find [Byte.x3d] body 0 with
  | None => None
  | Some sep => Some (take sep body, drop (sep + 1) body)
  end.

Definition is_help (arg : str) : bool := bool_decide (arg = $"--help") || bool_decide (arg = $"-h").

Fixpoint CliParser_loop (c : CliParser) (arguments : list str) : result CliParser :=
  match arguments with
  | [] => Ok c
  | arg :: rest =>
      if is_help arg then CliParser_loop (mkCliParser true (cli_config_file c) (options_ c) (positional_ c)) rest
      else if decide (arg = $"--config") then
        match rest with
        | [] => Throw invalid_argument
        | path :: rest => CliParser_loop (mkCliParser (cli_show_help c) (Some path) (options_ c) (positional_ c)) rest
        end
      else if starts_with $"--config=" arg then
        CliParser_loop (mkCliParser (cli_show_help c) (Some (drop 9 arg)) (options_ c) (positional_ c)) rest
      else if negb (starts_with $"--" arg) then
        CliParser_loop (mkCliParser (cli_show_help c) (cli_config_file c) (options_ c) (positional_ c ++ [arg])) rest
      else
        let body := drop 2 arg in
        match split_option body with
        | Some (name, value) =>
            CliParser_loop (mkCliParser (cli_show_help c) (cli_config_file c) (emplace name value (options_ c)) (positional_ c)) rest
        | None =>
            match rest with
            | [] => Throw invalid_argument
            | value :: rest =>
                CliParser_loop (mkCliParser (cli_show_help c) (cli_config_file c) (emplace body value (options_ c)) (positional_ c)) rest
            end
        end
  end.

Definition CliParser_make (arguments : list str) : result CliParser :=
  CliParser_loop (mkCliParser false None [] []) arguments.

Definition HasOption (c : CliParser) (name : str) : bool := bool_decide (is_Some (lookup name (options_ c))).

Definition Option_ (c : CliParser) (name default_value : str) : str := default default_value (lookup name (options_ c)).

Definition Positional (c : CliParser) : list str := positional_ c.

(** ** Numbers *)

(** The number that digits denote *)
Definition decimal (l : str) : Z := fold_left (fun n c => 10 * n + (b2z c - 48)) l 0.

(** How many digits a text begins with *)
Fixpoint digit_run (l : str) : nat :=
  match l with [] => 0 | c :: l => if is_digit c then S (digit_run l) else 0 end.

Inductive errc := errc_invalid_argument | errc_result_out_of_range.

(** [std::from_chars] into a [uint64_t] that is [0] before: the error, how far it read, the value *)
Definition from_chars (value : str) : option errc * nat * Z :=
  match digit_run value with
  | O => (Some errc_invalid_argument, O, 0)
  | n => let z := decimal (take n value) in
         if z <? 2 ^ 64 then (None, n, z) else (Some errc_result_out_of_range, n, 0)
  end.

Definition ParseUnsigned (value : str) (maximum : Z) (allow_zero : bool) : result Z :=
  let '(ec, ptr, parsed) := from_chars value in
  if bool_decide (value = []) || bool_decide (is_Some ec) || negb (ptr =? length value)%nat ||
     (negb allow_zero && (parsed =? 0)) || (maximum <? parsed)
  then Throw invalid_argument
  else Ok parsed.

(** [std::to_string] of a signed integer *)
Definition to_string_signed (n : Z) : str := if n <? 0 then Byte.x2d :: to_string (- n) else to_string n.

(** ** TOML *)

Section TomlHelpers.
Context `{T : Toml}.

Definition OptionalTable (parent : table) (key : str) : result (option table) :=
  match get parent key with
  | None => Ok None
  | Some n => match as_table n with None => Throw invalid_argument | Some t => Ok (Some t) end
  end.

Definition ReadTomlInt (t : table) (key : str) : result (option Z) :=
  match get t key with
  | None => Ok None
  | Some n => match value_int64 n with None => Throw invalid_argument | Some z => Ok (Some z) end
  end.

Definition ReadTomlStr (t : table) (key : str) : result (option str) :=
  match get t key with
  | None => Ok None
  | Some n => match value_string n with None => Throw invalid_argument | Some s => Ok (Some s) end
  end.

Definition RejectUnknownKeys (t : table) (allowed : list str) : result unit :=
  if forallb (fun e => bool_decide (e.1 ∈ allowed)) (entries t) then Ok tt else Throw invalid_argument.
End TomlHelpers.

(** ** Configuration file *)

(** [parent / name] for a relative name.  The left side is absolute here, so it is no bare drive name. *)
Definition path_append (parent name : str) : str :=
  match last parent with
  | None => name
  | Some c => if bool_decide (c = Byte.x5c) || bool_decide (c = Byte.x2f) then parent ++ name else parent ++ [Byte.x5c] ++ name
  end.

Fixpoint climb (levels : nat) (directory : str) : str :=
  match levels with O => directory | S n => climb n (path_append directory $"..") end.

Section FindConfigFile.
Context {T : Toml} {P : Platform T}.

(** The loop over [levels] *)
Fixpoint search_levels (exe_dir config_name : str) (levels : list nat) : result (option str) :=
  match levels with
  | [] => Ok None
  | n :: levels =>
      let candidate := path_append (path_append (climb n exe_dir) $"config") config_name in
      found ← exists_ candidate;
      if (found : bool) then Some <$> canonical candidate else search_levels exe_dir config_name levels
  end.

Definition FindConfigFile (cli : CliParser) (config_name : str) : result (option str) :=
  match cli_config_file cli with
  | Some path => Ok (Some path)
  | None =>
      match module_directory with
      | None => Ok None
      | Some exe_dir => search_levels exe_dir config_name [1; 2; 3]%nat
      end
  end.
End FindConfigFile.

Definition TomlKeyToCli (toml_key : str) : str :=
  map (fun c => if decide (c = Byte.x5f) then Byte.x2d else c) toml_key.

Lemma throw_if_Ok {A} c e (k : result A) x : throw_if c e k = Ok x <-> c = false /\ k = Ok x.
Proof. unfold throw_if. destruct c; naive_solver. Qed.

(** ** Numerals *)

Definition digits (l : str) : Prop := Forall (fun c => is_digit c = true) l.

Lemma digit_range c : is_digit c = true -> 48 <= b2z c <= 57.
Proof. unfold is_digit. intros [?%Z.leb_le ?%Z.leb_le]%andb_true_iff. lia. Qed.

Lemma digit_run_all l : digit_run l = length l <-> digits l.
Proof.
  unfold digits. induction l as [|c l IH]; cbn; [done|]. rewrite Forall_cons. destruct (is_digit c); [|naive_solver].
  rewrite <- IH. split; [by intros [= ->]|by intros [_ ->]].
Qed.

Lemma decimal_snoc l c : decimal (l ++ [c]) = 10 * decimal l + (b2z c - 48).
Proof. unfold decimal. by rewrite fold_left_app. Qed.

Lemma decimal_nonneg l : digits l -> 0 <= decimal l.
Proof.
  induction l as [|c l IH] using rev_ind; intros Hl; [done|]. apply Forall_app in Hl as [Hl Hc]. apply Forall_cons_1 in Hc as [Hc _].
  rewrite decimal_snoc. apply digit_range in Hc. specialize (IH Hl). lia.
Qed.

(** Exactly the decimal numerals of numbers in the range are accepted. *)
Lemma ParseUnsigned_spec value maximum allow_zero n : maximum < 2 ^ 64 ->
  ParseUnsigned value maximum allow_zero = Ok n <->
  value <> [] /\ digits value /\ decimal value = n /\ n <= maximum /\ (allow_zero = false -> n <> 0).
Proof.
  intros Hmax. unfold ParseUnsigned, from_chars. rewrite <- digit_run_all.
  destruct (decide (value = [])) as [->|Hv]; [naive_solver|]. rewrite (bool_decide_eq_false_2 (value = [])) by done.
  destruct (digit_run value) as [|k] eqn:E; [split; [done|]; destruct value; naive_solver|]. rewrite <- E.
  destruct (Nat.eqb_spec (digit_run value) (length value)) as [Hk|Hk].
  - pose proof (decimal_nonneg _ (proj1 (digit_run_all _) Hk)) as H0. rewrite Hk, firstn_all. clear E Hk k.
    destruct (Z.ltb_spec (decimal value) (2 ^ 64)); cbn [negb orb].
    + rewrite Nat.eqb_refl, bool_decide_eq_false_2 by (by intros []). cbn [negb orb].
      destruct (Z.ltb_spec maximum (decimal value)), (Z.eqb_spec (decimal value) 0), allow_zero; cbn; naive_solver lia.
    + rewrite bool_decide_eq_true_2 by done. cbn. naive_solver lia.
  - destruct (_ <? _); cbn [negb orb]; destruct (Nat.eqb_spec (digit_run value) (length value)); try done;
      rewrite ?orb_true_r; cbn; naive_solver.
Qed.

Lemma ParseUnsigned_error value maximum allow_zero e :
  ParseUnsigned value maximum allow_zero = Throw e -> e = invalid_argument.
Proof. unfold ParseUnsigned. destruct (from_chars value) as [[ec ptr] z]. case_match; congruence. Qed.

Lemma ParseUnsigned_range value maximum allow_zero n : maximum < 2 ^ 64 -> ParseUnsigned value maximum allow_zero = Ok n -> 0 <= n <= maximum.
Proof. intros Hm (_ & Hd & <- & Hn & _)%ParseUnsigned_spec; [|done]. split; [by apply decimal_nonneg|done]. Qed.
Lemma ParseUnsigned_positive v maximum n : maximum < 2 ^ 64 -> ParseUnsigned v maximum false = Ok n -> 0 < n <= maximum.
Proof. intros Hm (_ & Hd & <- & Hn & H0)%ParseUnsigned_spec; [|done]. apply decimal_nonneg in Hd. specialize (H0 eq_refl). lia. Qed.

Lemma z2b_digit n : 0 <= n < 10 -> is_digit (z2b (48 + n)) = true /\ b2z (z2b (48 + n)) = 48 + n.
Proof. intros Hn. unfold is_digit. rewrite b2z_z2b_small by lia. split; [|done]. apply andb_true_iff. split; apply Z.leb_le; lia. Qed.

Lemma to_digits_app fuel n acc : to_digits fuel n acc = to_digits fuel n [] ++ acc.
Proof.
  revert n acc. induction fuel as [|fuel IH]; intros n acc; [done|]. cbn [to_digits]. destruct (n / 10 =? 0); [done|].
  rewrite IH. symmetry. rewrite IH. by rewrite <- app_assoc.
Qed.

Lemma to_digits_decimal fuel n : 0 <= n < 10 ^ Z.of_nat fuel -> digits (to_digits fuel n []) /\ decimal (to_digits fuel n []) = n.
Proof.
  revert n. induction fuel as [|fuel IH]; intros n Hn; [split; [constructor|cbn in *; lia]|].
  cbn [to_digits]. pose proof (Z.mod_pos_bound n 10 eq_refl) as Hm. destruct (z2b_digit (n mod 10)) as [Hd Hz]; [done|].
  pose proof (Z.div_mod n 10 ltac:(lia)) as Hdm. destruct (Z.eqb_spec (n / 10) 0) as [H0|H0].
  - split; [by constructor|]. unfold decimal. cbn [fold_left]. rewrite Hz. lia.
  - destruct (IH (n / 10)) as [Hi Ei].
    { rewrite Nat2Z.inj_succ, Z.pow_succ_r in Hn by lia. split; [apply Z.div_pos; lia|apply Z.div_lt_upper_bound; lia]. }
    rewrite to_digits_app. split; [apply Forall_app; split; [done|by constructor]|]. rewrite decimal_snoc, Ei, Hz. lia.
Qed.

Lemma to_string_nonempty n : to_string n <> [].
Proof.
  unfold to_string. generalize 19%nat as fuel. intros fuel. cbn [to_digits]. case_match; [done|]. rewrite to_digits_app.
  by destruct (to_digits _ _ []).
Qed.

(** Round trip: what [std::to_string] writes is read back. *)
Lemma ParseUnsigned_to_string n maximum allow_zero : 0 <= n <= maximum -> maximum < 2 ^ 64 -> (allow_zero = false -> n <> 0) ->
  ParseUnsigned (to_string n) maximum allow_zero = Ok n.
Proof.
  intros Hn Hm H0. apply ParseUnsigned_spec; [done|]. destruct (to_digits_decimal 20 n) as [Hd E].
  { split; [lia|]. assert (2 ^ 64 < 10 ^ Z.of_nat 20) by done. lia. }
  repeat split; [apply to_string_nonempty|done..|lia|done].
Qed.

(** A number with a sign is no numeral. *)
Lemma ParseUnsigned_negative n maximum allow_zero : n < 0 -> ParseUnsigned (to_string_signed n) maximum allow_zero = Throw invalid_argument.
Proof. intros Hn. unfold to_string_signed. by destruct (Z.ltb_spec n 0); [|lia]. Qed.

(** ** The arguments of a command line *)

Inductive Token :=
  | Help
  | Config (path : str)
  | Plain (argument : str)
  | Named (name value : str).

#[export] Instance Token_eq_dec : EqDecision Token.
Proof. solve_decision. Defined.

(** The reading that all command lines share; [None] if the value of the last option is missing. *)
Fixpoint tokens (arguments : list str) : option (list Token) :=
  match arguments with
  | [] => Some []
  | arg :: rest =>
      if is_help arg then cons Help <$> tokens rest
      else if decide (arg = $"--config") then
        match rest with [] => None | path :: rest => cons (Config path) <$> tokens rest end
      else if starts_with $"--config=" arg then cons (Config (drop 9 arg)) <$> tokens rest
      else if negb (starts_with $"--" arg) then cons (Plain arg) <$> tokens rest
      else match split_option (drop 2 arg) with
           | Some (name, value) => cons (Named name value) <$> tokens rest
           | None => match rest with [] => None | value :: rest => cons (Named (drop 2 arg) value) <$> tokens rest end
           end
  end.

Definition cli_step (c : CliParser) (t : Token) : CliParser :=
  match t with
  | Help => mkCliParser true (cli_config_file c) (options_ c) (positional_ c)
  | Config path => mkCliParser (cli_show_help c) (Some path) (options_ c) (positional_ c)
  | Plain a => mkCliParser (cli_show_help c) (cli_config_file c) (options_ c) (positional_ c ++ [a])
  | Named n v => mkCliParser (cli_show_help c) (cli_config_file c) (emplace n v (options_ c)) (positional_ c)
  end.

(** Induction on a list from which a step takes one element or two *)
Lemma list_ind2 {A} (P : list A -> Prop) : P [] -> (forall a l, P l -> (forall b k, l = b :: k -> P k) -> P (a :: l)) -> forall l, P l.
Proof.
  intros H0 H1 l. induction l as [l IH] using (induction_ltof1 _ (@length A)). unfold ltof in IH. destruct l as [|a l]; [done|].
  apply H1; [apply IH; cbn; lia|]. intros b k ->. apply IH. cbn. lia.
Qed.

Lemma CliParser_tokens arguments c :
  CliParser_loop c arguments = match tokens arguments with Some l => Ok (fold_left cli_step l c) | None => Throw invalid_argument end.
Proof.
  revert c. induction arguments as [|arg rest IH1 IH2] using list_ind2; intros c; [done|]. cbn [CliParser_loop tokens].
  destruct (is_help arg); [rewrite IH1; by destruct (tokens rest)|].
  destruct (decide (arg = _)).
  { destruct rest as [|path rest]; [done|]. rewrite (IH2 _ _ eq_refl). by destruct (tokens rest). }
  destruct (starts_with _ arg); [rewrite IH1; by destruct (tokens rest)|].
  destruct (negb _); [rewrite IH1; by destruct (tokens rest)|].
  destruct (split_option _) as [[name value]|]; [rewrite IH1; by destruct (tokens rest)|].
  destruct rest as [|value rest]; [done|]. rewrite (IH2 _ _ eq_refl). by destruct (tokens rest).
Qed.

(** What is found is the first value of the option, the last configuration file, all positional arguments. *)
Fixpoint first_named (n : str) (l : list Token) : option str :=
  match l with
  | [] => None
  | Named m v :: l => if decide (m = n) then Some v else first_named n l
  | _ :: l => first_named n l
  end.

Definition last_config (l : list Token) : option str :=
  fold_left (fun o t => match t with Config p => Some p | _ => o end) l None.

Definition plains (l : list Token) : list str := omap (fun t => match t with Plain a => Some a | _ => None end) l.

Lemma cli_fold l c : let c' := fold_left cli_step l c in
  cli_show_help c' = cli_show_help c || bool_decide (Help ∈ l) /\
  positional_ c' = positional_ c ++ plains l /\
  cli_config_file c' = fold_left (fun o t => match t with Config p => Some p | _ => o end) l (cli_config_file c) /\
  forall n, lookup n (options_ c') = match lookup n (options_ c) with Some v => Some v | None => first_named n l end.
Proof.
  revert c. induction l as [|t l IH]; intros c; cbn zeta.
  - cbn. rewrite bool_decide_eq_false_2, orb_false_r, app_nil_r by set_solver. repeat split; try done. intros n. by destruct (lookup n _).
  - cbn [fold_left]. destruct (IH (cli_step c t)) as (E1 & E2 & E3 & E4). rewrite E1, E2, E3. split; [|split; [|split; [by destruct t|]]].
    + destruct t; cbn [cli_step cli_show_help]; [rewrite orb_true_l, bool_decide_eq_true_2 by set_solver; by rewrite orb_true_r|..];
        f_equal; apply bool_decide_ext; rewrite elem_of_cons; naive_solver.
    + destruct t; cbn; by rewrite <- ?app_assoc.
    + intros n. rewrite E4. destruct t; cbn [cli_step options_ first_named]; try done. rewrite lookup_emplace. by destruct (lookup n _), (decide (name = n)).
Qed.

(** ** Sets of options *)

(** [apply_option] stores a text under a name, [field] reads what is stored under a name and
    [parse_option] is the value a text denotes: a text is stored exactly if it denotes a value,
    nothing else changes, and what is refused is refused with [invalid_argument]. *)
Class OptionSet (O V : Type) := {
  apply_option : O -> str -> str -> result O;
  field : str -> O -> option V;
  parse_option : str -> str -> result V;
  apply_option_set : forall o n v o', apply_option o n v = Ok o' -> exists x, parse_option n v = Ok x /\ field n o' = Some x;
  apply_option_frame : forall o n v o' m, apply_option o n v = Ok o' -> m <> n -> field m o' = field m o;
  apply_option_error : forall o n v e, apply_option o n v = Throw e -> e = invalid_argument /\ parse_option n v = Throw invalid_argument;
}.

Section OptionSet.
Context {Opts V : Type} `{OptionSet Opts V}.

Definition apply_all (o : Opts) (l : list (str * str)) : result Opts := foldl (fun r p => o ← r; apply_option o p.1 p.2) (Ok o) l.

(** The last text given for a name *)
Definition last_value (n : str) (l : list (str * str)) : option str :=
  foldl (fun r p => if decide (p.1 = n) then Some p.2 else r) None l.

Lemma apply_all_throw (l : list (str * str)) e : foldl (fun r p => o ← r; apply_option o p.1 p.2) (Throw e : result Opts) l = Throw e.
Proof. by induction l. Qed.

Lemma apply_all_app o l k : apply_all o (l ++ k) = o' ← apply_all o l; apply_all o' k.
Proof.
  unfold apply_all. rewrite foldl_app. destruct (foldl _ (Ok o) l); [done|]. apply apply_all_throw.
Qed.

Lemma apply_all_cons o n v l : apply_all o ((n, v) :: l) = o' ← apply_option o n v; apply_all o' l.
Proof. change ((n, v) :: l) with ([(n, v)] ++ l). rewrite apply_all_app. done. Qed.

Lemma last_value_snoc n l m v : last_value n (l ++ [(m, v)]) = if decide (m = n) then Some v else last_value n l.
Proof. unfold last_value. by rewrite foldl_app. Qed.

Lemma last_value_app n l k : last_value n (l ++ k) = match last_value n k with Some v => Some v | None => last_value n l end.
Proof.
  induction k as [|[m v] k IH] using rev_ind; [by rewrite app_nil_r|]. rewrite app_assoc, !last_value_snoc, IH. by case_decide.
Qed.

(** The last override of an option decides its value; an option without an override keeps its own. *)
Lemma apply_all_last l o o' n : apply_all o l = Ok o' ->
  match last_value n l with
  | Some v => exists x, parse_option n v = Ok x /\ field n o' = Some x
  | None => field n o' = field n o
  end.
Proof.
  revert o'. induction l as [|[m v] l IH] using rev_ind; intros o' E; [by injection E as <-|].
  rewrite apply_all_app in E. apply result_bind_Ok in E as (o1 & E1 & E2). rewrite last_value_snoc.
  change (apply_option o1 m v = Ok o') in E2. destruct (decide (m = n)) as [->|Hm]; [by apply (apply_option_set o1)|].
  specialize (IH _ E1). rewrite <- (apply_option_frame _ _ _ _ n E2) in IH by done. done.
Qed.

(** The overrides are accepted exactly if each of them denotes a value. *)
Lemma apply_all_accepts l o : (exists o', apply_all o l = Ok o') <-> Forall (fun p => exists x, parse_option p.1 p.2 = Ok x) l.
Proof.
  revert o. induction l as [|[n v] l IH]; intros o; [split; [constructor|by exists o]|]. rewrite apply_all_cons, Forall_cons.
  destruct (apply_option o n v) as [o1|e] eqn:E; cbn.
  - rewrite IH. apply apply_option_set in E as (x & E & _). naive_solver.
  - apply apply_option_error in E as [_ E]. split; [by intros []|]. intros [[x Ex] _]. congruence.
Qed.

Lemma apply_all_error l o e : apply_all o l = Throw e -> e = invalid_argument.
Proof.
  revert o. induction l as [|[n v] l IH]; intros o; [done|]. rewrite apply_all_cons. destruct (apply_option o n v) eqn:E; cbn; [apply IH|].
  intros [= <-]. by apply apply_option_error in E as [-> _].
Qed.
End OptionSet.

(** ** The overrides in a file and in a command line *)

(** What the value of a key is *)
Inductive RowKind := Integer | String_ | Boolean_.

(** A key, the name of its option, and what its value is *)
Definition row : Type := str * str * RowKind.

Section Overrides.
Context {T : Toml}.

Definition row_text (k : RowKind) (n : node) : option str :=
  match k with
  | Integer => to_string_signed <$> value_int64 n
  | String_ => value_string n
  | Boolean_ => (fun b : bool => if b then $"true" else $"false") <$> value_bool n
  end.

Definition override (t : table) (r : row) : list (str * str) :=
  match get t r.1.1 ≫= row_text r.2 with Some v => [(r.1.2, v)] | None => [] end.

Definition overrides (t : table) (rows : list row) : list (str * str) := concat (map (override t) rows).

Definition subtable (t : table) (key : str) : option table := get t key ≫= as_table.

Definition section_overrides (o : option table) (rows : list row) : list (str * str) := from_option (fun t => overrides t rows) [] o.

Lemma OptionalTable_Ok t key r : OptionalTable t key = Ok r -> subtable t key = r.
Proof. unfold OptionalTable, subtable. destruct (get t key) as [n|]; cbn; [|by intros [= <-]]. destruct (as_table n); congruence. Qed.

Context {Opts V : Type} `{OptionSet Opts V}.

Lemma overrides_cons t r rows (o o1 o' : Opts) : apply_all o (override t r) = Ok o1 -> apply_all o1 (overrides t rows) = Ok o' ->
  apply_all o (overrides t (r :: rows)) = Ok o'.
Proof. intros E1 E2. unfold overrides. cbn [map concat]. rewrite apply_all_app, E1. exact E2. Qed.

Lemma overrides_nil t (o : Opts) : apply_all o (overrides t []) = Ok o.
Proof. done. Qed.
End Overrides.

Definition cli_overrides (l : list Token) : list (str * str) :=
  omap (fun t => match t with Named n v => Some (n, v) | Plain a => Some ($"port", a) | _ => None end) l.

(** Options with a flag for [--help], which is no option *)
Class HelpFlag (Opts V : Type) `{OptionSet Opts V} := {
  help : Opts -> bool;
  set_help : bool -> Opts -> Opts;
  help_set : forall b o, help (set_help b o) = b;
  set_help_set : forall b c o, set_help b (set_help c o) = set_help b o;
  set_help_self : forall o, set_help (help o) o = o;
  apply_set_help : forall o n v b, apply_option (set_help b o) n v = set_help b <$> apply_option o n v;
}.

Section Tokens.
Context {Opts V : Type} `{HelpFlag Opts V}.
Implicit Types (o : Opts) (l : list Token).

Lemma apply_all_set_help o b (k : list (str * str)) : apply_all (set_help b o) k = set_help b <$> apply_all o k.
Proof.
  revert o. induction k as [|[n v] k IH]; intros o; [done|]. rewrite !apply_all_cons, apply_set_help.
  destruct (apply_option o n v) as [o1|]; [|done]. cbn. apply IH.
Qed.

(** What is done to the options once the arguments are read *)
Definition apply_tokens o l : result Opts :=
  (fun o' => set_help (help o' || bool_decide (Help ∈ l)) o') <$> apply_all o (cli_overrides l).

Lemma apply_tokens_nil o : apply_tokens o [] = Ok o.
Proof. unfold apply_tokens. cbn. f_equal. by rewrite orb_false_r, set_help_self. Qed.

Lemma apply_tokens_help o l : apply_tokens o (Help :: l) = apply_tokens (set_help true o) l.
Proof.
  unfold apply_tokens. rewrite apply_all_set_help. change (cli_overrides (Help :: l)) with (cli_overrides l).
  destruct (apply_all o (cli_overrides l)) as [o'|]; [|done]. cbn. f_equal.
  by rewrite set_help_set, help_set, bool_decide_eq_true_2, orb_true_r by set_solver.
Qed.

Lemma apply_tokens_skip o t l : t <> Help -> cli_overrides [t] = [] -> apply_tokens o (t :: l) = apply_tokens o l.
Proof.
  intros Ht Hl. unfold apply_tokens. change (t :: l) with ([t] ++ l). unfold cli_overrides in *. rewrite omap_app, Hl. cbn [app].
  rewrite (bool_decide_ext (Help ∈ t :: l) (Help ∈ l)); [done|]. rewrite elem_of_cons. naive_solver.
Qed.

Lemma apply_tokens_apply o t n v l : t <> Help -> cli_overrides [t] = [(n, v)] ->
  apply_tokens o (t :: l) = o' ← apply_option o n v; apply_tokens o' l.
Proof.
  intros Ht Hl. unfold apply_tokens. change (t :: l) with ([t] ++ l). unfold cli_overrides in *. rewrite omap_app, Hl. cbn [app].
  rewrite apply_all_cons.
  rewrite (bool_decide_ext (Help ∈ t :: l) (Help ∈ l)); [by destruct (apply_option o n v)|]. rewrite elem_of_cons. naive_solver.
Qed.
End Tokens.

(** ** Tables of options

    An [OptionSet] is proved against a table: the names of the options, what their texts are, and
    the members they stand for. *)

Section OptionTable.
Context {Opts K V : Type} (parse_kind : K -> str -> result V) (options : list (str * K * (Opts -> V))).

Definition find_option (name : str) : option (str * K * (Opts -> V)) := snd <$> list_find (fun p => p.1.1 = name) options.

Definition table_parse (name value : str) : result V :=
  match find_option name with Some p => parse_kind p.1.2 value | None => Throw invalid_argument end.

(** The member that belongs to a name *)
Definition table_field (name : str) (o : Opts) : option V := (fun p => p.2 o) <$> find_option name.

Lemma find_option_In n p : find_option n = Some p -> p ∈ options /\ p.1.1 = n.
Proof.
  unfold find_option. destruct (list_find _ _) as [[i q]|] eqn:E; [|done]. intros [= ->]. apply list_find_Some in E as (E & Hp & _).
  split; [by apply list_elem_of_lookup_2 in E|done].
Qed.

Lemma find_option_None n : Forall (fun p => p.1.1 <> n) options -> find_option n = None.
Proof. intros H. unfold find_option. assert (list_find (fun p => p.1.1 = n) options = None) as ->; [|done]. by apply list_find_None. Qed.

(** If only the member of [n] changed, the others are what they were. *)
Lemma table_frame o o' n : Forall (fun p => p.1.1 <> n -> p.2 o' = p.2 o) options ->
  forall m, m <> n -> table_field m o' = table_field m o.
Proof.
  intros H m Hm. unfold table_field. destruct (find_option m) as [p|] eqn:E; [|done]. apply find_option_In in E as [Hp <-].
  cbn. f_equal. exact (proj1 (Forall_forall _ _) H p Hp Hm).
Qed.

Lemma table_ignores o o' n : Forall (fun p => p.2 o' = p.2 o) options -> table_field n o' = table_field n o.
Proof.
  intros H. unfold table_field. destruct (find_option n) as [p|] eqn:E; [|done]. apply find_option_In in E as [Hp _].
  cbn. f_equal. exact (proj1 (Forall_forall _ _) H p Hp).
Qed.

(** If every text of an option denotes a value of its kind, overrides keep all members in their kinds. *)
Lemma table_in_kind `{S : !OptionSet Opts V} (in_kind : K -> V -> Prop) l o o' :
  @field _ _ S = table_field -> @parse_option _ _ S = table_parse -> Forall (fun p => find_option p.1.1 = Some p) options ->
  Forall (fun p => forall v x, parse_kind p.1.2 v = Ok x -> in_kind p.1.2 x) options ->
  apply_all o l = Ok o' -> Forall (fun p => in_kind p.1.2 (p.2 o)) options -> Forall (fun p => in_kind p.1.2 (p.2 o')) options.
Proof.
  rewrite !Forall_forall. intros Hf Hp Hself Hkind Hl Ho p Hin. pose proof (apply_all_last _ _ _ p.1.1 Hl) as Hlast. rewrite Hf, Hp in Hlast.
  assert (forall o, table_field p.1.1 o = Some (p.2 o)) as Hfield by (intros q; unfold table_field; by rewrite (Hself p Hin)).
  rewrite !Hfield in Hlast. destruct (last_value p.1.1 l) as [v|]; [|injection Hlast as ->; by apply Ho].
  destruct Hlast as (x & Hx & [= ->]). unfold table_parse in Hx. rewrite (Hself p Hin) in Hx. by apply (Hkind p Hin v).
Qed.
End OptionTable.

(** One goal for each name in a chain of comparisons, and one for the other names *)
Ltac by_name H :=
  lazymatch type of H with
  | (if decide (?n = ?s) then _ else _) = _ => destruct (decide (n = s)) as [->|?]; [|by_name H]
  | _ => idtac
  end.

(** The name is not the one of a row. *)
Ltac other_name :=
  let E := fresh in intros E; cbn [fst snd] in E; symmetry in E;
  match type of E with ?n = ?s => match goal with H : n <> s |- _ => exact (H E) end end.

(** For each row of a table: another member, or the name that is excluded *)
Ltac each_row tac := repeat (apply Forall_cons_2; [cbn [fst snd]; tac|]); by apply Forall_nil.
Ltac same_member := let E := fresh in intros E; first [reflexivity|by destruct (E eq_refl)].

(** The two forms of a branch: a value is parsed, a text must not be empty *)
Lemma parse_branch {Opts A} (p : result A) (k : A -> Opts) r : (forall e, p = Throw e -> e = invalid_argument) -> (z ← p; Ok (k z)) = r ->
  match r with
  | Ok o => exists z, p = Ok z /\ o = k z
  | Throw e => e = invalid_argument /\ p = Throw invalid_argument
  end.
Proof. intros Hp. destruct p as [z|e]; cbn; intros <-; [by exists z|]. by rewrite (Hp e). Qed.

Lemma text_branch {Opts} (value : str) (x : Opts) r : (if decide (value = []) then Throw invalid_argument else Ok x) = r ->
  match r with Ok o => value <> [] /\ o = x | Throw e => e = invalid_argument /\ value = [] end.
Proof. case_decide; by intros <-. Qed.

Definition nonempty (value : str) : result str := if decide (value = []) then Throw invalid_argument else Ok value.

(** ** An instance of the interfaces, for examples *)

Inductive TomlValue :=
  | TInteger (z : Z)
  | TString (s : str)
  | TBoolean (b : bool)
  | TTable (t : list (str * TomlValue)).

#[local] Instance example_toml : Toml := {|
  table := list (str * TomlValue);
  node := TomlValue;
  entries t := t;
  get t k := (fun p => p.2.2) <$> list_find (fun p => p.1 = k) t;
  as_table n := match n with TTable t => Some t | _ => None end;
  value_int64 n := match n with TInteger z => Some z | _ => None end;
  value_string n := match n with TString s => Some s | _ => None end;
  value_bool n := match n with TBoolean b => Some b | _ => None end;
|}.

(** One file with the given contents, and an environment *)
Definition example_platform (path : str) (root : list (str * TomlValue)) (environment : list (str * str)) : Platform example_toml := {|
  module_directory := Some [Byte.x43; Byte.x3a; Byte.x5c; Byte.x61; Byte.x5c; Byte.x62];
  exists_ p := Ok (bool_decide (p = path));
  canonical p := Ok p;
  is_regular_file p := Some (bool_decide (p = path));
  parse_file p := if decide (p = path) then Some root else None;
  ReadProcessEnvironment n := Ok (lookup n environment);
|}.
