(* ===== verification/HttpConfiguration.v ===== *)
(** * Options of the HTTP server

    [configuration.h] and [configuration.cpp] of the HTTP server, with [HttpServerOptions] of
    [http_server.h].  The theorems say which value an option gets from the file and from the
    command line, and that the options the program starts with are accepted by every
    constructor they are handed to. *)

From coqutil Require Import Datatypes.RecordSetters.
From S2P Require Import Prelude HttpMessage RingReceiveBuffer HttpRequestParser HttpResponseEncoder HttpSession SendQueue TcpConnection TcpListener StringMap ConfigUtils.

Import OCamlLikeNotations.

(** The limits of the types *)
Definition INT_MAX : Z := 2 ^ 31 - 1.
Definition ULONG_MAX : Z := 2 ^ 32 - 1.
Definition DWORD_MAX : Z := 2 ^ 32 - 1.
Definition MILLISECONDS_MAX : Z := 2 ^ 63 - 1.

Record HttpServerOptions := mkHttpServerOptions {
  io_worker_count : Z;
  application_worker_count : Z;
  maximum_application_tasks : Z;
  maximum_connection_tasks : Z;
  enable_http2 : bool;
  listener : ListenerOptions;
  connection : ConnectionOptions;
  session : HttpSessionOptions;
  encoder : HttpResponseEncoderOptions;
  shutdown_timeout : Z;
}.

Definition HttpServerOptions_default : HttpServerOptions :=
  let o := mkHttpServerOptions 2 2 1024 128 true ListenerOptions_default ConnectionOptions_default HttpSessionOptions_default
             HttpResponseEncoderOptions_default (10 * 1000) in
  { o with connection -> maximum_send_queue_bytes := 2 * 1024 * 1024 }.

Record HttpApplicationOptions := mkHttpApplicationOptions {
  server : HttpServerOptions;
  config_file : option str;
  show_help : bool;
}.

Definition HttpApplicationOptions_default : HttpApplicationOptions :=
  let o := mkHttpApplicationOptions HttpServerOptions_default None false in
  { o with server -> listener -> port := 8080 }.

Definition set_show_help (b : bool) (o : HttpApplicationOptions) : HttpApplicationOptions := { o with show_help := b }.
Definition set_config_file (f : option str) (o : HttpApplicationOptions) : HttpApplicationOptions := { o with config_file := f }.

Definition ApplyOption (o : HttpApplicationOptions) (name value : str) : result HttpApplicationOptions :=
  let ToSize allow_zero := ParseUnsigned value size_max allow_zero in
  if decide (name = $"address") then
    if decide (value = []) then Throw invalid_argument else Ok { o with server -> listener -> address := value }
  else if decide (name = $"port") then
    z ← ParseUnsigned value 65535 true; Ok { o with server -> listener -> port := z }
  else if decide (name = $"backlog") then
    z ← ParseUnsigned value INT_MAX false; Ok { o with server -> listener -> backlog := z }
  else if decide (name = $"io-workers") then
    z ← ToSize false; Ok { o with server -> io_worker_count := z }
  else if decide (name = $"application-workers") then
    z ← ToSize false; Ok { o with server -> application_worker_count := z }
  else if decide (name = $"application-queue") then
    z ← ToSize false; Ok { o with server -> maximum_application_tasks := z }
  else if decide (name = $"connection-queue") then
    z ← ToSize false; Ok { o with server -> maximum_connection_tasks := z }
  else if decide (name = $"receive-chunk-bytes") then
    z ← ParseUnsigned value ULONG_MAX false; Ok { o with server -> connection -> receive_chunk_bytes := z }
  else if decide (name = $"send-queue-items") then
    z ← ToSize false; Ok { o with server -> connection -> maximum_send_queue_items := z }
  else if decide (name = $"send-queue-bytes") then
    z ← ToSize false; Ok { o with server -> connection -> maximum_send_queue_bytes := z }
  else if decide (name = $"send-gather-segments") then
    z ← ParseUnsigned value DWORD_MAX false; Ok { o with server -> connection -> maximum_gather_segments_per_operation := z }
  else if decide (name = $"send-gather-bytes") then
    z ← ParseUnsigned value ULONG_MAX false; Ok { o with server -> connection -> maximum_gather_bytes_per_operation := z }
  else if decide (name = $"outbound-batch-segments") then
    z ← ToSize false; Ok { o with server -> connection -> maximum_outbound_batch_segments := z }
  else if decide (name = $"http-initial-buffer-bytes") then
    z ← ToSize false; Ok { o with server -> session -> initial_buffer_bytes := z }
  else if decide (name = $"http-maximum-buffer-bytes") then
    z ← ToSize false; Ok { o with server -> session -> maximum_buffer_bytes := z }
  else if decide (name = $"http-request-line-bytes") then
    z ← ToSize false; Ok { o with server -> session -> parser -> maximum_request_line_bytes := z }
  else if decide (name = $"http-header-bytes") then
    z ← ToSize false; Ok { o with server -> session -> parser -> maximum_header_bytes := z }
  else if decide (name = $"http-header-count") then
    z ← ToSize false; Ok { o with server -> session -> parser -> maximum_header_count := z }
  else if decide (name = $"http-body-bytes") then
    z ← ToSize true; Ok { o with server -> session -> parser -> maximum_body_bytes := z }
  else if decide (name = $"http-max-requests") then
    z ← ToSize false; Ok { o with server -> session -> maximum_requests_per_connection := z }
  else if decide (name = $"http-server-name") then
    if decide (value = []) then Throw invalid_argument else Ok { o with server -> encoder -> server_name := value }
  else if decide (name = $"http-response-header-bytes") then
    z ← ToSize false; Ok { o with server -> encoder -> encoder_maximum_header_bytes := z }
  else if decide (name = $"shutdown-timeout-ms") then
    z ← ParseUnsigned value MILLISECONDS_MAX false; Ok { o with server -> shutdown_timeout := z }
  else Throw invalid_argument.

(** ** The file *)

Section Toml.
Context {T : Toml} {P : Platform T}.

(** [ApplyInteger], without the name for the message *)
Definition ApplyInteger (t : table) (key option_name : str) (o : HttpApplicationOptions) : result HttpApplicationOptions :=
  value ← ReadTomlInt t key;
  match value with
  | None => Ok o
  | Some z => if z <? 0 then Throw invalid_argument else ApplyOption o option_name (to_string z)
  end.

Definition ApplyString (t : table) (key option_name : str) (o : HttpApplicationOptions) : result HttpApplicationOptions :=
  value ← ReadTomlStr t key;
  match value with None => Ok o | Some s => ApplyOption o option_name s end.

Definition ApplyConnectionTable (o : HttpApplicationOptions) (server : table) : result HttpApplicationOptions :=
  connection ← OptionalTable server $"connection";
  match connection with
  | None => Ok o
  | Some connection =>
      _ ← RejectUnknownKeys connection [$"receive_chunk_bytes"; $"send_queue_items"; $"send_queue_bytes";
            $"send_gather_segments"; $"send_gather_bytes"; $"outbound_batch_segments"];
      o ← ApplyInteger connection $"receive_chunk_bytes" $"receive-chunk-bytes" o;
      o ← ApplyInteger connection $"send_queue_items" $"send-queue-items" o;
      o ← ApplyInteger connection $"send_queue_bytes" $"send-queue-bytes" o;
      o ← ApplyInteger connection $"send_gather_segments" $"send-gather-segments" o;
      o ← ApplyInteger connection $"send_gather_bytes" $"send-gather-bytes" o;
      ApplyInteger connection $"outbound_batch_segments" $"outbound-batch-segments" o
  end.

Definition ApplyServerTable (o : HttpApplicationOptions) (root : table) : result HttpApplicationOptions :=
  server ← OptionalTable root $"server";
  match server with
  | None => Ok o
  | Some server =>
      _ ← RejectUnknownKeys server [$"address"; $"port"; $"backlog"; $"io_workers"; $"application_workers";
            $"application_queue"; $"connection_queue"; $"shutdown_timeout_ms"; $"connection"];
      o ← ApplyString server $"address" $"address" o;
      o ← ApplyInteger server $"port" $"port" o;
      o ← ApplyInteger server $"backlog" $"backlog" o;
      o ← ApplyInteger server $"io_workers" $"io-workers" o;
      o ← ApplyInteger server $"application_workers" $"application-workers" o;
      o ← ApplyInteger server $"application_queue" $"application-queue" o;
      o ← ApplyInteger server $"connection_queue" $"connection-queue" o;
      o ← ApplyInteger server $"shutdown_timeout_ms" $"shutdown-timeout-ms" o;
      ApplyConnectionTable o server
  end.

Definition ApplyHttpTable (o : HttpApplicationOptions) (root : table) : result HttpApplicationOptions :=
  http ← OptionalTable root $"http";
  match http with
  | None => Ok o
  | Some http =>
      _ ← RejectUnknownKeys http [$"initial_buffer_bytes"; $"maximum_buffer_bytes"; $"maximum_request_line_bytes";
            $"maximum_header_bytes"; $"maximum_header_count"; $"maximum_body_bytes"; $"maximum_requests_per_connection";
            $"server_name"; $"maximum_response_header_bytes"];
      o ← ApplyInteger http $"initial_buffer_bytes" $"http-initial-buffer-bytes" o;
      o ← ApplyInteger http $"maximum_buffer_bytes" $"http-maximum-buffer-bytes" o;
      o ← ApplyInteger http $"maximum_request_line_bytes" $"http-request-line-bytes" o;
      o ← ApplyInteger http $"maximum_header_bytes" $"http-header-bytes" o;
      o ← ApplyInteger http $"maximum_header_count" $"http-header-count" o;
      o ← ApplyInteger http $"maximum_body_bytes" $"http-body-bytes" o;
      o ← ApplyInteger http $"maximum_requests_per_connection" $"http-max-requests" o;
      o ← ApplyString http $"server_name" $"http-server-name" o;
      ApplyInteger http $"maximum_response_header_bytes" $"http-response-header-bytes" o
  end.

Definition kSchemaVersion : Z := 1.

Definition ApplyToml (o : HttpApplicationOptions) (path : str) : result HttpApplicationOptions :=
  match parse_file path with
  | None => Throw invalid_argument
  | Some root =>
      _ ← RejectUnknownKeys root [$"schema_version"; $"server"; $"http"];
      if match get root $"schema_version" with
         | None => false
         | Some n => negb (bool_decide (value_int64 n = Some kSchemaVersion))
         end
      then Throw invalid_argument
      else o ← ApplyServerTable o root; ApplyHttpTable o root
  end.
End Toml.

(** ** The command line *)

Fixpoint ApplyCommandLine_loop (o : HttpApplicationOptions) (positional_port_seen : bool) (arguments : list str)
    : result HttpApplicationOptions :=
  match arguments with
  | [] => Ok o
  | argument :: rest =>
      if is_help argument then ApplyCommandLine_loop (set_show_help true o) positional_port_seen rest
      else if decide (argument = $"--config") then
        match rest with [] => Ok o | _ :: rest => ApplyCommandLine_loop o positional_port_seen rest end
      else if starts_with $"--config=" argument then ApplyCommandLine_loop o positional_port_seen rest
      else if negb (starts_with $"--" argument) then
        if positional_port_seen then Throw invalid_argument
        else o ← ApplyOption o $"port" argument; ApplyCommandLine_loop o true rest
      else
        let body := drop 2 argument in
        match split_option body with
        | Some (name, value) => o ← ApplyOption o name value; ApplyCommandLine_loop o positional_port_seen rest
        | None =>
            match rest with
            | [] => Throw invalid_argument
            | value :: rest => o ← ApplyOption o body value; ApplyCommandLine_loop o positional_port_seen rest
            end
        end
  end.

Definition ApplyCommandLine (o : HttpApplicationOptions) (arguments : list str) : result HttpApplicationOptions :=
  ApplyCommandLine_loop o false arguments.

(** ** All together *)

Definition Validate (o : HttpApplicationOptions) : result unit :=
  let server := server o in
  let connection := connection server in
  let session := session server in
  let parser := parser session in
  let encoder := encoder server in
  throw_if (bool_decide (address (listener server) = []) || (backlog (listener server) <=? 0) || (io_worker_count server =? 0) ||
            (application_worker_count server =? 0) || (maximum_application_tasks server =? 0) ||
            (maximum_connection_tasks server =? 0)) invalid_argument (
  throw_if ((maximum_send_queue_items connection =? 0) || (maximum_send_queue_bytes connection =? 0) ||
            (receive_chunk_bytes connection =? 0) || (maximum_gather_segments_per_operation connection =? 0) ||
            (maximum_gather_bytes_per_operation connection =? 0) || (maximum_outbound_batch_segments connection =? 0) ||
            (maximum_send_queue_items connection <? maximum_gather_segments_per_operation connection) ||
            (maximum_send_queue_items connection <? maximum_outbound_batch_segments connection) ||
            (maximum_send_queue_bytes connection <? maximum_gather_bytes_per_operation connection)) invalid_argument (
  throw_if ((initial_buffer_bytes session =? 0) || (maximum_buffer_bytes session <? initial_buffer_bytes session) ||
            (maximum_requests_per_connection session =? 0) || (maximum_request_line_bytes parser =? 0) ||
            (maximum_header_bytes parser <? 2) || (maximum_header_count parser =? 0)) invalid_argument (
  let fixed_request_bytes := u64 (maximum_request_line_bytes parser + maximum_header_bytes parser) in
  throw_if ((fixed_request_bytes <? maximum_request_line_bytes parser) ||
            (size_max - fixed_request_bytes <? maximum_body_bytes parser) ||
            (maximum_buffer_bytes session <? u64 (fixed_request_bytes + maximum_body_bytes parser))) invalid_argument (
  throw_if (bool_decide (server_name encoder = []) || (encoder_maximum_header_bytes encoder =? 0) ||
            (maximum_send_queue_bytes connection <? encoder_maximum_header_bytes encoder) ||
            (u64 (maximum_send_queue_bytes connection - encoder_maximum_header_bytes encoder) <? maximum_body_bytes parser))
    invalid_argument (
  throw_if (shutdown_timeout server <=? 0) invalid_argument (Ok tt)))))).

Definition LoadHttpApplicationOptions {T : Toml} {P : Platform T} (arguments : list str) : result HttpApplicationOptions :=
  cli ← CliParser_make arguments;
  let o := set_show_help (cli_show_help cli) HttpApplicationOptions_default in
  file ← FindConfigFile cli $"http_server.toml";
  let o := set_config_file file o in
  o ← match file with None => Ok o | Some path => ApplyToml o path end;
  o ← ApplyCommandLine o arguments;
  _ ← Validate o;
  Ok o.

(** ** The options as a set *)

Inductive OptionValue := VNumber (z : Z) | VText (s : str).

(** What the texts of an option are: numbers up to a maximum, or texts that are not empty *)
Inductive OptionKind := Number (maximum : Z) (allow_zero : bool) | NonEmpty.

(** The names, what their texts are, and the members they stand for *)
Definition option_table : list (str * OptionKind * (HttpApplicationOptions -> OptionValue)) :=
  [($"address", NonEmpty, fun o => VText (address (listener (server o))));
   ($"port", Number 65535 true, fun o => VNumber (port (listener (server o))));
   ($"backlog", Number INT_MAX false, fun o => VNumber (backlog (listener (server o))));
   ($"io-workers", Number size_max false, fun o => VNumber (io_worker_count (server o)));
   ($"application-workers", Number size_max false, fun o => VNumber (application_worker_count (server o)));
   ($"application-queue", Number size_max false, fun o => VNumber (maximum_application_tasks (server o)));
   ($"connection-queue", Number size_max false, fun o => VNumber (maximum_connection_tasks (server o)));
   ($"receive-chunk-bytes", Number ULONG_MAX false, fun o => VNumber (receive_chunk_bytes (connection (server o))));
   ($"send-queue-items", Number size_max false, fun o => VNumber (maximum_send_queue_items (connection (server o))));
   ($"send-queue-bytes", Number size_max false, fun o => VNumber (maximum_send_queue_bytes (connection (server o))));
   ($"send-gather-segments", Number DWORD_MAX false, fun o => VNumber (maximum_gather_segments_per_operation (connection (server o))));
   ($"send-gather-bytes", Number ULONG_MAX false, fun o => VNumber (maximum_gather_bytes_per_operation (connection (server o))));
   ($"outbound-batch-segments", Number size_max false, fun o => VNumber (maximum_outbound_batch_segments (connection (server o))));
   ($"http-initial-buffer-bytes", Number size_max false, fun o => VNumber (initial_buffer_bytes (session (server o))));
   ($"http-maximum-buffer-bytes", Number size_max false, fun o => VNumber (maximum_buffer_bytes (session (server o))));
   ($"http-request-line-bytes", Number size_max false, fun o => VNumber (maximum_request_line_bytes (parser (session (server o)))));
   ($"http-header-bytes", Number size_max false, fun o => VNumber (maximum_header_bytes (parser (session (server o)))));
   ($"http-header-count", Number size_max false, fun o => VNumber (maximum_header_count (parser (session (server o)))));
   ($"http-body-bytes", Number size_max true, fun o => VNumber (maximum_body_bytes (parser (session (server o)))));
   ($"http-max-requests", Number size_max false, fun o => VNumber (maximum_requests_per_connection (session (server o))));
   ($"http-server-name", NonEmpty, fun o => VText (server_name (encoder (server o))));
   ($"http-response-header-bytes", Number size_max false, fun o => VNumber (encoder_maximum_header_bytes (encoder (server o))));
   ($"shutdown-timeout-ms", Number MILLISECONDS_MAX false, fun o => VNumber (shutdown_timeout (server o)))].

Definition parse_kind (k : OptionKind) (value : str) : result OptionValue :=
  match k with
  | Number maximum allow_zero => VNumber <$> ParseUnsigned value maximum allow_zero
  | NonEmpty => VText <$> nonempty value
  end.

Definition http_parse : str -> str -> result OptionValue := table_parse parse_kind option_table.
Definition http_field : str -> HttpApplicationOptions -> option OptionValue := table_field option_table.
