(* ===== verification/HttpConfigurationTheory.v ===== *)
(** * The options of the HTTP server as overrides

    [ApplyOption] is an [OptionSet]; the file and the command line are lists of overrides. *)

From S2P Require Import Prelude HttpMessage RingReceiveBuffer HttpRequestParser HttpResponseEncoder HttpSession SendQueue TcpConnection TcpListener StringMap ConfigUtils HttpConfiguration.

(** Cases on the name, and then on the value *)
Local Ltac branches H :=
  by_name H; [..|discriminate];
  first [apply (parse_branch (ParseUnsigned _ _ _)) in H as (z & E & ->); [|by apply ParseUnsigned_error]|apply text_branch in H as [E ->]].

Lemma http_apply_set o n v o' : ApplyOption o n v = Ok o' -> exists x, http_parse n v = Ok x /\ http_field n o' = Some x.
Proof.
  unfold ApplyOption. intros H. branches H.
  all: lazymatch type of E with
       | ?p = _ => exists (VNumber z); split; [transitivity (VNumber <$> p); [reflexivity|by rewrite E]|reflexivity]
       | _ => exists (VText v); split; [transitivity (VText <$> nonempty v); [reflexivity|]|reflexivity]; unfold nonempty; by rewrite decide_False
       end.
Qed.

Lemma http_apply_error o n v e : ApplyOption o n v = Throw e -> e = invalid_argument /\ http_parse n v = Throw invalid_argument.
Proof.
  unfold ApplyOption. intros H. by_name H.
  all: lazymatch type of H with
       | (?p ≫= _) = _ => apply (parse_branch p) in H as (-> & E); [|by apply ParseUnsigned_error]; split; [done|];
           transitivity (VNumber <$> p); [reflexivity|by rewrite E]
       | (if _ then _ else _) = _ => apply text_branch in H as [-> ->]; split; [done|reflexivity]
       | _ => split; [by injection H|]; unfold http_parse, table_parse; rewrite find_option_None; [done|]
       end.
  unfold option_table. each_row other_name.
Qed.

Lemma http_apply_frame o n v o' m : ApplyOption o n v = Ok o' -> m <> n -> http_field m o' = http_field m o.
Proof.
  unfold ApplyOption. intros H Hm. apply (table_frame _ o o' n); [|done]. clear Hm. branches H.
  all: unfold option_table; each_row same_member.
Qed.

#[export] Instance http_options : OptionSet HttpApplicationOptions OptionValue := {|
  apply_option := ApplyOption;
  field := http_field;
  parse_option := http_parse;
  apply_option_set := http_apply_set;
  apply_option_frame := http_apply_frame;
  apply_option_error := http_apply_error;
|}.

(** ** The overrides in a file *)

Section Overrides.
Context {T : Toml} {P : Platform T}.

Definition connection_rows : list row :=
  [($"receive_chunk_bytes", $"receive-chunk-bytes", Integer); ($"send_queue_items", $"send-queue-items", Integer);
   ($"send_queue_bytes", $"send-queue-bytes", Integer); ($"send_gather_segments", $"send-gather-segments", Integer);
   ($"send_gather_bytes", $"send-gather-bytes", Integer); ($"outbound_batch_segments", $"outbound-batch-segments", Integer)].

Definition server_rows : list row :=
  [($"address", $"address", String_); ($"port", $"port", Integer); ($"backlog", $"backlog", Integer); ($"io_workers", $"io-workers", Integer);
   ($"application_workers", $"application-workers", Integer); ($"application_queue", $"application-queue", Integer);
   ($"connection_queue", $"connection-queue", Integer); ($"shutdown_timeout_ms", $"shutdown-timeout-ms", Integer)].

Definition http_rows : list row :=
  [($"initial_buffer_bytes", $"http-initial-buffer-bytes", Integer); ($"maximum_buffer_bytes", $"http-maximum-buffer-bytes", Integer);
   ($"maximum_request_line_bytes", $"http-request-line-bytes", Integer); ($"maximum_header_bytes", $"http-header-bytes", Integer);
   ($"maximum_header_count", $"http-header-count", Integer); ($"maximum_body_bytes", $"http-body-bytes", Integer);
   ($"maximum_requests_per_connection", $"http-max-requests", Integer); ($"server_name", $"http-server-name", String_);
   ($"maximum_response_header_bytes", $"http-response-header-bytes", Integer)].

(** All overrides of a file, in the order in which they are applied *)
Definition toml_overrides (root : table) : list (str * str) :=
  let server := subtable root $"server" in
  section_overrides server server_rows ++ section_overrides (server ≫= fun t => subtable t $"connection") connection_rows ++
  section_overrides (subtable root $"http") http_rows.

Lemma ApplyInteger_override t key n o o' : ApplyInteger t key n o = Ok o' -> apply_all o (override t (key, n, Integer)) = Ok o'.
Proof.
  unfold ApplyInteger, ReadTomlInt, override, row_text. cbn [fst snd]. destruct (get t key) as [nd|]; [|done].
  cbn [mbind option_bind]. destruct (value_int64 nd) as [z|]; cbn [mbind result_bind option_fmap option_map fmap]; [|done].
  unfold to_string_signed. by destruct (z <? 0).
Qed.

Lemma ApplyString_override t key n o o' : ApplyString t key n o = Ok o' -> apply_all o (override t (key, n, String_)) = Ok o'.
Proof.
  unfold ApplyString, ReadTomlStr, override, row_text. cbn [fst snd]. destruct (get t key) as [nd|]; [|done].
  cbn [mbind option_bind]. by destruct (value_string nd).
Qed.

End Overrides.

(** Turns the calls of a section into the overrides of its rows. *)
Ltac binds H := repeat lazymatch type of H with (_ ≫= _) = Ok _ => apply result_bind_Ok in H as (? & ? & H) end.
Ltac rows :=
  repeat (eapply overrides_cons; [first [eapply ApplyInteger_override; eassumption|eapply ApplyString_override; eassumption]|]);
  try apply overrides_nil.

Section Overrides.
Context {T : Toml} {P : Platform T}.

Lemma ApplyConnectionTable_overrides o t o' : ApplyConnectionTable o t = Ok o' ->
  apply_all o (section_overrides (subtable t $"connection") connection_rows) = Ok o'.
Proof.
  unfold ApplyConnectionTable. intros H. apply result_bind_Ok in H as (c & ->%OptionalTable_Ok & H). destruct c as [c|]; [|exact H].
  apply result_bind_Ok in H as (? & _ & H). unfold section_overrides, connection_rows. cbn [from_option]. binds H; by rows.
Qed.

Lemma ApplyHttpTable_overrides o t o' : ApplyHttpTable o t = Ok o' ->
  apply_all o (section_overrides (subtable t $"http") http_rows) = Ok o'.
Proof.
  unfold ApplyHttpTable. intros H. apply result_bind_Ok in H as (c & ->%OptionalTable_Ok & H). destruct c as [c|]; [|exact H].
  apply result_bind_Ok in H as (? & _ & H). unfold section_overrides, http_rows. cbn [from_option]. binds H; by rows.
Qed.
Lemma ApplyServerTable_overrides o t o' : ApplyServerTable o t = Ok o' ->
  apply_all o (section_overrides (subtable t $"server") server_rows ++
               section_overrides (subtable t $"server" ≫= fun t => subtable t $"connection") connection_rows) = Ok o'.
Proof.
  unfold ApplyServerTable. intros H. apply result_bind_Ok in H as (c & ->%OptionalTable_Ok & H). destruct c as [c|]; [|exact H].
  apply result_bind_Ok in H as (? & _ & H). rewrite apply_all_app. apply result_bind_Ok. binds H. eexists.
  unfold section_overrides at 1, server_rows. cbn [from_option]. split; [by rows|]. by apply ApplyConnectionTable_overrides.
Qed.

Lemma ApplyToml_overrides o path o' : ApplyToml o path = Ok o' ->
  exists root, parse_file path = Some root /\ apply_all o (toml_overrides root) = Ok o'.
Proof.
  unfold ApplyToml. destruct (parse_file path) as [root|]; [|done]. intros H. exists root. split; [done|].
  apply result_bind_Ok in H as (? & _ & H). destruct (match get root _ with Some _ => _ | None => _ end); [done|].
  apply result_bind_Ok in H as (o1 & H1 & H2). unfold toml_overrides. rewrite app_assoc, apply_all_app.
  apply result_bind_Ok. exists o1. split; [by apply ApplyServerTable_overrides|by apply ApplyHttpTable_overrides].
Qed.
End Overrides.

(** ** The overrides in a command line *)

Lemma ApplyOption_show_help o n v b :
  ApplyOption (set_show_help b o) n v = set_show_help b <$> ApplyOption o n v.
Proof.
  unfold ApplyOption.
  repeat match goal with
    | |- (if decide ?p then _ else _) = _ => destruct (decide p); [first [by destruct (ParseUnsigned _ _ _)|by case_decide]|]
    end. done.
Qed.

#[export] Instance http_help : HelpFlag HttpApplicationOptions OptionValue := {|
  help := show_help;
  set_help := set_show_help;
  help_set _ _ := eq_refl;
  set_help_set _ _ _ := eq_refl;
  set_help_self o := ltac:(by destruct o);
  apply_set_help := ApplyOption_show_help;
|}.

(** The loop is the application of the overrides; there is at most one port without a name. *)
Lemma ApplyCommandLine_tokens arguments o seen l : tokens arguments = Some l ->
  ApplyCommandLine_loop o seen arguments =
  if (length (plains l) + Nat.b2n seen <=? 1)%nat then apply_tokens o l else Throw invalid_argument.
Proof.
  revert o seen l. induction arguments as [|arg rest IH1 IH2] using list_ind2; intros o seen l E; cbn [tokens] in E; cbn [ApplyCommandLine_loop].
  { injection E as <-. rewrite apply_tokens_nil. by destruct seen. }
  destruct (is_help arg).
  { apply fmap_Some in E as (k & E & ->). rewrite (IH1 _ _ _ E), apply_tokens_help. done. }
  destruct (decide (arg = _)).
  { destruct rest as [|path rest]; [done|]. apply fmap_Some in E as (k & E & ->). rewrite (IH2 _ _ eq_refl _ _ _ E).
    by rewrite (apply_tokens_skip o (Config path)). }
  destruct (starts_with _ arg).
  { apply fmap_Some in E as (k & E & ->). rewrite (IH1 _ _ _ E). by rewrite (apply_tokens_skip o (Config _)). }
  destruct (negb _).
  { apply fmap_Some in E as (k & E & ->). change (plains (Plain arg :: k)) with (arg :: plains k).
    rewrite (apply_tokens_apply o (Plain arg) $"port" arg) by done.
    change (@apply_option _ _ http_options) with ApplyOption. destruct seen; cbn [Nat.b2n].
    - by destruct (Nat.leb_spec (length (arg :: plains k) + 1) 1); [cbn in *; lia|].
    - destruct (ApplyOption o _ arg) as [o1|e] eqn:Ea; cbn [mbind result_bind].
      + rewrite (IH1 _ _ _ E). cbn [Nat.b2n]. rewrite Nat.add_0_r, Nat.add_1_r. done.
      + apply http_apply_error in Ea as [-> _]. by destruct (_ <=? 1)%nat. }
  assert (Hnamed : forall name value rest' k, tokens rest' = Some k ->
    (forall o1 seen l, tokens rest' = Some l -> ApplyCommandLine_loop o1 seen rest' =
       if (length (plains l) + Nat.b2n seen <=? 1)%nat then apply_tokens o1 l else Throw invalid_argument) ->
    (o ← ApplyOption o name value; ApplyCommandLine_loop o seen rest') =
    if (length (plains (Named name value :: k)) + Nat.b2n seen <=? 1)%nat then apply_tokens o (Named name value :: k) else Throw invalid_argument).
  { intros name value rest' k Ek IH. rewrite (apply_tokens_apply o (Named name value) name value) by done.
    change (@apply_option _ _ http_options) with ApplyOption.
    destruct (ApplyOption o name value) as [o1|e] eqn:Ea; cbn [mbind result_bind]; [by rewrite (IH _ _ _ Ek)|].
    apply http_apply_error in Ea as [-> _]. by destruct (_ <=? 1)%nat. }
  destruct (split_option _) as [[name value]|].
  { apply fmap_Some in E as (k & E & ->). by apply Hnamed. }
  destruct rest as [|value rest]; [done|]. apply fmap_Some in E as (k & E & ->). apply Hnamed; [done|]. by apply (IH2 value).
Qed.

(** The other members are not options. *)
Lemma http_apply_other o n v o' : ApplyOption o n v = Ok o' -> config_file o' = config_file o /\ show_help o' = show_help o.
Proof.
  unfold ApplyOption. intros H. branches H; split; reflexivity.
Qed.

Lemma apply_all_other l o o' : apply_all o l = Ok o' -> config_file o' = config_file o /\ show_help o' = show_help o.
Proof.
  revert o. induction l as [|[n v] l IH]; intros o; [by intros [= <-]|]. rewrite apply_all_cons. intros (o1 & H1 & H)%result_bind_Ok.
  apply http_apply_other in H1 as [<- <-]. by apply IH.
Qed.

Lemma members_server o o' : server o' = server o -> Forall (fun p => p.2 o' = p.2 o) option_table.
Proof. intros Hs. unfold option_table. each_row ltac:(by rewrite Hs). Qed.

Lemma http_field_ignores o o' n : server o' = server o -> http_field n o' = http_field n o.
Proof. intros Hs. by apply table_ignores, members_server. Qed.
