(* ===== verification/HttpConfigurationLoad.v ===== *)
(** * The options the HTTP server starts with

    Which value every option has, and that every constructor the options are handed to accepts
    them. *)

From S2P Require Import Prelude HttpMessage RingReceiveBuffer HttpRequestParser HttpResponseEncoder HttpSession HttpParserSplit HttpParserLimits ProtocolSession SendQueue TcpConnection TcpListener StringMap ConfigUtils HttpConfiguration HttpConfigurationTheory.
From S2P Require HttpSessionTheory ThreadPoolExecutor SerialExecutor IoContext HttpRouter.

Lemma spawn_all n s : exists c, ThreadPoolExecutor.spawn_workers n (fun _ => true) s = Some c.
Proof. revert s. induction n as [|n IH]; intros s; [by eexists|]. apply IH. Qed.

Section Load.
Context {T : Toml} {P : Platform T}.

(** The overrides of the file that is found, if there is one, and then those of the command line *)
Definition all_overrides (file : option str) (l : list Token) : list (str * str) :=
  from_option toml_overrides [] (file ≫= parse_file) ++ cli_overrides l.

Lemma Load_inv arguments o : LoadHttpApplicationOptions arguments = Ok o ->
  exists cli file l o0 o1, CliParser_make arguments = Ok cli /\ FindConfigFile cli $"http_server.toml" = Ok file /\
    tokens arguments = Some l /\ (length (plains l) <= 1)%nat /\
    server o0 = server HttpApplicationOptions_default /\ config_file o0 = file /\ show_help o0 = cli_show_help cli /\
    apply_all o0 (all_overrides file l) = Ok o1 /\
    o = set_show_help (show_help o1 || bool_decide (Help ∈ l)) o1 /\ Validate o = Ok tt.
Proof.
  unfold LoadHttpApplicationOptions. intros H. apply result_bind_Ok in H as (cli & Hc & H). apply result_bind_Ok in H as (file & Hf & H).
  apply result_bind_Ok in H as (o1 & H1 & H). apply result_bind_Ok in H as (o2 & H2 & H). apply result_bind_Ok in H as ([] & Hv & H).
  injection H as ->. pose proof (CliParser_tokens arguments (mkCliParser false None [] [])) as Ht.
  unfold CliParser_make in Hc. rewrite Hc in Ht. destruct (tokens arguments) as [l|] eqn:El; [|done].
  unfold ApplyCommandLine in H2. rewrite (ApplyCommandLine_tokens _ _ _ _ El) in H2. cbn [Nat.b2n] in H2. rewrite Nat.add_0_r in H2.
  destruct (Nat.leb_spec (length (plains l)) 1) as [Hl|]; [|done]. unfold apply_tokens in H2.
  destruct (apply_all o1 (cli_overrides l)) as [o3|] eqn:E3; [|done]. injection H2 as <-.
  exists cli, file, l, (set_config_file file (set_show_help (cli_show_help cli) HttpApplicationOptions_default)), o3. do 4 (split; [done|]). split_and!; [..|done|done]; [reflexivity..|]. unfold all_overrides. rewrite apply_all_app. apply result_bind_Ok. exists o1. split; [|done].
  destruct file as [path|]; [|done]. apply ApplyToml_overrides in H1 as (root & Hr & H1). cbn. by rewrite Hr.
Qed.

(** C33. Where the options of the HTTP server come from: for every option the program starts with the last value
    the command line gives, if it gives none the last one of the configuration file, and else the default; the
    text is the numeral of a number in the range of the option, or not empty.  The file is the one [FindConfigFile]
    finds, and [--help] is noticed wherever it stands as an argument of its own. *)
Theorem http_option_precedence arguments o : LoadHttpApplicationOptions arguments = Ok o ->
  exists cli file l, CliParser_make arguments = Ok cli /\ FindConfigFile cli $"http_server.toml" = Ok file /\
    tokens arguments = Some l /\ config_file o = file /\ show_help o = bool_decide (Help ∈ l) /\
    forall n, match last_value n (cli_overrides l), last_value n (from_option toml_overrides [] (file ≫= parse_file)) with
              | Some v, _ | None, Some v => exists x, http_parse n v = Ok x /\ http_field n o = Some x
              | None, None => http_field n o = http_field n HttpApplicationOptions_default
              end.
Proof.
  intros (cli & file & l & o0 & o1 & Hc & Hf & Hl & _ & Hs & Hfile & Hh & H & -> & _)%Load_inv. exists cli, file, l. split_and!; [done..| | |].
  - apply apply_all_other in H as [H _]. by rewrite <- Hfile.
  - apply apply_all_other in H as [_ H]. cbn. rewrite H, Hh. unfold CliParser_make in Hc. rewrite CliParser_tokens, Hl in Hc. injection Hc as <-.
    destruct (cli_fold l (mkCliParser false None [] [])) as [-> _]. cbn. by destruct (bool_decide _).
  - intros n. pose proof (apply_all_last _ _ _ n H) as Hn. unfold all_overrides in Hn. rewrite last_value_app in Hn.
    change (@field _ _ http_options) with http_field in Hn. rewrite (http_field_ignores HttpApplicationOptions_default o0 n Hs) in Hn.
    rewrite <- (http_field_ignores o1 (set_show_help (show_help o1 || bool_decide (Help ∈ l)) o1) n eq_refl) in Hn.
    destruct (last_value n (cli_overrides l)), (last_value n (from_option toml_overrides [] (file ≫= parse_file))); exact Hn.
Qed.

(** ** What the options are *)

Definition in_kind (k : OptionKind) (v : OptionValue) : Prop :=
  match k, v with
  | Number maximum _, VNumber z => 0 <= z <= maximum
  | NonEmpty, VText _ => True
  | _, _ => False
  end.

Definition in_range (o : HttpApplicationOptions) : Prop := Forall (fun p => in_kind p.1.2 (p.2 o)) option_table.

Lemma in_range_server o o' : server o' = server o -> in_range o -> in_range o'.
Proof.
  intros Hs. pose proof (members_server _ _ Hs) as Hm. unfold in_range. rewrite !Forall_forall in *. intros H p Hp.
  rewrite (Hm p Hp). by apply H.
Qed.

Lemma find_option_self : Forall (fun p => find_option option_table p.1.1 = Some p) option_table.
Proof. unfold option_table. each_row ltac:(reflexivity). Qed.

Lemma default_in_range : in_range HttpApplicationOptions_default.
Proof. unfold in_range, option_table. each_row ltac:(vm_compute; (done || by split)). Qed.

Lemma parse_in_kind : Forall (fun p => forall v x, parse_kind p.1.2 v = Ok x -> in_kind p.1.2 x) option_table.
Proof.
  assert (forall maximum z v x, maximum < 2 ^ 64 -> parse_kind (Number maximum z) v = Ok x -> in_kind (Number maximum z) x) as Hn.
  { intros maximum z v x Hm. cbn. destruct (ParseUnsigned v maximum z) eqn:E; [|done]. intros [= <-]. by eapply ParseUnsigned_range. }
  assert (forall v x, parse_kind NonEmpty v = Ok x -> in_kind NonEmpty x) as Ht by (intros v x; cbn; destruct (nonempty v); [by intros [= <-]|done]).
  unfold option_table. each_row ltac:(first [intros v x; by apply Hn|exact Ht]).
Qed.

Lemma Load_in_range arguments o : LoadHttpApplicationOptions arguments = Ok o -> in_range o /\ Validate o = Ok tt.
Proof.
  intros (cli & file & l & o0 & o1 & _ & _ & _ & _ & Hs & _ & _ & H & E & Hv)%Load_inv. split; [|done].
  apply (in_range_server o1 o); [by rewrite E|].
  apply (table_in_kind (S := http_options) parse_kind option_table in_kind _ o0 o1 eq_refl eq_refl find_option_self parse_in_kind H).
  apply (in_range_server _ o0 Hs default_in_range).
Qed.

(** The test for overflow *)
Lemma add_no_wrap a b : 0 <= a < 2 ^ 64 -> 0 <= b < 2 ^ 64 -> a <= (a + b) mod 2 ^ 64 -> a + b < 2 ^ 64.
Proof.
  intros Ha Hb H. destruct (decide (a + b < 2 ^ 64)) as [|Hn]; [done|]. replace (a + b) with ((a + b - 2 ^ 64) + 1 * 2 ^ 64) in H by lia.
  rewrite Z_mod_plus_full, Z.mod_small in H by lia. lia.
Qed.

(** The conditions that hold for the options *)
Record consistent (s : HttpServerOptions) : Prop := {
  ok_listener : address (listener s) <> [] /\ 0 < backlog (listener s);
  ok_workers : 0 < io_worker_count s /\ 0 < application_worker_count s /\ 0 < maximum_application_tasks s /\ 0 < maximum_connection_tasks s;
  ok_receive : 0 < receive_chunk_bytes (connection s) <= ULONG_MAX;
  ok_queue : 0 < maximum_send_queue_items (connection s) /\ 0 < maximum_send_queue_bytes (connection s);
  ok_gather : 0 < maximum_gather_segments_per_operation (connection s) <= DWORD_MAX /\
    maximum_gather_segments_per_operation (connection s) <= maximum_send_queue_items (connection s) /\
    0 < maximum_gather_bytes_per_operation (connection s) <= ULONG_MAX /\
    maximum_gather_bytes_per_operation (connection s) <= maximum_send_queue_bytes (connection s);
  ok_batch : 0 < maximum_outbound_batch_segments (connection s) <= maximum_send_queue_items (connection s);
  ok_buffer : 0 < initial_buffer_bytes (session s) <= maximum_buffer_bytes (session s) /\ 0 < maximum_requests_per_connection (session s);
  ok_parser : 0 < maximum_request_line_bytes (parser (session s)) /\ 2 <= maximum_header_bytes (parser (session s)) /\
    0 < maximum_header_count (parser (session s)) /\ 0 <= maximum_body_bytes (parser (session s));
  ok_request_fits : maximum_request_line_bytes (parser (session s)) + maximum_header_bytes (parser (session s)) +
    maximum_body_bytes (parser (session s)) <= maximum_buffer_bytes (session s);
  ok_encoder : server_name (encoder s) <> [] /\ 0 < encoder_maximum_header_bytes (encoder s);
  ok_response_fits : encoder_maximum_header_bytes (encoder s) + maximum_body_bytes (parser (session s)) <=
    maximum_send_queue_bytes (connection s);
  ok_timeout : 0 < shutdown_timeout s;
}.

Lemma Load_consistent arguments o : LoadHttpApplicationOptions arguments = Ok o -> consistent (server o).
Proof.
  intros [Hr Hv]%Load_in_range. unfold in_range, option_table in Hr. rewrite !Forall_cons in Hr. cbn [fst snd in_kind] in Hr.
  unfold Validate in Hv. rewrite !throw_if_Ok, !orb_false_iff, !Z.eqb_neq, !Z.ltb_ge, !Z.leb_gt, !bool_decide_eq_false in Hv.
  unfold u64 in Hv. destruct_and!.
  rewrite (Z.mod_small (maximum_send_queue_bytes _ - _)) in * by lia.
  assert (maximum_request_line_bytes (parser (session (server o))) + maximum_header_bytes (parser (session (server o))) < 2 ^ 64) as Hs.
  { apply add_no_wrap; [unfold size_max in *; lia..|done]. }
  rewrite (Z.mod_small (maximum_request_line_bytes _ + _)) in * by lia. rewrite Z.mod_small in * by lia.
  constructor; split_and?; done || lia.
Qed.

(** Every test of a constructor is passed. *)
Local Ltac tests :=
  repeat first [rewrite (proj2 (Z.eqb_neq _ _)) by lia|rewrite (proj2 (Z.leb_gt _ _)) by lia|rewrite (proj2 (Z.ltb_ge _ _)) by lia
               |progress cbn [negb orb]].

(** A constructor that returns when the vectors it allocates can have their
    sizes, and else throws [length_error], whatever else there is. *)
Definition constructs {A} (fits : Prop) (r : result A) : Prop :=
  (fits -> exists a, r = Ok a) /\ (~ fits -> r = Throw length_error).

Lemma constructs_Ok {A} (a : A) : constructs True (Ok a).
Proof. split; [by eexists|done]. Qed.

Lemma constructs_guard {A} m n (a : A) :
  constructs (n <= m) (if m <? n then Throw length_error else Ok a).
Proof. destruct (Z.ltb_spec m n); (split; [intros; try lia; by eexists|intros; try done; lia]). Qed.

(** The bytes of a request in its shortest form: one space between the parts
    of the request line, no white space around header values, and the body
    without chunk framing. *)
Definition request_bytes (r : HttpRequest) : Z :=
  (zlen (method_text r) + 1 + zlen (target r) + 9 + 2) + (header_size (headers r) + 2) + zlen (body r).

(** C34. The options the HTTP server starts with are consistent with the
    components that use them: the constructors of the I/O context, the thread
    pool, the serial executor, the listener, a connection, a session and the
    encoder return for them, with two exceptions, the only ones: a number of
    workers that no vector of threads can hold, or an initial buffer that no
    vector of bytes can hold, is accepted and makes the constructor throw
    [length_error].  (That the system can create the port, the threads and the
    sockets is assumed, and memory is not limited.)  Moreover a request within
    the limits of the parser, without chunk framing and optional white space,
    exceeds the maximum receive buffer by at most 2 bytes, the end of its
    request line, which the limit on that line does not count
    ([request_limits_exceed_buffer]); and an encoded response whose body is
    within the limit on bodies fits into an empty send queue. *)
Theorem http_options_accepted arguments o : LoadHttpApplicationOptions arguments = Ok o ->
  let s := server o in
  constructs (io_worker_count s <= max_thread_vector) (IoContext.IoContext_make (io_worker_count s) true 0 true) /\
  constructs (application_worker_count s <= max_thread_vector)
    (ThreadPoolExecutor.ThreadPoolContext_make (application_worker_count s) (maximum_application_tasks s) false (fun _ => true)) /\
  constructs True (SerialExecutor.SerialExecutor_make true (maximum_connection_tasks s) false) /\
  (forall port, constructs True (TcpListener_make true true (listener s)
     (mkCreateAnswers true true true true true true (Some port) true (Ok tt)))) /\
  (forall id, id <> 0 -> constructs True (TcpConnection_make id true true true (connection s))) /\
  (forall router id, constructs (initial_buffer_bytes (session s) <= max_byte_vector)
     (HttpSession_make (Some router) true true id (session s))) /\
  HttpResponseEncoder_make (encoder s) = Ok (encoder s) /\
  (forall r, within_limits (parser (session s)) r -> request_bytes r <= maximum_buffer_bytes (session s) + 2) /\
  (forall r e, Encode (encoder s) r = Ok e -> zlen (resp_body r) <= maximum_body_bytes (parser (session s)) ->
     zlen (head e) + zlen (encoded_body e) <= maximum_send_queue_bytes (connection s)).
Proof.
  intros H%Load_consistent s. destruct H as [Hl Hw Hr Hq Hg Hb Hbuf Hp Hreq He Hresp Ht]. fold s in Hl, Hw, Hr, Hq, Hg, Hb, Hbuf, Hp, Hreq, He, Hresp, Ht.
  split_and!.
  - unfold IoContext.IoContext_make, IoContext.IoContextState_make, throw_if. tests. apply constructs_guard.
  - unfold ThreadPoolExecutor.ThreadPoolContext_make. tests. edestruct spawn_all as [c ->]. apply constructs_guard.
  - unfold SerialExecutor.SerialExecutor_make. tests. apply constructs_Ok.
  - intros port. unfold TcpListener_make, throw_if. tests. rewrite !andb_false_r. apply constructs_Ok.
  - intros id Hid. unfold TcpConnection_make, SendQueue_make, ULONG_MAX, DWORD_MAX in *. tests. cbn. tests. apply constructs_Ok.
  - intros router id. unfold HttpSession_make, make, HttpRequestParser_make.
    destruct (Z.ltb_spec max_byte_vector (initial_buffer_bytes (session s))).
    + split; [lia|done].
    + tests. cbn [mbind result_bind]. tests. cbn [mbind result_bind negb]. tests. split; [by eexists|lia].
  - unfold HttpResponseEncoder_make. assert (0 < zlen (server_name (encoder s))).
    { destruct He as [He _]. destruct (server_name (encoder s)); [done|]. zlia. }
    tests. done.
  - intros r ([H1 H2] & _ & H3). unfold request_bytes. lia.
  - intros r e [H1 ->]%Encode_sizes H2. lia.
Qed.
End Load.

(** ** An example *)

#[local] Existing Instance example_toml.

#[local] Instance example_http : Platform example_toml :=
  example_platform $"my.toml"
    [($"schema_version", TInteger 1);
     ($"server", TTable [($"port", TInteger 8081); ($"backlog", TInteger 64);
                         ($"connection", TTable [($"receive_chunk_bytes", TInteger 8192)])]);
     ($"http", TTable [($"server_name", TString $"example")])] [].

Definition example_arguments : list str := [$"--config"; $"my.toml"; $"--port=9090"; $"--io-workers"; $"4"].

(** The port of the command line wins, the backlog is from the file, the number of application workers the default. *)
Example example_load :
  (fun o => (http_field $"port" o, http_field $"backlog" o, http_field $"io-workers" o, http_field $"application-workers" o)) <$>
    LoadHttpApplicationOptions example_arguments =
  Ok (Some (VNumber 9090), Some (VNumber 64), Some (VNumber 4), Some (VNumber 2)).
Proof. vm_compute. reflexivity. Qed.

Lemma http_option_precedence_witness : exists o, LoadHttpApplicationOptions example_arguments = Ok o /\
  exists cli file l, CliParser_make example_arguments = Ok cli /\ FindConfigFile cli $"http_server.toml" = Ok file /\
    tokens example_arguments = Some l /\ config_file o = file /\ show_help o = bool_decide (Help ∈ l) /\
    forall n, match last_value n (cli_overrides l), last_value n (from_option toml_overrides [] (file ≫= parse_file)) with
              | Some v, _ | None, Some v => exists x, http_parse n v = Ok x /\ http_field n o = Some x
              | None, None => http_field n o = http_field n HttpApplicationOptions_default
              end.
Proof.
  destruct (LoadHttpApplicationOptions example_arguments) as [o|] eqn:E; [|exfalso; vm_compute in E; discriminate].
  exists o. split; [done|]. by apply (http_option_precedence example_arguments o).
Defined.

Lemma http_options_accepted_witness : exists o, LoadHttpApplicationOptions example_arguments = Ok o /\
  (exists c, IoContext.IoContext_make (io_worker_count (server o)) true 0 true = Ok c) /\
  (exists c, TcpConnection_make 1 true true true (connection (server o)) = Ok c).
Proof.
  destruct (LoadHttpApplicationOptions example_arguments) as [o|] eqn:E; [|exfalso; vm_compute in E; discriminate].
  exists o. destruct (http_options_accepted example_arguments o E) as ([H1 _] & _ & _ & _ & H2 & _).
  split; [done|]. split; [apply H1; vm_compute in E; injection E as <-; vm_compute; discriminate|].
  by apply (H2 1).
Defined.

(** ** Where the limits do not fit together *)

(** The limit on the request line does not count its CRLF, but the sum that is compared with the buffer takes
    the line without it: options that are accepted, and a request within their limits that the parser completes
    and the session refuses because its buffer is full. *)
Definition tight_options : HttpSessionOptions :=
  mkSessionOptions 8 25 10 30000 (mkParserOptions 14 11 4 0).

Definition tight_request : list byte := $"GET / HTTP/1.1" ++ CRLF ++ $"Host: x" ++ CRLF ++ CRLF.

(** The default options with other limits of the sessions *)
Definition set_session (v : HttpSessionOptions) (o : HttpApplicationOptions) : HttpApplicationOptions :=
  let s := server o in
  mkHttpApplicationOptions
    (mkHttpServerOptions (io_worker_count s) (application_worker_count s) (maximum_application_tasks s)
       (maximum_connection_tasks s) (enable_http2 s) (listener s) (connection s) v (encoder s) (shutdown_timeout s))
    (config_file o) (show_help o).

Theorem request_limits_exceed_buffer router :
  Validate (set_session tight_options HttpApplicationOptions_default) = Ok tt /\
  match HttpRequestParser_make (parser tight_options), HttpSession_make (Some router) true true 1 tight_options with
  | Ok p, Ok s =>
      match Parse (input_of tight_request) p, @Feed HttpSessionTheory.sample_world tight_request s [] with
      | Ok (answer, _), Ok (r, s', _) =>
          status answer = Complete_ /\ feed_status r = FeedBufferLimitExceeded /\ stopped_ s' = true
      | _, _ => False
      end
  | _, _ => False
  end.
Proof. split; vm_compute; done. Qed.
