(* ===== verification/EchoConfiguration.v ===== *)
(** * Options of the echo server and of its client

    [configuration.h], [configuration.cpp] and [toml_config_loader.cpp] of the echo server: the
    options are read from a file, the environment and the command line, and a logger is built from
    them. *)

From coqutil Require Import Datatypes.RecordSetters.
From S2P Require Import Prelude HttpMessage SendQueue TcpConnection TcpListener StringMap Logging ConfigUtils.

Import OCamlLikeNotations.

Definition INT_MAX : Z := 2 ^ 31 - 1.
Definition ULONG_MAX : Z := 2 ^ 32 - 1.
Definition DWORD_MAX : Z := 2 ^ 32 - 1.
Definition MILLISECONDS_MAX : Z := 2 ^ 63 - 1.

Record EchoServerOptions := mkEchoServerOptions {
  echo_io_worker_count : Z;
  echo_listener : ListenerOptions;
  echo_connection : ConnectionOptions;
  echo_shutdown_timeout : Z;
}.

Definition EchoServerOptions_default : EchoServerOptions :=
  mkEchoServerOptions 2 ListenerOptions_default ConnectionOptions_default (10 * 1000).

Record LoggingOptions := mkLoggingOptions {
  console_enabled : bool;
  file_enabled : bool;
  file_path : str;
  append : bool;
  console_minimum_level : LogLevel;
  file_minimum_level : LogLevel;
}.

Definition LoggingOptions_default : LoggingOptions :=
  mkLoggingOptions true true (path_append $"logs" $"echo_server.log") true Trace Trace.

Record EchoApplicationOptions := mkEchoApplicationOptions {
  echo_server : EchoServerOptions;
  logging : LoggingOptions;
  echo_config_file : option str;
  echo_show_help : bool;
}.

Definition kDefaultApplicationPort : Z := 9000.

Definition EchoApplicationOptions_default : EchoApplicationOptions :=
  let o := mkEchoApplicationOptions EchoServerOptions_default LoggingOptions_default None false in
  { o with echo_server -> echo_listener -> port := kDefaultApplicationPort }.

Record EchoClientOptions := mkEchoClientOptions {
  client_host : str;
  client_port : Z;
  send_timeout : Z;
  receive_timeout : Z;
  one_shot : bool;
  client_message : str;
  client_show_help : bool;
}.

Definition EchoClientOptions_default : EchoClientOptions := mkEchoClientOptions $"127.0.0.1" 9000 5000 5000 false [] false.

(** [lookup]: the process environment, or what a test gives *)
Definition EnvironmentLookup : Type := str -> result (option str).

(** ** Values *)

(** [Lowercase] is the function of the same name of the parser. *)
Definition ParseBoolean (value : str) : result bool :=
  let normalized := Lowercase value in
  if bool_decide (normalized = $"true") || bool_decide (normalized = $"1") || bool_decide (normalized = $"on") ||
     bool_decide (normalized = $"yes") then Ok true
  else if bool_decide (normalized = $"false") || bool_decide (normalized = $"0") || bool_decide (normalized = $"off") ||
     bool_decide (normalized = $"no") then Ok false
  else Throw invalid_argument.

Definition ParseLogLevel (value : str) : result LogLevel :=
  let normalized := Lowercase value in
  if decide (normalized = $"trace") then Ok Trace
  else if decide (normalized = $"debug") then Ok Debug
  else if decide (normalized = $"info") then Ok Info
  else if bool_decide (normalized = $"warning") || bool_decide (normalized = $"warn") then Ok Warning
  else if decide (normalized = $"error") then Ok Error
  else if decide (normalized = $"critical") then Ok Critical
  else Throw invalid_argument.

Definition LogLevelName (level : LogLevel) : str :=
  match level with
  | Trace => $"trace"
  | Debug => $"debug"
  | Info => $"info"
  | Warning => $"warning"
  | Error => $"error"
  | Critical => $"critical"
  end.

(** ** The server *)

Definition set_echo_show_help (b : bool) (o : EchoApplicationOptions) : EchoApplicationOptions := { o with echo_show_help := b }.
Definition set_echo_config_file (f : option str) (o : EchoApplicationOptions) : EchoApplicationOptions := { o with echo_config_file := f }.

Definition ApplyOption (o : EchoApplicationOptions) (name value : str) : result EchoApplicationOptions :=
  if decide (name = $"address") then
    if decide (value = []) then Throw invalid_argument else Ok { o with echo_server -> echo_listener -> address := value }
  else if decide (name = $"port") then
    z ← ParseUnsigned value 65535 true; Ok { o with echo_server -> echo_listener -> port := z }
  else if decide (name = $"backlog") then
    z ← ParseUnsigned value INT_MAX false; Ok { o with echo_server -> echo_listener -> backlog := z }
  else if decide (name = $"io-workers") then
    z ← ParseUnsigned value size_max false; Ok { o with echo_server -> echo_io_worker_count := z }
  else if decide (name = $"receive-chunk-bytes") then
    z ← ParseUnsigned value ULONG_MAX false; Ok { o with echo_server -> echo_connection -> receive_chunk_bytes := z }
  else if decide (name = $"send-queue-items") then
    z ← ParseUnsigned value size_max false; Ok { o with echo_server -> echo_connection -> maximum_send_queue_items := z }
  else if decide (name = $"send-queue-bytes") then
    z ← ParseUnsigned value size_max false; Ok { o with echo_server -> echo_connection -> maximum_send_queue_bytes := z }
  else if decide (name = $"send-gather-segments") then
    z ← ParseUnsigned value DWORD_MAX false; Ok { o with echo_server -> echo_connection -> maximum_gather_segments_per_operation := z }
  else if decide (name = $"send-gather-bytes") then
    z ← ParseUnsigned value ULONG_MAX false; Ok { o with echo_server -> echo_connection -> maximum_gather_bytes_per_operation := z }
  else if decide (name = $"outbound-batch-segments") then
    z ← ParseUnsigned value size_max false; Ok { o with echo_server -> echo_connection -> maximum_outbound_batch_segments := z }
  else if decide (name = $"shutdown-timeout-ms") then
    z ← ParseUnsigned value MILLISECONDS_MAX false; Ok { o with echo_server -> echo_shutdown_timeout := z }
  else if decide (name = $"console-log") then
    b ← ParseBoolean value; Ok { o with logging -> console_enabled := b }
  else if decide (name = $"file-log") then
    b ← ParseBoolean value; Ok { o with logging -> file_enabled := b }
  else if decide (name = $"log-file") then
    if decide (value = []) then Throw invalid_argument else Ok { o with logging -> file_path := value }
  else if decide (name = $"log-append") then
    b ← ParseBoolean value; Ok { o with logging -> append := b }
  else if decide (name = $"console-log-level") then
    l ← ParseLogLevel value; Ok { o with logging -> console_minimum_level := l }
  else if decide (name = $"file-log-level") then
    l ← ParseLogLevel value; Ok { o with logging -> file_minimum_level := l }
  else Throw invalid_argument.

Definition mappings : list (str * str) :=
  [($"IOCP_ECHO_ADDRESS", $"address");
   ($"IOCP_ECHO_PORT", $"port");
   ($"IOCP_ECHO_BACKLOG", $"backlog");
   ($"IOCP_ECHO_IO_WORKERS", $"io-workers");
   ($"IOCP_ECHO_RECEIVE_CHUNK_BYTES", $"receive-chunk-bytes");
   ($"IOCP_ECHO_SEND_QUEUE_ITEMS", $"send-queue-items");
   ($"IOCP_ECHO_SEND_QUEUE_BYTES", $"send-queue-bytes");
   ($"IOCP_ECHO_SEND_GATHER_SEGMENTS", $"send-gather-segments");
   ($"IOCP_ECHO_SEND_GATHER_BYTES", $"send-gather-bytes");
   ($"IOCP_ECHO_OUTBOUND_BATCH_SEGMENTS", $"outbound-batch-segments");
   ($"IOCP_ECHO_SHUTDOWN_TIMEOUT_MS", $"shutdown-timeout-ms");
   ($"IOCP_ECHO_CONSOLE_LOG", $"console-log");
   ($"IOCP_ECHO_FILE_LOG", $"file-log");
   ($"IOCP_ECHO_LOG_FILE", $"log-file");
   ($"IOCP_ECHO_LOG_APPEND", $"log-append");
   ($"IOCP_ECHO_CONSOLE_LOG_LEVEL", $"console-log-level");
   ($"IOCP_ECHO_FILE_LOG_LEVEL", $"file-log-level")].

(** The loop of [ApplyEnvironment] and of [ApplyClientEnvironment] *)
Fixpoint apply_environment {Opts} (apply : Opts -> str -> str -> result Opts) (lookup : EnvironmentLookup) (l : list (str * str)) (o : Opts)
    : result Opts :=
  match l with
  | [] => Ok o
  | (environment_name, option_name) :: l =>
      value ← lookup environment_name;
      o ← match value with Some v => apply o option_name v | None => Ok o end;
      apply_environment apply lookup l o
  end.

Definition ApplyEnvironment (o : EchoApplicationOptions) (lookup : EnvironmentLookup) : result EchoApplicationOptions :=
  apply_environment ApplyOption lookup mappings o.

Definition FindConfigurationFile (cli : CliParser) (environment : EnvironmentLookup) : result (option str) :=
  value ← environment $"IOCP_ECHO_CONFIG";
  selected ← match value with
             | None => Ok None
             | Some v => if decide (v = []) then Throw invalid_argument else Ok (Some v)
             end;
  Ok (match cli_config_file cli with Some path => Some path | None => selected end).

Fixpoint ApplyCommandLine_loop (o : EchoApplicationOptions) (port_was_set : bool) (arguments : list str) : result EchoApplicationOptions :=
  match arguments with
  | [] => Ok o
  | argument :: rest =>
      if is_help argument then ApplyCommandLine_loop (set_echo_show_help true o) port_was_set rest
      else if negb (starts_with $"--" argument) then
        if port_was_set then Throw invalid_argument
        else o ← ApplyOption o $"port" argument; ApplyCommandLine_loop o true rest
      else
        let body := drop 2 argument in
        match split_option body with
        | Some (name, value) =>
            if bool_decide (name = $"port") && port_was_set then Throw invalid_argument
            else
              let port_was_set := port_was_set || bool_decide (name = $"port") in
              if decide (name = $"config") then ApplyCommandLine_loop o port_was_set rest
              else o ← ApplyOption o name value; ApplyCommandLine_loop o port_was_set rest
        | None =>
            match rest with
            | [] => Throw invalid_argument
            | value :: rest =>
                if bool_decide (body = $"port") && port_was_set then Throw invalid_argument
                else
                  let port_was_set := port_was_set || bool_decide (body = $"port") in
                  if decide (body = $"config") then ApplyCommandLine_loop o port_was_set rest
                  else o ← ApplyOption o body value; ApplyCommandLine_loop o port_was_set rest
            end
        end
  end.

Definition ApplyCommandLine (o : EchoApplicationOptions) (arguments : list str) : result EchoApplicationOptions :=
  ApplyCommandLine_loop o false arguments.

Definition Validate (o : EchoApplicationOptions) : result unit :=
  let server := echo_server o in
  let connection := echo_connection server in
  throw_if (bool_decide (address (echo_listener server) = [])) invalid_argument (
  throw_if (echo_io_worker_count server =? 0) invalid_argument (
  throw_if ((receive_chunk_bytes connection =? 0) || (ULONG_MAX <? receive_chunk_bytes connection)) invalid_argument (
  throw_if ((maximum_send_queue_items connection =? 0) || (maximum_send_queue_bytes connection =? 0)) invalid_argument (
  throw_if ((maximum_gather_segments_per_operation connection =? 0) || (maximum_gather_bytes_per_operation connection =? 0) ||
            (maximum_outbound_batch_segments connection =? 0)) invalid_argument (
  throw_if ((maximum_send_queue_items connection <? maximum_gather_segments_per_operation connection) ||
            (maximum_send_queue_items connection <? maximum_outbound_batch_segments connection)) invalid_argument (
  throw_if (maximum_send_queue_bytes connection <? maximum_gather_bytes_per_operation connection) invalid_argument (
  throw_if (echo_shutdown_timeout server <=? 0) invalid_argument (
  throw_if (file_enabled (logging o) && bool_decide (file_path (logging o) = [])) invalid_argument (Ok tt))))))))).

(** ** The file of the server *)

Section Toml.
Context {T : Toml} {P : Platform T}.

Definition AddInteger (t : table) (key option_name : str) (output : list (str * str)) : result (list (str * str)) :=
  value ← ReadTomlInt t key;
  match value with None => Ok output | Some z => Ok (output ++ [(option_name, to_string_signed z)]) end.

Definition AddBoolean (t : table) (key option_name : str) (output : list (str * str)) : result (list (str * str)) :=
  match get t key with
  | None => Ok output
  | Some n =>
      match value_bool n with
      | None => Throw invalid_argument
      | Some b => Ok (output ++ [(option_name, if (b : bool) then $"true" else $"false")])
      end
  end.

Definition AddString (t : table) (key option_name : str) (output : list (str * str)) : result (list (str * str)) :=
  value ← ReadTomlStr t key;
  match value with None => Ok output | Some s => Ok (output ++ [(option_name, s)]) end.

Definition kSupportedSchemaVersion : Z := 1.

Definition ReadSchemaVersion (root : table) : result unit :=
  version ← ReadTomlInt root $"schema_version";
  match version with
  | None => Ok tt
  | Some v => if negb (v =? kSupportedSchemaVersion) then Throw invalid_argument else Ok tt
  end.

Definition ReadConnection (server : table) (output : list (str * str)) : result (list (str * str)) :=
  connection ← OptionalTable server $"connection";
  match connection with
  | None => Ok output
  | Some connection =>
      _ ← RejectUnknownKeys connection [$"receive_chunk_bytes"; $"send_queue_items"; $"send_queue_bytes";
            $"send_gather_segments"; $"send_gather_bytes"; $"outbound_batch_segments"];
      output ← AddInteger connection $"receive_chunk_bytes" $"receive-chunk-bytes" output;
      output ← AddInteger connection $"send_queue_items" $"send-queue-items" output;
      output ← AddInteger connection $"send_queue_bytes" $"send-queue-bytes" output;
      output ← AddInteger connection $"send_gather_segments" $"send-gather-segments" output;
      output ← AddInteger connection $"send_gather_bytes" $"send-gather-bytes" output;
      AddInteger connection $"outbound_batch_segments" $"outbound-batch-segments" output
  end.

Definition ReadServer (root : table) (output : list (str * str)) : result (list (str * str)) :=
  server ← OptionalTable root $"server";
  match server with
  | None => Ok output
  | Some server =>
      _ ← RejectUnknownKeys server [$"address"; $"port"; $"backlog"; $"io_workers"; $"shutdown_timeout_ms"; $"connection"];
      output ← AddString server $"address" $"address" output;
      output ← AddInteger server $"port" $"port" output;
      output ← AddInteger server $"backlog" $"backlog" output;
      output ← AddInteger server $"io_workers" $"io-workers" output;
      output ← AddInteger server $"shutdown_timeout_ms" $"shutdown-timeout-ms" output;
      ReadConnection server output
  end.

Definition ReadLogging (root : table) (output : list (str * str)) : result (list (str * str)) :=
  logging ← OptionalTable root $"logging";
  match logging with
  | None => Ok output
  | Some logging =>
      _ ← RejectUnknownKeys logging [$"console"; $"file"; $"path"; $"append"; $"console_level"; $"file_level"];
      output ← AddBoolean logging $"console" $"console-log" output;
      output ← AddBoolean logging $"file" $"file-log" output;
      output ← AddString logging $"path" $"log-file" output;
      output ← AddBoolean logging $"append" $"log-append" output;
      output ← AddString logging $"console_level" $"console-log-level" output;
      AddString logging $"file_level" $"file-log-level" output
  end.

(** [is_regular_file] is [None] if the system reports an error. *)
Definition LoadTomlConfiguration (path : str) : result (list (str * str)) :=
  match is_regular_file path with
  | None | Some false => Throw invalid_argument
  | Some true =>
      match parse_file path with
      | None => Throw invalid_argument
      | Some root =>
          _ ← RejectUnknownKeys root [$"schema_version"; $"server"; $"logging"];
          _ ← ReadSchemaVersion root;
          output ← ReadServer root [];
          ReadLogging root output
      end
  end.

(** The loop over the overrides of the file *)
Fixpoint apply_overrides (o : EchoApplicationOptions) (l : list (str * str)) : result EchoApplicationOptions :=
  match l with
  | [] => Ok o
  | (option_name, value) :: l => o ← ApplyOption o option_name value; apply_overrides o l
  end.

(** An empty function [environment] is [None]. *)
Definition LoadEchoApplicationOptions (arguments : list str) (environment : option EnvironmentLookup) : result EchoApplicationOptions :=
  let environment := default ReadProcessEnvironment environment in
  cli ← CliParser_make arguments;
  let o := set_echo_show_help (cli_show_help cli) EchoApplicationOptions_default in
  file ← FindConfigurationFile cli environment;
  o ← match file with
      | None => Ok o
      | Some path => l ← LoadTomlConfiguration path; apply_overrides (set_echo_config_file (Some path) o) l
      end;
  o ← ApplyEnvironment o environment;
  o ← ApplyCommandLine o arguments;
  _ ← Validate o;
  Ok o.
End Toml.

(** ** The client *)

Definition ApplyClientOption (o : EchoClientOptions) (name value : str) : result EchoClientOptions :=
  if decide (name = $"host") then
    if decide (value = []) then Throw invalid_argument else Ok { o with client_host := value }
  else if decide (name = $"port") then
    z ← ParseUnsigned value 65535 false; Ok { o with client_port := z }
  else if decide (name = $"send-timeout-ms") then
    z ← ParseUnsigned value (2 ^ 32 - 1) false; Ok { o with send_timeout := z }
  else if decide (name = $"receive-timeout-ms") then
    z ← ParseUnsigned value (2 ^ 32 - 1) false; Ok { o with receive_timeout := z }
  else if decide (name = $"message") then
    Ok { { o with one_shot := true } with client_message := value }
  else Throw invalid_argument.

Definition client_mappings : list (str * str) :=
  [($"IOCP_ECHO_CLIENT_HOST", $"host");
   ($"IOCP_ECHO_CLIENT_PORT", $"port");
   ($"IOCP_ECHO_CLIENT_SEND_TIMEOUT_MS", $"send-timeout-ms");
   ($"IOCP_ECHO_CLIENT_RECEIVE_TIMEOUT_MS", $"receive-timeout-ms")].

Definition ApplyClientEnvironment (o : EchoClientOptions) (lookup : EnvironmentLookup) : result EchoClientOptions :=
  apply_environment ApplyClientOption lookup client_mappings o.

Definition set_client_show_help (b : bool) (o : EchoClientOptions) : EchoClientOptions := { o with client_show_help := b }.

(** The local variables of [ApplyClientCommandLine] *)
Record ClientFlags := mkClientFlags {
  positional : list str;
  host_was_set : bool;
  port_was_set : bool;
  message_was_set : bool;
}.

(** [None] if the option was given before *)
Definition note_option (name : str) (f : ClientFlags) : option ClientFlags :=
  if decide (name = $"host") then if host_was_set f then None else Some { f with host_was_set := true }
  else if decide (name = $"port") then if port_was_set f then None else Some { f with port_was_set := true }
  else if decide (name = $"message") then if message_was_set f then None else Some { f with message_was_set := true }
  else Some f.

Definition client_option (o : EchoClientOptions) (f : ClientFlags) (name value : str) : result (EchoClientOptions * ClientFlags) :=
  match note_option name f with
  | None => Throw invalid_argument
  | Some f => o ← ApplyClientOption o name value; Ok (o, f)
  end.

Fixpoint ApplyClientCommandLine_loop (o : EchoClientOptions) (f : ClientFlags) (arguments : list str) : result (EchoClientOptions * ClientFlags) :=
  match arguments with
  | [] => Ok (o, f)
  | argument :: rest =>
      if is_help argument then ApplyClientCommandLine_loop (set_client_show_help true o) f rest
      else if negb (starts_with $"--" argument) then
        ApplyClientCommandLine_loop o { f with positional := positional f ++ [argument] } rest
      else
        let body := drop 2 argument in
        match split_option body with
        | Some (name, value) => p ← client_option o f name value; ApplyClientCommandLine_loop p.1 p.2 rest
        | None =>
            match rest with
            | [] => Throw invalid_argument
            | value :: rest => p ← client_option o f body value; ApplyClientCommandLine_loop p.1 p.2 rest
            end
        end
  end.

(** The positional argument with the number [i], which stands for an option *)
Definition client_positional (f : ClientFlags) (i : nat) (was_set : bool) (name : str) (o : EchoClientOptions) : result EchoClientOptions :=
  match positional f !! i with
  | None => Ok o
  | Some value => if was_set then Throw invalid_argument else ApplyClientOption o name value
  end.

Definition ApplyClientCommandLine (o : EchoClientOptions) (arguments : list str) : result EchoClientOptions :=
  p ← ApplyClientCommandLine_loop o (mkClientFlags [] false false false) arguments;
  let '(o, f) := p in
  if (3 <? length (positional f))%nat then Throw invalid_argument
  else
    o ← client_positional f 0 (host_was_set f) $"host" o;
    o ← client_positional f 1 (port_was_set f) $"port" o;
    client_positional f 2 (message_was_set f) $"message" o.

Definition LoadEchoClientOptions {T : Toml} {P : Platform T} (arguments : list str) (environment : option EnvironmentLookup)
    : result EchoClientOptions :=
  o ← ApplyClientEnvironment EchoClientOptions_default (default ReadProcessEnvironment environment);
  ApplyClientCommandLine o arguments.

(** ** The logger *)

(** [std::max] *)
Definition max_level (a b : LogLevel) : LogLevel := if rank a <? rank b then b else a.

(** The streams are empty before, except the file.  [created] is the answer of [create_directories] if it is called,
    [opened] and [contents] say whether the file can be opened and what is in it. *)
Definition BuildLogger (o : LoggingOptions) (created : result unit) (has_parent opened : bool) (contents : str) : result (Logger * option str) :=
  l ← (if console_enabled o then
         l ← (if rank (console_minimum_level o) <=? rank Info then AddSink (Some (StreamLogSink 1 Stdout (console_minimum_level o) Info)) []
              else Ok []);
         AddSink (Some (StreamLogSink 2 Stderr (max_level (console_minimum_level o) Warning) Critical)) l
       else Ok []);
  if file_enabled o then
    _ ← (if (has_parent : bool) then created else Ok tt);
    p ← FileLogSink 3 (file_path o) (append o) opened (file_minimum_level o) Critical contents;
    l ← AddSink (Some p.1) l;
    Ok (l, Some p.2)
  else Ok (l, None).

(** The event and the fields of [LogEffectiveConfiguration], if no allocation fails *)
Definition text_of_bool (b : bool) : str := if b then $"true" else $"false".

Definition LogEffectiveConfiguration (o : EchoApplicationOptions) : LogLevel * str * list LogField :=
  let server := echo_server o in
  let connection := echo_connection server in
  (Info, $"application.effective_configuration",
   [mkField $"address" (address (echo_listener server));
    mkField $"port" (to_string (port (echo_listener server)));
    mkField $"backlog" (to_string_signed (backlog (echo_listener server)));
    mkField $"io_workers" (to_string (echo_io_worker_count server));
    mkField $"receive_chunk_bytes" (to_string (receive_chunk_bytes connection));
    mkField $"send_queue_items" (to_string (maximum_send_queue_items connection));
    mkField $"send_queue_bytes" (to_string (maximum_send_queue_bytes connection));
    mkField $"send_gather_segments" (to_string (maximum_gather_segments_per_operation connection));
    mkField $"send_gather_bytes" (to_string (maximum_gather_bytes_per_operation connection));
    mkField $"outbound_batch_segments" (to_string (maximum_outbound_batch_segments connection));
    mkField $"shutdown_timeout_ms" (to_string_signed (echo_shutdown_timeout server));
    mkField $"config_file" (default $"<none>" (echo_config_file o));
    mkField $"console_log" (text_of_bool (console_enabled (logging o)));
    mkField $"console_log_level" (LogLevelName (console_minimum_level (logging o)));
    mkField $"file_log" (text_of_bool (file_enabled (logging o)));
    mkField $"file_path" (file_path (logging o));
    mkField $"file_log_level" (LogLevelName (file_minimum_level (logging o)))]).

(** ** The options as a set *)

Inductive OptionValue := VNumber (z : Z) | VText (s : str) | VFlag (b : bool) | VLevel (l : LogLevel).

Inductive OptionKind := Number (maximum : Z) (allow_zero : bool) | NonEmpty | Boolean | Level.

Definition parse_kind (k : OptionKind) (value : str) : result OptionValue :=
  match k with
  | Number maximum allow_zero => VNumber <$> ParseUnsigned value maximum allow_zero
  | NonEmpty => VText <$> nonempty value
  | Boolean => VFlag <$> ParseBoolean value
  | Level => VLevel <$> ParseLogLevel value
  end.

(** The names, what their texts are, and the members they stand for *)
Definition option_table : list (str * OptionKind * (EchoApplicationOptions -> OptionValue)) :=
  [($"address", NonEmpty, fun o => VText (address (echo_listener (echo_server o))));
   ($"port", Number 65535 true, fun o => VNumber (port (echo_listener (echo_server o))));
   ($"backlog", Number INT_MAX false, fun o => VNumber (backlog (echo_listener (echo_server o))));
   ($"io-workers", Number size_max false, fun o => VNumber (echo_io_worker_count (echo_server o)));
   ($"receive-chunk-bytes", Number ULONG_MAX false, fun o => VNumber (receive_chunk_bytes (echo_connection (echo_server o))));
   ($"send-queue-items", Number size_max false, fun o => VNumber (maximum_send_queue_items (echo_connection (echo_server o))));
   ($"send-queue-bytes", Number size_max false, fun o => VNumber (maximum_send_queue_bytes (echo_connection (echo_server o))));
   ($"send-gather-segments", Number DWORD_MAX false, fun o => VNumber (maximum_gather_segments_per_operation (echo_connection (echo_server o))));
   ($"send-gather-bytes", Number ULONG_MAX false, fun o => VNumber (maximum_gather_bytes_per_operation (echo_connection (echo_server o))));
   ($"outbound-batch-segments", Number size_max false, fun o => VNumber (maximum_outbound_batch_segments (echo_connection (echo_server o))));
   ($"shutdown-timeout-ms", Number MILLISECONDS_MAX false, fun o => VNumber (echo_shutdown_timeout (echo_server o)));
   ($"console-log", Boolean, fun o => VFlag (console_enabled (logging o)));
   ($"file-log", Boolean, fun o => VFlag (file_enabled (logging o)));
   ($"log-file", NonEmpty, fun o => VText (file_path (logging o)));
   ($"log-append", Boolean, fun o => VFlag (append (logging o)));
   ($"console-log-level", Level, fun o => VLevel (console_minimum_level (logging o)));
   ($"file-log-level", Level, fun o => VLevel (file_minimum_level (logging o)))].

Definition echo_parse : str -> str -> result OptionValue := table_parse parse_kind option_table.
Definition echo_field : str -> EchoApplicationOptions -> option OptionValue := table_field option_table.
