(* ===== verification/EchoConfigurationTheory.v ===== *)
(** * The options of the echo server

    [ApplyOption] is an [OptionSet], and the file, the environment and the command line are lists
    of overrides: the theorems say which value an option has, that every constructor accepts the
    options, and where the records of the logger go. *)

From S2P Require Import Prelude HttpMessage SendQueue TcpConnection TcpListener StringMap Logging ConfigUtils EchoConfiguration.
From S2P Require IoContext.

Lemma ParseBoolean_error v e : ParseBoolean v = Throw e -> e = invalid_argument.
Proof. unfold ParseBoolean. repeat case_match; congruence. Qed.

Lemma ParseLogLevel_error v e : ParseLogLevel v = Throw e -> e = invalid_argument.
Proof. unfold ParseLogLevel. repeat case_match; congruence. Qed.

(** The texts of the levels and of the truth values are read back. *)
Lemma ParseLogLevel_name l : ParseLogLevel (LogLevelName l) = Ok l.
Proof. by destruct l. Qed.

Lemma ParseBoolean_text b : ParseBoolean (text_of_bool b) = Ok b.
Proof. by destruct b. Qed.

(** Cases on the name, and then on the value *)
Local Ltac value_cases H :=
  lazymatch type of H with
  | (?p ≫= _) = _ => apply (parse_branch p) in H; [|by first [apply ParseUnsigned_error|apply ParseBoolean_error|apply ParseLogLevel_error]]
  | _ => apply text_branch in H
  end.

Lemma echo_apply_set o n v o' : ApplyOption o n v = Ok o' -> exists x, echo_parse n v = Ok x /\ echo_field n o' = Some x.
Proof.
  unfold ApplyOption. intros H. by_name H; [..|discriminate]; value_cases H.
  all: first [destruct H as (z & E & ->)|destruct H as [E ->]].
  all: lazymatch type of E with
       | ParseUnsigned ?a ?b ?c = _ =>
           exists (VNumber z); split; [transitivity (VNumber <$> ParseUnsigned a b c); [reflexivity|by rewrite E]|reflexivity]
       | ParseBoolean _ = _ => exists (VFlag z); split; [transitivity (VFlag <$> ParseBoolean v); [reflexivity|by rewrite E]|reflexivity]
       | ParseLogLevel _ = _ => exists (VLevel z); split; [transitivity (VLevel <$> ParseLogLevel v); [reflexivity|by rewrite E]|reflexivity]
       | _ => exists (VText v); split; [transitivity (VText <$> nonempty v); [reflexivity|]|reflexivity]; unfold nonempty; by rewrite decide_False
       end.
Qed.

Lemma echo_apply_error o n v e : ApplyOption o n v = Throw e -> e = invalid_argument /\ echo_parse n v = Throw invalid_argument.
Proof.
  unfold ApplyOption. intros H. by_name H.
  all: lazymatch type of H with
       | (ParseUnsigned ?a ?b ?c ≫= _) = _ => value_cases H; destruct H as [-> E]; split; [done|];
           transitivity (VNumber <$> ParseUnsigned a b c); [reflexivity|by rewrite E]
       | (ParseBoolean _ ≫= _) = _ => value_cases H; destruct H as [-> E]; split; [done|];
           transitivity (VFlag <$> ParseBoolean v); [reflexivity|by rewrite E]
       | (ParseLogLevel _ ≫= _) = _ => value_cases H; destruct H as [-> E]; split; [done|];
           transitivity (VLevel <$> ParseLogLevel v); [reflexivity|by rewrite E]
       | (if _ then _ else _) = _ => apply text_branch in H as [-> ->]; split; [done|reflexivity]
       | _ => split; [by injection H|]; unfold echo_parse, table_parse; rewrite find_option_None; [done|]
       end.
  unfold option_table. each_row other_name.
Qed.

Lemma echo_apply_frame o n v o' m : ApplyOption o n v = Ok o' -> m <> n -> echo_field m o' = echo_field m o.
Proof.
  unfold ApplyOption. intros H Hm. apply (table_frame _ o o' n); [|done]. clear Hm. by_name H; [..|discriminate]; value_cases H.
  all: first [destruct H as (z & _ & ->)|destruct H as [_ ->]].
  all: unfold option_table; each_row same_member.
Qed.

#[export] Instance echo_options : OptionSet EchoApplicationOptions OptionValue := {|
  apply_option := ApplyOption;
  field := echo_field;
  parse_option := echo_parse;
  apply_option_set := echo_apply_set;
  apply_option_frame := echo_apply_frame;
  apply_option_error := echo_apply_error;
|}.

(** ** The overrides *)

Lemma apply_overrides_all l o : apply_overrides o l = apply_all o l.
Proof.
  revert o. induction l as [|[n v] l IH]; intros o; [done|]. rewrite apply_all_cons. cbn [apply_overrides].
  change (@apply_option _ _ echo_options) with ApplyOption. destruct (ApplyOption o n v); [apply IH|done].
Qed.

(** The variables that are set, with the names of their options *)
Definition env_overrides (lookup : EnvironmentLookup) (l : list (str * str)) : list (str * str) :=
  omap (fun p => match lookup p.1 with Ok (Some v) => Some (p.2, v) | _ => None end) l.

Lemma apply_environment_all {Opts V} `{OptionSet Opts V} lookup l (o o' : Opts) :
  apply_environment apply_option lookup l o = Ok o' -> apply_all o (env_overrides lookup l) = Ok o'.
Proof.
  revert o. induction l as [|[e n] l IH]; intros o E; [done|]. cbn [apply_environment] in E. apply result_bind_Ok in E as (v & Ev & E).
  unfold env_overrides. cbn [omap list_omap fst snd]. rewrite Ev. destruct v as [v|]; [|by apply IH]. apply result_bind_Ok in E as (o1 & E1 & E).
  rewrite apply_all_cons, E1. by apply IH.
Qed.

Section File.
Context {T : Toml} {P : Platform T}.

Definition connection_rows : list row :=
  [($"receive_chunk_bytes", $"receive-chunk-bytes", Integer); ($"send_queue_items", $"send-queue-items", Integer);
   ($"send_queue_bytes", $"send-queue-bytes", Integer); ($"send_gather_segments", $"send-gather-segments", Integer);
   ($"send_gather_bytes", $"send-gather-bytes", Integer); ($"outbound_batch_segments", $"outbound-batch-segments", Integer)].

Definition server_rows : list row :=
  [($"address", $"address", String_); ($"port", $"port", Integer); ($"backlog", $"backlog", Integer); ($"io_workers", $"io-workers", Integer);
   ($"shutdown_timeout_ms", $"shutdown-timeout-ms", Integer)].

Definition logging_rows : list row :=
  [($"console", $"console-log", Boolean_); ($"file", $"file-log", Boolean_); ($"path", $"log-file", String_);
   ($"append", $"log-append", Boolean_); ($"console_level", $"console-log-level", String_); ($"file_level", $"file-log-level", String_)].

(** All overrides of a file, in the order in which they are applied *)
Definition toml_overrides (root : table) : list (str * str) :=
  let server := subtable root $"server" in
  section_overrides server server_rows ++ section_overrides (server ≫= fun t => subtable t $"connection") connection_rows ++
  section_overrides (subtable root $"logging") logging_rows.

Lemma AddInteger_override t key n l l' : AddInteger t key n l = Ok l' -> l' = l ++ override t (key, n, Integer).
Proof.
  unfold AddInteger, ReadTomlInt, override. cbn [fst snd]. destruct (get t key) as [nd|]; cbn; [|intros [= <-]; by rewrite app_nil_r].
  destruct (value_int64 nd); cbn; [by intros [= <-]|done].
Qed.

Lemma AddString_override t key n l l' : AddString t key n l = Ok l' -> l' = l ++ override t (key, n, String_).
Proof.
  unfold AddString, ReadTomlStr, override. cbn [fst snd]. destruct (get t key) as [nd|]; cbn; [|intros [= <-]; by rewrite app_nil_r].
  destruct (value_string nd); cbn; [by intros [= <-]|done].
Qed.

Lemma AddBoolean_override t key n l l' : AddBoolean t key n l = Ok l' -> l' = l ++ override t (key, n, Boolean_).
Proof.
  unfold AddBoolean, override. cbn [fst snd]. destruct (get t key) as [nd|]; cbn; [|intros [= <-]; by rewrite app_nil_r].
  destruct (value_bool nd); cbn; [by intros [= <-]|done].
Qed.
End File.

(** Turns the calls of a section into the overrides of its rows. *)
Ltac added H :=
  repeat match type of H with (_ ≫= _) = Ok _ => let E := fresh in apply result_bind_Ok in H as (? & E & H) end;
  repeat match goal with
    | E : AddInteger _ _ _ _ = Ok _ |- _ => apply AddInteger_override in E
    | E : AddString _ _ _ _ = Ok _ |- _ => apply AddString_override in E
    | E : AddBoolean _ _ _ _ = Ok _ |- _ => apply AddBoolean_override in E
    end; subst.

Section File.
Context {T : Toml} {P : Platform T}.

Lemma ReadConnection_overrides t l l' : ReadConnection t l = Ok l' ->
  l' = l ++ section_overrides (subtable t $"connection") connection_rows.
Proof.
  unfold ReadConnection. intros H. apply result_bind_Ok in H as (c & ->%OptionalTable_Ok & H).
  destruct c as [c|]; [|injection H as <-; by rewrite app_nil_r]. added H.
  unfold section_overrides, overrides, connection_rows. cbn [from_option map concat]. by rewrite app_nil_r, <- !app_assoc.
Qed.

Lemma ReadLogging_overrides t l l' : ReadLogging t l = Ok l' ->
  l' = l ++ section_overrides (subtable t $"logging") logging_rows.
Proof.
  unfold ReadLogging. intros H. apply result_bind_Ok in H as (c & ->%OptionalTable_Ok & H).
  destruct c as [c|]; [|injection H as <-; by rewrite app_nil_r]. added H.
  unfold section_overrides, overrides, logging_rows. cbn [from_option map concat]. by rewrite app_nil_r, <- !app_assoc.
Qed.

Lemma ReadServer_overrides t l l' : ReadServer t l = Ok l' ->
  l' = l ++ section_overrides (subtable t $"server") server_rows ++
       section_overrides (subtable t $"server" ≫= fun t => subtable t $"connection") connection_rows.
Proof.
  unfold ReadServer. intros H. apply result_bind_Ok in H as (c & ->%OptionalTable_Ok & H).
  destruct c as [c|]; [|injection H as <-; by rewrite !app_nil_r]. added H. apply ReadConnection_overrides in H. subst.
  unfold section_overrides at 2, overrides, server_rows. cbn [from_option map concat mbind option_bind]. by rewrite app_nil_r, <- !app_assoc.
Qed.

Lemma LoadTomlConfiguration_overrides path l : LoadTomlConfiguration path = Ok l ->
  exists root, parse_file path = Some root /\ l = toml_overrides root.
Proof.
  unfold LoadTomlConfiguration. destruct (is_regular_file path) as [[]|]; [|done..]. destruct (parse_file path) as [root|]; [|done].
  intros H. exists root. split; [done|]. apply result_bind_Ok in H as (? & _ & H). apply result_bind_Ok in H as (? & _ & H).
  apply result_bind_Ok in H as (l1 & ->%ReadServer_overrides & H). apply ReadLogging_overrides in H as ->.
  unfold toml_overrides. by rewrite app_nil_l, <- app_assoc.
Qed.
End File.
