(* ===== verification/EchoConfigurationLoad.v ===== *)
(** * The options the echo server starts with

    Which value every option has, that every constructor the options are handed to accepts them,
    and where the records of the logger go. *)

From S2P Require Import Prelude HttpMessage SendQueue TcpConnection TcpListener StringMap Logging ConfigUtils EchoConfiguration EchoConfigurationTheory.
From S2P Require IoContext.

(** ** The command line *)

Lemma echo_apply_show_help o n v b : ApplyOption (set_echo_show_help b o) n v = set_echo_show_help b <$> ApplyOption o n v.
Proof.
  unfold ApplyOption.
  repeat match goal with
    | |- (if decide ?p then _ else _) = _ =>
        destruct (decide p); [first [by destruct (ParseUnsigned _ _ _)|by destruct (ParseBoolean _)|by destruct (ParseLogLevel _)|by case_decide]|]
    end. done.
Qed.

#[export] Instance echo_help : HelpFlag EchoApplicationOptions OptionValue := {|
  help := echo_show_help;
  set_help := set_echo_show_help;
  help_set _ _ := eq_refl;
  set_help_set _ _ _ := eq_refl;
  set_help_self o := ltac:(by destruct o);
  apply_set_help := echo_apply_show_help;
|}.

(** How often the port is given *)
Definition ports (l : list Token) : nat :=
  weight (fun t => match t with Plain _ => 1%nat | Named n _ => Nat.b2n (bool_decide (n = $"port")) | _ => 0%nat end) l.

Lemma split_option_Some body n v : split_option body = Some (n, v) -> body = n ++ [Byte.x3d] ++ v.
Proof.
  unfold split_option, find. cbn [Nat.leb]. rewrite drop_0. destruct (find_first [Byte.x3d] body) as [i|] eqn:E; [|done]. cbn.
  intros [= <- <-]. apply find_first_Some in E as (r & E & Hl). rewrite E at 1. f_equal. cbn. f_equal.
  rewrite E, drop_app_ge; rewrite length_take_le by (cbn in Hl; lia); [|lia]. by replace (i + 1 - i)%nat with 1%nat by lia.
Qed.

(** An argument that is neither [--config] nor begins with [--config=] does not name the option [config]. *)
Lemma no_config arg : arg <> $"--config" -> starts_with $"--config=" arg = false -> starts_with $"--" arg = true ->
  match split_option (drop 2 arg) with Some (n, _) => n <> $"config" | None => drop 2 arg <> $"config" end.
Proof.
  intros Hc Hs Hd. apply starts_with_spec in Hd as [r ->]. change (drop 2 ($"--" ++ r)) with r.
  destruct (split_option r) as [[n v]|] eqn:E.
  - intros ->. apply split_option_Some in E as ->. apply not_true_iff_false in Hs. apply Hs, starts_with_spec. by exists v.
  - intros ->. by apply Hc.
Qed.

Lemma with_config arg : starts_with $"--config=" arg = true ->
  is_help arg = false /\ starts_with $"--" arg = true /\ split_option (drop 2 arg) = Some ($"config", drop 9 arg).
Proof.
  intros [r ->]%starts_with_spec. split_and!; [done..|]. change (drop 2 ($"--config=" ++ r)) with ($"config" ++ [Byte.x3d] ++ r).
  unfold split_option, find.
  rewrite drop_0. cbn [Nat.leb]. change ([Byte.x3d] ++ r) with (Byte.x3d :: r).
  rewrite find_first_byte by (apply (avoids_bool Byte.x3d); done). done.
Qed.

(** The loop is the application of the overrides; the port is given at most once. *)
Lemma echo_ApplyCommandLine_tokens arguments o seen l : tokens arguments = Some l ->
  ApplyCommandLine_loop o seen arguments = if (ports l + Nat.b2n seen <=? 1)%nat then apply_tokens o l else Throw invalid_argument.
Proof.
  revert o seen l. induction arguments as [|arg rest IH1 IH2] using list_ind2; intros o seen l E; cbn [tokens] in E; cbn [ApplyCommandLine_loop].
  { injection E as <-. rewrite apply_tokens_nil. by destruct seen. }
  destruct (is_help arg) eqn:Eh.
  { apply fmap_Some in E as (k & E & ->). rewrite (IH1 _ _ _ E), apply_tokens_help. done. }
  assert (Hnamed : forall name value rest' k, name <> $"config" -> tokens rest' = Some k ->
    (forall o1 seen l, tokens rest' = Some l -> ApplyCommandLine_loop o1 seen rest' =
       if (ports l + Nat.b2n seen <=? 1)%nat then apply_tokens o1 l else Throw invalid_argument) ->
    (if bool_decide (name = $"port") && seen then Throw invalid_argument
     else if decide (name = $"config") then ApplyCommandLine_loop o (seen || bool_decide (name = $"port")) rest'
     else o ← ApplyOption o name value; ApplyCommandLine_loop o (seen || bool_decide (name = $"port")) rest') =
    if (ports (Named name value :: k) + Nat.b2n seen <=? 1)%nat then apply_tokens o (Named name value :: k) else Throw invalid_argument).
  { intros name value rest' k Hn Ek IH. rewrite (decide_False (P := name = $"config")) by done.
    rewrite (apply_tokens_apply o (Named name value) name value) by done.
    change (@apply_option _ _ echo_options) with ApplyOption. unfold ports. rewrite weight_cons. fold (ports k).
    destruct (ApplyOption o name value) as [o1|e] eqn:Ea; cbn [mbind result_bind].
    - rewrite (IH _ _ _ Ek). destruct (bool_decide (name = $"port")), seen; cbn -[Nat.leb]; rewrite ?Nat.add_0_r, ?Nat.add_1_r; done.
    - apply echo_apply_error in Ea as [-> _]. destruct (_ && seen); by destruct (_ <=? 1)%nat. }
  destruct (decide (arg = _)) as [->|Hc].
  { destruct rest as [|path rest]; [done|]. apply fmap_Some in E as (k & E & ->). cbn [negb]. 
    change (starts_with $"--" $"--config") with true. change (split_option (drop 2 $"--config")) with (@None (str * str)).
    cbn [negb]. rewrite (bool_decide_eq_false_2 (drop 2 $"--config" = $"port")) by done. cbn [andb]. rewrite orb_false_r.
    rewrite decide_True by done. rewrite (IH2 _ _ eq_refl _ _ _ E). by rewrite (apply_tokens_skip o (Config path)). }
  destruct (starts_with $"--config=" arg) eqn:Es.
  { apply fmap_Some in E as (k & E & ->). destruct (with_config arg Es) as (_ & -> & ->). cbn [negb].
    rewrite (bool_decide_eq_false_2 ($"config" = $"port")) by done. cbn [andb]. rewrite orb_false_r, decide_True by done.
    rewrite (IH1 _ _ _ E). by rewrite (apply_tokens_skip o (Config _)). }
  destruct (starts_with $"--" arg) eqn:Ed; cbn [negb] in *.
  - pose proof (no_config arg Hc Es Ed) as Hno. destruct (split_option (drop 2 arg)) as [[name value]|].
    + apply fmap_Some in E as (k & E & ->). by apply Hnamed.
    + destruct rest as [|value rest]; [done|]. apply fmap_Some in E as (k & E & ->). apply Hnamed; [done..|]. by apply (IH2 value).
  - apply fmap_Some in E as (k & E & ->). rewrite (apply_tokens_apply o (Plain arg) $"port" arg) by done.
    change (@apply_option _ _ echo_options) with ApplyOption. unfold ports. rewrite weight_cons. fold (ports k). destruct seen.
    + cbn [Nat.b2n]. by destruct (Nat.leb_spec (1 + ports k + 1) 1); [lia|].
    + destruct (ApplyOption o _ arg) as [o1|e] eqn:Ea; cbn [mbind result_bind].
      * rewrite (IH1 _ _ _ E). cbn [Nat.b2n]. rewrite Nat.add_0_r, Nat.add_1_r. done.
      * apply echo_apply_error in Ea as [-> _]. by destruct (_ <=? 1)%nat.
Qed.

(** ** The result *)

Lemma echo_apply_other o n v o' : ApplyOption o n v = Ok o' -> echo_config_file o' = echo_config_file o /\ echo_show_help o' = echo_show_help o.
Proof.
  unfold ApplyOption. intros H. by_name H; [..|discriminate].
  all: lazymatch type of H with (_ ≫= _) = _ => apply result_bind_Ok in H as (z & _ & [= <-]) | _ => apply text_branch in H as [_ ->] end; done.
Qed.

Lemma echo_apply_all_other l o o' : apply_all o l = Ok o' -> echo_config_file o' = echo_config_file o /\ echo_show_help o' = echo_show_help o.
Proof.
  revert o. induction l as [|[n v] l IH]; intros o; [by intros [= <-]|]. rewrite apply_all_cons. intros (o1 & H1 & H)%result_bind_Ok.
  apply echo_apply_other in H1 as [<- <-]. by apply IH.
Qed.

Lemma echo_field_ignores o o' n : echo_server o' = echo_server o -> logging o' = logging o -> echo_field n o' = echo_field n o.
Proof. intros Hs Hl. apply table_ignores. unfold option_table. each_row ltac:(by rewrite ?Hs, ?Hl). Qed.

Section Load.
Context {T : Toml} {P : Platform T}.

(** The overrides of the file that is chosen, if there is one *)
Definition file_overrides (file : option str) : list (str * str) := from_option toml_overrides [] (file ≫= parse_file).

Lemma echo_Load_inv arguments environment o : LoadEchoApplicationOptions arguments environment = Ok o ->
  let env := default ReadProcessEnvironment environment in
  exists cli file l o0 o1, CliParser_make arguments = Ok cli /\ FindConfigurationFile cli env = Ok file /\
    tokens arguments = Some l /\ (ports l <= 1)%nat /\
    (echo_server o0 = echo_server EchoApplicationOptions_default /\ logging o0 = logging EchoApplicationOptions_default) /\
    echo_config_file o0 = file /\ echo_show_help o0 = cli_show_help cli /\
    apply_all o0 (file_overrides file ++ env_overrides env mappings ++ cli_overrides l) = Ok o1 /\
    o = set_echo_show_help (echo_show_help o1 || bool_decide (Help ∈ l)) o1 /\ Validate o = Ok tt.
Proof.
  intros H env. unfold LoadEchoApplicationOptions in H. fold env in H. cbn zeta in H. apply result_bind_Ok in H as (cli & Hc & H). apply result_bind_Ok in H as (file & Hf & H).
  apply result_bind_Ok in H as (o1 & H1 & H). apply result_bind_Ok in H as (o2 & H2 & H). apply result_bind_Ok in H as (o3 & H3 & H).
  apply result_bind_Ok in H as ([] & Hv & H). injection H as ->.
  pose proof (CliParser_tokens arguments (mkCliParser false None [] [])) as Ht. unfold CliParser_make in Hc. rewrite Hc in Ht.
  destruct (tokens arguments) as [l|] eqn:El; [|done].
  unfold ApplyCommandLine in H3. rewrite (echo_ApplyCommandLine_tokens _ _ _ _ El) in H3. cbn [Nat.b2n] in H3. rewrite Nat.add_0_r in H3.
  destruct (Nat.leb_spec (ports l) 1) as [Hl|]; [|done]. unfold apply_tokens in H3.
  destruct (apply_all o2 (cli_overrides l)) as [o4|] eqn:E4; [|done]. injection H3 as <-.
  unfold ApplyEnvironment in H2. change ApplyOption with (@apply_option _ _ echo_options) in H2. apply apply_environment_all in H2.
  exists cli, file, l, (set_echo_config_file file (set_echo_show_help (cli_show_help cli) EchoApplicationOptions_default)), o4.
  do 5 (split; [done|]). do 2 (split; [done|]). split; [|done].
  rewrite apply_all_app. apply result_bind_Ok. exists o1. split; [|by rewrite apply_all_app, H2].
  destruct file as [path|]; [|by injection H1 as <-]. apply result_bind_Ok in H1 as (k & (root & Hr & ->)%LoadTomlConfiguration_overrides & H1).
  rewrite apply_overrides_all in H1. unfold file_overrides. cbn. rewrite Hr. exact H1.
Qed.

(** Where the options of the echo server come from: the command line overrides the environment, the
    environment the file and the file the defaults, for every option separately; every text that is given must be
    valid, also one that is overridden; and on the command line the port is given at most once. *)
Theorem echo_option_precedence arguments environment o : LoadEchoApplicationOptions arguments environment = Ok o ->
  let env := default ReadProcessEnvironment environment in
  exists cli file l, CliParser_make arguments = Ok cli /\ FindConfigurationFile cli env = Ok file /\ tokens arguments = Some l /\
    echo_config_file o = file /\ echo_show_help o = bool_decide (Help ∈ l) /\ (ports l <= 1)%nat /\
    Forall (fun p => exists x, echo_parse p.1 p.2 = Ok x) (file_overrides file ++ env_overrides env mappings ++ cli_overrides l) /\
    forall n, match last_value n (cli_overrides l), last_value n (env_overrides env mappings), last_value n (file_overrides file) with
              | Some v, _, _ | None, Some v, _ | None, None, Some v => exists x, echo_parse n v = Ok x /\ echo_field n o = Some x
              | None, None, None => echo_field n o = echo_field n EchoApplicationOptions_default
              end.
Proof.
  intros (cli & file & l & o0 & o1 & Hc & Hf & Hl & Hp & [Hs Hlog] & Hfile & Hh & H & -> & _)%echo_Load_inv env. exists cli, file, l.
  split_and!; try done.
  - apply echo_apply_all_other in H as [H _]. by rewrite <- Hfile.
  - apply echo_apply_all_other in H as [_ H]. cbn. rewrite H, Hh. unfold CliParser_make in Hc. rewrite CliParser_tokens, Hl in Hc. injection Hc as <-.
    destruct (cli_fold l (mkCliParser false None [] [])) as [-> _]. cbn. by destruct (bool_decide _).
  - change echo_parse with (@parse_option _ _ echo_options). apply (apply_all_accepts (H := echo_options) _ o0). by exists o1.
  - intros n. pose proof (apply_all_last _ _ _ n H) as Hn. rewrite !last_value_app in Hn.
    change (@field _ _ echo_options) with echo_field in Hn. rewrite (echo_field_ignores EchoApplicationOptions_default o0 n Hs Hlog) in Hn.
    rewrite (echo_field_ignores o1 (set_echo_show_help (echo_show_help o1 || bool_decide (Help ∈ l)) o1) n eq_refl eq_refl).
    destruct (last_value n (cli_overrides l)); [exact Hn|]. fold env in Hn. destruct (last_value n (env_overrides env mappings)); [exact Hn|].
    destruct (last_value n (file_overrides file)); exact Hn.
Qed.

(** ** What the options are *)

Definition in_kind (k : OptionKind) (v : OptionValue) : Prop :=
  match k, v with
  | Number maximum allow_zero, VNumber z => 0 <= z <= maximum /\ (allow_zero = false -> z <> 0)
  | NonEmpty, VText _ | Boolean, VFlag _ | Level, VLevel _ => True
  | _, _ => False
  end.

Definition in_range (o : EchoApplicationOptions) : Prop := Forall (fun p => in_kind p.1.2 (p.2 o)) option_table.

Lemma members_same o o' : echo_server o' = echo_server o -> logging o' = logging o -> Forall (fun p => p.2 o' = p.2 o) option_table.
Proof. intros Hs Hl. unfold option_table. each_row ltac:(by rewrite ?Hs, ?Hl). Qed.

Lemma in_range_same o o' : echo_server o' = echo_server o -> logging o' = logging o -> in_range o -> in_range o'.
Proof.
  intros Hs Hl. pose proof (members_same _ _ Hs Hl) as Hm. unfold in_range. rewrite !Forall_forall in *. intros H p Hp.
  rewrite (Hm p Hp). by apply H.
Qed.

Lemma echo_find_option_self : Forall (fun p => find_option option_table p.1.1 = Some p) option_table.
Proof. unfold option_table. each_row ltac:(reflexivity). Qed.

Lemma echo_default_in_range : in_range EchoApplicationOptions_default.
Proof. unfold in_range, option_table. each_row ltac:(vm_compute; repeat split; intros; discriminate). Qed.

Lemma echo_parse_in_kind : Forall (fun p => forall v x, parse_kind p.1.2 v = Ok x -> in_kind p.1.2 x) option_table.
Proof.
  assert (forall maximum z v x, maximum < 2 ^ 64 -> parse_kind (Number maximum z) v = Ok x -> in_kind (Number maximum z) x) as Hn.
  { intros maximum z v x Hm. cbn. destruct (ParseUnsigned v maximum z) eqn:E; [|done]. intros [= <-].
    split; [by eapply ParseUnsigned_range|]. apply ParseUnsigned_spec in E; [|done]. apply E. }
  assert (forall v x, parse_kind NonEmpty v = Ok x -> in_kind NonEmpty x) as Ht by (intros v x; cbn; destruct (nonempty v); [by intros [= <-]|done]).
  assert (forall v x, parse_kind Boolean v = Ok x -> in_kind Boolean x) as Hb by (intros v x; cbn; destruct (ParseBoolean v); [by intros [= <-]|done]).
  assert (forall v x, parse_kind Level v = Ok x -> in_kind Level x) as Hl by (intros v x; cbn; destruct (ParseLogLevel v); [by intros [= <-]|done]).
  unfold option_table. each_row ltac:(first [exact Ht|exact Hb|exact Hl|intros v x; by apply Hn]).
Qed.

Lemma echo_Load_in_range arguments environment o : LoadEchoApplicationOptions arguments environment = Ok o -> in_range o /\ Validate o = Ok tt.
Proof.
  intros (cli & file & l & o0 & o1 & _ & _ & _ & _ & [Hs Hlog] & _ & _ & H & E & Hv)%echo_Load_inv. split; [|done].
  apply (in_range_same o1 o); [by rewrite E..|].
  apply (table_in_kind (S := echo_options) parse_kind option_table in_kind _ o0 o1 eq_refl eq_refl echo_find_option_self echo_parse_in_kind H).
  apply (in_range_same _ o0 Hs Hlog echo_default_in_range).
Qed.

Local Ltac tests :=
  repeat first [rewrite (proj2 (Z.eqb_neq _ _)) by lia|rewrite (proj2 (Z.leb_gt _ _)) by lia|rewrite (proj2 (Z.ltb_ge _ _)) by lia
               |progress cbn [negb orb]].

(** The options the echo server starts with are accepted by the constructors of the I/O context, the listener and the connections,
    if a vector can hold that many workers. *)
Lemma echo_options_accepted arguments environment o : LoadEchoApplicationOptions arguments environment = Ok o ->
  let s := echo_server o in
  (echo_io_worker_count s <= max_thread_vector ->
   exists c, IoContext.IoContext_make (echo_io_worker_count s) true 0 true = Ok c) /\
  (forall port, exists c, TcpListener_make true true (echo_listener s)
     (mkCreateAnswers true true true true true true (Some port) true (Ok tt)) = Ok c) /\
  (forall id, id <> 0 -> exists c, TcpConnection_make id true true true (echo_connection s) = Ok c) /\
  0 < echo_shutdown_timeout s <= MILLISECONDS_MAX /\ (file_enabled (logging o) = true -> file_path (logging o) <> []).
Proof.
  intros [Hr Hv]%echo_Load_in_range s. unfold in_range, option_table in Hr. rewrite !Forall_cons in Hr. cbn [fst snd in_kind] in Hr.
  unfold Validate in Hv. rewrite !throw_if_Ok, !orb_false_iff, !andb_false_iff, !Z.eqb_neq, !Z.ltb_ge, !Z.leb_gt, !bool_decide_eq_false in Hv.
  subst s. destruct_and!. split_and!; try done.
  - intros Hw. unfold IoContext.IoContext_make, IoContext.IoContextState_make, throw_if. tests. cbn [mbind result_bind negb]. tests. by eexists.
  - intros port. unfold TcpListener_make, throw_if. assert (backlog (echo_listener (echo_server o)) <> 0) by auto. tests. rewrite !andb_false_r. by eexists.
  - intros id Hid. unfold TcpConnection_make, SendQueue_make, ULONG_MAX, DWORD_MAX in *. tests. cbn. tests. by eexists.
  - intros Hfile. match goal with H : file_enabled _ = false \/ _ |- _ => destruct H as [H|H] end; [by rewrite Hfile in *|done].
Qed.
End Load.

(** ** The logger *)

(** Routing of the echo server's log: a record goes to the console if that is enabled and the level of the
    record is at least the one that is set, to the standard output up to [Info] and else to the standard error
    stream, so to one of them and never to both; and to the file if that is enabled and the level is at least the
    one that is set for it. *)
Theorem build_logger_routes o created has_parent opened contents l file r :
  BuildLogger o created has_parent opened contents = Ok (l, file) ->
  deliveries (r, l) =
    (if console_enabled o && (rank (console_minimum_level o) <=? rank (level r))
     then [(if rank (level r) <=? rank Info then Stdout else Stderr, r)] else []) ++
    (if file_enabled o && (rank (file_minimum_level o) <=? rank (level r)) then [(File (file_path o), r)] else []).
Proof.
  unfold BuildLogger. intros H. apply result_bind_Ok in H as (l1 & H1 & H).
  assert (deliveries (r, l1) = if console_enabled o && (rank (console_minimum_level o) <=? rank (level r))
     then [(if rank (level r) <=? rank Info then Stdout else Stderr, r)] else []) as E1.
  { destruct (console_enabled o); [|by injection H1 as <-]. unfold deliveries, accepts. cbn [fst snd andb].
    destruct (console_minimum_level o); cbn in H1; injection H1 as <-; cbn; by destruct (level r). }
  rewrite <- E1. destruct (file_enabled o); [|injection H as <- _; by rewrite app_nil_r].
  apply result_bind_Ok in H as (u & _ & H). unfold FileLogSink in H. destruct opened; [|done]. cbn in H. injection H as <- _.
  unfold deliveries, accepts. cbn [fst snd andb]. rewrite omap_app. f_equal. cbn.
  destruct (file_minimum_level o), (level r); done.
Qed.

(** ** Examples *)

#[local] Existing Instance example_toml.

#[local] Instance example_echo : Platform example_toml :=
  example_platform $"my.toml"
    [($"schema_version", TInteger 1);
     ($"server", TTable [($"port", TInteger 8081); ($"backlog", TInteger 64); ($"io_workers", TInteger 3)]);
     ($"logging", TTable [($"console", TBoolean true); ($"file", TBoolean false); ($"console_level", TString $"Warning")])]
    [($"IOCP_ECHO_CONFIG", $"my.toml"); ($"IOCP_ECHO_PORT", $"9001"); ($"IOCP_ECHO_BACKLOG", $"65")].

Definition example_arguments : list str := [$"--port=9090"; $"--console-log-level"; $"error"].

Example echo_example_load :
  (fun o => (echo_field $"port" o, echo_field $"backlog" o, echo_field $"io-workers" o, echo_field $"console-log-level" o)) <$>
    LoadEchoApplicationOptions example_arguments None =
  Ok (Some (VNumber 9090), Some (VNumber 65), Some (VNumber 3), Some (VLevel Error)).
Proof. vm_compute. reflexivity. Qed.

Lemma echo_option_precedence_witness : exists o, LoadEchoApplicationOptions example_arguments None = Ok o /\
  echo_config_file o = Some $"my.toml" /\ exists l, tokens example_arguments = Some l /\ (ports l <= 1)%nat.
Proof.
  destruct (LoadEchoApplicationOptions example_arguments None) as [o|] eqn:E; [|exfalso; vm_compute in E; discriminate].
  exists o. split; [done|]. destruct (echo_option_precedence example_arguments None o E) as (cli & file & l & Hc & Hf & Hl & Hfile & _ & Hp & _).
  split; [|by exists l]. vm_compute in Hc. injection Hc as <-. vm_compute in Hf. injection Hf as <-. exact Hfile.
Defined.

Lemma build_logger_routes_witness : exists l, BuildLogger LoggingOptions_default (Ok tt) true true [] = Ok (l, Some []) /\
  deliveries (example_record, l) = [(Stdout, example_record); (File (file_path LoggingOptions_default), example_record)].
Proof.
  eexists. split; [reflexivity|].
  exact (build_logger_routes LoggingOptions_default (Ok tt) true true [] _ (Some []) example_record eq_refl).
Defined.

(** ** The client *)

(** What the client relies on: a host, a port and timeouts that fit into a [DWORD] *)
Definition client_ok (o : EchoClientOptions) : Prop :=
  client_host o <> [] /\ 0 < client_port o <= 65535 /\ 0 < send_timeout o <= DWORD_MAX /\ 0 < receive_timeout o <= DWORD_MAX /\
  (one_shot o = false -> client_message o = []).

Lemma ApplyClientOption_ok o n v o' : client_ok o -> ApplyClientOption o n v = Ok o' -> client_ok o'.
Proof.
  unfold ApplyClientOption, client_ok, DWORD_MAX. intros (H1 & H2 & H3 & H4 & H5) H. by_name H; [..|discriminate].
  - by apply text_branch in H as [E ->].
  - apply result_bind_Ok in H as (z & E%ParseUnsigned_positive & [= <-]); [|done]. done.
  - apply result_bind_Ok in H as (z & E%ParseUnsigned_positive & [= <-]); [|done]. done.
  - apply result_bind_Ok in H as (z & E%ParseUnsigned_positive & [= <-]); [|done]. done.
  - by injection H as <-.
Qed.

Lemma apply_environment_ok {Opts} (apply : Opts -> str -> str -> result Opts) (I : Opts -> Prop) lookup l o o' :
  (forall o n v o', I o -> apply o n v = Ok o' -> I o') -> I o -> apply_environment apply lookup l o = Ok o' -> I o'.
Proof.
  intros Ha. revert o. induction l as [|[e n] l IH]; intros o Ho H; [by injection H as <-|]. cbn in H.
  apply result_bind_Ok in H as ([v|] & _ & H); apply result_bind_Ok in H as (o1 & H1 & H).
  - apply (IH o1); [by apply (Ha o n v)|done].
  - injection H1 as <-. by apply (IH o).
Qed.

Lemma client_loop_ok arguments o f o' f' : client_ok o -> ApplyClientCommandLine_loop o f arguments = Ok (o', f') -> client_ok o'.
Proof.
  assert (Hopt : forall o f n v p, client_ok o -> client_option o f n v = Ok p -> client_ok p.1).
  { intros q g n v p Hq. unfold client_option. destruct (note_option n g); [|done]. intros (q1 & E & [= <-])%result_bind_Ok.
    by apply ApplyClientOption_ok in E. }
  revert o f. induction arguments as [|arg rest IH1 IH2] using list_ind2; intros o f Ho H; [by injection H as <- <-|]. cbn in H.
  destruct (is_help arg); [by apply (IH1 (set_client_show_help true o) f)|]. destruct (negb _); [by apply IH1 in H|].
  destruct (split_option _) as [[n v]|].
  - apply result_bind_Ok in H as (p & E & H). apply (IH1 _ _ (Hopt _ _ _ _ _ Ho E) H).
  - destruct rest as [|v rest]; [done|]. apply result_bind_Ok in H as (p & E & H). apply (IH2 _ _ eq_refl _ _ (Hopt _ _ _ _ _ Ho E) H).
Qed.

Lemma client_positional_ok f i was_set n o o' : client_ok o -> client_positional f i was_set n o = Ok o' -> client_ok o'.
Proof.
  unfold client_positional. intros Ho. destruct (positional f !! i); [|by intros [= <-]]. destruct was_set; [done|]. by apply ApplyClientOption_ok.
Qed.

(** The options of the client are valid, and there is a message only for a single exchange. *)
Lemma client_options_valid {T : Toml} {P : Platform T} arguments environment o :
  LoadEchoClientOptions arguments environment = Ok o -> client_ok o.
Proof.
  unfold LoadEchoClientOptions. intros (o1 & H1 & H)%result_bind_Ok.
  apply (apply_environment_ok ApplyClientOption client_ok) in H1; [|by apply ApplyClientOption_ok|by split_and!].
  unfold ApplyClientCommandLine in H. apply result_bind_Ok in H as ([o2 f] & H2 & H). apply client_loop_ok in H2; [|done].
  destruct (_ <? _)%nat; [done|]. apply result_bind_Ok in H as (o3 & H3 & H). apply result_bind_Ok in H as (o4 & H4 & H).
  by eapply client_positional_ok, H; eapply client_positional_ok, H4; eapply client_positional_ok, H3.
Qed.
