(* ===== verification/Multipart.v ===== *)
(** * Multipart bodies

    [MultipartParser] of the web application ([multipart.h], [multipart.cpp]): the files of a
    [multipart/form-data] body.  Positions are those of the string; the difference of two
    positions wraps as a [size_t] does. *)

From S2P Require Import Prelude HttpMessage StringMap.

Record UploadedFile := mkUploadedFile { filename : str; content_type : str; data : str }.

Definition UploadedFile_default : UploadedFile := mkUploadedFile [] [] [].

Record MultipartParser := mkMultipart {
  boundary_ : str;
  max_size_ : Z;
  buffer_ : str;
  complete_ : bool;
  files_ : list UploadedFile;
}.

Definition MultipartParser_make (boundary : str) (max_size : Z) : MultipartParser :=
  mkMultipart ($"--" ++ boundary) max_size [] false [].

Definition default_max_size : Z := 10 * 1024 * 1024.

Definition IsComplete (p : MultipartParser) : bool := complete_ p.
Definition Files (p : MultipartParser) : list UploadedFile := files_ p.
Definition size (f : UploadedFile) : Z := zlen (data f).

Definition filename_mark : str := $"filename=" ++ [Byte.x22].

(** The body of the loop over the lines *)
Definition read_line (line : str) (f : UploadedFile) : result UploadedFile :=
  if starts_with $"Content-Disposition:" line then
    match find filename_mark line 0 with
    | None => Ok f
    | Some fn =>
        let fn_start := (fn + 10)%nat in
        match find [Byte.x22] line fn_start with
        | None => Ok f
        | Some fn_end => Ok (mkUploadedFile (substr line fn_start (fn_end - fn_start)) (content_type f) (data f))
        end
    end
  else if starts_with $"Content-Type:" line then
    if (length line <? 14)%nat then Throw out_of_range
    else Ok (mkUploadedFile (filename f) (drop 14 line) (data f))
  else Ok f.

(** The loop over the lines: the position behind them *)
Fixpoint read_headers (fuel : nat) (buffer : str) (pos : nat) (f : UploadedFile) : result (nat * UploadedFile) :=
  match fuel with
  | O => Throw NonTermination
  | S fuel =>
      if negb (pos <? length buffer)%nat then Ok (pos, f)
      else
        match find CRLF buffer pos with
        | None => Ok (pos, f)
        | Some line_end =>
            let line := substr buffer pos (line_end - pos) in
            let pos := (line_end + 2)%nat in
            if decide (line = []) then Ok (pos, f)
            else f ← read_line line f; read_headers fuel buffer pos f
        end
  end.

(** [buffer_.substr(pos, end - pos)] with unsigned numbers *)
Definition substr_between (buffer : str) (pos end_ : nat) : str :=
  take (Z.to_nat (Z.min (u64 (Z.of_nat end_ - Z.of_nat pos)) (zlen buffer))) (drop pos buffer).

Definition is_crlf (buffer : str) (i : nat) : bool :=
  bool_decide (buffer !! i = Some CR) && bool_decide (buffer !! S i = Some LF).

(** The loop over the parts, with [complete_] and [files_] *)
Fixpoint read_parts (fuel : nat) (boundary buffer : str) (pos : nat) (complete : bool) (files : list UploadedFile)
    : result unit * (bool * list UploadedFile) :=
  match fuel with
  | O => (Throw NonTermination, (complete, files))
  | S fuel =>
      if negb (pos <? length buffer)%nat then (Ok tt, (complete, files))
      else
        match find boundary buffer pos with
        | None => (Ok tt, (complete, files))
        | Some part_start =>
            let pos := (part_start + length boundary)%nat in
            if decide (substr buffer pos 2 = $"--") then (Ok tt, (true, files))
            else
              let pos := if is_crlf buffer pos then (pos + 2)%nat else pos in
              match read_headers (S (length buffer)) buffer pos UploadedFile_default with
              | Throw e => (Throw e, (complete, files))
              | Ok (pos, f) =>
                  match find boundary buffer pos with
                  | None => (Ok tt, (complete, files))
                  | Some next_boundary =>
                      let body_end := if (2 <=? next_boundary)%nat && is_crlf buffer (next_boundary - 2)
                                      then (next_boundary - 2)%nat else next_boundary in
                      let f := mkUploadedFile (filename f) (content_type f) (substr_between buffer pos body_end) in
                      let files := if decide (filename f = []) then files else files ++ [f] in
                      read_parts fuel boundary buffer next_boundary complete files
                  end
              end
        end
  end.

Definition Feed (d : str) (p : MultipartParser) : result bool * MultipartParser :=
  let buffer := buffer_ p ++ d in
  if max_size_ p <? zlen buffer then (Throw runtime_error, mkMultipart (boundary_ p) (max_size_ p) buffer (complete_ p) (files_ p))
  else
    match find (boundary_ p ++ $"--") buffer 0 with
    | None => (Ok false, mkMultipart (boundary_ p) (max_size_ p) buffer (complete_ p) (files_ p))
    | Some _ =>
        match read_parts (S (length buffer)) (boundary_ p) buffer 0 (complete_ p) (files_ p) with
        | (Throw e, (complete, files)) => (Throw e, mkMultipart (boundary_ p) (max_size_ p) buffer complete files)
        | (Ok _, (complete, files)) => (Ok true, mkMultipart (boundary_ p) (max_size_ p) [] complete files)
        end
    end.

(** ** Termination *)

Lemma find_range p s pos i : find p s pos = Some i -> (pos <= i /\ i + length p <= length s)%nat.
Proof.
  unfold find. destruct (Nat.leb_spec pos (length s)) as [Hp|]; [|done]. destruct (find_first p (drop pos s)) as [j|] eqn:E; [|done].
  intros [= <-]. apply find_first_Some in E as (_ & _ & E). rewrite length_drop in E. lia.
Qed.

Lemma read_line_error line f e : read_line line f = Throw e -> e = out_of_range.
Proof. unfold read_line. repeat case_match; congruence. Qed.

Lemma read_headers_total fuel buffer pos f : (pos <= length buffer < pos + fuel)%nat ->
  match read_headers fuel buffer pos f with Ok (pos', _) => (pos <= pos' <= length buffer)%nat | Throw e => e = out_of_range end.
Proof.
  revert pos f. induction fuel as [|fuel IH]; intros pos f Hf; cbn [read_headers]; [lia|].
  destruct (negb _); [lia|]. destruct (find CRLF buffer pos) as [i|] eqn:E; [|lia]. apply find_range in E. cbn in E.
  case_decide; [lia|]. destruct (read_line _ f) as [f'|e] eqn:El; [|by apply read_line_error in El]. cbn [mbind result_bind].
  specialize (IH (i + 2)%nat f' ltac:(lia)). destruct (read_headers fuel buffer (i + 2) f') as [[pos' f'']|]; [lia|done].
Qed.

Lemma read_parts_total fuel boundary buffer pos complete files : boundary <> [] -> (pos <= length buffer < pos + fuel)%nat ->
  (read_parts fuel boundary buffer pos complete files).1 = Ok tt \/
  (read_parts fuel boundary buffer pos complete files).1 = Throw out_of_range.
Proof.
  intros Hb. assert (0 < length boundary)%nat as Hl by (destruct boundary; [done|cbn; lia]).
  revert pos complete files. induction fuel as [|fuel IH]; intros pos complete files Hf; cbn [read_parts]; [lia|].
  destruct (negb _); [by left|]. destruct (find boundary buffer pos) as [i|] eqn:E; [|by left]. apply find_range in E.
  case_decide; [by left|]. set (q := if is_crlf buffer (i + length boundary) then _ else _).
  assert (pos < q <= length buffer)%nat as Hq.
  { subst q. destruct (is_crlf buffer (i + length boundary)) eqn:Ec; [|lia]. unfold is_crlf in Ec. apply andb_true_iff in Ec as [_ Ec].
    apply bool_decide_eq_true, lookup_lt_Some in Ec. lia. }
  pose proof (read_headers_total (S (length buffer)) buffer q UploadedFile_default ltac:(lia)) as Hh.
  destruct (read_headers (S (length buffer)) buffer q UploadedFile_default) as [[q' f]|e]; [|subst; by right].
  destruct (find boundary buffer q') as [n|] eqn:En; [|by left]. apply find_range in En. apply IH. lia.
Qed.

(** [Feed] returns, or throws because the body is too large or because of a header line [Content-Type:] without a value. *)
Lemma Feed_total d p : boundary_ p <> [] ->
  (exists b, (Feed d p).1 = Ok b) \/ (Feed d p).1 = Throw runtime_error /\ max_size_ p < zlen (buffer_ p ++ d) \/ (Feed d p).1 = Throw out_of_range.
Proof.
  intros Hb. unfold Feed. destruct (Z.ltb_spec (max_size_ p) (zlen (buffer_ p ++ d))); [by right; left|].
  destruct (find _ _ 0) as [i|]; [|left; by exists false].
  destruct (read_parts_total (S (length (buffer_ p ++ d))) (boundary_ p) (buffer_ p ++ d) 0 (complete_ p) (files_ p) Hb ltac:(lia)) as [E|E];
    destruct (read_parts _ _ _ _ _ _) as [[] []]; cbn in E; try done; [left; by exists true|right; right; cbn; congruence].
Qed.

(** ** How the body is cut does not matter *)

Lemma Feed_split a b p p' : Feed a p = (Ok false, p') -> Feed b p' = Feed (a ++ b) p.
Proof.
  unfold Feed. destruct (_ <? _); [done|]. destruct (find _ _ 0) as [i|]; [case_match; repeat case_match; congruence|].
  intros [= <-]. cbn [boundary_ max_size_ buffer_ complete_ files_]. by rewrite app_assoc.
Qed.

(** Feeding pieces one after the other, until a call throws or finds the end *)
Fixpoint Feed_all (l : list str) (p : MultipartParser) : result bool * MultipartParser :=
  match l with
  | [] => (Ok false, p)
  | d :: l => match Feed d p with (Ok false, p') => Feed_all l p' | r => r end
  end.

(** ** Bodies *)

Definition quote : byte := Byte.x22.

Definition disposition : str := $"Content-Disposition: form-data; name=" ++ [quote] ++ $"file" ++ [quote] ++ $"; " ++ filename_mark.

(** The part of a file behind its boundary *)
Definition part (f : UploadedFile) : str :=
  CRLF ++ (disposition ++ filename f ++ [quote]) ++ CRLF ++ ($"Content-Type: " ++ content_type f) ++ CRLF ++ CRLF ++ data f ++ CRLF.

(** What a client sends *)
Definition body (boundary : str) (files : list UploadedFile) : str :=
  concat (map (fun f => boundary ++ part f) files) ++ boundary ++ $"--".

(** The name and the type stay in their lines, and the boundary does not occur in the data, also not together with what follows it. *)
Record well_formed (boundary : str) (f : UploadedFile) : Prop := {
  wf_name : filename f <> [] /\ quote ∉ filename f /\ CR ∉ filename f;
  wf_type : CR ∉ content_type f;
  wf_data : find_first boundary (data f ++ CRLF ++ boundary) = Some (length (data f) + 2)%nat;
}.

Lemma find_first_crlf l k : CR ∉ l -> find_first CRLF (l ++ CRLF ++ k) = Some (length l).
Proof.
  induction l as [|c l IH]; intros Hl; [done|]. apply not_elem_of_cons in Hl as [Hc Hl].
  change ((c :: l) ++ CRLF ++ k) with (c :: (l ++ CRLF ++ k)). cbn [find_first]. 
  assert (starts_with CRLF (c :: (l ++ CRLF ++ k)) = false) as ->.
  { unfold CRLF at 1. cbn [starts_with]. by rewrite bool_decide_eq_false_2. }
  by rewrite IH.
Qed.

(** One line of a header *)
Lemma read_headers_line fuel pre line k f : CR ∉ line ->
  read_headers (S fuel) (pre ++ line ++ CRLF ++ k) (length pre) f =
  if decide (line = []) then Ok (length (pre ++ line ++ CRLF), f)
  else f ← read_line line f; read_headers fuel (pre ++ line ++ CRLF ++ k) (length (pre ++ line ++ CRLF)) f.
Proof.
  intros Hl. cbn [read_headers]. rewrite (proj2 (Nat.ltb_lt _ _)) by (rewrite !length_app; cbn; lia). cbn [negb].
  rewrite find_app, find_first_crlf by done. cbn [fmap option_fmap option_map]. unfold substr. rewrite drop_app_length.
  replace (length pre + length line - length pre)%nat with (length line) by lia. rewrite take_app_length.
  replace (length pre + length line + 2)%nat with (length (pre ++ line ++ CRLF)) by (rewrite !length_app; cbn; lia). done.
Qed.

Lemma find_mark n : find filename_mark (disposition ++ n) 0 = Some 45%nat.
Proof.
  unfold find. cbn [Nat.leb]. rewrite drop_0. rewrite (find_first_app filename_mark disposition [] n 45); [done|vm_compute; reflexivity|].
  vm_compute. lia.
Qed.

Lemma read_disposition n f : quote ∉ n -> read_line (disposition ++ n ++ [quote]) f = Ok (mkUploadedFile n (content_type f) (data f)).
Proof.
  intros Hn. unfold read_line. change (starts_with $"Content-Disposition:" (disposition ++ n ++ [quote])) with true. cbv iota.
  rewrite find_mark. change (45 + 10)%nat with (length disposition). rewrite find_app.
  change [Byte.x22] with [quote]. rewrite (find_first_byte quote n []) by done. cbn [fmap option_fmap option_map]. unfold substr. rewrite drop_app_length.
  replace (length disposition + length n - length disposition)%nat with (length n) by lia. by rewrite take_app_length.
Qed.

Lemma read_type t f : read_line ($"Content-Type: " ++ t) f = Ok (mkUploadedFile (filename f) t (data f)).
Proof.
  unfold read_line. change (starts_with $"Content-Disposition:" ($"Content-Type: " ++ t)) with false.
  change (starts_with $"Content-Type:" ($"Content-Type: " ++ t)) with true. cbv iota.
  destruct (Nat.ltb_spec (length ($"Content-Type: " ++ t)) 14) as [H|_]; [cbn in H; lia|]. done.
Qed.

Lemma no_cr l : forallb (fun c => negb (bool_decide (c = CR))) l = true -> CR ∉ l.
Proof. rewrite forallb_forall. intros H Hl%list_elem_of_In. specialize (H _ Hl). by rewrite bool_decide_eq_true_2 in H. Qed.

(** The three lines of a part *)
Lemma read_headers_part fuel pre f k : quote ∉ filename f -> CR ∉ filename f -> CR ∉ content_type f ->
  let lines := (disposition ++ filename f ++ [quote]) ++ CRLF ++ ($"Content-Type: " ++ content_type f) ++ CRLF ++ CRLF in
  read_headers (3 + fuel) (pre ++ lines ++ k) (length pre) UploadedFile_default =
  Ok (length (pre ++ lines), mkUploadedFile (filename f) (content_type f) []).
Proof.
  intros Hq Hn Ht lines. subst lines. set (d := disposition ++ filename f ++ [quote]). set (t := $"Content-Type: " ++ content_type f).
  assert (CR ∉ d) as Hd by (unfold d; rewrite !elem_of_app; intros [H|[H|H]]; revert H; [by apply no_cr|done|by apply no_cr]).
  assert (CR ∉ t) as Ht' by (unfold t; rewrite elem_of_app; intros [H|H]; revert H; [by apply no_cr|done]).
  rewrite <- !app_assoc. change (3 + fuel)%nat with (S (2 + fuel)). rewrite read_headers_line by done.
  rewrite decide_False by (by unfold d). rewrite (read_disposition _ _ Hq : read_line d _ = _). cbn [mbind result_bind].
  replace (pre ++ d ++ CRLF ++ t ++ CRLF ++ CRLF ++ k) with ((pre ++ d ++ CRLF) ++ t ++ CRLF ++ CRLF ++ k) by by rewrite <- !app_assoc.
  change (2 + fuel)%nat with (S (1 + fuel)). rewrite read_headers_line by done. rewrite decide_False by (by unfold t).
  rewrite (read_type _ _ : read_line t _ = _). cbn [mbind result_bind].
  replace ((pre ++ d ++ CRLF) ++ t ++ CRLF ++ CRLF ++ k) with (((pre ++ d ++ CRLF) ++ t ++ CRLF) ++ [] ++ CRLF ++ k) by by rewrite <- !app_assoc.
  change (1 + fuel)%nat with (S fuel). rewrite read_headers_line by by apply no_cr. rewrite decide_True by done. cbn [filename content_type data].
  do 2 f_equal. by rewrite <- !app_assoc.
Qed.

Lemma is_crlf_app l k : is_crlf (l ++ CRLF ++ k) (length l) = true.
Proof.
  unfold is_crlf. rewrite (lookup_app_r l _ (length l)), (lookup_app_r l _ (S (length l))) by lia.
  replace (S (length l) - length l)%nat with 1%nat by lia. rewrite Nat.sub_diag. cbn. by rewrite !bool_decide_eq_true_2.
Qed.

Lemma substr_between_app l d k : zlen (l ++ d ++ k) < 2 ^ 64 -> substr_between (l ++ d ++ k) (length l) (length l + length d) = d.
Proof.
  intros Hs. unfold substr_between. rewrite drop_app_length. unfold zlen in *. rewrite !length_app in *.
  rewrite u64_small by lia. replace (Z.to_nat _) with (length d) by lia. apply take_app_length.
Qed.

(** One part is read. *)
Lemma read_parts_part fuel b pre f k complete files : well_formed b f -> zlen (pre ++ b ++ part f ++ b ++ k) < 2 ^ 64 ->
  read_parts (S fuel) b (pre ++ b ++ part f ++ b ++ k) (length pre) complete files =
  read_parts fuel b (pre ++ b ++ part f ++ b ++ k) (length (pre ++ b ++ part f)) complete (files ++ [f]).
Proof.
  intros [(Hne & Hq & Hn) Ht Hd] Hs.
  set (lines := (disposition ++ filename f ++ [quote]) ++ CRLF ++ ($"Content-Type: " ++ content_type f) ++ CRLF ++ CRLF).
  assert (part f = CRLF ++ lines ++ data f ++ CRLF) as Ep by (unfold part, lines; by rewrite <- !app_assoc).
  set (buffer := pre ++ b ++ part f ++ b ++ k) in *.
  assert (buffer = (pre ++ b) ++ CRLF ++ lines ++ data f ++ CRLF ++ b ++ k) as E1 by (unfold buffer; by rewrite Ep, <- !app_assoc).
  assert (buffer = (pre ++ b ++ CRLF) ++ lines ++ data f ++ CRLF ++ b ++ k) as E2 by (by rewrite E1, <- !app_assoc).
  assert (buffer = (pre ++ b ++ CRLF ++ lines) ++ data f ++ CRLF ++ b ++ k) as E3 by (by rewrite E1, <- !app_assoc).
  assert (buffer = ((pre ++ b ++ CRLF ++ lines) ++ data f) ++ CRLF ++ b ++ k) as E4 by (by rewrite E1, <- !app_assoc).
  assert (length buffer = length pre + length b + 2 + length lines + length (data f) + 2 + length b + length k)%nat as El
    by (rewrite E1, !length_app; cbn; lia).
  assert (find b buffer (length pre) = Some (length pre)) as F1.
  { unfold buffer. rewrite find_app, find_first_here. cbn. f_equal. lia. }
  assert (substr buffer (length (pre ++ b)) 2 = CRLF) as F2 by (rewrite E1; unfold substr; by rewrite drop_app_length).
  assert (is_crlf buffer (length (pre ++ b)) = true) as F3 by (rewrite E1; apply is_crlf_app).
  assert (read_headers (S (length buffer)) buffer (length (pre ++ b) + 2) UploadedFile_default =
          Ok (length (pre ++ b ++ CRLF ++ lines), mkUploadedFile (filename f) (content_type f) [])) as F4.
  { replace (S (length buffer)) with (3 + (length buffer - 2))%nat by lia. rewrite E2 at 2.
    replace (length (pre ++ b) + 2)%nat with (length (pre ++ b ++ CRLF)) by (rewrite !length_app; cbn; lia).
    unfold lines. rewrite (read_headers_part _ (pre ++ b ++ CRLF) f) by done. by rewrite <- !app_assoc. }
  assert (find b buffer (length (pre ++ b ++ CRLF ++ lines)) = Some (length (pre ++ b ++ part f))) as F5.
  { rewrite E3, find_app. assert (find_first b (data f ++ CRLF ++ b ++ k) = Some (length (data f) + 2)%nat) as ->.
    - replace (data f ++ CRLF ++ b ++ k) with ((data f ++ CRLF ++ b) ++ k) by (by rewrite <- !app_assoc).
      apply (find_first_app b _ [] k); [by rewrite app_nil_r|]. rewrite !length_app. cbn. lia.
    - cbn [fmap option_fmap option_map]. f_equal. rewrite Ep, !length_app. cbn [length CRLF]. lia. }
  assert (length (pre ++ b ++ part f) - 2 = length (pre ++ b ++ CRLF ++ lines) + length (data f))%nat as Hend by (rewrite Ep, !length_app; cbn [length CRLF]; lia).
  assert (is_crlf buffer (length (pre ++ b ++ part f) - 2) = true) as F6.
  { rewrite Hend, E4. rewrite <- length_app. apply is_crlf_app. }
  assert (substr_between buffer (length (pre ++ b ++ CRLF ++ lines)) (length (pre ++ b ++ part f) - 2) = data f) as F7.
  { rewrite Hend, E3. apply substr_between_app. by rewrite <- E3. }
  assert (2 <= length (pre ++ b ++ part f))%nat as F8 by (rewrite Ep, !length_app; cbn [length CRLF]; lia).
  assert (length pre < length buffer)%nat as F9 by lia.
  clearbody buffer. clear E1 E2 E3 E4 El. cbn [read_parts]. rewrite (proj2 (Nat.ltb_lt _ _) F9), F1. cbn [negb].
  rewrite <- length_app, F2, F3, F4, F5, (proj2 (Nat.leb_le _ _) F8), F6. rewrite decide_False by done. cbn [andb filename content_type].
  rewrite F7, decide_False by done. by destruct f.
Qed.

Lemma read_parts_body fuel b pre fs complete files : Forall (well_formed b) fs -> zlen (pre ++ body b fs) < 2 ^ 64 ->
  read_parts (length fs + S fuel) b (pre ++ body b fs) (length pre) complete files = (Ok tt, (true, files ++ fs)).
Proof.
  intros Hfs. revert pre files. induction Hfs as [|f fs Hf _ IH]; intros pre files Hs.
  - unfold body in *. cbn [map concat app length Nat.add read_parts]. rewrite (proj2 (Nat.ltb_lt _ _)) by (rewrite !length_app; cbn; lia). cbn [negb].
    rewrite find_app, find_first_here. cbn [fmap option_fmap option_map]. rewrite Nat.add_0_r, <- length_app, app_assoc.
    unfold substr. rewrite drop_app_length. by rewrite app_nil_r.
  - assert (exists k, body b fs = b ++ k) as [k Ek].
    { unfold body. destruct fs as [|g gs]; [by eexists|]. cbn [map concat]. rewrite <- !app_assoc. by eexists. }
    assert (body b (f :: fs) = b ++ part f ++ body b fs) as E by (unfold body; cbn [map concat]; by rewrite <- !app_assoc).
    rewrite E in Hs |- *. rewrite Ek in Hs |- *. cbn [length Nat.add]. rewrite read_parts_part by done. rewrite <- Ek in Hs |- *.
    replace (pre ++ b ++ part f ++ body b fs) with ((pre ++ b ++ part f) ++ body b fs) in * by (by rewrite <- !app_assoc).
    rewrite IH by done. by rewrite <- app_assoc.
Qed.

Lemma find_some b l k : exists i, find b (l ++ b ++ k) 0 = Some i.
Proof.
  unfold find. cbn [Nat.leb]. rewrite drop_0. cut (exists i, find_first b (l ++ b ++ k) = Some i); [intros [i ->]; by eexists|].
  induction l as [|c l [i IH]]; [exists 0%nat; exact (find_first_here b k)|]. cbn [app find_first]. destruct (starts_with _ _); [by eexists|].
  rewrite IH. by eexists.
Qed.

Lemma body_length b fs : (length fs < length (body b fs))%nat.
Proof.
  unfold body. rewrite !length_app. induction fs as [|f fs IH]; cbn [map concat length] in *; [cbn; lia|]. rewrite !length_app.
  assert (2 <= length (part f))%nat by (unfold part; rewrite length_app; cbn; lia). cbn in *. lia.
Qed.

(** A whole body *)
Lemma Feed_body boundary max_size fs : let p := MultipartParser_make boundary max_size in
  Forall (well_formed (boundary_ p)) fs -> zlen (body (boundary_ p) fs) <= max_size < 2 ^ 64 ->
  Feed (body (boundary_ p) fs) p = (Ok true, mkMultipart (boundary_ p) max_size [] true fs).
Proof.
  intros p Hfs Hs. unfold Feed. change (buffer_ p) with (@nil byte). cbn [app]. change (max_size_ p) with max_size.
  rewrite (proj2 (Z.ltb_ge _ _)) by lia.
  set (b := boundary_ p) in *. destruct (find_some (b ++ $"--") (concat (map (fun f => b ++ part f) fs)) []) as [i Ei]. rewrite app_nil_r in Ei.
  fold (body b fs) in Ei. rewrite Ei. pose proof (body_length b fs).
  replace (S (length (body b fs))) with (length fs + S (length (body b fs) - length fs))%nat by lia.
  rewrite (read_parts_body _ b [] fs _ []) by (done || cbn [app]; lia). done.
Qed.

(** C36. Uploads are read back: a body with any number of files (none of whose names and types leaves its line, in
    none of whose data the boundary occurs, and which has the closing boundary at its end only) yields exactly these
    files, with their names, types and bytes, in order, however the body is cut into the pieces that are fed, as long
    as it is not larger than the maximum. *)
Theorem multipart_roundtrip boundary max_size fs pieces : let p := MultipartParser_make boundary max_size in
  Forall (well_formed (boundary_ p)) fs -> zlen (body (boundary_ p) fs) <= max_size < 2 ^ 64 ->
  find (boundary_ p ++ $"--") (body (boundary_ p) fs) 0 = Some (length (body (boundary_ p) fs) - length (boundary_ p ++ $"--"))%nat ->
  concat pieces = body (boundary_ p) fs ->
  Feed_all pieces p = (Ok true, mkMultipart (boundary_ p) max_size [] true fs).
Proof.
  intros p Hfs Hs Hend Hp. set (b := boundary_ p) in *.
  assert (Feed (body b fs) p = (Ok true, mkMultipart b max_size [] true fs)) as Hbody by exact (Feed_body boundary max_size fs Hfs Hs).
  assert (H : forall c, c ++ concat pieces = body b fs -> (length c < length (body b fs))%nat ->
    Feed_all pieces (mkMultipart b max_size c false []) = (Ok true, mkMultipart b max_size [] true fs)).
  { clear Hp. induction pieces as [|d l IH]; intros c Hc Hlt; cbn [concat] in Hc; [rewrite app_nil_r in Hc; subst c; lia|].
    cbn [Feed_all]. rewrite app_assoc in Hc.
    assert (Feed d (mkMultipart b max_size c false []) = Feed (c ++ d) p) as -> by reflexivity.
    destruct (decide (length (c ++ d) < length (body b fs))%nat) as [Hlt'|Hge].
    - assert (Feed (c ++ d) p = (Ok false, mkMultipart b max_size (c ++ d) false [])) as ->; [|by apply IH].
      unfold Feed. change (buffer_ p) with (@nil byte). cbn [app]. fold b. change (max_size_ p) with max_size.
      rewrite (proj2 (Z.ltb_ge _ _)).
      2:{ rewrite <- Hc in Hs. rewrite zlen_app in Hs. pose proof (zlen_nonneg (concat l)). lia. }
      destruct (find (b ++ $"--") (c ++ d) 0) as [i|] eqn:Ei; [|done]. exfalso. pose proof (find_range _ _ _ _ Ei) as Hr.
      unfold find in Ei, Hend. cbn [Nat.leb] in Ei, Hend. rewrite drop_0 in Ei, Hend.
      destruct (find_first _ (c ++ d)) as [j|] eqn:Ej; [|done]. injection Ei as <-. rewrite <- (app_nil_r (c ++ d)) in Ej.
      apply (find_first_app _ _ _ (concat l)) in Ej; [|lia]. rewrite Hc in Ej. rewrite Ej in Hend. apply (inj Some) in Hend. lia.
    - assert (concat l = []) as Hl.
      { apply length_zero_iff_nil. apply (f_equal length) in Hc. rewrite length_app in Hc. lia. }
      rewrite Hl, app_nil_r in Hc. by rewrite Hc, Hbody. }
  apply (H []); [done|]. pose proof (body_length b fs). cbn [length]. lia.
Qed.

Definition example_file : UploadedFile := mkUploadedFile $"a.txt" $"text/plain" $"hello".

Lemma multipart_roundtrip_witness :
  exists pieces, concat pieces = body $"--XYZ" [example_file; example_file] /\ length pieces = 2%nat /\
  Feed_all pieces (MultipartParser_make $"XYZ" default_max_size) =
    (Ok true, mkMultipart $"--XYZ" default_max_size [] true [example_file; example_file]).
Proof.
  exists [take 20 (body $"--XYZ" [example_file; example_file]); drop 20 (body $"--XYZ" [example_file; example_file])].
  split; [cbn [concat]; by rewrite app_nil_r, take_drop|]. split; [done|].
  assert (Hwf : well_formed $"--XYZ" example_file).
  { constructor; [|by apply no_cr|vm_compute; reflexivity]. split_and!; [done| |by apply no_cr].
    intros H. apply list_elem_of_In in H. cbn in H. naive_solver. }
  apply (multipart_roundtrip $"XYZ" default_max_size [example_file; example_file]).
  - apply Forall_cons_2; [exact Hwf|]. apply Forall_cons_2; [exact Hwf|]. by apply Forall_nil_2.
  - by vm_compute.
  - vm_compute. reflexivity.
  - cbn [concat]. by rewrite app_nil_r, take_drop.
Defined.

(** A part whose data is not preceded by an empty line of its own: the end of the data lies before its beginning, the
    length wraps and the data is all the rest of the body. *)
Definition empty_part : str :=
  $"--XYZ" ++ CRLF ++ disposition ++ $"a" ++ [quote] ++ CRLF ++ CRLF ++ $"--XYZ" ++ $"--".

Lemma empty_part_wraps : exists p, Feed empty_part (MultipartParser_make $"XYZ" default_max_size) = (Ok true, p) /\
  map data (files_ p) = [$"--XYZ--"].
Proof. eexists. split; vm_compute; reflexivity. Qed.

(** A header line without a value is an error of the parser. *)
Lemma bare_content_type_throws :
  (Feed ($"--XYZ" ++ CRLF ++ $"Content-Type:" ++ CRLF ++ CRLF ++ CRLF ++ $"--XYZ" ++ $"--") (MultipartParser_make $"XYZ" default_max_size)).1 =
  Throw out_of_range.
Proof. vm_compute. reflexivity. Qed.
