(* ===== verification/ServerLifecycle.v ===== *)
(** * The life of a server

    [HttpServer] ([http_server.h], [http_server.cpp]) and [EchoServer] ([echo_server.h],
    [echo_server.cpp]): how they put the listener, the registry, the executor and the I/O context
    together, and how [Stop] takes them apart.  The components are those of their own files, with
    their own steps; this file adds the steps of the server.

    [OnAccepted] holds [state_mutex_] from the test of the state to the registration of the
    connection, so it is one step; it happens while the operation of the listener is
    [Delivering].  [Stop] holds [stop_mutex_], so at most one call runs: [call] has the actions
    that are left of it.  The two servers differ in these actions, and the theorems hold for both.
    [Start] is one step, because nobody else has the server before it returns. *)

From stdpp Require Import relations.
From S2P Require Import Prelude Executor ConnectionRegistry.
From S2P Require ThreadPoolExecutor TcpListener IoContext.

#[local] Existing Instance ThreadPoolExecutor.pool_system.

Inductive ServerState := Created | Running | Stopping | Stopped.

#[export] Instance ServerState_eq_dec : EqDecision ServerState.
Proof. solve_decision. Defined.

(** What [Stop] and the handler in [Start] do.  [CloseEach] is the rest of the loop of [CloseConnections], and
    [AwaitExecutor] the wait of [JoinExecutor].  The waits with [Try] ignore the timeout. *)
Inductive StopAction :=
  | StopListener
  | WaitListener
  | TryWaitListener
  | CloseConnections
  | CloseEach (ids : list Z)
  | WaitRegistry
  | TryWaitRegistry
  | StopExecutor (mode : StopMode)
  | WaitExecutor
  | TryWaitExecutor
  | JoinExecutor
  | AwaitExecutor
  | StopIo
  | JoinIo.

#[export] Instance StopAction_eq_dec : EqDecision StopAction.
Proof. solve_decision. Defined.

(** [HttpServer::Stop] and [EchoServer::Stop], behind the first critical section and up to the last *)
Definition http_stop : list StopAction :=
  [StopListener; WaitListener; CloseConnections; WaitRegistry; StopExecutor Drain; WaitExecutor; JoinExecutor; StopIo; JoinIo].
Definition echo_stop : list StopAction := [StopListener; WaitListener; CloseConnections; WaitRegistry; StopIo; JoinIo].

(** What the handler in [Start] does *)
Definition http_start_failed : list StopAction := [StopExecutor CancelPending; JoinExecutor; StopIo; JoinIo].
Definition echo_start_failed : list StopAction := [StopIo; JoinIo].

Inductive Caller := ByStop | ByStart.

(** A connection is its number here.  [asked] has the connections whose [BeginClose] was called by [Stop], and [returned] the
    results of the calls of [Stop]. *)
Record Server := mkServer {
  state_ : ServerState;
  listener_ : option TcpListener.System;
  registry_ : ConnectionRegistry (Connection := Z);
  pool_ : ThreadPoolExecutor.ThreadPoolContext;
  io_ : IoContext.System;
  call : option (Caller * list StopAction);
  asked : list Z;
  returned : list bool;
}.

Definition set_state (x : ServerState) (s : Server) : Server :=
  mkServer x (listener_ s) (registry_ s) (pool_ s) (io_ s) (call s) (asked s) (returned s).
Definition set_listener (x : TcpListener.System) (s : Server) : Server :=
  mkServer (state_ s) (Some x) (registry_ s) (pool_ s) (io_ s) (call s) (asked s) (returned s).
Definition set_registry (x : ConnectionRegistry) (s : Server) : Server :=
  mkServer (state_ s) (listener_ s) x (pool_ s) (io_ s) (call s) (asked s) (returned s).
Definition set_pool (x : ThreadPoolExecutor.ThreadPoolContext) (s : Server) : Server :=
  mkServer (state_ s) (listener_ s) (registry_ s) x (io_ s) (call s) (asked s) (returned s).
Definition set_io (x : IoContext.System) (s : Server) : Server :=
  mkServer (state_ s) (listener_ s) (registry_ s) (pool_ s) x (call s) (asked s) (returned s).
Definition set_call (x : option (Caller * list StopAction)) (s : Server) : Server :=
  mkServer (state_ s) (listener_ s) (registry_ s) (pool_ s) (io_ s) x (asked s) (returned s).
Definition ask (id : Z) (s : Server) : Server :=
  mkServer (state_ s) (listener_ s) (registry_ s) (pool_ s) (io_ s) (call s) (asked s ++ [id]) (returned s).
Definition return_ (b : bool) (s : Server) : Server :=
  mkServer (state_ s) (listener_ s) (registry_ s) (pool_ s) (io_ s) None (asked s) (returned s ++ [b]).

(** ** The constructor *)

(** Both constructors; [io] and [pool] are what the constructors of the I/O context and the executor give, [tasks] is
    [maximum_connection_tasks], which the echo server has not. *)
Definition Server_make (logger : bool) (io : result IoContext.System) (pool : result ThreadPoolExecutor.ThreadPoolContext)
    (tasks shutdown_timeout : Z) : result Server :=
  io ← io;
  pool ← pool;
  throw_if (negb logger) invalid_argument (
  throw_if (tasks =? 0) invalid_argument (
  throw_if (shutdown_timeout <=? 0) invalid_argument (
  Ok (mkServer Created None ConnectionRegistry_make pool io None [] [])))).

(** The echo server has no executor and no limit of tasks; [pool] is not used by it. *)
Definition EchoServer_make (logger : bool) (io : result IoContext.System) (shutdown_timeout : Z) (pool : ThreadPoolExecutor.ThreadPoolContext) : result Server :=
  io ← io;
  throw_if (negb logger) invalid_argument (
  throw_if (shutdown_timeout <=? 0) invalid_argument (
  Ok (mkServer Created None ConnectionRegistry_make pool io None [] []))).

Lemma EchoServer_make_Server logger io shutdown_timeout pool : EchoServer_make logger io shutdown_timeout pool = Server_make logger io (Ok pool) 1 shutdown_timeout.
Proof. unfold EchoServer_make, Server_make. by destruct io. Qed.

(** ** Accepted connections *)

(** [OnAccepted].  [prepared] says that the serial executor and the encoder could be created (the echo server has
    none), [created] that the connection could. *)
Definition OnAccepted (prepared created : bool) (s : Server) : Server :=
  if negb (bool_decide (state_ s = Running)) then s
  else if negb prepared then s
  else
    let '(id, registry) := NextId (registry_ s) in
    let s := set_registry registry s in
    if negb created then s
    else set_registry (Add (fun i => i) (Some id) (registry_ s)).2 s.

(** ** Snapshots *)

Definition ListenerSnapshot_default : TcpListener.ListenerSnapshot := TcpListener.mkListenerSnapshot TcpListener.Stopped 0 0 0 0.

(** The echo server has no executor in its snapshot. *)
Record ServerSnapshot := mkServerSnapshot {
  snapshot_state : ServerState;
  snapshot_listener : TcpListener.ListenerSnapshot;
  snapshot_registry : RegistrySnapshot;
  snapshot_executor : ExecutorSnapshot;
}.

Definition Server_Snapshot (s : Server) : ServerSnapshot :=
  mkServerSnapshot (state_ s)
    match listener_ s with Some l => TcpListener.Snapshot (TcpListener.listener l) | None => ListenerSnapshot_default end
    (ConnectionRegistry.Snapshot (registry_ s)) (ThreadPoolExecutor.Snapshot (pool_ s)).

Definition LocalPort (s : Server) : Z :=
  match listener_ s with Some l => TcpListener.snapshot_local_port (TcpListener.Snapshot (TcpListener.listener l)) | None => 0 end.

(** ** Steps *)

Definition stop_io (answer : nat -> Z) (i : IoContext.System) : IoContext.System :=
  let '(q, c) := IoContext.Stop answer (IoContext.context i) in
  IoContext.mkSystem c (IoContext.port_queue c (IoContext.queue i ++ q)) (IoContext.workers i) (IoContext.associated i)
    (IoContext.accepted i) (IoContext.started i) (IoContext.completed i).

Definition stop_listener (l : TcpListener.System) : TcpListener.System :=
  TcpListener.mkSystem (TcpListener.Stop (TcpListener.listener l)).2 (TcpListener.ops l) (TcpListener.next_op l) (TcpListener.delivered l).

Definition listener_stopped (s : Server) : bool :=
  match listener_ s with None => true | Some l => TcpListener.IsStopped (TcpListener.listener l) end.

Section program.
Context (program failed : list StopAction).

(** One action of [Stop].  The first section, the timeouts and the end are below. *)
Inductive action_step (c : Caller) : Server -> Server -> Prop :=
  | act_stop_listener s l rest : call s = Some (c, StopListener :: rest) -> listener_ s = Some l ->
      action_step c s (set_call (Some (c, rest)) (set_listener (stop_listener l) s))
  | act_wait_listener s a rest : call s = Some (c, a :: rest) -> a = WaitListener \/ a = TryWaitListener -> listener_stopped s = true ->
      action_step c s (set_call (Some (c, rest)) s)
  | act_connections s rest : call s = Some (c, CloseConnections :: rest) ->
      action_step c s (set_call (Some (c, CloseEach (Connections (registry_ s)) :: rest)) s)
  | act_close s id ids rest : call s = Some (c, CloseEach (id :: ids) :: rest) ->
      action_step c s (set_call (Some (c, CloseEach ids :: rest)) (ask id s))
  | act_closed s rest : call s = Some (c, CloseEach [] :: rest) -> action_step c s (set_call (Some (c, rest)) s)
  | act_wait_registry s a rest : call s = Some (c, a :: rest) -> a = WaitRegistry \/ a = TryWaitRegistry -> IsEmpty (registry_ s) = true ->
      action_step c s (set_call (Some (c, rest)) s)
  | act_stop_executor s mode rest : call s = Some (c, StopExecutor mode :: rest) ->
      action_step c s (set_call (Some (c, rest)) (set_pool (ThreadPoolExecutor.Stop mode (pool_ s)) s))
  | act_wait_executor s a rest : call s = Some (c, a :: rest) -> a = WaitExecutor \/ a = TryWaitExecutor ->
      ThreadPoolExecutor.IsStopped (pool_ s) = true -> action_step c s (set_call (Some (c, rest)) s)
  | act_join_executor s rest : call s = Some (c, JoinExecutor :: rest) ->
      action_step c s (set_call (Some (c, AwaitExecutor :: rest)) (set_pool (ThreadPoolExecutor.Join_begin (pool_ s)) s))
  | act_await_executor s rest : call s = Some (c, AwaitExecutor :: rest) -> ThreadPoolExecutor.joined (pool_ s) = true ->
      action_step c s (set_call (Some (c, rest)) s)
  | act_stop_io s answer rest : call s = Some (c, StopIo :: rest) ->
      action_step c s (set_call (Some (c, rest)) (set_io (stop_io answer (io_ s)) s))
  | act_join_io s rest : call s = Some (c, JoinIo :: rest) -> IoContext.Join false (IoContext.context (io_ s)) = Ok tt ->
      IoContext.joined (IoContext.workers (io_ s)) = true -> action_step c s (set_call (Some (c, rest)) s)
  (** A wait with [Try] goes on after the timeout. *)
  | act_try s a rest : call s = Some (c, a :: rest) -> a = TryWaitListener \/ a = TryWaitRegistry \/ a = TryWaitExecutor ->
      action_step c s (set_call (Some (c, rest)) s).

Definition is_stop (l : ThreadPoolExecutor.label) : bool := match l with ThreadPoolExecutor.DoStop _ => true | _ => false end.

(** [Start] and [Stop], the accepted connections, and what the components do on their own *)
Inductive step : Server -> Server -> Prop :=
  | step_start s logger o a p l : state_ s = Created -> TcpListener.Create logger true o a p = Ok l ->
      step s (set_listener (TcpListener.mkSystem l [TcpListener.mkOp 1 TcpListener.Pending] 2 []) (set_state Running s))
  | step_start_failed s logger o a p e : state_ s = Created -> TcpListener.Create logger true o a p = Throw e ->
      step s (set_call (Some (ByStart, failed)) (set_state Stopping s))
  | step_start_cleaned s : call s = Some (ByStart, []) -> step s (set_call None (set_state Stopped s))
  | step_stop_begin s : call s = None ->
      step s (match state_ s with
              | Stopped => return_ true s
              | Created => return_ true (set_state Stopped s)
              | _ => set_call (Some (ByStop, program)) (set_state Stopping s)
              end)
  | step_action c s s' : action_step c s s' -> step s s'
  | step_timeout_listener s rest : call s = Some (ByStop, WaitListener :: rest) -> listener_stopped s = false -> step s (return_ false s)
  | step_timeout_registry s rest : call s = Some (ByStop, WaitRegistry :: rest) -> IsEmpty (registry_ s) = false -> step s (return_ false s)
  | step_timeout_executor s rest : call s = Some (ByStop, WaitExecutor :: rest) -> ThreadPoolExecutor.IsStopped (pool_ s) = false ->
      step s (return_ false s)
  | step_stop_end s : call s = Some (ByStop, []) -> step s (return_ true (set_state Stopped s))
  | step_accepted s l i before after prepared created : listener_ s = Some l ->
      TcpListener.ops l = before ++ TcpListener.mkOp i TcpListener.Delivering :: after ->
      step s (set_listener (TcpListener.mkSystem (TcpListener.listener l) (before ++ TcpListener.mkOp i TcpListener.Finishing :: after)
                              (TcpListener.next_op l) (TcpListener.delivered l)) (OnAccepted prepared created s))
  (** A completion of the listener other than the return of the handler *)
  | step_listener s l l' : listener_ s = Some l -> TcpListener.completion_step l l' ->
      (forall i, TcpListener.mkOp i TcpListener.Delivering ∈ TcpListener.ops l -> TcpListener.mkOp i TcpListener.Delivering ∈ TcpListener.ops l') ->
      step s (set_listener l' s)
  (** A connection that is closed removes itself. *)
  | step_connection s id b n r : Remove id (registry_ s) = (b, n, r) -> step s (set_registry r s)
  | step_pool s l p : is_stop l = false -> ThreadPoolExecutor.pool_step (pool_ s) l p -> step s (set_pool p s)
  | step_io s i : IoContext.io_step (io_ s) i -> IoContext.context i = IoContext.context (io_ s) -> step s (set_io i s).

Inductive server_reachable : Server -> Prop :=
  | server_created logger io pool tasks timeout s : IoContext.io_reachable io -> initial pool ->
      Server_make logger (Ok io) (Ok pool) tasks timeout = Ok s -> server_reachable s
  | server_next s s' : server_reachable s -> step s s' -> server_reachable s'.
End program.

(** ** What the components keep *)

(** A listener that is stopped stays so. *)
Lemma stopped_no_step l l' : TcpListener.linv l -> TcpListener.IsStopped (TcpListener.listener l) = true -> ~ TcpListener.completion_step l l'.
Proof.
  intros Hl Hs Hst. apply bool_decide_eq_true in Hs. assert (TcpListener.ops l = []) as Ho.
  { apply (TcpListener.li_stopped l Hl); [by rewrite Hs|done]. }
  destruct Hst; match goal with E : TcpListener.ops _ = ?x ++ _ :: _ |- _ => rewrite Ho in E; by destruct x end.
Qed.

Lemma listener_stays l l' : TcpListener.linv l -> TcpListener.IsStopped (TcpListener.listener l) = true -> TcpListener.listener_step l l' ->
  TcpListener.IsStopped (TcpListener.listener l') = true.
Proof.
  intros Hl Hs Hst. destruct Hst as [l l' Hst|l b t E]; [by apply (stopped_no_step l l') in Hst|]. cbn.
  unfold TcpListener.Stop in E. unfold TcpListener.IsStopped in *. rewrite Hs in E. by injection E as _ <-.
Qed.

Lemma stop_listener_step l : TcpListener.listener_step l (stop_listener l).
Proof. unfold stop_listener. destruct (TcpListener.Stop (TcpListener.listener l)) as [b t] eqn:E. by eapply TcpListener.step_stop. Qed.

(** A pool that is stopped stays so. *)
Lemma pool_stopped_rests (p : ThreadPoolExecutor.ThreadPoolContext) : ThreadPoolExecutor.pinv p -> ThreadPoolExecutor.IsStopped p = true ->
  ThreadPoolExecutor.idle p = 0%nat /\ ThreadPoolExecutor.executing p = [] /\ ThreadPoolExecutor.joined p = true.
Proof.
  intros Hp Hs%bool_decide_eq_true. destruct (ThreadPoolExecutor.pi_stopped p Hp Hs) as [H0 _]. destruct (ThreadPoolExecutor.pi_live p Hp) as [Hl _].
  pose proof (zlen_nonneg (ThreadPoolExecutor.executing p)). assert (ThreadPoolExecutor.executing p = []) as He by (apply zlen_0; lia).
  rewrite He, zlen_nil in Hl. assert (ThreadPoolExecutor.idle p = 0%nat) as Hi by lia. split_and!; [done..|]. unfold ThreadPoolExecutor.joined.
  by rewrite Hi, He.
Qed.

Lemma pool_stays_stopped (p p' : ThreadPoolExecutor.ThreadPoolContext) l : ThreadPoolExecutor.pinv p -> ThreadPoolExecutor.IsStopped p = true ->
  ThreadPoolExecutor.pool_step p l p' -> ThreadPoolExecutor.IsStopped p' = true.
Proof.
  intros Hp Hs Hst. destruct (pool_stopped_rests p Hp Hs) as (Hi & He & _). unfold ThreadPoolExecutor.IsStopped in *.
  apply bool_decide_eq_true in Hs. apply bool_decide_eq_true.
  destruct Hst as [p t status p' E|p mode|p t p' Hn _|p p' Hn _|p t threw Hin]; [| |lia..|rewrite He in Hin; set_solver].
  - unfold ThreadPoolExecutor.Submit in E. injection E as E. unfold refusal in E. rewrite Hs in E. cbn in E. by injection E as _ <-.
  - unfold ThreadPoolExecutor.Stop. rewrite bool_decide_eq_true_2 by done. done.
Qed.

Lemma joined_split l x r : IoContext.joined (l ++ x :: r) = true -> x = IoContext.WorkerExited.
Proof. unfold IoContext.joined. rewrite forallb_app. cbn. intros [_ [H _]%andb_true_iff]%andb_true_iff. by destruct x. Qed.

(** Workers that have left stay away. *)
Lemma io_stays_joined i i' : IoContext.io_step i i' -> IoContext.joined (IoContext.workers i) = true -> IoContext.joined (IoContext.workers i') = true.
Proof.
  intros Hst Hj. destruct Hst as [i i' Hst| | | |]; try done. destruct Hst as [i p q l r a _ _ Ew _|i l r a _ Ew _|i l a r Ew];
    rewrite Ew in Hj; by apply joined_split in Hj.
Qed.

Lemma stop_io_step answer i : IoContext.io_step i (stop_io answer i).
Proof. unfold stop_io. destruct (IoContext.Stop answer (IoContext.context i)) as [q c] eqn:E. by eapply IoContext.step_stop. Qed.

Lemma stop_io_stopping answer i : IoContext.IsStopping (IoContext.context (stop_io answer i)) = true.
Proof.
  unfold stop_io, IoContext.IsStopping, IoContext.Stop. destruct (IoContext.stopping_ (IoContext.context i)) eqn:E; [done|].
  by destruct (IoContext.post_stops _ _ _).
Qed.

(** ** The invariant *)

Section program.
Context (program failed : list StopAction).

(** What an action of [Stop] achieves *)
Definition fact (a : StopAction) (s : Server) : Prop :=
  match a with
  | WaitListener => listener_stopped s = true
  | WaitRegistry => connections_ (registry_ s) = ∅
  | WaitExecutor => ThreadPoolExecutor.IsStopped (pool_ s) = true
  | StopIo => IoContext.IsStopping (IoContext.context (io_ s)) = true
  | JoinIo => IoContext.joined (IoContext.workers (io_ s)) = true
  | _ => True
  end.

(** What the actions that were done achieved holds. *)
Definition facts (rest : list StopAction) (s : Server) : Prop := forall a, a ∈ program -> a ∉ rest -> fact a s.

(** Once the connections were collected, all that are registered were asked to close, or will be. *)
Definition covered (rest : list StopAction) (s : Server) : Prop :=
  CloseConnections ∈ program -> CloseConnections ∉ rest -> forall id c, connections_ (registry_ s) !! id = Some c ->
  c ∈ asked s \/ exists ids r, rest = CloseEach ids :: r /\ c ∈ ids.

(** The part of the invariant that is about the server itself *)
Record own (s : Server) : Prop := {
  o_call : match call s with
           | Some (ByStop, rest) => state_ s = Stopping /\ facts rest s /\ covered rest s
           | Some (ByStart, _) => state_ s = Stopping /\ listener_ s = None
           | None => True
           end;
  o_created : state_ s = Created -> listener_ s = None /\ call s = None;
  o_stopped : state_ s = Stopped -> call s = None /\ (listener_ s = None \/ facts [] s);
  o_returned : true ∈ returned s -> state_ s = Stopped;
}.

Record sinv (s : Server) : Prop := {
  v_listener : forall l, listener_ s = Some l -> TcpListener.listener_reachable l;
  v_pool : reachable (pool_ s);
  v_io : IoContext.io_reachable (io_ s);
  v_own : own s;
}.

(** From [Stop] on *)
Definition closing (s : Server) : Prop := state_ s = Stopping \/ state_ s = Stopped.

Lemma OnAccepted_closing prepared created s : closing s -> OnAccepted prepared created s = s.
Proof. intros H. unfold OnAccepted. rewrite bool_decide_eq_false_2; [done|]. intros E. destruct H; congruence. Qed.

(** No connection is registered from [Stop] on. *)
Lemma connections_shrink s s' : closing s -> step program failed s s' ->
  connections_ (registry_ s') ⊆ connections_ (registry_ s) /\ closing s' /\ (forall id, id ∈ asked s -> id ∈ asked s').
Proof.
  intros Hc Hst. destruct Hst as [s lo o a p l Hs _|s lo o a p e Hs _|s Hcall|s Hcall|c s s' Hact|s rest _ _|s rest _ _|s rest _ _|s _
    |s l i b1 b2 pr cr Hl Ho|s l l' Hl _ _|s id b n r E|s lb p _ _|s i _ _]; try (destruct Hc; congruence); try done.
  - split_and!; [done|by right|done].
  - destruct (state_ s) eqn:Es; cbn; (split_and!; [done| |done]); unfold closing; cbn; rewrite ?Es; auto.
  - destruct Hact; (split_and!; [done|done|]); cbn; set_solver.
  - split_and!; [done|by right|done].
  - rewrite OnAccepted_closing by done. split_and!; done.
  - split_and!; [|done|done]. unfold Remove in E. cbn. destruct (connections_ (registry_ s) !! id); injection E as _ _ <-; [|done].
    cbn. apply delete_subseteq.
Qed.

(** What a step does to the components *)
Lemma OnAccepted_components prepared created s : pool_ (OnAccepted prepared created s) = pool_ s /\ io_ (OnAccepted prepared created s) = io_ s /\
  state_ (OnAccepted prepared created s) = state_ s /\ call (OnAccepted prepared created s) = call s /\ returned (OnAccepted prepared created s) = returned s.
Proof. unfold OnAccepted. destruct (negb (bool_decide _)), (negb prepared), (negb created); done. Qed.

Lemma listener_moves s s' : step program failed s s' -> listener_ s' = listener_ s \/
  (state_ s = Created /\ exists l, listener_ s' = Some l /\ TcpListener.listener_reachable l) \/
  exists l l', listener_ s = Some l /\ listener_ s' = Some l' /\ TcpListener.listener_step l l'.
Proof.
  intros Hst. destruct Hst as [s lo o a p l E Ec| | |s E|c s s' Hact| | | | |s l i b1 b2 pr cr El Ho|s l l' El Hst _| | |]; try (by left).
  - right; left. split; [done|]. eexists. split; [done|]. by eapply TcpListener.listener_created.
  - left. by destruct (state_ s).
  - destruct Hact as [s l rest _ El| | | | | | | | | | | |]; try (by left). right; right. exists l, (stop_listener l). split_and!; [done..|apply stop_listener_step].
  - right; right. eexists l, _. split_and!; [done..|]. apply TcpListener.step_completion. by apply TcpListener.step_returned.
  - right; right. exists l, l'. split_and!; [done..|]. by apply TcpListener.step_completion.
Qed.

Lemma pool_moves s s' : step program failed s s' -> pool_ s' = pool_ s \/ exists lb, ThreadPoolExecutor.pool_step (pool_ s) lb (pool_ s') /\
  (is_stop lb = false \/ exists mode, lb = ThreadPoolExecutor.DoStop mode /\
     (mode = Drain \/ exists c rest, call s = Some (c, StopExecutor mode :: rest))).
Proof.
  intros Hst. destruct Hst as [| | |s E|c s s' Hact| | | | |s l i b1 b2 pr cr El Ho| | |s lb p Hlb Hst|]; try (by left).
  - left. by destruct (state_ s).
  - destruct Hact as [| | | | | |s mode rest E| |s rest E| | | |]; try (by left); right; eexists; (split; [apply ThreadPoolExecutor.step_stop|]); right;
      eexists; (split; [done|]); eauto.
  - left. apply OnAccepted_components.
  - right. exists lb. auto.
Qed.

Lemma io_moves s s' : step program failed s s' -> io_ s' = io_ s \/ (exists answer, io_ s' = stop_io answer (io_ s)) \/
  (IoContext.io_step (io_ s) (io_ s') /\ IoContext.context (io_ s') = IoContext.context (io_ s)).
Proof.
  intros Hst. destruct Hst as [| | |s E|c s s' Hact| | | | |s l i b1 b2 pr cr El Ho| | | |]; try (by left).
  - left. by destruct (state_ s).
  - destruct Hact; eauto.
  - left. apply OnAccepted_components.
  - auto.
Qed.

Lemma registry_stays_empty s s' : closing s -> step program failed s s' -> connections_ (registry_ s) = ∅ -> connections_ (registry_ s') = ∅.
Proof.
  intros Hc Hst E. destruct (connections_shrink s s' Hc Hst) as [Hsub _]. rewrite E in Hsub. apply map_empty. intros i.
  destruct (connections_ (registry_ s') !! i) as [c|] eqn:Ei; [|done]. by apply (lookup_weaken _ _ _ _ Ei) in Hsub.
Qed.

Lemma fact_stable s s' a : sinv s -> closing s -> step program failed s s' -> fact a s -> fact a s'.
Proof.
  intros Hs Hc Hst Ha. destruct a; try done; cbn in *.
  - unfold listener_stopped in *. destruct (listener_moves s s' Hst) as [->|[[Hs0 _]|(l & l' & El & El' & Hl)]]; [done|destruct Hc; congruence|].
    rewrite El', El in *. eapply listener_stays; [|done|done]. by apply TcpListener.listener_linv, Hs.
  - by apply (registry_stays_empty s s').
  - destruct (pool_moves s s' Hst) as [->|(lb & Hp & _)]; [done|]. eapply pool_stays_stopped, Hp; [|done]. apply ThreadPoolExecutor.pool_pinv, Hs.
  - destruct (io_moves s s' Hst) as [->|[[answer ->]|[_ ->]]]; [done|apply stop_io_stopping|done].
  - destruct (io_moves s s' Hst) as [->|[[answer ->]|[Hi _]]]; [done| |by eapply io_stays_joined]. eapply io_stays_joined, Ha. apply stop_io_step.
Qed.

(** The components take their own steps. *)
Lemma components_step s s' : sinv s -> step program failed s s' ->
  (forall l, listener_ s' = Some l -> TcpListener.listener_reachable l) /\ reachable (pool_ s') /\ IoContext.io_reachable (io_ s').
Proof.
  intros [Hl Hp Hi _] Hst. split_and!.
  - intros k Ek. destruct (listener_moves s s' Hst) as [E|[(_ & l & E & H)|(l & l' & E & E' & H)]]; [apply Hl; congruence|congruence|].
    eapply TcpListener.listener_next; [by apply Hl|]. congruence.
  - destruct (pool_moves s s' Hst) as [->|(lb & H & _)]; [done|]. by eapply reach_step.
  - destruct (io_moves s s' Hst) as [->|[[answer ->]|[H _]]]; [done|..]; (eapply IoContext.io_next; [done|]); [apply stop_io_step|done].
Qed.

(** The facts after an action *)
Lemma facts_pop a rest rest' s s' : facts (a :: rest) s -> (forall b, b ∈ rest -> b ∈ rest') -> fact a s' ->
  (forall b, fact b s -> fact b s') -> facts rest' s'.
Proof.
  intros Hf Hin Ha Hst b Hb Hnb. destruct (decide (b = a)) as [->|Hne]; [done|]. apply Hst, Hf; [done|].
  rewrite elem_of_cons. intros [|]; [done|]. by apply Hnb, Hin.
Qed.

(** The connections after an action that leaves the registry alone *)
Lemma covered_pop a rest rest' s s' : covered (a :: rest) s -> a <> CloseConnections -> (forall ids, a <> CloseEach ids) ->
  (CloseConnections ∈ rest -> CloseConnections ∈ rest') -> connections_ (registry_ s') = connections_ (registry_ s) -> asked s' = asked s ->
  covered rest' s'.
Proof.
  intros Hc H1 H2 Hin Er Ea Hp Hn id c Hid. rewrite Er in Hid. rewrite Ea. destruct (Hc Hp) with (id := id) (c := c) as [|(ids & r & E & _)]; [|done| |].
  - rewrite elem_of_cons. intros [|]; [done|]. by apply Hn, Hin.
  - by left.
  - injection E as E _. by destruct (H2 ids).
Qed.

Lemma covered_shrink rest s s' : covered rest s -> connections_ (registry_ s') ⊆ connections_ (registry_ s) ->
  (forall id, id ∈ asked s -> id ∈ asked s') -> covered rest s'.
Proof.
  intros Hc Hsub Ha Hp Hn id c Hid. destruct (Hc Hp Hn id c) as [|H]; [by eapply lookup_weaken|left; by apply Ha|by right].
Qed.

Lemma facts_keep rest s s' : facts rest s -> (forall b, fact b s -> fact b s') -> facts rest s'.
Proof. intros Hf Hst b Hb Hn. by apply Hst, Hf. Qed.

(** What an action does to the rest of the call *)
Lemma action_ok c s s' rest : sinv s -> closing s -> action_step c s s' -> call s = Some (c, rest) -> facts rest s -> covered rest s ->
  exists rest', call s' = Some (c, rest') /\ facts rest' s' /\ covered rest' s'.
Proof.
  intros Hs Hc Hact Ecall Hf Hcov.
  assert (Hst : forall b, fact b s -> fact b s') by (intros b; apply (fact_stable s s' b Hs Hc); by eapply step_action).
  destruct Hact as [s l rs E _|s a rs E Ha El|s rs E|s id ids rs E|s rs E|s a rs E Ha Er|s mode rs E|s a rs E Ha Ep|s rs E|s rs E _
    |s an rs E|s rs E _ Ej|s a rs E Ha]; rewrite Ecall in E; injection E as ->; (eexists; split; [reflexivity|split]).
  all: try (eapply covered_pop; [done|naive_solver..|done|done]).
  all: try (eapply facts_pop; [done|set_solver|by apply stop_io_stopping|done]).
  all: try (eapply facts_pop; [done|set_solver|naive_solver|done]).
  - intros Hp Hn id d Hid. right. eexists _, _. split; [done|]. cbn in Hid. apply list_elem_of_fmap. exists (id, d). split; [done|].
    by apply elem_of_map_to_list.
  - intros Hp Hn k d Hk. cbn in Hk |- *. destruct (Hcov Hp) with (id := k) (c := d) as [|(ids' & r & [= <- <-] & Hin)].
    + rewrite not_elem_of_cons in *. naive_solver.
    + done.
    + left. set_solver.
    + apply elem_of_cons in Hin as [->|Hin]; [left; set_solver|right; eauto].
  - intros Hp Hn k d Hk. destruct (Hcov Hp) with (id := k) (c := d) as [|(ids' & r & [= <- <-] & Hin)]; [|done|by left|set_solver].
    rewrite not_elem_of_cons. split; [done|done].
  - eapply facts_pop; [done|done| |done]. destruct Ha as [->| ->]; [by apply bool_decide_eq_true in Er|done].
  - eapply covered_pop; [done|done|done|set_solver|done|done].
Qed.

Lemma call_closing s : sinv s -> call s <> None -> closing s.
Proof. intros Hs Hn. pose proof (o_call s (v_own s Hs)) as H. left. destruct (call s) as [[[] rest]|]; [apply H..|done]. Qed.

(** A step that is not of [Start] or [Stop] *)
Lemma external_own s s' : sinv s -> step program failed s s' -> state_ s' = state_ s -> call s' = call s -> returned s' = returned s ->
  (listener_ s = None -> listener_ s' = None) -> own s'.
Proof.
  intros Hs Hst Es Ec Er El. assert (Hf : closing s -> forall rest, facts rest s -> facts rest s').
  { intros Hc rest Hf b Hb Hn. apply (fact_stable s s' b); [done..|]. by apply Hf. }
  split; rewrite ?Es, ?Ec, ?Er.
  - pose proof (o_call s (v_own s Hs)) as H. pose proof (call_closing s Hs) as Hc. destruct (call s) as [[[] rest]|]; [|naive_solver|done].
    destruct H as (H1 & H2 & H3). destruct (connections_shrink s s') as (Hsub & _ & Ha); [by apply Hc|done|].
    split_and!; [done|apply Hf; [by apply Hc|done]|by eapply covered_shrink].
  - intros H. destruct (o_created s (v_own s Hs) H). auto.
  - intros H. destruct (o_stopped s (v_own s Hs) H) as [? [?|?]]; (split; [done|]); [by left; apply El|right]. apply Hf; [by right|done].
  - apply (v_own s Hs).
Qed.

Lemma not_returned s : sinv s -> state_ s <> Stopped -> true ∉ returned s.
Proof. intros Hs Hn Hin. by apply Hn, (o_returned s (v_own s Hs)). Qed.

(** An action of the call *)
Lemma action_own c s s' : sinv s -> action_step c s s' -> own s'.
Proof.
  intros Hs Hact. assert (exists rest, call s = Some (c, rest)) as [rest Ecall] by (destruct Hact; eauto).
  assert (Hc : closing s) by (apply call_closing; [done|by rewrite Ecall]).
  assert (state_ s = Stopping) as Es by (pose proof (o_call s (v_own s Hs)) as H; rewrite Ecall in H; destruct c; apply H).
  assert (state_ s' = Stopping /\ returned s' = returned s) as [Es' Er] by (destruct Hact; done).
  split; [|congruence..|by rewrite Er; intros []%not_returned; [|congruence]]. destruct c.
  - pose proof (o_call s (v_own s Hs)) as H. rewrite Ecall in H. destruct H as (_ & Hf & Hcov).
    destruct (action_ok ByStop s s' rest) as (rest' & -> & ? & ?); done.
  - pose proof (o_call s (v_own s Hs)) as H. rewrite Ecall in H. destruct H as (_ & Hl). destruct Hact; cbn in *; try (by split). congruence.
Qed.

Lemma timeout_own s rest : sinv s -> call s = Some (ByStop, rest) -> own (return_ false s).
Proof.
  intros Hs E. pose proof (o_call s (v_own s Hs)) as H. rewrite E in H. destruct H as [Es _]. split; cbn; [done|congruence..|].
  intros [Hin|?%list_elem_of_singleton]%elem_of_app; [|done]. destruct (not_returned s Hs); [congruence|done].
Qed.

Lemma sinv_step s s' : sinv s -> step program failed s s' -> sinv s'.
Proof.
  intros Hs Hst. destruct (components_step s s' Hs Hst) as (Hl & Hp & Hi). split; [done..|]. clear Hl Hp Hi.
  pose proof (external_own s s' Hs Hst) as Hext. pose proof (not_returned s Hs) as Hret. pose proof (o_call s (v_own s Hs)) as Hcall.
  destruct Hst as [s lo o a p l E _|s lo o a p e E _|s E|s E|c s s' Hact|s rest E _|s rest E _|s rest E _|s E
    |s l i b1 b2 pr cr El Ho|s l l' El Hst _|s id b n r E|s lb p _ Hst|s i Hst _].
  - destruct (o_created s (v_own s Hs) E) as [_ Hn]. split; cbn; [by rewrite Hn|done..|]. intros []%Hret. congruence.
  - destruct (o_created s (v_own s Hs) E) as [Hn _]. split; cbn; [done..|]. intros []%Hret. congruence.
  - rewrite E in Hcall. destruct Hcall as [_ Hn]. split; cbn; [done..|by auto|done].
  - pose proof (v_own s Hs) as [_ Ho Hd _]. destruct (state_ s) eqn:Es.
    + split; cbn; [done..| |done]. intros _. split; [done|]. left. by apply Ho.
    + split; cbn; [split_and!; [done|intros ?? []; done|intros ? []; done]|done..|]. intros []%Hret. done.
    + split; cbn; [split_and!; [done|intros ?? []; done|intros ? []; done]|done..|]. intros []%Hret. done.
    + split; cbn; [done|congruence| |done]. intros _. split; [done|]. by apply Hd.
  - by eapply action_own.
  - by eapply timeout_own.
  - by eapply timeout_own.
  - by eapply timeout_own.
  - rewrite E in Hcall. destruct Hcall as (Es & Hf & _). split; cbn; [done..| |done]. intros _. split; [done|by right].
  - pose proof (OnAccepted_components pr cr s) as (_ & _ & H1 & H2 & H3). apply Hext; [done..|by rewrite El].
  - apply Hext; try done. by rewrite El.
  - by apply Hext.
  - by apply Hext.
  - by apply Hext.
Qed.

Lemma server_sinv s : server_reachable program failed s -> sinv s.
Proof.
  induction 1 as [logger io pool tasks timeout s Hio Hp E|s s' _ IH Hst]; [|by eapply sinv_step]. unfold Server_make in E. cbn in E.
  unfold throw_if in E. destruct logger, (tasks =? 0), (timeout <=? 0); try discriminate E. injection E as <-.
  split; [done|by apply reach_initial|done|]. split; cbn; [done..|]. set_solver.
Qed.

(** *** How far [Stop] is *)

(** The rest of a call is an end of the program, perhaps behind an action in progress. *)
Inductive stage : list StopAction -> Prop :=
  | stage_suffix r : r `suffix_of` program -> stage r
  | stage_close ids r : CloseConnections :: r `suffix_of` program -> stage (CloseEach ids :: r)
  | stage_await r : JoinExecutor :: r `suffix_of` program -> stage (AwaitExecutor :: r).

(** [Stop] drains, and the actions in progress are not in the program. *)
Definition plain : Prop := (StopExecutor CancelPending ∉ program) /\ forall ids, CloseEach ids ∉ program.

Record staged (s : Server) : Prop := {
  g_stage : forall rest, call s = Some (ByStop, rest) -> stage rest;
  g_listener : state_ s = Running \/ state_ s = Stopping -> listener_ s = None -> exists rest, call s = Some (ByStart, rest);
  g_drain : state_ s = Created \/ listener_ s <> None -> Executor.stop_mode_ (ThreadPoolExecutor.core (pool_ s)) = Drain;
}.

Lemma suffix_tail (a : StopAction) r : a :: r `suffix_of` program -> r `suffix_of` program.
Proof. apply suffix_cons_l. Qed.

Lemma stage_pop a rest : stage (a :: rest) -> stage rest.
Proof. intros H. inversion H; apply stage_suffix; by eapply suffix_tail. Qed.

Lemma stage_action c s s' rest : (forall ids, CloseEach ids ∉ program) -> action_step c s s' -> call s = Some (c, rest) -> stage rest ->
  exists rest', call s' = Some (c, rest') /\ stage rest'.
Proof.
  intros Hplain Hact E Hg. destruct Hact as [s l rs E'|s a rs E'|s rs E'|s id ids rs E'|s rs E'|s a rs E'|s mode rs E'|s a rs E'|s rs E'|s rs E'
    |s an rs E'|s rs E'|s a rs E']; rewrite E in E'; injection E' as ->; (eexists; split; [reflexivity|]); try (by eapply stage_pop).
  - apply stage_close. by inversion Hg.
  - inversion Hg as [? Hr|? ? Hr|]; subst; [|by apply stage_close]. destruct Hplain with (ids := id :: ids). destruct Hr as [k ->]. set_solver.
  - apply stage_await. by inversion Hg.
Qed.

(** Only a stop changes the mode, and a stop for draining keeps it. *)
Lemma pool_step_mode p lb p' : ThreadPoolExecutor.pool_step p lb p' -> is_stop lb = false \/ lb = ThreadPoolExecutor.DoStop Drain ->
  Executor.stop_mode_ (ThreadPoolExecutor.core p) = Drain -> Executor.stop_mode_ (ThreadPoolExecutor.core p') = Drain.
Proof.
  intros Hst Hlb Hm. destruct Hst as [p t status p' E|p mode|p t p' _ E|p p' _ E|p t threw _]; cbn in *; [|destruct Hlb as [|[= ->]]; [done|]|..|done].
  - unfold ThreadPoolExecutor.Submit in E. destruct (refusal _); by injection E as _ <-.
  - unfold ThreadPoolExecutor.Stop, select_mode, cancel_pending. repeat case_match; simplify_eq/=; try done.
    all: congruence.
  - unfold ThreadPoolExecutor.WorkerMain_next, take_front in E. repeat case_match; simplify_eq/=; done.
  - unfold ThreadPoolExecutor.WorkerMain_next in E. repeat case_match; simplify_eq/=; done.
Qed.

Lemma stage_mode mode rest : (StopExecutor CancelPending ∉ program) -> stage (StopExecutor mode :: rest) -> mode = Drain.
Proof.
  intros Hd H. inversion H as [? [k Hr]| |]. destruct mode; [done|]. destruct Hd. rewrite Hr. set_solver.
Qed.

Lemma staged_drain s s' : plain -> sinv s -> staged s -> step program failed s s' ->
  (state_ s' = Created \/ listener_ s' <> None -> state_ s = Created \/ listener_ s <> None) ->
  state_ s' = Created \/ listener_ s' <> None -> Executor.stop_mode_ (ThreadPoolExecutor.core (pool_ s')) = Drain.
Proof.
  intros Hd Hs Hg Hst Hb Hn. specialize (Hb Hn). pose proof (g_drain s Hg Hb) as Hm.
  destruct (pool_moves s s' Hst) as [->|(lb & Hp & Hlb)]; [done|]. eapply pool_step_mode; [done| |done].
  destruct Hlb as [|(mode & -> & [->|(c & rest & Ec)])]; [by left|by right|right]. f_equal. destruct c.
  - eapply stage_mode; [apply Hd|]. by apply (g_stage s Hg).
  - pose proof (o_call s (v_own s Hs)) as Hc. rewrite Ec in Hc. destruct Hb; [|by destruct Hc]. destruct Hc. congruence.
Qed.

Lemma staged_step s s' : plain -> sinv s -> staged s -> step program failed s s' -> staged s'.
Proof.
  intros Hd Hs Hg Hst. pose proof (staged_drain s s' Hd Hs Hg Hst) as Hdr. pose proof Hg as [Hg1 Hg2 _].
  pose proof (o_call s (v_own s Hs)) as Hcall. pose proof (o_created s (v_own s Hs)) as Hcr.
  destruct Hst as [s lo o a p l E _|s lo o a p e E _|s E|s E|c s s' Hact|s rest E _|s rest E _|s rest E _|s E
    |s l i b1 b2 pr cr El Ho|s l l' El Hst _|s id b n r E|s lb p _ Hst|s i Hst _].
  - split; cbn; [|done|apply Hdr; auto]. destruct (Hcr E) as [_ ->]. done.
  - split; cbn; [done|eauto|]. apply Hdr. cbn. intros [|]; auto.
  - split; cbn; [done|naive_solver|]. apply Hdr. cbn. intros [|]; auto.
  - destruct (state_ s) eqn:Es.
    + split; cbn; [done|intros [|]; done|]. apply Hdr. auto.
    + split; cbn; [intros rest [= <-]; apply stage_suffix; done| |apply Hdr; cbn; intros [|]; auto; done].
      intros _ Hn. destruct (Hg2 (or_introl eq_refl) Hn). congruence.
    + split; cbn; [intros rest [= <-]; apply stage_suffix; done| |apply Hdr; cbn; intros [|]; auto; done].
      intros _ Hn. destruct (Hg2 (or_intror eq_refl) Hn). congruence.
    + split; cbn; [done|rewrite Es; intros [|]; done|]. apply Hdr. cbn. rewrite Es. done.
  - assert (exists rest, call s = Some (c, rest)) as [rest E] by (destruct Hact; eauto).
    assert (state_ s' = state_ s /\ (listener_ s' = None <-> listener_ s = None) /\ exists rest', call s' = Some (c, rest')) as (H1 & H2 & H3).
    { destruct Hact as [s l rs _ El| | | | | | | | | | | |]; (split_and!; [done|try done; cbn; by rewrite ?El|by eexists]). }
    split; [| |apply Hdr; rewrite H1; intros [|Hl]; [by left|right; by rewrite <- H2]].
    + intros r Er. destruct H3 as [r' E3]. rewrite Er in E3. injection E3 as <- <-.
      destruct (stage_action ByStop s s' rest (proj2 Hd) Hact E (Hg1 _ E)) as (r'' & E3 & Hr). congruence.
    + rewrite H1. intros Ho Hn. destruct (Hg2 Ho (proj1 H2 Hn)) as [r Er]. rewrite E in Er. injection Er as -> _. exact H3.
  - split; cbn; [done| |by apply Hdr]. intros Ho Hn. destruct (Hg2 Ho Hn). congruence.
  - split; cbn; [done| |by apply Hdr]. intros Ho Hn. destruct (Hg2 Ho Hn). congruence.
  - split; cbn; [done| |by apply Hdr]. intros Ho Hn. destruct (Hg2 Ho Hn). congruence.
  - split; cbn; [done|naive_solver|]. apply Hdr. cbn. intros [|]; auto.
  - pose proof (OnAccepted_components pr cr s) as (_ & _ & H1 & H2 & H3). split; [|done|apply Hdr]; cbn; rewrite ?H1, ?H2; [done|].
    rewrite El. naive_solver.
  - split; [done|done|apply Hdr]; cbn. rewrite El. naive_solver.
  - split; [done..|by apply Hdr].
  - split; [done..|by apply Hdr].
  - split; [done..|by apply Hdr].
Qed.

Lemma spawn_workers_mode n spawn : forall p p', ThreadPoolExecutor.spawn_workers n spawn p = Some p' -> ThreadPoolExecutor.core p' = ThreadPoolExecutor.core p.
Proof. induction n as [|n IH]; cbn; intros p p' E; [congruence|]. destruct (spawn _); [|done]. by apply IH in E. Qed.

Lemma server_staged s : plain -> server_reachable program failed s -> staged s.
Proof.
  intros Hd. induction 1 as [logger io pool tasks timeout s Hio Hp E|s s' Hr IH Hst]; [|eapply staged_step; [done| |done..]; by apply server_sinv].
  unfold Server_make in E. cbn in E. unfold throw_if in E. destruct logger, (tasks =? 0), (timeout <=? 0); try discriminate E. injection E as <-.
  split; cbn; [done|naive_solver|]. intros _. destruct Hp as (w & n & h & spawn & _ & _ & Hm). unfold ThreadPoolExecutor.ThreadPoolContext_make in Hm.
  destruct (w =? 0), (n =? 0), (max_thread_vector <? w); try discriminate Hm. destruct (ThreadPoolExecutor.spawn_workers _ _ _) eqn:Ew; [|done]. injection Hm as <-.
  by rewrite (spawn_workers_mode _ _ _ _ Ew).
Qed.
End program.

(** ** What the servers promise *)

(** The two servers: what [Stop] does, and what the handler in [Start] does *)
Definition servers : list (list StopAction * list StopAction) := [(http_stop, http_start_failed); (echo_stop, echo_start_failed)].

Lemma servers_inv (P : list StopAction -> list StopAction -> Prop) : P http_stop http_start_failed -> P echo_stop echo_start_failed ->
  forall p f, (p, f) ∈ servers -> P p f.
Proof. intros H1 H2 p f Hin. repeat (apply elem_of_cons in Hin as [[= -> ->]|Hin]; [done|]). by apply not_elem_of_nil in Hin. Qed.

Lemma servers_plain p f : (p, f) ∈ servers -> plain p.
Proof. revert p f. apply servers_inv; (split; [|intros ids]); unfold http_stop, echo_stop; rewrite !not_elem_of_cons; split_and!; (done || apply not_elem_of_nil). Qed.

Lemma servers_waits p f : (p, f) ∈ servers ->
  WaitListener ∈ p /\ WaitRegistry ∈ p /\ CloseConnections ∈ p /\ StopIo ∈ p /\ JoinIo ∈ p /\ (p = http_stop -> WaitExecutor ∈ p).
Proof. revert p f. apply servers_inv; split_and!; try (intros [=]); try intros _; apply (bool_decide_unpack _); vm_compute; done. Qed.

(** A pool that stopped for draining ran all the tasks it accepted. *)
Lemma drained_tasks (p : ThreadPoolExecutor.ThreadPoolContext) : reachable p -> ThreadPoolExecutor.IsStopped p = true ->
  Executor.stop_mode_ (ThreadPoolExecutor.core p) = Drain ->
  ThreadPoolExecutor.joined p = true /\ accepted_of (ThreadPoolExecutor.log p) ≡ₚ finished_of (ThreadPoolExecutor.log p).
Proof.
  intros Hr Hs Hm. pose proof (ThreadPoolExecutor.pool_pinv p Hr) as Hp. split; [by apply pool_stopped_rests|].
  apply bool_decide_eq_true in Hs. pose proof (ThreadPoolExecutor.pool_rests p Hp Hs) as [Ht Hx].
  pose proof (core_contract _ _ _ 0 (ThreadPoolExecutor.pi_core _ Hp) (ThreadPoolExecutor.pool_rests p Hp)) as [Ct Cr _ _ _ _ _ _ Cc].
  cbn [v_log v_pending v_running v_mode v_snapshot] in Ct, Cr, Cc. rewrite Ht, app_nil_r in Ct. rewrite Hx, app_nil_r in Cr. rewrite Ct, Cr.
  destruct (cancelled_of (ThreadPoolExecutor.log p)); [by rewrite app_nil_r|]. destruct Cc as [Cm _]; [done|]. congruence.
Qed.

(** C16. When [Stop] of a server that was started has returned [true], nothing of the server is
    left: the listening socket is closed and no accept is outstanding, no connection is
    registered, as the snapshot says, every worker of the I/O context has left, and, for the HTTP
    server, all workers of the executor have left and every task that it accepted has run to its
    end.  This stays so whatever happens later, in particular when [Stop] is called again. *)
Theorem server_shutdown p f s l : (p, f) ∈ servers -> server_reachable p f s -> listener_ s = Some l -> true ∈ returned s ->
  state_ s = Stopped /\ call s = None /\
  TcpListener.ops l = [] /\ TcpListener.listen_socket_ (TcpListener.listener l) = false /\
  connections_ (registry_ s) = ∅ /\
  IoContext.joined (IoContext.workers (io_ s)) = true /\
  TcpListener.snapshot_outstanding_accepts (snapshot_listener (Server_Snapshot s)) = 0 /\
  active_connections (snapshot_registry (Server_Snapshot s)) = 0 /\
  (p = http_stop -> ThreadPoolExecutor.joined (pool_ s) = true /\
     accepted_of (ThreadPoolExecutor.log (pool_ s)) ≡ₚ finished_of (ThreadPoolExecutor.log (pool_ s))).
Proof.
  intros Hin Hr El Hret. pose proof (server_sinv p f s Hr) as Hs. pose proof (server_staged p f s (servers_plain p f Hin) Hr) as Hg.
  pose proof (o_returned p s (v_own p s Hs) Hret) as Es. destruct (o_stopped p s (v_own p s Hs) Es) as [Hc [|Hf]]; [congruence|].
  destruct (servers_waits p f Hin) as (W1 & W2 & _ & _ & W5 & W6).
  assert (Hl : TcpListener.IsStopped (TcpListener.listener l) = true).
  { pose proof (Hf _ W1 (not_elem_of_nil _)) as H. cbn in H. unfold listener_stopped in H. by rewrite El in H. }
  pose proof (TcpListener.listener_linv l (v_listener p s Hs l El)) as Hi. apply bool_decide_eq_true in Hl.
  assert (Ho : TcpListener.ops l = []) by (apply (TcpListener.li_stopped l Hi); [by rewrite Hl|done]).
  pose proof (Hf _ W2 (not_elem_of_nil _)) as He. cbn in He.
  split_and!; [done|done|done| |done|apply (Hf _ W5), not_elem_of_nil|..].
  - rewrite (TcpListener.li_socket l Hi), Hl. done.
  - unfold Server_Snapshot. rewrite El. cbn. by rewrite (TcpListener.li_count l Hi), Ho.
  - cbn. by rewrite He, map_size_empty.
  - intros Hp. apply drained_tasks; [apply Hs|apply (Hf _ (W6 Hp)), not_elem_of_nil|]. apply (g_drain p s Hg). right. by rewrite El.
Qed.

(** *** The connections *)

(** Where a wait is in the program *)
Lemma servers_stage p f a rest : (p, f) ∈ servers -> stage p (a :: rest) ->
  (a = WaitRegistry -> CloseConnections ∉ a :: rest) /\ (a = AwaitExecutor -> WaitExecutor ∈ p /\ WaitExecutor ∉ a :: rest) /\
  (a = JoinIo -> (StopIo ∉ a :: rest) /\ rest = []).
Proof.
  intros Hin Hst. revert p f Hin Hst.
  refine (servers_inv (fun p _ => (stage p (a :: rest) -> _)) _ _); intros Hst; inversion Hst as [r [k Hk]|ids r [k Hk]|r [k Hk]]; subst; clear Hst;
    unfold http_stop, echo_stop in *; repeat (destruct k as [|? k]; [try discriminate Hk|injection Hk as _ Hk]); try (by destruct k);
    first [injection Hk as <- <-|injection Hk as <-].
  all: split; [|split]; intros E; try discriminate E; clear E; try split; try reflexivity; apply (bool_decide_unpack _); vm_compute; done.
Qed.

Lemma closing_steps p f s s' : closing s -> rtc (step p f) s s' -> connections_ (registry_ s') ⊆ connections_ (registry_ s) /\ closing s'.
Proof.
  intros Hc Hst. induction Hst as [s|s t s' H _ IH]; [by split|]. destruct (connections_shrink p f s t Hc H) as (Hsub & Hc' & _).
  destruct (IH Hc') as [Hsub' ?]. split; [by etrans|done].
Qed.

Lemma server_steps_reachable p f s s' : server_reachable p f s -> rtc (step p f) s s' -> server_reachable p f s'.
Proof. intros Hr Hst. induction Hst as [|s t s' H _ IH]; [done|]. by apply IH, (server_next p f s). Qed.

(** From the first critical section of [Stop] on, no connection is registered any more,
    even by handlers of the listener that still run; and when [Stop] waits for the registry,
    every connection that is still registered was asked to close, so that the wait is for
    connections that are closing and for no other. *)
Theorem stop_closes_connections p f s s' rest : (p, f) ∈ servers -> server_reachable p f s -> closing s -> rtc (step p f) s s' ->
  connections_ (registry_ s') ⊆ connections_ (registry_ s) /\
  (call s' = Some (ByStop, WaitRegistry :: rest) -> forall id c, connections_ (registry_ s') !! id = Some c -> c ∈ asked s').
Proof.
  intros Hin Hr Hc Hst. destruct (closing_steps p f s s' Hc Hst) as [Hsub _]. split; [done|]. intros E id c Hid.
  pose proof (server_steps_reachable p f s s' Hr Hst) as Hr'. pose proof (server_sinv p f s' Hr') as Hs'.
  pose proof (server_staged p f s' (servers_plain p f Hin) Hr') as Hg. pose proof (g_stage p s' Hg _ E) as Hstage.
  pose proof (o_call p s' (v_own p s' Hs')) as H. rewrite E in H. destruct H as (_ & _ & Hcov).
  destruct (servers_waits p f Hin) as (_ & _ & W & _).
  destruct (Hcov W (proj1 (servers_stage p f _ rest Hin Hstage) eq_refl) id c Hid) as [|(ids & r & [=] & _)]. done.
Qed.

(** *** Progress *)

(** The steps that a call has left *)
Definition action_work (n : nat) (a : StopAction) : nat :=
  match a with CloseConnections => 2 + n | CloseEach ids => 1 + length ids | JoinExecutor => 2 | _ => 1 end.
Definition call_work (s : Server) : nat :=
  match call s with Some (_, rest) => 1 + weight (action_work (size (connections_ (registry_ s)))) rest | None => 0 end.

Lemma weight_mono rest n m : (n <= m)%nat -> (weight (action_work n) rest <= weight (action_work m) rest)%nat.
Proof. intros H. induction rest as [|a rest IH]; [done|]. rewrite !weight_cons. destruct a; cbn; lia. Qed.

Lemma Connections_length r : length (Connections (Connection := Z) r) = size (connections_ r).
Proof. unfold Connections. rewrite length_fmap. apply length_map_to_list. Qed.

Lemma action_less c s s' : action_step c s s' -> (call_work s' < call_work s)%nat.
Proof.
  intros Hact. unfold call_work. destruct Hact as [s l rs E|s a rs E Ha|s rs E|s id ids rs E|s rs E|s a rs E Ha|s mode rs E|s a rs E Ha|s rs E|s rs E
    |s an rs E|s rs E|s a rs E Ha]; rewrite E, weight_cons; cbn [call set_call set_listener set_pool set_io ask registry_]; rewrite ?weight_cons;
    cbn [action_work length]; rewrite ?Connections_length; try lia; destruct a; cbn [action_work]; lia.
Qed.

Lemma work_kept s s' : call s' = call s -> connections_ (registry_ s') ⊆ connections_ (registry_ s) -> (call_work s' <= call_work s)%nat.
Proof.
  intros E Hsub%map_subseteq_size. unfold call_work. rewrite E. destruct (call s) as [[c rest]|]; [|done]. pose proof (weight_mono rest _ _ Hsub). lia.
Qed.

Lemma work_step p f s s' : closing s -> call s <> None -> step p f s s' -> (call_work s' <= call_work s)%nat.
Proof.
  intros Hc Hn Hst. destruct (connections_shrink p f s s' Hc Hst) as [Hsub _]. pose proof (work_kept s s') as Hk.
  destruct Hst as [s lo o a q l E _|s lo o a q e E _|s E|s E|c s s' Hact|s rest E _|s rest E _|s rest E _|s E
    |s l i b1 b2 pr cr El Ho|s l l' El Hst _|s id b n r E|s lb q _ Hst|s i Hst _]; try (by apply Hk); try (cbn; lia).
  - destruct Hc; congruence.
  - apply action_less in Hact. lia.
  - apply Hk; [|done]. cbn. apply (OnAccepted_components pr cr s).
Qed.

(** A call can go on, but for the wait for the I/O workers, which can. *)
Lemma action_possible p f s a rest : sinv p s -> call s = Some (ByStop, a :: rest) -> listener_ s <> None ->
  (a = AwaitExecutor -> ThreadPoolExecutor.IsStopped (pool_ s) = true) -> (a = JoinIo -> IoContext.IsStopping (IoContext.context (io_ s)) = true) ->
  (exists s', step p f s s' /\ (call_work s' < call_work s)%nat) \/ (a = JoinIo /\ exists i, IoContext.worker_step (io_ s) i).
Proof.
  intros Hs E Hl Hx Hi.
  assert (Hact : forall s', action_step ByStop s s' -> exists s', step p f s s' /\ (call_work s' < call_work s)%nat).
  { intros s' H. exists s'. split; [by apply (step_action p f ByStop)|by apply action_less in H]. }
  assert (Hret : step p f s (return_ false s) -> exists s', step p f s s' /\ (call_work s' < call_work s)%nat).
  { intros H. eexists. split; [done|]. unfold call_work. rewrite E. cbn. lia. }
  destruct a; try (left; eapply Hact; first [by apply (act_stop_io _ _ (fun _ => 0))|by (econstructor; eauto; fail)]).
  - destruct (listener_ s) as [l|] eqn:El; [|done]. left. eapply Hact. by eapply act_stop_listener.
  - left. destruct (listener_stopped s) eqn:Hw; [eapply Hact; eapply act_wait_listener; eauto|]. by apply Hret, (step_timeout_listener p f s rest).
  - left. destruct ids; eapply Hact; [by eapply act_closed|by eapply act_close].
  - left. destruct (IsEmpty (registry_ s)) eqn:Hw; [eapply Hact; eapply act_wait_registry; eauto|]. by apply Hret, (step_timeout_registry p f s rest).
  - left. destruct (ThreadPoolExecutor.IsStopped (pool_ s)) eqn:Hw; [eapply Hact; eapply act_wait_executor; eauto|].
    by apply Hret, (step_timeout_executor p f s rest).
  - left. eapply Hact, act_await_executor; [done|]. apply pool_stopped_rests; [apply ThreadPoolExecutor.pool_pinv, Hs|by apply Hx].
  - destruct (IoContext.stopping_progress (io_ s)) as [Hj|]; [apply IoContext.io_iinv, Hs|by apply Hi| |by right].
    left. eapply Hact, act_join_io; [done| |done]. unfold IoContext.Join. by rewrite Hi.
Qed.

(** C17. A call of [Stop] is never stuck and gets to its end: it has the listener it uses, no step
    of the rest of the server puts its end farther away, and it can always go on, by itself or
    because its time is over.  The one exception is the join of the I/O workers, which has no
    timeout: there a worker can take a step, and they take finitely many. *)
Theorem stop_progress p f s rest : (p, f) ∈ servers -> server_reachable p f s -> call s = Some (ByStop, rest) ->
  listener_ s <> None /\
  (forall s', step p f s s' -> (call_work s' <= call_work s)%nat) /\
  ((exists s', step p f s s' /\ (call_work s' < call_work s)%nat) \/
   (rest = [JoinIo] /\ IoContext.IsStopping (IoContext.context (io_ s)) = true /\ exists i, IoContext.worker_step (io_ s) i)).
Proof.
  intros Hin Hr E. pose proof (server_sinv p f s Hr) as Hs. pose proof (server_staged p f s (servers_plain p f Hin) Hr) as Hg.
  pose proof (o_call p s (v_own p s Hs)) as H. rewrite E in H. destruct H as (Es & Hf & _).
  assert (Hl : listener_ s <> None) by (intros Hn; destruct (g_listener p s Hg) as [r Er]; [by right|done|congruence]).
  split_and!; [done|intros s'; apply work_step; [by left|by rewrite E]|]. destruct rest as [|a rest].
  - left. eexists. split; [by apply step_stop_end|]. unfold call_work. rewrite E. cbn. lia.
  - destruct (servers_stage p f a rest Hin) as (_ & H1 & H2); [by apply (g_stage p s Hg)|].
    destruct (servers_waits p f Hin) as (_ & _ & _ & W & _).
    assert (Hi : a = JoinIo -> IoContext.IsStopping (IoContext.context (io_ s)) = true) by (intros Ha; apply (Hf _ W), (H2 Ha)).
    destruct (action_possible p f s a rest Hs E Hl) as [|[Ha Hw]]; [|done|by left|].
    + intros Ha. destruct (H1 Ha) as [Hp Hn]. apply (Hf _ Hp Hn).
    + right. destruct (H2 Ha) as [_ ->]. rewrite Ha in *. split_and!; [done|by apply Hi|done].
Qed.

(** ** Runs *)

Definition sample_pool : ThreadPoolExecutor.ThreadPoolContext :=
  ThreadPoolExecutor.mkPool (Core_make 4 true) 1 1 1 [] [].
Definition sample_io : IoContext.System :=
  IoContext.mkSystem (IoContext.mkState 1 true false) [] [IoContext.WorkerWaiting] [] [] [] [].
Definition sample_server : Server := mkServer Created None ConnectionRegistry_make sample_pool sample_io None [] [].

Lemma sample_server_reachable : server_reachable http_stop http_start_failed sample_server.
Proof.
  apply (server_created _ _ true sample_io sample_pool 8 1000); [|by exists 1, 4, true, (fun _ => true)|done].
  by apply (IoContext.io_created 1 true 0).
Qed.

Lemma run_then p f s s' (Q : Prop) : server_reachable p f s -> step p f s s' -> (server_reachable p f s' -> Q) -> Q.
Proof. intros Hr Hst HQ. by apply HQ, (server_next p f s). Qed.

(** Takes a step *)
Tactic Notation "run" hyp(H) tactic3(tac) := eapply (run_then _ _ _ _ _ H); [tac; reflexivity|clear H; intros H; vm_compute in H].
Tactic Notation "run_listener" hyp(H) tactic3(tac) :=
  eapply (run_then _ _ _ _ _ H); [eapply step_listener; [reflexivity|tac; reflexivity|intros ?; cbn; set_solver]|clear H; intros H; vm_compute in H].
Tactic Notation "go" tactic3(tac) := eapply rtc_l; [tac; reflexivity|vm_compute].
Tactic Notation "go_listener" tactic3(tac) :=
  eapply rtc_l; [eapply step_listener; [reflexivity|tac; reflexivity|intros ?; cbn; set_solver]|vm_compute].

(** A server has accepted a connection, and [Stop] begins. *)
Definition sample_closing : Server :=
  mkServer Stopping
    (Some (TcpListener.mkSystem (TcpListener.mkListener true TcpListener.Running 2 1 0 4711)
             [TcpListener.mkOp 1 TcpListener.Finishing; TcpListener.mkOp 2 TcpListener.Pending] 3 [1]))
    (mkRegistry 2 {[1 := 1]} 1 0) sample_pool sample_io (Some (ByStop, http_stop)) [] [].

Lemma sample_closing_reachable : server_reachable http_stop http_start_failed sample_closing.
Proof.
  pose proof sample_server_reachable as H.
  run H (eapply (step_start _ _ _ true TcpListener.sample_options TcpListener.sample_answers TcpListener.sample_pending)).
  run_listener H (eapply (TcpListener.step_dequeue _ [] 1 [] 0)).
  run_listener H (eapply (TcpListener.step_first _ [] 1 0 [] TcpListener.sample_pending); [|intros _; reflexivity| |]).
  run_listener H (eapply (TcpListener.step_second _ [] 1 0 true true _ true)).
  run H (eapply (step_accepted _ _ _ _ 1 [] _ true true)).
  run H (eapply step_stop_begin).
  exact H.
Qed.

(** [Stop] waits for the connection. *)
Definition sample_waiting : Server :=
  mkServer Stopping (Some (TcpListener.mkSystem (TcpListener.mkListener false TcpListener.Stopped 0 1 0 4711) [] 3 [1]))
    (mkRegistry 2 {[1 := 1]} 1 0) sample_pool sample_io
    (Some (ByStop, [WaitRegistry; StopExecutor Drain; WaitExecutor; JoinExecutor; StopIo; JoinIo])) [1] [].

Lemma sample_waiting_steps : rtc (step http_stop http_start_failed) sample_closing sample_waiting.
Proof.
  go (eapply (step_action _ _ ByStop), act_stop_listener).
  go_listener (eapply (TcpListener.step_finish _ [] 1)).
  go_listener (eapply (TcpListener.step_dequeue _ [] 2 [] 995)).
  go_listener (eapply (TcpListener.step_first _ [] 2 995 [] TcpListener.sample_pending); [|intros _; reflexivity| |]).
  go_listener (eapply (TcpListener.step_second _ [] 2 995 false false [] true)).
  go_listener (eapply (TcpListener.step_finish _ [] 2)).
  go (eapply (step_action _ _ ByStop), (act_wait_listener _ _ WaitListener); [|by left|]).
  go (eapply (step_action _ _ ByStop), act_connections).
  go (eapply (step_action _ _ ByStop), act_close).
  go (eapply (step_action _ _ ByStop), act_closed).
  apply rtc_refl.
Qed.

Lemma sample_waiting_reachable : server_reachable http_stop http_start_failed sample_waiting.
Proof. eapply server_steps_reachable, sample_waiting_steps. apply sample_closing_reachable. Qed.

(** The connection closes, and [Stop] returns. *)
Definition sample_stopped : Server :=
  mkServer Stopped (listener_ sample_waiting) (mkRegistry 2 ∅ 1 1)
    (ThreadPoolExecutor.mkPool (mkCore 4 true [] StateStopped Drain 0 0 0) 1 0 0 [] [])
    (IoContext.mkSystem (IoContext.mkState 1 true true) [] [IoContext.WorkerExited] [] [] [] []) None [1] [true].

Lemma sample_stopped_steps : rtc (step http_stop http_start_failed) sample_waiting sample_stopped.
Proof.
  go (eapply (step_connection _ _ _ 1)).
  go (eapply (step_action _ _ ByStop), (act_wait_registry _ _ WaitRegistry); [|by left|]).
  go (eapply (step_action _ _ ByStop), act_stop_executor).
  go (eapply step_pool; [|eapply ThreadPoolExecutor.step_leaves; [apply (bool_decide_unpack _)|]]).
  go (eapply (step_action _ _ ByStop), (act_wait_executor _ _ WaitExecutor); [|by left|]).
  go (eapply (step_action _ _ ByStop), act_join_executor).
  go (eapply (step_action _ _ ByStop), act_await_executor).
  go (eapply (step_action _ _ ByStop), (act_stop_io _ _ (fun _ => 0))).
  go (eapply step_io; [apply IoContext.step_worker; eapply (IoContext.step_dequeue _ _ _ [])|]).
  go (eapply (step_action _ _ ByStop), act_join_io).
  go (eapply step_stop_end).
  apply rtc_refl.
Qed.

Lemma server_shutdown_witness : connections_ (registry_ sample_waiting) <> ∅ /\ connections_ (registry_ sample_stopped) = ∅.
Proof.
  split; [discriminate|].
  assert (H : server_reachable http_stop http_start_failed sample_stopped)
    by (eapply server_steps_reachable, sample_stopped_steps; apply sample_waiting_reachable).
  destruct (server_shutdown http_stop http_start_failed sample_stopped _ ltac:(left) H eq_refl ltac:(left)) as (_ & _ & _ & _ & E & _). exact E.
Defined.

Lemma stop_closes_connections_witness : (connections_ (registry_ sample_waiting) !! 1 = Some 1) /\ 1 ∈ asked sample_waiting.
Proof.
  split; [reflexivity|].
  refine (proj2 (stop_closes_connections http_stop http_start_failed sample_closing sample_waiting _ ltac:(left) sample_closing_reachable
    (or_introl eq_refl) sample_waiting_steps) eq_refl 1 1 eq_refl).
Defined.

Lemma stop_progress_witness : exists s, step http_stop http_start_failed sample_closing s /\ (call_work s < call_work sample_closing)%nat.
Proof.
  destruct (stop_progress http_stop http_start_failed sample_closing http_stop ltac:(left) sample_closing_reachable eq_refl)
    as (_ & _ & [H|[H _]]); [exact H|discriminate H].
Defined.

(** ** The web application *)

(** [WebAppServer::Stop] goes on after a timeout. *)
Definition webapp_stop : list StopAction :=
  [StopListener; TryWaitListener; CloseConnections; TryWaitRegistry; StopExecutor Drain; TryWaitExecutor; JoinExecutor; StopIo; JoinIo].

Lemma webapp_server_reachable : server_reachable webapp_stop [] sample_server.
Proof.
  apply (server_created _ _ true sample_io sample_pool 8 1000); [|by exists 1, 4, true, (fun _ => true)|done].
  by apply (IoContext.io_created 1 true 0).
Qed.

(** So its [Stop] returns [true] with a connection that is still registered and no worker left to close it. *)
Lemma webapp_stop_leaves_connection : exists s, server_reachable webapp_stop [] s /\ returned s = [true] /\ connections_ (registry_ s) = {[1 := 1]} /\
  IoContext.joined (IoContext.workers (io_ s)) = true.
Proof.
  pose proof webapp_server_reachable as H.
  run H (eapply (step_start _ _ _ true TcpListener.sample_options TcpListener.sample_answers TcpListener.sample_pending)).
  run_listener H (eapply (TcpListener.step_dequeue _ [] 1 [] 0)).
  run_listener H (eapply (TcpListener.step_first _ [] 1 0 [] TcpListener.sample_pending); [|intros _; reflexivity| |]).
  run_listener H (eapply (TcpListener.step_second _ [] 1 0 true true _ true)).
  run H (eapply (step_accepted _ _ _ _ 1 [] _ true true)).
  run H (eapply step_stop_begin).
  run H (eapply (step_action _ _ ByStop), act_stop_listener).
  run H (eapply (step_action _ _ ByStop), (act_try _ _ TryWaitListener); [|by left]).
  run H (eapply (step_action _ _ ByStop), act_connections).
  run H (eapply (step_action _ _ ByStop), act_close).
  run H (eapply (step_action _ _ ByStop), act_closed).
  run H (eapply (step_action _ _ ByStop), (act_try _ _ TryWaitRegistry); [|by right; left]).
  run H (eapply (step_action _ _ ByStop), act_stop_executor).
  run H (eapply step_pool; [|eapply ThreadPoolExecutor.step_leaves; [apply (bool_decide_unpack _)|]]).
  run H (eapply (step_action _ _ ByStop), (act_wait_executor _ _ TryWaitExecutor); [|by right|]).
  run H (eapply (step_action _ _ ByStop), act_join_executor).
  run H (eapply (step_action _ _ ByStop), act_await_executor).
  run H (eapply (step_action _ _ ByStop), (act_stop_io _ _ (fun _ => 0))).
  run H (eapply step_io; [apply IoContext.step_worker; eapply (IoContext.step_dequeue _ _ _ [])|]).
  run H (eapply (step_action _ _ ByStop), act_join_io).
  run H (eapply step_stop_end).
  eexists. split; [exact H|]. by split_and!.
Qed.

(** ** Deadlines *)

(** [std::chrono::steady_clock::now() + timeout] counts nanoseconds in 64 bits with a sign: what is added, for a timeout in milliseconds *)
Definition deadline (now timeout : Z) : Z := now + timeout * 1000000.
Definition representable (z : Z) : bool := (- 2 ^ 63 <=? z) && (z <? 2 ^ 63).

(** [Remaining]: the time to the deadline in milliseconds, rounded towards zero *)
Definition Remaining (now deadline : Z) : Z := if deadline <=? now then 0 else Z.quot (deadline - now) 1000000.

(** A wait that starts after the call of [Stop] never takes longer than the timeout. *)
Lemma Remaining_bound start now timeout : 0 <= timeout -> start <= now -> 0 <= Remaining now (deadline start timeout) <= timeout.
Proof.
  intros Ht Hn. unfold Remaining, deadline. destruct (Z.leb_spec (start + timeout * 1000000) now); [lia|].
  rewrite Z.quot_div_nonneg by lia. split; [apply Z.div_pos; lia|]. apply Z.div_le_upper_bound; lia.
Qed.

(** The largest timeout that the configuration accepts is too large for the deadline, which overflows. *)
Lemma deadline_overflows : representable (deadline 0 (2 ^ 63 - 1)) = false.
Proof. reflexivity. Qed.
