(* ===== verification/ServerConnections.v ===== *)
(** * What the servers do with a connection

    The functions that [HttpServer::OnAccepted] and [EchoServer::OnAccepted] give to a connection and to its session:
    the sender of HTTP/1.1 responses, the sender of HTTP/2 frames, the receive handlers, and the
    routes of [HttpServer::RegisterRoutes].  The components are those of their own files; the
    theorems say what their composition puts on the wire.  *)

From S2P Require Import Prelude ProtocolSession HttpMessage HttpRouter HttpResponseEncoder SendQueue TcpConnection TcpConnectionTheory TcpConnectionRuns.
From S2P Require PrefaceBootstrap Http2Frames.

(** ** The order of sends on a connection *)

(** A connection that takes no more bytes *)
Definition blocked (c : TcpConnection) : Prop := state_ c <> Active \/ close_after_send_ c = true.

(** What is not a send queues nothing, and a connection that takes no more bytes stays so; the log grows. *)
Definition keeps {A} (m : M A) : Prop := forall s a s', m s = Ok (a, s') ->
  queued_of (log s') = queued_of (log s) /\ (blocked (conn s) -> blocked (conn s')) /\ log s `prefix_of` log s'.

Lemma sends_keep_bind {A B} (m : M A) (f : A -> M B) : keeps m -> (forall a, keeps (f a)) -> keeps (m ≫= f).
Proof.
  intros Hm Hf s b s' E. unfold mbind, M_bind in E. destruct (m s) as [[a s1]|e] eqn:E1; [|done]. cbn in E.
  destruct (Hm _ _ _ E1) as (Q1 & B1 & P1). destruct (Hf _ _ _ _ E) as (Q2 & B2 & P2). split_and!; [congruence|auto|by etrans].
Qed.
Lemma keeps_ret {A} (a : A) : keeps (mret a).
Proof. intros s b s' [= <- <-]. done. Qed.
Lemma sends_keep_get {A} (f : TcpConnection -> A) : keeps (get f).
Proof. intros s b s' [= <- <-]. done. Qed.
Lemma keeps_answer {A} (f : list Event -> A) : keeps (answer f).
Proof. intros s b s' [= <- <-]. done. Qed.
Lemma sends_keep_lift {A} (r : result A) : keeps (lift r).
Proof. intros s b s' E. unfold lift in E. destruct r; [|done]. by injection E as <- <-. Qed.
Lemma keeps_release io : keeps (release io).
Proof. intros s b s' [= <- <-]. done. Qed.
Lemma keeps_emit e : match e with Queued _ => False | _ => True end -> keeps (emit e).
Proof.
  intros He s b s' [= <- <-]. cbn [log conn]. rewrite queued_app. split_and!; [|done|by apply prefix_app_r].
  destruct e; try done; apply app_nil_r.
Qed.
Lemma sends_keep_modify f : (forall c, blocked c -> blocked (f c)) -> keeps (modify f).
Proof. intros Hf s b s' [= <- <-]. split_and!; [done|apply Hf|done]. Qed.
Lemma keeps_enter b : keeps (enter_handler b).
Proof. intros s a s' [= <- <-]. done. Qed.

Create HintDb keeps.
#[export] Hint Resolve keeps_ret sends_keep_get keeps_answer sends_keep_lift keeps_release keeps_enter : keeps.

Lemma blocked_one_less c : blocked c -> blocked (one_less c).
Proof. unfold one_less. by destruct (0 <? _). Qed.

Ltac keeps_step :=
  match goal with
  | |- forall _, _ => intros ?
  | |- keeps (_ ≫= _) => apply sends_keep_bind
  | |- keeps (emit _) => apply keeps_emit; exact I
  | |- keeps (modify _) => apply sends_keep_modify; intros c Hc; first [exact Hc|by apply blocked_one_less in Hc|by left]
  | |- keeps (if ?b then _ else _) => destruct b
  | |- keeps (match ?x with _ => _ end) => destruct x
  | |- keeps _ => solve [auto with keeps]
  end.
Ltac keeps := repeat (cbv zeta; keeps_step).

Section sends.
Context `{World}.

Lemma keeps_timer : keeps UpdateIdleTimerLocked.
Proof. unfold UpdateIdleTimerLocked. keeps. Qed.
Lemma keeps_cancel : keeps CancelIdleTimer.
Proof. unfold CancelIdleTimer. keeps. Qed.
#[local] Hint Resolve keeps_timer keeps_cancel : keeps.

Lemma keeps_close_locked reason : keeps (BeginCloseLocked reason).
Proof. unfold BeginCloseLocked. keeps. Qed.
Lemma keeps_move : keeps MoveToClosedIfDrainedLocked.
Proof. unfold MoveToClosedIfDrainedLocked. keeps. Qed.
Lemma keeps_notify b : keeps (notify_closed b).
Proof. unfold notify_closed. keeps. Qed.
Lemma keeps_log_close reason : keeps (LogClose reason).
Proof. unfold LogClose. keeps. Qed.
#[local] Hint Resolve keeps_close_locked keeps_move keeps_notify keeps_log_close : keeps.

Lemma sends_keep_close reason : keeps (BeginClose reason).
Proof. unfold BeginClose. keeps. Qed.
Lemma keeps_post_receive : keeps PostReceiveLocked.
Proof. unfold PostReceiveLocked. keeps. Qed.
Lemma keeps_post_send : keeps PostSendLocked.
Proof. unfold PostSendLocked. keeps. Qed.
Lemma keeps_close_active reason : keeps (close_active reason).
Proof. unfold close_active. keeps. Qed.
#[local] Hint Resolve sends_keep_close keeps_post_receive keeps_post_send keeps_close_active : keeps.

Lemma keeps_start : keeps Start.
Proof. unfold Start. keeps. Qed.
Lemma keeps_receive storage n e : keeps (OnReceiveComplete storage n e).
Proof. unfold OnReceiveComplete, log_close. keeps. Qed.
Lemma keeps_after threw : keeps (after_handler threw).
Proof. unfold after_handler. keeps. Qed.
Lemma keeps_send_completed n k : keeps (send_completed n k).
Proof. unfold send_completed. keeps. Qed.
#[local] Hint Resolve keeps_send_completed : keeps.
Lemma keeps_send_complete n k e : keeps (OnSendComplete n k e).
Proof. unfold OnSendComplete, log_close. keeps. Qed.
Lemma keeps_set_timer b : keeps (SetTimerService b).
Proof. unfold SetTimerService. keeps. Qed.

#[local] Hint Resolve keeps_start keeps_receive keeps_after keeps_send_complete keeps_set_timer : keeps.

(** A step that is not a send *)
Definition quiet (l : label) : bool := match l with DoSend _ _ => false | _ => true end.

Lemma step_quiet s l s' : step s l s' -> quiet l = true ->
  queued_of (log s') = queued_of (log s) /\ (blocked (conn s) -> blocked (conn s')) /\ log s `prefix_of` log s'.
Proof.
  intros [s0 l0 s0' Hp] Hl. destruct l0 as [|segs close|reason| |timer|storage n e|threw|n e]; cbn [perform] in Hp; try done.
  - injection Hp as Hp. assert (Hk : keeps (_ ← Start; mret tt)) by keeps. by apply Hk in Hp.
  - injection Hp as Hp. revert Hp. apply sends_keep_close.
  - injection Hp as Hp. revert Hp. apply sends_keep_close.
  - injection Hp as Hp. revert Hp. apply keeps_set_timer.
  - destruct (take_io true (ios s0)) as [[[cap|g] rest]|]; [|done..]. destruct (_ && _); [|done]. injection Hp as Hp.
    assert (Hk : keeps (deliver ← OnReceiveComplete storage n e; enter_handler deliver)) by keeps. by apply Hk in Hp.
  - destruct (delivering s0) as [|k]; [done|]. injection Hp as Hp. revert Hp. apply (keeps_after threw (mkSystem _ _ _ _)).
  - destruct (take_io false (ios s0)) as [[[cap|g] rest]|]; [done| |done]. destruct (dword n); [|done]. injection Hp as Hp.
    apply keeps_send_complete in Hp as (Hq & Hb & Hl'). cbn [log conn] in *. split_and!; [|done|by eapply prefix_app_l].
    rewrite Hq, queued_app. destruct e; apply app_nil_r.
Qed.

Lemma bind_run {A B} (m : M A) (k : A -> M B) s a s1 : m s = Ok (a, s1) -> (m ≫= k) s = k a s1.
Proof. intros E. unfold mbind, M_bind. by rewrite E. Qed.

Lemma close_locked_blocked reason s b s' : BeginCloseLocked reason s = Ok (b, s') -> blocked (conn s').
Proof.
  unfold BeginCloseLocked. rewrite (bind_run _ _ _ (conn s) s) by done. destruct (bool_decide_reflect (state_ (conn s) = Active)); cbn [negb].
  - erewrite bind_run by done. intros E. match type of E with ?m _ = _ => assert (Hk : keeps m) by keeps end. apply Hk in E as (_ & E & _). apply E. by left.
  - intros [= _ <-]. by left.
Qed.

(** A batch is queued as a whole, or not at all and then nothing is queued any more, unless the batch was empty. *)
Lemma send_whole segs close s status s' : SendBatchInternal segs close s = Ok (status, s') ->
  log s `prefix_of` log s' /\
  ((~ blocked (conn s) /\ queued_of (log s') = queued_of (log s) ++ concat segs) \/
   (queued_of (log s') = queued_of (log s) /\ (blocked (conn s') \/ concat segs = []) /\ (blocked (conn s) -> blocked (conn s')))).
Proof.
  unfold SendBatchInternal. cbv zeta. rewrite <- (TcpConnectionTheory.concat_full segs). set (full := List.filter _ segs). intros E.
  destruct (Z.eqb_spec (zlen full) 0) as [Ef|Ef].
  { apply zlen_0 in Ef. rewrite Ef. assert (Hk : keeps ((if close then BeginClose ProtocolClose else mret tt);; mret SendAccepted)) by keeps.
    apply Hk in E as (? & ? & ?). split; [done|]. right. auto. }
  rewrite (bind_run _ _ _ (conn s) s) in E by done.
  destruct (bool_decide_reflect (state_ (conn s) = Active)) as [Ha|Ha]; cbn [negb orb] in E; [|injection E as <- <-; split; [done|]; right; unfold blocked; auto].
  destruct (close_after_send_ (conn s)) eqn:Hc; [injection E as <- <-; split; [done|]; right; unfold blocked; auto|].
  destruct (TryPushBatch _ _) as [pushed q]. destruct (_ || negb pushed).
  - destruct (BeginCloseLocked SendQueueOverflow s) as [[b s1]|] eqn:E1; [|unfold mbind at 1, M_bind at 1 in E; by rewrite E1 in E].
    rewrite (bind_run _ _ _ _ _ E1) in E. pose proof (close_locked_blocked _ _ _ _ E1) as Hb. apply keeps_close_locked in E1 as (Q1 & _ & P1).
    match type of E with ?m s1 = _ => assert (Hk : keeps m) by keeps end. apply Hk in E as (Q2 & B2 & P2). split; [by etrans|].
    right. split; [congruence|auto].
  - erewrite bind_run in E by done. erewrite bind_run in E by done. erewrite bind_run in E by done.
    match type of E with ?m _ = _ => assert (Hk : keeps m) by keeps end. apply Hk in E as (E & _ & P). cbn [log] in P. split; [by eapply prefix_app_l|].
    left. split; [unfold blocked; intros [|]; congruence|]. rewrite E. cbn [log]. rewrite queued_app. cbn. by rewrite app_nil_r.
Qed.
End sends.

(** ** Senders *)

Section sender.
Context `{World} {X : Type} (send : X -> M unit) (bytes : X -> option (list byte)).

(** A sender queues the bytes of what it is given, if there are such bytes and the connection takes them; else the
    connection takes no more bytes. *)
Definition sends_whole : Prop := forall x s s', send x s = Ok (tt, s') -> log s `prefix_of` log s' /\
  ((~ blocked (conn s) /\ exists b, bytes x = Some b /\ queued_of (log s') = queued_of (log s) ++ b) \/
   (queued_of (log s') = queued_of (log s) /\ blocked (conn s'))).

(** The sender is called for the elements of the list in turn, while the connection does what it does. *)
Inductive sender_run (s0 : system) : list X -> system -> Prop :=
  | run_start : sender_run s0 [] s0
  | run_quiet xs s l s' : sender_run s0 xs s -> quiet l = true -> step s l s' -> sender_run s0 xs s'
  | run_send xs s x s' : sender_run s0 xs s -> send x s = Ok (tt, s') -> sender_run s0 (xs ++ [x]) s'.

(** The bytes of the first [k] elements are queued, and if these are not all, no more bytes are taken. *)
Definition in_order (xs : list X) (s : system) : Prop :=
  exists k bs, bytes <$> take k xs = Some <$> bs /\ queued_of (log s) = concat bs /\ ((k < length xs)%nat -> blocked (conn s)).

Lemma in_order_dropped xs x s : in_order xs s -> blocked (conn s) -> in_order (xs ++ [x]) s.
Proof.
  intros (k & bs & Hk & Hq & _) Hb. exists (min k (length xs)), bs. split_and!; [|done|done]. rewrite <- Hk, take_app_le by lia. f_equal.
  destruct (decide (k <= length xs)%nat); [by rewrite Nat.min_l|]. rewrite Nat.min_r by lia. by rewrite !take_ge by lia.
Qed.

Lemma in_order_quiet xs s s' : in_order xs s -> queued_of (log s') = queued_of (log s) -> (blocked (conn s) -> blocked (conn s')) -> in_order xs s'.
Proof. intros (k & bs & Hk & Hq & Hb) Hq' Hb'. exists k, bs. split_and!; [done|congruence|auto]. Qed.

Lemma in_order_sent xs s x b s' : in_order xs s -> ~ blocked (conn s) -> bytes x = Some b -> queued_of (log s') = queued_of (log s) ++ b ->
  in_order (xs ++ [x]) s'.
Proof.
  intros (k & bs & Hk & Hq & Hb) Hn Hx Hq'. assert (length xs <= k)%nat by (destruct (decide (k < length xs)%nat); [by destruct Hn; apply Hb|lia]).
  rewrite take_ge in Hk by done. exists (length (xs ++ [x])), (bs ++ [b]). rewrite take_ge, !fmap_app, Hk by done. split_and!; [|..].
  - cbn. by rewrite Hx.
  - rewrite Hq', Hq, concat_app. cbn. by rewrite app_nil_r.
  - lia.
Qed.

Lemma sender_in_order s0 xs s : sends_whole -> queued_of (log s0) = [] -> sender_run s0 xs s -> in_order xs s /\ log s0 `prefix_of` log s.
Proof.
  intros Hw H0. induction 1 as [|xs s l s' _ [IH IHl] Hl Hst|xs s x s' _ [IH IHl] E].
  - split; [|done]. exists 0%nat, []. split_and!; [done..|cbn; lia].
  - destruct (step_quiet s l s' Hst Hl) as (Hq & Hb & Hp). split; [by eapply in_order_quiet|by etrans].
  - destruct (Hw _ _ _ E) as [Hp [(Hn & b & Hx & Hq)|[Hq Hb]]]; (split; [|by etrans]).
    + by eapply in_order_sent.
    + apply in_order_dropped; [|done]. by eapply in_order_quiet.
Qed.
End sender.

(** ** The functions *)

Section functions.
Context `{World}.

(** The end of both senders *)
Definition close_on_failure (status : SendStatus) : M unit :=
  if bool_decide (status = StartFailed) || bool_decide (status = QueueOverflow) then BeginClose SendError else mret tt.

(** The batch of an encoded response *)
Definition response_batch (e : EncodedHttpResponse) : list (list byte) :=
  head e :: if negb (zlen (encoded_body e) =? 0) then [encoded_body e] else [].

(** The sender of responses, for a connection that still exists; else it does nothing.  What a send that throws did before is not in the
    model; it does not throw, as [response_sender_returns] shows. *)
Definition response_sender (encoder : HttpResponseEncoderOptions) (response : HttpResponse) : M unit := fun s =>
  match Encode encoder response with
  | Throw _ => BeginClose HandlerError s
  | Ok encoded =>
      match ((if encoded_close encoded then SendBatchAndClose (response_batch encoded) else SendBatch (response_batch encoded)) ≫= close_on_failure) s with
      | Ok r => Ok r
      | Throw _ => BeginClose HandlerError s
      end
  end.

(** The sender of the web application is the same, with the default encoder. *)
Definition webapp_response_sender : HttpResponse -> M unit := response_sender HttpResponseEncoderOptions_default.

(** The sender of the HTTP/2 session *)
Definition frame_sender (frame_data : list byte) : M unit := SendBatch [frame_data] ≫= close_on_failure.

(** The receive handler of the echo server *)
Definition echo_handler (bytes : list byte) : M unit := Send bytes;; mret tt.

(** The bytes of a response *)
Definition response_bytes (encoder : HttpResponseEncoderOptions) (response : HttpResponse) : option (list byte) :=
  match Encode encoder response with Ok e => Some (head e ++ encoded_body e) | Throw _ => None end.

Lemma response_batch_bytes e : concat (response_batch e) = head e ++ encoded_body e.
Proof.
  unfold response_batch. cbn. destruct (Z.eqb_spec (zlen (encoded_body e)) 0) as [E|]; cbn; [|by rewrite app_nil_r].
  apply zlen_0 in E. by rewrite E.
Qed.

Lemma encode_head o r e : Encode o r = Ok e -> head e <> [].
Proof.
  unfold Encode. destruct (_ || _); [done|]. destruct (negb _ || negb _); [done|]. destruct (append_headers _ _ _) as [[h hs]|]; [|done].
  cbn [mbind result_bind]. cbv zeta. destruct (_ <? _); [done|]. intros [= <-]. cbn [head]. unfold BytesFromString. intros E. by apply app_eq_nil in E as [_ [=]].
Qed.

Lemma keeps_failure status : keeps (close_on_failure status).
Proof. unfold close_on_failure. destruct (_ || _); [apply sends_keep_close|apply keeps_ret]. Qed.

(** A send and what follows *)
Lemma batch_whole segs close (k : SendStatus -> M unit) s s' : (forall x, keeps (k x)) -> (SendBatchInternal segs close ≫= k) s = Ok (tt, s') ->
  log s `prefix_of` log s' /\
  ((~ blocked (conn s) /\ queued_of (log s') = queued_of (log s) ++ concat segs) \/
   (queued_of (log s') = queued_of (log s) /\ (blocked (conn s') \/ concat segs = []) /\ (blocked (conn s) -> blocked (conn s')))).
Proof.
  intros Hk E. destruct (SendBatchInternal segs close s) as [[status s1]|] eqn:E1; [|unfold mbind, M_bind in E; by rewrite E1 in E].
  rewrite (bind_run _ _ _ _ _ E1) in E. apply Hk in E as (Q & B & P). destruct (send_whole _ _ _ _ _ E1) as [P1 [[Hn Hq]|(Hq & Hb & Hb')]]; (split; [by etrans|]).
  - left. split; [done|congruence].
  - right. split_and!; [congruence|destruct Hb; auto|auto].
Qed.

Lemma close_blocked reason s s' : BeginClose reason s = Ok (tt, s') -> blocked (conn s') /\ queued_of (log s') = queued_of (log s) /\ log s `prefix_of` log s'.
Proof.
  intros E. pose proof (sends_keep_close reason _ _ _ E) as (Q & _ & P). split_and!; [|done..]. unfold BeginClose in E.
  destruct (BeginCloseLocked reason s) as [[b s1]|] eqn:E1; [|unfold mbind at 1, M_bind at 1 in E; by rewrite E1 in E].
  rewrite (bind_run _ _ _ _ _ E1) in E. apply close_locked_blocked in E1.
  match type of E with ?m s1 = _ => assert (Hk : keeps m) end. { repeat (cbv zeta; first [apply keeps_move|apply keeps_notify|apply keeps_log_close|keeps_step]). }
  apply Hk in E as (_ & B & _). auto.
Qed.

Lemma response_sender_whole encoder : sends_whole (response_sender encoder) (response_bytes encoder).
Proof.
  intros r s s' E. unfold response_sender in E. unfold response_bytes. destruct (Encode encoder r) as [e|] eqn:Ee.
  - match type of E with match ?x with _ => _ end = _ => destruct x as [[[] s1]|] eqn:E1 end.
    + injection E as ->. assert (exists close, (SendBatchInternal (response_batch e) close ≫= close_on_failure) s = Ok (tt, s')) as [close Es]
        by (destruct (encoded_close e); eauto).
      destruct (batch_whole _ _ _ _ _ keeps_failure Es) as [P [[Hn Hq]|(Hq & [Hb|Hb] & _)]]; (split; [done|]).
      * rewrite response_batch_bytes in Hq. eauto.
      * auto.
      * rewrite response_batch_bytes in Hb. apply app_eq_nil in Hb as [Hb _]. by destruct (encode_head _ _ _ Ee).
    + apply close_blocked in E as (? & ? & ?). auto.
  - apply close_blocked in E as (? & ? & ?). auto.
Qed.

#[local] Instance blocked_dec c : Decision (blocked c).
Proof. unfold blocked. apply _. Defined.

(** A sender of one batch *)
Lemma batch_sender_whole {X} (f : X -> list (list byte)) close (k : SendStatus -> M unit) : (forall x, keeps (k x)) ->
  sends_whole (fun x => SendBatchInternal (f x) close ≫= k) (fun x => Some (concat (f x))).
Proof.
  intros Hk x s s' E. destruct (batch_whole _ _ _ _ _ Hk E) as [P [[Hn Hq]|(Hq & Hb & Hb')]]; (split; [done|]); [eauto|].
  destruct (decide (blocked (conn s'))) as [|Hn]; [auto|]. destruct Hb as [|Hb]; [done|]. left. split; [auto|]. exists []. rewrite Hb, app_nil_r. auto.
Qed.

Lemma frame_sender_whole : sends_whole frame_sender Some.
Proof.
  intros x s s' E. destruct (batch_sender_whole (fun x => [x]) false _ keeps_failure x s s' E) as [P H1]. cbn in H1. rewrite app_nil_r in H1. by split.
Qed.

Lemma echo_handler_whole : sends_whole echo_handler Some.
Proof.
  intros x s s' E. destruct (batch_sender_whole (fun x => [x]) false (fun _ => mret tt) (fun _ => keeps_ret tt) x s s' E) as [P H1].
  cbn in H1. rewrite app_nil_r in H1. by split.
Qed.

(** The senders return. *)
Lemma close_on_failure_ok status s : cinv s -> exists s', close_on_failure status s = Ok (tt, s') /\ cinv s'.
Proof.
  intros Hs. unfold close_on_failure. destruct (_ || _); [|by exists s]. pose proof (BeginClose_wp SendError s Hs) as Hw.
  destruct (BeginClose SendError s) as [[[] s']|]; [|done]. exists s'. split; [done|apply Hw].
Qed.

Lemma batch_ok segs close (k : SendStatus -> M unit) s : cinv s -> (forall x s, cinv s -> exists s', k x s = Ok (tt, s') /\ cinv s') ->
  exists s', (SendBatchInternal segs close ≫= k) s = Ok (tt, s') /\ cinv s'.
Proof.
  intros Hs Hk. pose proof (SendBatchInternal_wp segs close s Hs) as Hw. destruct (SendBatchInternal segs close s) as [[status s1]|] eqn:E; [|done].
  rewrite (bind_run _ _ _ _ _ E). apply Hk, Hw.
Qed.

Lemma response_sender_returns encoder r s : cinv s -> exists s', response_sender encoder r s = Ok (tt, s') /\ cinv s'.
Proof.
  intros Hs. unfold response_sender. destruct (Encode encoder r) as [e|].
  - destruct (batch_ok (response_batch e) (encoded_close e) close_on_failure s Hs close_on_failure_ok) as (s' & E & Hs').
    exists s'. split; [|done]. destruct (encoded_close e); unfold SendBatch, SendBatchAndClose; by rewrite E.
  - pose proof (BeginClose_wp HandlerError s Hs) as Hw. destruct (BeginClose HandlerError s) as [[[] s']|]; [|done]. exists s'. split; [done|apply Hw].
Qed.

Lemma frame_sender_returns frame s : cinv s -> exists s', frame_sender frame s = Ok (tt, s') /\ cinv s'.
Proof. intros Hs. by apply batch_ok, close_on_failure_ok. Qed.

Lemma echo_handler_returns bytes s : cinv s -> exists s', echo_handler bytes s = Ok (tt, s') /\ cinv s'.
Proof. intros Hs. apply batch_ok; [done|]. intros x s1 Hs1. by exists s1. Qed.

Lemma sender_run_cinv {X} (send : X -> M unit) s0 xs s : (forall x s, cinv s -> exists s', send x s = Ok (tt, s') /\ cinv s') -> cinv s0 ->
  sender_run send s0 xs s -> cinv s.
Proof.
  intros Hsend H0. induction 1 as [|xs s l s' _ IH Hl Hst|xs s x s' _ IH E]; [done|by eapply step_stepped|].
  destruct (Hsend x s IH) as (s1 & E1 & Hs1). congruence.
Qed.

(** What a sender has put on the wire of a new connection *)
Lemma sender_wire {X} (send : X -> M unit) bytes o id c xs s : options_fit o -> TcpConnection_make id true true true o = Ok c -> sends_whole send bytes ->
  (forall x s, cinv s -> exists s', send x s = Ok (tt, s') /\ cinv s') -> sender_run send (fresh c) xs s ->
  in_order bytes xs s /\ confirmed_of (log s) `prefix_of` queued_of (log s) /\ forall x, exists s', send x s = Ok (tt, s').
Proof.
  intros Ho Hc Hw Hr Hrun. assert (Hs : cinv s) by (eapply sender_run_cinv; [done| |done]; by eapply make_cinv). split_and!.
  - by apply (sender_in_order send bytes (fresh c)).
  - destruct Hs as [(ahead & Hm & _) _ _ _]. apply Hm.
  - intros x. destruct (Hr x s Hs) as (s' & E & _). eauto.
Qed.
End functions.

(** *** The wire *)

(** The responses whose bytes are known were encoded. *)
Lemma encoded_responses encoder (l : list HttpResponse) : forall bs : list (list byte), response_bytes encoder <$> l = Some <$> bs ->
  exists es : list EncodedHttpResponse, Encode encoder <$> l = Ok <$> es /\ bs = (fun e => head e ++ encoded_body e) <$> es.
Proof.
  induction l as [|r l IH]; intros [|b bs] E; try discriminate E; [by exists []|]. cbn in E. injection E as Er El.
  destruct (IH bs El) as (es & E1 & ->). unfold response_bytes in Er. destruct (Encode encoder r) as [e|] eqn:Ee; [|done]. injection Er as <-.
  exists (e :: es). cbn. by rewrite Ee, <- E1.
Qed.

(** The reads that a connection has handed to its receive handler *)
Definition delivered_of (l : list Event) : list (list byte) := omap (fun e => match e with Delivered b => Some b | _ => None end) l.

Lemma delivered_prefix l k : l `prefix_of` k -> delivered_of l `prefix_of` delivered_of k.
Proof. intros [r ->]. unfold delivered_of. rewrite omap_app. by apply prefix_app_r. Qed.

Section wire.
Context `{World}.

(** C20. The sender of HTTP/1.1 responses: whatever the connection does in between, the bytes that
    were ever queued are the encodings of the first responses that were given to it, whole and
    in order, and what the system confirmed is a beginning of them.  If these are not all
    responses, the connection takes no more bytes, so no response is ever left out before
    another one.  A response that cannot be encoded ends the connection, and the sender always
    returns. *)
Theorem responses_in_order o id c encoder rs s : options_fit o -> TcpConnection_make id true true true o = Ok c ->
  sender_run (response_sender encoder) (fresh c) rs s ->
  (exists k (es : list EncodedHttpResponse), Encode encoder <$> take k rs = Ok <$> es /\
     queued_of (log s) = concat ((fun e => head e ++ encoded_body e) <$> es) /\
     ((k < length rs)%nat -> state_ (conn s) <> Active \/ close_after_send_ (conn s) = true)) /\
  confirmed_of (log s) `prefix_of` queued_of (log s) /\
  forall r, exists s', response_sender encoder r s = Ok (tt, s').
Proof.
  intros Ho Hc Hrun. destruct (sender_wire _ _ _ _ _ _ _ Ho Hc (response_sender_whole encoder) (response_sender_returns encoder) Hrun)
    as ((k & bs & Hk & Hq & Hb) & Hp & Hr). split_and!; [|done..]. destruct (encoded_responses _ _ _ Hk) as (es & Ee & ->). by exists k, es.
Qed.

(** The echo server: the handler is called for each read in turn, while the connection does what it does.  There is one call at a time, as
    the next receive is posted when the handler has returned. *)
Inductive echo_run (c : TcpConnection) : list (list byte) -> system -> Prop :=
  | echo_start : echo_run c [] (fresh c)
  | echo_quiet done_ s l s' : echo_run c done_ s -> quiet l = true -> step s l s' -> echo_run c done_ s'
  | echo_handle done_ read rest s s' : echo_run c done_ s -> delivered_of (log s) = done_ ++ read :: rest -> echo_handler read s = Ok (tt, s') ->
      echo_run c (done_ ++ [read]) s'.

Lemma echo_sender_run c done_ s : echo_run c done_ s -> sender_run echo_handler (fresh c) done_ s /\ done_ `prefix_of` delivered_of (log s).
Proof.
  induction 1 as [|d s l s' _ [IH1 IH2] Hl Hst|d x rest s s' _ [IH1 IH2] Hd E].
  - split; [constructor|apply prefix_nil].
  - split; [by eapply run_quiet|]. etrans; [done|]. apply delivered_prefix. by eapply step_quiet.
  - split; [by eapply run_send|]. destruct (echo_handler_whole x s s' E) as [P _]. etrans; [|by apply delivered_prefix]. rewrite Hd.
    exists rest. by rewrite <- app_assoc.
Qed.

(** C21. The echo server sends back what it received: in every state of a connection the bytes
    that were queued are whole reads, those that the connection delivered first, in their order,
    and all that the handler saw as long as the connection takes bytes.  So the client reads a
    beginning of what it wrote. *)
Theorem echo_returns_reads o id c done_ s : options_fit o -> TcpConnection_make id true true true o = Ok c -> echo_run c done_ s ->
  (exists k, queued_of (log s) = concat (take k (delivered_of (log s))) /\ (k <= length done_)%nat /\
     ((k < length done_)%nat -> state_ (conn s) <> Active \/ close_after_send_ (conn s) = true)) /\
  confirmed_of (log s) `prefix_of` concat (delivered_of (log s)).
Proof.
  intros Ho Hc Hrun. destruct (echo_sender_run c done_ s Hrun) as [Hs [rest Hd]].
  destruct (sender_wire _ _ _ _ _ _ _ Ho Hc echo_handler_whole echo_handler_returns Hs) as ((k & bs & Hk & Hq & Hb) & Hp & _).
  apply (inj (fmap Some)) in Hk. subst bs. assert (Hq' : queued_of (log s) = concat (take (min k (length done_)) (delivered_of (log s)))).
  { rewrite Hq, Hd, take_app_le by lia. f_equal. destruct (decide (k <= length done_)%nat); [by rewrite Nat.min_l|].
    rewrite Nat.min_r by lia. by rewrite !take_ge by lia. }
  split; [exists (min k (length done_)); split_and!; [done|lia|intros; apply Hb; lia]|].
  etrans; [done|]. rewrite Hq'. rewrite <- (take_drop (min k (length done_)) (delivered_of (log s))) at 2. rewrite concat_app. by apply prefix_app_r.
Qed.
End wire.

(** ** The receive handler of the HTTP server *)

Section receive.
Context `{PrefaceBootstrap.Sessions}.

(** A session is known by the reads that it got. *)
Inductive Session :=
  | Http1Session (reads : list (list byte))
  | BootstrapSession (bootstrap : PrefaceBootstrap.PrefaceProtocolBootstrap).

(** [make_http1()], or the bootstrap with its two factories *)
Definition make_session (enable_h2 : bool) : result Session :=
  if negb enable_h2 then _ ← PrefaceBootstrap.make PrefaceBootstrap.Fallback; Ok (Http1Session [])
  else b ← PrefaceBootstrap.PrefaceProtocolBootstrap_make Http2Frames.kPreface true true; Ok (BootstrapSession b).

Definition feed_session (bytes : list byte) (session : Session) : result ProtocolFeedResult * Session :=
  match session with
  | Http1Session reads => (PrefaceBootstrap.answer PrefaceBootstrap.Fallback (reads ++ [bytes]), Http1Session (reads ++ [bytes]))
  | BootstrapSession b => let '(r, b) := PrefaceBootstrap.Feed bytes b in (r, BootstrapSession b)
  end.

(** The statuses after which the handler calls [BeginClose] *)
Definition handler_closes (status : ProtocolFeedStatus) : bool :=
  match status with
  | FeedExecutorStopped | FeedExecutorSaturated | FeedHandlerNotFound | FeedCloseRequired | FeedStopped => true
  | _ => false
  end.

(** The web application closes the connection after every other status. *)
Definition webapp_handler_closes (status : ProtocolFeedStatus) : bool := negb (bool_decide (status = FeedReady)).

(** The handler: whether it closes the connection, or that it throws, and [*protocol_state] *)
Definition receive_handler (enable_h2 : bool) (bytes : list byte) (protocol_state : option Session) : result bool * option Session :=
  match (match protocol_state with Some session => Ok session | None => make_session enable_h2 end) with
  | Throw e => (Throw e, protocol_state)
  | Ok session => let '(r, session) := feed_session bytes session in (result ← r; Ok (handler_closes (feed_status result)), Some session)
  end.

(** All reads of a connection *)
Fixpoint handle_all (enable_h2 : bool) (reads : list (list byte)) (protocol_state : option Session) : list (result bool) * option Session :=
  match reads with
  | [] => ([], protocol_state)
  | bytes :: reads =>
      let '(r, protocol_state) := receive_handler enable_h2 bytes protocol_state in
      let '(rs, protocol_state) := handle_all enable_h2 reads protocol_state in (r :: rs, protocol_state)
  end.

Hypothesis makes : forall k, PrefaceBootstrap.make k = Ok true.
Hypothesis answers : forall k h, exists r, PrefaceBootstrap.answer k h = Ok r.

Lemma handle_http1 reads : forall before,
  (handle_all false reads (Some (Http1Session before))).2 = Some (Http1Session (before ++ reads)).
Proof.
  induction reads as [|r reads IH]; intros before; cbn; [by rewrite app_nil_r|]. specialize (IH (before ++ [r])).
  destruct (handle_all false reads _) as [rs p]. cbn in *. by rewrite IH, <- app_assoc.
Qed.

Lemma handle_bootstrap reads : forall w b, PrefaceBootstrap.served Http2Frames.kPreface w b ->
  exists b', (handle_all true reads (Some (BootstrapSession b))).2 = Some (BootstrapSession b') /\
    PrefaceBootstrap.served Http2Frames.kPreface (w ++ concat reads) b'.
Proof.
  induction reads as [|r reads IH]; intros w b Hs; cbn; [exists b; by rewrite app_nil_r|].
  destruct (PrefaceBootstrap.Feed_served makes answers _ w r b Hs) as (x & _ & Hs1). destruct (PrefaceBootstrap.Feed r b) as [res b1]. cbn in Hs1.
  destruct (IH _ _ Hs1) as (b' & E & Hs'). destruct (handle_all true reads _) as [rs p]. cbn in *. exists b'. by rewrite E, app_assoc.
Qed.

(** A connection keeps one session for all its reads.  Without HTTP/2 that is an HTTP/1.1 session, which gets the reads as they are; with
    HTTP/2 it is the bootstrap, which serves the bytes of the reads. *)
Lemma handler_keeps_session enable_h2 reads : reads <> [] ->
  match (handle_all enable_h2 reads None).2 with
  | Some (Http1Session h) => enable_h2 = false /\ h = reads
  | Some (BootstrapSession b) => enable_h2 = true /\ PrefaceBootstrap.served Http2Frames.kPreface (concat reads) b
  | None => False
  end.
Proof.
  intros Hne. destruct reads as [|r reads]; [done|]. destruct enable_h2.
  - assert (Hs : PrefaceBootstrap.served Http2Frames.kPreface [] (PrefaceBootstrap.mkBootstrap Http2Frames.kPreface [] None))
      by (split; [done|]; split_and!; [done|apply prefix_nil|done]).
    destruct (handle_bootstrap (r :: reads) [] _ Hs) as (b' & E & Hs'). change (handle_all true (r :: reads) None) with
      (handle_all true (r :: reads) (Some (BootstrapSession (PrefaceBootstrap.mkBootstrap Http2Frames.kPreface [] None)))). by rewrite E.
  - assert (E : handle_all false (r :: reads) None = handle_all false (r :: reads) (Some (Http1Session []))).
    { cbn [handle_all]. unfold receive_handler, make_session. cbn [negb]. by rewrite makes. }
    rewrite E, handle_http1. done.
Qed.
End receive.

(** ** The routes of the HTTP server *)

Definition QUOTE : list byte := [Byte.x22].
Definition json_type : list byte := $"application/json; charset=utf-8".

Definition root_handler : HttpHandler := fun _ =>
  Ok (MakeTextResponse 200
        ($"{" ++ QUOTE ++ $"service" ++ QUOTE ++ $":" ++ QUOTE ++ $"iocp-http" ++ QUOTE ++ $"," ++ QUOTE ++ $"endpoints" ++ QUOTE ++ $":[" ++
         QUOTE ++ $"GET /health" ++ QUOTE ++ $"," ++ QUOTE ++ $"POST /echo" ++ QUOTE ++ $"]}" ++ [LF]) json_type).

Definition health_handler : HttpHandler := fun _ =>
  Ok (MakeTextResponse 200 ($"{" ++ QUOTE ++ $"status" ++ QUOTE ++ $":" ++ QUOTE ++ $"ok" ++ QUOTE ++ $"}" ++ [LF]) json_type).

Definition echo_route_handler : HttpHandler := fun request =>
  Ok (mkResponse 200 (reason_phrase HttpResponse_default)
        [mkHeader $"Content-Type" (default $"application/octet-stream" (Header request $"content-type"))] (body request)
        (close_connection HttpResponse_default)).

(** The two counters are read here and nowhere written. *)
Definition metrics_handler (req_count err_count : Z) : HttpHandler := fun _ =>
  Ok (MakeTextResponse 200
        ($"# HELP iocp_requests_total Total HTTP requests" ++ [LF] ++ $"# TYPE iocp_requests_total counter" ++ [LF] ++
         $"iocp_requests_total " ++ to_string req_count ++ [LF] ++
         $"# HELP iocp_errors_total Total HTTP errors" ++ [LF] ++ $"# TYPE iocp_errors_total counter" ++ [LF] ++
         $"iocp_errors_total " ++ to_string err_count ++ [LF]) text_plain_utf8).

Definition RegisterRoutes (router_ : gmap (list byte) MethodHandlers) : result (gmap (list byte) MethodHandlers) :=
  '(_, router_) ← Register Get $"/" (Some root_handler) router_;
  '(_, router_) ← Register Get $"/health" (Some health_handler) router_;
  '(_, router_) ← Register Post $"/echo" (Some echo_route_handler) router_;
  '(_, router_) ← Register Get $"/metrics" (Some (metrics_handler 0 0)) router_;
  Ok router_.

(** What a client gets, by path and method alone *)
Definition only (m : HttpMethod) (name : list byte) (handler : HttpHandler) (request : HttpRequest) : HttpResponse :=
  if bool_decide (method request = m) || (bool_decide (m = Get) && bool_decide (method request = Head)) then
    match handler request with Ok r => r | Throw _ => HttpResponse_default end
  else
    mkResponse 405 [] [mkHeader $"Content-Type" text_plain_utf8; mkHeader $"Allow" name] ($"method not allowed" ++ [LF]) false.

Definition answer_of (request : HttpRequest) : HttpResponse :=
  if decide (path request = $"/") then only Get $"GET" root_handler request
  else if decide (path request = $"/health") then only Get $"GET" health_handler request
  else if decide (path request = $"/metrics") then only Get $"GET" (metrics_handler 0 0) request
  else if decide (path request = $"/echo") then only Post $"POST" echo_route_handler request
  else mkResponse 404 [] [mkHeader $"Content-Type" text_plain_utf8] ($"not found" ++ [LF]) false.

(** The end of the task *)
Definition without_body (request : HttpRequest) (r : HttpResponse) : HttpResponse :=
  if decide (method request = Head) then mkResponse (status_code r) (reason_phrase r) (resp_headers r) [] (close_connection r) else r.

(** The HTTP server answers the documented routes, and [/metrics], and nothing else: other methods on them get 405 with the method that is
    allowed, and other paths 404. *)
Lemma http_server_routes : exists routes, RegisterRoutes ∅ = Ok routes /\ forall request close,
  dispatch_task (route_request routes request) request close =
  without_body request (set_close (close_connection (answer_of request) || close) (answer_of request)).
Proof.
  eexists. split; [reflexivity|]. intros request close. unfold route_request, answer_of.
  destruct (decide (path request = $"/")) as [->|H1]; [by unfold only; destruct (method request)|].
  destruct (decide (path request = $"/health")) as [->|H2]; [by unfold only; destruct (method request)|].
  destruct (decide (path request = $"/metrics")) as [->|H3]; [by unfold only; destruct (method request)|].
  destruct (decide (path request = $"/echo")) as [->|H4]; [by unfold only; destruct (method request)|].
  rewrite !lookup_insert_ne by congruence. reflexivity.
Qed.

(** ** Runs *)

(** Calls of the sender and steps of the connection in turn *)
Section run.
Context `{World} {X : Type} (send : X -> M unit).

Fixpoint sender_do (ops : list (label + X)) (s : system) : option system :=
  match ops with
  | [] => Some s
  | inl l :: ops => if quiet l then match perform l s with Some (Ok (tt, s)) => sender_do ops s | _ => None end else None
  | inr x :: ops => match send x s with Ok (tt, s) => sender_do ops s | Throw _ => None end
  end.

Definition given (ops : list (label + X)) : list X := omap (fun op => match op with inr x => Some x | inl _ => None end) ops.

Lemma sender_do_run ops : forall s0 xs s s', sender_run send s0 xs s -> sender_do ops s = Some s' -> sender_run send s0 (xs ++ given ops) s'.
Proof.
  induction ops as [|[l|x] ops IH]; intros s0 xs s s' Hr E; cbn in E.
  - injection E as <-. by rewrite app_nil_r.
  - destruct (quiet l) eqn:Hl; [|done]. destruct (perform l s) as [[[[] s1]|]|] eqn:Ep; try done.
    eapply (IH s0 xs s1); [|done]. by eapply run_quiet.
  - destruct (send x s) as [[[] s1]|] eqn:Es; [|done]. change (given (inr x :: ops)) with ([x] ++ given ops). rewrite app_assoc.
    eapply IH; [|done]. by eapply run_send.
Qed.
End run.

Definition sample_response : HttpResponse := MakeTextResponse 200 $"ok" $"text/plain".
Definition sample_ops : list (label + HttpResponse) := [inl DoStart; inr sample_response; inr (set_close true sample_response); inr sample_response].
Definition sample_sent : system :=
  default (fresh sample_connection) (@sender_do sample_world _ (@response_sender sample_world HttpResponseEncoderOptions_default) sample_ops (fresh sample_connection)).

(** The third response comes after one that closes the connection, and is not sent. *)
Lemma sample_sent_run : @sender_run sample_world _ (@response_sender sample_world HttpResponseEncoderOptions_default) (fresh sample_connection)
  [sample_response; set_close true sample_response; sample_response] sample_sent.
Proof. apply (sender_do_run _ sample_ops _ [] (fresh sample_connection)); [constructor|]. by vm_compute. Qed.

Lemma responses_in_order_witness : zlen (queued_of (log sample_sent)) = 229 /\ confirmed_of (log sample_sent) `prefix_of` queued_of (log sample_sent).
Proof.
  split; [by vm_compute|].
  exact (proj1 (proj2 (@responses_in_order sample_world _ 7 sample_connection HttpResponseEncoderOptions_default _ _ sample_fit ltac:(by vm_compute) sample_sent_run))).
Defined.

Definition sample_read : list byte := $"hello" ++ replicate (Z.to_nat (receive_chunk_bytes ConnectionOptions_default) - 5) Byte.x00.

(** A read was delivered, and echoed. *)
Definition sample_echoed : system :=
  default (fresh sample_connection)
    (s ← @run sample_world [DoStart; DoReceive sample_read 5 false] (fresh sample_connection);
     match @echo_handler sample_world $"hello" s with Ok (_, s) => Some s | Throw _ => None end).

Lemma sample_echoed_run : @echo_run sample_world sample_connection [$"hello"] sample_echoed.
Proof.
  pose (s1 := default (fresh sample_connection) (@run sample_world [DoStart] (fresh sample_connection))).
  pose (s2 := default (fresh sample_connection) (@run sample_world [DoReceive sample_read 5 false] s1)).
  apply (echo_handle sample_connection [] $"hello" [] s2); [|by vm_compute|by vm_compute].
  apply (echo_quiet sample_connection [] s1 (DoReceive sample_read 5 false)); [|done|constructor; by vm_compute].
  apply (echo_quiet sample_connection [] (fresh sample_connection) DoStart); [constructor|done|constructor; by vm_compute].
Qed.

Lemma echo_returns_reads_witness : queued_of (log sample_echoed) = $"hello" /\ confirmed_of (log sample_echoed) `prefix_of` concat (delivered_of (log sample_echoed)).
Proof.
  split; [by vm_compute|].
  exact (proj2 (@echo_returns_reads sample_world _ 7 sample_connection _ _ sample_fit ltac:(by vm_compute) sample_echoed_run)).
Defined.
