(* ===== verification/WebAppBoard.v ===== *)
(** * The pages and forms of the web application

    [board_handlers.cpp] (escaping, login, pages, posts) and the parts of the handlers in
    [WebAppServer::RegisterRoutes] that read forms and cookies.  The files with the templates,
    the clock and the local time are parameters. *)

From S2P Require Import Prelude HttpMessage StringMap SimpleTemplate.

#[local] Open Scope Z_scope.

Definition LT : byte := Byte.x3c.
Definition GT : byte := Byte.x3e.
Definition AMP : byte := Byte.x26.
Definition DQUOTE : byte := Byte.x22.

(** ** Escaping *)

Definition escape_char (c : byte) : str :=
  if bool_decide (c = LT) then $"&lt;"
  else if bool_decide (c = GT) then $"&gt;"
  else if bool_decide (c = AMP) then $"&amp;"
  else if bool_decide (c = DQUOTE) then $"&quot;"
  else [c].

Definition HtmlEscape (value : str) : str := concat (map escape_char value).

(** ** Pages *)

(** The clock counts in some unit. *)
Record Post := mkPost { id : Z; title : str; author : str; content : str; created_at : Z }.

(** [home_file name] is the contents of the file in the home directory, [FormatDate] is made of [localtime_s] and [strftime]. *)
Class Site := {
  home_file : str -> option str;
  FormatDate : Z -> str;
}.

Definition html_type : str := $"text/html; charset=utf-8".
Definition quoted (s : str) : str := [DQUOTE] ++ s ++ [DQUOTE].

Section pages.
Context `{Site}.

Definition LoadTemplate (name : str) : result SimpleTemplate := Load (home_file name).

(** [MakeTextResponse(200, tmpl.Render(), "text/html; charset=utf-8")] *)
Definition html_page (t : SimpleTemplate) : result HttpResponse := text ← Render t; Ok (MakeTextResponse 200 text html_type).

Definition HandleLoginPage (error : str) : result HttpResponse :=
  tmpl ← LoadTemplate $"login.html";
  html_page (if decide (error = []) then tmpl
             else Set_value $"error" ($"<p class=" ++ quoted $"error" ++ $">" ++ error ++ $"</p>") tmpl).

Definition no_posts : str := $"<div class=" ++ quoted $"card" ++ $"><p>게시글이 없습니다. 첫 게시글을 작성해보세요!</p></div>".

(** One row of the table *)
Definition post_row (post : Post) : str :=
  $"<tr><td>" ++ to_string (id post) ++ $"</td><td><a href=" ++ quoted ($"/post?id=" ++ to_string (id post)) ++ $">" ++
  HtmlEscape (title post) ++ $"</a></td><td>" ++ HtmlEscape (author post) ++ $"</td><td>" ++ FormatDate (created_at post) ++ $"</td></tr>".

Definition HandleBoardPage (username : str) (posts : list Post) : result HttpResponse :=
  tmpl ← LoadTemplate $"board.html";
  let tmpl := Set_value $"username" (HtmlEscape username) tmpl in
  match posts with
  | [] => html_page (Set_value $"posts" no_posts tmpl)
  | _ =>
      row_tmpl ← LoadTemplate $"post_list.html";
      rendered ← Render (Set_value $"rows" (concat (map post_row posts)) row_tmpl);
      html_page (Set_value $"posts" rendered tmpl)
  end.

Definition HandlePostDetail (post : Post) : result HttpResponse :=
  tmpl ← LoadTemplate $"post_detail.html";
  html_page (Set_value $"content" (HtmlEscape (content post))
            (Set_value $"date" (FormatDate (created_at post))
            (Set_value $"author" (HtmlEscape (author post))
            (Set_value $"title" (HtmlEscape (title post)) tmpl)))).

Definition HandleWriteForm : result HttpResponse := tmpl ← LoadTemplate $"write_form.html"; html_page tmpl.
End pages.

(** ** The style sheet *)

Definition styles : str := concat [
  $"*{box-sizing:border-box;margin:0;padding:0}";
  $"body{font-family:'Segoe UI',system-ui,-apple-system,sans-serif;";
  $"background:#f0f2f5;color:#1a1a2e;line-height:1.6;min-height:100vh}";
  $".container{max-width:900px;margin:0 auto;padding:2rem 1rem}";
  $"h1{font-size:1.8rem;color:#16213e;margin-bottom:1rem}";
  $"h2{font-size:1.4rem;color:#0f3460;margin-bottom:1rem}";
  $".card{background:white;border-radius:12px;padding:2rem;";
  $"box-shadow:0 2px 8px rgba(0,0,0,0.08);margin-bottom:1rem}";
  $".header{display:flex;justify-content:space-between;";
  $"align-items:center;margin-bottom:1.5rem}";
  $".user-info{display:flex;align-items:center;gap:1rem;color:#555}";
  $".form-group{margin-bottom:1rem}";
  $".form-group label{display:block;margin-bottom:.25rem;";
  $"font-weight:600;color:#333;font-size:.9rem}";
  $".form-group input,.form-group textarea{width:100%;";
  $"padding:.6rem .8rem;border:1.5px solid #ddd;border-radius:8px;";
  $"font-size:.95rem;transition:border-color .2s;font-family:inherit}";
  $".form-group input:focus,.form-group textarea:focus{";
  $"outline:none;border-color:#0f3460}";
  $".btn{display:inline-block;padding:.6rem 1.4rem;background:#0f3460;";
  $"color:white;border:none;border-radius:8px;cursor:pointer;";
  $"font-size:.95rem;text-decoration:none;font-weight:500;";
  $"transition:background .2s}";
  $".btn:hover{background:#1a4a8a}";
  $".btn-sm{padding:.3rem .8rem;background:#eee;color:#333;";
  $"border-radius:6px;text-decoration:none;font-size:.85rem;";
  $"transition:background .2s}";
  $".btn-sm:hover{background:#ddd}";
  $".btn-secondary{padding:.6rem 1.4rem;background:#e0e0e0;";
  $"color:#333;border-radius:8px;text-decoration:none;";
  $"font-size:.95rem;transition:background .2s}";
  $".btn-secondary:hover{background:#ccc}";
  $".form-actions{display:flex;gap:.5rem;justify-content:flex-end;";
  $"margin-top:1rem}";
  $".toolbar{margin-bottom:1rem}";
  $".error{background:#fef2f2;color:#dc2626;padding:.8rem;";
  $"border-radius:8px;margin-bottom:1rem}";
  $".hint{margin-top:1rem;font-size:.85rem;color:#888}";
  $".post-list{width:100%;border-collapse:collapse;background:white;";
  $"border-radius:12px;overflow:hidden;box-shadow:0 2px 8px rgba(0,0,0,0.08)}";
  $".post-list th{background:#0f3460;color:white;padding:.8rem;";
  $"text-align:left;font-weight:500}";
  $".post-list td{padding:.8rem;border-bottom:1px solid #eee}";
  $".post-list a{color:#0f3460;text-decoration:none;font-weight:500}";
  $".post-list a:hover{text-decoration:underline}";
  $".post-list tr:hover td{background:#f8f9fa}";
  $".post-meta{display:flex;gap:2rem;color:#888;font-size:.85rem;";
  $"margin-bottom:1.5rem;padding-bottom:1rem;border-bottom:1px solid #eee}";
  $".post-content{white-space:pre-wrap;line-height:1.8;margin-bottom:1.5rem}";
  $".post-actions{text-align:right;padding-top:1rem;border-top:1px solid #eee}"].

Definition HandleStyles : HttpResponse := MakeTextResponse 200 styles $"text/css; charset=utf-8".

(** ** Login and posts *)

Definition kUsers : list (str * str) := [($"admin", $"admin123"); ($"user", $"pass123")].

Definition TryLogin (username password : str) : str :=
  if existsb (fun u => bool_decide (u.1 = username) && bool_decide (u.2 = password)) kUsers then username else [].

(** [next] is [g_next_post_id], [now] the clock. *)
Definition CreatePost (title content author : str) (next now : Z) : result (Post * Z) :=
  if decide (title = []) then Throw invalid_argument
  else if decide (content = []) then Throw invalid_argument
  else Ok (mkPost next (HtmlEscape title) author (HtmlEscape content) now, u64 (next + 1)).

(** ** Forms and cookies *)

Definition PLUS : byte := Byte.x2b.
Definition PERCENT : byte := Byte.x25.
Definition EQUALS : byte := Byte.x3d.
Definition SEMICOLON : byte := Byte.x3b.

(** [if (c == '+') c = ' '] *)
Definition plus_to_space (s : str) : str := map (fun c => if bool_decide (c = PLUS) then SP else c) s.

(** The value of a hexadecimal digit; nothing is added for other characters. *)
Definition hex_digit (h : byte) : Z :=
  if is_digit h then b2z h - 48
  else if (97 <=? b2z h) && (b2z h <=? 102) then b2z h - 97 + 10
  else if (65 <=? b2z h) && (b2z h <=? 70) then b2z h - 65 + 10
  else 0.

(** The loop that decodes in place, from the position [i] on; it stops two characters before the end. *)
Fixpoint percent_decode (s : str) : str :=
  match s with
  | c :: ((h1 :: h2 :: rest) as tail) =>
      if bool_decide (c = PERCENT) then z2b (Z.lor (Z.shiftl (hex_digit h1) 4) (hex_digit h2)) :: percent_decode rest
      else c :: percent_decode tail
  | _ => s
  end.

(** The form of [POST /login]: user name and password *)
Definition login_form (body : str) : str * str :=
  match find [AMP] body 0 with
  | None => ([], [])
  | Some amp =>
      let username :=
        match find [EQUALS] body 0 with
        | Some eq => if (eq <? amp)%nat then substr body (eq + 1) (amp - eq - 1) else []
        | None => []
        end in
      let password := match find [EQUALS] body amp with Some eq => drop (eq + 1) body | None => [] end in
      (plus_to_space username, plus_to_space password)
  end.

(** The form of [POST /write]: title and content *)
Definition write_form (body : str) : str * str :=
  let title :=
    match find $"title=" body 0 with
    | None => []
    | Some t_eq =>
        let start := (t_eq + 6)%nat in
        match find [AMP] body start with
        | None => drop start body
        | Some end_ => substr body start (end_ - start)
        end
    end in
  let content := match find $"content=" body 0 with None => [] | Some c_eq => drop (c_eq + 8) body end in
  (percent_decode (plus_to_space title), percent_decode (plus_to_space content)).

Definition kCookie : str := $"session_id=".

Definition ExtractSessionId (request : HttpRequest) : str :=
  match Header request $"cookie" with
  | None => []
  | Some cookie =>
      match find kCookie cookie 0 with
      | None => []
      | Some pos =>
          let start := (pos + length kCookie)%nat in
          match find [SEMICOLON] cookie start with
          | None => drop start cookie
          | Some end_ => substr cookie start (end_ - start)
          end
      end
  end.
