(* ===== verification/WebAppBoardTheory.v ===== *)
(** * Pages and forms: what users can put into them

    Escaping loses nothing and leaves no markup; the markup of a page does not depend on what
    users write; the forms are read back as they were encoded. *)

From S2P Require Import Prelude HttpMessage StringMap SimpleTemplate WebAppBoard.

(** ** Escaping *)

(** The characters that a browser takes for markup *)
Definition is_markup (c : byte) : bool := bool_decide (c = LT) || bool_decide (c = GT) || bool_decide (c = DQUOTE).
Definition markup (s : str) : str := List.filter is_markup s.

Lemma markup_app l k : markup (l ++ k) = markup l ++ markup k.
Proof. apply List.filter_app. Qed.

Lemma markup_concat ls : markup (concat ls) = concat (map markup ls).
Proof. induction ls as [|l ls IH]; [done|]. cbn [concat map]. by rewrite markup_app, IH. Qed.

Lemma markup_escape s : markup (HtmlEscape s) = [].
Proof.
  unfold HtmlEscape. rewrite markup_concat. induction s as [|c s IH]; [done|]. cbn [map concat]. rewrite IH, app_nil_r.
  unfold escape_char. repeat (case_bool_decide; [reflexivity|]). cbn. unfold is_markup.
  by rewrite !bool_decide_eq_false_2 by done.
Qed.

(** What a browser shows *)
Fixpoint unescape (fuel : nat) (s : str) : str :=
  match fuel with
  | O => s
  | S fuel =>
      match s with
      | [] => []
      | c :: rest =>
          if starts_with $"&lt;" s then LT :: unescape fuel (drop 4 s)
          else if starts_with $"&gt;" s then GT :: unescape fuel (drop 4 s)
          else if starts_with $"&amp;" s then AMP :: unescape fuel (drop 5 s)
          else if starts_with $"&quot;" s then DQUOTE :: unescape fuel (drop 6 s)
          else c :: unescape fuel rest
      end
  end.

Lemma escape_step c s fuel : unescape (S fuel) (escape_char c ++ s) = c :: unescape fuel s.
Proof.
  unfold escape_char. do 4 (case_bool_decide; [subst c; reflexivity|]). cbn [app unescape].
  assert (Hn : forall p, starts_with (AMP :: p) (c :: s) = false) by (intros p; cbn [starts_with]; by rewrite bool_decide_eq_false_2 by congruence).
  change ($"&lt;") with (AMP :: $"lt;"). change ($"&gt;") with (AMP :: $"gt;"). change ($"&amp;") with (AMP :: $"amp;").
  change ($"&quot;") with (AMP :: $"quot;"). by rewrite !Hn.
Qed.

(** Nothing is lost: what a browser shows is what was escaped. *)
Lemma escape_roundtrip s : forall fuel, (length s <= fuel)%nat -> unescape fuel (HtmlEscape s) = s.
Proof.
  induction s as [|c s IH]; intros fuel Hf; [by destruct fuel|]. cbn in Hf. destruct fuel as [|fuel]; [lia|].
  change (HtmlEscape (c :: s)) with (escape_char c ++ HtmlEscape s). by rewrite escape_step, IH by lia.
Qed.

Lemma HtmlEscape_inj s t : HtmlEscape s = HtmlEscape t -> s = t.
Proof.
  intros E. pose proof (escape_roundtrip s (max (length s) (length t)) ltac:(lia)) as H1.
  pose proof (escape_roundtrip t (max (length s) (length t)) ltac:(lia)) as H2. congruence.
Qed.

(** Digits are no markup. *)
Lemma markup_digits n fuel : forall acc, markup (to_digits fuel n acc) = markup acc.
Proof.
  revert n. induction fuel as [|fuel IH]; intros n acc; cbn [to_digits]; [done|].
  assert (Hd : markup (z2b (48 + n mod 10) :: acc) = markup acc).
  { cbn. assert (Hm : 0 <= n mod 10 < 10) by (apply Z.mod_pos_bound; lia). revert Hm. generalize (n mod 10) as d. intros d Hd.
    assert (d = 0 \/ d = 1 \/ d = 2 \/ d = 3 \/ d = 4 \/ d = 5 \/ d = 6 \/ d = 7 \/ d = 8 \/ d = 9) as Hc by lia.
    by repeat (destruct Hc as [->|Hc]; [reflexivity|]); subst d. }
  destruct (_ =? 0); [done|]. by rewrite IH.
Qed.
Lemma markup_to_string n : markup (to_string n) = [].
Proof. unfold to_string. by rewrite markup_digits. Qed.

Create Rewrite HintDb markup.
#[export] Hint Rewrite markup_app markup_escape markup_to_string : markup.

(** ** Pages *)

(** Values with the same markup *)
Definition same_markup (u v : StringMap) : Prop := forall k, markup (default [] (lookup k u)) = markup (default [] (lookup k v)).

Definition alike (u v : StringMap) : Prop := same_markup u v /\ forall q, is_Some (lookup q u) <-> is_Some (lookup q v).

Lemma alike_nil : alike [] [].
Proof. done. Qed.

Lemma alike_set k a b u v : alike u v -> markup a = markup b -> alike (emplace k a u) (emplace k b v).
Proof.
  intros [Huv Hs] Hab. split; intros q; rewrite !lookup_emplace; specialize (Hs q); specialize (Huv q).
  - destruct (lookup q u), (lookup q v); cbn in *; try done; [by destruct (proj1 Hs ltac:(done))|by destruct (proj2 Hs ltac:(done))|]. by case_decide.
  - destruct (lookup q u), (lookup q v); cbn in *; try done; [by destruct (proj1 Hs ltac:(done))|by destruct (proj2 Hs ltac:(done))|].
    split; intros []; by case_decide.
Qed.

(** The markup of a page is that of the template and of the values. *)
Lemma render_markup s u v x y : alike u v -> Render (mkTemplate s u) = Ok x -> Render (mkTemplate s v) = Ok y -> markup x = markup y.
Proof.
  intros [Huv _] Hx Hy. destruct (pieces_exist (length s) s) as (ps & r & E & Hps & Hr); [done|].
  assert (Hren : forall w, Render (mkTemplate s w) = Ok (concat (map (eval w) ps) ++ r)).
  { intros w. unfold Render, Render_values. cbn [source_ values_]. pose proof (pieces_length ps r) as Hl. rewrite <- E in Hl. rewrite E at 2.
    apply (Render_loop_pieces w ps r Hr Hps (S (length s)) []). lia. }
  rewrite Hren in Hx, Hy. injection Hx as <-. injection Hy as <-. rewrite !markup_app, !markup_concat. f_equal. f_equal. rewrite !map_map.
  apply map_ext. intros p. unfold eval. rewrite !markup_app. f_equal. apply Huv.
Qed.

Section pages.
Context `{Site}.

Lemma html_page_inv t r : html_page t = Ok r -> exists x, Render t = Ok x /\ r = MakeTextResponse 200 x html_type.
Proof. unfold html_page. destruct (Render t) as [x|]; [|done]. intros [= <-]. by exists x. Qed.

Lemma row_markup p q : id p = id q -> created_at p = created_at q -> markup (post_row p) = markup (post_row q).
Proof. intros Hi Hc. unfold post_row, quoted. autorewrite with markup. by rewrite Hc. Qed.

(** Posts that differ in their texts only *)
Definition same_shape (p q : Post) : Prop := id p = id q /\ created_at p = created_at q.

Lemma rows_markup ps qs : Forall2 same_shape ps qs -> markup (concat (map post_row ps)) = markup (concat (map post_row qs)).
Proof.
  intros Hpq. rewrite !markup_concat, !map_map. f_equal. induction Hpq as [|p q ps qs [Hi Hc] _ IH]; [done|]. cbn [map]. f_equal; [|done].
  by apply row_markup.
Qed.

(** Two pages from one template whose values were set one by one *)
Lemma pages_markup s u v r r' : alike u v -> html_page (mkTemplate s u) = Ok r -> html_page (mkTemplate s v) = Ok r' ->
  markup (resp_body r) = markup (resp_body r').
Proof.
  intros Huv (x & Hx & ->)%html_page_inv (y & Hy & ->)%html_page_inv. cbn. by apply (render_markup s u v).
Qed.

Ltac same_values := repeat (apply alike_set; [|by autorewrite with markup]); apply alike_nil.

Lemma board_inv u ps r : HandleBoardPage u ps = Ok r -> exists s text, home_file $"board.html" = Some s /\
  html_page (mkTemplate s (emplace $"posts" text (emplace $"username" (HtmlEscape u) []))) = Ok r /\
  match ps with
  | [] => text = no_posts
  | _ => exists s', home_file $"post_list.html" = Some s' /\ Render (mkTemplate s' (emplace $"rows" (concat (map post_row ps)) [])) = Ok text
  end.
Proof.
  unfold HandleBoardPage, LoadTemplate, Load. destruct (home_file $"board.html") as [s|]; [|done]. cbn [mbind result_bind].
  destruct ps as [|p ps]; [intros E; by exists s, no_posts|]. destruct (home_file $"post_list.html") as [s'|]; [|done]. cbn [mbind result_bind].
  unfold Set_value, SimpleTemplate_make. cbn [source_ values_]. intros E.
  destruct (Render _) as [text|] eqn:Er in E; [|done]. exists s, text. split_and!; [done..|]. by exists s'.
Qed.

(** C40. What users write cannot change the markup of a page: the characters that a browser takes
    for markup, of the list of posts and of the page of a post, are the same whatever the user
    name, the titles, the authors and the contents are; they depend on the templates, the
    numbers and the dates of the posts alone. *)
Theorem pages_markup_fixed u u' ps qs p q r r' s s' : Forall2 same_shape ps qs -> same_shape p q ->
  HandleBoardPage u ps = Ok r -> HandleBoardPage u' qs = Ok r' -> HandlePostDetail p = Ok s -> HandlePostDetail q = Ok s' ->
  markup (resp_body r) = markup (resp_body r') /\ markup (resp_body s) = markup (resp_body s').
Proof.
  intros Hpq [Hi Hc] (b & x & Hb & Hr & Hx)%board_inv (b' & y & Hb' & Hr' & Hy)%board_inv Hs Hs'. rewrite Hb in Hb'. injection Hb' as <-. split.
  - assert (Hxy : markup x = markup y).
    { destruct Hpq as [|p0 q0 ps qs Hpq0 Hpq]; [by subst|]. destruct Hx as (l & Hl & Hx). destruct Hy as (l' & Hl' & Hy).
      rewrite Hl in Hl'. injection Hl' as <-. eapply render_markup; [|done|done].
      apply alike_set; [apply alike_nil|]. by apply rows_markup, Forall2_cons. }
    eapply pages_markup; [|done|done]. apply alike_set; [|done]. same_values.
  - unfold HandlePostDetail, LoadTemplate, Load in Hs, Hs'. destruct (home_file $"post_detail.html") as [d|]; [|done].
    cbn [mbind result_bind] in Hs, Hs'. eapply pages_markup; [|exact Hs|exact Hs']. cbn [values_ Set_value source_ SimpleTemplate_make].
    rewrite Hc. same_values.
Qed.
End pages.

(** ** Forms *)

(** How a browser encodes a field: letters and digits as they are, a space as a plus, the rest with two hexadecimal digits *)
Definition hex_char (n : Z) : byte := if n <? 10 then z2b (48 + n) else z2b (55 + n).
Definition form_char (c : byte) : str :=
  if isalnum c then [c] else if bool_decide (c = SP) then [PLUS] else [PERCENT; hex_char (b2z c / 16); hex_char (b2z c mod 16)].
Definition form_encode (s : str) : str := concat (map form_char s).

Lemma plus_app l k : plus_to_space (l ++ k) = plus_to_space l ++ plus_to_space k.
Proof. apply map_app. Qed.

Lemma percent_plain c s : c <> PERCENT -> percent_decode (c :: s) = c :: percent_decode s.
Proof.
  intros Hc. destruct s as [|a [|b s]]; [done..|].
  change (percent_decode (c :: a :: b :: s)) with (if bool_decide (c = PERCENT) then z2b (Z.lor (Z.shiftl (hex_digit a) 4) (hex_digit b)) :: percent_decode s
    else c :: percent_decode (a :: b :: s)).
  by rewrite bool_decide_eq_false_2.
Qed.

Lemma percent_pair a b s : percent_decode (PERCENT :: a :: b :: s) = z2b (Z.lor (Z.shiftl (hex_digit a) 4) (hex_digit b)) :: percent_decode s.
Proof. done. Qed.

Lemma hex_plus c : plus_to_space [PERCENT; hex_char (b2z c / 16); hex_char (b2z c mod 16)] = [PERCENT; hex_char (b2z c / 16); hex_char (b2z c mod 16)].
Proof. by destruct c. Qed.
Lemma hex_value c : z2b (Z.lor (Z.shiftl (hex_digit (hex_char (b2z c / 16))) 4) (hex_digit (hex_char (b2z c mod 16)))) = c.
Proof. by destruct c. Qed.

Lemma form_char_decode c s : percent_decode (plus_to_space (form_char c) ++ s) = c :: percent_decode s.
Proof.
  unfold form_char. destruct (isalnum c) eqn:Ha.
  - assert (c <> PLUS /\ c <> PERCENT) as [H1 H2] by (split; intros ->; discriminate Ha). cbn. rewrite bool_decide_eq_false_2 by done. by apply percent_plain.
  - case_bool_decide as Hs; [subst c; by apply percent_plain|]. rewrite hex_plus. cbn [app].
    etrans; [apply percent_pair|]. by rewrite hex_value.
Qed.

(** What is encoded is decoded. *)
Lemma form_decode s : percent_decode (plus_to_space (form_encode s)) = s.
Proof.
  induction s as [|c s IH]; [done|]. change (form_encode (c :: s)) with (form_char c ++ form_encode s). rewrite plus_app, form_char_decode. by f_equal.
Qed.

Lemma form_char_clean c x : x = AMP \/ x = EQUALS \/ x = SEMICOLON -> x ∉ form_char c.
Proof. intros Hx Hin. assert (bool_decide (x ∈ form_char c) = true) as E by by apply bool_decide_eq_true. clear Hin. destruct Hx as [->|[->| ->]]; by destruct c. Qed.

Lemma form_encode_clean s x : x = AMP \/ x = EQUALS \/ x = SEMICOLON -> x ∉ form_encode s.
Proof.
  intros Hx. induction s as [|c s IH]; [apply not_elem_of_nil|]. change (form_encode (c :: s)) with (form_char c ++ form_encode s).
  apply not_elem_of_app. split; [by apply form_char_clean|done].
Qed.

(** *** Search *)

(** The last byte of the pattern, if it is nowhere before *)
Lemma find_first_end q x l r : x ∉ l ++ q -> find_first (q ++ [x]) (l ++ (q ++ [x]) ++ r) = Some (length l).
Proof.
  induction l as [|a l IH]; intros Hx; [apply (find_first_here (q ++ [x]))|]. cbn [app find_first length].
  destruct (starts_with (q ++ [x]) (a :: l ++ (q ++ [x]) ++ r)) eqn:E.
  - apply starts_with_spec in E as [k Ek]. exfalso. apply Hx.
    assert (E1 : ((a :: l ++ q) ++ [x] ++ r) !! length q = Some x).
    { replace ((a :: l ++ q) ++ [x] ++ r) with (a :: l ++ (q ++ [x]) ++ r) by (cbn; by rewrite <- !app_assoc). rewrite Ek, <- app_assoc.
      rewrite lookup_app_r, Nat.sub_diag by done. done. }
    rewrite lookup_app_l in E1 by (cbn; rewrite length_app; lia). by apply list_elem_of_lookup_2 in E1.
  - rewrite IH; [done|]. apply not_elem_of_cons in Hx. tauto.
Qed.

(** Bytes with which no occurrence begins *)
Lemma find_first_skip x p l r : x ∉ l -> find_first (x :: p) (l ++ r) = (fun i => (length l + i)%nat) <$> find_first (x :: p) r.
Proof.
  induction l as [|a l IH]; intros Hx; [cbn; by destruct (find_first _ r)|]. apply not_elem_of_cons in Hx as [Ha Hx].
  cbn [app find_first starts_with]. rewrite bool_decide_eq_false_2 by done. cbn [andb]. rewrite (IH Hx). by destruct (find_first _ r).
Qed.

Lemma find_zero p l : find p l 0 = find_first p l.
Proof. unfold find. cbn. rewrite drop_0. by destruct (find_first p l). Qed.

Definition write_body (t c : str) : str := $"title=" ++ form_encode t ++ $"&content=" ++ form_encode c.

(** The form for a new post is read back: when a browser encodes a title and a content, what
    the handler of [POST /write] takes for title and content are the same bytes, whatever they
    are. *)
Theorem write_form_roundtrip t c : write_form (write_body t c) = (t, c).
Proof.
  unfold write_form, write_body. rewrite !find_zero, find_first_here.
  change (0 + 6)%nat with (length ($"title=")). rewrite find_app.
  change ($"&content=" ++ form_encode c) with (AMP :: ($"content" ++ [EQUALS]) ++ form_encode c).
  rewrite find_first_byte by (apply form_encode_clean; auto). cbn [fmap option_fmap option_map].
  assert (Et : substr ($"title=" ++ form_encode t ++ AMP :: ($"content" ++ [EQUALS]) ++ form_encode c) (length ($"title="))
    (length ($"title=") + length (form_encode t) - length ($"title=")) = form_encode t).
  { unfold StringMap.substr. rewrite drop_app_length. replace (_ + _ - _)%nat with (length (form_encode t)) by lia. by rewrite take_app_length. }
  rewrite Et, form_decode.
  assert (Ec : find_first $"content=" ($"title=" ++ form_encode t ++ AMP :: ($"content" ++ [EQUALS]) ++ form_encode c) =
    Some (length ($"title=") + (length (form_encode t ++ [AMP])))%nat).
  { change ($"content=") with (Byte.x63 :: ($"ontent" ++ [EQUALS])) at 1. rewrite find_first_skip.
    2: { apply (bool_decide_unpack _). by vm_compute. }
    change (Byte.x63 :: $"ontent" ++ [EQUALS]) with ($"content" ++ [EQUALS]).
    change (AMP :: ($"content" ++ [EQUALS]) ++ form_encode c) with ([AMP] ++ ($"content" ++ [EQUALS]) ++ form_encode c). rewrite app_assoc.
    rewrite find_first_end; [done|]. rewrite !not_elem_of_app. split_and!; [apply form_encode_clean; auto| |]; apply (bool_decide_unpack _); by vm_compute. }
  rewrite Ec. f_equal. rewrite <- (form_decode c) at 2. f_equal. f_equal.
  change (AMP :: ($"content" ++ [EQUALS]) ++ form_encode c) with ([AMP] ++ ($"content" ++ [EQUALS]) ++ form_encode c).
  rewrite !app_assoc. rewrite drop_app_length'; [done|]. rewrite !length_app. cbn. lia.
Qed.
