(* ===== verification/WebAppDatabase.v ===== *)
(** * The database of the web application

    [Database] of [db.h] and [db.cpp]: the texts of the SQL statements and what is done with the
    rows.  SQLite itself is a parameter, the class [Sqlite]; the dates come from the clock and
    the local time and are arguments. *)

From S2P Require Import Prelude HttpMessage StringMap WebAppBoard.

(** ** SQLite *)

(** [sqlite3_exec] says whether it returned [SQLITE_OK].  [sqlite3_rows] are the rows that [sqlite3_step] gives for a statement, none if
    it cannot be prepared.  A column that is NULL has no text. *)
Class Sqlite := {
  DB : Type;
  Row : Type;
  sqlite3_exec : str -> DB -> bool * DB;
  sqlite3_rows : str -> DB -> list Row;
  column_int64 : Row -> nat -> Z;
  column_text : Row -> nat -> option str;
  sqlite3_last_insert_rowid : DB -> Z;
}.

(** SQLite reads a text up to the first zero byte. *)
Definition c_str (s : str) : str := match find [Byte.x00] s 0 with Some n => take n s | None => s end.

(** ** Statements *)

Definition APOSTROPHE : byte := Byte.x27.
Definition in_quotes (s : str) : str := [APOSTROPHE] ++ s ++ [APOSTROPHE].

Definition InsertPost_sql (title author content date : str) : str :=
  $"INSERT INTO posts(title,author,content,created_at) VALUES(" ++ in_quotes title ++ $"," ++ in_quotes author ++ $"," ++ in_quotes content ++
  $"," ++ in_quotes date ++ $")".
Definition GetPosts_sql (limit : Z) : str := $"SELECT id,title,author,content,created_at FROM posts ORDER BY id DESC LIMIT " ++ to_string limit.
Definition GetPost_sql (id : Z) : str := $"SELECT id,title,author,content,created_at FROM posts WHERE id=" ++ to_string id.
Definition SaveSession_sql (token username date : str) : str :=
  $"INSERT OR REPLACE INTO sessions(token,username,created_at) VALUES(" ++ in_quotes token ++ $"," ++ in_quotes username ++ $"," ++ in_quotes date ++ $")".
Definition LoadSession_sql (token : str) : str := $"SELECT username FROM sessions WHERE token=" ++ in_quotes token.
Definition DeleteSession_sql (token : str) : str := $"DELETE FROM sessions WHERE token=" ++ in_quotes token.
Definition CleanExpiredSessions_sql (cutoff : str) : str := $"DELETE FROM sessions WHERE created_at < " ++ in_quotes cutoff.

Definition schema_sql : str :=
  $"PRAGMA journal_mode=WAL;CREATE TABLE IF NOT EXISTS posts (  id INTEGER PRIMARY KEY AUTOINCREMENT,  title TEXT NOT NULL,  author TEXT NOT NULL,  content TEXT NOT NULL,  created_at TEXT NOT NULL);CREATE TABLE IF NOT EXISTS sessions (  token TEXT PRIMARY KEY,  username TEXT NOT NULL,  created_at TEXT NOT NULL);".

Record DbPost := mkDbPost { db_id : Z; db_title : str; db_author : str; db_content : str; db_created_at : str }.

Section database.
Context `{Sqlite}.

(** The constructor, where [opened] is what [sqlite3_open] gives; the result of creating the tables is not looked at. *)
Definition Database_make (opened : option DB) : result DB :=
  match opened with None => Throw runtime_error | Some db => Ok (sqlite3_exec (c_str schema_sql) db).2 end.

Definition Execute (sql : str) (db : DB) : result unit * DB :=
  match sqlite3_exec (c_str sql) db with
  | (true, db) => (Ok tt, db)
  | (false, db) => (Throw runtime_error, db)
  end.

(** A [std::string] is not made of a null pointer. *)
Definition text_of (row : Row) (i : nat) : result str :=
  match column_text row i with Some s => Ok s | None => Throw UndefinedBehavior end.

Definition InsertPost (title author content date : str) (db : DB) : result Z * DB :=
  match Execute (InsertPost_sql title author content date) db with
  | (Ok _, db) => (Ok (u64 (sqlite3_last_insert_rowid db)), db)
  | (Throw e, db) => (Throw e, db)
  end.

Definition read_post (row : Row) : result DbPost :=
  title ← text_of row 1; author ← text_of row 2; content ← text_of row 3; created ← text_of row 4;
  Ok (mkDbPost (u64 (column_int64 row 0)) title author content created).

Fixpoint read_posts (rows : list Row) : result (list DbPost) :=
  match rows with
  | [] => Ok []
  | row :: rows => p ← read_post row; ps ← read_posts rows; Ok (p :: ps)
  end.

Definition GetPosts (limit : Z) (db : DB) : result (list DbPost) := read_posts (sqlite3_rows (c_str (GetPosts_sql limit)) db).

Definition GetPost (id : Z) (db : DB) : result (option DbPost) :=
  match sqlite3_rows (c_str (GetPost_sql id)) db with
  | [] => Ok None
  | row :: _ => p ← read_post row; Ok (Some p)
  end.

Definition SaveSession (token username date : str) (db : DB) : result unit * DB := Execute (SaveSession_sql token username date) db.

Definition LoadSession (token : str) (db : DB) : result str :=
  match sqlite3_rows (c_str (LoadSession_sql token)) db with
  | [] => Ok []
  | row :: _ => text_of row 0
  end.

Definition DeleteSession (token : str) (db : DB) : result unit * DB := Execute (DeleteSession_sql token) db.

(** [cutoff] is the date of an hour ago. *)
Definition CleanExpiredSessions (cutoff : str) (db : DB) : result unit * DB := Execute (CleanExpiredSessions_sql cutoff) db.
End database.

(** ** The literals of a statement *)

(** SQL: a text in apostrophes, in which two apostrophes stand for one.  [None] if one is not closed. *)
Fixpoint sql_lex (inside : option str) (s : str) : option (list str) :=
  match inside, s with
  | None, [] => Some []
  | None, c :: s => if bool_decide (c = APOSTROPHE) then sql_lex (Some []) s else sql_lex None s
  | Some _, [] => None
  | Some acc, c :: s =>
      if bool_decide (c = APOSTROPHE) then
        match s with
        | c2 :: s2 => if bool_decide (c2 = APOSTROPHE) then sql_lex (Some (acc ++ [APOSTROPHE])) s2 else cons acc <$> sql_lex None s
        | [] => Some [acc]
        end
      else sql_lex (Some (acc ++ [c])) s
  end.
Definition sql_literals (s : str) : option (list str) := sql_lex None s.

Definition clean (s : str) : Prop := APOSTROPHE ∉ s.

Lemma lex_plain l s : clean l -> sql_lex None (l ++ s) = sql_lex None s.
Proof.
  induction l as [|c l IH]; intros Hl; [done|]. apply not_elem_of_cons in Hl as [Hc Hl]. cbn. rewrite bool_decide_eq_false_2 by done. by apply IH.
Qed.

Lemma lex_inside v : forall acc s, clean v -> sql_lex (Some acc) (v ++ s) = sql_lex (Some (acc ++ v)) s.
Proof.
  induction v as [|c v IH]; intros acc s Hv; [by rewrite app_nil_r|]. apply not_elem_of_cons in Hv as [Hc Hv]. cbn [app].
  assert (E : sql_lex (Some acc) (c :: v ++ s) = sql_lex (Some (acc ++ [c])) (v ++ s)) by (cbn; by rewrite bool_decide_eq_false_2).
  rewrite E, IH by done. by rewrite <- app_assoc.
Qed.

(** A text without apostrophes is the literal. *)
Lemma lex_quoted v c s : clean v -> c <> APOSTROPHE -> sql_lex None (in_quotes v ++ c :: s) = cons v <$> sql_lex None (c :: s).
Proof.
  intros Hv Hc. unfold in_quotes. rewrite <- !app_assoc. change ([APOSTROPHE] ++ v ++ [APOSTROPHE] ++ c :: s) with (APOSTROPHE :: v ++ APOSTROPHE :: c :: s).
  assert (E : sql_lex None (APOSTROPHE :: v ++ APOSTROPHE :: c :: s) = sql_lex (Some []) (v ++ APOSTROPHE :: c :: s)) by done.
  rewrite E, lex_inside by done. cbn [app]. assert (E2 : sql_lex (Some v) (APOSTROPHE :: c :: s) =
    if bool_decide (c = APOSTROPHE) then sql_lex (Some (v ++ [APOSTROPHE])) s else cons v <$> sql_lex None (c :: s)) by done.
  rewrite E2. by rewrite bool_decide_eq_false_2.
Qed.

Lemma lex_quoted_end v : clean v -> sql_lex None (in_quotes v) = Some [v].
Proof.
  intros Hv. unfold in_quotes. assert (E : sql_lex None ([APOSTROPHE] ++ v ++ [APOSTROPHE]) = sql_lex (Some []) (v ++ [APOSTROPHE])) by done.
  rewrite E, lex_inside by done. done.
Qed.

Lemma lex_between v l s : clean v -> clean l -> l <> [] -> sql_lex None (in_quotes v ++ l ++ s) = cons v <$> sql_lex None s.
Proof.
  intros Hv Hl Hn. destruct l as [|c l]; [done|]. assert (c <> APOSTROPHE) by (intros ->; apply Hl; by left). cbn [app].
  rewrite lex_quoted by done. change (c :: l ++ s) with ((c :: l) ++ s). by rewrite lex_plain.
Qed.

Lemma lex_last v l : clean v -> clean l -> l <> [] -> sql_lex None (in_quotes v ++ l) = Some [v].
Proof. intros Hv Hl Hn. rewrite <- (app_nil_r l). by rewrite lex_between. Qed.

Ltac clean := apply (bool_decide_unpack _); by vm_compute.

(** The statements that the database is given: for texts without apostrophes the literals
    of a statement are exactly these texts, in their order, so that what users write is data and
    never SQL. *)
Lemma sql_texts title author content date token username : clean title -> clean author -> clean content -> clean date ->
  clean token -> clean username ->
  sql_literals (InsertPost_sql title author content date) = Some [title; author; content; date] /\
  sql_literals (SaveSession_sql token username date) = Some [token; username; date] /\
  sql_literals (LoadSession_sql token) = Some [token] /\
  sql_literals (DeleteSession_sql token) = Some [token] /\
  sql_literals (CleanExpiredSessions_sql date) = Some [date].
Proof.
  intros Ht Ha Hc Hd Hk Hu. unfold sql_literals, InsertPost_sql, SaveSession_sql, LoadSession_sql, DeleteSession_sql, CleanExpiredSessions_sql.
  split_and!; rewrite lex_plain by clean; rewrite ?lex_quoted_end by done; try done.
  - do 3 (rewrite lex_between; [|done|clean|done]). rewrite lex_last; [done|done|clean|done].
  - do 2 (rewrite lex_between; [|done|clean|done]). rewrite lex_last; [done|done|clean|done].
Qed.

(** A cookie with apostrophes is SQL: the statement asks for all sessions. *)
Definition injected_token : str := $"x' OR 'a'='a".
Lemma session_query_injected : LoadSession_sql injected_token = $"SELECT username FROM sessions WHERE token='x' OR 'a'='a'" /\
  sql_literals (LoadSession_sql injected_token) = Some [$"x"; $"a"; $"a"].
Proof. by split. Qed.

(** The apostrophe is not escaped on the way to the database, and an ordinary title with one breaks the statement. *)
Lemma escape_keeps_apostrophe s : APOSTROPHE ∈ s -> APOSTROPHE ∈ HtmlEscape s.
Proof.
  intros Hs. unfold HtmlEscape. apply list_elem_of_In, in_concat. exists [APOSTROPHE]. split; [|by left]. apply in_map_iff. exists APOSTROPHE.
  split; [reflexivity|]. by apply list_elem_of_In.
Qed.

Lemma title_breaks_statement : sql_literals (InsertPost_sql (HtmlEscape $"it's") $"user" $"text" $"2024-01-01 00:00:00") = None.
Proof. reflexivity. Qed.
