(* ===== verification/WebApp.v ===== *)
(** * The web application

    [WebAppServer] of [webapp.h] and [webapp.cpp]: the handlers that [RegisterRoutes] registers, sessions and
    posts.  A handler takes the state and gives it back; requests are served one after the
    other here.  The database, the files, the clock and the random numbers are parameters. *)

From S2P Require Import Prelude HttpMessage ProtocolSession HttpRouter StringMap SimpleTemplate WebAppBoard WebAppDatabase.
From S2P Require ConfigUtils JsonUtils Multipart.

(** What a request finds in its surroundings: the clock, its text, a random number, the order of a map, and whether the directory for
    uploads and the file in it can be made. *)
Record Moment := mkMoment {
  now : Z;
  date : str;
  random : Z;
  iteration : StringMap -> StringMap;
  directory_made : bool;
  file_opened : bool;
}.

(** [scheduled] has the tokens whose sessions a timer will delete, [uploads] the files that were written. *)
Record WebState `{Sqlite} := mkWebState {
  db_ : DB;
  g_next_post_id : Z;
  scheduled : list str;
  uploads : list (str * str);
}.

Definition Redirect (path : str) : HttpResponse :=
  mkResponse 302 (reason_phrase HttpResponse_default) [mkHeader $"Location" path] (resp_body HttpResponse_default) (close_connection HttpResponse_default).

(** Sixteen hexadecimal digits *)
Definition hex_low (n : Z) : byte := if n <? 10 then z2b (48 + n) else z2b (87 + n).
Fixpoint hex_digits (width : nat) (n : Z) (acc : str) : str :=
  match width with O => acc | S width => hex_digits width (n / 16) (hex_low (n mod 16) :: acc) end.
Definition GenerateSessionToken (n : Z) : str := hex_digits 16 n [].

(** [std::stoull]: blanks, a sign, digits; the rest is not looked at *)
Definition is_space (c : byte) : bool := bool_decide (c = SP) || ((9 <=? b2z c) && (b2z c <=? 13)).
Fixpoint skip_spaces (s : str) : str := match s with c :: t => if is_space c then skip_spaces t else s | [] => [] end.
Definition stoull (s : str) : result Z :=
  let s := skip_spaces s in
  let '(negative, s) := match s with
                        | c :: t => if bool_decide (c = Byte.x2d) then (true, t) else if bool_decide (c = Byte.x2b) then (false, t) else (false, s)
                        | [] => (false, [])
                        end in
  match ConfigUtils.digit_run s with
  | O => Throw invalid_argument
  | n => let v := ConfigUtils.decimal (take n s) in
         if v <? 2 ^ 64 then Ok (if negative : bool then u64 (- v) else v) else Throw out_of_range
  end.

Definition json_type : str := $"application/json; charset=utf-8".
(** An object with one field, as it is written in the source *)
Definition json_field (k v : str) : str := $"{" ++ quoted k ++ $":" ++ quoted v ++ $"}".

Section webapp.
Context `{Site} `{Sqlite}.

Definition Handler : Type := HttpRequest -> Moment -> WebState -> result HttpResponse * WebState.

Definition set_db (db : DB) (s : WebState) : WebState := mkWebState _ db (g_next_post_id s) (scheduled s) (uploads s).

(** ** Sessions and posts *)

Definition GetUsername (token : str) (s : WebState) : result str := LoadSession token (db_ s).
Definition ValidateSession (token : str) (s : WebState) : result bool := u ← LoadSession token (db_ s); Ok (negb (bool_decide (u = []))).

(** The timer that deletes the session is scheduled when the session is saved. *)
Definition AddSession (token username : str) (m : Moment) (s : WebState) : result unit * WebState :=
  match SaveSession token username (date m) (db_ s) with
  | (Throw e, db) => (Throw e, set_db db s)
  | (Ok _, db) => (Ok tt, mkWebState _ db (g_next_post_id s) (scheduled s ++ [token]) (uploads s))
  end.

(** The callback of that timer *)
Definition session_expires (token : str) (s : WebState) : result unit * WebState :=
  let '(r, db) := DeleteSession token (db_ s) in (r, set_db db s).

(** [created_at] is not copied. *)
Definition to_post (p : DbPost) : Post := mkPost (db_id p) (db_title p) (db_author p) (db_content p) 0.
Definition GetPosts (s : WebState) : result (list Post) := ps ← WebAppDatabase.GetPosts 50 (db_ s); Ok (map to_post ps).

Definition AddPost (post : Post) (m : Moment) (s : WebState) : result unit * WebState :=
  let '(r, db) := InsertPost (title post) (author post) (content post) (date m) (db_ s) in
  (_ ← r; Ok tt, set_db db s).

(** ** Handlers *)

(** [session.empty() || !ValidateSession(session)] *)
Definition no_session (request : HttpRequest) (s : WebState) : result bool :=
  let session := ExtractSessionId request in
  if bool_decide (session = []) then Ok true else v ← ValidateSession session s; Ok (negb v).

(** Behind a login: the rest of a handler, if there is a session *)
Definition with_session (k : str -> Handler) : Handler := fun request m s =>
  match no_session request s with
  | Throw e => (Throw e, s)
  | Ok true => (Ok (Redirect $"/login"), s)
  | Ok false => k (ExtractSessionId request) request m s
  end.

(** A handler that reads only *)
Definition reading (k : HttpRequest -> WebState -> result HttpResponse) : Handler := fun request m s => (k request s, s).

Definition get_login : Handler := reading (fun request s =>
  none ← no_session request s;
  if negb none then Ok (Redirect $"/board") else HandleLoginPage []).

Definition wrong_login : str := $"잘못된 아이디 또는 비밀번호입니다.".

Definition session_cookie (token : str) : str := kCookie ++ token ++ $"; Path=/; HttpOnly; Max-Age=3600".

Definition post_login : Handler := fun request m s =>
  let '(username, password) := login_form (StringFromBytes (body request)) in
  let user := TryLogin username password in
  if bool_decide (user = []) then (HandleLoginPage wrong_login, s)
  else
    let token := GenerateSessionToken (random m) in
    match AddSession token user m s with
    | (Throw e, s) => (Throw e, s)
    | (Ok _, s) =>
        let resp := Redirect $"/board" in
        (Ok (mkResponse (status_code resp) (reason_phrase resp) (resp_headers resp ++ [mkHeader $"Set-Cookie" (session_cookie token)]) (resp_body resp)
               (close_connection resp)), s)
    end.

Definition get_logout : Handler := fun request m s =>
  let session := ExtractSessionId request in
  if bool_decide (session = []) then (Ok (Redirect $"/login"), s)
  else let '(r, db) := DeleteSession session (db_ s) in (_ ← r; Ok (Redirect $"/login"), set_db db s).

Definition get_board : Handler := with_session (fun session => reading (fun request s =>
  posts ← GetPosts s; u ← GetUsername session s; HandleBoardPage u posts)).

Definition get_write : Handler := with_session (fun session => reading (fun request s => HandleWriteForm)).

(** [CreatePost] and [AddPost] *)
Definition add_new_post (t c a : str) (m : Moment) (s : WebState) : result unit * WebState :=
  match CreatePost t c a (g_next_post_id s) (now m) with
  | Throw e => (Throw e, s)
  | Ok (post, next) => AddPost post m (mkWebState _ (db_ s) next (scheduled s) (uploads s))
  end.

Definition post_write : Handler := with_session (fun session request m s =>
  let '(t, c) := write_form (StringFromBytes (body request)) in
  if bool_decide (t = []) || bool_decide (c = []) then (HandleWriteForm, s)
  else
    match GetUsername session s with
    | Throw e => (Throw e, s)
    | Ok user => let '(r, s) := add_new_post t c user m s in (_ ← r; Ok (Redirect $"/board"), s)
    end).

Definition get_post : Handler := with_session (fun session => reading (fun request s =>
  params ← QueryParams request;
  match params !! ($"id" : list byte) with
  | None => Ok (Redirect $"/board")
  | Some v =>
      id ← stoull v;
      posts ← GetPosts s;
      match List.find (fun p => WebAppBoard.id p =? id) posts with
      | Some post => HandlePostDetail post
      | None => Ok (Redirect $"/board")
      end
  end)).

Definition get_style : Handler := reading (fun _ _ => Ok HandleStyles).

Definition post_json (m : Moment) (p : Post) : str :=
  JsonUtils.Format (iteration m [($"id", to_string (WebAppBoard.id p)); ($"title", title p); ($"author", author p)]).

Definition get_api_posts : Handler := fun request m s =>
  (posts ← GetPosts s;
   Ok (MakeTextResponse 200 ($"[" ++ concat (zip_with (fun (i : nat) p => (if (0 <? i)%nat then $"," else []) ++ post_json m p) (seq 0 (length posts)) posts) ++ $"]")
         json_type), s).

Definition post_api_posts : Handler := fun request m s =>
  match JsonUtils.Parse (StringFromBytes (body request)) with
  | Throw e => (Throw e, s)
  | Ok j =>
      let t := JsonUtils.GetString $"title" [] j in
      let c := JsonUtils.GetString $"content" [] j in
      let a := JsonUtils.GetString $"author" $"anonymous" j in
      if bool_decide (t = []) || bool_decide (c = []) then
        (Ok (MakeTextResponse 400 (JsonUtils.Format [($"error", $"title and content required")]) json_type), s)
      else
        let '(r, s) := add_new_post t c a m s in
        (_ ← r; Ok (MakeTextResponse 201 (JsonUtils.Format [($"status", $"created")]) json_type), s)
  end.

(** A chunk: its length in hexadecimal, here one digit, and its bytes *)
Definition chunk (w : str) : str := [hex_low (zlen w)] ++ CRLF ++ w ++ CRLF.
Definition stream_body : str := concat (map chunk [$"Hello "; $"IOCP "; $"streaming "; $"demo!" ++ [LF]]) ++ $"0" ++ CRLF ++ CRLF.

Definition get_api_stream : Handler := reading (fun _ _ =>
  Ok (mkResponse (status_code HttpResponse_default) (reason_phrase HttpResponse_default)
        [mkHeader $"Transfer-Encoding" $"chunked"; mkHeader $"Content-Type" text_plain_utf8] (BytesFromString stream_body) (close_connection HttpResponse_default))).

(** The boundary in a content type *)
Definition upload_boundary (ct : str) : option str :=
  match find $"boundary=" ct 0 with
  | None => None
  | Some bpos =>
      let boundary := drop (bpos + 9) ct in
      Some (if (2 <=? length boundary)%nat && bool_decide (front boundary = Some DQUOTE) then StringMap.substr boundary 1 (length boundary - 2) else boundary)
  end.

Definition post_api_upload : Handler := fun request m s =>
  match upload_boundary (default [] (Header request $"content-type")) with
  | None => (Ok (MakeTextResponse 400 (json_field $"error" $"no boundary") json_type), s)
  | Some boundary =>
      let failed := Ok (MakeTextResponse 500 (json_field $"error" $"upload error") json_type) in
      match Multipart.Feed (StringFromBytes (body request)) (Multipart.MultipartParser_make boundary Multipart.default_max_size) with
      | (Throw _, _) => (failed, s)
      | (Ok _, parser) =>
          match Multipart.Files parser with
          | [] => (Ok (MakeTextResponse 400 (json_field $"error" $"no file") json_type), s)
          | f :: _ =>
              if negb (directory_made m) then (failed, s)
              else
                let name := $"uploads/" ++ Multipart.filename f in
                (Ok (MakeTextResponse 200 ($"{" ++ quoted $"ok" ++ $":true," ++ quoted $"file" ++ $":" ++ quoted name ++ $"}") json_type),
                 mkWebState _ (db_ s) (g_next_post_id s) (scheduled s) (if file_opened m then uploads s ++ [(name, Multipart.data f)] else uploads s))
          end
      end
  end.

Definition get_root : Handler := reading (fun _ _ => Ok (Redirect $"/login")).

(** ** Routes *)

Definition routes : list (HttpMethod * str * Handler) :=
  [(Get, $"/login", get_login); (HttpMessage.Post, $"/login", post_login); (Get, $"/logout", get_logout); (Get, $"/board", get_board);
   (Get, $"/write", get_write); (HttpMessage.Post, $"/write", post_write); (Get, $"/post", get_post); (Get, $"/style.css", get_style);
   (Get, $"/api/posts", get_api_posts); (HttpMessage.Post, $"/api/posts", post_api_posts); (Get, $"/api/stream", get_api_stream);
   (HttpMessage.Post, $"/api/upload", post_api_upload); (Get, $"/", get_root)].

(** The router, with the handlers as they answer in a state *)
Definition RegisterRoutes (m : Moment) (s : WebState) : result (gmap (list byte) MethodHandlers) :=
  foldl (fun r '(method, path, h) => router ← r; '(_, router) ← Register method path (Some (fun request => (h request m s).1)) router; Ok router)
    (Ok ∅) routes.

(** The handler of a request: that of [GET] also serves [HEAD]. *)
Definition handler_of (request : HttpRequest) : option Handler :=
  snd <$> List.find (fun p => bool_decide (p.1.1 = served_by (method request)) && bool_decide (p.1.2 = path request)) routes.

(** A request is served: the response that is sent, and the state behind the handler *)
Definition serve (request : HttpRequest) (m : Moment) (close : bool) (s : WebState) : result HttpResponse * WebState :=
  (router ← RegisterRoutes m s; Ok (dispatch_task (route_request router request) request close),
   match handler_of request with Some h => (h request m s).2 | None => s end).
End webapp.
