(* ===== verification/WebAppTheory.v ===== *)
(** * The web application: sessions and posts

    What a client can do with and without a session, whatever SQLite does; and, with what
    SQLite documents about the statements that are used, that a login opens the session. *)

From S2P Require Import Prelude HttpMessage ProtocolSession HttpRouter StringMap SimpleTemplate WebAppBoard WebAppBoardTheory WebAppDatabase WebApp.

(** ** Registering *)

Definition register_step (r : result (gmap (list byte) MethodHandlers)) '(mth, p, f) : result (gmap (list byte) MethodHandlers) :=
  router ← r; '(_, router) ← Register mth p (Some f) router; Ok router.

(** A list of routes without repetitions is registered as it is. *)
Lemma register_all (l : list (HttpMethod * str * HttpHandler)) : forall r0,
  Forall (fun x => x.1.1 ∈ [Get; HttpMessage.Post; Put; Delete_] /\ front x.1.2 = Some Byte.x2f) l -> NoDup (l.*1) ->
  (forall x, x ∈ l -> registered r0 x.1.1 x.1.2 = None) ->
  exists r, foldl register_step (Ok r0) l = Ok r /\ (forall mth p f, (mth, p, f) ∈ l -> registered r mth p = Some f) /\
    forall mth p, (mth, p) ∉ l.*1 -> registered r mth p = registered r0 mth p.
Proof.
  induction l as [|[[mth p] f] l IH]; intros r0 Hl Hnd Hr; [exists r0; split_and!; [done|set_solver|done]|].
  apply Forall_cons in Hl as [[Hm Hp] Hl]. cbn in Hm, Hp, Hnd. apply NoDup_cons in Hnd as [Hn Hnd].
  destruct (router_register r0 mth p f) as (b & r1 & E & Hb & Hreg); [intros ->; set_solver|done|].
  assert (b = true) as -> by (apply Hb; split; [by apply list_elem_of_In|]; apply (Hr (mth, p, f)); by left).
  destruct (IH r1) as (r & Er & Hin & Hout); [done|done| |].
  - intros [[m' p'] f'] Hx. rewrite Hreg, decide_False; [apply Hr; by right|]. cbn. intros (_ & -> & ->). apply Hn, list_elem_of_fmap. by exists (mth, p, f').
  - exists r. split_and!.
    + cbn [foldl register_step]. cbn [mbind result_bind]. rewrite E. done.
    + intros m' p' f' [[= -> -> ->]|Hx]%elem_of_cons; [|by apply Hin]. rewrite Hout by done. rewrite Hreg. by rewrite decide_True.
    + intros m' p' Hx. cbn in Hx. apply not_elem_of_cons in Hx as [Hne Hx]. rewrite Hout by done. rewrite Hreg, decide_False; [done|].
      intros (_ & -> & ->). done.
Qed.

Lemma route_registered router request f : registered router (served_by (method request)) (path request) = Some f ->
  route_request router request = (Some f, HttpResponse_default).
Proof.
  unfold registered, route_request. destruct (router !! path request) as [h|]; [|done]. cbn.
  destruct (method request); cbn; try done; intros ->; done.
Qed.

Section webapp.
Context `{Site} `{Sqlite}.

(** ** Serving *)

Lemma routes_served m s : exists router, RegisterRoutes m s = Ok router /\
  forall mth p h, (mth, p, h) ∈ routes -> registered router mth p = Some (fun r => (h r m s).1).
Proof.
  destruct (register_all (map (fun '(mth, p, h) => (mth, p, fun r => (h r m s).1)) routes) ∅) as (router & E & Hin & _).
  - unfold routes. repeat (apply Forall_cons; split; [split; [apply (bool_decide_unpack _); done|reflexivity]|]). by apply Forall_nil.
  - apply (bool_decide_unpack _). vm_compute. done.
  - done.
  - exists router. split.
    + rewrite <- E. clear E Hin. unfold RegisterRoutes. generalize (Ok (∅ : gmap (list byte) MethodHandlers)) as acc. generalize routes as l.
      induction l as [|[[mth p] h] l IH]; intros acc; [reflexivity|]. cbn [foldl map]. apply IH.
    + intros mth p h Hr. apply Hin, list_elem_of_fmap. exists (mth, p, h). split; [reflexivity|exact Hr].
Qed.

Lemma handler_of_in request h : handler_of request = Some h -> (served_by (method request), path request, h) ∈ routes.
Proof.
  unfold handler_of. generalize routes as l. intros l E. destruct (List.find _ l) as [[[mth p] h']|] eqn:Ef; [|discriminate E]. injection E as <-.
  apply List.find_some in Ef as [Hin Hc]. cbn [fst snd] in Hc. apply andb_true_iff in Hc as [Hm%bool_decide_eq_true Hp%bool_decide_eq_true].
  subst. by apply list_elem_of_In.
Qed.

(** The response to a request for a route is that of its handler, or 500 if it throws. *)
Lemma serve_handler request m close s h : handler_of request = Some h ->
  serve request m close s = (Ok (dispatch_task (Some (fun r => (h r m s).1), HttpResponse_default) request close), (h request m s).2).
Proof.
  intros E. unfold serve. rewrite E. f_equal. destruct (routes_served m s) as (router & Er & Hr). rewrite Er. cbn [mbind result_bind].
  rewrite (route_registered router request (fun r => (h r m s).1)); [reflexivity|]. apply Hr. by apply handler_of_in.
Qed.

(** What the client gets from a handler that answers *)
Definition sent (request : HttpRequest) (close : bool) (r : HttpResponse) : HttpResponse :=
  let r := set_close (close_connection r || close) r in
  if decide (method request = Head) then mkResponse (status_code r) (reason_phrase r) (resp_headers r) [] (close_connection r) else r.

Lemma serve_answer request m close s h r s' : handler_of request = Some h -> h request m s = (Ok r, s') -> serve request m close s = (Ok (sent request close r), s').
Proof. intros Hh E. rewrite (serve_handler _ _ _ _ _ Hh). unfold dispatch_task. cbn [fst]. by rewrite E. Qed.

(** ** Without a session *)

Definition protected : list (HttpMethod * str) := [(Get, $"/board"); (Get, $"/write"); (HttpMessage.Post, $"/write"); (Get, $"/post")].

(** Whom the database takes a request for: nobody without a cookie, else what the query for the cookie finds. *)
Definition visitor (request : HttpRequest) (s : WebState) : result str :=
  if decide (ExtractSessionId request = []) then Ok [] else LoadSession (ExtractSessionId request) (db_ s).

Lemma no_session_visitor request s :
  no_session request s = (user ← visitor request s; Ok (bool_decide (user = []))).
Proof.
  unfold no_session, visitor, ValidateSession. case_decide; case_bool_decide; try done. destruct (LoadSession _ _) as [u|]; [|done].
  cbn. by case_bool_decide.
Qed.

Lemma protected_handler request : (served_by (method request), path request) ∈ protected ->
  exists k, handler_of request = Some (with_session k).
Proof.
  unfold protected. intros Hin. unfold handler_of. repeat (apply elem_of_cons in Hin as [[= -> ->]|Hin]; [eexists; reflexivity|]).
  by apply not_elem_of_nil in Hin.
Qed.


(** Reading: no [GET] or [HEAD] changes the state, but for the logout. *)
Lemma get_is_safe request m close s : served_by (method request) = Get -> path request <> $"/logout" -> (serve request m close s).2 = s.
Proof.
  intros Hm Hp. unfold serve. cbn [snd]. destruct (handler_of request) as [h|] eqn:E; [|reflexivity]. apply handler_of_in in E.
  rewrite Hm in E. clear Hm.
  assert (Hws : forall k, (with_session (fun session => reading (k session)) request m s).2 = s).
  { intros k. unfold with_session. by destruct (no_session request s) as [[]|]. }
  unfold routes in E. repeat (apply elem_of_cons in E as [E|E]; [try discriminate E; injection E as Ep Eh; subst h; first [reflexivity|apply Hws|destruct Hp; exact Ep]|]).
  by apply not_elem_of_nil in E.
Qed.

(** ** A new post *)

(** A request with a session, and the user that it belongs to *)
Definition logged_in (request : HttpRequest) (user : str) (s : WebState) : Prop :=
  ExtractSessionId request <> [] /\ LoadSession (ExtractSessionId request) (db_ s) = Ok user /\ user <> [].

Lemma with_session_logged_in k request m user s : logged_in request user s -> with_session k request m s = k (ExtractSessionId request) request m s.
Proof.
  intros (Hc & Hl & Hu). unfold with_session, no_session, ValidateSession. rewrite bool_decide_eq_false_2, Hl by done. cbn.
  by rewrite bool_decide_eq_false_2.
Qed.

(** A text that SQL reads as it is when it stands in apostrophes, and that C reads to its end *)
Definition plain (s : str) : Prop := clean s /\ Byte.x00 ∉ s.

Lemma c_str_plain s : Byte.x00 ∉ s -> c_str s = s.
Proof.
  intros Hs. unfold c_str. rewrite find_zero. assert (E : find_first [Byte.x00] s = None); [|by rewrite E].
  induction s as [|a l IH]; [done|]. apply not_elem_of_cons in Hs as [Ha Hl]. cbn. rewrite bool_decide_eq_false_2 by done. cbn. by rewrite IH.
Qed.

Lemma HtmlEscape_plain s : plain s -> plain (HtmlEscape s).
Proof.
  assert (Hx : forall x, x ∈ [APOSTROPHE; Byte.x00] -> x ∉ s -> x ∉ HtmlEscape s).
  { intros x Hq Hs Hin. apply list_elem_of_In, in_concat in Hin as (l & Hl & Hin). apply in_map_iff in Hl as (c & <- & Hc).
    apply list_elem_of_In in Hc, Hin. destruct (decide (c = x)) as [->|Hne]; [done|].
    rewrite !elem_of_cons, elem_of_nil in Hq. destruct Hq as [-> |[-> |[]]]; destruct c; cbn in Hin; set_solver. }
  intros [H1 H2]. split; apply Hx; set_solver.
Qed.

Lemma InsertPost_plain title author content date : plain title -> plain author -> plain content -> plain date ->
  let sql := InsertPost_sql title author content date in c_str sql = sql /\ sql_literals sql = Some [title; author; content; date].
Proof.
  intros [Ht Ht0] [Ha Ha0] [Hc Hc0] [Hd Hd0] sql. split.
  - apply c_str_plain. unfold sql, InsertPost_sql, in_quotes. rewrite !not_elem_of_app.
    split_and!; try done; apply (bool_decide_unpack _); by vm_compute.
  - by apply (sql_texts title author content date [] []); try apply not_elem_of_nil.
Qed.

(** C39. A post that a user with a session writes.  When the browser sends a title and a content
    that are not empty, whatever their bytes are, the form is read back exactly, and one text is
    given to SQLite: [InsertPost_sql] of the title and the content escaped for HTML, the name of the
    user and the date, up to its first zero byte; nothing else changes but the counter of posts.
    The user is sent to the board, or gets an error and the end of the connection if SQLite
    refuses.  If no apostrophe and no zero byte is in the title, the content, the name and the
    date, the text is a whole and its SQL literals are exactly these four, so what the user wrote
    is data.  Otherwise it need not be: an apostrophe is not escaped on the way and breaks the
    statement, or is SQL ([title_breaks_statement]), and a zero byte ends the text. *)
Theorem post_written request m close s t c user : method request = HttpMessage.Post -> path request = $"/write" -> body request = write_body t c ->
  logged_in request user s -> t <> [] -> c <> [] ->
  let sql := InsertPost_sql (HtmlEscape t) user (HtmlEscape c) (date m) in
  (let '(accepted, db) := sqlite3_exec (c_str sql) (db_ s) in
   serve request m close s =
     (Ok (if accepted : bool then set_close close (Redirect $"/board")
          else set_close true (text_response 500 ($"internal server error" ++ [LF]))),
      mkWebState _ db (u64 (g_next_post_id s + 1)) (scheduled s) (uploads s))) /\
  (plain t -> plain c -> plain user -> plain (date m) ->
   c_str sql = sql /\ sql_literals sql = Some [HtmlEscape t; user; HtmlEscape c; date m]).
Proof.
  intros Hm Hp Hb Hu Ht Hc sql. split; [|by intros; apply InsertPost_plain; [apply HtmlEscape_plain|done|apply HtmlEscape_plain|done]].
  subst sql. assert (Hh : handler_of request = Some post_write) by (unfold handler_of; rewrite Hm, Hp; reflexivity).
  rewrite (serve_handler _ _ _ _ _ Hh). unfold dispatch_task. cbn [fst]. unfold post_write.
  rewrite (with_session_logged_in _ _ _ user _ Hu). rewrite Hb. unfold StringFromBytes. rewrite write_form_roundtrip.
  rewrite (bool_decide_eq_false_2 (t = [])), (bool_decide_eq_false_2 (c = [])) by assumption. cbn [orb]. unfold GetUsername. destruct Hu as (_ & -> & _).
  unfold add_new_post, CreatePost. rewrite (decide_False (P := t = [])), (decide_False (P := c = [])) by assumption. unfold AddPost, InsertPost, Execute. cbn [title author content db_].
  destruct (sqlite3_exec _ (db_ s)) as [[] db]; cbn [mbind result_bind]; (rewrite decide_False by congruence); reflexivity.
Qed.

(** ** Login *)

(** What SQLite documents for the two statements: an inserted session is found. *)
Definition keeps_sessions : Prop := forall db token user date db', plain token -> plain user -> plain date ->
  sqlite3_exec (c_str (SaveSession_sql token user date)) db = (true, db') ->
  exists row rest, sqlite3_rows (c_str (LoadSession_sql token)) db' = row :: rest /\ column_text row 0 = Some user.

Definition login_body (u p : str) : str := $"username=" ++ u ++ $"&password=" ++ p.

Lemma users_login u p : (u, p) ∈ kUsers -> login_form (login_body u p) = (u, p) /\ TryLogin u p = u /\ u <> [] /\ plain u.
Proof.
  unfold kUsers. intros Hin. repeat (apply elem_of_cons in Hin as [[= -> ->]|Hin]; [split_and!; [done..|by split; apply (bool_decide_unpack _); vm_compute]|]).
  by apply not_elem_of_nil in Hin.
Qed.

Lemma hex_low_clean n : hex_low (n mod 16) ∉ [APOSTROPHE; Byte.x00; SEMICOLON].
Proof.
  assert (Hm : 0 <= n mod 16 < 16) by (apply Z.mod_pos_bound; lia). revert Hm. generalize (n mod 16) as d. intros d Hd.
  assert (Hc : d ∈ [0; 1; 2; 3; 4; 5; 6; 7; 8; 9; 10; 11; 12; 13; 14; 15]) by (rewrite !elem_of_cons, elem_of_nil; lia).
  assert (Hall : Forall (fun d => hex_low d ∉ [APOSTROPHE; Byte.x00; SEMICOLON]) [0; 1; 2; 3; 4; 5; 6; 7; 8; 9; 10; 11; 12; 13; 14; 15])
    by (apply (bool_decide_unpack _); by vm_compute).
  rewrite Forall_forall in Hall. by apply Hall.
Qed.

Lemma hex_digits_clean x width : x ∈ [APOSTROPHE; Byte.x00; SEMICOLON] -> forall n acc, x ∉ acc -> x ∉ hex_digits width n acc.
Proof.
  intros Hx. induction width as [|width IH]; intros n acc Ha; [done|]. cbn. apply IH, not_elem_of_cons. split; [|done].
  intros ->. by apply (hex_low_clean n).
Qed.

Lemma token_clean x n : x ∈ [APOSTROPHE; Byte.x00; SEMICOLON] -> x ∉ GenerateSessionToken n.
Proof. intros Hx. apply hex_digits_clean; [done|apply not_elem_of_nil]. Qed.

Lemma hex_digits_length width : forall n acc, length (hex_digits width n acc) = (width + length acc)%nat.
Proof. induction width as [|width IH]; intros n acc; [done|]. cbn. rewrite IH. cbn. lia. Qed.

(** The cookie with a token is read as the token. *)
Lemma cookie_read request token : Header request $"cookie" = Some (kCookie ++ token) -> SEMICOLON ∉ token -> ExtractSessionId request = token.
Proof.
  intros E Ht. unfold ExtractSessionId. rewrite E, find_zero, find_first_here. change (0 + length kCookie)%nat with (length kCookie).
  rewrite find_app. assert (Hn : find_first [SEMICOLON] token = None).
  { clear E. induction token as [|a l IH]; [done|]. apply not_elem_of_cons in Ht as [Ha Hl]. cbn. rewrite bool_decide_eq_false_2 by done. cbn. by rewrite IH. }
  rewrite Hn. cbn [fmap option_fmap option_map]. apply drop_app_length.
Qed.

(** C38. A login opens a session, given what SQLite documents: a user of the table with his
    password who sends the login form is sent to the board with a cookie that has a new token; a
    request that brings this cookie back is taken for the user, on all pages behind the
    login, and the end of the session is scheduled. *)
Theorem login_opens_session request m close s u p db : keeps_sessions -> (u, p) ∈ kUsers -> plain (date m) ->
  method request = HttpMessage.Post -> path request = $"/login" -> body request = login_body u p ->
  sqlite3_exec (c_str (SaveSession_sql (GenerateSessionToken (random m)) u (date m))) (db_ s) = (true, db) ->
  exists s', serve request m close s =
    (Ok (mkResponse 302 [] [mkHeader $"Location" $"/board"; mkHeader $"Set-Cookie" (session_cookie (GenerateSessionToken (random m)))] [] close), s') /\
    scheduled s' = scheduled s ++ [GenerateSessionToken (random m)] /\
    forall later, Header later $"cookie" = Some (kCookie ++ GenerateSessionToken (random m)) -> logged_in later u s'.
Proof.
  intros Hk Hin Hd Hm Hp Hb Hx. destruct (users_login u p Hin) as (Hf & Hl & Hu & Hpu).
  assert (Hh : handler_of request = Some post_login) by (unfold handler_of; rewrite Hm, Hp; reflexivity).
  set (token := GenerateSessionToken (random m)) in *.
  assert (Ht : plain token) by (split; apply token_clean; [by left|right; by left]).
  destruct (Hk (db_ s) token u (date m) db Ht Hpu Hd Hx) as (row & rest & Er & Et).
  exists (mkWebState _ db (g_next_post_id s) (scheduled s ++ [token]) (uploads s)). split_and!; [|done|].
  - rewrite (serve_answer request m close s post_login
      (mkResponse 302 [] [mkHeader $"Location" $"/board"; mkHeader $"Set-Cookie" (session_cookie token)] [] false)
      (mkWebState _ db (g_next_post_id s) (scheduled s ++ [token]) (uploads s)) Hh).
    + unfold sent. by rewrite decide_False by congruence.
    + unfold post_login. rewrite Hb. unfold StringFromBytes. rewrite Hf, Hl, bool_decide_eq_false_2 by done.
      unfold AddSession, SaveSession, Execute. fold token. by rewrite Hx.
  - intros later Hc. unfold logged_in. rewrite (cookie_read later token Hc) by (apply token_clean; right; right; by left). split_and!; [|change (LoadSession token db = Ok u)|done].
    + intros E. apply (f_equal length) in E. unfold token, GenerateSessionToken in E. by rewrite hex_digits_length in E.
    + unfold LoadSession. rewrite Er. unfold text_of. by rewrite Et.
Qed.
End webapp.

(** ** Examples *)

(** A database that keeps sessions: it reads the literals of the statements. *)
#[local] Instance example_sqlite : Sqlite := {|
  DB := list (str * str);
  Row := str;
  sqlite3_exec := fun sql db => (true, match sql_literals sql with Some [token; user; _] => (token, user) :: db | _ => db end);
  sqlite3_rows := fun sql db => match sql_literals sql with Some [token] => map snd (List.filter (fun p => bool_decide (p.1 = token)) db) | _ => [] end;
  column_int64 := fun _ _ => 0;
  column_text := fun row _ => Some row;
  sqlite3_last_insert_rowid := fun _ => 0;
|}.
#[local] Instance example_site : Site := {| home_file := fun name => Some ($"<h1>{{title}}</h1>" ++ $"{{posts}}{{rows}}"); FormatDate := fun _ => $"1970-01-01 09:00" |}.

Lemma example_keeps_sessions : keeps_sessions.
Proof.
  intros db token user date db' [Ht Ht0] [Hu Hu0] [Hd Hd0] E.
  assert (H1 : Byte.x00 ∉ SaveSession_sql token user date)
    by (unfold SaveSession_sql, in_quotes; rewrite !not_elem_of_app; split_and!; try done; apply (bool_decide_unpack _); by vm_compute).
  assert (H2 : Byte.x00 ∉ LoadSession_sql token)
    by (unfold LoadSession_sql, in_quotes; rewrite !not_elem_of_app; split_and!; try done; apply (bool_decide_unpack _); by vm_compute).
  rewrite (c_str_plain _ H1) in E. rewrite (c_str_plain _ H2).
  destruct (sql_texts [] [] [] date token user) as (_ & Es & El & _); [apply not_elem_of_nil..|done|done|done|].
  cbn [sqlite3_exec sqlite3_rows example_sqlite] in *. rewrite Es in E. injection E as <-. rewrite El. cbn [List.filter fst].
  rewrite bool_decide_eq_true_2 by done. cbn [map snd]. by eexists _, _.
Qed.

Definition example_moment : Moment := mkMoment 0 $"2024-01-01 00:00:00" 255 (fun l => l) true true.
Definition example_state : WebState := mkWebState _ [] 1 [] [].
Definition request_of (mth : HttpMethod) (p b : str) (hs : list HttpHeader) : HttpRequest := mkRequest mth [] [] p [] hs b true 1 1.

Definition login_request : HttpRequest := request_of HttpMessage.Post $"/login" (login_body $"admin" $"admin123") [].
Definition board_request (hs : list HttpHeader) : HttpRequest := request_of Get $"/board" [] hs.
Definition token_cookie : HttpHeader := mkHeader $"Cookie" (kCookie ++ GenerateSessionToken 255).
Definition write_request : HttpRequest := request_of HttpMessage.Post $"/write" (write_body $"a & b" $"1 < 2") [token_cookie].
Definition example_open : WebState := (serve login_request example_moment false example_state).2.


Lemma login_opens_session_witness : logged_in (board_request [token_cookie]) $"admin" example_open.
Proof.
  destruct (login_opens_session login_request example_moment false example_state $"admin" $"admin123" [(GenerateSessionToken 255, $"admin")]
    example_keeps_sessions ltac:(left) ltac:(split; apply (bool_decide_unpack _); by vm_compute) eq_refl eq_refl eq_refl ltac:(by vm_compute))
    as (s' & E & _ & Hl).
  unfold example_open. rewrite E. apply Hl. reflexivity.
Defined.

Lemma post_written_witness : g_next_post_id (serve write_request example_moment false example_open).2 = 2 /\
  sql_literals (InsertPost_sql (HtmlEscape $"a & b") $"admin" (HtmlEscape $"1 < 2") (date example_moment)) =
    Some [$"a &amp; b"; $"admin"; $"1 &lt; 2"; $"2024-01-01 00:00:00"].
Proof.
  assert (Hl : logged_in write_request $"admin" example_open) by (split_and!; [discriminate|by vm_compute|discriminate]).
  pose proof (post_written write_request example_moment false example_open $"a & b" $"1 < 2" $"admin" eq_refl eq_refl eq_refl Hl
    ltac:(discriminate) ltac:(discriminate)) as [Hw Hp]. split.
  - destruct (sqlite3_exec _ _) as [ok db]. rewrite Hw. by vm_compute.
  - apply Hp; split; apply (bool_decide_unpack _); by vm_compute.
Defined.

Lemma pages_markup_fixed_witness : exists r r', HandlePostDetail (mkPost 1 $"<b>" $"u" $"x" 0) = Ok r /\ HandlePostDetail (mkPost 1 $"t" $"u" $"y" 0) = Ok r' /\
  markup (resp_body r) = markup (resp_body r').
Proof.
  eexists _, _. split; [reflexivity|]. split; [reflexivity|].
  eapply (pages_markup_fixed $"u" $"v" [] [] (mkPost 1 $"<b>" $"u" $"x" 0) (mkPost 1 $"t" $"u" $"y" 0));
    [constructor|by split|reflexivity|reflexivity|reflexivity|reflexivity].
Defined.

(** A cookie with apostrophes reaches the statement as it is. *)
Lemma injected_cookie_text : ExtractSessionId (board_request [mkHeader $"Cookie" (kCookie ++ injected_token)]) = injected_token.
Proof. reflexivity. Qed.

(** Every post is shown with the date of time zero. *)
Lemma posts_have_no_date (p : DbPost) : created_at (to_post p) = 0.
Proof. reflexivity. Qed.
