(* ===== verification/WebAppConfiguration.v ===== *)
(** * Options of the web application

    [configuration.h] and [configuration.cpp] of the web application.  Unlike the servers it
    looks up the options that it knows instead of going through the command line, and it looks
    for its templates. *)

From S2P Require Import Prelude HttpMessage StringMap TcpListener ConfigUtils.
From S2P Require HttpConfiguration.

Record WebAppOptions := mkWebAppOptions {
  home_directory : str;
  listener : ListenerOptions;
  shutdown_timeout : Z;
}.

(** [config_file] is never set and left out. *)
Record WebAppApplicationOptions := mkWebAppApplicationOptions {
  server : WebAppOptions;
  show_help : bool;
}.

Definition set_home (v : str) (o : WebAppApplicationOptions) : WebAppApplicationOptions :=
  mkWebAppApplicationOptions (mkWebAppOptions v (listener (server o)) (shutdown_timeout (server o))) (show_help o).
Definition set_listener (v : ListenerOptions) (o : WebAppApplicationOptions) : WebAppApplicationOptions :=
  mkWebAppApplicationOptions (mkWebAppOptions (home_directory (server o)) v (shutdown_timeout (server o))) (show_help o).
Definition set_timeout (v : Z) (o : WebAppApplicationOptions) : WebAppApplicationOptions :=
  mkWebAppApplicationOptions (mkWebAppOptions (home_directory (server o)) (listener (server o)) v) (show_help o).
Definition set_help (o : WebAppApplicationOptions) : WebAppApplicationOptions := mkWebAppApplicationOptions (server o) true.

(** What is used of the file system besides [Platform]: [std::filesystem::absolute], and the directory of the sources that the build sets. *)
Class Home := {
  absolute : str -> result str;
  IOCP_SOURCE_DIR : str;
}.

Definition WebAppApplicationOptions_default `{Home} : WebAppApplicationOptions :=
  let l := ListenerOptions_default in
  mkWebAppApplicationOptions
    (mkWebAppOptions (path_append (path_append (path_append IOCP_SOURCE_DIR $"apps") $"webapp") $"templates")
       (mkListenerOptions (address l) 8080 (backlog l) (exclusive_address_use l) (reuse_address l)) (10 * 1000)) false.

Definition ApplyOption (o : WebAppApplicationOptions) (name value : str) : result WebAppApplicationOptions :=
  let l := listener (server o) in
  if decide (name = $"address") then
    if decide (value = []) then Throw invalid_argument
    else Ok (set_listener (mkListenerOptions value (port l) (backlog l) (exclusive_address_use l) (reuse_address l)) o)
  else if decide (name = $"port") then
    z ← ParseUnsigned value 65535 true; Ok (set_listener (mkListenerOptions (address l) z (backlog l) (exclusive_address_use l) (reuse_address l)) o)
  else if decide (name = $"backlog") then
    z ← ParseUnsigned value HttpConfiguration.INT_MAX false;
    Ok (set_listener (mkListenerOptions (address l) (port l) z (exclusive_address_use l) (reuse_address l)) o)
  else if decide (name = $"home-dir") then
    if decide (value = []) then Throw invalid_argument else Ok (set_home value o)
  else if decide (name = $"shutdown-timeout-ms") then
    z ← ParseUnsigned value HttpConfiguration.MILLISECONDS_MAX false; Ok (set_timeout z o)
  else Throw invalid_argument.

Section Load.
Context {T : Toml} {P : Platform T} `{Home}.

(** [apply_int]: a negative number is passed over. *)
Definition apply_int (server : table) (key : str) (o : WebAppApplicationOptions) : result WebAppApplicationOptions :=
  value ← ReadTomlInt server key;
  match value with
  | Some z => if 0 <=? z then ApplyOption o (TomlKeyToCli key) (to_string z) else Ok o
  | None => Ok o
  end.

Definition apply_str (server : table) (key : str) (o : WebAppApplicationOptions) : result WebAppApplicationOptions :=
  value ← ReadTomlStr server key;
  match value with Some s => ApplyOption o (TomlKeyToCli key) s | None => Ok o end.

Definition kSchemaVersion : Z := 1.

Definition ApplyToml (o : WebAppApplicationOptions) (path : str) : result WebAppApplicationOptions :=
  match parse_file path with
  | None => Throw invalid_argument
  | Some root =>
      if match get root $"schema_version" with None => false | Some n => negb (bool_decide (value_int64 n = Some kSchemaVersion)) end
      then Throw invalid_argument
      else
        server ← OptionalTable root $"server";
        match server with
        | None => Ok o
        | Some server =>
            _ ← RejectUnknownKeys server [$"address"; $"port"; $"backlog"; $"shutdown_timeout_ms"; $"home_dir"];
            o ← apply_int server $"port" o;
            o ← apply_int server $"backlog" o;
            o ← apply_int server $"shutdown_timeout_ms" o;
            o ← apply_str server $"address" o;
            apply_str server $"home_dir" o
        end
  end.

(** [if (const auto val = cli.Option(name); !val.empty()) ApplyOption(options, name, val);] *)
Definition apply_cli_option (cli : CliParser) (name : str) (o : WebAppApplicationOptions) : result WebAppApplicationOptions :=
  let val := Option_ cli name [] in
  if decide (val = []) then Ok o else ApplyOption o name val.

Definition ApplyCli (o : WebAppApplicationOptions) (cli : CliParser) : result WebAppApplicationOptions :=
  o ← apply_cli_option cli $"port" o;
  o ← apply_cli_option cli $"address" o;
  o ← apply_cli_option cli $"home-dir" o;
  o ← apply_cli_option cli $"shutdown-timeout-ms" o;
  match Positional cli with
  | [] => Ok o
  | first :: _ => ApplyOption o $"port" first
  end.

(** The loop over the levels above the program: the first directory with templates *)
Fixpoint search_templates (exe_dir : str) (levels : list nat) : result (option str) :=
  match levels with
  | [] => Ok None
  | n :: levels =>
      candidate ← absolute (path_append (path_append (path_append (climb n exe_dir) $"share") $"webapp") $"templates");
      found ← exists_ candidate;
      if (found : bool) then Ok (Some candidate) else search_templates exe_dir levels
  end.

Definition Validate (o : WebAppApplicationOptions) : result WebAppApplicationOptions :=
  if backlog (listener (server o)) <=? 0 then Throw invalid_argument
  else if decide (home_directory (server o) = []) then Throw invalid_argument
  else
    home ← absolute (home_directory (server o));
    let o := set_home home o in
    found ← exists_ home;
    if (found : bool) then Ok o
    else
      candidate ← match module_directory with None => Ok None | Some exe_dir => search_templates exe_dir [1; 2; 3]%nat end;
      match candidate with
      | Some c => Ok (set_home c o)
      | None => Throw invalid_argument
      end.

Definition LoadWebAppOptions (arguments : list str) : result WebAppApplicationOptions :=
  cli ← CliParser_make arguments;
  let o := WebAppApplicationOptions_default in
  if cli_show_help cli then Ok (set_help o)
  else
    config ← FindConfigFile cli $"webapp.toml";
    o ← match config with Some path => ApplyToml o path | None => Ok o end;
    o ← ApplyCli o cli;
    Validate o.

(** ** What the options are *)

Record usable (o : WebAppApplicationOptions) : Prop := {
  us_port : 0 <= port (listener (server o)) <= 65535;
  us_backlog : 0 < backlog (listener (server o)) <= HttpConfiguration.INT_MAX;
  us_address : address (listener (server o)) <> [];
  us_timeout : 0 < shutdown_timeout (server o) <= HttpConfiguration.MILLISECONDS_MAX;
  us_help : show_help o = false;
}.

Lemma usable_default : usable WebAppApplicationOptions_default.
Proof. by split; vm_compute. Qed.

Lemma usable_home h o : usable o -> usable (set_home h o).
Proof. by intros []. Qed.

Lemma usable_option o name value o' : usable o -> ApplyOption o name value = Ok o' -> usable o'.
Proof.
  intros [H1 H2 H3 H4 H5] E. unfold ApplyOption in E. repeat case_decide; try discriminate E.
  - by injection E as <-.
  - apply result_bind_Ok in E as (z & Ez & E). injection E as <-. split; try done. by apply ParseUnsigned_range in Ez.
  - apply result_bind_Ok in E as (z & Ez & E). injection E as <-. split; try done. by apply ParseUnsigned_positive in Ez.
  - by injection E as <-.
  - apply result_bind_Ok in E as (z & Ez & E). injection E as <-. split; try done. by apply ParseUnsigned_positive in Ez.
Qed.

Lemma usable_int t key o o' : usable o -> apply_int t key o = Ok o' -> usable o'.
Proof.
  intros Hu E. unfold apply_int in E. apply result_bind_Ok in E as ([z|] & _ & E); [|congruence]. destruct (0 <=? z); [by eapply usable_option|congruence].
Qed.
Lemma usable_str t key o o' : usable o -> apply_str t key o = Ok o' -> usable o'.
Proof. intros Hu E. unfold apply_str in E. apply result_bind_Ok in E as ([z|] & _ & E); [by eapply usable_option|congruence]. Qed.
Lemma usable_cli_option cli name o o' : usable o -> apply_cli_option cli name o = Ok o' -> usable o'.
Proof. intros Hu E. unfold apply_cli_option in E. case_decide; [congruence|by eapply usable_option]. Qed.

Lemma usable_toml path o o' : usable o -> ApplyToml o path = Ok o' -> usable o'.
Proof.
  intros Hu E. unfold ApplyToml in E. destruct (parse_file path) as [root|]; [|done]. case_match; [done|].
  apply result_bind_Ok in E as ([t|] & _ & E); [|congruence]. apply result_bind_Ok in E as (_ & _ & E).
  apply result_bind_Ok in E as (o1 & E1 & E). apply usable_int in E1; [|done]. apply result_bind_Ok in E as (o2 & E2 & E). apply usable_int in E2; [|done].
  apply result_bind_Ok in E as (o3 & E3 & E). apply usable_int in E3; [|done]. apply result_bind_Ok in E as (o4 & E4 & E). apply usable_str in E4; [|done].
  by apply usable_str in E.
Qed.

Lemma usable_cli cli o o' : usable o -> ApplyCli o cli = Ok o' -> usable o'.
Proof.
  intros Hu E. unfold ApplyCli in E. apply result_bind_Ok in E as (o1 & E1 & E). apply usable_cli_option in E1; [|done].
  apply result_bind_Ok in E as (o2 & E2 & E). apply usable_cli_option in E2; [|done]. apply result_bind_Ok in E as (o3 & E3 & E). apply usable_cli_option in E3; [|done].
  apply result_bind_Ok in E as (o4 & E4 & E). apply usable_cli_option in E4; [|done]. destruct (Positional cli); [congruence|by eapply usable_option].
Qed.

Lemma search_templates_exists exe_dir levels c : search_templates exe_dir levels = Ok (Some c) -> exists_ c = Ok true.
Proof.
  induction levels as [|n levels IH]; [done|]. cbn [search_templates]. intros E. apply result_bind_Ok in E as (p & _ & E).
  apply result_bind_Ok in E as ([] & Ef & E); [congruence|by apply IH].
Qed.

(** The options the web application starts with can be used: the port and the other numbers are in range, the address is not empty, and
    the directory with the templates exists. *)
Lemma webapp_options_usable arguments o : LoadWebAppOptions arguments = Ok o ->
  show_help o = true \/ (usable o /\ exists_ (home_directory (server o)) = Ok true).
Proof.
  unfold LoadWebAppOptions. intros E. apply result_bind_Ok in E as (cli & _ & E). destruct (cli_show_help cli); [injection E as <-; by left|right].
  apply result_bind_Ok in E as (config & _ & E). apply result_bind_Ok in E as (o1 & E1 & E). apply result_bind_Ok in E as (o2 & E2 & E).
  assert (Hu : usable o2).
  { apply (usable_cli cli o1); [|done]. destruct config as [path|]; [by eapply usable_toml; [apply usable_default|]|]. injection E1 as <-. apply usable_default. }
  unfold Validate in E. destruct (_ <=? 0); [done|]. case_decide; [done|]. apply result_bind_Ok in E as (home & _ & E).
  apply result_bind_Ok in E as ([] & Ef & E); [injection E as <-; split; [by apply usable_home|done]|].
  apply result_bind_Ok in E as ([c|] & Ec & E); [|done]. injection E as <-. split; [by apply usable_home, usable_home|].
  destruct module_directory; [by apply search_templates_exists in Ec|done].
Qed.

(** The port comes from the first positional argument, else from [--port] unless its value is empty. *)
Lemma webapp_port cli o o' : ApplyCli o cli = Ok o' ->
  match Positional cli, Option_ cli $"port" [] with
  | first :: _, _ => ParseUnsigned first 65535 true = Ok (port (listener (server o')))
  | [], [] => port (listener (server o')) = port (listener (server o))
  | [], value => ParseUnsigned value 65535 true = Ok (port (listener (server o')))
  end.
Proof.
  intros E. unfold ApplyCli in E. apply result_bind_Ok in E as (o1 & E1 & E). apply result_bind_Ok in E as (o2 & E2 & E).
  apply result_bind_Ok in E as (o3 & E3 & E). apply result_bind_Ok in E as (o4 & E4 & E).
  assert (H4 : port (listener (server o4)) = port (listener (server o1))).
  { assert (Hk : forall name a b, name = $"address" \/ name = $"home-dir" \/ name = $"shutdown-timeout-ms" -> apply_cli_option cli name a = Ok b ->
      port (listener (server b)) = port (listener (server a))).
    { intros name a b Hn Eb. unfold apply_cli_option in Eb. cbv zeta in Eb. destruct (decide (Option_ cli name [] = [])) as [|Hv]; [congruence|].
      revert Eb Hv. generalize (Option_ cli name []) as v. intros v Eb Hv. destruct Hn as [->|[->| ->]]; unfold ApplyOption in Eb; cbn in Eb.
      - destruct (decide (v = [])); [done|]. by injection Eb as <-.
      - destruct (decide (v = [])); [done|]. by injection Eb as <-.
      - apply result_bind_Ok in Eb as (z & _ & Eb). by injection Eb as <-. }
    rewrite (Hk _ _ _ ltac:(right; right; done) E4), (Hk _ _ _ ltac:(right; left; done) E3). by apply (Hk _ _ _ ltac:(left; done)). }
  destruct (Positional cli) as [|first rest].
  - injection E as <-. rewrite H4. unfold apply_cli_option in E1. destruct (Option_ cli $"port" []) as [|c v]; [by injection E1 as <-|].
    unfold ApplyOption in E1. cbn in E1. apply result_bind_Ok in E1 as (z & Ez & E1). by injection E1 as <-.
  - unfold ApplyOption in E. cbn in E. apply result_bind_Ok in E as (z & Ez & E). by injection E as <-.
Qed.
End Load.
