(* ===== verification/SocketOptions.v ===== *)
(** * The options of a connected socket

    [TcpConnection::ApplySocketOptions] and the options it uses. *)

From S2P Require Import Prelude.

Record ConnectedSocketOptions := mkSocketOptions {
  tcp_nodelay : bool;
  keepalive_enabled : bool;
  keepalive_idle_sec : Z;
  keepalive_interval_sec : Z;
}.

Definition ConnectedSocketOptions_default : ConnectedSocketOptions := mkSocketOptions true false 7200 75.

(** The options that are set; all of them to [TRUE] *)
Inductive SocketOption := TCP_NODELAY | SO_KEEPALIVE.

(** [socket] says whether the connection has a socket, [answer] whether [setsockopt] succeeds.  The result, and the calls *)
Definition ApplySocketOptions (socket : bool) (answer : SocketOption -> bool) (o : ConnectedSocketOptions) : bool * list SocketOption :=
  if negb socket then (false, [])
  else
    let result := true in
    let '(result, calls) := if tcp_nodelay o then (if answer TCP_NODELAY then result else false, [TCP_NODELAY]) else (result, []) in
    if keepalive_enabled o then (if answer SO_KEEPALIVE then result else false, calls ++ [SO_KEEPALIVE]) else (result, calls).

(** Exactly the options that are enabled are set, each once, and a failure of one does not keep the other from being set; the result says
    whether all of them could be. *)
Lemma socket_options_applied answer o : let '(result, calls) := ApplySocketOptions true answer o in
  (TCP_NODELAY ∈ calls <-> tcp_nodelay o = true) /\ (SO_KEEPALIVE ∈ calls <-> keepalive_enabled o = true) /\ NoDup calls /\
  result = forallb answer calls.
Proof.
  unfold ApplySocketOptions. destruct (tcp_nodelay o), (keepalive_enabled o), (answer TCP_NODELAY) eqn:E1, (answer SO_KEEPALIVE) eqn:E2; cbn;
    rewrite ?E1, ?E2; split_and!; try done; rewrite ?list_elem_of_In; cbn; try naive_solver; repeat (apply NoDup_cons_2; [set_solver|]); apply NoDup_nil_2.
Qed.

(** The times of keepalive have no effect. *)
Lemma keepalive_times_unused socket answer nodelay enabled idle interval idle' interval' :
  ApplySocketOptions socket answer (mkSocketOptions nodelay enabled idle interval) =
  ApplySocketOptions socket answer (mkSocketOptions nodelay enabled idle' interval').
Proof. done. Qed.
