(* ===== verification/PlatformWindows.v ===== *)
(** * Sockets and Winsock

    [SocketHandle] of [socket_handle.h] and [WinsockRuntime] of [winsock_runtime.h] and
    [winsock_runtime.cpp].  A socket of the system is a number; what the methods give to
    [closesocket], [WSAStartup] and [WSACleanup] is part of their results. *)

From S2P Require Import Prelude Logging.

(** ** Handles *)

(** [SOCKET] is an unsigned integer of 64 bits. *)
Definition INVALID_SOCKET : Z := 2 ^ 64 - 1.

Record SocketHandle := mkSocketHandle { socket_ : Z }.

Definition SocketHandle_default : SocketHandle := mkSocketHandle INVALID_SOCKET.

Definition Get (h : SocketHandle) : Z := socket_ h.
Definition valid (h : SocketHandle) : bool := negb (socket_ h =? INVALID_SOCKET).

Definition Release (h : SocketHandle) : Z * SocketHandle := (socket_ h, mkSocketHandle INVALID_SOCKET).

(** With the sockets that are closed *)
Definition Reset (socket : Z) (h : SocketHandle) : list Z * SocketHandle :=
  (if socket_ h =? INVALID_SOCKET then [] else [socket_ h], mkSocketHandle socket).

Definition destroy (h : SocketHandle) : list Z := (Reset INVALID_SOCKET h).1.

(** The new handle and what is left of the other one *)
Definition move_construct (other : SocketHandle) : SocketHandle * SocketHandle :=
  let '(s, other) := Release other in (mkSocketHandle s, other).

(** The assignment of one handle to another; [this] and [other] are not the same object. *)
Definition move_assign (this other : SocketHandle) : list Z * SocketHandle * SocketHandle :=
  let '(s, other) := Release other in
  let '(closed, this) := Reset s this in (closed, this, other).

(** ** Programs with handles

    The objects have numbers.  [closed] are the sockets that were closed, [released] those that were given to the caller. *)
Record Sockets := mkSockets {
  handles : gmap Z SocketHandle;
  closed : list Z;
  released : list Z;
}.

Inductive Op :=
  | Make (object socket : Z)
  | MoveMake (object other : Z)
  | MoveAssign (object other : Z)
  | DoRelease (object : Z)
  | DoReset (object socket : Z)
  | Destroy (object : Z).

(** An operation, [None] if an object does not live as it should.  The assignment to itself does nothing. *)
Definition perform (op : Op) (s : Sockets) : option Sockets :=
  match op with
  | Make o k => match handles s !! o with Some _ => None | None => Some (mkSockets (<[o := mkSocketHandle k]> (handles s)) (closed s) (released s)) end
  | MoveMake o other =>
      match handles s !! o, handles s !! other with
      | None, Some h => let '(this, h) := move_construct h in Some (mkSockets (<[o := this]> (<[other := h]> (handles s))) (closed s) (released s))
      | _, _ => None
      end
  | MoveAssign o other =>
      match handles s !! o, handles s !! other with
      | Some this, Some h =>
          if o =? other then Some s
          else let '(c, this, h) := move_assign this h in Some (mkSockets (<[o := this]> (<[other := h]> (handles s))) (closed s ++ c) (released s))
      | _, _ => None
      end
  | DoRelease o =>
      match handles s !! o with
      | Some h => let '(k, h) := Release h in Some (mkSockets (<[o := h]> (handles s)) (closed s) (released s ++ if k =? INVALID_SOCKET then [] else [k]))
      | None => None
      end
  | DoReset o k =>
      match handles s !! o with
      | Some h => let '(c, h) := Reset k h in Some (mkSockets (<[o := h]> (handles s)) (closed s ++ c) (released s))
      | None => None
      end
  | Destroy o =>
      match handles s !! o with Some h => Some (mkSockets (delete o (handles s)) (closed s ++ destroy h) (released s)) | None => None end
  end.

Fixpoint perform_all (ops : list Op) (s : Sockets) : option Sockets :=
  match ops with [] => Some s | op :: ops => s ← perform op s; perform_all ops s end.

Definition no_sockets : Sockets := mkSockets ∅ [] [].

(** The sockets that a program puts into handles *)
Definition real (k : Z) : list Z := if k =? INVALID_SOCKET then [] else [k].
Definition given (op : Op) : list Z := match op with Make _ k | DoReset _ k => real k | _ => [] end.

(** The sockets that are in handles *)
Definition owned (m : gmap Z SocketHandle) : list Z := map_to_list m ≫= fun p => real (socket_ p.2).

Lemma owned_insert o h m : m !! o = None -> owned (<[o := h]> m) ≡ₚ real (socket_ h) ++ owned m.
Proof. intros Hm. unfold owned. by rewrite (map_to_list_insert m o h Hm). Qed.

Lemma owned_delete o h m : m !! o = Some h -> owned m ≡ₚ real (socket_ h) ++ owned (delete o m).
Proof. intros Hm. rewrite <- (insert_id m o h Hm) at 1. rewrite <- insert_delete_eq. by rewrite owned_insert by apply lookup_delete_eq. Qed.

(** The socket of one handle is replaced. *)
Lemma owned_replace o h h' m : m !! o = Some h -> real (socket_ h) ++ owned (<[o := h']> m) ≡ₚ real (socket_ h') ++ owned m.
Proof.
  intros Hm. rewrite <- (insert_delete_eq m o h'), owned_insert by apply lookup_delete_eq. rewrite (owned_delete o h m Hm).
  by rewrite !app_assoc, (Permutation_app_comm (real (socket_ h))).
Qed.

Lemma real_invalid : real INVALID_SOCKET = [].
Proof. done. Qed.
Lemma owned_empty o m : m !! o = None -> owned (<[o := SocketHandle_default]> m) ≡ₚ owned m.
Proof. intros Hm. by rewrite owned_insert. Qed.

(** Taking the socket out of a handle *)
Lemma owned_taken o h m : m !! o = Some h -> owned m ≡ₚ real (socket_ h) ++ owned (<[o := SocketHandle_default]> m).
Proof. intros Hm. by rewrite (owned_replace o h SocketHandle_default m Hm). Qed.

(** Every socket is somewhere. *)
Definition all (s : Sockets) : list Z := owned (handles s) ++ released s ++ closed s.

Lemma perform_all_sockets op s s' : perform op s = Some s' -> all s' ≡ₚ all s ++ given op.
Proof.
  unfold all. destruct op as [o k|o other|o other|o|o k|o]; cbn [perform given];
    destruct (handles s !! o) as [h|] eqn:Eo; try done; intros H.
  - injection H as <-. cbn [handles closed released]. rewrite owned_insert by done. cbn. solve_Permutation.
  - destruct (handles s !! other) as [h|] eqn:Eh; [|done]. injection H as <-. cbn [handles closed released].
    assert (o <> other) by congruence. rewrite owned_insert by (by rewrite lookup_insert_ne). cbn [socket_].
    rewrite (owned_taken other h (handles s) Eh). unfold SocketHandle_default. by rewrite app_nil_r, <- !app_assoc.
  - destruct (handles s !! other) as [k|] eqn:Eh; [|done]. destruct (Z.eqb_spec o other) as [|Hne]; [injection H as <-; by rewrite app_nil_r|].
    injection H as <-. cbn [handles closed released].
    assert (Em : <[other := SocketHandle_default]> (handles s) !! o = Some h) by (by rewrite lookup_insert_ne).
    pose proof (owned_replace o h (mkSocketHandle (socket_ k)) _ Em) as Hr. cbn [socket_] in Hr.
    rewrite <- (owned_taken other k (handles s) Eh) in Hr. rewrite app_nil_r, <- Hr. fold (real (socket_ h)). unfold SocketHandle_default.
    solve_Permutation.
  - injection H as <-. cbn [handles closed released]. rewrite (owned_taken o h (handles s) Eo). fold (real (socket_ h)).
    unfold SocketHandle_default. rewrite app_nil_r. solve_Permutation.
  - injection H as <-. cbn [handles closed released]. fold (real (socket_ h)).
    pose proof (owned_replace o h (mkSocketHandle k) _ Eo) as Hr. cbn [socket_] in Hr.
    transitivity ((real (socket_ h) ++ owned (<[o := mkSocketHandle k]> (handles s))) ++ released s ++ closed s); [solve_Permutation|].
    rewrite Hr. solve_Permutation.
  - injection H as <-. cbn [handles closed released destroy Reset fst]. fold (real (socket_ h)). rewrite (owned_delete o h (handles s) Eo).
    rewrite app_nil_r. solve_Permutation.
Qed.

Lemma perform_all_accounts ops : forall s s', perform_all ops s = Some s' -> all s' ≡ₚ all s ++ (ops ≫= given).
Proof.
  induction ops as [|op ops IH]; intros s s' H; cbn [perform_all] in H; [injection H as <-; by rewrite app_nil_r|].
  destruct (perform op s) as [t|] eqn:E; [|done]. rewrite (IH t s' H), (perform_all_sockets op s t E), <- app_assoc. done.
Qed.

(** C23. Ownership of sockets: in a program that puts every socket into at most one handle, each of these sockets is at any
    time in exactly one handle, was given back to the caller, or was closed, and no socket is closed twice or while a
    handle has it.  When all handles were destroyed, every socket that was not given back has been closed. *)
Theorem sockets_closed_once ops s : perform_all ops no_sockets = Some s -> NoDup (ops ≫= given) ->
  owned (handles s) ++ released s ++ closed s ≡ₚ (ops ≫= given) /\
  NoDup (closed s) /\ (forall k, k ∈ owned (handles s) -> k ∉ closed s) /\
  (handles s = ∅ -> released s ++ closed s ≡ₚ (ops ≫= given)).
Proof.
  intros H%perform_all_accounts Hd. change (all no_sockets) with (@nil Z) in H. cbn [app] in H. fold (all s).
  assert (Hall : NoDup (all s)) by (by rewrite H). unfold all in Hall. apply NoDup_app in Hall as (Ho & Hor & Hrc).
  apply NoDup_app in Hrc as (_ & _ & Hc). split_and!; [done|done| |].
  - intros k Hk Hx. apply (Hor k Hk). set_solver.
  - intros Hs. rewrite <- H. unfold all. by rewrite Hs.
Qed.

Definition sample_ops : list Op :=
  [Make 1 100; MoveMake 2 1; Make 3 101; MoveAssign 3 2; MoveAssign 3 3; DoReset 3 102; Destroy 1; Destroy 2; Destroy 3].

Lemma sockets_closed_once_witness : exists s, perform_all sample_ops no_sockets = Some s /\ closed s ≡ₚ [100; 101; 102].
Proof.
  eexists. split; [vm_compute; reflexivity|].
  apply (sockets_closed_once sample_ops (mkSockets ∅ [101; 100; 102] []) ltac:(by vm_compute)
           ltac:(repeat (apply NoDup_cons_2; [set_solver|]); by apply NoDup_nil_2)). reflexivity.
Defined.

(** A socket is closed and kept when a handle is reset to the socket it has already. *)
Lemma reset_to_itself : Reset 100 (mkSocketHandle 100) = ([100], mkSocketHandle 100).
Proof. done. Qed.

(** ** Winsock *)

Inductive WinsockEvent :=
  | CalledStartup
  | CalledCleanup
  | Logged (level : LogLevel) (name : list byte).

Record WinsockRuntime := mkWinsockRuntime { started_ : bool }.

(** [startup_error] is the result of [WSAStartup]. *)
Definition WinsockRuntime_make (logger : bool) (startup_error : Z) : result WinsockRuntime * list WinsockEvent :=
  if negb logger then (Throw invalid_argument, [])
  else if negb (startup_error =? 0) then (Throw system_error, [CalledStartup; Logged Critical $"winsock.start_failed"])
  else (Ok (mkWinsockRuntime true), [CalledStartup; Logged Info $"winsock.started"]).

(** [cleaned] says whether [WSACleanup] succeeded. *)
Definition WinsockRuntime_destroy (cleaned : bool) (w : WinsockRuntime) : list WinsockEvent :=
  if negb (started_ w) then []
  else CalledCleanup :: if cleaned then [Logged Info $"winsock.stopped"] else [Logged Error $"winsock.cleanup_failed"].

(** An object of this class that exists has started Winsock and ends it once, and none exists if that failed. *)
Lemma winsock_balanced logger e : match WinsockRuntime_make logger e with
  | (Ok w, l) => logger = true /\ e = 0 /\ CalledStartup ∈ l /\ forall cleaned, head (WinsockRuntime_destroy cleaned w) = Some CalledCleanup
  | (Throw _, l) => logger = false \/ e <> 0
  end.
Proof.
  unfold WinsockRuntime_make. destruct logger; cbn; [|by left]. destruct (Z.eqb_spec e 0); cbn; [|by right].
  split_and!; [done|done|left|done].
Qed.
