(* ===== verification/IoContextDestroy.v ===== *)
(** * The end of the I/O context

    [IoContext::JoinNoThrow], the destructor, and the constructor that could not start all its
    threads.  A thread that cannot be joined, because it is the one that destroys the context or
    because [join] throws, is detached; what it does afterwards concerns only the shared state. *)

From stdpp Require Import relations.
From S2P Require Import Prelude IoContext.

(** The destructor between its steps: the threads that [JoinNoThrow] has not come to, by index, or the end *)
Inductive Phase := Joining (rest : list nat) | Destroyed.

Record Destruction := mkDestruction {
  system : System;
  detached : list nat;
  phase : Phase;
}.

Definition stop_system (answer : nat -> Z) (s : System) : System :=
  let '(q, c) := Stop answer (context s) in
  mkSystem c (port_queue c (queue s ++ q)) (workers s) (associated s) (accepted s) (started s) (completed s).

Definition close_system (s : System) : System :=
  mkSystem (Close (context s)) [] (workers s) (associated s) (accepted s) (started s) (completed s).

(** [Stop], and [JoinNoThrow] from its first thread on.  All threads are joinable, because nobody joined them before. *)
Definition begin_destroy (answer : nat -> Z) (s : System) : Destruction :=
  mkDestruction (stop_system answer s) [] (Joining (seq 0 (length (workers s)))).

(** The constructor whose threads could not all be started: the state and the threads that run *)
Definition constructor_failed (answer : nat -> Z) (s : IoContextState) (threads : nat) : Destruction :=
  begin_destroy answer (mkSystem s [] (replicate threads WorkerWaiting) [] [] [] []).

Section destroy.
(** [self] is the worker that runs the destructor, if it is one.  [join_fails] says for which threads [join] throws. *)
Context (self : option nat) (join_fails : nat -> bool).

(** One round of [JoinNoThrow], and [Close] *)
Inductive destroy_step : Destruction -> Destruction -> Prop :=
  | destroy_self s d i rest : self = Some i -> destroy_step (mkDestruction s d (Joining (i :: rest))) (mkDestruction s (d ++ [i]) (Joining rest))
  | destroy_joined s d i rest : self <> Some i -> join_fails i = false -> workers s !! i = Some WorkerExited ->
      destroy_step (mkDestruction s d (Joining (i :: rest))) (mkDestruction s d (Joining rest))
  | destroy_join_threw s d i rest : self <> Some i -> join_fails i = true ->
      destroy_step (mkDestruction s d (Joining (i :: rest))) (mkDestruction s (d ++ [i]) (Joining rest))
  | destroy_close s d : destroy_step (mkDestruction s d (Joining [])) (mkDestruction (close_system s) d Destroyed).

(** The worker that runs the destructor does nothing else before its end. *)
Definition self_rests (s s' : System) : Prop := forall i, self = Some i -> workers s' !! i = workers s !! i.

(** The destructor, and what workers and completions do meanwhile and afterwards *)
Inductive step : Destruction -> Destruction -> Prop :=
  | step_destroy x y : destroy_step x y -> step x y
  | step_worker s s' d p : worker_step s s' -> (p <> Destroyed -> self_rests s s') -> step (mkDestruction s d p) (mkDestruction s' d p)
  | step_completion s o key n e d p : port_ (context s) = true -> key ∈ associated s ->
      step (mkDestruction s d p)
        (mkDestruction (mkSystem (context s) (queue s ++ [IoPacket o key n e]) (workers s) (associated s) (accepted s) (started s) (completed s)) d p)
  (** A task is refused now. *)
  | step_task s t post_error d p : PostTask (Some t) post_error (context s) = (Ok false, []) -> step (mkDestruction s d p) (mkDestruction s d p).

(** ** The invariant *)

(** There are enough stop packets for the threads that have not left. *)
Record dinv (x : Destruction) : Prop := {
  d_stopping : stopping_ (context (system x)) = true;
  d_packets : Forall packet_ok (queue (system x));
  d_keys : Forall (fun k => IsReservedCompletionKey k = false) (associated (system x));
  d_enough : port_ (context (system x)) = true -> (length (workers (system x)) <= stops (queue (system x)) + exited (workers (system x)))%nat;
  d_closed : port_ (context (system x)) = false -> queue (system x) = [];
  d_detached : forall i, i ∈ detached x -> self = Some i \/ join_fails i = true;
  d_phase : match phase x with
            | Joining rest => exists k, rest = seq k (length (workers (system x)) - k) /\
                (forall i, (i < k)%nat -> (i < length (workers (system x)))%nat -> i ∈ detached x \/ workers (system x) !! i = Some WorkerExited)
            | Destroyed => port_ (context (system x)) = false /\
                (forall i, (i < length (workers (system x)))%nat -> i ∈ detached x \/ workers (system x) !! i = Some WorkerExited)
            end;
}.

Lemma worker_step_workers s s' : worker_step s s' -> length (workers s') = length (workers s) /\ associated s' = associated s /\
  (forall i, workers s !! i = Some WorkerExited -> workers s' !! i = Some WorkerExited).
Proof.
  assert (Hset : forall (l r : list Worker) (x y : Worker) i, x <> WorkerExited -> (l ++ x :: r) !! i = Some WorkerExited -> (l ++ y :: r) !! i = Some WorkerExited).
  { intros l r x y i Hx. rewrite !lookup_app. destruct (l !! i); [done|]. destruct (i - length l)%nat; [by intros [=]|done]. }
  intros Hst. destruct Hst as [s p q l r a _ _ Ew _|s l r a _ Ew _|s l a r Ew]; cbn [workers associated]; rewrite Ew, !length_app; (split_and!; [done..|]);
    intros i; by apply Hset.
Qed.

Lemma dinv_worker s s' : Forall packet_ok (queue s) ->
  (port_ (context s) = true -> (length (workers s) <= stops (queue s) + exited (workers s))%nat) -> (port_ (context s) = false -> queue s = []) ->
  worker_step s s' -> context s' = context s /\ Forall packet_ok (queue s') /\
  (port_ (context s) = true -> (length (workers s') <= stops (queue s') + exited (workers s'))%nat) /\ (port_ (context s) = false -> queue s' = []).
Proof.
  intros Hp He Hc Hst. destruct Hst as [s p q l r a Hpo Eq Ew Ea|s l r a Hpo Ew Ea|s l a r Ew]; cbn [context queue workers] in *; rewrite ?Ew in *.
  - rewrite Eq in *. apply Forall_cons in Hp as [Hp Hq]. rewrite (dispatch_ok p Hp) in Ea. injection Ea as <-. specialize (He Hpo).
    pose proof (exited_set l WorkerWaiting (after_dispatch (action_of p)) r eq_refl) as Hx. rewrite Hx. rewrite length_app in *. cbn [length] in *.
    split_and!; [done..| |congruence]. intros _. unfold stops in *. rewrite weight_cons in He. destruct p; cbn [after_dispatch action_of] in *; lia.
  - split_and!; [done..|congruence|done].
  - assert (Hx : exited (l ++ WorkerWaiting :: r) = exited (l ++ WorkerBusy a :: r)) by (unfold exited; by rewrite !weight_app, !weight_cons).
    rewrite Hx, !length_app in *. done.
Qed.

Lemma step_dinv x y : dinv x -> step x y -> dinv y.
Proof.
  intros [H1 H2 H3 H4 H5 H6 H7] Hst. destruct Hst as [x y Hst|s s' d p Hst _|s o key n e d p Hp Hk|s t pe d p _]; [| | |done].
  - destruct Hst as [s d i rest Hs|s d i rest Hs Hj Hw|s d i rest Hs Hj|s d]; cbn [system detached phase] in *.
    1-3: destruct H7 as (k & Er & Hk); assert (Hlt : (k < length (workers s))%nat) by (destruct (length (workers s) - k)%nat eqn:E; [done|lia]);
      replace (length (workers s) - k)%nat with (S (length (workers s) - S k)) in Er by lia; cbn [seq] in Er; injection Er as -> ->;
      (split; cbn [system detached phase]; [done..| |exists (S k); split; [done|]]).
    + intros j [Hj|Hj%list_elem_of_singleton]%elem_of_app; [by apply H6|subst; by left].
    + intros j Hj Hl. destruct (decide (j = k)) as [->|]; [left; set_solver|]. destruct (Hk j ltac:(lia) Hl); [left; set_solver|by right].
    + done.
    + intros j Hj' Hl. destruct (decide (j = k)) as [->|]; [by right|]. apply Hk; [lia|done].
    + intros j [Hj'|Hj'%list_elem_of_singleton]%elem_of_app; [by apply H6|subst; by right].
    + intros j Hj' Hl. destruct (decide (j = k)) as [->|]; [left; set_solver|]. destruct (Hk j ltac:(lia) Hl); [left; set_solver|by right].
    + destruct H7 as (k & Er & Hk). split; cbn; try done. split; [done|]. intros i Hi. apply Hk; [|done].
      destruct (length (workers s) - k)%nat eqn:E; [lia|done].
  - cbn [system detached phase] in *. destruct (worker_step_workers s s' Hst) as (Hl & Ha & Hx). destruct (dinv_worker s s' H2 H4 H5 Hst) as (Hc & Hq & He & Hcl).
    split; cbn [system detached phase]; rewrite ?Hc, ?Ha, ?Hl; try done; [by rewrite <- Hl|]. destruct p as [rest|].
    + destruct H7 as (k & Er & Hk). exists k. split; [done|]. intros i Hi Hil. destruct (Hk i Hi Hil); [by left|right; auto].
    + destruct H7 as [Hp Hk]. split; [done|]. intros i Hi. destruct (Hk i Hi); [by left|right; auto].
  - split; cbn [system detached phase context queue workers associated] in *; try done.
    + apply Forall_app. split; [done|]. constructor; [|done]. rewrite Forall_forall in H3. by apply H3.
    + intros _. specialize (H4 Hp). rewrite stops_app. lia.
    + congruence.
Qed.

Lemma steps_dinv x y : rtc step x y -> dinv x -> dinv y.
Proof. induction 1 as [x|x y z Hst _ IH]; [done|]. intros Hx. by apply IH, (step_dinv x). Qed.

Lemma stops_all (answer : nat -> Z) n : forall index packets, post_stops answer index n = (packets, 0) -> packets = replicate n StopPacket.
Proof. intros index packets E. by apply (post_stops_spec answer n index packets 0). Qed.

(** The destructor begins in the invariant, also if [Stop] was called before. *)
Lemma begin_dinv answer s : Forall packet_ok (queue s) -> Forall (fun k => IsReservedCompletionKey k = false) (associated s) ->
  (stopping_ (context s) = true -> port_ (context s) = true -> (length (workers s) <= stops (queue s) + exited (workers s))%nat) ->
  (stopping_ (context s) = true -> port_ (context s) = false -> queue s = []) ->
  (stopping_ (context s) = false -> port_ (context s) = true /\ zlen (workers s) <= worker_count_ (context s)) -> dinv (begin_destroy answer s).
Proof.
  intros Hp Hk He Hc Hr.
  assert (Hphase : exists k, seq 0 (length (workers s)) = seq k (length (workers s) - k) /\
    forall i, (i < k)%nat -> (i < length (workers s))%nat -> i ∈ [] \/ workers s !! i = Some WorkerExited).
  { exists 0%nat. split; [by rewrite Nat.sub_0_r|lia]. }
  unfold begin_destroy, stop_system, Stop. destruct (stopping_ (context s)) eqn:Est.
  - split; cbn [system detached phase context queue workers associated]; rewrite ?app_nil_r; unfold port_queue; destruct (port_ (context s)) eqn:Epo;
      try done; try set_solver; intros _; auto.
  - destruct (Hr eq_refl) as [Hpo Hn]. destruct (post_stops answer 0 _) as [k e] eqn:Ek. destruct (Z.eqb_spec e 0) as [->|Hne].
    + apply stops_all in Ek as ->. split; cbn [system detached phase context queue workers associated port_ stopping_]; unfold port_queue; cbn [port_]; rewrite ?Hpo; try done.
      * apply Forall_app. split; [done|]. by apply Forall_replicate.
      * intros _. rewrite stops_app, stops_replicate. unfold zlen in Hn. lia.
      * set_solver.
    + split; cbn [system detached phase context queue workers associated port_ stopping_]; unfold port_queue; cbn [port_]; try done. set_solver.
Qed.

Lemma begin_dinv_reachable answer s : io_reachable s -> dinv (begin_destroy answer s).
Proof.
  intros [H1 H2 H3 H4 H5 H6 H7 H8 H9]%io_iinv. apply begin_dinv; [done|done| | |].
  - intros Hs Hp. rewrite (H3 Hs Hp). done.
  - intros _ Hp. apply (H7 Hp).
  - intros Hn. split; [by apply H2|lia].
Qed.

Lemma constructor_dinv answer worker_count logger error s threads : IoContextState_make worker_count logger error = Ok s -> Z.of_nat threads <= worker_count ->
  dinv (constructor_failed answer s threads).
Proof.
  unfold IoContextState_make, throw_if. destruct (worker_count =? 0); [done|]. destruct (negb logger); [done|]. destruct (negb (error =? 0)); [done|].
  intros [= <-] Ht. apply begin_dinv; cbn; try done. intros _. split; [done|]. rewrite zlen_replicate. lia.
Qed.

(** When the destructor, or the constructor that failed, has come to its end, the port is closed, and every
    worker has left, except those that were detached; these are the one that runs the
    destructor and those that could not be joined.  What is left of a detached worker starts no task and completes
    no operation any more, and a task that is posted meanwhile is refused. *)
Lemma destroyed_quiet x y : dinv x -> rtc step x y -> phase y = Destroyed ->
  port_ (context (system y)) = false /\
  (forall i, (i < length (workers (system y)))%nat -> workers (system y) !! i = Some WorkerExited \/ (i ∈ detached y /\ (self = Some i \/ join_fails i = true))) /\
  (forall s', worker_step (system y) s' -> started s' = started (system y) /\ completed s' = completed (system y)) /\
  (forall t e, PostTask (Some t) e (context (system y)) = (Ok false, [])).
Proof.
  intros Hx Hst Hp. destruct (steps_dinv x y Hst Hx) as [H1 H2 H3 H4 H5 H6 H7]. rewrite Hp in H7. destruct H7 as [Hc Hw]. split_and!; [done| | |].
  - intros i Hi. destruct (Hw i Hi); [right; auto|by left].
  - intros s' Hs. destruct Hs; cbn; [congruence|done..].
  - intros t e. cbn. by rewrite H1.
Qed.

(** ** Its end is reached *)

Definition work (x : Destruction) : nat := io_work (system x) + match phase x with Joining rest => S (length rest) | Destroyed => 0 end.

Lemma lookup_other {A} (l r : list A) x y i : i <> length l -> (l ++ y :: r) !! i = (l ++ x :: r) !! i.
Proof.
  intros Hi. rewrite !lookup_app. destruct (l !! i) eqn:E; [done|]. apply lookup_ge_None in E. by destruct (i - length l)%nat eqn:Ed; [lia|].
Qed.

(** The destructor can always go on, or one of the workers that it waits for can. *)
Lemma destroy_progress x : dinv x -> phase x <> Destroyed -> exists y, step x y /\ (work y < work x)%nat.
Proof.
  intros [H1 H2 H3 H4 H5 H6 H7] Hp. destruct x as [s d [[|i rest]|]]; cbn [system detached phase] in *; [| |done].
  { eexists. split; [apply step_destroy, destroy_close|]. unfold work, io_work. cbn [system phase queue workers close_system length]. lia. }
  assert (Hdown : forall d', (work (mkDestruction s d' (Joining rest)) < work (mkDestruction s d (Joining (i :: rest))))%nat) by (intros d'; unfold work; cbn; lia).
  destruct (decide (self = Some i)) as [Hs|Hs]; [eexists; split; [by apply step_destroy, destroy_self|apply Hdown]|].
  destruct (join_fails i) eqn:Ej; [eexists; split; [by apply step_destroy, destroy_join_threw|apply Hdown]|].
  destruct H7 as (k & Er & _). assert (Hi : (i < length (workers s))%nat).
  { destruct (length (workers s) - k)%nat eqn:E; [done|]. injection Er as Ei _. lia. }
  apply lookup_lt_is_Some in Hi as [w Ew].
  assert (Hgo : forall s', worker_step s s' -> (forall j, j <> i -> workers s' !! j = workers s !! j) ->
    exists y, step (mkDestruction s d (Joining (i :: rest))) y /\ (work y < work (mkDestruction s d (Joining (i :: rest))))%nat).
  { intros s' Hst Ho. exists (mkDestruction s' d (Joining (i :: rest))). split.
    - apply step_worker; [done|]. intros _ j Hj. apply Ho. congruence.
    - apply io_worker_step_work in Hst as [Hlt _]. unfold work. cbn [system phase]. lia. }
  destruct (decide (w = WorkerExited)) as [->|Hw]; [eexists; split; [by apply step_destroy, destroy_joined|apply Hdown]|].
  destruct (list_elem_of_split_length _ _ _ Ew) as (l & r & El & ->). destruct w as [|a|]; [| |done].
  - destruct (port_ (context s)) eqn:Epo.
    + specialize (H4 eq_refl). rewrite El in H4. pose proof (exited_bound l WorkerWaiting r ltac:(done)) as Hb.
      destruct (queue s) as [|p q] eqn:Eq; [unfold stops in H4; cbn in H4; lia|]. apply Forall_cons in H2 as [Hok _].
      eapply Hgo; [eapply (step_dequeue s p q l r _ Epo Eq El); by apply dispatch_ok|]. intros j Hj. cbn [workers]. rewrite El. by apply lookup_other.
    + eapply Hgo; [by eapply (step_abandoned s l r _ Epo El)|]. intros j Hj. cbn [workers]. rewrite El. by apply lookup_other.
  - eapply Hgo; [by apply (step_done s l a r El)|]. intros j Hj. cbn [workers]. rewrite El. by apply lookup_other.
Qed.
End destroy.

(** C19. The end of an I/O context, from any state, by any thread, its own workers included.  As long as the destructor is
    not at its end it is not stuck: it can go on, or a worker it waits for can take a step, and of these steps there
    are finitely many.  At its end the port is closed, and every worker has left but the one that runs the
    destructor and those whose [join] threw, which were detached; these start no task and complete no operation any
    more, and tasks posted from the beginning on are refused. *)
Theorem io_context_destroyed self join_fails answer s x : io_reachable s -> rtc (step self join_fails) (begin_destroy answer s) x ->
  (phase x <> Destroyed -> exists y, step self join_fails x y /\ (work y < work x)%nat) /\
  (phase x = Destroyed -> port_ (context (system x)) = false /\
     (forall i, (i < length (workers (system x)))%nat ->
        workers (system x) !! i = Some WorkerExited \/ (i ∈ detached x /\ (self = Some i \/ join_fails i = true))) /\
     (forall s', worker_step (system x) s' -> started s' = started (system x) /\ completed s' = completed (system x))) /\
  (forall t e, PostTask (Some t) e (context (system x)) = (Ok false, [])).
Proof.
  intros Hs Hst. pose proof (begin_dinv_reachable self join_fails answer s Hs) as Hb. pose proof (steps_dinv _ _ _ _ Hst Hb) as Hx. split_and!.
  - intros Hp. by apply destroy_progress.
  - intros Hp. destruct (destroyed_quiet _ _ _ _ Hb Hst Hp) as (H1 & H2 & H3 & _). by split_and!.
  - intros t e. cbn. by rewrite (d_stopping _ _ _ Hx).
Qed.

(** A task of the first of two workers destroys the context; the other worker takes its stop packet. *)
Definition sample_self : System := mkSystem (mkState 2 true false) [] [WorkerBusy (ExecuteTask 7); WorkerWaiting] [] [7] [7] [].
Definition sample_end : Destruction :=
  mkDestruction (mkSystem (mkState 2 false true) [] [WorkerBusy (ExecuteTask 7); WorkerExited] [] [7] [7] []) [0%nat] Destroyed.

Lemma sample_self_reachable : io_reachable sample_self.
Proof.
  pose (s0 := mkSystem (mkState 2 true false) [] [WorkerWaiting; WorkerWaiting] [] [] [] []).
  pose (s1 := mkSystem (mkState 2 true false) [TaskPacket 7] [WorkerWaiting; WorkerWaiting] [] [7] [] []).
  apply (io_next s1); [apply (io_next s0)|].
  - by apply (io_created 2 true 0).
  - by apply (step_post s0 7 0 true [TaskPacket 7]).
  - apply IoContext.step_worker. by apply (step_dequeue s1 (TaskPacket 7) [] [] [WorkerWaiting] (ExecuteTask 7)).
Qed.

Lemma sample_destroyed : rtc (step (Some 0%nat) (fun _ => false)) (begin_destroy (fun _ => 0) sample_self) sample_end.
Proof.
  pose (s1 := stop_system (fun _ => 0) sample_self).
  pose (s2 := mkSystem (mkState 2 true true) [StopPacket] [WorkerBusy (ExecuteTask 7); WorkerExited] [] [7] [7] []).
  eapply rtc_l; [by apply step_destroy, (destroy_self (Some 0%nat) (fun _ => false) s1 [] 0 [1%nat])|].
  eapply rtc_l; [apply (step_worker (Some 0%nat) (fun _ => false) s1 s2); [by apply (step_dequeue s1 StopPacket [StopPacket] [WorkerBusy (ExecuteTask 7)] [] ExitWorker)|]|].
  { by intros _ i [= <-]. }
  eapply rtc_l; [by apply step_destroy, (destroy_joined (Some 0%nat) (fun _ => false) s2 [0%nat] 1 [])|].
  eapply rtc_l; [apply step_destroy, destroy_close|]. apply rtc_refl.
Qed.

Lemma io_context_destroyed_witness : port_ (context (system sample_end)) = false /\ forall s', worker_step (system sample_end) s' -> started s' = [7].
Proof.
  destruct (io_context_destroyed (Some 0%nat) (fun _ => false) (fun _ => 0) sample_self sample_end sample_self_reachable sample_destroyed) as (_ & H & _).
  destruct (H eq_refl) as (Hp & _ & Hq). split; [exact Hp|]. intros s' Hs. exact (proj1 (Hq s' Hs)).
Defined.
