(* ===== verification/Usage.v ===== *)
(** * The usage texts

    What the programs print for [--help], and that they print what they accept: every option of a
    text is one that the program knows. *)

From S2P Require Import Prelude HttpMessage SendQueue TcpConnection TcpListener StringMap ConfigUtils.
From S2P Require HttpConfiguration EchoConfiguration WebAppConfiguration.

(** A text is the lines of the literal. *)
Definition text_of_lines (lines : list (list byte)) : list byte := concat (map (fun l => l ++ [LF]) lines).

Definition HttpApplicationUsage : list byte := text_of_lines [
  $"Usage: iocp_http_server [port] [options]";
  $"  --config PATH";
  $"  --address VALUE";
  $"  --port VALUE";
  $"  --io-workers VALUE";
  $"  --application-workers VALUE";
  $"  --application-queue VALUE";
  $"  --connection-queue VALUE";
  $"  --http-body-bytes VALUE";
  $"  --http-max-requests VALUE";
  $"  --http-server-name VALUE";
  $"  --shutdown-timeout-ms VALUE";
  $"All TOML fields also have matching long CLI options."].

Definition EchoApplicationUsage : list byte := text_of_lines [
  $"사용법: iocp_echo_server [port] [options]";
  $"  --config PATH";
  $"  --address VALUE";
  $"  --port VALUE";
  $"  --backlog VALUE";
  $"  --io-workers VALUE";
  $"  --receive-chunk-bytes VALUE";
  $"  --send-queue-items VALUE";
  $"  --send-queue-bytes VALUE";
  $"  --send-gather-segments VALUE";
  $"  --send-gather-bytes VALUE";
  $"  --outbound-batch-segments VALUE";
  $"  --shutdown-timeout-ms VALUE";
  $"  --console-log true|false";
  $"  --file-log true|false";
  $"  --log-file PATH";
  $"  --log-append true|false";
  $"  --console-log-level trace|debug|info|warning|error|critical";
  $"  --file-log-level trace|debug|info|warning|error|critical";
  $"  --help"].

Definition EchoClientUsage : list byte := text_of_lines [
  $"사용법: iocp_echo_client [host] [port] [message] [options]";
  $"  --host VALUE";
  $"  --port VALUE";
  $"  --message VALUE";
  $"  --send-timeout-ms VALUE";
  $"  --receive-timeout-ms VALUE";
  $"  --help"].

Definition WebAppUsage : list byte := text_of_lines [
  $"Usage: iocp_webapp_server [port] [options]";
  $"  --config PATH              TOML config file";
  $"  --address VALUE            listen address (default 127.0.0.1)";
  $"  --port VALUE               listen port (default 8080)";
  $"  --home-dir PATH            webapp home directory";
  $"  --shutdown-timeout-ms VALUE";
  [];
  $"Examples:";
  $"  iocp_webapp_server";
  $"  iocp_webapp_server --config config/webapp.toml";
  $"  iocp_webapp_server --port 3000 --home-dir apps/webapp/templates"].

(** ** The options of a text

    The lines that begin with two blanks and two dashes, up to the next blank *)

Fixpoint word (l : list byte) : list byte := match l with c :: l => if bool_decide (c = SP \/ c = LF) then [] else c :: word l | [] => [] end.

Fixpoint options_at (line_start : bool) (l : list byte) : list (list byte) :=
  match l with
  | [] => []
  | c :: rest => (if line_start && starts_with $"  --" l then [word (drop 4 l)] else []) ++ options_at (bool_decide (c = LF)) rest
  end.
Definition options_of (text : list byte) : list (list byte) := options_at true text.

(** Some value of the option is accepted; [config] and [help] are handled on the command line itself. *)
Definition accepted {O} (apply : O -> list byte -> list byte -> result O) (o : O) (n : list byte) : bool :=
  bool_decide (n = $"config" \/ n = $"help") ||
  existsb (fun v => match apply o n v with Ok _ => true | Throw _ => false end) [$"1"; $"true"; $"info"].

Lemma http_usage_accepted : options_of HttpApplicationUsage = map bytes_of ["config"; "address"; "port"; "io-workers"; "application-workers";
    "application-queue"; "connection-queue"; "http-body-bytes"; "http-max-requests"; "http-server-name"; "shutdown-timeout-ms"]%string /\
  forallb (accepted HttpConfiguration.ApplyOption HttpConfiguration.HttpApplicationOptions_default) (options_of HttpApplicationUsage) = true.
Proof. by vm_compute. Qed.

Lemma echo_usage_accepted : length (options_of EchoApplicationUsage) = 19%nat /\
  forallb (accepted EchoConfiguration.ApplyOption EchoConfiguration.EchoApplicationOptions_default) (options_of EchoApplicationUsage) = true.
Proof. by vm_compute. Qed.

Lemma client_usage_accepted : length (options_of EchoClientUsage) = 6%nat /\
  forallb (accepted EchoConfiguration.ApplyClientOption EchoConfiguration.EchoClientOptions_default) (options_of EchoClientUsage) = true.
Proof. by vm_compute. Qed.

(** The web application; the defaults of the text are those of the program. *)
Lemma webapp_usage_accepted `{WebAppConfiguration.Home} : options_of WebAppUsage = map bytes_of ["config"; "address"; "port"; "home-dir"; "shutdown-timeout-ms"]%string /\
  forallb (accepted WebAppConfiguration.ApplyOption WebAppConfiguration.WebAppApplicationOptions_default) (options_of WebAppUsage) = true /\
  let l := WebAppConfiguration.listener (WebAppConfiguration.server WebAppConfiguration.WebAppApplicationOptions_default) in
  address l = $"127.0.0.1" /\ port l = 8080.
Proof. split_and!; by vm_compute. Qed.
