(* ===== verification/EchoClient.v ===== *)
(** * The echo client

    [main.cpp] of the echo client: the connection to the server, sending and receiving, and the
    dialogue.  What the socket functions answer is a class, functions of the events so far;
    the events are the log of the program.  The texts of exceptions and error codes are left out. *)

From S2P Require Import Prelude HttpMessage PlatformWindows ConfigUtils EchoConfiguration Usage.

(** ** Events and answers *)

Inductive Event :=
  | Winsock (e : WinsockEvent)
  | Made (socket : Z)
  | SetTimeout (socket : Z) (receive : bool) (milliseconds : Z)
  | ConnectTried (socket : Z) (connected : bool)
  | Sent (bytes : list byte)
  | Received (bytes : list byte)
  | ShutDown (socket : Z)
  | ClosedSocket (socket : Z)
  | Output (text : list byte).

(** [getaddrinfo] gives the number of addresses, or nothing if it fails.  [socket] gives [INVALID_SOCKET] if it fails; [setsockopt] and
    [connect] say whether they succeed; [send] gives the number of bytes taken from the chunk, and [recv] the bytes, or nothing if it fails.
    [std_cin] has the lines of the input. *)
Class World := {
  getaddrinfo : list byte -> list byte -> option nat;
  socket : list Event -> Z;
  setsockopt : list Event -> bool;
  connect : list Event -> bool;
  send : list Event -> list byte -> Z;
  recv : list Event -> Z -> option (list byte);
  std_cin : list (list byte);
  startup_error : Z;
  cleaned : bool;
}.

(** A program adds to the events, and keeps them when it throws. *)
Abbreviation Client := (SE (list Event)).

Definition tell (l : list Event) : Client unit := fun log => (Ok tt, log ++ l).
Definition ask {A} (f : list Event -> A) : Client A := fun log => (Ok (f log), log).
Definition throw {A} (e : exn) : Client A := fun log => (Throw e, log).

(** The end of the scope of an object: [l] is what its destructor does, after the body has returned or thrown. *)
Definition at_end {A} (l : list Event) (m : Client A) : Client A := fun log => let '(r, log) := m log in (r, log ++ l).

Definition close_handle (h : SocketHandle) : list Event := map ClosedSocket (destroy h).

Definition INT_MAX : Z := 2 ^ 31 - 1.
Definition SOCKET_ERROR : Z := -1.

Section client.
Context `{World}.

(** ** The connection *)

Definition ConfigureTimeouts (s : Z) (o : EchoClientOptions) : Client unit :=
  received ← ask setsockopt;
  if negb received then throw system_error
  else
    tell [SetTimeout s true (u32 (receive_timeout o))];;
    sent ← ask setsockopt;
    if negb sent then throw system_error else tell [SetTimeout s false (u32 (send_timeout o))].

(** The loop over the addresses; the handle of an address that is not returned is destroyed at the end of the round. *)
Fixpoint connect_loop (addresses : nat) (o : EchoClientOptions) : Client SocketHandle :=
  match addresses with
  | O => throw system_error
  | S addresses =>
      s ← ask socket;
      let candidate := mkSocketHandle s in
      if negb (valid candidate) then connect_loop addresses o
      else
        tell [Made s];;
        connected ← (fun log =>
          match (ConfigureTimeouts (Get candidate) o;; connected ← ask connect; tell [ConnectTried s connected];; mret connected) log with
          | (Ok true, log) => (Ok true, log)
          | (r, log) => (r, log ++ close_handle candidate)
          end);
        if (connected : bool) then mret candidate else connect_loop addresses o
  end.

Definition Connect (o : EchoClientOptions) : Client SocketHandle :=
  match getaddrinfo (client_host o) (to_string (client_port o)) with
  | None => throw system_error
  | Some addresses => connect_loop addresses o
  end.

(** ** Sending and receiving *)

Definition chunk_size (remaining : Z) : Z := Z.min remaining INT_MAX.

Fixpoint SendAll_loop (fuel : nat) (payload : list byte) (offset : Z) : Client unit :=
  if negb (offset <? zlen payload) then mret tt
  else
    match fuel with
    | O => throw NonTermination
    | S fuel =>
        let chunk := zslice offset (chunk_size (zlen payload - offset)) payload in
        sent ← ask (fun log => send log chunk);
        if sent =? SOCKET_ERROR then throw system_error
        else if sent =? 0 then throw runtime_error
        else tell [Sent (ztake sent chunk)];; SendAll_loop fuel payload (u64 (offset + u64 sent))
    end.

Definition SendAll (payload : list byte) : Client unit := SendAll_loop (length payload) payload 0.

(** A [recv] that gave more than it was asked for would write behind the buffer. *)
Fixpoint ReceiveExact_loop (fuel : nat) (echoed : list byte) (offset : Z) : Client (list byte) :=
  if negb (offset <? zlen echoed) then mret echoed
  else
    match fuel with
    | O => throw NonTermination
    | S fuel =>
        let size := chunk_size (zlen echoed - offset) in
        received ← ask (fun log => recv log size);
        match received with
        | None => throw system_error
        | Some [] => throw runtime_error
        | Some bytes =>
            if size <? zlen bytes then throw UndefinedBehavior
            else tell [Received bytes];; ReceiveExact_loop fuel (zwrite offset bytes echoed) (u64 (offset + zlen bytes))
        end
    end.

Definition ReceiveExact (expected_bytes : Z) : Client (list byte) :=
  ReceiveExact_loop (Z.to_nat expected_bytes) (replicate (Z.to_nat expected_bytes) Byte.x00) 0.

Definition Exchange (payload : list byte) : Client (list byte) := SendAll payload;; ReceiveExact (zlen payload).

(** ** The dialogue *)

Definition echo_line (echoed : list byte) : list byte := $"echo: " ++ echoed ++ [LF].

Fixpoint RunInteractive_loop (lines : list (list byte)) : Client unit :=
  tell [Output $"> "];;
  match lines with
  | [] => mret tt
  | line :: lines =>
      if decide (line = $"/quit") then mret tt
      else echoed ← Exchange line; tell [Output (echo_line echoed)];; RunInteractive_loop lines
  end.

Definition RunInteractive : Client unit :=
  tell [Output ($"메시지를 입력하세요. /quit 또는 Ctrl+Z로 종료합니다." ++ [LF])];; RunInteractive_loop std_cin.

(** ** The program *)

Definition connected_text (o : EchoClientOptions) : list byte :=
  client_host o ++ $":" ++ to_string (client_port o) ++ $"에 연결했습니다." ++ [LF].

(** With a connection, up to [shutdown] *)
Definition converse (o : EchoClientOptions) (h : SocketHandle) : Client unit :=
  tell [Output (connected_text o)];;
  (if one_shot o then
     (* the first [<<] is evaluated before the operand of the second *)
     tell [Output $"echo: "];; echoed ← Exchange (client_message o); tell [Output (echoed ++ [LF])]
   else RunInteractive);;
  tell [ShutDown (Get h)].

(** Behind the options; the handle and Winsock are destroyed on every way out. *)
Definition run_client (o : EchoClientOptions) : Client unit := fun log =>
  let '(w, l) := WinsockRuntime_make true startup_error in
  match w with
  | Throw e => (Throw e, log ++ map Winsock l)
  | Ok w => at_end (map Winsock (WinsockRuntime_destroy cleaned w)) (h ← Connect o; at_end (close_handle h) (converse o h)) (log ++ map Winsock l)
  end.

(** The exit code; [options] is what [LoadEchoClientOptions] gives.  What is not an exception of C++ ends the program in another way. *)
Definition main (options : result EchoClientOptions) : Client Z := fun log =>
  let body := o ← (fun log => (options, log)); if client_show_help o then tell [Output EchoClientUsage] else run_client o in
  match body log with
  | (Ok _, log) => (Ok 0, log)
  | (Throw NonTermination, log) => (Throw NonTermination, log)
  | (Throw UndefinedBehavior, log) => (Throw UndefinedBehavior, log)
  | (Throw UndefinedShift, log) => (Throw UndefinedShift, log)
  | (Throw _, log) => (Ok 1, log)
  end.
End client.

(** ** The socket functions

    What their documentation says: [send] fails or takes a beginning of the chunk, and [recv] gives no more than it was asked for. *)
Class Documented `{World} : Prop := {
  send_documented log chunk : send log chunk = SOCKET_ERROR \/ 0 <= send log chunk <= zlen chunk;
  recv_documented log n bytes : 0 <= n -> recv log n = Some bytes -> zlen bytes <= n;
}.

Definition sent_of (log : list Event) : list byte := concat (omap (fun e => match e with Sent b => Some b | _ => None end) log).
Definition received_of (log : list Event) : list byte := concat (omap (fun e => match e with Received b => Some b | _ => None end) log).

Lemma sent_app l k : sent_of (l ++ k) = sent_of l ++ sent_of k.
Proof. unfold sent_of. by rewrite omap_app, concat_app. Qed.
Lemma received_app l k : received_of (l ++ k) = received_of l ++ received_of k.
Proof. unfold received_of. by rewrite omap_app, concat_app. Qed.

Lemma sent_cons b l : sent_of (Sent b :: l) = b ++ sent_of l.
Proof. done. Qed.
Lemma received_cons b l : received_of (Received b :: l) = b ++ received_of l.
Proof. done. Qed.

(** The two exceptions that sending and receiving throw *)
Definition io_failure (e : exn) : Prop := e = system_error \/ e = runtime_error.

(** Events that are only about the bytes *)
Definition is_io (e : Event) : bool := match e with Sent _ | Received _ => true | _ => false end.

Section transfer.
Context `{Documented}.

(** Nothing fails and nothing ends. *)
Definition reliable : Prop :=
  (forall log chunk, chunk <> [] -> 0 < send log chunk) /\ (forall log n, 0 < n -> exists bytes, recv log n = Some bytes /\ bytes <> []).

Lemma ztake_zdrop_zslice {A} a b n (l : list A) : 0 <= a -> 0 <= b <= n -> ztake b (zslice a n l) ++ zdrop (a + b) l = zdrop a l.
Proof.
  intros Ha Hb. unfold zslice. rewrite ztake_ztake, Z.min_l by lia. rewrite <- zdrop_zdrop by lia. apply ztake_zdrop.
Qed.

Lemma chunk_bound n : 0 < n -> 0 < chunk_size n <= n.
Proof. unfold chunk_size, INT_MAX. lia. Qed.

Lemma SendAll_loop_spec payload : zlen payload < 2 ^ 64 -> forall fuel offset log, 0 <= offset <= zlen payload -> zlen payload - offset <= Z.of_nat fuel ->
  exists r l, SendAll_loop fuel payload offset log = (r, log ++ l) /\ Forall (fun e => is_io e = true) l /\ received_of l = [] /\
    (reliable -> r = Ok tt) /\
    match r with Ok _ => sent_of l = zdrop offset payload | Throw e => io_failure e /\ sent_of l `prefix_of` zdrop offset payload end.
Proof.
  intros Hp. induction fuel as [|fuel IH]; intros offset log Ho Hf; cbn [SendAll_loop]; destruct (Z.ltb_spec offset (zlen payload)) as [Hlt|Hge]; cbn [negb]; [lia| | |].
  1,3: exists (Ok tt), []; rewrite app_nil_r, zdrop_all by lia; by split_and!.
  set (n := chunk_size (zlen payload - offset)). pose proof (chunk_bound (zlen payload - offset) ltac:(lia)) as Hn. fold n in Hn.
  assert (Hc : zlen (zslice offset n payload) = n) by (rewrite zlen_zslice; lia).
  unfold mbind, SE_bind. cbn [ask]. pose proof (send_documented log (zslice offset n payload)) as Hs. rewrite Hc in Hs.
  destruct (Z.eqb_spec (send log (zslice offset n payload)) SOCKET_ERROR) as [E|E].
  { exists (Throw system_error), []. rewrite app_nil_r. split_and!; [done|done|done| |by left|apply prefix_nil].
    intros [Hr _]. specialize (Hr log (zslice offset n payload)). rewrite E in Hr. unfold SOCKET_ERROR in Hr.
    destruct (zslice offset n payload); [rewrite zlen_nil in Hc; lia|]. specialize (Hr ltac:(done)). lia. }
  destruct Hs as [|Hs]; [done|]. destruct (Z.eqb_spec (send log (zslice offset n payload)) 0) as [E0|E0].
  { exists (Throw runtime_error), []. rewrite app_nil_r. split_and!; [done|done|done| |by right|apply prefix_nil].
    intros [Hr _]. specialize (Hr log (zslice offset n payload)). rewrite E0 in Hr.
    destruct (zslice offset n payload); [rewrite zlen_nil in Hc; lia|]. specialize (Hr ltac:(done)). lia. }
  set (k := send log (zslice offset n payload)) in *. cbn [tell]. rewrite (u64_small k), (u64_small (offset + k)) by lia.
  destruct (IH (offset + k) (log ++ [Sent (ztake k (zslice offset n payload))]) ltac:(lia) ltac:(lia)) as (r & l & E1 & Hl & Hr & Hrel & Hres).
  exists r, (Sent (ztake k (zslice offset n payload)) :: l). rewrite E1, <- app_assoc. split_and!; [done|by constructor|done|done|].
  rewrite sent_cons.
  pose proof (ztake_zdrop_zslice offset k n payload ltac:(lia) ltac:(lia)) as Hz. destruct r as [[]|e].
  - by rewrite Hres.
  - destruct Hres as [He Hpre]. split; [done|]. rewrite <- Hz. by apply prefix_app.
Qed.

Lemma SendAll_spec payload log : zlen payload < 2 ^ 64 ->
  exists r l, SendAll payload log = (r, log ++ l) /\ Forall (fun e => is_io e = true) l /\ received_of l = [] /\ (reliable -> r = Ok tt) /\
    match r with Ok _ => sent_of l = payload | Throw e => io_failure e /\ sent_of l `prefix_of` payload end.
Proof.
  intros Hp. destruct (SendAll_loop_spec payload Hp (length payload) 0 log) as (r & l & E & H1 & H2 & H3 & H4); [unfold zlen; lia..|].
  exists r, l. split_and!; [exact E|done..|]. by rewrite zdrop_0 in H4 by done.
Qed.

(** What a server may send back: a beginning of what it was sent *)
Definition echoes : Prop := forall log n bytes, received_of log `prefix_of` sent_of log -> recv log n = Some bytes ->
  received_of log ++ bytes `prefix_of` sent_of log.

Lemma ReceiveExact_loop_spec : forall fuel echoed offset log, zlen echoed < 2 ^ 64 -> 0 <= offset <= zlen echoed -> zlen echoed - offset <= Z.of_nat fuel ->
  exists r l, ReceiveExact_loop fuel echoed offset log = (r, log ++ l) /\ Forall (fun e => is_io e = true) l /\ sent_of l = [] /\
    (reliable -> exists echoed', r = Ok echoed') /\ (echoes -> received_of log `prefix_of` sent_of log -> received_of log ++ received_of l `prefix_of` sent_of log) /\
    match r with Ok echoed' => echoed' = ztake offset echoed ++ received_of l /\ zlen echoed' = zlen echoed | Throw e => io_failure e end.
Proof.
  induction fuel as [|fuel IH]; intros echoed offset log Hp Ho Hf; cbn [ReceiveExact_loop]; destruct (Z.ltb_spec offset (zlen echoed)) as [Hlt|Hge]; cbn [negb]; [lia| | |].
  1,3: exists (Ok echoed), []; rewrite !app_nil_r, ztake_all by lia; split_and!; [done..|by eexists|done|done|done].
  set (n := chunk_size (zlen echoed - offset)). pose proof (chunk_bound (zlen echoed - offset) ltac:(lia)) as Hn. fold n in Hn.
  unfold mbind, SE_bind. cbn [ask]. destruct (recv log n) as [bytes|] eqn:E.
  2:{ exists (Throw system_error), []. rewrite app_nil_r. split_and!; [done..| |by rewrite app_nil_r|by left].
      intros [_ Hr]. destruct (Hr log n ltac:(lia)) as (b & Eb & _). congruence. }
  pose proof (recv_documented log n bytes ltac:(lia) E) as Hb. destruct bytes as [|b0 bs].
  { exists (Throw runtime_error), []. rewrite app_nil_r. split_and!; [done..| |by rewrite app_nil_r|by right].
    intros [_ Hr]. destruct (Hr log n ltac:(lia)) as (b & Eb & Hne). congruence. }
  set (bytes := b0 :: bs) in *. assert (0 < zlen bytes) by (unfold bytes; rewrite zlen_cons; pose proof (zlen_nonneg bs); lia).
  destruct (Z.ltb_spec n (zlen bytes)) as [|_]; [lia|]. cbn [tell]. rewrite u64_small by lia.
  assert (Hz : zlen (zwrite offset bytes echoed) = zlen echoed) by (apply zlen_zwrite; lia).
  destruct (IH (zwrite offset bytes echoed) (offset + zlen bytes) (log ++ [Received bytes]) ltac:(lia) ltac:(lia) ltac:(lia)) as (r & l & E1 & Hl & Hs & Hrel & He & Hres).
  exists r, (Received bytes :: l). rewrite E1, <- app_assoc. split_and!; [done|by constructor|done|done| |].
  { intros Hecho Hpre. rewrite received_cons, app_assoc. rewrite received_app, sent_app in He. unfold received_of at 2 4, sent_of at 2 4 in He. cbn in He.
    rewrite !app_nil_r in He. apply He; [done|]. by eapply Hecho. }
  destruct r as [echoed'|e]; [|done]. destruct Hres as [-> Hlen]. split; [|lia]. rewrite received_cons, app_assoc. f_equal.
  unfold zwrite. rewrite app_assoc, ztake_app_le, ztake_all by (rewrite zlen_app, zlen_ztake; lia). done.
Qed.

Lemma ReceiveExact_spec n log : 0 <= n < 2 ^ 64 ->
  exists r l, ReceiveExact n log = (r, log ++ l) /\ Forall (fun e => is_io e = true) l /\ sent_of l = [] /\ (reliable -> exists echoed, r = Ok echoed) /\
    (echoes -> received_of log `prefix_of` sent_of log -> received_of log ++ received_of l `prefix_of` sent_of log) /\
    match r with Ok echoed => echoed = received_of l /\ zlen echoed = n | Throw e => io_failure e end.
Proof.
  intros Hn. assert (Hl : zlen (replicate (Z.to_nat n) Byte.x00) = n) by (rewrite zlen_replicate; lia).
  destruct (ReceiveExact_loop_spec (Z.to_nat n) (replicate (Z.to_nat n) Byte.x00) 0 log ltac:(lia) ltac:(lia) ltac:(lia)) as (r & l & E & H1 & H2 & H3 & Hp & H4).
  exists r, l. rewrite Hl in H4. split_and!; [exact E|done..|]. destruct r; [|done]. by rewrite ztake_0 in H4.
Qed.

(** Everything that was sent came back. *)
Definition settled (log : list Event) : Prop := received_of log = sent_of log.

Lemma Exchange_spec payload log : zlen payload < 2 ^ 64 ->
  exists r l, Exchange payload log = (r, log ++ l) /\ Forall (fun e => is_io e = true) l /\ (reliable -> exists echoed, r = Ok echoed) /\
    match r with
    | Ok echoed => echoes -> settled log -> echoed = payload /\ settled (log ++ l)
    | Throw e => io_failure e
    end.
Proof.
  intros Hp. unfold Exchange, mbind, SE_bind. destruct (SendAll_spec payload log Hp) as (r & l & -> & Hio & Hrec & Hrel & Hr).
  destruct r as [[]|e]; [|exists (Throw e), l; split_and!; [done|done|by intros [=]%Hrel|apply Hr]].
  destruct (ReceiveExact_spec (zlen payload) (log ++ l)) as (r & k & -> & Hio' & Hsent & Hrel' & Hpre & Hr'); [pose proof (zlen_nonneg payload); lia|].
  exists r, (l ++ k). rewrite app_assoc. split_and!; [done|by apply Forall_app|done|]. destruct r as [echoed|e]; [|done].
  intros He Hs. destruct Hr' as [-> Hlen]. unfold settled in *. rewrite !received_app, !sent_app, Hr, Hrec, Hs, Hsent, !app_nil_r in *.
  assert (received_of k = payload) as ->; [|done]. specialize (Hpre He ltac:(by eexists)). apply prefix_app_inv in Hpre. destruct Hpre as [x ->].
  rewrite zlen_app in Hlen. assert (x = []) as -> by (apply zlen_0; pose proof (zlen_nonneg x); lia). by rewrite app_nil_r.
Qed.

End transfer.

(** ** The dialogue *)

Definition outputs_of (log : list Event) : list (list byte) := omap (fun e => match e with Output t => Some t | _ => None end) log.
Definition made_of (log : list Event) : list Z := omap (fun e => match e with Made s => Some s | _ => None end) log.
Definition closed_of (log : list Event) : list Z := omap (fun e => match e with ClosedSocket s => Some s | _ => None end) log.
Definition winsock_of (log : list Event) : list WinsockEvent := omap (fun e => match e with Winsock e => Some e | _ => None end) log.

(** Events of the connection, and events of the dialogue *)
Definition is_setup (e : Event) : bool := match e with Made _ | SetTimeout _ _ _ | ConnectTried _ _ | ClosedSocket _ => true | _ => false end.
Definition is_talk (e : Event) : bool := match e with Sent _ | Received _ | Output _ => true | _ => false end.

Lemma omap_none {A B} (f : A -> option B) (p : A -> bool) l : (forall a, p a = true -> f a = None) -> Forall (fun a => p a = true) l -> omap f l = [].
Proof. intros Hf. induction 1 as [|a l Ha _ IH]; [done|]. cbn. by rewrite (Hf a Ha). Qed.

Ltac silent p := apply (omap_none _ p); [by intros []|assumption].

Lemma io_outputs l : Forall (fun e => is_io e = true) l -> outputs_of l = [].
Proof. intros Hl. silent is_io. Qed.
Lemma io_talk l : Forall (fun e => is_io e = true) l -> Forall (fun e => is_talk e = true) l.
Proof. intros Hl. eapply Forall_impl; [exact Hl|]. by intros []. Qed.
Lemma talk_silent l : Forall (fun e => is_talk e = true) l -> made_of l = [] /\ closed_of l = [] /\ winsock_of l = [].
Proof. intros Hl. split_and!; silent is_talk. Qed.
Lemma setup_silent l : Forall (fun e => is_setup e = true) l -> sent_of l = [] /\ received_of l = [] /\ outputs_of l = [] /\ winsock_of l = [].
Proof. intros Hl. split_and!; [unfold sent_of|unfold received_of|..]; try (silent is_setup); rewrite (omap_none _ is_setup l); done || by intros []. Qed.

Lemma outputs_app l k : outputs_of (l ++ k) = outputs_of l ++ outputs_of k.
Proof. apply omap_app. Qed.
Lemma made_app l k : made_of (l ++ k) = made_of l ++ made_of k.
Proof. apply omap_app. Qed.
Lemma closed_app l k : closed_of (l ++ k) = closed_of l ++ closed_of k.
Proof. apply omap_app. Qed.
Lemma winsock_app l k : winsock_of (l ++ k) = winsock_of l ++ winsock_of k.
Proof. apply omap_app. Qed.

(** What a user sees who types these lines *)
Fixpoint dialogue (lines : list (list byte)) : list (list byte) :=
  $"> " :: match lines with
           | [] => []
           | line :: lines => if decide (line = $"/quit") then [] else echo_line line :: dialogue lines
           end.

Definition fits (line : list byte) : Prop := zlen line < 2 ^ 64.

Section dialogue.
Context `{Documented}.

Lemma settled_talk log t : settled log -> settled (log ++ [Output t]).
Proof. unfold settled. by rewrite received_app, sent_app, !app_nil_r. Qed.

Lemma RunInteractive_loop_spec lines : Forall fits lines -> forall log, exists r l, RunInteractive_loop lines log = (r, log ++ l) /\
  Forall (fun e => is_talk e = true) l /\ (reliable -> r = Ok tt) /\ (forall e, r = Throw e -> io_failure e) /\
  (echoes -> settled log -> match r with Ok _ => outputs_of l = dialogue lines | Throw _ => outputs_of l `prefix_of` dialogue lines end).
Proof.
  induction 1 as [|line lines Hl _ IH]; intros log; cbn [RunInteractive_loop dialogue]; unfold mbind, SE_bind; cbn [tell].
  { exists (Ok tt), [Output $"> "]. split_and!; [done|by repeat constructor|done|done|done]. }
  destruct (decide (line = $"/quit")).
  { exists (Ok tt), [Output $"> "]. split_and!; [done|by repeat constructor|done|done|done]. }
  destruct (Exchange_spec line (log ++ [Output $"> "]) Hl) as (r & l & -> & Hio & Hrel & Hr). destruct r as [echoed|e].
  2:{ exists (Throw e), (Output $"> " :: l). rewrite <- app_assoc. split_and!; [done|constructor; [done|by apply io_talk]| | |].
      - intros Hx. by destruct (Hrel Hx).
      - by intros ? [= <-].
      - intros _ _. change (outputs_of (Output $"> " :: l)) with ($"> " :: outputs_of l). rewrite io_outputs by done. apply prefix_cons, prefix_nil. }
  set (log' := (log ++ [Output $"> "]) ++ l) in *.
  destruct (IH (log' ++ [Output (echo_line echoed)])) as (r & k & E & Hk & Hrel' & Hthrow & Hr').
  exists r, (Output $"> " :: l ++ Output (echo_line echoed) :: k). split_and!; [|..|done|done|].
  - rewrite E. unfold log'. by rewrite <- !app_assoc.
  - constructor; [done|]. apply Forall_app. split; [by apply io_talk|]. by constructor.
  - intros He Hs. destruct (Hr He) as [-> Hset]; [by apply settled_talk|]. specialize (Hr' He (settled_talk _ _ Hset)).
    change (Output $"> " :: l ++ Output (echo_line line) :: k) with ([Output $"> "] ++ l ++ [Output (echo_line line)] ++ k).
    rewrite !outputs_app, (io_outputs l) by done. cbn [app].
    change (outputs_of [Output ?t]) with [t]. destruct r; [by rewrite <- Hr'|]. by do 2 apply prefix_cons.
Qed.
End dialogue.

(** ** The program *)

Section program.
Context `{Documented}.

Lemma close_valid h : valid h = true -> close_handle h = [ClosedSocket (Get h)].
Proof. unfold valid, close_handle, destroy, Reset, Get. by destruct (socket_ h =? INVALID_SOCKET). Qed.

(** What precedes the connection, for one address *)
Lemma ConfigureTimeouts_spec s o log : exists r l, ConfigureTimeouts s o log = (r, log ++ l) /\
  Forall (fun e => is_setup e = true) l /\ made_of l = [] /\ closed_of l = [] /\
  match r with
  | Ok _ => l = [SetTimeout s true (u32 (receive_timeout o)); SetTimeout s false (u32 (send_timeout o))]
  | Throw e => e = system_error
  end.
Proof.
  unfold ConfigureTimeouts, mbind, SE_bind. cbn [ask]. destruct (setsockopt log); cbn [negb tell throw].
  2:{ exists (Throw system_error), []. rewrite app_nil_r. by split_and!. }
  destruct (setsockopt _); cbn [negb tell throw].
  2:{ exists (Throw system_error), [SetTimeout s true (u32 (receive_timeout o))]. split_and!; [done| |done..]. by repeat constructor. }
  exists (Ok tt), [SetTimeout s true (u32 (receive_timeout o)); SetTimeout s false (u32 (send_timeout o))]. unfold tell. rewrite <- app_assoc.
  split_and!; [done| |done..]. by repeat constructor.
Qed.

(** A socket that could be connected has its timeouts; all others that were made are closed. *)
Lemma connect_loop_spec o n : forall log, exists r l, connect_loop n o log = (r, log ++ l) /\ Forall (fun e => is_setup e = true) l /\
  match r with
  | Ok h => valid h = true /\ made_of l = closed_of l ++ [Get h] /\
      [Made (Get h); SetTimeout (Get h) true (u32 (receive_timeout o)); SetTimeout (Get h) false (u32 (send_timeout o)); ConnectTried (Get h) true] `suffix_of` l
  | Throw e => e = system_error /\ made_of l = closed_of l
  end.
Proof.
  induction n as [|n IH]; intros log; cbn [connect_loop].
  { exists (Throw system_error), []. rewrite app_nil_r. by split_and!. }
  unfold mbind, SE_bind. cbn [ask]. set (s := socket log). destruct (valid (mkSocketHandle s)) eqn:Ev; cbn [negb]; [|apply IH].
  cbn [tell]. change (Get (mkSocketHandle s)) with s. destruct (ConfigureTimeouts_spec s o (log ++ [Made s])) as (r & l & -> & Hl & Hm & Hc & Hr).
  assert (Hclose : close_handle (mkSocketHandle s) = [ClosedSocket s]) by (by apply close_valid).
  destruct r as [[]|e]; cbn [ask tell mret SE_ret].
  2:{ exists (Throw e), (Made s :: l ++ [ClosedSocket s]). rewrite Hclose. split_and!; [by rewrite <- !app_assoc| |done|].
      - constructor; [done|]. apply Forall_app. split; [done|by repeat constructor].
      - change (Made s :: l ++ [ClosedSocket s]) with ([Made s] ++ l ++ [ClosedSocket s]). by rewrite !made_app, !closed_app, Hm, Hc. }
  subst l. set (k := [SetTimeout s true (u32 (receive_timeout o)); SetTimeout s false (u32 (send_timeout o))]) in *.
  destruct (connect ((log ++ [Made s]) ++ k)).
  - exists (Ok (mkSocketHandle s)), (Made s :: k ++ [ConnectTried s true]). split_and!; [by rewrite <- !app_assoc|by repeat constructor|done..].
  - rewrite Hclose. destruct (IH (((((log ++ [Made s]) ++ k) ++ [ConnectTried s false])) ++ [ClosedSocket s])) as (r & l & -> & Hl' & Hr').
    exists r, ((Made s :: k ++ [ConnectTried s false; ClosedSocket s]) ++ l). split_and!; [by rewrite <- !app_assoc| |].
    + apply Forall_app. split; [by repeat constructor|done].
    + rewrite made_app, closed_app. destruct r as [h|e].
      * destruct Hr' as (Hv & -> & Hsuf). split_and!; [done|done|by apply suffix_app_r].
      * destruct Hr' as [-> ->]. done.
Qed.

Lemma Connect_spec o log : exists r l, Connect o log = (r, log ++ l) /\ Forall (fun e => is_setup e = true) l /\
  match r with Ok h => valid h = true /\ made_of l = closed_of l ++ [Get h] | Throw e => e = system_error /\ made_of l = closed_of l end.
Proof.
  unfold Connect. destruct (getaddrinfo _ _) as [n|].
  - destruct (connect_loop_spec o n log) as (r & l & -> & Hl & Hr). exists r, l. split_and!; [done|done|]. by destruct r; naive_solver.
  - exists (Throw system_error), []. rewrite app_nil_r. by split_and!.
Qed.

(** The output of a client that is connected *)
Definition expected_output (o : EchoClientOptions) : list (list byte) :=
  connected_text o :: if one_shot o then [$"echo: "; client_message o ++ [LF]]
                      else ($"메시지를 입력하세요. /quit 또는 Ctrl+Z로 종료합니다." ++ [LF]) :: dialogue std_cin.

Definition is_spoken (e : Event) : bool := is_talk e || match e with ShutDown _ => true | _ => false end.
Lemma spoken_silent l : Forall (fun e => is_spoken e = true) l -> made_of l = [] /\ closed_of l = [] /\ winsock_of l = [].
Proof. intros Hl. split_and!; silent is_spoken. Qed.
Lemma talk_spoken l : Forall (fun e => is_talk e = true) l -> Forall (fun e => is_spoken e = true) l.
Proof. intros Hl. eapply Forall_impl; [exact Hl|]. intros e He. unfold is_spoken. by rewrite He. Qed.

Lemma converse_spec o h : Forall fits std_cin -> fits (client_message o) -> forall log, exists r l, converse o h log = (r, log ++ l) /\
  Forall (fun e => is_spoken e = true) l /\ (reliable -> r = Ok tt) /\ (forall e, r = Throw e -> io_failure e) /\
  (echoes -> settled log -> match r with Ok _ => outputs_of l = expected_output o | Throw _ => outputs_of l `prefix_of` expected_output o end).
Proof.
  intros Hin Hm log. unfold converse, expected_output, mbind, SE_bind. cbn [tell]. set (log1 := log ++ [Output (connected_text o)]).
  assert (H1 : settled log -> settled log1) by apply settled_talk. destruct (one_shot o).
  - set (start := [Output (connected_text o); Output $"echo: "]). replace (log1 ++ [Output $"echo: "]) with (log ++ start) by (unfold log1; by rewrite <- app_assoc).
    assert (H2 : settled log -> settled (log ++ start)) by (intros Hs; change start with ([Output (connected_text o)] ++ [Output $"echo: "]); rewrite app_assoc; by apply settled_talk, settled_talk).
    destruct (Exchange_spec (client_message o) (log ++ start) Hm) as (r & l & -> & Hio & Hrel & Hr). destruct r as [echoed|e]; cbn [tell].
    + exists (Ok tt), (start ++ l ++ [Output (echoed ++ [LF]); ShutDown (Get h)]). split_and!; [unfold tell; by rewrite <- !app_assoc| |done|done|].
      * apply Forall_app. split; [by repeat constructor|]. apply Forall_app. split; [by apply talk_spoken, io_talk|by repeat constructor].
      * intros He Hs. destruct (Hr He (H2 Hs)) as [-> _]. rewrite !outputs_app, (io_outputs l) by done. done.
    + exists (Throw e), (start ++ l). split_and!; [by rewrite <- !app_assoc| |by intros Hx; destruct (Hrel Hx)|by intros ? [= <-]|].
      * apply Forall_app. split; [by repeat constructor|by apply talk_spoken, io_talk].
      * intros _ _. rewrite outputs_app, (io_outputs l) by done. cbn. do 2 apply prefix_cons. apply prefix_nil.
  - unfold RunInteractive, mbind, SE_bind. cbn [tell]. set (greeting := $"메시지를 입력하세요. /quit 또는 Ctrl+Z로 종료합니다." ++ [LF]).
    destruct (RunInteractive_loop_spec std_cin Hin (log1 ++ [Output greeting])) as (r & l & -> & Ht & Hrel & Hthrow & Hr).
    exists r, ([Output (connected_text o); Output greeting] ++ l ++ match r with Ok _ => [ShutDown (Get h)] | Throw _ => [] end).
    split_and!; [|..|done|done|].
    + unfold log1, tell. destruct r as [[]|e]; rewrite <- !app_assoc; [done|by rewrite app_nil_r].
    + apply Forall_app. split; [by repeat constructor|]. apply Forall_app. split; [by apply talk_spoken|destruct r; by repeat constructor].
    + intros He Hs. specialize (Hr He ltac:(by apply settled_talk, H1)). rewrite !outputs_app. destruct r; cbn [outputs_of omap list_omap app]; rewrite app_nil_r.
      * by rewrite <- Hr.
      * by do 2 apply prefix_cons.
Qed.

Lemma run_client_spec o : Forall fits std_cin -> fits (client_message o) -> forall log, winsock_of log = [] -> settled log -> outputs_of log = [] -> made_of log = [] ->
  closed_of log = [] -> exists r up body down, run_client o log = (r, log ++ map Winsock up ++ body ++ map Winsock down) /\
    up = (WinsockRuntime_make true startup_error).2 /\ closed_of body = made_of body /\ winsock_of body = [] /\
    (if startup_error =? 0 then down = WinsockRuntime_destroy cleaned (mkWinsockRuntime true) else body = [] /\ down = []) /\
    (forall e, r = Throw e -> io_failure e) /\
    (echoes -> outputs_of body `prefix_of` expected_output o /\ (r = Ok tt -> outputs_of body = expected_output o)) /\
    (reliable -> startup_error = 0 -> (exists h, (Connect o (log ++ map Winsock up)).1 = Ok h) -> r = Ok tt).
Proof.
  intros Hin Hm log Hw Hset Ho Hmade Hclosed. unfold run_client, WinsockRuntime_make. cbn [negb]. destruct (Z.eqb_spec startup_error 0) as [Hs|Hs]; cbn [negb snd].
  2:{ exists (Throw system_error), [CalledStartup; Logged Logging.Critical $"winsock.start_failed"], [], []. split_and!; try done.
      - by intros ? [= <-]; left.
      - intros _. split; [apply prefix_nil|done]. }
  set (up := [CalledStartup; Logged Logging.Info $"winsock.started"]). set (down := WinsockRuntime_destroy cleaned (mkWinsockRuntime true)).
  set (log1 := log ++ map Winsock up). assert (Hset1 : settled log1) by (unfold settled, log1 in *; by rewrite received_app, sent_app, Hset).
  unfold at_end at 1, mbind, SE_bind. destruct (Connect_spec o log1) as (r & l & EC & Hl & Hr). rewrite EC.
  destruct (setup_silent l Hl) as (Ls & Lr & Lo & Lw). destruct r as [h|e].
  2:{ destruct Hr as [-> Hr]. exists (Throw system_error), up, l, down. unfold log1. split_and!; try done.
      - by rewrite <- !app_assoc.
      - by intros ? [= <-]; left.
      - intros _. rewrite Lo. split; [apply prefix_nil|done].
      - intros _ _ [h Hh]. fold log1 in Hh. by rewrite EC in Hh. }
  destruct Hr as [Hv Hr]. unfold at_end. destruct (converse_spec o h Hin Hm (log1 ++ l)) as (r & k & -> & Hk & Hrel & Hthrow & Hout).
  destruct (spoken_silent k Hk) as (Km & Kc & Kw). rewrite close_valid by done.
  exists r, up, (l ++ k ++ [ClosedSocket (Get h)]), down. unfold log1. split_and!; [by rewrite <- !app_assoc|done| | |done|done| |auto].
  - rewrite !made_app, !closed_app, Hr, Km, Kc. cbn. by rewrite !app_nil_r.
  - by rewrite !winsock_app, Lw, Kw.
  - intros He. rewrite !outputs_app, Lo. cbn. rewrite app_nil_r. specialize (Hout He). unfold settled in Hout, Hset1. rewrite received_app, sent_app, Ls, Lr, Hset1 in Hout.
    specialize (Hout eq_refl). destruct r as [[]|e]; [by rewrite Hout|done].
Qed.

(** C22. A run of the client.  The program ends with the code 0 or 1; every socket that was made is closed, once
    and before Winsock is left, on every way out; and Winsock is left exactly if it could be started.
    If the server sends back nothing but what it was sent, the user sees of the dialogue only what it
    should be, every line followed by itself, and all of it when the code is 0.  And the code is 0 when
    a connection is found and no transfer fails. *)
Theorem echo_client_runs o : client_show_help o = false -> Forall fits std_cin -> fits (client_message o) ->
  exists code up body down, main (Ok o) [] = (Ok code, map Winsock up ++ body ++ map Winsock down) /\ (code = 0 \/ code = 1) /\
    closed_of body = made_of body /\ winsock_of body = [] /\ up = (WinsockRuntime_make true startup_error).2 /\
    (if startup_error =? 0 then down = WinsockRuntime_destroy cleaned (mkWinsockRuntime true) else body = [] /\ down = []) /\
    (echoes -> outputs_of body `prefix_of` expected_output o /\ (code = 0 -> outputs_of body = expected_output o)) /\
    (reliable -> startup_error = 0 -> (exists h, (Connect o (map Winsock up)).1 = Ok h) -> code = 0).
Proof.
  intros Hh Hin Hm. destruct (run_client_spec o Hin Hm [] eq_refl eq_refl eq_refl eq_refl eq_refl) as (r & up & body & down & E & Hup & Hc & Hw & Hd & Ht & Ho & Hr).
  unfold main, mbind, SE_bind. rewrite Hh, E. destruct r as [[]|e].
  - exists 0, up, body, down. split_and!; [done|by left|done|done|done|done| |done]. intros He. destruct (Ho He) as [H1 H2]. split; [done|]. intros _. by apply H2.
  - exists 1, up, body, down. split_and!; [by destruct (Ht e eq_refl) as [-> | ->]|by right|done|done|done|done| |].
    + intros He. destruct (Ho He) as [H1 _]. by split.
    + intros H1 H2 H3. by specialize (Hr H1 H2 H3).
Qed.
End program.

(** The other ways: the usage, and options that are not accepted *)
Lemma echo_client_usage `{World} o : client_show_help o = true -> main (Ok o) [] = (Ok 0, [Output EchoClientUsage]).
Proof. intros Hh. unfold main, mbind, SE_bind. by rewrite Hh. Qed.

Lemma echo_client_bad_options `{World} : main (Throw invalid_argument) [] = (Ok 1, []).
Proof. done. Qed.

(** ** A server that echoes

    It takes at most three bytes at a time and gives back what it has. *)

#[local] Instance echo_world : World := {|
  getaddrinfo _ _ := Some 2%nat;
  socket log := 7 + zlen log;
  setsockopt _ := true;
  connect log := 8 <? zlen log;
  send _ chunk := Z.min 3 (zlen chunk);
  recv log n := Some (ztake n (zdrop (zlen (received_of log)) (sent_of log)));
  std_cin := [$"hello"; []; $"/quit"; $"more"];
  startup_error := 0;
  cleaned := true;
|}.

#[local] Instance echo_documented : Documented.
Proof.
  split; cbn.
  - intros _ chunk. right. pose proof (zlen_nonneg chunk). lia.
  - intros log n bytes Hn [= <-]. rewrite zlen_ztake. lia.
Qed.

Lemma echo_world_echoes : echoes.
Proof.
  intros log n bytes [k Ek] [= <-]. rewrite Ek. unfold zdrop, zlen. rewrite Nat2Z.id, drop_app_length. apply prefix_app. exists (zdrop n k). symmetry. apply ztake_zdrop.
Qed.

Lemma echo_client_runs_witness : exists up body down, main (Ok EchoClientOptions_default) [] = (Ok 0, map Winsock up ++ body ++ map Winsock down) /\
  closed_of body = made_of body /\ outputs_of body = expected_output EchoClientOptions_default.
Proof.
  destruct (@echo_client_runs echo_world echo_documented EchoClientOptions_default eq_refl ltac:(repeat (apply Forall_cons_2 || apply Forall_nil_2); by vm_compute) ltac:(by vm_compute))
    as (code & up & body & down & E & _ & Hc & _ & _ & _ & Ho & _).
  assert (code = 0) as -> by (assert (Hm : (main (Ok EchoClientOptions_default) []).1 = Ok 0) by (by vm_compute); rewrite E in Hm; by injection Hm).
  exists up, body, down. split_and!; [exact E|exact Hc|]. by apply (proj2 (Ho echo_world_echoes)).
Defined.

(** What this user sees; the second address is the one that could be connected. *)
Lemma echo_client_example : outputs_of (main (Ok EchoClientOptions_default) []).2 =
  [$"127.0.0.1:9000에 연결했습니다." ++ [LF]; $"메시지를 입력하세요. /quit 또는 Ctrl+Z로 종료합니다." ++ [LF];
   $"> "; $"echo: hello" ++ [LF]; $"> "; $"echo: " ++ [LF]; $"> "] /\ closed_of (main (Ok EchoClientOptions_default) []).2 = [9; 14].
Proof. by vm_compute. Qed.
