(* ===== verification/Programs.v ===== *)
(** * The programs

    The [main] functions of the HTTP server, the echo server and the web application: what they
    print, and how they end.  What the configuration and the servers answer is an argument; the
    servers are those of [ServerLifecycle].  Exception texts are left out. *)

From S2P Require Import Prelude HttpMessage TcpListener Executor ConnectionRegistry ConfigUtils ServerLifecycle Usage.
From S2P Require HttpConfiguration EchoConfiguration WebAppConfiguration ThreadPoolExecutor IoContext.

(** A program returns from [main], or [std::terminate] is called. *)
Inductive Exit := Exited (code : Z) | Terminated.

Inductive Line := Cout (text : list byte) | Cerr (text : list byte).

(** The return from [main] destroys the server, whose destructor calls [Stop] once more and terminates the program if that
    fails; [destroyed] is the result of this call. *)
Definition leave (destroyed : bool) (code : Z) : Exit := if destroyed then Exited code else Terminated.

Definition http_started (address : list byte) (port : Z) : list byte :=
  $"HTTP server가 http://" ++ address ++ $":" ++ to_string port ++ $"/ 에서 실행 중입니다." ++ [LF] ++ $"종료하려면 Enter를 누르세요." ++ [LF].

(** [created] is what [HttpServer::Create] gives, with the port; [stopped] what [Stop] returns. *)
Definition http_main (options : result HttpConfiguration.HttpApplicationOptions) (created : result Z) (stopped destroyed : bool) : list Line * Exit :=
  match options with
  | Throw _ => ([Cerr $"HTTP server 실행 실패: "], Exited 1)
  | Ok o =>
      if HttpConfiguration.show_help o then ([Cout HttpApplicationUsage], Exited 0)
      else
        match created with
        | Throw _ => ([Cerr $"HTTP server 실행 실패: "], Exited 1)
        | Ok port => ([Cout (http_started (address (HttpConfiguration.listener (HttpConfiguration.server o))) port)], leave destroyed (if stopped then 0 else 1))
        end
  end.

Definition echo_started (address : list byte) (port : Z) : list byte :=
  $"Echo server가 " ++ address ++ $":" ++ to_string port ++ $"에서 실행 중입니다." ++ [LF] ++ $"종료하려면 Enter를 누르세요." ++ [LF].

(** [logger] is what [BuildLogger] gives. *)
Definition echo_main (options : result EchoConfiguration.EchoApplicationOptions) (logger : result unit) (created : result Z) (stopped destroyed : bool)
    : list Line * Exit :=
  match options with
  | Throw _ => ([Cerr $"Echo server 실행 실패: "], Exited 1)
  | Ok o =>
      if EchoConfiguration.echo_show_help o then ([Cout EchoApplicationUsage], Exited 0)
      else
        match (_ ← logger; created) with
        | Throw _ => ([Cerr $"Echo server 실행 실패: "], Exited 1)
        | Ok port =>
            let started := Cout (echo_started (address (EchoConfiguration.echo_listener (EchoConfiguration.echo_server o))) port) in
            if negb stopped then ([started; Cerr ($"정해진 시간 안에 server를 종료하지 못했습니다." ++ [LF])], leave destroyed 1)
            else ([started], leave destroyed 0)
        end
  end.

Definition webapp_started (address : list byte) (port : Z) : list byte :=
  $"웹앱이 실행 중입니다. 종료하려면 Enter를 누르세요..." ++ [LF] ++ $"URL: http://" ++ address ++ $":" ++ to_string port ++ [LF].

(** The result of [Stop] is not looked at, neither here nor in the destructor. *)
Definition webapp_main (options : result WebAppConfiguration.WebAppApplicationOptions) (created : result Z) : list Line * Exit :=
  match options with
  | Throw _ => ([Cerr $"웹앱 실행 실패: "], Exited 1)
  | Ok o =>
      if WebAppConfiguration.show_help o then ([Cout WebAppUsage], Exited 0)
      else
        match created with
        | Throw _ => ([Cerr $"웹앱 실행 실패: "], Exited 1)
        | Ok port => ([Cout (webapp_started (address (WebAppConfiguration.listener (WebAppConfiguration.server o))) port)], Exited 0)
        end
  end.

(** ** How a server program ends *)

Section ends.
Context (p f : list StopAction) (server : (p, f) ∈ servers).

(** A call of [Stop] returns [false] only while the server is stopping. *)
Lemma returned_step s s' : sinv p s -> step p f s s' ->
  returned s' = returned s \/ returned s' = returned s ++ [true] \/ (returned s' = returned s ++ [false] /\ state_ s = Stopping).
Proof.
  intros Hs Hst. pose proof (o_call p s (v_own p s Hs)) as Hc.
  destruct Hst as [s lo o a q l _ _|s lo o a q e _ _|s _|s _|c s s' Hact|s rest E _|s rest E _|s rest E _|s _|s l i b a pr cr _ _|s l l' _ _|s id b n r _|s l q _ _|s i _ _];
    try by left.
  - destruct (state_ s); [right; left|left|left|right; left]; done.
  - left. by destruct Hact.
  - right; right. rewrite E in Hc. split; [done|apply Hc].
  - right; right. rewrite E in Hc. split; [done|apply Hc].
  - right; right. rewrite E in Hc. split; [done|apply Hc].
  - by right; left.
  - left. unfold OnAccepted. cbn. destruct (negb _); [done|]. destruct (negb pr); [done|]. by destruct (negb cr).
Qed.

(** Once [Stop] has returned [true] it does so always. *)
Lemma stopped_stays_true s : server_reachable p f s -> forall l k, returned s = l ++ true :: k -> Forall (eq true) k.
Proof.
  induction 1 as [logger io pool tasks timeout s _ _ E|s s' Hr IH Hst]; intros l k Ek.
  - unfold Server_make in E. cbn in E. unfold throw_if in E. destruct logger, (tasks =? 0), (timeout <=? 0); try discriminate E. injection E as <-. by destruct l.
  - pose proof (server_sinv p f s Hr) as Hs. destruct (returned_step s s' Hs Hst) as [E|[E|[E Hst']]]; rewrite Ek in E.
    + by eapply IH.
    + destruct k as [|b k _] using rev_ind; [done|]. rewrite app_comm_cons, app_assoc in E. apply app_inj_tail in E as [E Eb]. subst b. symmetry in E.
      apply Forall_app. split; [by eapply IH|by constructor].
    + exfalso. apply (not_returned p s Hs); [congruence|]. destruct k as [|b k _] using rev_ind.
      * by apply app_inj_tail in E as [_ [=]].
      * rewrite app_comm_cons, app_assoc in E. apply app_inj_tail in E as [<- _]. set_solver.
Qed.

(** Nothing of the server is left. *)
Definition nothing_left (s : Server) : Prop :=
  state_ s = Stopped /\ listener_stopped s = true /\ connections_ (registry_ s) = ∅ /\ IoContext.joined (IoContext.workers (io_ s)) = true /\
  (p = http_stop -> ThreadPoolExecutor.IsStopped (pool_ s) = true).

Lemma true_nothing_left s : server_reachable p f s -> listener_ s <> None -> true ∈ returned s -> nothing_left s.
Proof.
  intros Hr Hl Ht. pose proof (server_sinv p f s Hr) as Hs. pose proof (o_returned p s (v_own p s Hs) Ht) as Es.
  destruct (o_stopped p s (v_own p s Hs) Es) as [_ [|Hf]]; [done|]. destruct (servers_waits p f server) as (W1 & W2 & _ & _ & W5 & W6).
  split_and!; [done|exact (Hf _ W1 (not_elem_of_nil _))|exact (Hf _ W2 (not_elem_of_nil _))|exact (Hf _ W5 (not_elem_of_nil _))|].
  intros Hp. exact (Hf _ (W6 Hp) (not_elem_of_nil _)).
Qed.

(** The two calls of [Stop] of a program, one in [main] and one in the destructor *)
Lemma two_stops s stopped destroyed : server_reachable p f s -> listener_ s <> None -> returned s = [stopped; destroyed] ->
  (stopped = true -> destroyed = true) /\ (destroyed = true -> nothing_left s).
Proof.
  intros Hr Hl Hret. split; intros ->.
  - pose proof (stopped_stays_true s Hr [] [destroyed] Hret) as H. by inversion H.
  - apply true_nothing_left; [done..|]. rewrite Hret. set_solver.
Qed.
End ends.

(** C18. How the HTTP and the echo server end.  Let a server that was started be given to [main], and let [main] and the
    destructor call [Stop].  Then either the program returns from [main] and nothing of the server is left, with the
    code 0 exactly if the first call had completed; or both calls ran out of time and the program is terminated.  It never
    returns with a server of which something is left. *)
Theorem server_program_ends p f s port stopped destroyed : (p, f) ∈ servers -> server_reachable p f s -> listener_ s <> None ->
  returned s = [stopped; destroyed] ->
  forall exit, (exists o, HttpConfiguration.show_help o = false /\ exit = (http_main (Ok o) (Ok port) stopped destroyed).2) \/
               (exists o, EchoConfiguration.echo_show_help o = false /\ exit = (echo_main (Ok o) (Ok tt) (Ok port) stopped destroyed).2) ->
  (exit = Terminated /\ stopped = false /\ destroyed = false) \/
  (exists code, exit = Exited code /\ nothing_left p s /\ (code = 0 \/ code = 1) /\ (code = 0 <-> stopped = true)).
Proof.
  intros Hin Hr Hl Hret exit Hexit. destruct (two_stops p f Hin s stopped destroyed Hr Hl Hret) as [Hs Hd].
  assert (Hx : exit = leave destroyed (if stopped then 0 else 1)).
  { destruct Hexit as [(o & Ho & ->)|(o & Ho & ->)]; cbn; rewrite Ho; [done|]. by destruct stopped. }
  subst exit. unfold leave. destruct destroyed; [right|left; by destruct stopped; [specialize (Hs eq_refl)|]].
  exists (if stopped then 0 else 1). split_and!; [done|by apply Hd|destruct stopped; auto|by destruct stopped].
Qed.

(** A program that is given the help option, or options that are not accepted, starts no server. *)
Lemma http_main_without_server o created stopped destroyed :
  (HttpConfiguration.show_help o = true -> http_main (Ok o) created stopped destroyed = ([Cout HttpApplicationUsage], Exited 0)) /\
  (forall e, (http_main (Throw e) created stopped destroyed).2 = Exited 1).
Proof. split; [|done]. intros Ho. cbn. by rewrite Ho. Qed.

(** The sample server of [ServerLifecycle] after both calls *)
Definition sample_left : Server := return_ true sample_stopped.

Lemma sample_left_reachable : server_reachable http_stop http_start_failed sample_left.
Proof.
  apply (server_next _ _ sample_stopped); [eapply server_steps_reachable, sample_stopped_steps; apply sample_waiting_reachable|].
  exact (step_stop_begin http_stop http_start_failed sample_stopped eq_refl).
Qed.

Lemma server_program_ends_witness :
  (http_main (Ok HttpConfiguration.HttpApplicationOptions_default) (Ok 8080) true true).2 = Exited 0 /\ nothing_left http_stop sample_left.
Proof.
  split; [reflexivity|].
  destruct (server_program_ends http_stop http_start_failed sample_left 8080 true true ltac:(left) sample_left_reachable ltac:(discriminate) eq_refl
    (Exited 0) ltac:(left; exists HttpConfiguration.HttpApplicationOptions_default; by split)) as [[H _]|(code & _ & H & _)]; [discriminate H|exact H].
Defined.
