(* ===== verification/WebAppServer.v ===== *)
(** * The life of the web application

    The constructor, [Start], [OnAccepted], [LocalPort] and the destructor of [WebAppServer], with the
    components it makes; its [Stop] is [webapp_stop] of [ServerLifecycle].  [state_] is not
    protected by a mutex here, so [OnAccepted] is two steps: the test, and the rest. *)

From S2P Require Import Prelude HttpMessage HttpRouter HttpResponseEncoder HttpSession TcpConnection ConnectionRegistry PlatformWindows WebAppBoard WebAppDatabase ServerLifecycle.
From S2P Require ThreadPoolExecutor SerialExecutor TcpListener IoContext.

Section webapp.
Context `{Sqlite}.

(** The constructor, with the errors of [WSAStartup] and [CreateIoCompletionPort], whether the threads can be started, and what
    [sqlite3_open] gives *)
Definition WebAppServer_make (logger : bool) (startup_error create_error : Z) (io_threads : bool) (pool_threads : nat -> bool) (opened : option DB)
    : result (Server * DB) :=
  _ ← (WinsockRuntime_make logger startup_error).1;
  '(context, workers) ← IoContext.IoContext_make 2 logger create_error io_threads;
  pool ← ThreadPoolExecutor.ThreadPoolContext_make 2 1024 false pool_threads;
  db ← Database_make opened;
  Ok (mkServer Created None ConnectionRegistry_make pool (IoContext.mkSystem context [] workers [] [] [] []) None [] [], db).

(** [Start]: the state is set before the listener is made, and stays if that throws. *)
Definition webapp_Start (logger : bool) (o : TcpListener.ListenerOptions) (a : TcpListener.CreateAnswers) (p : TcpListener.PostAnswer) (s : Server)
    : result unit * Server :=
  let s := set_state Running s in
  match TcpListener.Create logger true o a p with
  | Ok l => (Ok tt, set_listener (TcpListener.mkSystem l [TcpListener.mkOp 1 TcpListener.Pending] 2 []) s)
  | Throw e => (Throw e, s)
  end.

(** What [Stop] does; without a listener it begins behind it. *)
Definition webapp_Stop (s : Server) : list StopAction :=
  if decide (state_ s = Stopped) then [] else if listener_ s is Some _ then webapp_stop else drop 2 webapp_stop.

Definition webapp_LocalPort (s : Server) : Z := LocalPort s.

(** The test of [OnAccepted] *)
Definition accepts (s : Server) : bool := bool_decide (state_ s = Running).

(** What a connection needs besides its socket *)
Definition connection_parts (router : HttpRouter) : result unit :=
  _ ← SerialExecutor.SerialExecutor_make true 128 false;
  _ ← HttpResponseEncoder_make HttpResponseEncoderOptions_default;
  _ ← HttpSession_make (Some router) true true 0 HttpSessionOptions_default;
  Ok tt.

(** The rest of [OnAccepted]; [socket] says whether the socket is valid.  An exception is logged. *)
Definition register (router : HttpRouter) (socket : bool) (s : Server) : Server :=
  match connection_parts router with
  | Throw _ => s
  | Ok _ =>
      let '(id, registry) := NextId (registry_ s) in
      let s := set_registry registry s in
      match TcpConnection_make id socket true true ConnectionOptions_default with
      | Throw _ => s
      | Ok _ => set_registry (Add (fun i => i) (Some id) (registry_ s)).2 s
      end
  end.

Definition webapp_OnAccepted (router : HttpRouter) (socket : bool) (s : Server) : Server := if negb (accepts s) then s else register router socket s.

(** The options of the connections are accepted by all components, so a connection is made of every socket, and without
    interference [OnAccepted] is that of the other servers. *)
Lemma connection_parts_made router : connection_parts router = Ok tt.
Proof. reflexivity. Qed.

Lemma connection_made id socket : id <> 0 -> (exists c, TcpConnection_make id socket true true ConnectionOptions_default = Ok c) <-> socket = true.
Proof.
  intros Hid. unfold TcpConnection_make. cbn. rewrite (proj2 (Z.eqb_neq id 0) Hid). destruct socket; cbn; [|naive_solver]. split; [done|]. intros _. by eexists.
Qed.

Lemma webapp_OnAccepted_undisturbed router socket s : (NextId (registry_ s)).1 <> 0 -> webapp_OnAccepted router socket s = OnAccepted true socket s.
Proof.
  intros Hid. unfold webapp_OnAccepted, OnAccepted, accepts, register. rewrite connection_parts_made. cbn [negb]. destruct (negb _); [done|].
  destruct (NextId (registry_ s)) as [id registry]. cbn [fst] in Hid. pose proof (connection_made id socket Hid) as Hc.
  destruct (TcpConnection_make id socket true true ConnectionOptions_default) as [c|e], socket; cbn [negb]; try done.
  - destruct Hc as [Hc _]. discriminate Hc. by eexists.
  - destruct Hc as [_ Hc]. by destruct (Hc eq_refl).
Qed.

(** A connection whose test came before [Stop] is registered whatever [Stop] has done meanwhile; with the other servers that is not possible. *)
Lemma late_registration router s id registry : NextId (registry_ s) = (id, registry) -> id <> 0 -> connections_ registry !! id = None ->
  connections_ (registry_ (register router true s)) !! id = Some id /\ (closing s -> OnAccepted true true s = s).
Proof.
  intros E Hid Hn. split; [|apply OnAccepted_closing]. unfold register. rewrite connection_parts_made, E.
  destruct (proj2 (connection_made id true Hid) eq_refl) as [c ->]. cbn [registry_ set_registry]. unfold Add. rewrite Hn. cbn. apply lookup_insert_eq.
Qed.

(** If the constructor returns, all its parts do; a database that cannot be opened is one of the reasons for it to throw. *)
Lemma WebAppServer_make_ok logger e1 e2 io_threads opened :
  (exists r, WebAppServer_make logger e1 e2 io_threads (fun _ => true) opened = Ok r) <->
  logger = true /\ e1 = 0 /\ e2 = 0 /\ io_threads = true /\ opened <> None.
Proof.
  unfold WebAppServer_make, WinsockRuntime_make, IoContext.IoContext_make, IoContext.IoContextState_make, throw_if.
  destruct logger; [|naive_solver]. destruct (Z.eqb_spec e1 0); [|naive_solver]. destruct (Z.eqb_spec e2 0); [|naive_solver].
  destruct io_threads; [|naive_solver]. destruct opened; cbn; [|naive_solver]. split; [done|]. intros _. by eexists.
Qed.

(** After a [Start] that failed there is no listener, and [Stop] does without. *)
Lemma webapp_Start_failed logger o a p s e : listener_ s = None -> (webapp_Start logger o a p s).1 = Throw e ->
  webapp_Stop (webapp_Start logger o a p s).2 = [CloseConnections; TryWaitRegistry; StopExecutor Executor.Drain; TryWaitExecutor; JoinExecutor; StopIo; JoinIo].
Proof. intros Hl. unfold webapp_Start, webapp_Stop. destruct (TcpListener.Create _ _ _ _ _); [done|]. intros _. cbn. by rewrite Hl. Qed.
End webapp.
