(* ===== verification/Conformance.v ===== *)
(** * The tests of the program

    Tests of [tests/] run on the models: [http_chunked_tests.cpp], [http_tests.cpp],
    [webapp_handler_tests.cpp].  Each example has the name of the test whose input and expected
    values it has. *)

From S2P Require Import Prelude BufferSequence HttpMessage HttpRequestParser HttpParserSplit HttpRouter HttpResponseEncoder StringMap.
From S2P Require SimpleTemplate WebAppBoard.

(** ** The parser *)

Definition lines (ls : list (list byte)) : list byte := concat (map (fun l => l ++ CRLF) ls).

(** A parser is fed the contents of the buffer after each append. *)
Definition parse (o : HttpParserOptions) (wires : list (list byte)) : option HttpParseResult :=
  match (p ← HttpRequestParser_make o; feed (map input_of wires) p) with Ok (r, _) => Some r | Throw _ => None end.

Definition ParseWhole (o : HttpParserOptions) (wire : list byte) : option HttpParseResult := parse o [wire].
Definition ParseSplit (wire : list byte) (split : nat) : option HttpParseResult := parse HttpParserOptions_default [take split wire; wire].

(** The body of a complete request *)
Definition body_of (r : option HttpParseResult) : option (list byte) :=
  r ← r; if decide (status r = Complete_) then Some (body (request r)) else None.
Definition error_of (r : option HttpParseResult) : option HttpParseError :=
  r ← r; if decide (status r = Error_) then Some (error r) else None.

Definition default_body := fun wire => body_of (ParseWhole HttpParserOptions_default wire).
Definition default_error := fun wire => error_of (ParseWhole HttpParserOptions_default wire).

Definition upload (chunks : list (list byte)) : list byte :=
  lines ([$"POST /upload HTTP/1.1"; $"Host: localhost"; $"Transfer-Encoding: chunked"; []] ++ chunks ++ [$"0"; []]).

Example TestSimpleChunked : default_body (upload [$"5"; $"hello"]) = Some $"hello".
Proof. by vm_compute. Qed.
Example TestMultipleChunks : default_body (upload [$"3"; $"foo"; $"4"; $"bar "]) = Some $"foobar ".
Proof. by vm_compute. Qed.
Example TestChunkedWithExtensions : default_body (upload [$"5;myext=123"; $"hello"]) = Some $"hello".
Proof. by vm_compute. Qed.
Example TestEmptyChunked : default_body (upload []) = Some [].
Proof. by vm_compute. Qed.
Example TestChunkedAtSplits : let wire := upload [$"A"; $"hello worl"; $"1"; $"d"] in
  forallb (fun split => bool_decide (body_of (ParseSplit wire split) = Some $"hello world")) (seq 1 (length wire - 1)) = true.
Proof. by vm_compute. Qed.
Example TestContentLengthAndChunkedConflict :
  default_error (lines [$"POST / HTTP/1.1"; $"Host: a"; $"Content-Length: 5"; $"Transfer-Encoding: chunked"; []]) <> None.
Proof. by vm_compute. Qed.

Definition get_wire : list byte := lines [$"GET /health?verbose=1 HTTP/1.1"; $"Host: localhost"; $"X-Trace: abc"; []].

Example TestGetAtEverySplitBoundary : forallb (fun split => match ParseSplit get_wire split with
    | Some r => bool_decide (status r = Complete_) && (consumed_bytes r =? zlen get_wire) && bool_decide (method (request r) = Get) &&
        bool_decide (path (request r) = $"/health") && bool_decide (query (request r) = $"verbose=1") && keep_alive (request r) &&
        bool_decide (Header (request r) $"X-TRACE" = Some $"abc")
    | None => false
    end) (seq 0 (S (length get_wire))) = true.
Proof. by vm_compute. Qed.

Definition expect_error (wire : list (list byte)) (e : HttpParseError) : Prop := default_error (lines wire) = Some e.

Example TestParserErrorsAndLimits :
  default_error ($"GET / HTTP/1.1" ++ [LF] ++ $"Host: x" ++ CRLF ++ CRLF) = Some InvalidLineEnding /\
  expect_error [$"GET / HTTP/1.1"; []] MissingHost /\
  expect_error [$"GET / HTTP/1.1"; $"Host: a"; $"Host: b"; []] DuplicateHost /\
  expect_error [$"POST / HTTP/1.1"; $"Host: a"; $"Content-Length: 1"; $"Content-Length: 1"; []] DuplicateContentLength /\
  expect_error [$"POST / HTTP/1.1"; $"Host: a"; $"Content-Length: x"; []] InvalidContentLength /\
  expect_error [$"POST / HTTP/1.1"; $"Host: a"; $"Transfer-Encoding: something-unsupported"; []] UnsupportedTransferEncoding /\
  expect_error [$"GET / HTTP/1.0"; $"Host: a"; []] UnsupportedVersion /\
  expect_error [$"GET absolute HTTP/1.1"; $"Host: a"; []] InvalidTarget /\
  (let d := HttpParserOptions_default in
   error_of (ParseWhole (mkParserOptions 8 (maximum_header_bytes d) (maximum_header_count d) (maximum_body_bytes d))
     (lines [$"GET /long HTTP/1.1"; $"Host: a"; []])) = Some RequestLineTooLarge /\
   error_of (ParseWhole (mkParserOptions (maximum_request_line_bytes d) (maximum_header_bytes d) 1 (maximum_body_bytes d))
     (lines [$"GET / HTTP/1.1"; $"Host: a"; $"X: b"; []])) = Some TooManyHeaders /\
   error_of (ParseWhole (mkParserOptions (maximum_request_line_bytes d) (maximum_header_bytes d) (maximum_header_count d) 3)
     (lines [$"POST / HTTP/1.1"; $"Host: a"; $"Content-Length: 4"; []] ++ $"test")) = Some BodyTooLarge).
Proof. by vm_compute. Qed.

(** ** Responses and routes *)

(** The head has the lines of the test. *)
Definition has (line : list byte) (head : list byte) : bool := match find (line ++ CRLF) head 0 with Some _ => true | None => false end.

Example TestResponseEncoder :
  match Encode HttpResponseEncoderOptions_default (let r := MakeTextResponse 200 $"hello" $"text/plain" in
      mkResponse (status_code r) (reason_phrase r) (resp_headers r ++ [mkHeader $"X-Trace" $"abc"]) (resp_body r) (close_connection r)) with
  | Ok e => forallb (fun l => has l (head e)) [$"HTTP/1.1 200 OK"; $"Content-Type: text/plain"; $"X-Trace: abc"; $"Content-Length: 5"; $"Connection: keep-alive"] = true /\
      encoded_body e = $"hello" /\ encoded_close e = false
  | Throw _ => False
  end.
Proof. by vm_compute. Qed.

Example TestRouterFallbacks :
  match Register Get $"/health" (Some (fun _ => Ok (MakeTextResponse 200 $"healthy" $"text/plain"))) ∅ with
  | Ok (registered, router) =>
      let answer m p close := dispatch_task (route_request router (mkRequest m [] [] p [] [] [] true 1 1)) (mkRequest m [] [] p [] [] [] true 1 1) close in
      registered = true /\ status_code (answer Get $"/health" false) = 200 /\ status_code (answer Post $"/health" false) = 405 /\
      Some (mkHeader $"Allow" $"GET") = resp_headers (answer Post $"/health" false) !! 1%nat /\
      status_code (answer Get $"/missing" true) = 404 /\ close_connection (answer Get $"/missing" true) = true
  | Throw _ => False
  end.
Proof. by vm_compute. Qed.

(** ** The web application *)

Import WebAppBoard.

Example TestLogin : TryLogin $"admin" $"admin123" = $"admin" /\ TryLogin $"admin" $"wrong" = [] /\ TryLogin $"nobody" $"pass" = [].
Proof. by vm_compute. Qed.
Example TestCreateEmptyPost next now : CreatePost [] $"x" $"admin" next now = Throw invalid_argument /\ CreatePost $"x" [] $"admin" next now = Throw invalid_argument.
Proof. done. Qed.
Example TestHtmlEscape : HtmlEscape $"<script>" = $"&lt;script&gt;" /\ HtmlEscape $"a & b" = $"a &amp; b" /\
  HtmlEscape (quoted $"quote") = $"&quot;quote&quot;" /\ HtmlEscape $"normal text" = $"normal text".
Proof. by vm_compute. Qed.
Example TestTemplateRendering :
  SimpleTemplate.Render_values [($"title", $"Hello"); ($"body", $"World")] (SimpleTemplate.SimpleTemplate_make $"<h1>{{title}}</h1><p>{{body}}</p>") =
    Ok $"<h1>Hello</h1><p>World</p>" /\
  SimpleTemplate.Render_values [($"exists", $"value")] (SimpleTemplate.SimpleTemplate_make $"<p>{{exists}} {{missing}}</p>") = Ok $"<p>value </p>".
Proof. by vm_compute. Qed.
